(* ===== verification/_CoqProject ===== *)
-Q . S2P
Prelude.v
Types.v
Events.v
Utils.v
UtilsProps.v
StreamMachine.v
StreamProps.v
SessionMachine.v
SessionProps.v
SessionSteps.v
SessionRuns.v
SessionTheorems.v
SessionOutcomes.v
SessionStreams.v
ConnectionMachine.v
ConnectionProps.v
ConnectionRuns.v
ConnectionRequests.v
ConnectionSteps.v
ConnectionLimits.v
ConnectionTheorems.v
ConnectionOutcomes.v
Qpack.v
QpackLiteral.v
H3Machine.v
H3Props.v
H3Reads.v
H3Wire.v
EngineMachine.v
H3Theorems.v
H3Codec.v
H3Headers.v
H3Invariant.v
EngineProps.v
EngineRuns.v
EngineTheorems.v
Quinn.v
QuinnPipe.v
TransportMachine.v
TransportProps.v
TransportRuns.v
TransportStreams.v
TransportSteps.v
TransportTimers.v
TransportClose.v
TransportTheorems.v
EndpointMachine.v
EndpointProps.v
EndpointTheorems.v
ReactorMachine.v
ReactorEvents.v
ReactorTheorems.v
Pyo3.v
FfiConversion.v
PyConversion.v
ConversionTheorems.v
FfiConstants.v
PyConfig.v
FfiConfig.v
QuicConfig.v
FfiEndpoint.v
ConfigTheorems.v
FfiEndpointTheorems.v
WakerMachine.v
WakerTheorems.v
PyConnection.v
PyController.v
ControllerTheorems.v
Certificate.v
PyStreamIo.v
PyStreamTheorems.v
PyRequests.v
PyRequestTheorems.v
PyClient.v
PyClientTheorems.v
PyServer.v
PyEmitter.v
PyDatagrams.v
PyLifecycle.v
ReactorReceive.v
