(* ===== verification/Prelude.v ===== *)
(** * Verification of pywebtransport

    pywebtransport is a WebTransport (HTTP/3 over QUIC) library: a Rust crate,
    [crates/src], with a Python package on top.  The crate is written without I/O in
    its core: state machines take events and return effects, and the layers around
    them turn effects into QUIC calls and QUIC calls into events.  This development
    is a shallow embedding of that crate, from the bytes of a variable-length integer
    to the reactor that runs an endpoint and the calls Python makes on it, and of the
    parts of the package, [src/pywebtransport], that the crate talks to, with the
    theorems that make them correct.

    ** The program and its model

    From the inside out, with the file that holds the definitions and the source it
    translates (the name of a definition is the name of the Rust function; where a
    long function is cut into parts, the parts are named after what they do):

    - [Types.v], [Events.v]: constants, states, errors, events, effects, diagnostics
      ([common/constants.rs], [common/types.rs], [common/error.rs],
      [protocol/events.rs]).
    - [Utils.v]: variable-length integers, error-code maps, stream identifiers, header
      checks, structured fields ([protocol/utils.rs]).
    - [StreamMachine.v], [SessionMachine.v], [ConnectionMachine.v]: the three nested
      state machines ([protocol/stream.rs], [session.rs], [connection.rs]).  A struct
      is a record, a method a function from the record to the new record and the list
      of its effects.  Requests of the user carry an identifier and are answered by a
      [NotifyRequestDone] or [NotifyRequestFailed] effect.
    - [Qpack.v]: the wrapper around ls-qpack ([protocol/qpack.rs]), the C library
      being the class [LsQpack]; [QpackLiteral.v] is an instance to run examples with.
    - [H3Machine.v]: framing, SETTINGS, capsules, datagrams, header validation
      ([protocol/h3.rs]).
    - [EngineMachine.v]: the orchestrator of connection and HTTP/3 with its event
      queue ([protocol/engine.rs]).
    - [Quinn.v]: what the code calls of quinn-proto, as the classes [Quinn],
      [QuinnEndpoint] and, with the documented laws of streams, [QuinnStreams];
      [QuinnPipe.v] is an instance of all three.
    - [TransportMachine.v]: the coordinator that carries effects out on a QUIC
      connection and turns its events into events of the engine
      ([transport/connection.rs]).
    - [EndpointMachine.v]: the connections of a UDP endpoint ([transport/endpoint.rs],
      [common/config.rs]).
    - [ReactorMachine.v]: the loop of the runtime thread and its queues
      ([runtime/reactor.rs], [runtime/channel.rs]); [ReactorReceive.v]: the receive task
      it has for each socket, with the buffer of the crate bytes as the class [BytesMut].
    - [Pyo3.v]: Python objects, and what the crate calls of PyO3 as the class [PyO3]
      with the documented laws [PyO3Laws] and an instance, [Builtin].
    - [FfiConversion.v], [FfiConstants.v]: conversions and constants on the side of the
      crate ([ffi/types.rs], [abi.rs], [error.rs], [conversion.rs], [constants.rs]);
      [PyConversion.v]: the same tables and tuples on the side of the package
      ([types.py], [_controller/abi.py], [events.py], [conversion.py]).
    - [PyConfig.v]: the configuration classes and their checks ([config.py]);
      [FfiConfig.v]: how the crate reads them ([ffi/config.rs]); [QuicConfig.v]: what it
      makes of them for quinn and rustls ([transport/config.rs], part of
      [tls/certificate.rs]), those being the classes [QuinnConfig] and [Rustls].
    - [FfiEndpoint.v]: the endpoint Python holds ([ffi/endpoint.rs]), on the class
      [Host]; its module [System] is that endpoint and the reactor as two threads that
      share the command channel and the event queue.
    - [WakerMachine.v]: the flag and the socket pair between them ([ffi/waker.rs],
      [_run_waker_loop] of [_controller/controller.py]), action by action.
    - [PyConnection.v], [PyController.v]: the handles of connections, sessions and
      streams, pending requests, and the processing of events in the package
      ([connection.py], [session.py], [stream.py], [_controller/pending.py],
      [controller.py]).
    - [PyStreamIo.v]: the reading coroutines of a stream and the task they share
      ([stream.py]); [PyRequests.v]: the coroutines of streams, sessions and connections
      that send requests, from their checks to what they raise, and the loop of
      [write_all] ([stream.py], [session.py], [connection.py]); [PyDatagrams.v]:
      [read_datagram] and the task its calls share ([session.py]).
    - [PyLifecycle.v]: starting and closing a controller, with the sockets, endpoint and
      waker it holds, and sending to the endpoint ([controller.py]).
    - [PyClient.v]: the URL, headers and addresses of a connection and the race of the
      attempts ([client.py]), with the case mapping of [str] as the class [PyUnicode];
      [PyServer.v]: listening and closing, and the queues of incoming connections,
      sessions and streams ([server.py], the generators of [connection.py] and
      [session.py]); [PyEmitter.v]: handlers and the dispatch of events ([events.py]).
      A coroutine is cut at its awaits, and what runs in between is any sequence of
      actions.
    - [Certificate.v]: certificates for development ([tls/certificate.rs],
      [ffi/certificate.rs]), on the classes [Rcgen], [Time] and [FileSystem].

    The layers compose as in the code: Python sends a command through the endpoint it
    holds; the reactor takes it and calls the endpoint of the transport, which calls a
    coordinator, which calls its engine, which calls the connection and HTTP/3
    machines, and so down to streams.  The effects meant for the user go back the same
    way, through the queue and the waker, to the controller of the package.

    ** What is proved

    - Streams ([StreamProps.v]): bytes are sent in order and none twice, reads lose
      nothing, every request is answered once.
    - Sessions ([SessionProps.v] to [SessionStreams.v]): an invariant kept by every
      operation in every order ([SessionR.reachable]); from it flow control in both
      directions, no stalled write or stream request, one answer per request, bounded
      queues, and that an ended session holds nothing.
    - Connections ([ConnectionProps.v] to [ConnectionOutcomes.v]): every run of a
      connection drives each of its sessions through a run of the session machine, so
      the session theorems hold inside it; streams and sessions are routed to their
      owner, memory is bounded, and every request is answered once or still held.
    - HTTP/3 ([H3Props.v] to [H3Invariant.v]): the incremental parser does not depend
      on how the bytes are cut, ends, and reads back what the encoders write; header
      validation is exactly the stated grammar.
    - Engine ([EngineProps.v] to [EngineTheorems.v]): its event loop ends; every turn
      is a step of the connection machine; no request is lost between the layers.
    - Coordinator ([TransportProps.v] to [TransportTheorems.v]): the contract of
      [process_effects]; with it the assumption of the connection machine that each
      stream it asks for comes back exactly once is discharged; stream data crosses
      whole and in order; timers re-arm; a close completes.
    - Endpoint and reactor ([EndpointProps.v] to [ReactorTheorems.v]): the limit on
      connections, delivery of all effects before a connection is removed, deadlines
      that advance, shutdown that closes, wake-ups exactly for new events, transmits
      sent whole; and only effects for the user enter the queue ([ReactorEvents.v]).
      The receive tasks hand over every datagram in order, whole up to 2048 bytes
      ([ReactorReceive.v]).
    - Conversions ([ConversionTheorems.v]): what one side sends the other reads as what
      it is, or refuses when an integer does not fit; the tables of both are the same.
    - Configuration ([ConfigTheorems.v]): what the package accepts the crate, QUIC and
      the engine accept, within stated limits; who verifies whose certificate.
    - The boundary ([FfiEndpointTheorems.v]): in every interleaving of calls from Python
      and turns of the reactor, commands arrive once and in order, and a poll always
      succeeds and hands over every event; the sockets a server listens on.
    - The waker ([WakerTheorems.v]): in every interleaving of the atomic actions of the
      two threads no wake-up is lost, and the threads come to rest only when every
      event has been processed.
    - The controller ([ControllerTheorems.v]): a request is answered once, by the first
      answer of the crate; a request that creates something gets its handle; nothing
      waits after the endpoint was released.
    - Handles ([PyStreamTheorems.v], [PyRequestTheorems.v]): whatever calls read a stream
      and however they end, what they return is the stream cut into pieces; [write_all]
      sends all its data in order and ends the stream once; a request reports its
      failure; a datagram is read by one call and lost by none ([PyDatagrams.v]).
    - Lifecycle ([PyLifecycle.v]): however calls of [start] and [close] overlap and fail,
      a closed controller has given back all it took.
    - Client, server and emitter ([PyClientTheorems.v], [PyServer.v],
      [PyEmitter.v]): every connection a race opens is its result or is closed; what is
      put into a queue reaches one consumer, in order, and every consumer sees the end;
      a handler for once is called once.
    - Certificates ([Certificate.v]): generating them touches three files in the given
      directory and nothing else.

    A few theorems record what the code does where it should do something else: the
    names [h3_truncated_data_hangs], [h3_empty_frame_stalls],
    [connection_request_waits], [session_drain_stops_replay],
    [reactor_replies_run_together], [config_timeout_panics], [readuntil_reorders],
    [server_outlives_close], [bytes_user_agent_twice], [large_datagram_cut] and, for one
    mode, [server_verifies_clients].

    ** Runs and the environment

    A run of a machine is a sequence of operations in any order, with a record of
    what is in flight between it and the layer below ([ConnR.world] for a connection).
    What the layer below promises is a predicate on each step: [SessionR.transport_ok],
    [ConnS.transport_ok], [EngineT.driver_ok], [TransportR.lawful_turn].  They say that
    identifiers of new streams are fresh and of the right kind, that lengths fit in
    memory, and that a write is acknowledged after it completed; going outwards they
    get weaker, as settings in range are guaranteed by the HTTP/3 layer and returned
    streams by the coordinator.  Theorems about parsing assume where they say so that
    the QPACK decoder never blocks, as a decoder with no blocked streams allowed does.

    ** Bounds, integers and fuel

    A [u64] is an integer in [0, 2^64) and arithmetic that can wrap does wrap; the
    release build has no overflow checks.  Timestamps are IEEE doubles of the Standard
    Library's [SpecFloat]; instants are integers of nanoseconds.  Hash maps whose order
    the code fixes by sorting are finite maps with sorted keys.  Loops that are not
    structural take fuel and return [None] when it runs out.  Fuel is no bound of the
    code: the theorems either hold for every fuel that gives a result, or state that
    some fuel gives it and that more changes nothing ([h3_parser_terminates],
    [engine_terminates], [transport_sends_in_order], [transport_reads_in_order],
    [reactor_sends_whole_transmit]).  [process_effects] calls itself; two levels are
    enough, as [TransportP.nesting_enough] shows.

    ** Not modelled

    The libraries quinn-proto, ls-qpack, rustls, rcgen, bytes, tokio and PyO3, the host and its
    file system are parameters: classes of what the code calls, with laws where a
    theorem needs them and an instance that satisfies them.  Of the reactor, the choice
    [select] makes is an input.  The atomics of the waker and the lock-free queue are
    taken to be sequentially consistent.  Of the package, [wait_for] of the emitter, the
    closing of a client and the weak references between handles are left out; event loop
    and clock are the order of the actions;
    dictionaries keyed by handles and identifiers have integer keys, as the crate sends
    no others.  [utils.py] only re-exports.  [ffi/tracing.rs], the registration of the module and [build.rs] only install things.  Paths and file
    permissions are those of Unix.  Logging is left out throughout. *)

From stdpp Require Export base tactics numbers list gmap sorting.
From Stdlib Require Export ZArith Lia SpecFloat Strings.Byte.
From Stdlib Require Strings.String.
Export Strings.String.StringSyntax.
Delimit Scope string_scope with string.

#[global] Open Scope Z_scope.

(** ** Record updates

    The state machines of the engine are large mutable structs.  A struct is a
    [Record]; assigning one field is [r <| field := v |>].  One [Setter]
    instance per field is built from the eta expansion of the record. *)

Class Eta (R : Type) := eta : R -> R.

Class Setter {R T : Type} (proj : R -> T) := set_field : (T -> T) -> R -> R.

Declare Scope record_scope.
#[global] Open Scope record_scope.

Notation "r <| f := v |>" := (set_field (proj:=f) (fun _ => v) r)
  (at level 1, left associativity, f constr at level 0, v at level 200,
   format "r  <| f  :=  v |>") : record_scope.

Ltac build_setter :=
  match goal with
  | |- @Setter ?R ?T ?proj =>
      let f := fresh "f" in
      let r := fresh "r" in
      intros f r;
      let whole := eval hnf in (@eta R _ r) in
      let parts := eval pattern (proj r) in whole in
      match parts with
      | ?ctx _ => let body := eval cbv beta in (ctx (f (proj r))) in exact body
      end
  end.

(** ** Machine integers

    A [u64] (and a [usize], the crate targets 64-bit hosts) is a [Z] in
    [0, 2^64).  The crate is shipped in release mode without overflow checks,
    so the bare [+], [-] and [*] of the source wrap around. *)

Definition U64_MAX : Z := 18446744073709551615.
Definition U32_MAX : Z := 4294967295.
Definition U8_MAX : Z := 255.
Definition USIZE_MAX : Z := U64_MAX.
(** The largest length of a Rust allocation, [isize::MAX]. *)
Definition ISIZE_MAX : Z := 9223372036854775807.

Definition is_u64 (z : Z) : Prop := 0 <= z <= U64_MAX.
Definition is_u32 (z : Z) : Prop := 0 <= z <= U32_MAX.

Definition u64_wrap (z : Z) : Z := z mod 18446744073709551616.
Definition u64_add (a b : Z) : Z := u64_wrap (a + b).
Definition u64_sub (a b : Z) : Z := u64_wrap (a - b).
Definition u64_mul (a b : Z) : Z := u64_wrap (a * b).
Definition saturating_add (a b : Z) : Z := Z.min (a + b) U64_MAX.
Definition saturating_sub (a b : Z) : Z := Z.max (a - b) 0.

(** [u32::try_from] on a [u64]. *)
Definition u32_try_from (z : Z) : option Z :=
  if z <=? U32_MAX then Some z else None.
Definition u16_try_from (z : Z) : option Z :=
  if z <=? 65535 then Some z else None.
Definition u8_try_from (z : Z) : option Z :=
  if z <=? U8_MAX then Some z else None.

Lemma u64_add_small a b : 0 <= a + b <= U64_MAX -> u64_add a b = a + b.
Proof. unfold u64_add, u64_wrap, U64_MAX. intros. apply Z.mod_small. lia. Qed.

Lemma u64_sub_small a b : 0 <= a - b <= U64_MAX -> u64_sub a b = a - b.
Proof. unfold u64_sub, u64_wrap, U64_MAX. intros. apply Z.mod_small. lia. Qed.

Lemma u64_mul_small a b : 0 <= a * b <= U64_MAX -> u64_mul a b = a * b.
Proof. unfold u64_mul, u64_wrap, U64_MAX. intros. apply Z.mod_small. lia. Qed.

Lemma u64_add_is_u64 a b : is_u64 (u64_add a b).
Proof.
  unfold is_u64, u64_add, u64_wrap, U64_MAX.
  pose proof (Z.mod_pos_bound (a + b) 18446744073709551616). lia.
Qed.

Lemma u64_sub_is_u64 a b : is_u64 (u64_sub a b).
Proof.
  unfold is_u64, u64_sub, u64_wrap, U64_MAX.
  pose proof (Z.mod_pos_bound (a - b) 18446744073709551616). lia.
Qed.

(** ** Results

    A fallible Rust function returns [Result<T, E>]. *)

Inductive result (T E : Type) : Type :=
| Ok (t : T)
| Err (e : E).
Arguments Ok {T E} t.
Arguments Err {T E} e.

Notation "'let?' x ':=' c 'in' k" :=
  (match c with Ok x => k | Err e => Err e end)
  (at level 200, x pattern, c at level 100, k at level 200).

(** A computation that ended within its fuel has a result. *)
Definition succeeds {A} (r : option A) : bool := match r with Some _ => true | None => false end.

Lemma succeeds_some {A} (r : option A) : succeeds r = true -> exists a, r = Some a.
Proof. destruct r as [a|]; [by exists a|done]. Qed.

(** ** Timestamps

    The engine stores [f64] seconds and compares a difference of two of them
    with a time to live: IEEE binary64, by the Standard Library's executable
    specification. *)

Definition f64 : Set := spec_float.
Definition f64_sub (a b : f64) : f64 := SFsub 53 1024 a b.
Definition f64_ltb (a b : f64) : bool := SFltb a b.

(** [z as f64], rounded to the nearest. *)
Definition f64_of_Z (z : Z) : f64 := binary_normalize 53 1024 z 0 false.

(** [Duration::as_secs_f64] of a number of nanoseconds. *)
Definition as_secs_f64 (nanos : Z) : f64 :=
  SFadd 53 1024 (f64_of_Z (nanos / 1000000000))
    (SFdiv 53 1024 (f64_of_Z (nanos mod 1000000000)) (f64_of_Z 1000000000)).

(** ** Bytes

    [Bytes], [BytesMut], [&[u8]] and the UTF-8 contents of a [String] are lists
    of bytes. *)

Notation bytes := (list byte).

#[export] Instance byte_eq_decision : EqDecision byte := Byte.byte_eq_dec.

Definition byte_val (b : byte) : Z := Z.of_N (Byte.to_N b).

Definition byte_of (z : Z) : byte :=
  match Byte.of_N (Z.to_N (z mod 256)) with
  | Some b => b
  | None => x00
  end.

(** The [len()] of a slice, as the [u64] or [usize] the code casts it to. *)
Definition len {A : Type} (l : list A) : Z := Z.of_nat (length l).

(** A byte-string literal. *)
Notation "'b:' s" := (String.list_byte_of_string s%string)
  (at level 0, s at level 0, only parsing).

Lemma byte_val_range b : 0 <= byte_val b < 256.
Proof. destruct b; vm_compute; split; congruence. Qed.

Lemma byte_val_inj b1 b2 : byte_val b1 = byte_val b2 -> b1 = b2.
Proof.
  unfold byte_val. intros H%N2Z.inj.
  pose proof (Byte.of_to_N b1) as E1. pose proof (Byte.of_to_N b2) as E2.
  congruence.
Qed.

Lemma byte_of_val b : byte_of (byte_val b) = b.
Proof. destruct b; vm_compute; reflexivity. Qed.

Lemma byte_val_of z : byte_val (byte_of z) = z mod 256.
Proof.
  unfold byte_of, byte_val.
  pose proof (Z.mod_pos_bound z 256 ltac:(lia)) as Hz.
  destruct (Byte.of_N (Z.to_N (z mod 256))) as [b|] eqn:E.
  - apply Byte.to_of_N in E. rewrite E. lia.
  - apply Byte.of_N_None_iff in E. lia.
Qed.

Lemma len_nonneg {A} (l : list A) : 0 <= len l.
Proof. unfold len. lia. Qed.

Lemma len_nil {A} : len (@nil A) = 0.
Proof. reflexivity. Qed.

Lemma len_cons {A} (x : A) l : len (x :: l) = 1 + len l.
Proof. unfold len. simpl. lia. Qed.

Lemma len_app {A} (l k : list A) : len (l ++ k) = len l + len k.
Proof. unfold len. rewrite length_app. lia. Qed.

Lemma len_zero_nil {A} (l : list A) : len l = 0 -> l = [].
Proof. unfold len. destruct l; simpl; [done | lia]. Qed.

#[export] Hint Resolve len_nonneg : core.

(** *** Big-endian integers: [put_u8/u16/u32/u64] and [get_*] of the bytes crate *)

Fixpoint be_put (n : nat) (v : Z) : bytes :=
  match n with
  | O => []
  | S n' => be_put n' (v / 256) ++ [byte_of v]
  end.

Definition be_get (l : bytes) : Z :=
  fold_left (fun acc b => acc * 256 + byte_val b) l 0.

Lemma be_put_length n v : length (be_put n v) = n.
Proof. revert v. induction n; intros; simpl; [done | rewrite length_app, IHn; simpl; lia]. Qed.

Lemma be_get_snoc l b : be_get (l ++ [b]) = be_get l * 256 + byte_val b.
Proof. unfold be_get. by rewrite fold_left_app. Qed.

Lemma be_get_put n v : be_get (be_put n v) = v mod (256 ^ Z.of_nat n).
Proof.
  revert v. induction n as [|n IH]; intros v.
  - simpl. by rewrite Z.mod_1_r.
  - cbn [be_put]. rewrite be_get_snoc, IH, byte_val_of.
    replace (256 ^ Z.of_nat (S n)) with (256 * 256 ^ Z.of_nat n)
      by (rewrite Nat2Z.inj_succ, Z.pow_succ_r by lia; lia).
    assert (0 < 256 ^ Z.of_nat n) by (apply Z.pow_pos_nonneg; lia).
    rewrite Z.rem_mul_r by lia. lia.
Qed.

Lemma be_get_range l : 0 <= be_get l < 256 ^ len l.
Proof.
  induction l as [|b l IH] using rev_ind; [done|].
  rewrite be_get_snoc, len_app, Z.pow_add_r by (auto; unfold len; simpl; lia).
  change (256 ^ len [b]) with 256. pose proof (byte_val_range b). lia.
Qed.

(** ** ASCII and UTF-8 *)

Definition in_range (lo hi : Z) (b : byte) : bool :=
  (lo <=? byte_val b) && (byte_val b <=? hi).

Definition is_ascii_lowercase (b : byte) : bool := in_range 97 122 b.
Definition is_ascii_uppercase (b : byte) : bool := in_range 65 90 b.
Definition is_ascii_digit (b : byte) : bool := in_range 48 57 b.
Definition is_ascii_alphanumeric (b : byte) : bool :=
  is_ascii_lowercase b || is_ascii_uppercase b || is_ascii_digit b.
Definition is_ascii_graphic (b : byte) : bool := in_range 33 126 b.

Definition to_ascii_lowercase (b : byte) : byte :=
  if is_ascii_uppercase b then byte_of (byte_val b + 32) else b.

Definition eq_ignore_ascii_case (x y : bytes) : bool :=
  bool_decide (to_ascii_lowercase <$> x = to_ascii_lowercase <$> y).

(** A UTF-8 continuation byte, [10xxxxxx]. *)
Definition is_utf8_cont (b : byte) : bool := in_range 128 191 b.

(** [str::from_utf8(..).is_ok()]: the well-formed byte sequences of Unicode
    table 3-7, the ones the Rust standard library accepts. *)
Fixpoint utf8_valid (l : bytes) : bool :=
  match l with
  | [] => true
  | b1 :: l1 =>
      if in_range 0 127 b1 then utf8_valid l1
      else match l1 with
      | [] => false
      | b2 :: l2 =>
          if in_range 194 223 b1 then is_utf8_cont b2 && utf8_valid l2
          else match l2 with
          | [] => false
          | b3 :: l3 =>
              if in_range 224 239 b1 then
                (if in_range 224 224 b1 then in_range 160 191 b2
                 else if in_range 237 237 b1 then in_range 128 159 b2
                 else is_utf8_cont b2)
                && is_utf8_cont b3 && utf8_valid l3
              else match l3 with
              | [] => false
              | b4 :: l4 =>
                  if in_range 240 244 b1 then
                    (if in_range 240 240 b1 then in_range 144 191 b2
                     else if in_range 244 244 b1 then in_range 128 143 b2
                     else is_utf8_cont b2)
                    && is_utf8_cont b3 && is_utf8_cont b4 && utf8_valid l4
                  else false
              end
          end
      end
  end.

(** [str::floor_char_boundary]: the largest char boundary at most [index]. *)
Fixpoint floor_boundary_from (s : bytes) (i : nat) : nat :=
  match i with
  | O => O
  | S i' =>
      match s !! i with
      | Some b => if is_utf8_cont b then floor_boundary_from s i' else i
      | None => i
      end
  end.

Definition floor_char_boundary (s : bytes) (index : nat) : nat :=
  if bool_decide (length s <= index)%nat then length s
  else floor_boundary_from s index.

(** [u16::to_string] on a number of at most five digits. *)
Fixpoint decimal_digits (fuel : nat) (z : Z) : bytes :=
  match fuel with
  | O => []
  | S fuel' =>
      (if z <? 10 then [] else decimal_digits fuel' (z / 10))
      ++ [byte_of (48 + z mod 10)]
  end.

Definition u16_to_string (z : Z) : bytes := decimal_digits 5 z.

(** ** Slices *)

(** [iter().take_while(p).count()] followed by [advance]: the run satisfying [p]
    and what follows it. *)
Fixpoint span {A} (p : A -> bool) (l : list A) : list A * list A :=
  match l with
  | [] => ([], [])
  | x :: l' =>
      if p x then let '(run, rest) := span p l' in (x :: run, rest) else ([], l)
  end.

Lemma span_app {A} (p : A -> bool) l run rest : span p l = (run, rest) -> l = run ++ rest.
Proof.
  revert run rest. induction l as [|x l IH]; intros run rest; simpl.
  - by intros [= <- <-].
  - destruct (p x); [|by intros [= <- <-]].
    destruct (span p l) as [r1 r2]. intros [= <- <-]. simpl. f_equal. by apply IH.
Qed.

Lemma span_length {A} (p : A -> bool) l : (length (span p l).2 <= length l)%nat.
Proof.
  destruct (span p l) as [run rest] eqn:E. apply span_app in E as ->.
  simpl. rewrite length_app. lia.
Qed.

(** ** Automation *)

Create HintDb wt.

(** Linear arithmetic with division and remainder by constants. *)
Ltac divlia := Z.to_euclidean_division_equations; lia.

(** Turn boolean comparisons of the code into facts [lia] reads. *)
Ltac bool_to_prop :=
  repeat match goal with
  | H : (_ && _) = true |- _ => apply andb_prop in H; destruct H
  | H : (_ || _) = false |- _ => apply orb_false_elim in H; destruct H
  | H : negb _ = true |- _ => apply negb_true_iff in H
  | H : negb _ = false |- _ => apply negb_false_iff in H
  | H : (_ <=? _) = true |- _ => apply Z.leb_le in H
  | H : (_ <=? _) = false |- _ => apply Z.leb_gt in H
  | H : (_ <? _) = true |- _ => apply Z.ltb_lt in H
  | H : (_ <? _) = false |- _ => apply Z.ltb_ge in H
  | H : (_ =? _) = true |- _ => apply Z.eqb_eq in H
  | H : (_ =? _) = false |- _ => apply Z.eqb_neq in H
  | H : bool_decide _ = true |- _ => apply bool_decide_eq_true in H
  | H : bool_decide _ = false |- _ => apply bool_decide_eq_false in H
  end.
