(* ===== verification/Types.v ===== *)
(** * Common types and constants

    [crates/src/common/constants.rs], [types.rs] and [error.rs]: the protocol
    constants under their own names, and the enumerations shared by every layer,
    one module per Rust enum so that constructors keep their source names. *)

From S2P Require Import Prelude.

(** ** Identifiers ([types.rs]); all are [u64]. *)

Notation ConnectionHandle := Z (only parsing).
Notation ErrorCode := Z (only parsing).
Notation RequestId := Z (only parsing).
Notation SessionId := Z (only parsing).
Notation StreamId := Z (only parsing).
Notation Headers := (list (bytes * bytes)) (only parsing).
(** A [String], [&str] or [Cow<'static, str>]: its UTF-8 bytes. *)
Notation str := bytes (only parsing).

(** ** Enumerations ([types.rs]) *)

Module ConnectionState.
Inductive t : Set :=
| Closed
| Closing
| Connected
| Connecting
| Idle.
#[export] Instance ConnectionState_eq_dec : EqDecision t.
Proof. solve_decision. Defined.
End ConnectionState.
Export (hints) ConnectionState.

Module ErrorSource.
Inductive t : Set :=
| Connection
| Datagram
| Session
| Stream
| Unspecified.
#[export] Instance ErrorSource_eq_dec : EqDecision t.
Proof. solve_decision. Defined.
End ErrorSource.
Export (hints) ErrorSource.

Module EventType.
Inductive t : Set :=
| ConnectionClosed
| ConnectionEstablished
| SessionClosed
| SessionDataBlocked
| SessionDraining
| SessionMaxDataUpdated
| SessionMaxStreamsBidiUpdated
| SessionMaxStreamsUniUpdated
| SessionPending
| SessionReady
| SessionRequestReceived
| SessionStreamsBlocked
| StreamClosed
| StreamOpened
| StreamResetReceived
| StreamStopSendingReceived.
#[export] Instance EventType_eq_dec : EqDecision t.
Proof. solve_decision. Defined.
End EventType.
Export (hints) EventType.

Module SessionState.
Inductive t : Set :=
| Closed
| Closing
| Connected
| Connecting
| Draining.
#[export] Instance SessionState_eq_dec : EqDecision t.
Proof. solve_decision. Defined.
End SessionState.
Export (hints) SessionState.

Module StreamDirection.
Inductive t : Set :=
| Bidirectional
| ReceiveOnly
| SendOnly.
#[export] Instance StreamDirection_eq_dec : EqDecision t.
Proof. solve_decision. Defined.
End StreamDirection.
Export (hints) StreamDirection.

Module StreamReceiveState.
Inductive t : Set :=
| DataRead
| DataReceived
| Receive
| ResetRead.
#[export] Instance StreamReceiveState_eq_dec : EqDecision t.
Proof. solve_decision. Defined.
End StreamReceiveState.
Export (hints) StreamReceiveState.

Module StreamSendState.
Inductive t : Set :=
| DataReceived
| DataSent
| Ready
| ResetSent.
#[export] Instance StreamSendState_eq_dec : EqDecision t.
Proof. solve_decision. Defined.
End StreamSendState.
Export (hints) StreamSendState.

(** ** Errors ([error.rs]) *)

Module WebTransportError.
Inductive t : Set :=
| Configuration (error_code : option ErrorCode) (reason : str)
| Protocol (error_code : option ErrorCode) (reason : str)
| Stream (stream_id : StreamId) (error_code : option ErrorCode) (reason : str)
| Unknown (error_code : option ErrorCode) (reason : str).
End WebTransportError.

(** ** Constants ([constants.rs])

    A decimal literal is the nearest double. *)

Definition DEFAULT_BIND_HOST : str := b: "::".
Definition DEFAULT_BIND_PORT : Z := 4433.
Definition DEFAULT_CLOSE_TIMEOUT : f64 := f64_of_Z 5.
Definition DEFAULT_CONGESTION_CONTROL_ALGORITHM : str := b: "cubic".
Definition DEFAULT_CONNECTION_ATTEMPT_DELAY : f64 := SFdiv 53 1024 (f64_of_Z 250) (f64_of_Z 1000).
Definition DEFAULT_CONNECTION_RECEIVE_WINDOW : Z := 16 * 1024 * 1024.
Definition DEFAULT_CONNECTION_SEND_WINDOW : Z := 16 * 1024 * 1024.
Definition DEFAULT_CONNECT_TIMEOUT : f64 := f64_of_Z 30.
Definition DEFAULT_INITIAL_MAX_DATA : Z := 4 * 1024 * 1024.
Definition DEFAULT_INITIAL_MAX_STREAMS_BIDI : Z := 10.
Definition DEFAULT_INITIAL_MAX_STREAMS_UNI : Z := 10.
Definition DEFAULT_KEEP_ALIVE_INTERVAL : f64 := f64_of_Z 30.
Definition DEFAULT_MAX_CAPSULE_SIZE : Z := 65536.
Definition DEFAULT_MAX_CONNECTIONS : Z := 100.
Definition DEFAULT_MAX_CONNECTION_PENDING_EVENTS : Z := 1000.
Definition DEFAULT_MAX_DATAGRAM_SIZE : Z := 1350.
Definition DEFAULT_MAX_FIELD_SECTION_SIZE : Z := 65536.
Definition DEFAULT_MAX_IDLE_TIMEOUT : f64 := f64_of_Z 60.
Definition DEFAULT_MAX_PENDING_CAPSULES : Z := 20.
Definition DEFAULT_MAX_PENDING_DATAGRAMS : Z := 100.
Definition DEFAULT_MAX_PENDING_STREAMS : Z := 10.
Definition DEFAULT_MAX_SESSIONS : Z := 10.
Definition DEFAULT_MAX_SESSION_PENDING_EVENTS : Z := 100.
Definition DEFAULT_MAX_STREAMS_BIDI : Z := 100.
Definition DEFAULT_MAX_STREAMS_UNI : Z := 100.
Definition DEFAULT_MAX_UDP_PAYLOAD_SIZE : Z := 1472.
Definition DEFAULT_MAX_WRITE_BUFFER_SIZE : Z := 1024 * 1024.
Definition DEFAULT_PENDING_EVENT_TTL : f64 := f64_of_Z 5.
Definition DEFAULT_READ_TIMEOUT : f64 := f64_of_Z 60.
Definition DEFAULT_RESOURCE_CLEANUP_INTERVAL : f64 := f64_of_Z 15.
Definition DEFAULT_SESSION_RECEIVE_WINDOW : Z := 4 * 1024 * 1024.
Definition DEFAULT_STREAM_CREATE_TIMEOUT : f64 := f64_of_Z 10.
Definition DEFAULT_STREAM_RECEIVE_WINDOW : Z := 1024 * 1024.
Definition ERR_APP_AUTHENTICATION_FAILED : Z := 0x1004.
Definition ERR_APP_CANCELLED : Z := 0x1000.
Definition ERR_APP_CONNECTION_TIMEOUT : Z := 0x1002.
Definition ERR_APP_GENERIC_ERROR : Z := 0x1001.
Definition ERR_APP_INVALID_REQUEST : Z := 0x1007.
Definition ERR_APP_NO_ERROR : Z := 0x0000.
Definition ERR_APP_OPERATION_TIMEOUT : Z := 0x1003.
Definition ERR_APP_PERMISSION_DENIED : Z := 0x1005.
Definition ERR_APP_RESOURCE_EXHAUSTED : Z := 0x1006.
Definition ERR_APP_SERVICE_UNAVAILABLE : Z := 0x1008.
Definition ERR_H3_CLOSED_CRITICAL_STREAM : Z := 0x0104.
Definition ERR_H3_CONNECT_ERROR : Z := 0x010f.
Definition ERR_H3_DATAGRAM_ERROR : Z := 0x0033.
Definition ERR_H3_EXCESSIVE_LOAD : Z := 0x0107.
Definition ERR_H3_FRAME_ERROR : Z := 0x0106.
Definition ERR_H3_FRAME_UNEXPECTED : Z := 0x0105.
Definition ERR_H3_GENERAL_PROTOCOL_ERROR : Z := 0x0101.
Definition ERR_H3_ID_ERROR : Z := 0x0108.
Definition ERR_H3_INTERNAL_ERROR : Z := 0x0102.
Definition ERR_H3_MESSAGE_ERROR : Z := 0x010e.
Definition ERR_H3_MISSING_SETTINGS : Z := 0x010a.
Definition ERR_H3_NO_ERROR : Z := 0x0100.
Definition ERR_H3_REQUEST_CANCELLED : Z := 0x010c.
Definition ERR_H3_REQUEST_INCOMPLETE : Z := 0x010d.
Definition ERR_H3_REQUEST_REJECTED : Z := 0x010b.
Definition ERR_H3_SETTINGS_ERROR : Z := 0x0109.
Definition ERR_H3_STREAM_CREATION_ERROR : Z := 0x0103.
Definition ERR_H3_VERSION_FALLBACK : Z := 0x0110.
Definition ERR_LIB_CONNECTION_LIMIT_EXCEEDED : Z := 0x11000002.
Definition ERR_LIB_CONNECTION_STATE_ERROR : Z := 0x11000001.
Definition ERR_LIB_INTERNAL_ERROR : Z := 0x10000001.
Definition ERR_LIB_SESSION_STATE_ERROR : Z := 0x12000001.
Definition ERR_LIB_STREAM_STATE_ERROR : Z := 0x13000001.
Definition ERR_QPACK_DECODER_STREAM_ERROR : Z := 0x0202.
Definition ERR_QPACK_DECOMPRESSION_FAILED : Z := 0x0200.
Definition ERR_QPACK_ENCODER_STREAM_ERROR : Z := 0x0201.
Definition ERR_QUIC_AEAD_LIMIT_REACHED : Z := 0x0f.
Definition ERR_QUIC_APPLICATION_ERROR : Z := 0x0c.
Definition ERR_QUIC_CONNECTION_ID_LIMIT_ERROR : Z := 0x09.
Definition ERR_QUIC_CONNECTION_REFUSED : Z := 0x02.
Definition ERR_QUIC_CRYPTO_BUFFER_EXCEEDED : Z := 0x0d.
Definition ERR_QUIC_CRYPTO_ERROR_FIRST : Z := 0x0100.
Definition ERR_QUIC_CRYPTO_ERROR_LAST : Z := 0x01ff.
Definition ERR_QUIC_FINAL_SIZE_ERROR : Z := 0x06.
Definition ERR_QUIC_FLOW_CONTROL_ERROR : Z := 0x03.
Definition ERR_QUIC_FRAME_ENCODING_ERROR : Z := 0x07.
Definition ERR_QUIC_INTERNAL_ERROR : Z := 0x01.
Definition ERR_QUIC_INVALID_TOKEN : Z := 0x0b.
Definition ERR_QUIC_KEY_UPDATE_ERROR : Z := 0x0e.
Definition ERR_QUIC_NO_ERROR : Z := 0x00.
Definition ERR_QUIC_NO_VIABLE_PATH : Z := 0x10.
Definition ERR_QUIC_PROTOCOL_VIOLATION : Z := 0x0a.
Definition ERR_QUIC_STREAM_LIMIT_ERROR : Z := 0x04.
Definition ERR_QUIC_STREAM_STATE_ERROR : Z := 0x05.
Definition ERR_QUIC_TRANSPORT_PARAMETER_ERROR : Z := 0x08.
Definition ERR_WT_ALPN_ERROR : Z := 0x0817b3dd.
Definition ERR_WT_APPLICATION_ERROR_FIRST : Z := 0x52e4a40fa8db.
Definition ERR_WT_APPLICATION_ERROR_LAST : Z := 0x52e5ac983162.
Definition ERR_WT_BUFFERED_STREAM_REJECTED : Z := 0x3994bd84.
Definition ERR_WT_FLOW_CONTROL_ERROR : Z := 0x045d4487.
Definition ERR_WT_REQUIREMENTS_NOT_MET : Z := 0x212c0d48.
Definition ERR_WT_SESSION_GONE : Z := 0x170d7b68.
Definition ALPN_PROTOCOLS : list str := [b: "h3"].
Definition H3_FRAME_TYPE_CANCEL_PUSH : Z := 0x03.
Definition H3_FRAME_TYPE_DATA : Z := 0x00.
Definition H3_FRAME_TYPE_GOAWAY : Z := 0x07.
Definition H3_FRAME_TYPE_HEADERS : Z := 0x01.
Definition H3_FRAME_TYPE_MAX_PUSH_ID : Z := 0x0d.
Definition H3_FRAME_TYPE_PUSH_PROMISE : Z := 0x05.
Definition H3_FRAME_TYPE_RESERVED_CONTINUATION : Z := 0x09.
Definition H3_FRAME_TYPE_RESERVED_PING : Z := 0x06.
Definition H3_FRAME_TYPE_RESERVED_PRIORITY : Z := 0x02.
Definition H3_FRAME_TYPE_RESERVED_WINDOW_UPDATE : Z := 0x08.
Definition H3_FRAME_TYPE_SETTINGS : Z := 0x04.
Definition H3_FRAME_TYPE_WT_STREAM : Z := 0x41.
Definition H3_MIN_UNI_STREAM_COUNT : Z := 3.
Definition H3_STREAM_TYPE_CONTROL : Z := 0x00.
Definition H3_STREAM_TYPE_PUSH : Z := 0x01.
Definition H3_STREAM_TYPE_QPACK_DECODER : Z := 0x03.
Definition H3_STREAM_TYPE_QPACK_ENCODER : Z := 0x02.
Definition H3_STREAM_TYPE_WEBTRANSPORT : Z := 0x54.
Definition QUIC_MIN_UDP_PAYLOAD_SIZE_LIMIT : Z := 1200.
Definition QUIC_STREAM_DIRECTION_MASK : Z := 0x02.
Definition QUIC_STREAM_INITIATOR_MASK : Z := 0x01.
Definition QUIC_STREAM_TYPE_COUNT : Z := 4.
Definition QUIC_UDP_PAYLOAD_SIZE_LIMIT : Z := 65527.
Definition QUIC_VARINT_LIMIT : Z := 4611686018427387903.
Definition SETTINGS_ENABLE_CONNECT_PROTOCOL : Z := 0x08.
Definition SETTINGS_H3_DATAGRAM : Z := 0x33.
Definition SETTINGS_MAX_FIELD_SECTION_SIZE : Z := 0x06.
Definition SETTINGS_QPACK_BLOCKED_STREAMS : Z := 0x07.
Definition SETTINGS_QPACK_MAX_TABLE_CAPACITY : Z := 0x01.
Definition SETTINGS_RESERVED_ENABLE_PUSH : Z := 0x02.
Definition SETTINGS_RESERVED_INITIAL_WINDOW_SIZE : Z := 0x04.
Definition SETTINGS_RESERVED_MAX_CONCURRENT_STREAMS : Z := 0x03.
Definition SETTINGS_RESERVED_MAX_FRAME_SIZE : Z := 0x05.
Definition SETTINGS_WT_ENABLED : Z := 0x2c7cf000.
Definition SETTINGS_WT_INITIAL_MAX_DATA : Z := 0x2b61.
Definition SETTINGS_WT_INITIAL_MAX_STREAMS_BIDI : Z := 0x2b65.
Definition SETTINGS_WT_INITIAL_MAX_STREAMS_UNI : Z := 0x2b64.
Definition UDP_TRANSMIT_BATCH_CAPACITY : Z := 64.
Definition WT_AVAILABLE_PROTOCOLS : bytes := b: "wt-available-protocols".
Definition WT_CAPSULE_TYPE_CLOSE_SESSION : Z := 0x2843.
Definition WT_CAPSULE_TYPE_DATA_BLOCKED : Z := 0x190b4d41.
Definition WT_CAPSULE_TYPE_DRAIN_SESSION : Z := 0x78ae.
Definition WT_CAPSULE_TYPE_MAX_DATA : Z := 0x190b4d3d.
Definition WT_CAPSULE_TYPE_MAX_STREAMS_BIDI : Z := 0x190b4d3f.
Definition WT_CAPSULE_TYPE_MAX_STREAMS_UNI : Z := 0x190b4d40.
Definition WT_CAPSULE_TYPE_MAX_STREAM_DATA : Z := 0x190b4d3e.
Definition WT_CAPSULE_TYPE_STREAMS_BLOCKED_BIDI : Z := 0x190b4d43.
Definition WT_CAPSULE_TYPE_STREAMS_BLOCKED_UNI : Z := 0x190b4d44.
Definition WT_CAPSULE_TYPE_STREAM_DATA_BLOCKED : Z := 0x190b4d42.
Definition WT_CLOSE_REASON_SIZE_LIMIT : Z := 1024.
Definition WT_EXPORTER_LABEL : bytes := b: "EXPORTER-WebTransport".
Definition WT_PROTOCOL : bytes := b: "wt-protocol".
Definition WT_SESSION_CONNECT_STREAM_COUNT : Z := 1.
Definition WT_STREAMS_LIMIT : Z := 1152921504606846976.
Definition WT_UPGRADE_TOKEN : bytes := b: "webtransport-h3".
