(* ===== verification/Events.v ===== *)
(** * Effects, events and diagnostics

    [crates/src/protocol/events.rs]: what the engine asks its host to do
    ([Effect]), what it is told ([ProtocolEvent]) and how a user request is
    answered ([RequestResult]).  The diagnostics snapshots carried by an answer
    ([stream.rs], [session.rs], [connection.rs]) and the decoded SETTINGS frame
    ([h3.rs]) are here too, since both are payloads. *)

From S2P Require Import Prelude.
From S2P Require Import Types.

Module StreamDiagnostics.
Record t : Set := mk {
  created_at : f64;
  direction : StreamDirection.t;
  is_peer_initiated : bool;
  receive_error_code : option ErrorCode;
  receive_state : option StreamReceiveState.t;
  send_error_code : option ErrorCode;
  send_state : option StreamSendState.t;
  session_id : SessionId;
  stream_id : StreamId;
}.
End StreamDiagnostics.

Module SessionDiagnostics.
Record t : Set := mk {
  close_code : option ErrorCode;
  close_reason : option str;
  closed_at : option f64;
  created_at : f64;
  data_consumed : Z;
  data_received : Z;
  data_sent : Z;
  flow_control_negotiated : bool;
  headers : Headers;
  is_client : bool;
  local_max_data : Z;
  local_max_streams_bidi : Z;
  local_max_streams_uni : Z;
  local_streams_bidi_opened : Z;
  local_streams_uni_opened : Z;
  path : str;
  peer_max_data : Z;
  peer_max_streams_bidi : Z;
  peer_max_streams_uni : Z;
  peer_streams_bidi_closed : Z;
  peer_streams_bidi_opened : Z;
  peer_streams_uni_closed : Z;
  peer_streams_uni_opened : Z;
  ready_at : option f64;
  session_id : SessionId;
  state : SessionState.t;
  wt_available_protocols : option (list str);
  wt_protocol : option str;
}.
End SessionDiagnostics.

Module ConnectionDiagnostics.
Record t : Set := mk {
  close_code : option ErrorCode;
  close_reason : option str;
  closed_at : option f64;
  connected_at : option f64;
  connection_handle : ConnectionHandle;
  handshake_completed : bool;
  is_client : bool;
  local_goaway_sent : bool;
  peer_goaway_received : bool;
  peer_initial_max_data : Z;
  peer_initial_max_streams_bidi : Z;
  peer_initial_max_streams_uni : Z;
  peer_max_datagram_frame_size : option Z;
  peer_settings_received : bool;
  state : ConnectionState.t;
}.
End ConnectionDiagnostics.

Module H3Settings.
Record t : Set := mk {
  enable_connect_protocol : option Z;
  h3_datagram : option Z;
  max_field_section_size : option Z;
  qpack_blocked_streams : option Z;
  qpack_max_table_capacity : option Z;
  unknown : list (Z * Z);
  wt_enabled : option Z;
  wt_initial_max_data : option Z;
  wt_initial_max_streams_bidi : option Z;
  wt_initial_max_streams_uni : option Z;
}.
End H3Settings.

Module RequestResult.
Inductive t : Set :=
| ConnectionDiagnostics (diagnostics : ConnectionDiagnostics.t)
| ConnectionHandle (handle : ConnectionHandle)
| Datagram (data : bytes)
| KeyingMaterial (material : bytes)
| None
| ReadData (data : bytes)
| SessionDiagnostics (diagnostics : SessionDiagnostics.t)
| SessionId (session_id : SessionId)
| StreamDiagnostics (diagnostics : StreamDiagnostics.t)
| StreamId (stream_id : StreamId).
End RequestResult.

Module Effect.
Inductive t : Set :=
| CloseQuicConnection (error_code : ErrorCode) (reason : option str)
| CreateH3ConnectStream (request_id : RequestId) (authority path : str) (headers : Headers)
| CreateH3LocalStreams
| CreateQuicStream (request_id : RequestId) (session_id : SessionId) (is_unidirectional : bool)
| EmitConnectionEvent (connection_handle : ConnectionHandle) (event_type : EventType.t)
    (error_code : option ErrorCode) (reason : option str)
| EmitSessionEvent (session_id : SessionId) (event_type : EventType.t)
    (path : option str) (headers : option Headers)
    (wt_available_protocols : option (list str)) (wt_protocol : option str)
    (data : option bytes) (is_unidirectional : option bool)
    (max_data : option Z) (max_streams : option Z) (ready_at : option f64)
    (status_code : option Z) (error_code : option ErrorCode) (reason : option str)
| EmitStreamEvent (stream_id : StreamId) (event_type : EventType.t)
    (session_id : option SessionId) (direction : option StreamDirection.t)
    (is_peer_initiated : option bool) (error_code : option ErrorCode)
| ExportTlsKeyingMaterial (request_id : RequestId) (label : str) (context : bytes) (length : Z)
| NotifyRequestDone (request_id : RequestId) (result : RequestResult.t)
| NotifyRequestFailed (request_id : RequestId) (source : ErrorSource.t)
    (error_code : option ErrorCode) (reason : str)
| ReceiveQuicData (stream_id : StreamId) (max_size : Z)
| ResetQuicStream (stream_id : StreamId) (error_code : ErrorCode)
| SendH3Capsule (stream_id : StreamId) (capsule_type : Z) (capsule_value : bytes)
    (end_stream : bool)
| SendH3Datagram (session_id : SessionId) (data : bytes)
| SendH3Goaway (identifier : Z)
| SendH3Headers (stream_id : StreamId) (headers : Headers) (end_stream : bool)
| SendQuicData (stream_id : StreamId) (data : bytes) (end_stream : bool)
| SendQuicDatagram (header payload : bytes)
| StopQuicStream (stream_id : StreamId) (error_code : ErrorCode).
End Effect.

Module ProtocolEvent.
Inductive t : Set :=
| H3CapsuleReceived (stream_id : StreamId) (capsule_type : Z) (capsule_value : bytes)
| H3ConnectStreamClosed (stream_id : StreamId)
| H3DatagramReceived (session_id : SessionId) (data : bytes)
| H3GoawayReceived
| H3HeadersReceived (stream_id : StreamId) (headers : Headers)
| H3SettingsReceived (settings : H3Settings.t)
| H3WebTransportStreamOpened (session_id : SessionId) (stream_id : StreamId)
| InternalBindH3ConnectStream (request_id : RequestId) (stream_id : StreamId)
| InternalBindH3LocalStreams (control_stream_id encoder_stream_id decoder_stream_id : StreamId)
| InternalBindQuicStream (request_id : RequestId) (stream_id : StreamId)
    (session_id : SessionId) (is_unidirectional : bool)
| InternalCleanupEarlyEvents
| InternalCleanupResources
| InternalCloseConnection
| InternalCompleteQuicData (stream_id : StreamId)
| InternalDeferH3ConnectStream (request_id : RequestId)
| InternalDeferQuicStream (request_id : RequestId) (session_id : SessionId)
    (is_unidirectional : bool)
| InternalFailH3ConnectStream (request_id : RequestId) (error_code : option ErrorCode)
    (reason : str)
| InternalFailH3LocalStreams
| TransportConnectionTerminated (error_code : ErrorCode) (reason : str)
| TransportDatagramReceived (data : bytes)
| TransportHandshakeCompleted
| TransportMaxStreamsReceived (is_unidirectional : bool)
| TransportQuicParametersReceived (peer_max_datagram_frame_size : Z)
| TransportResetStreamReceived (stream_id : StreamId) (error_code : ErrorCode)
| TransportStopSendingReceived (stream_id : StreamId) (error_code : ErrorCode)
| TransportStreamDataAcknowledged (stream_id : StreamId)
| TransportStreamDataReceived (stream_id : StreamId) (data : bytes) (end_stream : bool)
| TransportStreamOpened (stream_id : StreamId)
| UserAcceptSession (request_id : RequestId) (session_id : SessionId) (headers : Headers)
    (wt_protocol : option str)
| UserCloseConnection (request_id : RequestId) (error_code : ErrorCode) (reason : option str)
| UserCloseConnectionGracefully (request_id : RequestId)
| UserCloseSession (request_id : RequestId) (session_id : SessionId) (error_code : ErrorCode)
    (reason : option str)
| UserCreateSession (request_id : RequestId) (authority path : str) (headers : Headers)
    (wt_available_protocols : option (list str))
| UserCreateSessionOptimistic (request_id : RequestId) (authority path : str)
    (headers : Headers) (wt_available_protocols : option (list str))
| UserCreateStream (request_id : RequestId) (session_id : SessionId) (is_unidirectional : bool)
| UserDiagnoseConnection (request_id : RequestId)
| UserDiagnoseSession (request_id : RequestId) (session_id : SessionId)
| UserDiagnoseStream (request_id : RequestId) (stream_id : StreamId)
| UserExportKeyingMaterial (request_id : RequestId) (session_id : SessionId) (label : str)
    (context : bytes) (length : Z)
| UserReadDatagram (request_id : RequestId) (session_id : SessionId)
| UserReadStream (request_id : RequestId) (stream_id : StreamId) (max_size : Z)
| UserRejectSession (request_id : RequestId) (session_id : SessionId) (headers : Headers)
    (status_code : Z)
| UserResetStream (request_id : RequestId) (stream_id : StreamId) (error_code : ErrorCode)
| UserSendDatagram (request_id : RequestId) (session_id : SessionId) (data : bytes)
| UserStopSending (request_id : RequestId) (stream_id : StreamId) (error_code : ErrorCode)
| UserWriteStream (request_id : RequestId) (stream_id : StreamId) (data : bytes)
    (end_stream : bool).
End ProtocolEvent.

(** ** Reading an effect list

    What the properties observe of the effects an operation returns. *)

(** The user requests answered, successfully or not, in order. *)
Definition completed (effects : list Effect.t) : list RequestId :=
  omap (fun e => match e with
        | Effect.NotifyRequestDone r _ => Some r
        | Effect.NotifyRequestFailed r _ _ _ => Some r
        | _ => None
        end) effects.

(** The chunks handed to QUIC for one stream, with their FIN flag. *)
Definition sent_chunks (sid : StreamId) (effects : list Effect.t) : list (bytes * bool) :=
  omap (fun e => match e with
        | Effect.SendQuicData i data fin =>
            if bool_decide (i = sid) then Some (data, fin) else None
        | _ => None
        end) effects.

Definition sent_bytes (sid : StreamId) (effects : list Effect.t) : bytes :=
  concat (fst <$> sent_chunks sid effects).

(** The requests the engine is done with: answered, or handed to TLS, which
    answers them itself. *)
Definition answered (effects : list Effect.t) : list RequestId :=
  omap (fun e => match e with
        | Effect.NotifyRequestDone r _ => Some r
        | Effect.NotifyRequestFailed r _ _ _ => Some r
        | Effect.ExportTlsKeyingMaterial r _ _ _ => Some r
        | _ => None
        end) effects.

(** The stream creations asked of the transport, which comes back for each of
    them with a binding or a deferral. *)
Definition issued (effects : list Effect.t) : list (RequestId * bool) :=
  omap (fun e => match e with
        | Effect.CreateQuicStream r _ is_unidirectional => Some (r, is_unidirectional)
        | _ => None
        end) effects.

(** The bytes of stream data handed to QUIC, over all streams. *)
Definition sent_total (effects : list Effect.t) : Z :=
  fold_right (fun e n => match e with
              | Effect.SendQuicData _ data _ => len data + n
              | _ => n
              end) 0 effects.

Lemma completed_app e1 e2 : completed (e1 ++ e2) = completed e1 ++ completed e2.
Proof. apply omap_app. Qed.

Lemma answered_app e1 e2 : answered (e1 ++ e2) = answered e1 ++ answered e2.
Proof. apply omap_app. Qed.

Lemma issued_app e1 e2 : issued (e1 ++ e2) = issued e1 ++ issued e2.
Proof. apply omap_app. Qed.

Lemma sent_total_app e1 e2 : sent_total (e1 ++ e2) = sent_total e1 + sent_total e2.
Proof.
  unfold sent_total. induction e1 as [|e e1 IH]; [done|]. cbn [app fold_right].
  rewrite IH. destruct e; lia.
Qed.

Lemma sent_chunks_app sid e1 e2 :
  sent_chunks sid (e1 ++ e2) = sent_chunks sid e1 ++ sent_chunks sid e2.
Proof. apply omap_app. Qed.

Lemma sent_bytes_app sid e1 e2 :
  sent_bytes sid (e1 ++ e2) = sent_bytes sid e1 ++ sent_bytes sid e2.
Proof. unfold sent_bytes. by rewrite sent_chunks_app, fmap_app, concat_app. Qed.

Lemma sent_bytes_send i data fin rest :
  sent_bytes i (Effect.SendQuicData i data fin :: rest) = data ++ sent_bytes i rest.
Proof. unfold sent_bytes, sent_chunks. cbn. by rewrite bool_decide_true. Qed.

(** An effect that hands no stream data to QUIC. *)
Definition not_data (e : Effect.t) : Prop :=
  match e with Effect.SendQuicData _ _ _ => False | _ => True end.

Lemma sent_chunks_none i effects : Forall not_data effects -> sent_chunks i effects = [].
Proof. unfold sent_chunks. induction 1 as [|e effects He _ IH]; [done|]. by destruct e. Qed.

Lemma sent_bytes_none i effects : Forall not_data effects -> sent_bytes i effects = [].
Proof. intros H. unfold sent_bytes. by rewrite sent_chunks_none. Qed.

(** An effect for the user, none of which is carried out by the transport. *)
Definition user_effect (effect : Effect.t) : bool :=
  match effect with
  | Effect.EmitConnectionEvent _ _ _ _ | Effect.EmitSessionEvent _ _ _ _ _ _ _ _ _ _ _ _ _ _
  | Effect.EmitStreamEvent _ _ _ _ _ _ | Effect.NotifyRequestDone _ _
  | Effect.NotifyRequestFailed _ _ _ _ => true
  | _ => false
  end.

(** An effect none of the observers sees. *)
Definition quiet (e : Effect.t) : Prop :=
  match e with
  | Effect.NotifyRequestDone _ _ | Effect.NotifyRequestFailed _ _ _ _
  | Effect.ExportTlsKeyingMaterial _ _ _ _ | Effect.CreateQuicStream _ _ _ => False
  | Effect.SendQuicData _ data _ => data = []
  | _ => True
  end.

Lemma quiet_answered effects : Forall quiet effects -> answered effects = [].
Proof. unfold answered. induction 1 as [|e effects He _ IH]; [done|]. by destruct e. Qed.

Lemma quiet_issued effects : Forall quiet effects -> issued effects = [].
Proof. unfold issued. induction 1 as [|e effects He _ IH]; [done|]. by destruct e. Qed.

Lemma quiet_sent_total effects : Forall quiet effects -> sent_total effects = 0.
Proof.
  induction 1 as [|e effects He _ IH]; [done|]. destruct e; try done.
  simpl in He. subst. cbn. done.
Qed.

(** An effect a stream may emit: about itself only. *)
Definition stream_effect (stream_id : StreamId) (e : Effect.t) : Prop :=
  match e with
  | Effect.NotifyRequestDone _ _ | Effect.NotifyRequestFailed _ _ _ _ => True
  | Effect.SendQuicData i _ _ | Effect.ReceiveQuicData i _ | Effect.ResetQuicStream i _
  | Effect.StopQuicStream i _ | Effect.EmitStreamEvent i _ _ _ _ _ => i = stream_id
  | _ => False
  end.

Lemma stream_effect_answered i effects :
  Forall (stream_effect i) effects -> answered effects = completed effects.
Proof.
  unfold answered, completed.
  induction 1 as [|e effects He _ IH]; [done|]. destruct e; try done; cbn; by f_equal.
Qed.

Lemma stream_effect_issued i effects : Forall (stream_effect i) effects -> issued effects = [].
Proof. unfold issued. induction 1 as [|e effects He _ IH]; [done|]. by destruct e. Qed.

Lemma stream_effect_sent_total i effects :
  Forall (stream_effect i) effects -> sent_total effects = len (sent_bytes i effects).
Proof.
  induction 1 as [|e effects He _ IH]; [done|]. destruct e; try done.
  simpl in He. subst. rewrite sent_bytes_send, len_app, <- IH. done.
Qed.

#[export] Hint Rewrite completed_app answered_app issued_app sent_total_app
  sent_chunks_app sent_bytes_app sent_bytes_send : wt.
