(* ===== verification/Utils.v ===== *)
(** * Protocol utilities

    [crates/src/protocol/utils.rs], function by function.  A [Cursor<&[u8]>] is
    the list of bytes that remain; a function that advances it returns the rest. *)

From S2P Require Import Prelude.
From S2P Require Import Types.

Module utils.

Definition H3_ERROR_RESERVED_MODULO : Z := 0x1f.
Definition H3_ERROR_RESERVED_OFFSET : Z := 0x21.
Definition WT_ERROR_MAP_DIVISOR : Z := 0x1e.

(** ** Headers *)

(** [values.join(b", ")]. *)
Fixpoint join_comma (values : list bytes) : bytes :=
  match values with
  | [] => []
  | [v] => v
  | v :: rest => v ++ b: ", " ++ join_comma rest
  end.

Definition combine_header (headers : Headers) (key : bytes) : option bytes :=
  let values := snd <$> filter (fun h => h.1 = key) headers in
  match values with
  | [] => None
  | [value] => Some value
  | _ => Some (join_comma values)
  end.

Fixpoint find_header (headers : Headers) (key : bytes) : option bytes :=
  match headers with
  | [] => None
  | (header_key, header_value) :: rest =>
      if bool_decide (header_key = key) then Some header_value else find_header rest key
  end.

Definition is_connection_specific_header (key value : bytes) (is_request : bool) : bool :=
  if bool_decide (key = b: "te") then
    negb (is_request && eq_ignore_ascii_case value (b: "trailers"))
  else
    bool_decide (key = b: "connection") || bool_decide (key = b: "keep-alive")
    || bool_decide (key = b: "proxy-connection") || bool_decide (key = b: "transfer-encoding")
    || bool_decide (key = b: "upgrade").

Definition is_token_byte (byte : byte) : bool :=
  is_ascii_lowercase byte || is_ascii_digit byte
  || bool_decide (byte ∈ b: "!#$%&'*+-.^_`|~").

Definition is_space_or_tab (byte : byte) : bool :=
  bool_decide (byte = x20) || bool_decide (byte = x09).

(** [slice.starts_with(b":")]. *)
Definition starts_with_colon (key : bytes) : bool :=
  match key with
  | b :: _ => bool_decide (b = x3a)
  | [] => false
  end.

Definition is_valid_header (key value : bytes) : bool :=
  let name := match key with
              | b :: rest => if bool_decide (b = x3a) then rest else key
              | [] => key
              end in
  negb (bool_decide (name = []))
  && forallb is_token_byte name
  && negb (match head value with Some b => is_space_or_tab b | None => false end
           || match last value with Some b => is_space_or_tab b | None => false end)
  && forallb (fun byte => bool_decide (byte = x09) || in_range 32 126 byte
                          || in_range 128 255 byte) value.

Definition is_valid_user_headers (headers : Headers) (is_request : bool) : bool :=
  forallb (fun '(key, value) =>
    is_valid_header key value
    && negb (starts_with_colon key
             || is_connection_specific_header key value is_request
             || (is_request && bool_decide (key = b: "host"))
             || (bool_decide (key = b: "content-length")
                 || bool_decide (key = WT_AVAILABLE_PROTOCOLS)
                 || bool_decide (key = WT_PROTOCOL)))) headers.

(** ** Error codes *)

Definition http_code_to_webtransport_code (http_error_code : ErrorCode) : option Z :=
  if negb ((ERR_WT_APPLICATION_ERROR_FIRST <=? http_error_code)
           && (http_error_code <=? ERR_WT_APPLICATION_ERROR_LAST)) then None
  else if (http_error_code - H3_ERROR_RESERVED_OFFSET) mod H3_ERROR_RESERVED_MODULO =? 0
  then None
  else
    let shifted := http_error_code - ERR_WT_APPLICATION_ERROR_FIRST in
    let result := shifted - shifted / H3_ERROR_RESERVED_MODULO in
    u32_try_from result.

Definition webtransport_code_to_http_code (application_error_code : Z) : ErrorCode :=
  let base := ERR_WT_APPLICATION_ERROR_FIRST in
  let divisor := WT_ERROR_MAP_DIVISOR in
  let shifted := u64_add base application_error_code in
  let offset := application_error_code / divisor in
  u64_add shifted offset.

(** ** Stream identifiers *)

Definition is_peer_initiated_stream (stream_id : StreamId) (is_client : bool) : bool :=
  let is_client_initiated := Z.land stream_id QUIC_STREAM_INITIATOR_MASK =? 0 in
  negb (Bool.eqb is_client_initiated is_client).

Definition is_unidirectional_stream (stream_id : StreamId) : bool :=
  negb (Z.land stream_id QUIC_STREAM_DIRECTION_MASK =? 0).

Definition is_valid_session_id (session_id : SessionId) : bool :=
  Z.land session_id (Z.lor QUIC_STREAM_DIRECTION_MASK QUIC_STREAM_INITIATOR_MASK) =? 0.

Definition stream_direction_from_id (stream_id : StreamId) (is_client : bool)
    : StreamDirection.t :=
  match is_unidirectional_stream stream_id, is_peer_initiated_stream stream_id is_client with
  | false, _ => StreamDirection.Bidirectional
  | true, false => StreamDirection.SendOnly
  | true, true => StreamDirection.ReceiveOnly
  end.

(** ** Variable-length integers *)

(** The value and the bytes after it; on an error the cursor does not matter. *)
Definition read_varint (buffer : bytes) : result (Z * bytes) ErrorCode :=
  match head buffer with
  | None => Err ERR_H3_FRAME_ERROR
  | Some first =>
      let prefix := Z.shiftr (byte_val first) 6 in
      let n := Z.shiftl 1 prefix in
      if len buffer <? n then Err ERR_H3_FRAME_ERROR
      else if n =? 1 then
        Ok (Z.land (be_get (take 1 buffer)) 0x3f, drop 1 buffer)
      else if n =? 2 then
        Ok (Z.land (be_get (take 2 buffer)) 0x3fff, drop 2 buffer)
      else if n =? 4 then
        Ok (Z.land (be_get (take 4 buffer)) 0x3fffffff, drop 4 buffer)
      else if n =? 8 then
        Ok (Z.land (be_get (take 8 buffer)) 0x3fffffffffffffff, drop 8 buffer)
      else Err ERR_H3_FRAME_ERROR
  end.

Definition varint_size (value : Z) : Z :=
  if value <=? 63 then 1
  else if value <=? 16383 then 2
  else if value <=? 1073741823 then 4
  else 8.

(** Returns [buffer] with the encoding appended. *)
Definition write_varint (buffer : bytes) (value : Z) : result bytes ErrorCode :=
  if value <=? 63 then
    match u8_try_from value with
    | Some v => Ok (buffer ++ be_put 1 v)
    | None => Err ERR_LIB_INTERNAL_ERROR
    end
  else if value <=? 16383 then
    match u16_try_from value with
    | Some v => Ok (buffer ++ be_put 2 (Z.lor v 0x4000))
    | None => Err ERR_LIB_INTERNAL_ERROR
    end
  else if value <=? 1073741823 then
    match u32_try_from value with
    | Some v => Ok (buffer ++ be_put 4 (Z.lor v 0x80000000))
    | None => Err ERR_LIB_INTERNAL_ERROR
    end
  else if value <=? 4611686018427387903 then
    Ok (buffer ++ be_put 8 (Z.lor value 0xc000000000000000))
  else Err ERR_LIB_INTERNAL_ERROR.

(** ** Structured-field strings (the [wt-available-protocols] headers) *)

Definition is_escaped (byte : byte) : bool :=
  bool_decide (byte = x5c) || bool_decide (byte = x22).

(** The inner loop of [encode_wt_protocol_list]: one protocol, between quotes. *)
Fixpoint encode_protocol_bytes (protocol : bytes) : option bytes :=
  match protocol with
  | [] => Some []
  | byte :: rest =>
      let escape := if is_escaped byte then [x5c] else [] in
      if in_range 0x20 0x7e byte then
        (fun tail => escape ++ byte :: tail) <$> encode_protocol_bytes rest
      else None
  end.

Fixpoint encode_protocols_from (index : nat) (protocols : list str) : option bytes :=
  match protocols with
  | [] => Some []
  | protocol :: rest =>
      let separator := if (0 <? index)%nat then b: ", " else [] in
      encoded ← encode_protocol_bytes protocol;
      tail ← encode_protocols_from (S index) rest;
      Some (separator ++ x22 :: encoded ++ x22 :: tail)
  end.

Definition encode_wt_protocol_list (protocols : list str) : result bytes str :=
  match encode_protocols_from 0 protocols with
  | Some buffer => Ok buffer
  | None => Err (b: "wt_protocol validate invalid")
  end.

(** The loop of [parse_string], after the opening quote. *)
Fixpoint parse_string_loop (cursor value : bytes) : option (str * bytes) :=
  match cursor with
  | [] => None
  | byte :: rest =>
      if bool_decide (byte = x5c) && negb (bool_decide (rest = [])) then
        match rest with
        | escaped :: rest' =>
            if is_escaped escaped then parse_string_loop rest' (value ++ [escaped]) else None
        | [] => None
        end
      else if bool_decide (byte = x22) then Some (value, rest)
      else if in_range 0x20 0x7e byte then parse_string_loop rest (value ++ [byte])
      else None
  end.

Definition parse_string (cursor : bytes) : option (str * bytes) :=
  match cursor with
  | byte :: rest => if bool_decide (byte = x22) then parse_string_loop rest [] else None
  | [] => None
  end.

Definition discard_number (cursor : bytes) : option (bool * bytes) :=
  let cursor := match cursor with
                | byte :: rest => if bool_decide (byte = x2d) then rest else cursor
                | [] => cursor
                end in
  let '(digits, cursor) := span is_ascii_digit cursor in
  let integer_len := length digits in
  if bool_decide (integer_len = 0)%nat then None
  else match cursor with
  | byte :: rest =>
      if bool_decide (byte = x2e) then
        let '(fraction, cursor) := span is_ascii_digit rest in
        let fraction_len := length fraction in
        if (integer_len <=? 12)%nat && (1 <=? fraction_len)%nat && (fraction_len <=? 3)%nat
        then Some (true, cursor) else None
      else if (integer_len <=? 15)%nat then Some (false, cursor) else None
  | [] => if (integer_len <=? 15)%nat then Some (false, cursor) else None
  end.

Definition hex_digit (byte : byte) : option Z :=
  if is_ascii_digit byte then Some (byte_val byte - 48)
  else if in_range 97 102 byte then Some (byte_val byte - 97 + 10)
  else None.

(** The loop of the display-string case, after the opening percent and quote. *)
Fixpoint display_string_loop (cursor value : bytes) : option (bytes * bytes) :=
  match cursor with
  | [] => None
  | byte :: rest =>
      if bool_decide (byte = x25) then
        match rest with
        | d1 :: d2 :: rest' =>
            h1 ← hex_digit d1;
            h2 ← hex_digit d2;
            display_string_loop rest' (value ++ [byte_of ((0 * 16 + h1) * 16 + h2)])
        | _ => None
        end
      else if bool_decide (byte = x22) then Some (value, rest)
      else if in_range 0x20 0x7e byte then display_string_loop rest (value ++ [byte])
      else None
  end.

(** [position(|b| b == b':')] splitting the content from the closing colon. *)
Definition split_at_colon (cursor : bytes) : option (bytes * bytes) :=
  let '(content, rest) := span (fun b => negb (bool_decide (b = x3a))) cursor in
  match rest with
  | _ :: after => Some (content, after)
  | [] => None
  end.

Definition is_valid_base64 (content : bytes) : bool :=
  let content_len := length content in
  let data_len := length (span (fun b => bool_decide (b = x3d)) (rev content)).2 in
  let padding_len := (content_len - data_len)%nat in
  forallb (fun b => is_ascii_alphanumeric b || bool_decide (b = x2b) || bool_decide (b = x2f))
          (take data_len content)
  && (padding_len <=? 2)%nat
  && negb (data_len mod 4 =? 1)%nat
  && ((padding_len =? 0)%nat || (content_len mod 4 =? 0)%nat).

(** The [match] on the first byte of a parameter value in [discard_parameters]. *)
Definition discard_parameter_value (cursor : bytes) : option bytes :=
  match cursor with
  | [] => None
  | first :: rest =>
      if bool_decide (first = x2d) || is_ascii_digit first then
        snd <$> discard_number cursor
      else if bool_decide (first = x22) then
        snd <$> parse_string cursor
      else if bool_decide (first = x2a) || is_ascii_uppercase first || is_ascii_lowercase first
      then
        Some (span (fun byte => is_ascii_alphanumeric byte
                     || bool_decide (byte ∈ b: "!#$%&'*+-.^_`|~:/")) cursor).2
      else if bool_decide (first = x3a) then
        '(content, after) ← split_at_colon rest;
        if is_valid_base64 content then Some after else None
      else if bool_decide (first = x3f) then
        match rest with
        | flag :: rest' =>
            if bool_decide (flag = x30) || bool_decide (flag = x31) then Some rest' else None
        | [] => None
        end
      else if bool_decide (first = x40) then
        '(is_decimal, rest') ← discard_number rest;
        if is_decimal : bool then None else Some rest'
      else if bool_decide (first = x25) then
        match rest with
        | quote :: rest' =>
            if bool_decide (quote = x22) then
              '(value, rest'') ← display_string_loop rest' [];
              if utf8_valid value then Some rest'' else None
            else None
        | [] => None
        end
      else None
  end.

Definition is_parameter_key_byte (byte : byte) : bool :=
  is_ascii_lowercase byte || is_ascii_digit byte || bool_decide (byte ∈ b: "_-.*").

(** One iteration of the loop of [discard_parameters], past the semicolon. *)
Definition discard_parameter (cursor : bytes) : option bytes :=
  let '(_, cursor) := span (fun b => bool_decide (b = x20)) cursor in
  if negb (match head cursor with
           | Some byte => is_ascii_lowercase byte || bool_decide (byte = x2a)
           | None => false
           end) then None
  else
    let '(_, cursor) := span is_parameter_key_byte cursor in
    match cursor with
    | byte :: rest =>
        if bool_decide (byte = x3d) then discard_parameter_value rest else Some cursor
    | [] => Some cursor
    end.

(** The [while] loop; every iteration consumes the semicolon, so the length of
    the cursor bounds their number ([discard_parameters_fuel]). *)
Fixpoint discard_parameters_loop (fuel : nat) (cursor : bytes) : option bytes :=
  match fuel with
  | O => None
  | S fuel' =>
      match cursor with
      | byte :: rest =>
          if bool_decide (byte = x3b) then
            cursor' ← discard_parameter rest;
            discard_parameters_loop fuel' cursor'
          else Some cursor
      | [] => Some cursor
      end
  end.

Definition discard_parameters (cursor : bytes) : option bytes :=
  discard_parameters_loop (S (length cursor)) cursor.

Definition skip_spaces (cursor : bytes) : bytes :=
  (span (fun b => bool_decide (b = x20)) cursor).2.

Definition skip_whitespace (cursor : bytes) : bytes := (span is_space_or_tab cursor).2.

(** The [while] loop of [parse_wt_protocol_list]; [parse_string] consumes the
    opening quote, so the length bounds the iterations. *)
Fixpoint parse_protocols_loop (fuel : nat) (cursor : bytes) (protocols : list str)
    : option (list str) :=
  match fuel with
  | O => None
  | S fuel' =>
      if bool_decide (cursor = []) then Some protocols
      else
        '(protocol, cursor) ← parse_string cursor;
        cursor ← discard_parameters cursor;
        match skip_whitespace cursor with
        | [] => Some (protocols ++ [protocol])
        | byte :: rest =>
            if negb (bool_decide (byte = x2c)) then None
            else
              let cursor := skip_whitespace rest in
              if bool_decide (cursor = []) then None
              else parse_protocols_loop fuel' cursor (protocols ++ [protocol])
        end
  end.

Definition parse_wt_protocol_list (header : bytes) : option (list str) :=
  let cursor := skip_spaces header in
  protocols ← parse_protocols_loop (S (length cursor)) cursor [];
  if bool_decide (protocols = []) then None else Some protocols.

Definition parse_wt_protocol_string (header : bytes) : option str :=
  let cursor := skip_spaces header in
  '(protocol, cursor) ← parse_string cursor;
  cursor ← discard_parameters cursor;
  if bool_decide (skip_spaces cursor = []) then Some protocol else None.

End utils.
