(* ===== verification/UtilsProps.v ===== *)
(** * Properties of the protocol utilities

    Varint and error-code round trips, the structured-field printer and parser,
    and the bit layout of stream identifiers. *)

From S2P Require Import Prelude.
From S2P Require Import Types.
From S2P Require Import Utils.
Import utils.

(** ** Varints *)

Lemma be_put_head n w : head (be_put (S n) w) = Some (byte_of (w / 256 ^ Z.of_nat n)).
Proof.
  revert w. induction n as [|n IH]; intros w.
  - simpl. by rewrite Z.div_1_r.
  - change (be_put (S (S n)) w) with (be_put (S n) (w / 256) ++ [byte_of w]).
    specialize (IH (w / 256)). destruct (be_put (S n) (w / 256)) as [|b l]; [done|].
    simpl in *. rewrite IH. do 2 f_equal.
    rewrite Z.div_div by lia. f_equal.
    by rewrite Nat2Z.inj_succ, Z.pow_succ_r by lia.
Qed.

Lemma lor_high v k p : 0 <= k -> 0 <= v < 2 ^ k -> Z.lor v (Z.shiftl p k) = v + p * 2 ^ k.
Proof.
  intros Hk Hv. rewrite <- Z.add_nocarry_lor, Z.shiftl_mul_pow2; [done|lia|].
  apply Z.bits_inj'. intros i Hi. rewrite Z.land_spec, Z.bits_0.
  destruct (decide (i < k)).
  - rewrite Z.shiftl_spec_low by lia. by rewrite andb_false_r.
  - destruct (decide (v = 0)) as [->|]; [by rewrite Z.bits_0|].
    rewrite (Z.bits_above_log2 v i); [done|lia|].
    apply Z.log2_lt_pow2; [lia|]. apply Z.lt_le_trans with (2 ^ k); [lia|].
    apply Z.pow_le_mono_r; lia.
Qed.

(** Decoding [n] big-endian bytes whose top two bits are the length code [k]. *)
Lemma read_varint_be (n : nat) k w rest :
  (n = 1%nat /\ k = 0) \/ (n = 2%nat /\ k = 1) \/ (n = 4%nat /\ k = 2) \/ (n = 8%nat /\ k = 3) ->
  w / 256 ^ Z.of_nat (n - 1) mod 256 / 64 = k ->
  read_varint (be_put n w ++ rest) = Ok (w mod 2 ^ (8 * Z.of_nat n - 2), rest).
Proof.
  intros Hn Hk. unfold read_varint.
  assert (Hhead : head (be_put n w ++ rest) = Some (byte_of (w / 256 ^ Z.of_nat (n - 1)))).
  { destruct n as [|n]; [lia|]. pose proof (be_put_head n w) as E.
    destruct (be_put (S n) w); [done|]. simpl in *. by rewrite E, Nat.sub_0_r. }
  assert (Hlen : len (be_put n w ++ rest) = Z.of_nat n + len rest)
    by (unfold len; rewrite length_app, be_put_length; lia).
  assert (Htake : take n (be_put n w ++ rest) = be_put n w)
    by (rewrite <- (be_put_length n w) at 1; apply take_app_length).
  assert (Hdrop : drop n (be_put n w ++ rest) = rest)
    by (rewrite <- (be_put_length n w) at 1; apply drop_app_length).
  pose proof (len_nonneg rest).
  rewrite Hhead, Hlen, byte_val_of, Z.shiftr_div_pow2 by lia.
  change (2 ^ 6) with 64. rewrite Hk.
  destruct Hn as [[-> ->]|[[-> ->]|[[-> ->]|[-> ->]]]].
  all: match goal with |- context [?a <? ?b] => destruct (a <? b) eqn:E end;
    bool_to_prop; [rewrite Z.shiftl_mul_pow2 in E by lia; lia|].
  all: cbn [Z.shiftl Pos.iter Z.mul Z.eqb Pos.eqb Pos.mul].
  all: rewrite Htake, Hdrop, be_get_put; do 2 f_equal.
  all: match goal with |- Z.land ?x ?m = _ =>
         let j := eval vm_compute in (Z.log2 (m + 1)) in
         change (Z.land x m) with (Z.land x (Z.ones j)); rewrite Z.land_ones by lia end.
  all: rewrite <- Znumtheory.Zmod_div_mod; [done | done | done |].
  - by exists 4.
  - by exists 4.
  - by exists 4.
  - by exists 4.
Qed.

Lemma write_read_app buffer v rest :
  0 <= v <= QUIC_VARINT_LIMIT ->
  exists enc, write_varint buffer v = Ok (buffer ++ enc)
    /\ len enc = varint_size v
    /\ read_varint (enc ++ rest) = Ok (v, rest).
Proof.
  unfold QUIC_VARINT_LIMIT, write_varint, varint_size. intros Hv.
  unfold u8_try_from, u16_try_from, u32_try_from, U8_MAX, U32_MAX.
  repeat (case_match; bool_to_prop; try lia); simplify_eq.
  all: eexists; split; [reflexivity|]; split; [unfold len; by rewrite be_put_length|].
  - rewrite (read_varint_be 1 0); [| tauto |].
    + do 2 f_equal. change (2 ^ (8 * Z.of_nat 1 - 2)) with 64. by rewrite Z.mod_small by lia.
    + change (256 ^ Z.of_nat (1 - 1)) with 1. divlia.
  - change 0x4000 with (Z.shiftl 1 14). rewrite lor_high by (cbn; lia).
    rewrite (read_varint_be 2 1); [| tauto |].
    + do 2 f_equal. change (2 ^ (8 * Z.of_nat 2 - 2)) with 16384. change (2 ^ 14) with 16384. divlia.
    + change (256 ^ Z.of_nat (2 - 1)) with 256. change (2 ^ 14) with 16384. divlia.
  - change 0x80000000 with (Z.shiftl 2 30). rewrite lor_high by (cbn; lia).
    rewrite (read_varint_be 4 2); [| tauto |].
    + do 2 f_equal. change (2 ^ (8 * Z.of_nat 4 - 2)) with 1073741824.
      change (2 ^ 30) with 1073741824. divlia.
    + change (256 ^ Z.of_nat (4 - 1)) with 16777216. change (2 ^ 30) with 1073741824. divlia.
  - change 0xc000000000000000 with (Z.shiftl 3 62). rewrite lor_high by (cbn; lia).
    rewrite (read_varint_be 8 3); [| tauto |].
    + do 2 f_equal. change (2 ^ (8 * Z.of_nat 8 - 2)) with 4611686018427387904.
      change (2 ^ 62) with 4611686018427387904. divlia.
    + change (256 ^ Z.of_nat (8 - 1)) with 72057594037927936.
      change (2 ^ 62) with 4611686018427387904. divlia.
Qed.

(** The length announced by a first byte. *)
Definition varint_len (b : byte) : Z := Z.shiftl 1 (Z.shiftr (byte_val b) 6).

Lemma varint_len_cases b :
  varint_len b = 1 \/ varint_len b = 2 \/ varint_len b = 4 \/ varint_len b = 8.
Proof. destruct b; vm_compute; tauto. Qed.

(** [read_varint] reads exactly the announced bytes, whatever follows them. *)
Lemma read_varint_exact b enc more :
  head enc = Some b -> len enc = varint_len b ->
  read_varint (enc ++ more) = Ok (Z.land (be_get enc) (Z.ones (8 * len enc - 2)), more).
Proof.
  intros Hb Hlen. unfold read_varint.
  replace (head (enc ++ more)) with (Some b) by (by destruct enc).
  fold (varint_len b). pose proof (len_nonneg more).
  rewrite len_app, <- Hlen. destruct (_ <? _) eqn:E; bool_to_prop; [lia|].
  assert (Htake : take (length enc) (enc ++ more) = enc) by apply take_app_length.
  assert (Hdrop : drop (length enc) (enc ++ more) = more) by apply drop_app_length.
  unfold len in Hlen |- *.
  destruct (varint_len_cases b) as [Hn|[Hn|[Hn|Hn]]]; rewrite Hn in Hlen; rewrite Hlen;
    cbn [Z.eqb Pos.eqb];
    match goal with |- context [take ?k _] => replace k with (length enc) by lia end;
    by rewrite Htake, Hdrop.
Qed.

Lemma read_varint_inv l v rest :
  read_varint l = Ok (v, rest) ->
  exists b enc, l = enc ++ rest /\ head enc = Some b /\ len enc = varint_len b.
Proof.
  unfold read_varint. destruct l as [|b l]; [done|]. cbn [head].
  fold (varint_len b). destruct (_ <? _) eqn:E; bool_to_prop; [done|].
  destruct (varint_len_cases b) as [Hn|[Hn|[Hn|Hn]]]; rewrite Hn in *;
    cbn [Z.eqb Pos.eqb]; intros H; exists b;
    match type of H with context [drop ?k _] =>
      exists (take k (b :: l));
      replace rest with (drop k (b :: l)) by congruence;
      split; [symmetry; exact (take_drop k (b :: l)) | split; [done|]]
    end;
    unfold len in *; rewrite length_take; lia.
Qed.

Lemma read_varint_spec l v rest :
  read_varint l = Ok (v, rest) ->
  0 <= v <= QUIC_VARINT_LIMIT
  /\ exists enc, l = enc ++ rest /\ 1 <= len enc <= 8
    /\ forall more, read_varint (enc ++ more) = Ok (v, more).
Proof.
  intros H. destruct (read_varint_inv _ _ _ H) as (b & enc & -> & Hb & Hlen).
  rewrite (read_varint_exact b enc rest Hb Hlen) in H. injection H as <-.
  rewrite Z.land_ones by (rewrite Hlen; destruct (varint_len_cases b); lia).
  split.
  - pose proof (Z.mod_pos_bound (be_get enc) (2 ^ (8 * len enc - 2))) as Hr.
    unfold QUIC_VARINT_LIMIT.
    destruct (varint_len_cases b) as [Hn|[Hn|[Hn|Hn]]]; rewrite Hlen, Hn in *; cbn in *; lia.
  - exists enc. split; [done|]. split; [destruct (varint_len_cases b); lia|].
    intros more. rewrite (read_varint_exact b) by done.
    by rewrite Z.land_ones by (rewrite Hlen; destruct (varint_len_cases b); lia).
Qed.

(** ** Error codes *)

Lemma wt_http_wt c : is_u32 c ->
  http_code_to_webtransport_code (webtransport_code_to_http_code c) = Some c.
Proof.
  unfold is_u32, U32_MAX, http_code_to_webtransport_code, webtransport_code_to_http_code,
    ERR_WT_APPLICATION_ERROR_FIRST, ERR_WT_APPLICATION_ERROR_LAST, WT_ERROR_MAP_DIVISOR,
    H3_ERROR_RESERVED_OFFSET, H3_ERROR_RESERVED_MODULO, u32_try_from, U32_MAX.
  intros Hc. rewrite !u64_add_small by (rewrite ?u64_add_small; unfold U64_MAX; divlia).
  repeat (case_match; bool_to_prop; try (exfalso; divlia)).
  f_equal. divlia.
Qed.

Lemma http_wt_http h c : http_code_to_webtransport_code h = Some c ->
  is_u32 c /\ webtransport_code_to_http_code c = h.
Proof.
  unfold is_u32, U32_MAX, http_code_to_webtransport_code, webtransport_code_to_http_code,
    ERR_WT_APPLICATION_ERROR_FIRST, ERR_WT_APPLICATION_ERROR_LAST, WT_ERROR_MAP_DIVISOR,
    H3_ERROR_RESERVED_OFFSET, H3_ERROR_RESERVED_MODULO, u32_try_from, U32_MAX.
  intros H. repeat (case_match; bool_to_prop; try done). simplify_eq.
  rewrite !u64_add_small by (rewrite ?u64_add_small; unfold U64_MAX; divlia). divlia.
Qed.

(** ** The structured-field printer and parser *)

Lemma parse_string_loop_encoded protocol enc value rest :
  encode_protocol_bytes protocol = Some enc ->
  parse_string_loop (enc ++ x22 :: rest) value = Some (value ++ protocol, rest).
Proof.
  revert enc value. induction protocol as [|b p IH]; intros enc value; simpl.
  - intros [= <-]. simpl. by rewrite app_nil_r.
  - destruct (in_range 0x20 0x7e b) eqn:Hb; [|done].
    destruct (encode_protocol_bytes p) as [tail|] eqn:Ep; [|done]. intros [= <-].
    assert (Hstep : forall v, parse_string_loop (tail ++ x22 :: rest) (v ++ [b])
                              = Some (v ++ b :: p, rest))
      by (intros v; rewrite (IH tail) by done; by rewrite <- app_assoc).
    unfold is_escaped. destruct (bool_decide (b = x5c)) eqn:E1; bool_to_prop; subst; simpl.
    + apply Hstep.
    + destruct (bool_decide (b = x22)) eqn:E2; bool_to_prop; subst; simpl; [apply Hstep|].
      rewrite bool_decide_false by done. simpl.
      rewrite bool_decide_false by done. rewrite Hb. apply Hstep.
Qed.

Lemma parse_string_encoded protocol enc rest :
  encode_protocol_bytes protocol = Some enc ->
  parse_string (x22 :: enc ++ x22 :: rest) = Some (protocol, rest).
Proof. intros H. simpl. by rewrite (parse_string_loop_encoded protocol). Qed.

Lemma encode_protocols_cons index protocol rest buffer :
  encode_protocols_from index (protocol :: rest) = Some buffer ->
  exists enc tail, encode_protocol_bytes protocol = Some enc
    /\ encode_protocols_from (S index) rest = Some tail
    /\ buffer = (if (0 <? index)%nat then b: ", " else []) ++ x22 :: enc ++ x22 :: tail.
Proof.
  cbn [encode_protocols_from].
  destruct (encode_protocol_bytes protocol) as [enc|]; [|done].
  cbn [mbind option_bind].
  destruct (encode_protocols_from (S index) rest) as [tail|]; [|done].
  intros [= <-]. by exists enc, tail.
Qed.

(** The separator and the next quoted string, after an element. *)
Lemma encode_protocols_tail index rest tail :
  encode_protocols_from (S index) rest = Some tail ->
  (rest = [] /\ tail = []) \/ exists tail', tail = x2c :: x20 :: x22 :: tail'.
Proof.
  destruct rest as [|q qs].
  - intros [= <-]. by left.
  - intros (enc & t & _ & _ & ->)%encode_protocols_cons. right. simpl. eauto.
Qed.

Lemma parse_protocols_encoded fuel index protocols buffer acc :
  (length buffer < fuel)%nat -> protocols <> [] ->
  encode_protocols_from index protocols = Some buffer ->
  parse_protocols_loop fuel (if (0 <? index)%nat then drop 2 buffer else buffer) acc
    = Some (acc ++ protocols).
Proof.
  revert fuel index buffer acc.
  induction protocols as [|p ps IH]; intros fuel index buffer acc Hfuel Hne H; [done|].
  apply encode_protocols_cons in H as (enc & tail & Hp & Ht & ->).
  replace (if (0 <? index)%nat then drop 2 _ else _) with (x22 :: enc ++ x22 :: tail)
    by (by destruct (0 <? index)%nat).
  destruct fuel as [|fuel]; [lia|]. cbn [parse_protocols_loop].
  rewrite bool_decide_false by done. rewrite (parse_string_encoded p) by done.
  cbn [mbind option_bind].
  destruct (encode_protocols_tail _ _ _ Ht) as [[-> ->]|(tail' & ->)]; [done|].
  assert (Hps : ps <> []) by (by intros ->).
  assert (Hlen : (length (x2c :: x20 :: x22 :: tail') < fuel)%nat)
    by (rewrite !length_app in Hfuel; simpl in *; rewrite length_app in Hfuel; simpl in *; lia).
  pose proof (IH fuel (S index) _ (acc ++ [p]) Hlen Hps Ht) as IH'.
  change (if (0 <? S index)%nat then drop 2 (x2c :: x20 :: x22 :: tail') else _)
    with (x22 :: tail') in IH'.
  change (discard_parameters (x2c :: x20 :: x22 :: tail'))
    with (Some (x2c :: x20 :: x22 :: tail')).
  cbn [mbind option_bind].
  change (skip_whitespace (x2c :: x20 :: x22 :: tail')) with (x2c :: x20 :: x22 :: tail').
  cbv beta iota. change (skip_whitespace (x20 :: x22 :: tail')) with (x22 :: tail').
  rewrite bool_decide_true by done. cbn [negb].
  rewrite bool_decide_false by done. rewrite IH'. by rewrite <- app_assoc.
Qed.

Lemma protocol_list_parses_back protocols buffer :
  protocols <> [] ->
  encode_wt_protocol_list protocols = Ok buffer ->
  parse_wt_protocol_list buffer = Some protocols.
Proof.
  unfold encode_wt_protocol_list, parse_wt_protocol_list. intros Hne H.
  destruct (encode_protocols_from 0 protocols) as [buf|] eqn:E; [|done].
  injection H as <-.
  assert (Hskip : skip_spaces buf = buf).
  { destruct protocols; [done|]. by apply encode_protocols_cons in E as (? & ? & _ & _ & ->). }
  rewrite Hskip.
  pose proof (parse_protocols_encoded (S (length buf)) 0 protocols buf [] ltac:(lia) Hne E)
    as Hparse. cbn [Nat.ltb Nat.leb] in Hparse.
  rewrite Hparse. cbn. by rewrite bool_decide_false.
Qed.

(** One name: what a server sends in [wt-protocol] is what a client reads. *)
Lemma protocol_string_roundtrip protocol buffer :
  encode_wt_protocol_list [protocol] = Ok buffer ->
  parse_wt_protocol_string buffer = Some protocol.
Proof.
  unfold encode_wt_protocol_list, parse_wt_protocol_string. intros H.
  destruct (encode_protocols_from 0 [protocol]) as [buf|] eqn:E; [|done].
  injection H as <-. apply encode_protocols_cons in E as (enc & tail & Hp & [= <-] & ->).
  cbn [Nat.ltb Nat.leb app].
  change (skip_spaces (x22 :: enc ++ [x22])) with (x22 :: enc ++ [x22]).
  by rewrite (parse_string_encoded protocol).
Qed.

(** *** The parser's loops terminate: their fuel is never exhausted *)

Lemma parse_string_loop_shorter cursor value v rest :
  parse_string_loop cursor value = Some (v, rest) -> (length rest < length cursor)%nat.
Proof.
  remember (length cursor) as n eqn:Hn. revert cursor value Hn.
  induction n as [n IH] using lt_wf_ind; intros [|b l] value -> H; [done|].
  cbn [parse_string_loop length] in *.
  destruct (_ && _).
  - destruct l as [|e l']; [done|]. destruct (is_escaped e); [|done].
    apply (IH (length l')) in H; simpl in *; lia.
  - destruct (bool_decide (b = x22)); [injection H as _ <-; lia|].
    destruct (in_range _ _ b); [|done].
    apply (IH (length l)) in H; simpl in *; lia.
Qed.

Lemma parse_string_shorter cursor v rest :
  parse_string cursor = Some (v, rest) -> (length rest < length cursor)%nat.
Proof.
  destruct cursor as [|b l]; [done|]. cbn [parse_string].
  destruct (bool_decide (b = x22)); [|done].
  intros H%parse_string_loop_shorter. simpl. lia.
Qed.

Lemma display_string_loop_shorter cursor value v rest :
  display_string_loop cursor value = Some (v, rest) -> (length rest < length cursor)%nat.
Proof.
  remember (length cursor) as n eqn:Hn. revert cursor value Hn.
  induction n as [n IH] using lt_wf_ind; intros [|b l] value -> H; [done|].
  cbn [display_string_loop length] in *.
  destruct (bool_decide (b = x25)).
  - destruct l as [|d1 [|d2 l']]; [done|done|].
    destruct (hex_digit d1); [|done]. destruct (hex_digit d2); [|done]. cbn [mbind option_bind] in H.
    apply (IH (length l')) in H; simpl in *; lia.
  - destruct (bool_decide (b = x22)); [injection H as _ <-; lia|].
    destruct (in_range _ _ b); [|done].
    apply (IH (length l)) in H; simpl in *; lia.
Qed.

(** Split a [span] in a hypothesis, keeping the length bound of its rest. *)
Ltac span_case H :=
  match type of H with
  | context [span ?p ?l] =>
      let E := fresh "Hspan" in
      pose proof (span_length p l) as E; destruct (span p l) eqn:?; cbn [snd] in E
  end.

Lemma discard_number_shorter cursor d rest :
  discard_number cursor = Some (d, rest) -> (length rest <= length cursor)%nat.
Proof.
  unfold discard_number. intros H.
  set (c0 := match cursor with [] => cursor | _ :: _ => _ end) in H.
  assert (Hc : (length c0 <= length cursor)%nat)
    by (subst c0; clear H; destruct cursor as [|b l]; [done|];
        destruct (bool_decide (b = x2d)); simpl; lia).
  clearbody c0.
  span_case H. case_match; [done|]. destruct l0 as [|b l0].
  - case_match; [|done]. injection H as _ <-. lia.
  - case_match; [span_case H|]; (case_match; [|done]); injection H as _ <-; simpl in *; lia.
Qed.

Lemma discard_parameter_value_shorter cursor rest :
  discard_parameter_value cursor = Some rest -> (length rest <= length cursor)%nat.
Proof.
  destruct cursor as [|b l]; [done|]. cbn [discard_parameter_value]. intros H.
  case_match.
  { apply fmap_Some in H as ([? r] & H%discard_number_shorter & ->). done. }
  case_match.
  { apply fmap_Some in H as ([? r] & H%parse_string_shorter & ->). simpl in *. lia. }
  case_match; [apply (inj Some) in H as <-; apply span_length|].
  case_match.
  { unfold split_at_colon in H. span_case H. destruct l1; [done|].
    cbn in H. case_match; simplify_eq. simpl in *. lia. }
  case_match.
  { destruct l; [done|]. case_match; simplify_eq. simpl. lia. }
  case_match.
  { apply bind_Some in H as ([[] r] & H%discard_number_shorter & Hr); [done|].
    simplify_eq. simpl. lia. }
  case_match; [|done]. destruct l as [|q l]; [done|]. case_match; [|done].
  apply bind_Some in H as ([v r] & H%display_string_loop_shorter & Hr).
  case_match; simplify_eq. simpl in *. lia.
Qed.

Lemma discard_parameter_shorter cursor rest :
  discard_parameter cursor = Some rest -> (length rest <= length cursor)%nat.
Proof.
  unfold discard_parameter. intros H. span_case H. case_match; [done|].
  span_case H. destruct l2 as [|b l2]; [injection H as <-; simpl in *; lia|].
  case_match; [apply discard_parameter_value_shorter in H | injection H as <-]; simpl in *; lia.
Qed.

Lemma discard_parameters_loop_fuel n1 n2 cursor :
  (length cursor < n1)%nat -> (length cursor < n2)%nat ->
  discard_parameters_loop n1 cursor = discard_parameters_loop n2 cursor.
Proof.
  revert n2 cursor. induction n1 as [|n1 IH]; intros [|n2] cursor H1 H2; try lia.
  cbn [discard_parameters_loop]. destruct cursor as [|b l]; [done|].
  case_match; [|done]. destruct (discard_parameter l) as [l'|] eqn:E; [|done].
  apply discard_parameter_shorter in E. simpl in *. apply IH; lia.
Qed.

Lemma discard_parameters_shorter cursor rest :
  discard_parameters cursor = Some rest -> (length rest <= length cursor)%nat.
Proof.
  unfold discard_parameters. generalize (S (length cursor)) as fuel. intros fuel.
  revert cursor. induction fuel as [|fuel IH]; intros cursor H; [done|].
  cbn [discard_parameters_loop] in H. destruct cursor as [|b l]; [by injection H as <-|].
  case_match; [|by injection H as <-].
  destruct (discard_parameter l) as [l'|] eqn:E; [|done].
  apply discard_parameter_shorter in E. apply IH in H. simpl in *. lia.
Qed.

Lemma skip_whitespace_length l : (length (skip_whitespace l) <= length l)%nat.
Proof. apply span_length. Qed.

Lemma parse_protocols_loop_fuel n1 n2 cursor acc :
  (length cursor < n1)%nat -> (length cursor < n2)%nat ->
  parse_protocols_loop n1 cursor acc = parse_protocols_loop n2 cursor acc.
Proof.
  revert n2 cursor acc. induction n1 as [|n1 IH]; intros [|n2] cursor acc H1 H2; try lia.
  cbn [parse_protocols_loop]. case_match; [done|].
  destruct (parse_string cursor) as [[p c1]|] eqn:E1; [|done]. cbn [mbind option_bind].
  destruct (discard_parameters c1) as [c2|] eqn:E2; [|done]. cbn [mbind option_bind].
  apply parse_string_shorter in E1. apply discard_parameters_shorter in E2.
  pose proof (skip_whitespace_length c2). destruct (skip_whitespace c2) as [|b c3]; [done|].
  pose proof (skip_whitespace_length c3).
  case_match; [done|]. case_match; [done|]. simpl in *. apply IH; lia.
Qed.

(** ** Stream identifiers *)

Lemma land_1 x : Z.land x 1 = x mod 2.
Proof. change 1 with (Z.ones 1). by rewrite Z.land_ones by lia. Qed.

Lemma land_3 x : Z.land x 3 = x mod 4.
Proof. change 3 with (Z.ones 2). by rewrite Z.land_ones by lia. Qed.

Lemma is_valid_session_id_spec id :
  is_valid_session_id id = true <-> id mod 4 = 0.
Proof.
  unfold is_valid_session_id, QUIC_STREAM_DIRECTION_MASK, QUIC_STREAM_INITIATOR_MASK.
  change (Z.lor 2 1) with 3. rewrite land_3. apply Z.eqb_eq.
Qed.

Lemma is_unidirectional_stream_spec id :
  is_unidirectional_stream id = Z.testbit id 1.
Proof.
  unfold is_unidirectional_stream, QUIC_STREAM_DIRECTION_MASK.
  destruct (Z.testbit id 1) eqn:E.
  - apply negb_true_iff, Z.eqb_neq. intros H.
    assert (Hbit : Z.testbit (Z.land id 2) 1 = true) by (rewrite Z.land_spec, E; done).
    rewrite H in Hbit. by rewrite Z.bits_0 in Hbit.
  - apply negb_false_iff, Z.eqb_eq. apply Z.bits_inj'. intros i Hi.
    rewrite Z.land_spec, Z.bits_0. destruct (decide (i = 1)) as [->|Hne]; [by rewrite E|].
    replace (Z.testbit 2 i) with false; [by rewrite andb_false_r|].
    destruct i as [|p|p]; [done| |lia]. symmetry. change 2 with (2 ^ 1).
    rewrite Z.pow2_bits_eqb by lia. apply Z.eqb_neq. lia.
Qed.

Lemma write_varint_limit buffer v enc :
  write_varint buffer v = Ok enc -> v <= QUIC_VARINT_LIMIT.
Proof.
  unfold write_varint, QUIC_VARINT_LIMIT.
  destruct (v <=? 63) eqn:E1, (v <=? 16383) eqn:E2, (v <=? 1073741823) eqn:E3,
    (v <=? 4611686018427387903) eqn:E4; bool_to_prop; intros H; try lia. done.
Qed.

Lemma is_peer_initiated_dual id :
  is_peer_initiated_stream id true = negb (is_peer_initiated_stream id false).
Proof. unfold is_peer_initiated_stream. by destruct (_ =? 0). Qed.

(** ** The theorems *)

Lemma read_varint_short b enc short :
  head enc = Some b -> len enc = varint_len b ->
  short `prefix_of` enc -> short <> enc -> read_varint short = Err ERR_H3_FRAME_ERROR.
Proof.
  intros Hb Hlen [tail ->] Hne. destruct short as [|b' short]; [done|].
  simpl in Hb. injection Hb as ->.
  destruct tail as [|x tail]; [by rewrite app_nil_r in Hne|].
  rewrite len_app, (len_cons x) in Hlen. pose proof (len_nonneg tail).
  unfold read_varint. cbn [head]. fold (varint_len b).
  destruct (_ <? _) eqn:E; [done|]. bool_to_prop. lia.
Qed.

(** A variable-length integer is written in [varint_size] bytes and read back
    as itself whatever follows it; any strict prefix of the encoding is refused
    as a frame error, and a value above 2^62-1 is refused when writing. *)
Theorem varint_roundtrip buffer v :
  0 <= v ->
  (v <= QUIC_VARINT_LIMIT ->
   exists enc, write_varint buffer v = Ok (buffer ++ enc)
     /\ len enc = varint_size v
     /\ (forall rest, read_varint (enc ++ rest) = Ok (v, rest))
     /\ (forall short, short `prefix_of` enc -> short <> enc ->
         read_varint short = Err ERR_H3_FRAME_ERROR))
  /\ (QUIC_VARINT_LIMIT < v -> write_varint buffer v = Err ERR_LIB_INTERNAL_ERROR).
Proof.
  intros Hv. split.
  - intros Hlim. destruct (write_read_app buffer v [] (conj Hv Hlim)) as (enc & Hw & Hlen & Hr).
    destruct (read_varint_inv _ _ _ Hr) as (b & enc' & Heq & Hb & Hl).
    rewrite !app_nil_r in Heq. subst enc'.
    exists enc. split_and!; try done.
    + intros rest. destruct (read_varint_spec _ _ _ Hr) as (_ & enc'' & Heq & _ & Hall).
      rewrite !app_nil_r in Heq. by subst enc''.
    + intros short. by apply (read_varint_short b).
  - unfold QUIC_VARINT_LIMIT, write_varint. intros Hlim.
    repeat (case_match; bool_to_prop; try lia). done.
Qed.

Lemma varint_roundtrip_witness : exists enc, write_varint [] 300 = Ok enc /\ len enc = 2.
Proof.
  destruct (proj1 (varint_roundtrip [] 300 ltac:(lia)) ltac:(vm_compute; congruence))
    as (enc & Hw & Hl & _).
  exists enc. split; [exact Hw | exact Hl].
Defined.

(** The two error-code translations are inverse to each other, between the
    32-bit application codes and the HTTP/3 codes of the WebTransport range that
    are not reserved. *)
Theorem error_codes_bijective h c :
  http_code_to_webtransport_code h = Some c
  <-> is_u32 c /\ webtransport_code_to_http_code c = h.
Proof.
  split; [apply http_wt_http|]. intros [Hc <-]. by apply wt_http_wt.
Qed.

(** Printing a non-empty list of protocol names as a structured-field list
    and parsing it back gives the same names, and the single name a server
    answers with is read back by the client. *)
Theorem protocol_list_roundtrip protocols buffer :
  protocols <> [] -> encode_wt_protocol_list protocols = Ok buffer ->
  parse_wt_protocol_list buffer = Some protocols
  /\ (forall protocol, protocols = [protocol] -> parse_wt_protocol_string buffer = Some protocol).
Proof.
  intros Hne He. split; [by apply protocol_list_parses_back|].
  intros protocol ->. by apply protocol_string_roundtrip.
Qed.

Lemma protocol_list_roundtrip_witness :
  exists buffer, encode_wt_protocol_list [b: "chat"; b: "echo\1"] = Ok buffer
     /\ parse_wt_protocol_list buffer = Some [b: "chat"; b: "echo\1"].
Proof.
  eexists. split; [vm_compute; reflexivity|].
  destruct (protocol_list_roundtrip [b: "chat"; b: "echo\1"] _ ltac:(done)
    ltac:(vm_compute; reflexivity)) as [H _]. exact H.
Defined.

(** A byte that ends a header line or a C string. *)
Definition breaks_line (byte : byte) : bool :=
  bool_decide (byte = x00) || bool_decide (byte = x0a) || bool_decide (byte = x0d).

Lemma is_valid_header_safe key value :
  is_valid_header key value = true ->
  forall b, b ∈ key ++ value -> breaks_line b = false.
Proof.
  unfold is_valid_header. intros H b Hb.
  apply andb_true_iff in H as [H Hval]. apply andb_true_iff in H as [H _].
  apply andb_true_iff in H as [_ Hname].
  rewrite forallb_forall in Hval, Hname.
  assert (Hcases : b = x3a \/ is_token_byte b = true
    \/ (bool_decide (b = x09) || in_range 32 126 b || in_range 128 255 b) = true).
  { apply elem_of_app in Hb as [Hb|Hb]; [|right; right; by apply Hval, list_elem_of_In].
    destruct key as [|k key]; [by apply not_elem_of_nil in Hb|].
    destruct (bool_decide (k = x3a)) eqn:E; bool_to_prop.
    - subst k. apply elem_of_cons in Hb as [->|Hb]; [by left|].
      right; left. by apply Hname, list_elem_of_In.
    - right; left. by apply Hname, list_elem_of_In. }
  destruct Hcases as [->|[Hc|Hc]]; [done| |]; by destruct b.
Qed.



(** The hand-written parser of protocol lists terminates on every input: the
    bound its loops run under is never the reason they stop, since any larger
    bound gives the same result. *)
Theorem protocol_parser_terminates fuel header :
  (length header < fuel)%nat ->
  parse_wt_protocol_list header =
    (protocols ← parse_protocols_loop fuel (skip_spaces header) [];
     if bool_decide (protocols = []) then None else Some protocols)
  /\ discard_parameters header = discard_parameters_loop fuel header.
Proof.
  intros Hfuel. unfold parse_wt_protocol_list, discard_parameters.
  assert (Hs : (length (skip_spaces header) <= length header)%nat) by apply span_length.
  split; [|apply discard_parameters_loop_fuel; lia].
  by rewrite (parse_protocols_loop_fuel _ fuel) by lia.
Qed.

Lemma protocol_parser_terminates_witness :
  discard_parameters (b: ";a=1;b") = discard_parameters_loop 100 (b: ";a=1;b").
Proof.
  destruct (protocol_parser_terminates 100 (b: ";a=1;b") ltac:(vm_compute; lia)) as [_ H].
  exact H.
Defined.
