(* ===== verification/StreamMachine.v ===== *)
(** * The stream state machine

    [crates/src/protocol/stream.rs]: one WebTransport stream, its send half (a
    bounded write buffer drained against the session's credit) and its receive
    half (a queue of read requests).  A [&mut self] method takes the record and
    returns it updated with the effects it emits. *)

From S2P Require Import Prelude.
From S2P Require Import Types.
From S2P Require Import Events.
From S2P Require Import Utils.

Module StreamParameters.
Record t : Set := mk { max_write_buffer_size : Z }.
End StreamParameters.

Module Stream.

Record t : Set := mk {
  created_at : f64;
  direction : StreamDirection.t;
  id : StreamId;
  is_peer_initiated : bool;
  max_write_buffer_size : Z;
  pending_read_requests : list (RequestId * Z);
  pending_write_request : option RequestId;
  receive_error_code : option ErrorCode;
  receive_state : option StreamReceiveState.t;
  send_error_code : option ErrorCode;
  send_state : option StreamSendState.t;
  session_id : SessionId;
  write_buffer : list (bytes * RequestId * bool);
  write_buffer_size : Z;
}.

#[export] Instance eta_stream : Eta t := fun s =>
  mk (created_at s) (direction s) (id s) (is_peer_initiated s) (max_write_buffer_size s)
     (pending_read_requests s) (pending_write_request s) (receive_error_code s)
     (receive_state s) (send_error_code s) (send_state s) (session_id s)
     (write_buffer s) (write_buffer_size s).
#[export] Instance set_pending_read_requests : Setter pending_read_requests :=
  ltac:(build_setter).
#[export] Instance set_pending_write_request : Setter pending_write_request :=
  ltac:(build_setter).
#[export] Instance set_receive_error_code : Setter receive_error_code := ltac:(build_setter).
#[export] Instance set_receive_state : Setter receive_state := ltac:(build_setter).
#[export] Instance set_send_error_code : Setter send_error_code := ltac:(build_setter).
#[export] Instance set_send_state : Setter send_state := ltac:(build_setter).
#[export] Instance set_write_buffer : Setter write_buffer := ltac:(build_setter).
#[export] Instance set_write_buffer_size : Setter write_buffer_size := ltac:(build_setter).

Definition new (id : StreamId) (session_id : SessionId) (direction : StreamDirection.t)
    (is_peer_initiated : bool) (parameters : StreamParameters.t) (created_at : f64) : t := {|
  created_at := created_at;
  direction := direction;
  id := id;
  is_peer_initiated := is_peer_initiated;
  max_write_buffer_size := StreamParameters.max_write_buffer_size parameters;
  pending_read_requests := [];
  pending_write_request := None;
  receive_error_code := None;
  receive_state :=
    if bool_decide (direction ≠ StreamDirection.SendOnly)
    then Some StreamReceiveState.Receive else None;
  send_error_code := None;
  send_state :=
    if bool_decide (direction ≠ StreamDirection.ReceiveOnly)
    then Some StreamSendState.Ready else None;
  session_id := session_id;
  write_buffer := [];
  write_buffer_size := 0;
|}.

(** [matches!(send_state, None | Some(DataReceived | ResetSent))]. *)
Definition is_send_terminated (state : option StreamSendState.t) : bool :=
  match state with
  | None | Some StreamSendState.DataReceived | Some StreamSendState.ResetSent => true
  | Some StreamSendState.DataSent | Some StreamSendState.Ready => false
  end.

(** [matches!(receive_state, None | Some(DataRead | ResetRead))]. *)
Definition is_receive_terminated (state : option StreamReceiveState.t) : bool :=
  match state with
  | None | Some StreamReceiveState.DataRead | Some StreamReceiveState.ResetRead => true
  | Some StreamReceiveState.DataReceived | Some StreamReceiveState.Receive => false
  end.

Definition is_blocked (s : t) : bool :=
  bool_decide (pending_write_request s = None) && negb (bool_decide (write_buffer s = [])).

Definition is_closed (s : t) : bool :=
  is_receive_terminated (receive_state s) && is_send_terminated (send_state s).

(** [write_buffer.front().is_none_or(|(_, id, _)| id != request_id)]. *)
Definition front_differs (buffer : list (bytes * RequestId * bool)) (request_id : RequestId)
    : bool :=
  match buffer with
  | [] => true
  | (_, write_request_id, _) :: _ => negb (write_request_id =? request_id)
  end.

(** ** The send half *)

Definition flush_writes (s : t) (available_credit : Z) : t * list Effect.t * Z :=
  if bool_decide (is_Some (pending_write_request s))
     || negb (bool_decide (send_state s = Some StreamSendState.Ready)) then (s, [], 0)
  else match write_buffer s with
  | [] => (s, [], 0)
  | (data, request_id, end_stream) :: rest =>
      let data_len := len data in
      if (0 <? data_len) && (available_credit =? 0) then (s, [], 0)
      else
        let is_request_complete := data_len <=? available_credit in
        let '(data, buffer) :=
          if negb is_request_complete then
            let sendable := Z.to_nat available_credit in
            (take sendable data, (drop sendable data, request_id, end_stream) :: rest)
          else (data, rest) in
        let sent := len data in
        let is_finished := is_request_complete && end_stream in
        let s := s <| write_buffer := buffer |>
                   <| write_buffer_size := u64_sub (write_buffer_size s) sent |>
                   <| pending_write_request := Some request_id |> in
        let s := if is_finished then s <| send_state := Some StreamSendState.DataSent |> else s in
        (s, [Effect.SendQuicData (id s) data is_finished], sent)
  end.

Definition complete_write (s : t) (available_credit : Z) : t * list Effect.t * Z :=
  match pending_write_request s with
  | None => (s, [], 0)
  | Some request_id =>
      let s := s <| pending_write_request := None |> in
      let is_request_complete := front_differs (write_buffer s) request_id in
      let effects :=
        if is_request_complete
        then [Effect.NotifyRequestDone request_id RequestResult.None] else [] in
      let '(s, flush_effects, sent) := flush_writes s available_credit in
      (s, effects ++ flush_effects, sent)
  end.

Definition write (s : t) (request_id : RequestId) (data : bytes) (end_stream : bool)
    (available_credit : Z) : t * list Effect.t * Z :=
  match send_state s with
  | None =>
      (s, [Effect.NotifyRequestFailed request_id ErrorSource.Stream
             (Some ERR_LIB_STREAM_STATE_ERROR) (b: "wt_stream validate invalid")], 0)
  | Some state =>
      let is_finish_pending :=
        match last (write_buffer s) with Some (_, _, fin) => fin | None => false end in
      if negb (bool_decide (state = StreamSendState.Ready)) || is_finish_pending then
        if bool_decide (data = []) && end_stream then
          (s, [Effect.NotifyRequestDone request_id RequestResult.None], 0)
        else
          (s, [Effect.NotifyRequestFailed request_id ErrorSource.Stream
                 (Some ERR_LIB_STREAM_STATE_ERROR) (b: "wt_stream validate failed")], 0)
      else
        let data_len := len data in
        if max_write_buffer_size s <? u64_add (write_buffer_size s) data_len then
          (s, [Effect.NotifyRequestFailed request_id ErrorSource.Stream
                 (Some ERR_LIB_STREAM_STATE_ERROR) (b: "wt_stream validate exceeded")], 0)
        else
          let s := s <| write_buffer := write_buffer s ++ [(data, request_id, end_stream)] |>
                     <| write_buffer_size := u64_add (write_buffer_size s) data_len |> in
          flush_writes s available_credit
  end.

Definition handle_data_acknowledged (s : t) : t :=
  if bool_decide (send_state s = Some StreamSendState.DataSent)
  then s <| send_state := Some StreamSendState.DataReceived |> else s.

Definition send_reset (s : t) (error_code : option ErrorCode) (http_error_code : ErrorCode)
    : t * list Effect.t :=
  if is_send_terminated (send_state s) then (s, [])
  else
    let fail request_id :=
      Effect.NotifyRequestFailed request_id ErrorSource.Stream error_code (b: "wt_stream abort") in
    let in_flight :=
      match pending_write_request s with
      | Some request_id =>
          if front_differs (write_buffer s) request_id then [fail request_id] else []
      | None => []
      end in
    let buffered := (fun '(_, request_id, _) => fail request_id) <$> write_buffer s in
    (s <| send_error_code := error_code |>
       <| send_state := Some StreamSendState.ResetSent |>
       <| write_buffer_size := 0 |>
       <| pending_write_request := None |>
       <| write_buffer := [] |>,
     Effect.ResetQuicStream (id s) http_error_code :: in_flight ++ buffered).

(** The HTTP/3 code of a user's [u64] code, saturating to the first one. *)
Definition http_error_code_of (error_code : ErrorCode) : ErrorCode :=
  match u32_try_from error_code with
  | Some code => utils.webtransport_code_to_http_code code
  | None => ERR_WT_APPLICATION_ERROR_FIRST
  end.

Definition reset (s : t) (request_id : RequestId) (error_code : ErrorCode)
    : t * list Effect.t :=
  match send_state s with
  | None =>
      (s, [Effect.NotifyRequestFailed request_id ErrorSource.Stream
             (Some ERR_LIB_STREAM_STATE_ERROR) (b: "wt_stream validate invalid")])
  | Some _ =>
      let '(s, effects) :=
        if negb (is_send_terminated (send_state s))
        then send_reset s (Some error_code) (http_error_code_of error_code)
        else (s, []) in
      (s, effects ++ [Effect.NotifyRequestDone request_id RequestResult.None])
  end.

Definition recv_stop_sending (s : t) (error_code : ErrorCode) : t * list Effect.t :=
  if is_send_terminated (send_state s) then (s, [])
  else
    let application_error_code := utils.http_code_to_webtransport_code error_code in
    let event := Effect.EmitStreamEvent (id s) EventType.StreamStopSendingReceived
                   None None None application_error_code in
    let '(s, effects) := send_reset s application_error_code error_code in
    (s, event :: effects).

(** ** The receive half *)

Definition read_done (request_id : RequestId) (data : bytes) : Effect.t :=
  Effect.NotifyRequestDone request_id (RequestResult.ReadData data).

Definition read (s : t) (request_id : RequestId) (max_size : Z) : t * list Effect.t :=
  match receive_state s with
  | None =>
      (s, [Effect.NotifyRequestFailed request_id ErrorSource.Stream
             (Some ERR_LIB_STREAM_STATE_ERROR) (b: "wt_stream validate invalid")])
  | Some state =>
      if bool_decide (state = StreamReceiveState.Receive) && (0 <? max_size) then
        let s := s <| pending_read_requests :=
                        pending_read_requests s ++ [(request_id, max_size)] |> in
        if (length (pending_read_requests s) =? 1)%nat
        then (s, [Effect.ReceiveQuicData (id s) max_size])
        else (s, [])
      else match state with
      | StreamReceiveState.DataRead | StreamReceiveState.DataReceived
      | StreamReceiveState.Receive =>
          let s :=
            if bool_decide (state = StreamReceiveState.DataReceived) && (0 <? max_size)
            then s <| receive_state := Some StreamReceiveState.DataRead |> else s in
          (s, [read_done request_id []])
      | StreamReceiveState.ResetRead =>
          (s, [Effect.NotifyRequestFailed request_id ErrorSource.Stream
                 (receive_error_code s) (b: "wt_stream validate failed")])
      end
  end.

(** The first [if let] of [recv_data]: the head read request takes the data. *)
Definition deliver_head (s : t) (data : bytes) (end_stream : bool) : t * list Effect.t :=
  match pending_read_requests s with
  | [] => (s, [])
  | (request_id, _) :: rest =>
      let is_data_delivered := negb (bool_decide (data = [])) in
      let s := s <| pending_read_requests := rest |> in
      let s := if end_stream && negb is_data_delivered
               then s <| receive_state := Some StreamReceiveState.DataRead |> else s in
      (s, [read_done request_id data])
  end.

Definition recv_data (s : t) (data : bytes) (end_stream : bool) : t * list Effect.t :=
  if negb (bool_decide (receive_state s = Some StreamReceiveState.Receive)) then (s, [])
  else
    let '(s, effects) := deliver_head s data end_stream in
    if end_stream then
      let s := if bool_decide (receive_state s = Some StreamReceiveState.Receive)
               then s <| receive_state := Some StreamReceiveState.DataReceived |> else s in
      let waiting := pending_read_requests s in
      let s := if bool_decide (waiting = []) then s
               else s <| receive_state := Some StreamReceiveState.DataRead |> in
      (s <| pending_read_requests := [] |>,
       effects ++ ((fun '(request_id, _) => read_done request_id []) <$> waiting))
    else match pending_read_requests s with
    | (_, max_size) :: _ => (s, effects ++ [Effect.ReceiveQuicData (id s) max_size])
    | [] => (s, effects)
    end.

(** Drain the read queue, failing every request. *)
Definition fail_reads (s : t) (error_code : option ErrorCode) : list Effect.t :=
  (fun '(request_id, _) =>
     Effect.NotifyRequestFailed request_id ErrorSource.Stream error_code (b: "wt_stream abort"))
  <$> pending_read_requests s.

Definition recv_reset (s : t) (error_code : ErrorCode) : t * list Effect.t :=
  if is_receive_terminated (receive_state s) then (s, [])
  else
    let application_error_code := utils.http_code_to_webtransport_code error_code in
    let event := Effect.EmitStreamEvent (id s) EventType.StreamResetReceived
                   None None None application_error_code in
    (s <| receive_error_code := application_error_code |>
       <| receive_state := Some StreamReceiveState.ResetRead |>
       <| pending_read_requests := [] |>,
     event :: fail_reads s application_error_code).

Definition send_stop (s : t) (error_code : option ErrorCode) (http_error_code : ErrorCode)
    : t * list Effect.t :=
  let stopped :=
    s <| receive_error_code := error_code |>
      <| receive_state := Some StreamReceiveState.ResetRead |>
      <| pending_read_requests := [] |> in
  match receive_state s with
  | Some StreamReceiveState.Receive =>
      (stopped, Effect.StopQuicStream (id s) http_error_code :: fail_reads s error_code)
  | Some StreamReceiveState.DataReceived => (stopped, fail_reads s error_code)
  | _ => (s, [])
  end.

Definition stop (s : t) (request_id : RequestId) (error_code : ErrorCode)
    : t * list Effect.t :=
  match receive_state s with
  | None =>
      (s, [Effect.NotifyRequestFailed request_id ErrorSource.Stream
             (Some ERR_LIB_STREAM_STATE_ERROR) (b: "wt_stream validate invalid")])
  | Some _ =>
      let '(s, effects) :=
        if negb (is_receive_terminated (receive_state s))
        then send_stop s (Some error_code) (http_error_code_of error_code)
        else (s, []) in
      (s, effects ++ [Effect.NotifyRequestDone request_id RequestResult.None])
  end.

Definition abort (s : t) (error_code : ErrorCode) : t * list Effect.t :=
  let '(s, effects) := send_reset s (Some error_code) error_code in
  let '(s, stop_effects) := send_stop s (Some error_code) error_code in
  (s, effects ++ stop_effects).

Definition diagnostics_snapshot (s : t) : StreamDiagnostics.t := {|
  StreamDiagnostics.created_at := created_at s;
  StreamDiagnostics.direction := direction s;
  StreamDiagnostics.is_peer_initiated := is_peer_initiated s;
  StreamDiagnostics.receive_error_code := receive_error_code s;
  StreamDiagnostics.receive_state := receive_state s;
  StreamDiagnostics.send_error_code := send_error_code s;
  StreamDiagnostics.send_state := send_state s;
  StreamDiagnostics.session_id := session_id s;
  StreamDiagnostics.stream_id := id s;
|}.

Definition diagnose (s : t) (request_id : RequestId) : list Effect.t :=
  [Effect.NotifyRequestDone request_id
     (RequestResult.StreamDiagnostics (diagnostics_snapshot s))].

End Stream.
