(* ===== verification/StreamProps.v ===== *)
(** * Properties of the stream state machine

    The well-formedness invariant of a stream and, for every operation and then
    for every run, what happens to the bytes, the credit and the requests. *)

From S2P Require Import Prelude.
From S2P Require Import Types.
From S2P Require Import Events.
From S2P Require Import Utils.
From S2P Require Import StreamMachine.

Module StreamP.
Import Stream.

(** ** What a stream holds *)

Definition entry_ids (buffer : list (bytes * RequestId * bool)) : list RequestId :=
  (fun x => x.1.2) <$> buffer.

Definition entry_bytes (buffer : list (bytes * RequestId * bool)) : bytes :=
  concat ((fun x => x.1.1) <$> buffer).

(** The bytes accepted from the user and not yet handed to QUIC. *)
Definition buffered (s : t) : bytes := entry_bytes (write_buffer s).

(** The write requests not yet answered: the one in flight, unless part of it is
    still buffered, and the buffered ones. *)
Definition outstanding_writes (s : t) : list RequestId :=
  match pending_write_request s with
  | Some r => if front_differs (write_buffer s) r then [r] else []
  | None => []
  end ++ entry_ids (write_buffer s).

Definition outstanding_reads (s : t) : list RequestId := fst <$> pending_read_requests s.

Definition outstanding (s : t) : list RequestId :=
  outstanding_writes s ++ outstanding_reads s.

(** Only the last buffered entry carries the end of the stream. *)
Fixpoint fin_last (buffer : list (bytes * RequestId * bool)) : Prop :=
  match buffer with
  | [] => True
  | [_] => True
  | (_, _, fin) :: rest => fin = false /\ fin_last rest
  end.

Record wf (s : t) : Prop := {
  wf_send_direction : send_state s = None <-> direction s = StreamDirection.ReceiveOnly;
  wf_receive_direction : receive_state s = None <-> direction s = StreamDirection.SendOnly;
  wf_not_ready : send_state s <> Some StreamSendState.Ready -> write_buffer s = [];
  wf_no_flight : send_state s = None \/ send_state s = Some StreamSendState.ResetSent ->
                 pending_write_request s = None;
  wf_not_receiving : receive_state s <> Some StreamReceiveState.Receive ->
                     pending_read_requests s = [];
  wf_read_sizes : Forall (fun r => 0 < r.2) (pending_read_requests s);
  wf_size : write_buffer_size s = len (buffered s);
  wf_limit : write_buffer_size s <= max_write_buffer_size s <= ISIZE_MAX;
  wf_fin : fin_last (write_buffer s);
  wf_ids : NoDup (outstanding_writes s);
}.

(** ** Operations as data *)

Inductive op : Set :=
| OpWrite (request_id : RequestId) (data : bytes) (end_stream : bool) (credit : Z)
| OpFlush (credit : Z)
| OpComplete (credit : Z)
| OpAcknowledged
| OpRead (request_id : RequestId) (max_size : Z)
| OpRecvData (data : bytes) (end_stream : bool)
| OpRecvReset (error_code : ErrorCode)
| OpRecvStopSending (error_code : ErrorCode)
| OpReset (request_id : RequestId) (error_code : ErrorCode)
| OpStop (request_id : RequestId) (error_code : ErrorCode)
| OpAbort (error_code : ErrorCode)
| OpDiagnose (request_id : RequestId).

Definition step (o : op) (s : t) : t * list Effect.t :=
  match o with
  | OpWrite r data fin credit => let '(s, e, _) := write s r data fin credit in (s, e)
  | OpFlush credit => let '(s, e, _) := flush_writes s credit in (s, e)
  | OpComplete credit => let '(s, e, _) := complete_write s credit in (s, e)
  | OpAcknowledged => (handle_data_acknowledged s, [])
  | OpRead r max_size => read s r max_size
  | OpRecvData data fin => recv_data s data fin
  | OpRecvReset code => recv_reset s code
  | OpRecvStopSending code => recv_stop_sending s code
  | OpReset r code => reset s r code
  | OpStop r code => stop s r code
  | OpAbort code => abort s code
  | OpDiagnose r => (s, diagnose s r)
  end.

(** The request an operation submits. *)
Definition submitted (o : op) : list RequestId :=
  match o with
  | OpWrite r _ _ _ | OpRead r _ | OpReset r _ | OpStop r _ | OpDiagnose r => [r]
  | _ => []
  end.

(** Machine ranges of the arguments: credits are [u64], a buffer is at most
    [isize::MAX] bytes long. *)
Definition op_ok (o : op) : Prop :=
  match o with
  | OpWrite _ data _ credit => len data <= ISIZE_MAX /\ is_u64 credit
  | OpFlush credit | OpComplete credit => is_u64 credit
  | _ => True
  end.

(** ** The write buffer *)

Lemma entry_bytes_cons data r fin rest :
  entry_bytes ((data, r, fin) :: rest) = data ++ entry_bytes rest.
Proof. reflexivity. Qed.

Lemma entry_bytes_app x y : entry_bytes (x ++ y) = entry_bytes x ++ entry_bytes y.
Proof. unfold entry_bytes. by rewrite fmap_app, concat_app. Qed.

Lemma entry_ids_app x y : entry_ids (x ++ y) = entry_ids x ++ entry_ids y.
Proof. apply fmap_app. Qed.

Lemma fin_last_tail x rest : fin_last (x :: rest) -> fin_last rest.
Proof. destruct x as [[? ?] ?], rest; simpl; tauto. Qed.

Lemma fin_last_not_last d r rest : fin_last ((d, r, true) :: rest) -> rest = [].
Proof. destruct rest; [done|]. simpl. by intros [? _]. Qed.

Lemma fin_last_replace d d' r fin rest :
  fin_last ((d, r, fin) :: rest) -> fin_last ((d', r, fin) :: rest).
Proof. by destruct rest. Qed.

Lemma fin_last_snoc buffer x :
  fin_last buffer ->
  match last buffer with Some (_, _, fin) => fin | None => false end = false ->
  fin_last (buffer ++ [x]).
Proof.
  induction buffer as [|[[d r] fin] rest IH]; intros Hl Hlast;
    [by destruct x as [[? ?] ?]|].
  destruct rest as [|y rest'].
  - simpl in *. split; [done|]. by destruct x as [[? ?] ?].
  - simpl in Hl. destruct Hl as [-> Hl].
    change (((d, r, false) :: y :: rest') ++ [x]) with ((d, r, false) :: (y :: rest') ++ [x]).
    specialize (IH Hl Hlast). by destruct ((y :: rest') ++ [x]).
Qed.

Lemma front_differs_fresh buffer r : r ∉ entry_ids buffer -> front_differs buffer r = true.
Proof.
  destruct buffer as [|[[d r'] fin] rest]; [done|]. cbn. rewrite not_elem_of_cons.
  intros [Hne _]. apply negb_true_iff, Z.eqb_neq. congruence.
Qed.

Lemma front_differs_same d r fin rest : front_differs ((d, r, fin) :: rest) r = false.
Proof. cbn. by rewrite Z.eqb_refl. Qed.

(** Close the residual field goals of a [wf] proof. *)
Ltac stream_solve :=
  try done; try lia; try (by split; intros; intuition congruence); try (by intros; intuition congruence).

(** ** Sending

    What [flush_writes] promises: it hands a prefix of the buffered bytes to QUIC,
    within the credit, and answers no request. *)
Record flush_post (s : t) (credit : Z) (s' : t) (effects : list Effect.t) (sent : Z) : Prop := {
  flush_wf : wf s';
  flush_sent : sent = len (sent_bytes (id s) effects);
  flush_credit : 0 <= sent <= credit;
  flush_bytes : buffered s = sent_bytes (id s) effects ++ buffered s';
  flush_completed : completed effects = [];
  flush_outstanding : outstanding_writes s' = outstanding_writes s;
  flush_receive : receive_state s' = receive_state s
                  /\ pending_read_requests s' = pending_read_requests s;
  flush_id : id s' = id s;
}.

Lemma flush_writes_spec s credit s' effects sent :
  wf s -> is_u64 credit ->
  flush_writes s credit = (s', effects, sent) -> flush_post s credit s' effects sent.
Proof.
  intros Hwf Hc. unfold flush_writes.
  destruct (_ || _) eqn:Hguard; [intros [= <- <- <-]; split; unfold is_u64 in *; auto; lia|].
  apply orb_false_iff in Hguard as [Hp Hr]. bool_to_prop.
  apply eq_None_not_Some in Hp.
  destruct (write_buffer s) as [|[[data r] fin] rest] eqn:Hbuf;
    [intros [= <- <- <-]; split; unfold is_u64 in *; auto; lia|].
  destruct (_ && _) eqn:Hzero; [intros [= <- <- <-]; split; unfold is_u64 in *; auto; lia|].
  destruct Hwf. unfold outstanding_writes, buffered in *.
  rewrite Hbuf, Hp in *. cbn [app entry_ids fmap list_fmap fst snd] in *.
  apply NoDup_cons in wf_ids0 as [Hfresh Hnd].
  destruct (len data <=? credit) eqn:Hfit; cbn [negb]; intros [= <- <- <-].
  - bool_to_prop. rewrite entry_bytes_cons, len_app in wf_size0.
    pose proof (len_nonneg (entry_bytes rest)). pose proof (len_nonneg data).
    assert (Hsz : u64_sub (write_buffer_size s) (len data) = len (entry_bytes rest))
      by (rewrite u64_sub_small; unfold U64_MAX, ISIZE_MAX in *; lia).
    pose proof (front_differs_fresh rest r Hfresh) as Hfront.
    destruct fin; [apply fin_last_not_last in wf_fin0 as -> |];
      split; simpl; rewrite ?sent_bytes_send, ?app_nil_r; try done; try match goal with |- wf _ => split end;
      unfold outstanding_writes, buffered; simpl;
      rewrite ?Hbuf, ?Hp, ?Hfront, ?entry_bytes_cons, ?app_nil_r;
      eauto using NoDup_cons_2, NoDup_nil_2, fin_last_tail; stream_solve.
  - bool_to_prop. apply andb_false_iff in Hzero.
    assert (0 < credit <= len data)
      by (unfold is_u64 in *; pose proof (len_nonneg data); destruct Hzero; bool_to_prop; lia).
    rewrite entry_bytes_cons, len_app in wf_size0.
    set (sent := take (Z.to_nat credit) data). set (kept := drop (Z.to_nat credit) data).
    assert (Hdata : data = sent ++ kept) by (symmetry; apply take_drop).
    assert (Hsent : len sent = credit) by (unfold len in *; subst sent; rewrite length_take; lia).
    assert (Hkept : len data = credit + len kept) by (rewrite Hdata, len_app; lia).
    pose proof (len_nonneg (entry_bytes rest)). pose proof (len_nonneg kept).
    assert (Hsz : u64_sub (write_buffer_size s) (len sent) = len (entry_bytes ((kept, r, fin) :: rest)))
      by (rewrite entry_bytes_cons, len_app, u64_sub_small; unfold U64_MAX, ISIZE_MAX in *; lia).
    assert (u64_sub (write_buffer_size s) (len sent) <= write_buffer_size s)
      by (rewrite Hsz, entry_bytes_cons, len_app; lia).
    clearbody sent kept. subst data.
    split; simpl; rewrite ?sent_bytes_send, ?app_nil_r; try done; try match goal with |- wf _ => split end;
      unfold outstanding_writes, buffered; simpl;
      rewrite ?Hbuf, ?Hp, ?Z.eqb_refl, ?entry_bytes_cons, ?app_nil_r, <- ?app_assoc; simpl;
      eauto using NoDup_cons_2, fin_last_replace; stream_solve.
Qed.

Lemma complete_write_spec s credit s' effects sent :
  wf s -> is_u64 credit ->
  complete_write s credit = (s', effects, sent) ->
  wf s' /\ sent = len (sent_bytes (id s) effects) /\ 0 <= sent <= credit
  /\ buffered s = sent_bytes (id s) effects ++ buffered s'
  /\ outstanding_writes s = completed effects ++ outstanding_writes s'
  /\ receive_state s' = receive_state s /\ pending_read_requests s' = pending_read_requests s
  /\ id s' = id s.
Proof.
  intros Hwf Hc. unfold complete_write.
  destruct (pending_write_request s) as [r|] eqn:Hp;
    [|intros [= <- <- <-]; unfold is_u64 in *; simpl; split_and!; try done; lia].
  set (s0 := s <| pending_write_request := None |>).
  assert (Hids : outstanding_writes s
    = (if front_differs (write_buffer s) r then [r] else []) ++ outstanding_writes s0)
    by (unfold outstanding_writes; by rewrite Hp).
  assert (Hwf0 : wf s0).
  { destruct Hwf. split; try done. rewrite Hids in wf_ids0. by apply NoDup_app in wf_ids0 as (_ & _ & ?). }
  destruct (flush_writes s0 credit) as [[s1 e1] n1] eqn:Hflush.
  apply flush_writes_spec in Hflush as []; [|done|done].
  intros [= <- <- <-]. change (id s0) with (id s) in *. change (buffered s0) with (buffered s) in *.
  change (write_buffer s0) with (write_buffer s).
  rewrite sent_bytes_app, completed_app, flush_completed0, app_nil_r, flush_outstanding0.
  destruct flush_receive0.
  destruct (front_differs (write_buffer s) r); simpl; tauto.
Qed.

(** The guards of [write] that accept the data into the buffer. *)
Definition write_accepts (s : t) (data : bytes) : bool :=
  bool_decide (send_state s = Some StreamSendState.Ready)
  && negb (match last (write_buffer s) with Some (_, _, fin) => fin | None => false end)
  && (write_buffer_size s + len data <=? max_write_buffer_size s).

Lemma write_spec s r data fin credit s' effects sent :
  wf s -> is_u64 credit -> len data <= ISIZE_MAX -> r ∉ outstanding_writes s ->
  write s r data fin credit = (s', effects, sent) ->
  wf s' /\ sent = len (sent_bytes (id s) effects) /\ 0 <= sent <= credit
  /\ buffered s ++ (if write_accepts s data then data else [])
     = sent_bytes (id s) effects ++ buffered s'
  /\ (if write_accepts s data
      then completed effects = [] /\ outstanding_writes s' = outstanding_writes s ++ [r]
      else completed effects = [r] /\ s' = s)
  /\ receive_state s' = receive_state s /\ pending_read_requests s' = pending_read_requests s
  /\ id s' = id s.
Proof.
  intros Hwf Hc Hd Hr. unfold write, write_accepts.
  assert (Hreject : forall e, sent_bytes (id s) [e] = [] -> completed [e] = [r] ->
    (s, [e], 0) = (s', effects, sent) ->
    wf s' /\ sent = len (sent_bytes (id s) effects) /\ 0 <= sent <= credit
    /\ buffered s ++ [] = sent_bytes (id s) effects ++ buffered s'
    /\ (completed effects = [r] /\ s' = s)
    /\ receive_state s' = receive_state s /\ pending_read_requests s' = pending_read_requests s
    /\ id s' = id s).
  { intros e Hs Hco [= <- <- <-]. rewrite Hs, app_nil_r. unfold is_u64 in *.
    split_and!; try done; lia. }
  destruct (send_state s) as [st|] eqn:Hst; [|by apply Hreject].
  destruct (bool_decide (st = StreamSendState.Ready)) eqn:Est; bool_to_prop;
    [subst st | rewrite (bool_decide_false (Some st = _)) by congruence; cbn [andb negb orb];
                destruct (_ && _); by apply Hreject].
  rewrite (bool_decide_true (Some _ = Some _)) by done. cbn [andb negb orb].
  destruct (match last (write_buffer s) with Some _ => _ | None => _ end) eqn:Hlast;
    cbn [negb andb]; [destruct (_ && _); by apply Hreject|].
  assert (Hadd : u64_add (write_buffer_size s) (len data) = write_buffer_size s + len data).
  { destruct Hwf. apply u64_add_small. rewrite wf_size0 in *.
    pose proof (len_nonneg (buffered s)). pose proof (len_nonneg data).
    unfold U64_MAX, ISIZE_MAX in *. lia. }
  rewrite Hadd. destruct (_ <? _) eqn:Hlim; bool_to_prop.
  { rewrite (proj2 (Z.leb_gt _ _)) by lia. by apply Hreject. }
  rewrite (proj2 (Z.leb_le _ _)) by lia.
  set (s0 := s <| write_buffer := _ |> <| write_buffer_size := _ |>).
  assert (Hids : outstanding_writes s0 = outstanding_writes s ++ [r]).
  { unfold outstanding_writes. simpl. rewrite entry_ids_app, app_assoc. f_equal.
    f_equal. destruct (pending_write_request s) as [q|] eqn:Hp; [|done].
    destruct (write_buffer s) as [|[[? ?] ?] ?] eqn:Hbuf; [|done]. simpl.
    destruct (r =? q) eqn:E; [|done]. bool_to_prop. subst. exfalso. apply Hr.
    unfold outstanding_writes. rewrite Hbuf, Hp. cbn. by apply list_elem_of_here. }
  assert (Hwf0 : wf s0).
  { destruct Hwf. pose proof (len_nonneg data).
    split; simpl; try done; unfold buffered in *; simpl; rewrite ?entry_bytes_app, ?len_app.
    - unfold entry_bytes at 2. simpl. rewrite app_nil_r. lia.
    - lia.
    - by apply fin_last_snoc.
    - rewrite Hids. apply NoDup_app. split_and!; [done| |apply NoDup_singleton].
      intros x Hx ->%list_elem_of_singleton. done. }
  intros Hflush. apply flush_writes_spec in Hflush as []; [|done|done].
  change (id s0) with (id s) in *.
  assert (Hb : buffered s0 = buffered s ++ data).
  { unfold buffered. simpl. rewrite entry_bytes_app. unfold entry_bytes at 2. simpl.
    by rewrite app_nil_r. }
  destruct flush_receive0. rewrite <- Hb, <- Hids. tauto.
Qed.

(** ** Terminating either half *)

Lemma completed_fail_writes (buffer : list (bytes * RequestId * bool)) source code reason :
  completed ((fun '(_, r, _) => Effect.NotifyRequestFailed r source code reason) <$> buffer)
  = entry_ids buffer.
Proof.
  unfold entry_ids. induction buffer as [|[[d r] fin] l IH]; [done|]. cbn. by f_equal.
Qed.

Lemma completed_fail_reads s code : completed (fail_reads s code) = outstanding_reads s.
Proof.
  unfold fail_reads, outstanding_reads.
  induction (pending_read_requests s) as [|[r m] l IH]; [done|]. cbn. by f_equal.
Qed.

Lemma sent_bytes_fail_reads i s code : sent_bytes i (fail_reads s code) = [].
Proof. apply sent_bytes_none, Forall_fmap, Forall_true. by intros [? ?]. Qed.

Lemma wf_terminated_empty s :
  wf s -> is_send_terminated (send_state s) = true -> write_buffer s = [].
Proof. intros Hwf Ht. apply (wf_not_ready s Hwf). intros E. by rewrite E in Ht. Qed.

Lemma send_reset_spec s code http s' effects :
  wf s -> send_reset s code http = (s', effects) ->
  wf s' /\ is_send_terminated (send_state s') = true
  /\ completed effects ++ outstanding_writes s' = outstanding_writes s
  /\ sent_bytes (id s) effects = [] /\ buffered s' = []
  /\ (if is_send_terminated (send_state s) then s' = s /\ effects = []
      else send_state s' = Some StreamSendState.ResetSent /\ outstanding_writes s' = [])
  /\ receive_state s' = receive_state s /\ pending_read_requests s' = pending_read_requests s
  /\ id s' = id s.
Proof.
  intros Hwf. unfold send_reset. destruct (is_send_terminated (send_state s)) eqn:Hterm.
  - intros [= <- <-]. split_and!; try done. unfold buffered. by rewrite wf_terminated_empty.
  - intros [= <- <-]. destruct Hwf. pose proof (len_nonneg (buffered s)).
    split_and!; simpl; try done.
    + split; simpl; unfold outstanding_writes; simpl; try done; try lia; [|apply NoDup_nil_2].
      split; [done|]. intros E%wf_send_direction0. by rewrite E in Hterm.
    + change (outstanding_writes _) with (@nil RequestId) at 1.
      rewrite completed_app, completed_fail_writes, app_nil_r. unfold outstanding_writes. f_equal.
      destruct (pending_write_request s); [|done]. by destruct (front_differs _ _).
    + apply sent_bytes_none. constructor; [done|]. apply Forall_app. split.
      * destruct (pending_write_request s); [|done]. destruct (front_differs _ _); by repeat constructor.
      * apply Forall_fmap, Forall_true. by intros [[? ?] ?].
Qed.

Lemma send_stop_spec s code http s' effects :
  wf s -> send_stop s code http = (s', effects) ->
  wf s' /\ is_receive_terminated (receive_state s') = true
  /\ completed effects = outstanding_reads s /\ outstanding_reads s' = []
  /\ sent_bytes (id s) effects = [] /\ buffered s' = buffered s
  /\ send_state s' = send_state s /\ outstanding_writes s' = outstanding_writes s
  /\ id s' = id s.
Proof.
  intros Hwf Hs.
  assert (Hw : wf (s <| receive_error_code := code |>
                     <| receive_state := Some StreamReceiveState.ResetRead |>
                     <| pending_read_requests := [] |>) \/ receive_state s = None).
  { destruct (receive_state s) as [st|] eqn:E; [left|by right].
    destruct Hwf. split; simpl; try done. split; [done|].
    intros H%wf_receive_direction0. congruence. }
  unfold send_stop in Hs.
  assert (Hn : receive_state s <> Some StreamReceiveState.Receive -> outstanding_reads s = [])
    by (intros; unfold outstanding_reads; by rewrite (wf_not_receiving s Hwf)).
  destruct (receive_state s) as [[]|] eqn:E; injection Hs as <- <-;
    destruct Hw as [Hw|Hw]; try done; split_and!; try done; simpl; rewrite ?E; try done;
    first [apply completed_fail_reads | apply sent_bytes_fail_reads | symmetry; by apply Hn
          | by apply Hn].
Qed.

(** ** One operation

    The data an operation accepts from the user. *)
Definition accepted (o : op) (s : t) : bytes :=
  match o with
  | OpWrite _ data _ _ => if write_accepts s data then data else []
  | _ => []
  end.

Record step_post (o : op) (s s' : t) (effects : list Effect.t) : Prop := {
  step_wf : wf s';
  step_id : id s' = id s;
  step_requests : outstanding s ++ submitted o ≡ₚ completed effects ++ outstanding s';
  step_bytes :
    buffered s ++ accepted o s = sent_bytes (id s) effects ++ buffered s'
    \/ sent_bytes (id s) effects = [] /\ accepted o s = []
       /\ buffered s' = [] /\ send_state s' = Some StreamSendState.ResetSent;
}.

(** An operation that leaves the send half alone. *)
Lemma receive_post o s s' effects :
  wf s' -> id s' = id s -> outstanding_writes s' = outstanding_writes s ->
  outstanding_reads s ++ submitted o ≡ₚ completed effects ++ outstanding_reads s' ->
  buffered s' = buffered s -> accepted o s = [] -> sent_bytes (id s) effects = [] ->
  step_post o s s' effects.
Proof.
  intros Hwf Hid Hw Hr Hb Ha Hs. split; [done|done| |].
  - unfold outstanding. rewrite Hw, <- app_assoc, Hr, !app_assoc.
    by rewrite (Permutation_app_comm (outstanding_writes s) (completed effects)).
  - left. by rewrite Ha, Hs, Hb, app_nil_r.
Qed.

(** An operation that leaves the receive half alone. *)
Lemma send_post o s s' effects :
  wf s' -> id s' = id s -> pending_read_requests s' = pending_read_requests s ->
  outstanding_writes s ++ submitted o ≡ₚ completed effects ++ outstanding_writes s' ->
  (buffered s ++ accepted o s = sent_bytes (id s) effects ++ buffered s'
   \/ sent_bytes (id s) effects = [] /\ accepted o s = []
      /\ buffered s' = [] /\ send_state s' = Some StreamSendState.ResetSent) ->
  step_post o s s' effects.
Proof.
  intros Hwf Hid Hp Hw Hb. split; [done|done| |done].
  unfold outstanding, outstanding_reads. rewrite Hp.
  rewrite <- app_assoc, (Permutation_app_comm (_ <$> _) (submitted o)), !app_assoc.
  by rewrite Hw.
Qed.

(** An operation that only answers its own request. *)
Lemma answer_post o r s e :
  wf s -> submitted o = [r] -> accepted o s = [] -> completed [e] = [r] ->
  sent_bytes (id s) [e] = [] -> step_post o s s [e].
Proof.
  intros Hwf Ho Ha Hc Hs. apply receive_post; try done.
  rewrite Ho, Hc. apply Permutation_app_comm.
Qed.

(** A stream differing only in its receive state, terminated or still open. *)
Lemma wf_receive_update s state reads code :
  wf s -> receive_state s <> None ->
  (state <> StreamReceiveState.Receive -> reads = []) ->
  Forall (fun r => 0 < r.2) reads ->
  wf (s <| receive_error_code := code |> <| receive_state := Some state |>
        <| pending_read_requests := reads |>).
Proof.
  intros [] Hs Hr Hf. split; simpl; try done.
  - split; [done|]. intros E%wf_receive_direction0. done.
  - intros H. apply Hr. congruence.
Qed.

Lemma read_post s r max_size s' effects :
  wf s -> read s r max_size = (s', effects) -> step_post (OpRead r max_size) s s' effects.
Proof.
  intros Hwf. unfold read. destruct (receive_state s) as [st|] eqn:Est;
    [|intros [= <- <-]; by eapply answer_post].
  destruct (bool_decide (st = StreamReceiveState.Receive) && (0 <? max_size)) eqn:Hq.
  - bool_to_prop. subst st. intros H.
    assert (wf s' /\ id s' = id s /\ outstanding_writes s' = outstanding_writes s
            /\ outstanding_reads s' = outstanding_reads s ++ [r] /\ buffered s' = buffered s
            /\ completed effects = [] /\ sent_bytes (id s) effects = [])
      as (? & ? & ? & Hr & ? & Hc & ?).
    { destruct (_ =? 1)%nat; injection H as <- <-; split_and!; try done;
        try (unfold outstanding_reads; simpl; by rewrite fmap_app);
        destruct Hwf; split; simpl; try done; rewrite ?Est; try done;
        apply Forall_app; split; [done|by repeat constructor|done|by repeat constructor]. }
    apply receive_post; try done. by rewrite Hr, Hc.
  - intros H.
    assert (Hread : forall u, wf u -> outstanding_reads u = outstanding_reads s ->
      id u = id s -> outstanding_writes u = outstanding_writes s -> buffered u = buffered s ->
      step_post (OpRead r max_size) s u [read_done r []]).
    { intros u Hu Hr Hi Hw Hb. apply receive_post; try done. rewrite Hr. apply Permutation_app_comm. }
    destruct st.
    + injection H as <- <-. by apply Hread.
    + destruct (0 <? max_size); injection H as <- <-; apply Hread; try done.
      refine (wf_receive_update s StreamReceiveState.DataRead (pending_read_requests s)
                (receive_error_code s) Hwf _ _ _); [by rewrite Est| |by destruct Hwf].
      intros _. apply (wf_not_receiving s Hwf). by rewrite Est.
    + injection H as <- <-. by apply Hread.
    + injection H as <- <-. by eapply answer_post.
Qed.

Lemma completed_read_done (reads : list (RequestId * Z)) :
  completed ((fun '(r, _) => read_done r []) <$> reads) = reads.*1.
Proof. induction reads as [|[r m] l IH]; [done|]. cbn. by f_equal. Qed.

Lemma deliver_head_spec s data fin s' effects :
  deliver_head s data fin = (s', effects) -> receive_state s = Some StreamReceiveState.Receive ->
  exists code state, s' = s <| receive_error_code := code |> <| receive_state := Some state |>
                            <| pending_read_requests := tail (pending_read_requests s) |>
  /\ completed effects = take 1 (outstanding_reads s) /\ sent_bytes (id s) effects = []
  /\ (fin = false -> state = StreamReceiveState.Receive).
Proof.
  unfold deliver_head, outstanding_reads. intros H Hr. exists (receive_error_code s).
  destruct (pending_read_requests s) as [|[r m] rest] eqn:E.
  - injection H as <- <-. exists StreamReceiveState.Receive. split_and!; try done.
    rewrite <- Hr. simpl. rewrite <- E. by destruct s.
  - destruct (fin && _) eqn:Hf; injection H as <- <-; eexists; split_and!; try done.
    + intros ->. done.
    + rewrite <- Hr. by destruct s.
Qed.

Lemma recv_data_post s data fin s' effects :
  wf s -> recv_data s data fin = (s', effects) -> step_post (OpRecvData data fin) s s' effects.
Proof.
  intros Hwf. unfold recv_data. destruct (bool_decide _) eqn:Hr; cbn [negb]; bool_to_prop;
    [|intros [= <- <-]; apply receive_post; try done; simpl; by rewrite app_nil_r].
  destruct (deliver_head s data fin) as [s1 e1] eqn:Hd.
  apply deliver_head_spec in Hd as (code & state & -> & Hc & Hs & Hf); [|done].
  assert (Hreads : outstanding_reads s
            = take 1 (outstanding_reads s) ++ (tail (pending_read_requests s)).*1)
    by (unfold outstanding_reads; by destruct (pending_read_requests s) as [|[? ?] ?]).
  assert (Htail : Forall (fun r => 0 < r.2) (tail (pending_read_requests s)))
    by (destruct Hwf; by apply Forall_tail).
  destruct fin; [clear Hf|specialize (Hf eq_refl) as ->].
  - intros [Hs' He]%pair_eq.
    assert (exists state, s' = s <| receive_error_code := code |> <| receive_state := Some state |>
              <| pending_read_requests := [] |>) as [st' ->].
    { rewrite <- Hs'. destruct (bool_decide (_ = Some _)), (bool_decide (_ = [])); by eexists. }
    clear Hs'. subst effects. apply receive_post; try done.
    + apply wf_receive_update; try done. by rewrite Hr.
    + rewrite completed_app, Hc. rewrite Hreads at 1. rewrite <- !app_assoc. apply Permutation_app_head.
      rewrite completed_read_done. change (outstanding_reads _) with (@nil RequestId).
      by destruct (bool_decide (_ = Some _)).
    + rewrite sent_bytes_app, Hs. apply sent_bytes_none, Forall_fmap, Forall_true. by intros [? ?].
  - assert (Hw : wf (s <| receive_error_code := code |>
                       <| receive_state := Some StreamReceiveState.Receive |>
                       <| pending_read_requests := tail (pending_read_requests s) |>))
      by (apply wf_receive_update; try done; by rewrite Hr).
    simpl pending_read_requests.
    destruct (tail (pending_read_requests s)) as [|[r m] rest]; intros [= <- <-];
      apply receive_post; try done; cbn [submitted];
      rewrite ?sent_bytes_app, ?completed_app, ?Hs, ?Hc, ?app_nil_r; try done;
      apply reflexive_eq; rewrite Hreads at 1; [apply app_nil_r | reflexivity].
Qed.

Lemma recv_reset_post s code s' effects :
  wf s -> recv_reset s code = (s', effects) -> step_post (OpRecvReset code) s s' effects.
Proof.
  intros Hwf. unfold recv_reset. destruct (is_receive_terminated _) eqn:Ht; intros [= <- <-].
  - apply receive_post; try done. simpl. by rewrite app_nil_r.
  - apply receive_post; try done.
    + apply wf_receive_update; try done. intros E. by rewrite E in Ht.
    + cbn [submitted]. rewrite app_nil_r. cbn. rewrite app_nil_r.
      by rewrite (completed_fail_reads s _).
    + apply (sent_bytes_fail_reads (id s) s).
Qed.

Lemma send_reset_post o s code http s' effects r e :
  wf s -> send_reset s code http = (s', effects) -> accepted o s = [] ->
  submitted o = r -> completed e = r -> sent_bytes (id s) e = [] ->
  step_post o s s' (effects ++ e).
Proof.
  intros Hwf Hs Ha Ho Hc He.
  apply send_reset_spec in Hs as (? & ? & Hreq & Hsent & ? & Hcase & ? & ? & ?); [|done].
  apply send_post; try done; cycle 1.
  { rewrite sent_bytes_app, Hsent, He. destruct (is_send_terminated _) in Hcase.
    - left. destruct Hcase as [-> _]. by rewrite Ha, app_nil_r.
    - right. tauto. }
  rewrite Ho, completed_app, Hc, <- Hreq, <- !app_assoc. f_equiv. apply Permutation_app_comm.
Qed.

Lemma send_stop_post o s code http s' effects e :
  wf s -> send_stop s code http = (s', effects) -> accepted o s = [] ->
  completed e = submitted o -> sent_bytes (id s) e = [] -> step_post o s s' (effects ++ e).
Proof.
  intros Hwf Hs Ha Hc He.
  apply send_stop_spec in Hs as (? & ? & Hreq & Hnil & Hsent & ? & ? & ? & ?); [|done].
  apply receive_post; try done.
  - by rewrite completed_app, Hreq, Hnil, Hc, app_nil_r.
  - by rewrite sent_bytes_app, Hsent, He.
Qed.

Lemma abort_spec s code s' effects :
  wf s -> abort s code = (s', effects) ->
  wf s' /\ is_closed s' = true /\ id s' = id s /\ buffered s' = [] /\ outstanding_reads s' = []
  /\ completed effects ++ outstanding s' ≡ₚ outstanding s
  /\ (if is_send_terminated (send_state s) then buffered s = []
      else send_state s' = Some StreamSendState.ResetSent /\ outstanding s' = [])
  /\ sent_bytes (id s) effects = [].
Proof.
  intros Hwf. unfold abort. destruct (send_reset s _ _) as [s1 e1] eqn:Hreset.
  destruct (send_stop s1 _ _) as [s2 e2] eqn:Hstop. intros [= <- <-].
  apply send_reset_spec in Hreset as (Hw1 & Ht1 & Hr1 & Hs1 & Hb1 & Ho1 & Hrs & Hp & Hid1); [|done].
  apply send_stop_spec in Hstop as (Hw2 & Ht2 & Hr2 & Hn2 & Hs2 & Hb2 & Hss & Ho2 & Hid2); [|done].
  assert (Hreads : outstanding_reads s1 = outstanding_reads s)
    by (unfold outstanding_reads; by rewrite Hp).
  unfold is_closed, outstanding. rewrite Ht2, Hss, Ht1, Hid2, Hid1, Hb2, Hb1, Hn2, Ho2, app_nil_r.
  rewrite completed_app, sent_bytes_app, Hr2, Hreads, <- Hr1, Hs1, <- Hid1, Hs2.
  split_and!; try done.
  - rewrite <- !app_assoc. f_equiv. apply Permutation_app_comm.
  - destruct (is_send_terminated _) in Ho1 |- *; [by destruct Ho1 as [<- _]|done].
Qed.

Lemma unchanged_post o s : wf s -> submitted o = [] -> accepted o s = [] -> step_post o s s [].
Proof. intros Hwf Ho Ha. apply receive_post; try done. by rewrite Ho, app_nil_r. Qed.

Lemma reset_post s r code s' effects :
  wf s -> reset s r code = (s', effects) -> step_post (OpReset r code) s s' effects.
Proof.
  intros Hwf. unfold reset. destruct (send_state s) eqn:E;
    [|intros [= <- <-]; by eapply answer_post].
  rewrite <- E. clear E. destruct (is_send_terminated _); cbn [negb].
  - intros [= <- <-]. by eapply answer_post.
  - destruct (send_reset _ _ _) as [s1 e1] eqn:Hs. intros [= <- <-].
    by eapply send_reset_post.
Qed.

Lemma recv_stop_sending_post s code s' effects :
  wf s -> recv_stop_sending s code = (s', effects) ->
  step_post (OpRecvStopSending code) s s' effects.
Proof.
  intros Hwf. unfold recv_stop_sending. destruct (is_send_terminated _).
  - intros [= <- <-]. by apply unchanged_post.
  - destruct (send_reset _ _ _) as [s1 e1] eqn:Hs. intros [= <- <-].
    destruct (send_reset_post (OpRecvStopSending code) s _ _ _ _ [] [] Hwf Hs) as []; try done.
    rewrite (app_nil_r e1) in *. split; [done | done | exact step_requests0 | exact step_bytes0].
Qed.

Lemma stop_post s r code s' effects :
  wf s -> stop s r code = (s', effects) -> step_post (OpStop r code) s s' effects.
Proof.
  intros Hwf. unfold stop. destruct (receive_state s) eqn:E;
    [|intros [= <- <-]; by eapply answer_post].
  rewrite <- E. clear E. destruct (is_receive_terminated _); cbn [negb].
  - intros [= <- <-]. by eapply answer_post.
  - destruct (send_stop _ _ _) as [s1 e1] eqn:Hs. intros [= <- <-].
    by eapply send_stop_post.
Qed.

Lemma acknowledged_post s :
  wf s -> step_post OpAcknowledged s (handle_data_acknowledged s) [].
Proof.
  intros Hwf. unfold handle_data_acknowledged.
  destruct (bool_decide _) eqn:E; bool_to_prop; [|by apply unchanged_post].
  apply receive_post; try done; [|simpl; by rewrite app_nil_r].
  destruct Hwf. rewrite E in *. split; simpl; try done.
  - split; [done|]. intros H%wf_send_direction0. done.
  - intros _. by apply wf_not_ready0.
  - by intros [?|?].
Qed.

(** Every operation preserves the invariant, answers or keeps every request, and
    moves bytes only from the user to QUIC. *)
Lemma step_spec o s s' effects :
  wf s -> op_ok o -> (forall r, r ∈ submitted o -> r ∉ outstanding s) ->
  step o s = (s', effects) -> step_post o s s' effects.
Proof.
  intros Hwf Hok Hfresh. destruct o; simpl in *;
    eauto using read_post, recv_data_post, recv_reset_post, recv_stop_sending_post,
      reset_post, stop_post.
  - destruct (write _ _ _ _ _) as [[? ?] sent] eqn:H. intros [= <- <-].
    assert (request_id ∉ outstanding_writes s).
    { intros Hin. apply (Hfresh request_id); [by apply list_elem_of_here|].
      apply elem_of_app. by left. }
    apply write_spec in H as (? & ? & ? & Hb & Hr & ? & ? & ?); try tauto; try done.
    apply send_post; try done; [|by left].
    cbn [submitted]. destruct (write_accepts s data); destruct Hr as [-> ->]; [done|].
    apply Permutation_app_comm.
  - destruct (flush_writes _ _) as [[? ?] sent] eqn:H. intros [= <- <-].
    apply flush_writes_spec in H as []; try done.
    apply send_post; try done; [tauto| |left; by rewrite app_nil_r].
    by rewrite flush_completed0, flush_outstanding0, app_nil_r.
  - destruct (complete_write _ _) as [[? ?] sent] eqn:H. intros [= <- <-].
    apply complete_write_spec in H as (? & ? & ? & Hb & Hr & ? & ? & ?); try done.
    apply send_post; try done; [by rewrite Hr, app_nil_r|left; by rewrite app_nil_r].
  - intros [= <- <-]. by apply acknowledged_post.
  - intros H. apply abort_spec in H as (? & Hc & ? & Hb & ? & Hr & Hcase & Hs); [|done].
    split; [done|done|by rewrite app_nil_r|]. rewrite Hs, Hb.
    destruct (is_send_terminated _) in Hcase; [left; by rewrite Hcase|right; tauto].
  - intros [= <- <-]. by eapply answer_post.
Qed.

(** ** Runs

    A run applies operations one after the other and collects their effects. *)
Fixpoint run (ops : list op) (s : t) : t * list Effect.t :=
  match ops with
  | [] => (s, [])
  | o :: rest =>
      let '(s1, e1) := step o s in
      let '(s2, e2) := run rest s1 in
      (s2, e1 ++ e2)
  end.

Definition submitted_all (ops : list op) : list RequestId := concat (submitted <$> ops).

(** The bytes the stream took from the user over a run. *)
Fixpoint accepted_all (ops : list op) (s : t) : bytes :=
  match ops with
  | [] => []
  | o :: rest => accepted o s ++ accepted_all rest (step o s).1
  end.

Lemma submitted_all_cons o ops : submitted_all (o :: ops) = submitted o ++ submitted_all ops.
Proof. reflexivity. Qed.

Lemma run_requests ops s s' effects :
  wf s -> Forall op_ok ops -> NoDup (outstanding s ++ submitted_all ops) ->
  run ops s = (s', effects) ->
  wf s' /\ id s' = id s
  /\ outstanding s ++ submitted_all ops ≡ₚ completed effects ++ outstanding s'.
Proof.
  revert s effects. induction ops as [|o ops IH]; intros s effects Hwf Hok Hnd; cbn [run].
  { intros [= <- <-]. split_and!; try done. cbn. by rewrite app_nil_r. }
  destruct (step o s) as [s1 e1] eqn:Hstep. destruct (run ops s1) as [s2 e2] eqn:Hrun.
  intros [= <- <-]. apply Forall_cons in Hok as [Ho Hok].
  rewrite submitted_all_cons, app_assoc in *.
  apply step_spec in Hstep as [Hw1 Hid1 Hreq _]; try done; cycle 1.
  { intros r Hr Hin. apply NoDup_app in Hnd as (Hnd & _ & _).
    apply NoDup_app in Hnd as (_ & Hd & _). by apply (Hd r). }
  rewrite Hreq in Hnd. rewrite <- app_assoc in Hnd.
  apply NoDup_app in Hnd as (_ & _ & Hnd).
  destruct (IH s1 e2 Hw1 Hok Hnd Hrun) as (Hw2 & Hid2 & Hreq2).
  split_and!; [done|congruence|].
  by rewrite Hreq, completed_app, <- !app_assoc, Hreq2.
Qed.

(** ** The two half state machines

    The transitions of the sending and receiving parts of a stream (RFC 9000,
    section 3) one operation may take. *)
Inductive send_moves : option StreamSendState.t -> option StreamSendState.t -> Prop :=
| send_stays x : send_moves x x
| send_finishes : send_moves (Some StreamSendState.Ready) (Some StreamSendState.DataSent)
| send_acknowledged :
    send_moves (Some StreamSendState.DataSent) (Some StreamSendState.DataReceived)
| send_resets_ready :
    send_moves (Some StreamSendState.Ready) (Some StreamSendState.ResetSent)
| send_resets_sent :
    send_moves (Some StreamSendState.DataSent) (Some StreamSendState.ResetSent).

Inductive receive_moves :
  option StreamReceiveState.t -> option StreamReceiveState.t -> Prop :=
| receive_stays x : receive_moves x x
| receive_finishes :
    receive_moves (Some StreamReceiveState.Receive) (Some StreamReceiveState.DataReceived)
| receive_finishes_read :
    receive_moves (Some StreamReceiveState.Receive) (Some StreamReceiveState.DataRead)
| receive_reads :
    receive_moves (Some StreamReceiveState.DataReceived) (Some StreamReceiveState.DataRead)
| receive_resets :
    receive_moves (Some StreamReceiveState.Receive) (Some StreamReceiveState.ResetRead)
| receive_resets_finished :
    receive_moves (Some StreamReceiveState.DataReceived) (Some StreamReceiveState.ResetRead).

#[local] Hint Constructors send_moves receive_moves : core.

(** What one operation hands to QUIC: nothing, or one chunk while the send half
    is open, and a FIN only with the transition to [DataSent]. *)
Definition chunk_discipline (s s' : t) (effects : list Effect.t) : Prop :=
  match sent_chunks (id s) effects with
  | [] => True
  | [(_, fin)] =>
      send_state s = Some StreamSendState.Ready
      /\ (fin = true -> send_state s' = Some StreamSendState.DataSent)
  | _ => False
  end.

Record move_post (s s' : t) (effects : list Effect.t) : Prop := {
  move_send : send_moves (send_state s) (send_state s');
  move_receive : receive_moves (receive_state s) (receive_state s');
  move_chunks : chunk_discipline s s' effects;
  move_id : id s' = id s;
}.

Lemma stay_moves s effects :
  Forall not_data effects ->
  move_post s s effects.
Proof. intros H. split; auto. unfold chunk_discipline. by rewrite sent_chunks_none. Qed.

Lemma flush_writes_moves s credit s' effects sent :
  flush_writes s credit = (s', effects, sent) -> move_post s s' effects.
Proof.
  unfold flush_writes. destruct (_ || _) eqn:Hg; [intros [= <- <- <-]; by apply stay_moves|].
  bool_to_prop. destruct (write_buffer s) as [|[[d r] fin] rest];
    [intros [= <- <- <-]; by apply stay_moves|].
  destruct (_ && _); [intros [= <- <- <-]; by apply stay_moves|].
  destruct (if negb _ then _ else _) as [data buffer].
  destruct ((_ <=? _) && fin); intros [= <- <- <-]; split; simpl; auto;
    rewrite ?H0; auto; unfold chunk_discipline, sent_chunks; simpl; by rewrite bool_decide_true.
Qed.

Lemma write_moves s r data fin credit s' effects sent :
  write s r data fin credit = (s', effects, sent) -> move_post s s' effects.
Proof.
  unfold write. destruct (send_state s) eqn:E; [|intros [= <- <- <-]; apply stay_moves; by repeat constructor].
  destruct (_ || _); [destruct (_ && _); intros [= <- <- <-]; apply stay_moves; by repeat constructor|].
  destruct (_ <? _); [intros [= <- <- <-]; apply stay_moves; by repeat constructor|].
  intros []%flush_writes_moves. by split.
Qed.

Lemma complete_write_moves s credit s' effects sent :
  complete_write s credit = (s', effects, sent) -> move_post s s' effects.
Proof.
  unfold complete_write. destruct (pending_write_request s);
    [|intros [= <- <- <-]; by apply stay_moves].
  destruct (flush_writes _ _) as [[s1 e1] n] eqn:H. intros [= <- <- <-].
  apply flush_writes_moves in H as []. split; [done|done| |done].
  unfold chunk_discipline in *. simpl in *. by destruct (front_differs _ _).
Qed.

Lemma send_reset_moves s code http s' effects :
  send_reset s code http = (s', effects) ->
  send_moves (send_state s) (send_state s') /\ receive_state s' = receive_state s
  /\ Forall not_data effects /\ id s' = id s.
Proof.
  unfold send_reset. destruct (is_send_terminated _) eqn:E; intros [= <- <-]; [by auto|].
  simpl. split_and!; [|done| |done].
  - destruct (send_state s) as [[]|]; try done; auto.
  - constructor; [done|]. apply Forall_app. split.
    + destruct (pending_write_request s); [|done]. destruct (front_differs _ _); by repeat constructor.
    + apply Forall_fmap, Forall_true. by intros [[? ?] ?].
Qed.

Lemma send_stop_moves s code http s' effects :
  send_stop s code http = (s', effects) ->
  receive_moves (receive_state s) (receive_state s') /\ send_state s' = send_state s
  /\ Forall not_data effects /\ id s' = id s.
Proof.
  assert (Hf : Forall not_data
                 (fail_reads s code)) by (apply Forall_fmap, Forall_true; by intros [? ?]).
  unfold send_stop. destruct (receive_state s) as [[]|] eqn:E; intros [= <- <-]; simpl; rewrite ?E; split_and!; auto; by constructor.
Qed.

Lemma quiet_moves s s' effects :
  id s' = id s ->
  send_moves (send_state s) (send_state s') ->
  receive_moves (receive_state s) (receive_state s') -> Forall not_data effects ->
  move_post s s' effects.
Proof. intros. split; auto. unfold chunk_discipline. by rewrite sent_chunks_none. Qed.

Lemma read_moves s r max_size s' effects :
  read s r max_size = (s', effects) -> move_post s s' effects.
Proof.
  unfold read. destruct (receive_state s) as [st|] eqn:E;
    [|intros [= <- <-]; apply stay_moves; by repeat constructor].
  destruct (_ && _); [destruct (_ =? _)%nat; intros [= <- <-]; apply quiet_moves; simpl; auto;
                      by repeat constructor|].
  destruct st; [| |by intros [= <- <-]; apply stay_moves; repeat constructor ..].
  - intros [= <- <-]. apply stay_moves. by repeat constructor.
  - destruct (0 <? max_size); intros [= <- <-]; apply quiet_moves; simpl; rewrite ?E; auto;
      by repeat constructor.
Qed.

Lemma recv_data_moves s data fin s' effects :
  recv_data s data fin = (s', effects) -> move_post s s' effects.
Proof.
  unfold recv_data. destruct (bool_decide _) eqn:Hr; cbn [negb]; bool_to_prop;
    [|intros [= <- <-]; by apply stay_moves].
  destruct (deliver_head s data fin) as [s1 e1] eqn:Hd.
  assert (Hd' : send_state s1 = send_state s /\ id s1 = id s /\ Forall not_data e1
    /\ (receive_state s1 = receive_state s
        \/ fin = true /\ receive_state s1 = Some StreamReceiveState.DataRead)).
  { unfold deliver_head in Hd. destruct (pending_read_requests s) as [|[r m] rest].
    - injection Hd as <- <-. auto.
    - destruct (fin && _) eqn:Hf; injection Hd as <- <-; simpl; split_and!; auto;
        try (by repeat constructor). bool_to_prop. auto. }
  destruct Hd' as (Hss & Hid & Hn & Hrs). destruct fin.
  - set (s2 := if bool_decide (receive_state s1 = _) then _ else s1). intros [= <- <-].
    apply quiet_moves.
    + subst s2. by destruct (bool_decide (receive_state s1 = _)), (bool_decide (_ = [])).
    + subst s2. destruct (bool_decide (receive_state s1 = _)), (bool_decide (_ = [])); simpl;
        rewrite Hss; auto.
    + assert (receive_state s2 = Some StreamReceiveState.DataReceived
              \/ receive_state s2 = Some StreamReceiveState.DataRead) as H2.
      { subst s2. destruct Hrs as [Hrs|[_ Hrs]]; rewrite Hrs; [|auto].
        rewrite bool_decide_true by done. auto. }
      rewrite Hr. destruct (bool_decide (_ = [])); simpl; [|auto]. destruct H2 as [-> | ->]; auto.
    + apply Forall_app. split; [done|]. apply Forall_fmap, Forall_true. by intros [? ?].
  - destruct Hrs as [Hrs|[? _]]; [|done].
    destruct (pending_read_requests s1) as [|[r m] rest]; intros [= <- <-];
      apply quiet_moves; rewrite ?Hss, ?Hrs; auto.
    apply Forall_app. split; [done|by repeat constructor].
Qed.

Lemma step_moves o s s' effects : step o s = (s', effects) -> move_post s s' effects.
Proof.
  destruct o; simpl.
  - destruct (write _ _ _ _ _) as [[? ?] ?] eqn:H. intros [= <- <-]. by eapply write_moves.
  - destruct (flush_writes _ _) as [[? ?] ?] eqn:H. intros [= <- <-]. by eapply flush_writes_moves.
  - destruct (complete_write _ _) as [[? ?] ?] eqn:H. intros [= <- <-].
    by eapply complete_write_moves.
  - intros [= <- <-]. split; try done; unfold handle_data_acknowledged;
      destruct (bool_decide _) eqn:E; simpl; auto. bool_to_prop. rewrite E. auto.
  - apply read_moves.
  - apply recv_data_moves.
  - unfold recv_reset. destruct (is_receive_terminated _) eqn:E; intros [= <- <-];
      [by apply stay_moves|].
    apply quiet_moves; simpl; auto; [by destruct (receive_state s) as [[]|]; auto|].
    constructor; [done|]. apply Forall_fmap, Forall_true. by intros [? ?].
  - unfold recv_stop_sending. destruct (is_send_terminated _); [intros [= <- <-]; by apply stay_moves|].
    destruct (send_reset _ _ _) as [s1 e1] eqn:H. intros [= <- <-].
    apply send_reset_moves in H as (? & Heq & ? & ?). apply quiet_moves; rewrite ?Heq; auto. by constructor.
  - unfold reset. destruct (send_state s) eqn:E;
      [|intros [= <- <-]; apply stay_moves; by repeat constructor].
    destruct (negb _); [|intros [= <- <-]; apply stay_moves; by repeat constructor].
    destruct (send_reset _ _ _) as [s1 e1] eqn:H. intros [= <- <-].
    apply send_reset_moves in H as (? & Heq & ? & ?). apply quiet_moves; rewrite ?Heq; auto.
    apply Forall_app. split; [done|by repeat constructor].
  - unfold stop. destruct (receive_state s) eqn:E;
      [|intros [= <- <-]; apply stay_moves; by repeat constructor].
    destruct (negb _); [|intros [= <- <-]; apply stay_moves; by repeat constructor].
    destruct (send_stop _ _ _) as [s1 e1] eqn:H. intros [= <- <-].
    apply send_stop_moves in H as (? & Heq & ? & ?). apply quiet_moves; rewrite ?Heq; auto.
    apply Forall_app. split; [done|by repeat constructor].
  - unfold abort. destruct (send_reset _ _ _) as [s1 e1] eqn:H1.
    destruct (send_stop _ _ _) as [s2 e2] eqn:H2. intros [= <- <-].
    apply send_reset_moves in H1 as (? & Hr & ? & ?).
    apply send_stop_moves in H2 as (? & Hs & ? & ?).
    apply quiet_moves; [congruence|by rewrite Hs|by rewrite <- Hr|by apply Forall_app].
  - intros [= <- <-]. apply stay_moves. by repeat constructor.
Qed.

(** ** Properties of every run *)

Lemma new_wf i session direction peer parameters now :
  StreamParameters.max_write_buffer_size parameters <= ISIZE_MAX ->
  0 <= StreamParameters.max_write_buffer_size parameters ->
  wf (new i session direction peer parameters now).
Proof.
  intros. split; try done; try (by destruct direction); simpl; try lia.
  unfold outstanding_writes. simpl. apply NoDup_nil_2.
Qed.

Lemma moves_not_ready o s s' effects :
  step o s = (s', effects) -> send_state s <> Some StreamSendState.Ready ->
  send_state s' <> Some StreamSendState.Ready /\ sent_chunks (id s) effects = [].
Proof.
  intros [Hs _ Hc _]%step_moves Hr. split; [by inversion Hs; subst; congruence|].
  unfold chunk_discipline in Hc. destruct (sent_chunks _ _) as [|[d fin] [|? ?]]; tauto.
Qed.

Lemma run_not_ready ops s s' effects :
  run ops s = (s', effects) -> send_state s <> Some StreamSendState.Ready ->
  sent_chunks (id s) effects = [].
Proof.
  revert s effects. induction ops as [|o ops IH]; intros s effects; cbn [run];
    [by intros [= <- <-]|].
  destruct (step o s) as [s1 e1] eqn:Hstep. destruct (run ops s1) as [s2 e2] eqn:Hrun.
  intros [= <- <-] Hr. pose proof (move_id _ _ _ (step_moves _ _ _ _ Hstep)) as Hid.
  destruct (moves_not_ready _ _ _ _ Hstep Hr) as [Hr1 Hc].
  rewrite sent_chunks_app, Hc, <- Hid. by apply (IH s1).
Qed.

Lemma run_terminated ops s s' effects :
  run ops s = (s', effects) ->
  (is_send_terminated (send_state s) = true -> send_state s' = send_state s)
  /\ (is_receive_terminated (receive_state s) = true -> receive_state s' = receive_state s).
Proof.
  revert s effects. induction ops as [|o ops IH]; intros s effects; cbn [run];
    [by intros [= <- <-]|].
  destruct (step o s) as [s1 e1] eqn:Hstep. destruct (run ops s1) as [s2 e2] eqn:Hrun.
  intros [= <- <-]. apply step_moves in Hstep as [Hs Hr _ _].
  destruct (IH s1 e2 Hrun) as [IHs IHr]. split; intros Ht.
  - inversion Hs as [x E1 E2|E1 E2|E1 E2|E1 E2|E1 E2]; rewrite <- ?E1 in Ht; try done.
    rewrite E2 in *. apply IHs; congruence.
  - inversion Hr as [x E1 E2|E1 E2|E1 E2|E1 E2|E1 E2|E1 E2]; rewrite <- ?E1 in Ht; try done.
    rewrite E2 in *. apply IHr; congruence.
Qed.

(** A reset stream neither takes nor sends bytes any more. *)
Lemma accepted_not_ready o s :
  send_state s <> Some StreamSendState.Ready -> accepted o s = [].
Proof.
  intros H. destruct o; try done. unfold accepted, write_accepts.
  by rewrite bool_decide_false.
Qed.

Lemma accepted_all_reset ops s :
  send_state s = Some StreamSendState.ResetSent -> accepted_all ops s = [].
Proof.
  revert s. induction ops as [|o ops IH]; intros s Hs; [done|]. cbn [accepted_all].
  destruct (step o s) as [s1 e1] eqn:Hstep. simpl. rewrite (IH s1), app_nil_r.
  - apply accepted_not_ready. by rewrite Hs.
  - apply step_moves in Hstep as [Hm _ _ _]. rewrite Hs in Hm. by inversion Hm.
Qed.

Lemma run_bytes ops s s' effects :
  wf s -> Forall op_ok ops -> NoDup (outstanding s ++ submitted_all ops) ->
  run ops s = (s', effects) ->
  buffered s ++ accepted_all ops s = sent_bytes (id s) effects ++ buffered s'
  \/ send_state s' = Some StreamSendState.ResetSent
     /\ sent_bytes (id s) effects `prefix_of` buffered s ++ accepted_all ops s.
Proof.
  revert s effects. induction ops as [|o ops IH]; intros s effects Hwf Hok Hnd;
    cbn [run accepted_all].
  { intros [= <- <-]. left. apply app_nil_r. }
  destruct (step o s) as [s1 e1] eqn:Hstep. destruct (run ops s1) as [s2 e2] eqn:Hrun.
  intros [= <- <-]. apply Forall_cons in Hok as [Ho Hok].
  rewrite submitted_all_cons, app_assoc in Hnd.
  apply step_spec in Hstep as [Hw1 Hid1 Hreq Hb]; try done; cycle 1.
  { intros r Hr Hin. apply NoDup_app in Hnd as (Hnd & _ & _).
    apply NoDup_app in Hnd as (_ & Hd & _). by apply (Hd r). }
  rewrite Hreq in Hnd. rewrite <- app_assoc in Hnd. apply NoDup_app in Hnd as (_ & _ & Hnd).
  specialize (IH s1 e2 Hw1 Hok Hnd Hrun). rewrite Hid1 in IH.
  rewrite sent_bytes_app, <- app_assoc, app_assoc. cbn [fst].
  destruct Hb as [Hb|(Hs & Ha & Hb & Hr)].
  - rewrite Hb, <- app_assoc. destruct IH as [IH|[Hr IH]]; [left; by rewrite IH|right].
    split; [done|]. by apply prefix_app.
  - right. destruct (run_terminated _ _ _ _ Hrun) as [Ht _]. rewrite Hr in Ht.
    split; [by apply Ht|]. rewrite Hs. unfold sent_bytes. rewrite <- Hid1.
    rewrite (run_not_ready _ _ _ _ Hrun) by (by rewrite Hr). apply prefix_nil.
Qed.

(** ** A stream speaks only for itself *)

Lemma flush_writes_effects s credit s' effects sent :
  flush_writes s credit = (s', effects, sent) -> Forall (stream_effect (id s)) effects.
Proof.
  unfold flush_writes. destruct (_ || _); [by intros [= <- <- <-]|].
  destruct (write_buffer s) as [|[[d r] fin] rest]; [by intros [= <- <- <-]|].
  destruct (_ && _); [by intros [= <- <- <-]|].
  destruct (if negb _ then _ else _) as [data buffer].
  destruct ((_ <=? _) && fin); intros [= <- <- <-]; by repeat constructor.
Qed.

Lemma write_effects s r data fin credit s' effects sent :
  write s r data fin credit = (s', effects, sent) -> Forall (stream_effect (id s)) effects.
Proof.
  unfold write. destruct (send_state s); [|intros [= <- <- <-]; by repeat constructor].
  destruct (_ || _); [destruct (_ && _); intros [= <- <- <-]; by repeat constructor|].
  destruct (_ <? _); [intros [= <- <- <-]; by repeat constructor|].
  intros H. by apply flush_writes_effects in H.
Qed.

Lemma complete_write_effects s credit s' effects sent :
  complete_write s credit = (s', effects, sent) -> Forall (stream_effect (id s)) effects.
Proof.
  unfold complete_write. destruct (pending_write_request s); [|by intros [= <- <- <-]].
  destruct (flush_writes _ _) as [[s1 e1] n] eqn:H. intros [= <- <- <-].
  apply flush_writes_effects in H. apply Forall_app. split; [|done].
  destruct (front_differs _ _); by repeat constructor.
Qed.

Lemma send_reset_effects s code http s' effects :
  send_reset s code http = (s', effects) -> Forall (stream_effect (id s)) effects /\ id s' = id s.
Proof.
  unfold send_reset. destruct (is_send_terminated _); intros [= <- <-]; [done|].
  split; [|done]. constructor; [done|]. apply Forall_app. split.
  - destruct (pending_write_request s); [|done]. destruct (front_differs _ _); by repeat constructor.
  - apply Forall_fmap, Forall_true. by intros [[? ?] ?].
Qed.

Lemma fail_reads_effects s code : Forall (stream_effect (id s)) (fail_reads s code).
Proof. apply Forall_fmap, Forall_true. by intros [? ?]. Qed.

Lemma send_stop_effects s code http s' effects :
  send_stop s code http = (s', effects) -> Forall (stream_effect (id s)) effects.
Proof.
  pose proof (fail_reads_effects s code).
  unfold send_stop. destruct (receive_state s) as [[]|]; intros [= <- <-]; by repeat constructor.
Qed.

Lemma read_effects s r max_size s' effects :
  read s r max_size = (s', effects) -> Forall (stream_effect (id s)) effects.
Proof.
  unfold read. destruct (receive_state s) as [st|]; [|intros [= <- <-]; by repeat constructor].
  destruct (_ && _); [destruct (_ =? _)%nat; intros [= <- <-]; by repeat constructor|].
  destruct st; intros [= <- <-]; by repeat constructor.
Qed.

Lemma recv_data_effects s data fin s' effects :
  recv_data s data fin = (s', effects) -> Forall (stream_effect (id s)) effects.
Proof.
  unfold recv_data. destruct (negb _); [by intros [= <- <-]|].
  destruct (deliver_head s data fin) as [s1 e1] eqn:Hd.
  assert (Forall (stream_effect (id s)) e1 /\ id s1 = id s) as [He Hid].
  { unfold deliver_head in Hd. destruct (pending_read_requests s) as [|[r m] rest];
      [|destruct (fin && _)]; injection Hd as <- <-; split; by repeat constructor. }
  destruct fin; [intros [= <- <-]; apply Forall_app; split; [done|]; apply Forall_fmap, Forall_true;
                 by intros [? ?]|].
  destruct (pending_read_requests s1) as [|[r m] rest]; intros [= <- <-]; [done|].
  apply Forall_app. split; [done|]. by repeat constructor.
Qed.

Lemma step_effects o s s' effects :
  step o s = (s', effects) -> Forall (stream_effect (id s)) effects.
Proof.
  destruct o; simpl; eauto using read_effects, recv_data_effects.
  - destruct (write _ _ _ _ _) as [[? ?] ?] eqn:H. intros [= <- <-]. by eapply write_effects.
  - destruct (flush_writes _ _) as [[? ?] ?] eqn:H. intros [= <- <-]. by eapply flush_writes_effects.
  - destruct (complete_write _ _) as [[? ?] ?] eqn:H. intros [= <- <-].
    by eapply complete_write_effects.
  - by intros [= <- <-].
  - unfold recv_reset. destruct (is_receive_terminated _); intros [= <- <-]; [done|].
    constructor; [done|]. apply fail_reads_effects.
  - unfold recv_stop_sending. destruct (is_send_terminated _); [by intros [= <- <-]|].
    destruct (send_reset _ _ _) as [s1 e1] eqn:H. intros [= <- <-].
    apply send_reset_effects in H as []. by constructor.
  - unfold reset. destruct (send_state s); [|intros [= <- <-]; by repeat constructor].
    destruct (negb _); [|intros [= <- <-]; by repeat constructor].
    destruct (send_reset _ _ _) as [s1 e1] eqn:H. intros [= <- <-].
    apply send_reset_effects in H as []. apply Forall_app. split; [done|by repeat constructor].
  - unfold stop. destruct (receive_state s); [|intros [= <- <-]; by repeat constructor].
    destruct (negb _); [|intros [= <- <-]; by repeat constructor].
    destruct (send_stop _ _ _) as [s1 e1] eqn:H. intros [= <- <-].
    apply send_stop_effects in H. apply Forall_app. split; [done|by repeat constructor].
  - unfold abort. destruct (send_reset _ _ _) as [s1 e1] eqn:H1.
    destruct (send_stop _ _ _) as [s2 e2] eqn:H2. intros [= <- <-].
    apply send_reset_effects in H1 as [? Hid]. apply send_stop_effects in H2. rewrite Hid in H2.
    by apply Forall_app.
  - intros [= <- <-]. by repeat constructor.
Qed.

(** ** Facts the session relies on *)

(** A write is no longer in flight once all the data has been acknowledged. *)
Definition acked (s : t) : Prop :=
  send_state s = Some StreamSendState.DataReceived -> pending_write_request s = None.

Lemma flush_writes_facts s credit s' effects sent :
  flush_writes s credit = (s', effects, sent) ->
  is_closed s' = is_closed s /\ (acked s -> acked s')
  /\ (is_blocked s' = true -> is_blocked s = true
      /\ ((send_state s <> Some StreamSendState.Ready -> write_buffer s = []) -> credit = 0)).
Proof.
  unfold flush_writes.
  destruct (_ || _) eqn:Hg.
  { intros [= <- <- <-]. split_and!; auto. intros Hb. split; [done|]. intros Hwf.
    unfold is_blocked in Hb. bool_to_prop. apply orb_true_iff in Hg as [Hg|Hg]; bool_to_prop.
    - rewrite H in Hg. by destruct Hg.
    - exfalso. apply H0. by apply Hwf. }
  destruct (write_buffer s) as [|[[d r] fin] rest] eqn:Hbuf.
  { intros [= <- <- <-]. split_and!; auto. unfold is_blocked. rewrite Hbuf.
    intros Hb. bool_to_prop. done. }
  destruct (_ && _) eqn:Hz.
  { intros [= <- <- <-]. split_and!; auto. intros Hb. split; [done|]. intros _. by bool_to_prop. }
  destruct (if negb _ then _ else _) as [data buffer].
  apply orb_false_iff in Hg as [_ Hr]. bool_to_prop.
  destruct ((_ <=? _) && fin); intros [= <- <- <-]; unfold is_closed, acked, is_blocked; simpl;
    rewrite ?Hr; split_and!; try done.
Qed.

Lemma complete_write_facts s credit s' effects sent :
  complete_write s credit = (s', effects, sent) ->
  is_closed s' = is_closed s /\ (acked s -> acked s')
  /\ (is_blocked s' = true -> is_blocked s = true \/ (wf s -> credit = 0)).
Proof.
  unfold complete_write. destruct (pending_write_request s) as [r|] eqn:Hp;
    [|intros [= <- <- <-]; split_and!; auto].
  destruct (flush_writes _ _) as [[s1 e1] n] eqn:H. intros [= <- <- <-].
  apply flush_writes_facts in H as (Hc & Ha & Hb). split_and!; [done| |].
  - intros _. apply Ha. by intros _.
  - intros Hb1. right. intros Hwf. apply Hb; [done|]. apply (wf_not_ready s Hwf).
Qed.

Lemma write_facts s r data fin credit s' effects sent :
  write s r data fin credit = (s', effects, sent) ->
  is_closed s' = is_closed s /\ (acked s -> acked s')
  /\ (is_blocked s' = true -> is_blocked s = true \/ credit = 0).
Proof.
  unfold write. destruct (send_state s) as [st|] eqn:Est;
    [|intros [= <- <- <-]; split_and!; auto].
  destruct (_ || _) eqn:Hg; [destruct (_ && _); intros [= <- <- <-]; split_and!; auto|].
  destruct (_ <? _); [intros [= <- <- <-]; split_and!; auto|].
  intros (Hc & Ha & Hb)%flush_writes_facts. split_and!; [done| |].
  - intros Hs. apply Ha. intros E. apply Hs. done.
  - intros Hb'. right. apply (Hb Hb'). intros E. exfalso. apply E. simpl. rewrite Est.
    apply orb_false_iff in Hg as [Hg _]. bool_to_prop. by subst.
Qed.

Lemma send_reset_facts s code http s' effects :
  send_reset s code http = (s', effects) -> (acked s -> acked s') /\ (is_blocked s' = true -> is_blocked s = true).
Proof.
  unfold send_reset. destruct (is_send_terminated _); intros [= <- <-]; split; try done.
Qed.

Lemma send_stop_facts s code http s' effects :
  send_stop s code http = (s', effects) ->
  acked s' = acked s /\ is_blocked s' = is_blocked s.
Proof.
  unfold send_stop. destruct (receive_state s) as [[]|]; intros [= <- <-]; done.
Qed.

(** The operations the session applies between the arrival of credit. *)
Definition is_send_op (o : op) : bool :=
  match o with OpWrite _ _ _ _ | OpFlush _ | OpComplete _ => true | _ => false end.

Lemma step_facts o s s' effects :
  step o s = (s', effects) -> is_send_op o = false ->
  (o = OpAcknowledged -> pending_write_request s = None) ->
  (acked s -> acked s') /\ (is_blocked s' = true -> is_blocked s = true).
Proof.
  destruct o; simpl; try done; intros H _ Hack.
  - injection H as <- <-. unfold acked, is_blocked, handle_data_acknowledged.
    destruct (bool_decide _); simpl; rewrite Hack by done; auto.
  - unfold read in H. destruct (receive_state s) as [st|]; [|by injection H as <- <-].
    destruct (_ && _); [destruct (_ =? _)%nat; by injection H as <- <-|].
    destruct st; [by injection H as <- <-| |by injection H as <- <-..].
    destruct (_ && _); by injection H as <- <-.
  - unfold recv_data in H. destruct (negb _); [by injection H as <- <-|].
    destruct (deliver_head s data end_stream) as [s1 e1] eqn:Hd.
    assert (acked s1 = acked s /\ is_blocked s1 = is_blocked s) as [Ha Hb].
    { unfold deliver_head in Hd. destruct (pending_read_requests s) as [|[r m] rest];
        [|destruct (end_stream && _)]; by injection Hd as <- <-. }
    destruct end_stream; [|destruct (pending_read_requests s1) as [|[? ?] ?]; injection H as <- <-;
                           by rewrite Ha, Hb].
    injection H as <- <-. rewrite <- Ha, <- Hb.
    by destruct (bool_decide (receive_state s1 = _)), (bool_decide (_ = [])).
  - unfold recv_reset in H. destruct (is_receive_terminated _); by injection H as <- <-.
  - unfold recv_stop_sending in H. destruct (is_send_terminated _); [by injection H as <- <-|].
    destruct (send_reset _ _ _) as [s1 e1] eqn:Hr. injection H as <- <-.
    by apply send_reset_facts in Hr.
  - unfold reset in H. destruct (send_state s); [|by injection H as <- <-].
    destruct (negb _); [|by injection H as <- <-].
    destruct (send_reset _ _ _) as [s1 e1] eqn:Hr. injection H as <- <-.
    by apply send_reset_facts in Hr.
  - unfold stop in H. destruct (receive_state s); [|by injection H as <- <-].
    destruct (negb _); [|by injection H as <- <-].
    destruct (send_stop _ _ _) as [s1 e1] eqn:Hr. injection H as <- <-.
    apply send_stop_facts in Hr as [-> ->]. done.
  - unfold abort in H. destruct (send_reset _ _ _) as [s1 e1] eqn:H1.
    destruct (send_stop _ _ _) as [s2 e2] eqn:H2. injection H as <- <-.
    apply send_stop_facts in H2 as [-> ->]. by apply send_reset_facts in H1.
  - by injection H as <- <-.
Qed.

(** Only the send operations hand data to QUIC. *)
Lemma step_not_data o s s' effects :
  step o s = (s', effects) -> is_send_op o = false -> Forall not_data effects.
Proof.
  destruct o; simpl; try done; intros H _.
  - by injection H as <- <-.
  - unfold read in H. destruct (receive_state s) as [st|];
      [|injection H as <- <-; by repeat constructor].
    destruct (_ && _); [destruct (_ =? _)%nat; injection H as <- <-; by repeat constructor|].
    destruct st; injection H as <- <-; by repeat constructor.
  - unfold recv_data in H. destruct (negb _); [by injection H as <- <-|].
    destruct (deliver_head s data end_stream) as [s1 e1] eqn:Hd.
    assert (Forall not_data e1).
    { unfold deliver_head in Hd. destruct (pending_read_requests s) as [|[r m] rest];
        injection Hd as <- <-; by repeat constructor. }
    destruct end_stream; [|destruct (pending_read_requests s1) as [|[? ?] ?]]; injection H as <- <-;
      try done; apply Forall_app; split; try done; [|by repeat constructor].
    apply Forall_fmap, Forall_true. by intros [? ?].
  - unfold recv_reset in H. destruct (is_receive_terminated _); injection H as <- <-; [done|].
    constructor; [done|]. apply Forall_fmap, Forall_true. by intros [? ?].
  - unfold recv_stop_sending in H. destruct (is_send_terminated _); [by injection H as <- <-|].
    destruct (send_reset _ _ _) as [s1 e1] eqn:Hr. injection H as <- <-.
    apply send_reset_moves in Hr as (_ & _ & ? & _). by constructor.
  - unfold reset in H. destruct (send_state s); [|injection H as <- <-; by repeat constructor].
    destruct (negb _); [|injection H as <- <-; by repeat constructor].
    destruct (send_reset _ _ _) as [s1 e1] eqn:Hr. injection H as <- <-.
    apply send_reset_moves in Hr as (_ & _ & ? & _). apply Forall_app. split; [done|by repeat constructor].
  - unfold stop in H. destruct (receive_state s); [|injection H as <- <-; by repeat constructor].
    destruct (negb _); [|injection H as <- <-; by repeat constructor].
    destruct (send_stop _ _ _) as [s1 e1] eqn:Hr. injection H as <- <-.
    apply send_stop_moves in Hr as (_ & _ & ? & _). apply Forall_app. split; [done|by repeat constructor].
  - unfold abort in H. destruct (send_reset _ _ _) as [s1 e1] eqn:H1.
    destruct (send_stop _ _ _) as [s2 e2] eqn:H2. injection H as <- <-.
    apply send_reset_moves in H1 as (_ & _ & ? & _). apply send_stop_moves in H2 as (_ & _ & ? & _).
    by apply Forall_app.
  - injection H as <- <-. by repeat constructor.
Qed.

(** ** Reading

    The transport delivers data only when pulled by [ReceiveQuicData]. *)
Definition pulls (effects : list Effect.t) : Z :=
  len (omap (fun e => match e with Effect.ReceiveQuicData _ _ => Some tt | _ => None end) effects).

Definition delivered (effects : list Effect.t) : bytes :=
  concat (omap (fun e => match e with
                | Effect.NotifyRequestDone _ (RequestResult.ReadData data) => Some data
                | _ => None
                end) effects).

(** The data an operation brings in, and whether it answers a pull. *)
Definition received (o : op) : bytes :=
  match o with OpRecvData data _ => data | _ => [] end.
Definition answers_pull (o : op) : Z := match o with OpRecvData _ _ => 1 | _ => 0 end.

(** A run in which the transport only delivers against an outstanding pull. *)
Fixpoint pull_driven (outstanding_pulls : Z) (ops : list op) (s : t) : Prop :=
  match ops with
  | [] => True
  | o :: rest =>
      let '(s1, e1) := step o s in
      answers_pull o <= outstanding_pulls
      /\ pull_driven (outstanding_pulls + pulls e1 - answers_pull o) rest s1
  end.

Definition owed (s : t) : Z := if bool_decide (pending_read_requests s = []) then 0 else 1.

Definition not_read (e : Effect.t) : Prop :=
  match e with
  | Effect.ReceiveQuicData _ _ => False
  | Effect.NotifyRequestDone _ (RequestResult.ReadData _) => False
  | _ => True
  end.

Lemma pulls_app e1 e2 : pulls (e1 ++ e2) = pulls e1 + pulls e2.
Proof. unfold pulls. by rewrite omap_app, len_app. Qed.

Lemma delivered_app e1 e2 : delivered (e1 ++ e2) = delivered e1 ++ delivered e2.
Proof. unfold delivered. by rewrite omap_app, concat_app. Qed.

Lemma not_read_none effects : Forall not_read effects -> pulls effects = 0 /\ delivered effects = [].
Proof.
  unfold pulls, delivered.
  induction 1 as [|e effects He _ IH]; [done|]. destruct e; try done. by destruct result.
Qed.

Lemma receive_back o s s' effects :
  step o s = (s', effects) -> receive_state s' = Some StreamReceiveState.Receive ->
  receive_state s = Some StreamReceiveState.Receive.
Proof. intros [_ Hr _ _]%step_moves E. rewrite E in Hr. by inversion Hr. Qed.

Lemma run_receive_back ops s s' effects :
  run ops s = (s', effects) -> receive_state s' = Some StreamReceiveState.Receive ->
  receive_state s = Some StreamReceiveState.Receive.
Proof.
  revert s effects. induction ops as [|o ops IH]; intros s effects; cbn [run];
    [by intros [= <- <-]|].
  destruct (step o s) as [s1 e1] eqn:Hstep. destruct (run ops s1) as [s2 e2] eqn:Hrun.
  intros [= <- <-] Hr. eapply receive_back; [done|]. by eapply IH.
Qed.

Lemma flush_writes_quiet s credit s' effects sent :
  flush_writes s credit = (s', effects, sent) ->
  Forall not_read effects /\ pending_read_requests s' = pending_read_requests s.
Proof.
  unfold flush_writes. destruct (_ || _); [by intros [= <- <- <-]|].
  destruct (write_buffer s) as [|[[d r] fin] rest]; [by intros [= <- <- <-]|].
  destruct (_ && _); [by intros [= <- <- <-]|].
  destruct (if negb _ then _ else _) as [data buffer].
  destruct ((_ <=? _) && fin); intros [= <- <- <-]; split; [by repeat constructor|done
    |by repeat constructor|done].
Qed.

Lemma send_reset_quiet s code http s' effects :
  send_reset s code http = (s', effects) ->
  Forall not_read effects /\ pending_read_requests s' = pending_read_requests s.
Proof.
  unfold send_reset. destruct (is_send_terminated _); intros [= <- <-]; [done|].
  split; [|done]. constructor; [done|]. apply Forall_app. split.
  - destruct (pending_write_request s); [|done]. destruct (front_differs _ _); by repeat constructor.
  - apply Forall_fmap, Forall_true. by intros [[? ?] ?].
Qed.

Lemma quiet_pull o s s' effects :
  Forall not_read effects -> pending_read_requests s' = pending_read_requests s ->
  answers_pull o = 0 -> received o = [] ->
  owed s + pulls effects = owed s' + answers_pull o /\ delivered effects = received o.
Proof.
  intros [Hp Hd]%not_read_none He Ha Hr. unfold owed. rewrite He, Hp, Hd, Ha, Hr. split; [lia|done].
Qed.

Lemma write_quiet s r data fin credit s' effects sent :
  write s r data fin credit = (s', effects, sent) ->
  Forall not_read effects /\ pending_read_requests s' = pending_read_requests s.
Proof.
  unfold write. destruct (send_state s);
    [|intros [= <- <- <-]; split; [by repeat constructor|done]].
  destruct (_ || _); [destruct (_ && _); intros [= <- <- <-]; split; [by repeat constructor|done
    |by repeat constructor|done]|].
  destruct (_ <? _); [intros [= <- <- <-]; split; [by repeat constructor|done]|].
  by intros []%flush_writes_quiet.
Qed.

Lemma complete_write_quiet s credit s' effects sent :
  complete_write s credit = (s', effects, sent) ->
  Forall not_read effects /\ pending_read_requests s' = pending_read_requests s.
Proof.
  unfold complete_write. destruct (pending_write_request s); [|by intros [= <- <- <-]].
  destruct (flush_writes _ _) as [[s1 e1] n] eqn:H. intros [= <- <- <-].
  apply flush_writes_quiet in H as [? ?]. split; [|done].
  apply Forall_app. split; [|done]. destruct (front_differs _ _); by repeat constructor.
Qed.

Lemma read_pull s r max_size s' effects :
  read s r max_size = (s', effects) -> receive_state s = Some StreamReceiveState.Receive ->
  owed s + pulls effects = owed s' /\ delivered effects = [].
Proof.
  unfold read. intros H E. rewrite E, bool_decide_true in H by done. cbn [andb] in H.
  destruct (0 <? max_size); [|injection H as <- <-; by split; [rewrite Z.add_0_r|]].
  simpl pending_read_requests in H. rewrite length_app in H. unfold owed.
  destruct (pending_read_requests s) as [|x l] eqn:Ep; simpl in H.
  - injection H as <- <-. done.
  - rewrite Nat.add_comm in H. simpl in H. injection H as <- <-. done.
Qed.

Lemma recv_data_pull s data s' effects :
  recv_data s data false = (s', effects) -> pending_read_requests s <> [] ->
  receive_state s = Some StreamReceiveState.Receive ->
  owed s + pulls effects = owed s' + 1 /\ delivered effects = data.
Proof.
  unfold recv_data, deliver_head, owed. intros H Hn E.
  rewrite E, bool_decide_true in H by done. cbn [negb andb] in H.
  destruct (pending_read_requests s) as [|[r m] [|[r' m'] rest]]; [done|..];
    simpl in H; injection H as <- <-; split; try done; cbn; by rewrite app_nil_r.
Qed.

Lemma recv_data_fin_ends s data s' effects :
  recv_data s data true = (s', effects) -> receive_state s = Some StreamReceiveState.Receive ->
  receive_state s' <> Some StreamReceiveState.Receive.
Proof.
  unfold recv_data. intros H E. rewrite E, bool_decide_true in H by done. cbn [negb] in H.
  destruct (deliver_head s data true) as [s1 e1]. injection H as <- <-.
  destruct (bool_decide (receive_state s1 = _)) eqn:E1, (bool_decide (_ = [])); simpl; try done.
  by bool_to_prop.
Qed.

Lemma step_pull o s s' effects :
  step o s = (s', effects) -> receive_state s' = Some StreamReceiveState.Receive ->
  (answers_pull o = 1 -> pending_read_requests s <> []) ->
  owed s + pulls effects = owed s' + answers_pull o /\ delivered effects = received o.
Proof.
  intros Hstep Hr' Hp. pose proof (receive_back _ _ _ _ Hstep Hr') as Hr. destruct o; simpl in Hstep.
  - destruct (write _ _ _ _ _) as [[? ?] ?] eqn:H. injection Hstep as <- <-.
    apply write_quiet in H as []. by apply quiet_pull.
  - destruct (flush_writes _ _) as [[? ?] ?] eqn:H. injection Hstep as <- <-.
    apply flush_writes_quiet in H as []. by apply quiet_pull.
  - destruct (complete_write _ _) as [[? ?] ?] eqn:H. injection Hstep as <- <-.
    apply complete_write_quiet in H as []. by apply quiet_pull.
  - injection Hstep as <- <-. apply quiet_pull; try done.
    unfold handle_data_acknowledged. by destruct (bool_decide _).
  - apply read_pull in Hstep as [H ->]; [|done]. cbn [answers_pull received]. split; [lia|done].
  - destruct end_stream; [|by eapply recv_data_pull; [done|apply Hp|done]].
    apply recv_data_fin_ends in Hstep; [|done]. by rewrite Hr' in Hstep.
  - unfold recv_reset in Hstep. rewrite Hr in Hstep. injection Hstep as <- <-. done.
  - unfold recv_stop_sending in Hstep. destruct (is_send_terminated _);
      [injection Hstep as <- <-; by apply quiet_pull|].
    destruct (send_reset _ _ _) as [s1 e1] eqn:H. injection Hstep as <- <-.
    apply send_reset_quiet in H as []. apply quiet_pull; try done. by constructor.
  - unfold reset in Hstep. destruct (send_state s);
      [|injection Hstep as <- <-; by apply quiet_pull; [repeat constructor|..]].
    destruct (negb _); [|injection Hstep as <- <-; by apply quiet_pull; [repeat constructor|..]].
    destruct (send_reset _ _ _) as [s1 e1] eqn:H. injection Hstep as <- <-.
    apply send_reset_quiet in H as []. apply quiet_pull; try done.
    apply Forall_app. split; [done|by repeat constructor].
  - unfold stop in Hstep. rewrite Hr in Hstep. cbn [is_receive_terminated negb] in Hstep.
    unfold send_stop in Hstep. rewrite Hr in Hstep. injection Hstep as <- <-. done.
  - unfold abort in Hstep. destruct (send_reset _ _ _) as [s1 e1] eqn:H.
    apply send_reset_moves in H as (_ & Hrs & _). unfold send_stop in Hstep.
    rewrite Hrs, Hr in Hstep. injection Hstep as <- <-. done.
  - injection Hstep as <- <-. by apply quiet_pull; [repeat constructor|..].
Qed.

Definition deliveries (ops : list op) : Z := fold_right (fun o n => answers_pull o + n) 0 ops.

Lemma run_pull ops s s' effects :
  pull_driven (owed s) ops s ->
  run ops s = (s', effects) -> receive_state s' = Some StreamReceiveState.Receive ->
  delivered effects = concat (received <$> ops)
  /\ owed s + pulls effects = deliveries ops + owed s'.
Proof.
  revert s effects. induction ops as [|o ops IH]; intros s effects; cbn [run pull_driven].
  { intros _ [= <- <-]. split; [done|]. change (owed s + 0 = 0 + owed s). lia. }
  destruct (step o s) as [s1 e1] eqn:Hstep. destruct (run ops s1) as [s2 e2] eqn:Hrun.
  intros [Hpull Hd] [= <- <-] Hr.
  destruct (step_pull _ _ _ _ Hstep (run_receive_back _ _ _ _ Hrun Hr)) as [Ho Hdel].
  { intros E1 E2. unfold owed in Hpull. rewrite bool_decide_true in Hpull by done. lia. }
  replace (owed s + pulls e1 - answers_pull o) with (owed s1) in Hd by lia.
  destruct (IH s1 e2 Hd Hrun Hr) as [IHd IHp].
  rewrite delivered_app, pulls_app, Hdel, IHd. split; [done|].
  change (deliveries (o :: ops)) with (answers_pull o + deliveries ops). lia.
Qed.

(** ** The properties *)

(** A stream of the default size limit, opened by the user. *)
Definition example_stream : t :=
  new 0 0 StreamDirection.Bidirectional false
    {| StreamParameters.max_write_buffer_size := 1048576 |} (S754_zero false).

Definition example_ops : list op :=
  [OpRead 1 16; OpWrite 2 (b: "hello") false 3; OpRecvData (b: "ab") false; OpRead 3 8;
   OpWrite 4 (b: "!") true 0; OpComplete 9; OpComplete 9; OpComplete 9].

(** Over every run of a stream each request submitted to it is answered
    exactly once or is still held by the stream, and the well-formedness of the
    stream is kept. *)
Theorem stream_answers_once i session direction peer parameters now ops s' effects :
  0 <= StreamParameters.max_write_buffer_size parameters <= ISIZE_MAX ->
  Forall op_ok ops -> NoDup (submitted_all ops) ->
  run ops (new i session direction peer parameters now) = (s', effects) ->
  wf s' /\ submitted_all ops ≡ₚ completed effects ++ outstanding s'
  /\ NoDup (completed effects ++ outstanding s').
Proof.
  intros Hp Hok Hnd Hrun.
  apply run_requests in Hrun as (Hwf & _ & Hreq); [|apply new_wf; lia|done|done].
  split_and!; [done|done|]. by rewrite <- Hreq.
Qed.

Lemma stream_answers_once_witness :
  exists s' effects, run example_ops example_stream = (s', effects)
  /\ completed effects = [1; 2; 4] /\ outstanding s' = [3]
  /\ submitted_all example_ops ≡ₚ completed effects ++ outstanding s'.
Proof.
  eexists _, _. split; [vm_compute; reflexivity|]. split_and!; [done..|].
  eapply (stream_answers_once 0 0 StreamDirection.Bidirectional false
    {| StreamParameters.max_write_buffer_size := 1048576 |} (S754_zero false) example_ops);
    [cbn; unfold ISIZE_MAX; lia| |apply (bool_decide_unpack _); vm_compute; exact I|vm_compute; reflexivity].
  repeat constructor; vm_compute; congruence.
Defined.

(** C26: the bytes handed to QUIC are a prefix, in order, of the bytes accepted
    from the user; unless the send half was reset, the rest is in the buffer,
    and nothing is left once the stream is finished. *)
Theorem stream_sends_in_order i session direction peer parameters now ops s' effects :
  0 <= StreamParameters.max_write_buffer_size parameters <= ISIZE_MAX ->
  Forall op_ok ops -> NoDup (submitted_all ops) ->
  let s := new i session direction peer parameters now in
  run ops s = (s', effects) ->
  sent_bytes i effects `prefix_of` accepted_all ops s
  /\ (send_state s' <> Some StreamSendState.ResetSent ->
        accepted_all ops s = sent_bytes i effects ++ buffered s')
  /\ (send_state s' = Some StreamSendState.DataSent
        \/ send_state s' = Some StreamSendState.DataReceived ->
        accepted_all ops s = sent_bytes i effects).
Proof.
  intros Hp Hok Hnd s Hrun. assert (Hwf : wf s) by (apply new_wf; lia).
  destruct (run_requests _ _ _ _ Hwf Hok Hnd Hrun) as (Hwf' & _ & _).
  assert (Hb : send_state s' <> Some StreamSendState.Ready -> buffered s' = [])
    by (intros H; unfold buffered; by rewrite (wf_not_ready _ Hwf')).
  apply run_bytes in Hrun; [|done..]. cbn [app buffered] in Hrun.
  change (id s) with i in Hrun. destruct Hrun as [Hrun|[Hr Hpre]].
  - cbn in Hrun. rewrite Hrun. split_and!; [by eexists|done|].
    intros H. rewrite Hb, app_nil_r; [done|]. destruct H as [-> | ->]; done.
  - split_and!; [done|done|]. rewrite Hr. by intros [?|?].
Qed.

Lemma stream_sends_in_order_witness :
  exists s' effects, run example_ops example_stream = (s', effects)
  /\ send_state s' = Some StreamSendState.DataSent
  /\ accepted_all example_ops example_stream = sent_bytes 0 effects
  /\ sent_bytes 0 effects = b: "hello!".
Proof.
  eexists _, _. split; [vm_compute; reflexivity|]. split_and!; [done| |done].
  eapply (stream_sends_in_order 0 0 StreamDirection.Bidirectional false
    {| StreamParameters.max_write_buffer_size := 1048576 |} (S754_zero false) example_ops);
    [cbn; unfold ISIZE_MAX; lia| |apply (bool_decide_unpack _); vm_compute; exact I
    |vm_compute; reflexivity|by left].
  repeat constructor; vm_compute; congruence.
Defined.

(** C27: as long as a stream is receiving and the transport delivers only what it
    was asked for, every byte received is returned by a read request, in order,
    and one pull is outstanding exactly when a read request is waiting. *)
Theorem stream_reads_lose_nothing ops s s' effects :
  pending_read_requests s = [] -> pull_driven 0 ops s ->
  run ops s = (s', effects) -> receive_state s' = Some StreamReceiveState.Receive ->
  delivered effects = concat (received <$> ops)
  /\ pulls effects = deliveries ops + (if bool_decide (pending_read_requests s' = []) then 0 else 1).
Proof.
  intros Hp Hd Hrun Hr. assert (E : owed s = 0) by (unfold owed; by rewrite bool_decide_true).
  rewrite <- E in Hd. destruct (run_pull _ _ _ _ Hd Hrun Hr) as [? ?]. split; [done|].
  fold (owed s'). lia.
Qed.

Lemma stream_reads_lose_nothing_witness :
  exists s' effects, run example_ops example_stream = (s', effects)
  /\ delivered effects = b: "ab" /\ pulls effects = 2.
Proof.
  eexists _, _. split; [vm_compute; reflexivity|].
  edestruct (stream_reads_lose_nothing example_ops example_stream) as [H1 H2];
    [done| |vm_compute; reflexivity|done|split; [exact H1|exact H2]].
  vm_compute. repeat split; congruence.
Defined.

(** Once a chunk carrying the FIN has been handed to QUIC nothing is ever
    handed to QUIC again for that stream, so a FIN is sent at most once and last. *)
Theorem stream_fin_is_last ops s s' effects before data after :
  run ops s = (s', effects) ->
  sent_chunks (id s) effects = before ++ (data, true) :: after -> after = [].
Proof.
  revert s effects before. induction ops as [|o ops IH]; intros s effects before; cbn [run].
  { intros [= <- <-]. by destruct before. }
  destruct (step o s) as [s1 e1] eqn:Hstep. destruct (run ops s1) as [s2 e2] eqn:Hrun.
  intros [= <- <-]. rewrite sent_chunks_app.
  pose proof (move_id _ _ _ (step_moves _ _ _ _ Hstep)) as Hid. rewrite <- Hid at 2.
  pose proof (move_chunks _ _ _ (step_moves _ _ _ _ Hstep)) as Hc. unfold chunk_discipline in Hc.
  destruct (sent_chunks (id s) e1) as [|[d fin] [|? ?]]; [by apply (IH s1)| |done].
  destruct Hc as [_ Hfin]. destruct before as [|x before]; [|intros [= <- H]; by apply (IH s1 e2 before)].
  intros [= -> -> H]. rewrite <- H. apply (run_not_ready ops s1 s2 e2 Hrun).
  by rewrite (Hfin eq_refl).
Qed.

Lemma stream_fin_is_last_witness :
  exists before data after,
    sent_chunks 0 (run example_ops example_stream).2 = before ++ (data, true) :: after
    /\ after = [].
Proof.
  eexists [_; _], _, _. split; [vm_compute; reflexivity|].
  eapply (stream_fin_is_last example_ops example_stream _ _ [_; _]);
    [vm_compute; reflexivity|vm_compute; reflexivity].
Defined.

(** The two halves of a stream move only along the transitions of RFC 9000,
    so a stream that is closed stays closed, whatever happens to it. *)
Theorem stream_closed_is_final ops s s' effects :
  (forall o, send_moves (send_state s) (send_state (step o s).1)
             /\ receive_moves (receive_state s) (receive_state (step o s).1))
  /\ (run ops s = (s', effects) -> is_closed s = true ->
        is_closed s' = true /\ send_state s' = send_state s
        /\ receive_state s' = receive_state s /\ sent_bytes (id s) effects = []).
Proof.
  split.
  - intros o. destruct (step o s) as [s1 e1] eqn:H. by apply step_moves in H as [].
  - intros Hrun Hc. unfold is_closed in *. bool_to_prop.
    destruct (run_terminated _ _ _ _ Hrun) as [Hs Hr]. rewrite Hs, Hr by done.
    split_and!; try done; [by apply andb_true_intro|].
    unfold sent_bytes. rewrite (run_not_ready _ _ _ _ Hrun); [done|]. intros E.
    by rewrite E in *.
Qed.

Lemma stream_closed_is_final_witness :
  let s := (abort example_stream 7).1 in
  is_closed s = true /\ is_closed (run example_ops s).1 = true.
Proof.
  split; [reflexivity|].
  eapply (stream_closed_is_final example_ops (abort example_stream 7).1);
    [vm_compute; reflexivity|reflexivity].
Defined.

(** Aborting a stream closes both halves and, unless its send half had
    already ended, answers every request it holds; nothing more is sent. *)
Theorem stream_abort_closes s code s' effects :
  wf s -> abort s code = (s', effects) ->
  wf s' /\ is_closed s' = true /\ outstanding_reads s' = []
  /\ outstanding s ≡ₚ completed effects ++ outstanding s'
  /\ (is_send_terminated (send_state s) = false -> outstanding s' = [])
  /\ sent_bytes (id s) effects = [].
Proof.
  intros Hwf Ha. apply abort_spec in Ha as (? & ? & _ & _ & ? & Hr & Hcase & ?); [|done].
  split_and!; try done. intros E. rewrite E in Hcase. tauto.
Qed.

Lemma stream_abort_closes_witness :
  let s := (write (read example_stream 1 16).1 2 (b: "hello") false 3).1.1 in
  outstanding s = [2; 1] /\ is_closed (abort s 7).1 = true.
Proof.
  split; [reflexivity|].
  eapply (stream_abort_closes
            (write (read example_stream 1 16).1 2 (b: "hello") false 3).1.1 7);
    [|vm_compute; reflexivity].
  split; try (vm_compute; done); try (vm_compute; by repeat constructor).
  - vm_compute. by intros [?|?].
  - apply (bool_decide_unpack _). vm_compute. exact I.
Defined.

End StreamP.
