(* ===== verification/SessionMachine.v ===== *)
(** * The session state machine

    [crates/src/protocol/session.rs]: one WebTransport session, its lifecycle,
    its streams, its data and stream flow control and its datagrams.  A
    [&mut self] method takes the record and returns it updated, with the effects
    it emits in order; [now] is the time the host passes in. *)

From S2P Require Import Prelude.
From S2P Require Import Types.
From S2P Require Import Events.
From S2P Require Import Utils.
From S2P Require Import StreamMachine.

Module SessionParameters.
Record t : Set := mk {
  flow_control_negotiated : bool;
  initial_max_data : Z;
  initial_max_streams_bidi : Z;
  initial_max_streams_uni : Z;
  max_pending_capsules : Z;
  max_pending_datagrams : Z;
  max_pending_streams : Z;
  max_write_buffer_size : Z;
  peer_max_data : Z;
  peer_max_streams_bidi : Z;
  peer_max_streams_uni : Z;
  receive_window : Z;
}.
End SessionParameters.

Module Session.

Record t : Set := mk {
  blocked_stream_requests_bidi : list RequestId;
  blocked_stream_requests_uni : list RequestId;
  blocked_streams : gset StreamId;
  blocked_streams_queue : list StreamId;
  close_code : option ErrorCode;
  close_reason : option str;
  closed_at : option f64;
  created_at : f64;
  data_consumed : Z;
  data_received : Z;
  data_sent : Z;
  flow_control_negotiated : bool;
  headers : Headers;
  id : SessionId;
  initial_max_streams_bidi : Z;
  initial_max_streams_uni : Z;
  is_client : bool;
  last_data_blocked_sent : option Z;
  last_streams_blocked_bidi_sent : option Z;
  last_streams_blocked_uni_sent : option Z;
  local_max_data : Z;
  local_max_streams_bidi : Z;
  local_max_streams_uni : Z;
  local_streams_bidi_opened : Z;
  local_streams_uni_opened : Z;
  max_pending_capsules : Z;
  max_pending_datagrams : Z;
  max_pending_streams : Z;
  max_write_buffer_size : Z;
  path : str;
  peer_max_data : Z;
  peer_max_streams_bidi : Z;
  peer_max_streams_uni : Z;
  peer_streams_bidi_closed : Z;
  peer_streams_bidi_opened : Z;
  peer_streams_uni_closed : Z;
  peer_streams_uni_opened : Z;
  pending_capsules : list (Z * bytes);
  pending_datagram_requests : list RequestId;
  pending_datagrams : list bytes;
  pending_streams : list StreamId;
  ready_at : option f64;
  receive_window : Z;
  state : SessionState.t;
  streams : gmap StreamId Stream.t;
  wt_available_protocols : option (list str);
  wt_protocol : option str;
}.

#[export] Instance eta_session : Eta t := fun s =>
  mk (blocked_stream_requests_bidi s) (blocked_stream_requests_uni s) (blocked_streams s)
     (blocked_streams_queue s) (close_code s) (close_reason s) (closed_at s) (created_at s)
     (data_consumed s) (data_received s) (data_sent s) (flow_control_negotiated s) (headers s)
     (id s) (initial_max_streams_bidi s) (initial_max_streams_uni s) (is_client s)
     (last_data_blocked_sent s) (last_streams_blocked_bidi_sent s)
     (last_streams_blocked_uni_sent s) (local_max_data s) (local_max_streams_bidi s)
     (local_max_streams_uni s) (local_streams_bidi_opened s) (local_streams_uni_opened s)
     (max_pending_capsules s) (max_pending_datagrams s) (max_pending_streams s)
     (max_write_buffer_size s) (path s) (peer_max_data s) (peer_max_streams_bidi s)
     (peer_max_streams_uni s) (peer_streams_bidi_closed s) (peer_streams_bidi_opened s)
     (peer_streams_uni_closed s) (peer_streams_uni_opened s) (pending_capsules s)
     (pending_datagram_requests s) (pending_datagrams s) (pending_streams s) (ready_at s)
     (receive_window s) (state s) (streams s) (wt_available_protocols s) (wt_protocol s).
#[export] Instance set_blocked_stream_requests_bidi : Setter blocked_stream_requests_bidi := ltac:(build_setter).
#[export] Instance set_blocked_stream_requests_uni : Setter blocked_stream_requests_uni := ltac:(build_setter).
#[export] Instance set_blocked_streams : Setter blocked_streams := ltac:(build_setter).
#[export] Instance set_blocked_streams_queue : Setter blocked_streams_queue := ltac:(build_setter).
#[export] Instance set_close_code : Setter close_code := ltac:(build_setter).
#[export] Instance set_close_reason : Setter close_reason := ltac:(build_setter).
#[export] Instance set_closed_at : Setter closed_at := ltac:(build_setter).
#[export] Instance set_data_consumed : Setter data_consumed := ltac:(build_setter).
#[export] Instance set_data_received : Setter data_received := ltac:(build_setter).
#[export] Instance set_data_sent : Setter data_sent := ltac:(build_setter).
#[export] Instance set_last_data_blocked_sent : Setter last_data_blocked_sent := ltac:(build_setter).
#[export] Instance set_last_streams_blocked_bidi_sent : Setter last_streams_blocked_bidi_sent := ltac:(build_setter).
#[export] Instance set_last_streams_blocked_uni_sent : Setter last_streams_blocked_uni_sent := ltac:(build_setter).
#[export] Instance set_local_max_data : Setter local_max_data := ltac:(build_setter).
#[export] Instance set_local_max_streams_bidi : Setter local_max_streams_bidi := ltac:(build_setter).
#[export] Instance set_local_max_streams_uni : Setter local_max_streams_uni := ltac:(build_setter).
#[export] Instance set_local_streams_bidi_opened : Setter local_streams_bidi_opened := ltac:(build_setter).
#[export] Instance set_local_streams_uni_opened : Setter local_streams_uni_opened := ltac:(build_setter).
#[export] Instance set_peer_max_data : Setter peer_max_data := ltac:(build_setter).
#[export] Instance set_peer_max_streams_bidi : Setter peer_max_streams_bidi := ltac:(build_setter).
#[export] Instance set_peer_max_streams_uni : Setter peer_max_streams_uni := ltac:(build_setter).
#[export] Instance set_peer_streams_bidi_closed : Setter peer_streams_bidi_closed := ltac:(build_setter).
#[export] Instance set_peer_streams_bidi_opened : Setter peer_streams_bidi_opened := ltac:(build_setter).
#[export] Instance set_peer_streams_uni_closed : Setter peer_streams_uni_closed := ltac:(build_setter).
#[export] Instance set_peer_streams_uni_opened : Setter peer_streams_uni_opened := ltac:(build_setter).
#[export] Instance set_pending_capsules : Setter pending_capsules := ltac:(build_setter).
#[export] Instance set_pending_datagram_requests : Setter pending_datagram_requests := ltac:(build_setter).
#[export] Instance set_pending_datagrams : Setter pending_datagrams := ltac:(build_setter).
#[export] Instance set_pending_streams : Setter pending_streams := ltac:(build_setter).
#[export] Instance set_ready_at : Setter ready_at := ltac:(build_setter).
#[export] Instance set_state : Setter state := ltac:(build_setter).
#[export] Instance set_streams : Setter streams := ltac:(build_setter).
#[export] Instance set_wt_protocol : Setter wt_protocol := ltac:(build_setter).

Definition new (id : SessionId) (path : str) (headers : Headers)
    (wt_available_protocols : option (list str)) (is_client : bool)
    (parameters : SessionParameters.t) (created_at : f64) : t := {|
  blocked_stream_requests_bidi := [];
  blocked_stream_requests_uni := [];
  blocked_streams := ∅;
  blocked_streams_queue := [];
  close_code := None;
  close_reason := None;
  closed_at := None;
  created_at := created_at;
  data_consumed := 0;
  data_received := 0;
  data_sent := 0;
  flow_control_negotiated := SessionParameters.flow_control_negotiated parameters;
  headers := headers;
  id := id;
  initial_max_streams_bidi := SessionParameters.initial_max_streams_bidi parameters;
  initial_max_streams_uni := SessionParameters.initial_max_streams_uni parameters;
  is_client := is_client;
  last_data_blocked_sent := None;
  last_streams_blocked_bidi_sent := None;
  last_streams_blocked_uni_sent := None;
  local_max_data := SessionParameters.initial_max_data parameters;
  local_max_streams_bidi := SessionParameters.initial_max_streams_bidi parameters;
  local_max_streams_uni := SessionParameters.initial_max_streams_uni parameters;
  local_streams_bidi_opened := 0;
  local_streams_uni_opened := 0;
  max_pending_capsules := SessionParameters.max_pending_capsules parameters;
  max_pending_datagrams := SessionParameters.max_pending_datagrams parameters;
  max_pending_streams := SessionParameters.max_pending_streams parameters;
  max_write_buffer_size := SessionParameters.max_write_buffer_size parameters;
  path := path;
  peer_max_data := SessionParameters.peer_max_data parameters;
  peer_max_streams_bidi := SessionParameters.peer_max_streams_bidi parameters;
  peer_max_streams_uni := SessionParameters.peer_max_streams_uni parameters;
  peer_streams_bidi_closed := 0;
  peer_streams_bidi_opened := 0;
  peer_streams_uni_closed := 0;
  peer_streams_uni_opened := 0;
  pending_capsules := [];
  pending_datagram_requests := [];
  pending_datagrams := [];
  pending_streams := [];
  ready_at := None;
  receive_window := SessionParameters.receive_window parameters;
  state := SessionState.Connecting;
  streams := ∅;
  wt_available_protocols := wt_available_protocols;
  wt_protocol := None;
|}.

(** [matches!(self.state, Connected | Connecting | Draining)]. *)
Definition is_active (s : t) : bool :=
  match state s with
  | SessionState.Connected | SessionState.Connecting | SessionState.Draining => true
  | SessionState.Closed | SessionState.Closing => false
  end.

Definition request_done (request_id : RequestId) : Effect.t :=
  Effect.NotifyRequestDone request_id RequestResult.None.

Definition request_failed (request_id : RequestId) (source : ErrorSource.t)
    (error_code : option ErrorCode) (reason : str) : Effect.t :=
  Effect.NotifyRequestFailed request_id source error_code reason.

(** A session event without any payload. *)
Definition session_event (s : t) (event_type : EventType.t) : Effect.t :=
  Effect.EmitSessionEvent (id s) event_type
    None None None None None None None None None None None None.

Definition session_closed_event (s : t) (status_code : option Z) (error_code : option ErrorCode)
    (reason : option str) : Effect.t :=
  Effect.EmitSessionEvent (id s) EventType.SessionClosed
    None None None None None None None None None status_code error_code reason.

Definition session_credit (s : t) : Z :=
  if flow_control_negotiated s then saturating_sub (peer_max_data s) (data_sent s) else U64_MAX.

Definition has_stream (s : t) (stream_id : StreamId) : bool :=
  bool_decide (is_Some (streams s !! stream_id)).

Definition is_closed (s : t) : bool := bool_decide (state s = SessionState.Closed).

(** ** Flow control *)

Definition emit_data_blocked (s : t) : t * option Effect.t :=
  if negb (flow_control_negotiated s) then (s, None)
  else if (peer_max_data s <=? data_sent s)
          && negb (bool_decide (blocked_streams s = ∅))
          && match last_data_blocked_sent s with
             | None => true
             | Some last => last <? peer_max_data s
             end then
    let s := s <| last_data_blocked_sent := Some (peer_max_data s) |> in
    match utils.write_varint [] (peer_max_data s) with
    | Err _ => (s, None)
    | Ok buffer =>
        (s, Some (Effect.SendH3Capsule (id s) WT_CAPSULE_TYPE_DATA_BLOCKED buffer false))
    end
  else (s, None).

Definition emit_streams_blocked (s : t) (is_unidirectional : bool) : t * option Effect.t :=
  if negb (flow_control_negotiated s) then (s, None)
  else
    let '(opened, limit, is_blocked, last_streams_blocked_sent, capsule_type) :=
      if is_unidirectional then
        (local_streams_uni_opened s, peer_max_streams_uni s,
         negb (bool_decide (blocked_stream_requests_uni s = [])),
         last_streams_blocked_uni_sent s, WT_CAPSULE_TYPE_STREAMS_BLOCKED_UNI)
      else
        (local_streams_bidi_opened s, peer_max_streams_bidi s,
         negb (bool_decide (blocked_stream_requests_bidi s = [])),
         last_streams_blocked_bidi_sent s, WT_CAPSULE_TYPE_STREAMS_BLOCKED_BIDI) in
    if negb is_blocked || (opened <? limit)
       || match last_streams_blocked_sent with Some last => limit <=? last | None => false end
    then (s, None)
    else match utils.write_varint [] limit with
    | Err _ => (s, None)
    | Ok buffer =>
        let s := if is_unidirectional
                 then s <| last_streams_blocked_uni_sent := Some limit |>
                 else s <| last_streams_blocked_bidi_sent := Some limit |> in
        (s, Some (Effect.SendH3Capsule (id s) capsule_type buffer false))
    end.

(** [(Connected | Draining, _) | (Connecting, true)]: the states in which credit
    capsules may be sent. *)
Definition may_send_credit (s : t) : bool :=
  match state s, is_client s with
  | SessionState.Connected, _ | SessionState.Draining, _ | SessionState.Connecting, true => true
  | _, _ => false
  end.

Definition replenish_data_credit (s : t) (force_send : bool) : t * option Effect.t :=
  if negb (flow_control_negotiated s) then (s, None)
  else if negb (may_send_credit s) then (s, None)
  else
    let new_limit := saturating_add (data_consumed s) (receive_window s) in
    let threshold := if force_send then 0 else receive_window s / 2 in
    if new_limit <=? saturating_add (local_max_data s) threshold then (s, None)
    else match utils.write_varint [] new_limit with
    | Err _ => (s, None)
    | Ok buffer =>
        (s <| local_max_data := new_limit |>,
         Some (Effect.SendH3Capsule (id s) WT_CAPSULE_TYPE_MAX_DATA buffer false))
    end.

Definition replenish_streams_credit (s : t) (is_unidirectional force_send : bool)
    : t * option Effect.t :=
  if negb (flow_control_negotiated s) then (s, None)
  else if negb (may_send_credit s) then (s, None)
  else
    let '(current, closed, initial, capsule_type) :=
      if is_unidirectional then
        (local_max_streams_uni s, peer_streams_uni_closed s, initial_max_streams_uni s,
         WT_CAPSULE_TYPE_MAX_STREAMS_UNI)
      else
        (local_max_streams_bidi s, peer_streams_bidi_closed s, initial_max_streams_bidi s,
         WT_CAPSULE_TYPE_MAX_STREAMS_BIDI) in
    let new_limit := saturating_add closed initial in
    let threshold := if force_send then 0 else initial / 2 in
    if (new_limit <=? current) || (new_limit <? saturating_add current threshold) then (s, None)
    else match utils.write_varint [] new_limit with
    | Err _ => (s, None)
    | Ok buffer =>
        let s := if is_unidirectional
                 then s <| local_max_streams_uni := new_limit |>
                 else s <| local_max_streams_bidi := new_limit |> in
        (s, Some (Effect.SendH3Capsule (id s) capsule_type buffer false))
    end.

(** ** Closing streams and the session *)

Definition is_stream_event (e : Effect.t) : bool :=
  match e with Effect.EmitStreamEvent _ _ _ _ _ _ => true | _ => false end.

Definition suppress_pending_stream_events (s : t) (stream_id : StreamId)
    (stream_effects : list Effect.t) : list Effect.t :=
  if bool_decide (stream_id ∈ pending_streams s)
  then filter (fun e => is_stream_event e = false) stream_effects
  else stream_effects.

(** The peer's stream counters after one of its streams ended. *)
Definition count_closed_stream (s : t) (is_unidirectional : bool) : t * option Effect.t :=
  let s := if is_unidirectional
           then s <| peer_streams_uni_closed := u64_add (peer_streams_uni_closed s) 1 |>
           else s <| peer_streams_bidi_closed := u64_add (peer_streams_bidi_closed s) 1 |> in
  replenish_streams_credit s is_unidirectional false.

Definition handle_closed (s : t) (stream_id : StreamId) : t * list Effect.t :=
  match streams s !! stream_id with
  | Some stream =>
      if Stream.is_closed stream then
        let s := s <| streams := delete stream_id (streams s) |>
                   <| blocked_streams := blocked_streams s ∖ {[stream_id]} |> in
        let effects := suppress_pending_stream_events s stream_id
          [Effect.EmitStreamEvent stream_id EventType.StreamClosed None None None None] in
        if utils.is_peer_initiated_stream stream_id (is_client s) then
          let '(s, effect) :=
            count_closed_stream s (utils.is_unidirectional_stream stream_id) in
          (s, effects ++ option_list effect)
        else (s, effects)
      else (s, [])
  | None => (s, [])
  end.

(** One iteration of the loop of [abort_streams]. *)
Definition abort_stream (s : t) (stream_id : StreamId) : t * list Effect.t :=
  let '(s, effects) :=
    match streams s !! stream_id with
    | Some stream =>
        let '(stream, stream_effects) := Stream.abort stream ERR_WT_SESSION_GONE in
        let s := s <| streams := <[stream_id := stream]> (streams s) |> in
        (s, suppress_pending_stream_events s stream_id stream_effects)
    | None => (s, [])
    end in
  let '(s, closed_effects) := handle_closed s stream_id in
  (s, effects ++ closed_effects).

Fixpoint abort_each (s : t) (stream_ids : list StreamId) : t * list Effect.t :=
  match stream_ids with
  | [] => (s, [])
  | stream_id :: rest =>
      let '(s, effects) := abort_stream s stream_id in
      let '(s, rest_effects) := abort_each s rest in
      (s, effects ++ rest_effects)
  end.

(** The answer to a request pending when the session ends. *)
Definition session_abort_failure (request_id : RequestId) : Effect.t :=
  request_failed request_id ErrorSource.Session None (b: "wt_session abort").

Definition abort_streams (s : t) : t * list Effect.t :=
  let stream_ids := merge_sort Z.le (map_to_list (streams s)).*1 in
  let '(s, effects) := abort_each s stream_ids in
  let failures :=
    (session_abort_failure <$> blocked_stream_requests_bidi s)
    ++ (session_abort_failure <$> blocked_stream_requests_uni s) in
  (s <| blocked_streams := ∅ |>
     <| blocked_streams_queue := [] |>
     <| pending_streams := [] |>
     <| blocked_stream_requests_bidi := [] |>
     <| blocked_stream_requests_uni := [] |>,
   effects ++ failures).

(** The part shared by every way a session ends, once the close fields are set:
    [pending_capsules.clear()] .. the loop over [pending_datagram_requests]. *)
Definition release (s : t) : t * list Effect.t :=
  let s := s <| pending_capsules := [] |> <| pending_datagrams := [] |> in
  let '(s, effects) := abort_streams s in
  (s <| pending_datagram_requests := [] |>,
   effects ++ (session_abort_failure <$> pending_datagram_requests s)).

Definition abort (s : t) (error_code : ErrorCode) (reason : str) (now : f64)
    : t * list Effect.t :=
  match state s with
  | SessionState.Closed | SessionState.Closing => (s, [])
  | _ =>
      let s := s <| close_code := Some error_code |>
                 <| close_reason := Some reason |>
                 <| closed_at := Some now |>
                 <| state := SessionState.Closed |> in
      let '(s, effects) := release s in
      (s, effects ++ [Effect.ResetQuicStream (id s) error_code;
                      session_closed_event s None (Some error_code) (Some reason)])
  end.

(** The effects that tell the peer about a local close. *)
Definition close_notice (s : t) (error_code : ErrorCode) (reason : option str) : Effect.t :=
  let text := default [] reason in
  if (error_code =? ERR_APP_NO_ERROR) && bool_decide (text = []) then
    Effect.SendQuicData (id s) [] true
  else
    let safe_limit := floor_char_boundary text (Z.to_nat WT_CLOSE_REASON_SIZE_LIMIT) in
    let code := default U32_MAX (u32_try_from error_code) in
    Effect.SendH3Capsule (id s) WT_CAPSULE_TYPE_CLOSE_SESSION
      (be_put 4 code ++ take safe_limit text) true.

Definition close (s : t) (request_id : RequestId) (error_code : ErrorCode)
    (reason : option str) (now : f64) : t * list Effect.t :=
  match state s with
  | SessionState.Closed | SessionState.Closing => (s, [request_done request_id])
  | _ =>
      let s := s <| close_code := Some error_code |>
                 <| close_reason := reason |>
                 <| closed_at := Some now |>
                 <| state := SessionState.Closing |> in
      let '(s, effects) := release s in
      (s, effects ++ [close_notice s error_code reason;
                      session_closed_event s None (Some error_code) reason;
                      request_done request_id])
  end.

Definition recv_connect_close (s : t) (error_code : ErrorCode) (reason : str) (now : f64)
    : t * list Effect.t :=
  match state s with
  | SessionState.Closed => (s, [])
  | SessionState.Closing => (s <| state := SessionState.Closed |>, [])
  | _ =>
      let s := s <| close_code := Some error_code |>
                 <| close_reason := Some reason |>
                 <| closed_at := Some now |>
                 <| state := SessionState.Closed |> in
      let '(s, effects) := release s in
      (s, effects ++ [session_closed_event s None (Some error_code) (Some reason)])
  end.

Definition status_header (status : bytes) : bytes * bytes := (b: ":status", status).

Definition reject (s : t) (request_id : RequestId) (headers : Headers) (status_code : Z)
    (now : f64) : t * list Effect.t :=
  if is_client s then
    (s, [request_failed request_id ErrorSource.Session None (b: "wt_session validate failed")])
  else if negb (bool_decide (state s = SessionState.Connecting)) then
    (s, [request_failed request_id ErrorSource.Session (Some ERR_LIB_SESSION_STATE_ERROR)
           (b: "wt_session validate failed")])
  else if negb ((300 <=? status_code) && (status_code <=? 599)) then
    (s, [request_failed request_id ErrorSource.Session None (b: "wt_session validate invalid")])
  else if negb (utils.is_valid_user_headers headers false) then
    (s, [request_failed request_id ErrorSource.Session None (b: "h3_headers validate invalid")])
  else
    let s := s <| close_reason := Some (b: "wt_session reject") |>
               <| closed_at := Some now |>
               <| state := SessionState.Closed |> in
    let '(s, effects) := release s in
    let response_headers := status_header (u16_to_string status_code) :: headers in
    (s, effects ++ [Effect.SendH3Headers (id s) response_headers true;
                    session_closed_event s (Some status_code) None
                      (Some (b: "wt_session reject"));
                    request_done request_id]).

(** ** Opening streams *)

Definition stream_opened_event (s : t) (stream_id : StreamId) (direction : StreamDirection.t)
    (is_peer_initiated : bool) : Effect.t :=
  Effect.EmitStreamEvent stream_id EventType.StreamOpened (Some (id s)) (Some direction)
    (Some is_peer_initiated) None.

Definition new_stream (s : t) (stream_id : StreamId) (direction : StreamDirection.t)
    (is_peer_initiated : bool) (now : f64) : Stream.t :=
  Stream.new stream_id (id s) direction is_peer_initiated
    {| StreamParameters.max_write_buffer_size := max_write_buffer_size s |} now.

Definition bind_stream (s : t) (stream_id : StreamId) (request_id : RequestId)
    (is_unidirectional : bool) (now : f64) : t * list Effect.t :=
  let direction := if is_unidirectional then StreamDirection.SendOnly
                   else StreamDirection.Bidirectional in
  if negb (is_active s) then
    (s, [Effect.ResetQuicStream stream_id ERR_WT_SESSION_GONE]
        ++ (if bool_decide (direction = StreamDirection.Bidirectional)
            then [Effect.StopQuicStream stream_id ERR_WT_SESSION_GONE] else [])
        ++ [request_failed request_id ErrorSource.Session (Some ERR_LIB_SESSION_STATE_ERROR)
              (b: "wt_session validate failed")])
  else
    let stream := new_stream s stream_id direction false now in
    (s <| streams := <[stream_id := stream]> (streams s) |>,
     [stream_opened_event s stream_id direction false;
      Effect.NotifyRequestDone request_id (RequestResult.StreamId stream_id)]).

Definition create_stream (s : t) (request_id : RequestId) (is_unidirectional : bool)
    : t * list Effect.t :=
  if negb (is_active s) then
    (s, [request_failed request_id ErrorSource.Session (Some ERR_LIB_SESSION_STATE_ERROR)
           (b: "wt_session validate failed")])
  else
    let limit_exceeded :=
      flow_control_negotiated s
      && (if is_unidirectional then peer_max_streams_uni s <=? local_streams_uni_opened s
          else peer_max_streams_bidi s <=? local_streams_bidi_opened s) in
    if limit_exceeded then
      let s := if is_unidirectional
               then s <| blocked_stream_requests_uni :=
                           blocked_stream_requests_uni s ++ [request_id] |>
               else s <| blocked_stream_requests_bidi :=
                           blocked_stream_requests_bidi s ++ [request_id] |> in
      let '(s, effect) := emit_streams_blocked s is_unidirectional in
      (s, option_list effect)
    else
      let s := if is_unidirectional
               then s <| local_streams_uni_opened := u64_add (local_streams_uni_opened s) 1 |>
               else s <| local_streams_bidi_opened := u64_add (local_streams_bidi_opened s) 1 |> in
      (s, [Effect.CreateQuicStream request_id (id s) is_unidirectional]).

Definition defer_stream (s : t) (request_id : RequestId) (is_unidirectional : bool)
    : t * list Effect.t :=
  if negb (is_active s) then
    (s, [request_failed request_id ErrorSource.Session (Some ERR_LIB_SESSION_STATE_ERROR)
           (b: "wt_session validate failed")])
  else if is_unidirectional then
    (s <| local_streams_uni_opened := u64_sub (local_streams_uni_opened s) 1 |>
       <| blocked_stream_requests_uni := blocked_stream_requests_uni s ++ [request_id] |>, [])
  else
    (s <| local_streams_bidi_opened := u64_sub (local_streams_bidi_opened s) 1 |>
       <| blocked_stream_requests_bidi := blocked_stream_requests_bidi s ++ [request_id] |>, []).

(** The loop of [flush_blocked_stream_requests]: the requests that now fit, the
    number of streams opened and the requests still blocked. *)
Fixpoint unblock_requests (negotiated : bool) (limit opened : Z) (requests : list RequestId)
    : Z * list RequestId * list RequestId :=
  match requests with
  | request_id :: rest =>
      if negb negotiated || (opened <? limit) then
        let '(opened, blocked, created) :=
          unblock_requests negotiated limit (u64_add opened 1) rest in
        (opened, blocked, request_id :: created)
      else (opened, requests, [])
  | [] => (opened, [], [])
  end.

Definition flush_blocked_stream_requests (s : t) (is_unidirectional : bool)
    : t * list Effect.t :=
  let '(opened, limit, blocked) :=
    if is_unidirectional
    then (local_streams_uni_opened s, peer_max_streams_uni s, blocked_stream_requests_uni s)
    else (local_streams_bidi_opened s, peer_max_streams_bidi s, blocked_stream_requests_bidi s) in
  let '(opened, blocked, unblocked) :=
    unblock_requests (flow_control_negotiated s) limit opened blocked in
  let s := if is_unidirectional
           then s <| local_streams_uni_opened := opened |>
                  <| blocked_stream_requests_uni := blocked |>
           else s <| local_streams_bidi_opened := opened |>
                  <| blocked_stream_requests_bidi := blocked |> in
  let effects :=
    (fun request_id => Effect.CreateQuicStream request_id (id s) is_unidirectional)
    <$> unblocked in
  let '(s, effect) := emit_streams_blocked s is_unidirectional in
  (s, effects ++ option_list effect).

(** Refuse a peer stream: reset our half when there is one, stop the peer's. *)
Definition refuse_stream (stream_id : StreamId) (direction : StreamDirection.t)
    (error_code : ErrorCode) : list Effect.t :=
  (if bool_decide (direction = StreamDirection.Bidirectional)
   then [Effect.ResetQuicStream stream_id error_code] else [])
  ++ [Effect.StopQuicStream stream_id error_code].

(** The tail of [handle_stream_opened], once the stream has been counted. *)
Definition register_stream (s : t) (stream_id : StreamId) (direction : StreamDirection.t)
    (now : f64) : t * list Effect.t :=
  if bool_decide (state s = SessionState.Connecting) then
    if max_pending_streams s <=? len (pending_streams s) then
      let '(s, effect) :=
        count_closed_stream s (bool_decide (direction = StreamDirection.ReceiveOnly)) in
      (s, refuse_stream stream_id direction ERR_WT_BUFFERED_STREAM_REJECTED
          ++ option_list effect)
    else
      let s := s <| pending_streams := pending_streams s ++ [stream_id] |> in
      let stream := new_stream s stream_id direction true now in
      (s <| streams := <[stream_id := stream]> (streams s) |>, [])
  else
    let stream := new_stream s stream_id direction true now in
    (s <| streams := <[stream_id := stream]> (streams s) |>,
     [stream_opened_event s stream_id direction true]).

(** Whether the peer has used up its stream credit for this direction. *)
Definition peer_streams_exhausted (s : t) (direction : StreamDirection.t) : bool :=
  flow_control_negotiated s
  && match direction with
     | StreamDirection.Bidirectional => local_max_streams_bidi s <=? peer_streams_bidi_opened s
     | StreamDirection.ReceiveOnly => local_max_streams_uni s <=? peer_streams_uni_opened s
     | StreamDirection.SendOnly => false
     end.

Definition count_opened_stream (s : t) (direction : StreamDirection.t) : t :=
  match direction with
  | StreamDirection.Bidirectional =>
      s <| peer_streams_bidi_opened := u64_add (peer_streams_bidi_opened s) 1 |>
  | StreamDirection.ReceiveOnly =>
      s <| peer_streams_uni_opened := u64_add (peer_streams_uni_opened s) 1 |>
  | StreamDirection.SendOnly => s
  end.

Definition handle_stream_opened (s : t) (stream_id : StreamId) (now : f64)
    : t * list Effect.t :=
  let direction := utils.stream_direction_from_id stream_id (is_client s) in
  if negb (is_active s) then (s, refuse_stream stream_id direction ERR_WT_SESSION_GONE)
  else if bool_decide (direction = StreamDirection.SendOnly) then (s, [])
  else if peer_streams_exhausted s direction then
    let '(s, abort_effects) :=
      abort s ERR_WT_FLOW_CONTROL_ERROR (b: "wt_session validate exceeded") now in
    (s, refuse_stream stream_id direction ERR_WT_SESSION_GONE ++ abort_effects)
  else register_stream (count_opened_stream s direction) stream_id direction now.

(** ** Stream data *)

(** Mark a stream as waiting for credit: [is_blocked && blocked_streams.insert(id)]
    followed by the push on the queue. *)
Definition note_blocked (s : t) (stream_id : StreamId) (is_blocked : bool) : t :=
  if is_blocked && negb (bool_decide (stream_id ∈ blocked_streams s)) then
    s <| blocked_streams := {[stream_id]} ∪ blocked_streams s |>
      <| blocked_streams_queue := blocked_streams_queue s ++ [stream_id] |>
  else s.

(** What [complete_stream_write] and [write_stream] do after the stream moved:
    count the bytes, note the stream if blocked, tell the peer. *)
Definition account_write (s : t) (stream_id : StreamId) (stream : Stream.t)
    (effects : list Effect.t) (sent : Z) : t * list Effect.t :=
  let s := s <| streams := <[stream_id := stream]> (streams s) |>
             <| data_sent := u64_add (data_sent s) sent |> in
  let s := note_blocked s stream_id (Stream.is_blocked stream) in
  let '(s, effect) := emit_data_blocked s in
  (s, effects ++ option_list effect).

Definition complete_stream_write (s : t) (stream_id : StreamId) : t * list Effect.t :=
  match streams s !! stream_id with
  | None => (s, [])
  | Some stream =>
      let '(stream, effects, sent) := Stream.complete_write stream (session_credit s) in
      account_write s stream_id stream effects sent
  end.

Definition write_stream (s : t) (stream_id : StreamId) (request_id : RequestId)
    (data : bytes) (end_stream : bool) : t * list Effect.t :=
  match streams s !! stream_id with
  | None =>
      if bool_decide (data = []) && end_stream then (s, [request_done request_id])
      else (s, [request_failed request_id ErrorSource.Stream (Some ERR_LIB_STREAM_STATE_ERROR)
                  (b: "wt_stream resolve failed")])
  | Some stream =>
      let '(stream, effects, sent) :=
        Stream.write stream request_id data end_stream (session_credit s) in
      account_write s stream_id stream effects sent
  end.

(** The loop of [flush_blocked_writes], [count] iterations. *)
Fixpoint flush_blocked_loop (s : t) (count : nat) : t * list Effect.t :=
  match count with
  | O => (s, [])
  | S count =>
      match blocked_streams_queue s with
      | [] => (s, [])
      | stream_id :: rest =>
          let s := s <| blocked_streams_queue := rest |>
                     <| blocked_streams := blocked_streams s ∖ {[stream_id]} |> in
          if session_credit s =? 0 then
            (s <| blocked_streams_queue := stream_id :: blocked_streams_queue s |>
               <| blocked_streams := {[stream_id]} ∪ blocked_streams s |>, [])
          else match streams s !! stream_id with
          | None => flush_blocked_loop s count
          | Some stream =>
              let '(stream, stream_effects, sent) :=
                Stream.flush_writes stream (session_credit s) in
              let s := s <| streams := <[stream_id := stream]> (streams s) |>
                         <| data_sent := u64_add (data_sent s) sent |> in
              let s := if Stream.is_blocked stream
                       then s <| blocked_streams_queue := blocked_streams_queue s ++ [stream_id] |>
                              <| blocked_streams := {[stream_id]} ∪ blocked_streams s |>
                       else s in
              let '(s, effects) := flush_blocked_loop s count in
              (s, stream_effects ++ effects)
          end
      end
  end.

Definition flush_blocked_writes (s : t) : t * list Effect.t :=
  if flow_control_negotiated s && (peer_max_data s <=? data_sent s) then (s, [])
  else
    let '(s, effects) := flush_blocked_loop s (length (blocked_streams_queue s)) in
    let '(s, effect) := emit_data_blocked s in
    (s, effects ++ option_list effect).

Definition handle_stream_data_acknowledged (s : t) (stream_id : StreamId)
    : t * list Effect.t :=
  match streams s !! stream_id with
  | None => (s, [])
  | Some stream =>
      let s := s <| streams :=
                      <[stream_id := Stream.handle_data_acknowledged stream]> (streams s) |> in
      handle_closed s stream_id
  end.

Definition read_stream (s : t) (stream_id : StreamId) (request_id : RequestId) (max_bytes : Z)
    : t * list Effect.t :=
  match streams s !! stream_id with
  | None =>
      (s, [request_failed request_id ErrorSource.Stream (Some ERR_LIB_STREAM_STATE_ERROR)
             (b: "wt_stream resolve failed")])
  | Some stream =>
      let '(stream, effects) := Stream.read stream request_id max_bytes in
      let s := s <| streams := <[stream_id := stream]> (streams s) |> in
      let '(s, closed_effects) := handle_closed s stream_id in
      (s, effects ++ closed_effects)
  end.

Definition recv_stream_data (s : t) (stream_id : StreamId) (data : bytes) (end_stream : bool)
    (now : f64) : t * list Effect.t :=
  match streams s !! stream_id with
  | None => (s, [])
  | Some stream =>
      let data_len := len data in
      let s := s <| data_received := u64_add (data_received s) data_len |> in
      if flow_control_negotiated s && (local_max_data s <? data_received s) then
        abort s ERR_WT_FLOW_CONTROL_ERROR (b: "wt_session validate exceeded") now
      else
        let '(stream, effects) := Stream.recv_data stream data end_stream in
        let s := s <| streams := <[stream_id := stream]> (streams s) |>
                   <| data_consumed := u64_add (data_consumed s) data_len |> in
        let '(s, credit_effect) := replenish_data_credit s false in
        let '(s, closed_effects) := handle_closed s stream_id in
        (s, effects ++ option_list credit_effect ++ closed_effects)
  end.

Definition recv_stop_sending (s : t) (stream_id : StreamId) (error_code : ErrorCode)
    : t * list Effect.t :=
  match streams s !! stream_id with
  | None => (s, [])
  | Some stream =>
      let '(stream, stream_effects) := Stream.recv_stop_sending stream error_code in
      let s := s <| streams := <[stream_id := stream]> (streams s) |> in
      let effects := suppress_pending_stream_events s stream_id stream_effects in
      let '(s, closed_effects) := handle_closed s stream_id in
      (s, effects ++ closed_effects)
  end.

Definition recv_stream_reset (s : t) (stream_id : StreamId) (error_code : ErrorCode)
    : t * list Effect.t :=
  match streams s !! stream_id with
  | None => (s, [])
  | Some stream =>
      let '(stream, stream_effects) := Stream.recv_reset stream error_code in
      let s := s <| streams := <[stream_id := stream]> (streams s) |> in
      let effects := suppress_pending_stream_events s stream_id stream_effects in
      let '(s, closed_effects) := handle_closed s stream_id in
      (s, effects ++ closed_effects)
  end.

Definition reset_stream (s : t) (stream_id : StreamId) (request_id : RequestId)
    (error_code : ErrorCode) : t * list Effect.t :=
  match streams s !! stream_id with
  | None => (s, [request_done request_id])
  | Some stream =>
      let '(stream, effects) := Stream.reset stream request_id error_code in
      let s := s <| streams := <[stream_id := stream]> (streams s) |> in
      let '(s, closed_effects) := handle_closed s stream_id in
      (s, effects ++ closed_effects)
  end.

Definition stop_stream (s : t) (stream_id : StreamId) (request_id : RequestId)
    (error_code : ErrorCode) : t * list Effect.t :=
  match streams s !! stream_id with
  | None => (s, [request_done request_id])
  | Some stream =>
      let '(stream, effects) := Stream.stop stream request_id error_code in
      let s := s <| streams := <[stream_id := stream]> (streams s) |> in
      let '(s, closed_effects) := handle_closed s stream_id in
      (s, effects ++ closed_effects)
  end.

(** ** Datagrams *)

Definition read_datagram (s : t) (request_id : RequestId) : t * list Effect.t :=
  if negb (is_active s) then
    (s, [request_failed request_id ErrorSource.Session (Some ERR_LIB_SESSION_STATE_ERROR)
           (b: "wt_session validate failed")])
  else
    let wait :=
      (s <| pending_datagram_requests := pending_datagram_requests s ++ [request_id] |>, []) in
    if negb (bool_decide (state s = SessionState.Connecting)) then
      match pending_datagrams s with
      | data :: rest =>
          (s <| pending_datagrams := rest |>,
           [Effect.NotifyRequestDone request_id (RequestResult.Datagram data)])
      | [] => wait
      end
    else wait.

Definition recv_datagram (s : t) (data : bytes) : t * list Effect.t :=
  if negb (is_active s) then (s, [])
  else
    let store :=
      if max_pending_datagrams s <=? len (pending_datagrams s) then (s, [])
      else (s <| pending_datagrams := pending_datagrams s ++ [data] |>, []) in
    if negb (bool_decide (state s = SessionState.Connecting)) then
      match pending_datagram_requests s with
      | request_id :: rest =>
          (s <| pending_datagram_requests := rest |>,
           [Effect.NotifyRequestDone request_id (RequestResult.Datagram data)])
      | [] => store
      end
    else store.

Definition send_datagram (s : t) (request_id : RequestId) (data : bytes)
    (peer_max_datagram_frame_size : Z) : list Effect.t :=
  if negb (is_active s) then
    [request_failed request_id ErrorSource.Session (Some ERR_LIB_SESSION_STATE_ERROR)
       (b: "wt_session validate failed")]
  else
    let quarter_stream_id := id s / 4 in
    let header_size := utils.varint_size quarter_stream_id in
    let max_allowed_payload := saturating_sub peer_max_datagram_frame_size header_size in
    if max_allowed_payload <? len data then
      [request_failed request_id ErrorSource.Datagram None (b: "wt_datagram validate exceeded")]
    else [Effect.SendH3Datagram (id s) data; request_done request_id].

(** ** Capsules

    One definition per arm of [recv_capsule], then the handler. *)

Definition recv_close_session (s : t) (capsule_value : bytes) (now : f64)
    : t * list Effect.t :=
  if len capsule_value <? 4 then
    abort s ERR_H3_MESSAGE_ERROR (b: "wt_capsule validate invalid") now
  else
    let error_code := be_get (take 4 capsule_value) in
    let reason := drop 4 capsule_value in
    if WT_CLOSE_REASON_SIZE_LIMIT <? len reason then
      abort s ERR_H3_MESSAGE_ERROR (b: "wt_capsule validate exceeded") now
    else if negb (utf8_valid reason) then
      abort s ERR_H3_MESSAGE_ERROR (b: "wt_capsule validate invalid") now
    else
      let s := s <| close_code := Some error_code |>
                 <| close_reason := Some reason |>
                 <| closed_at := Some now |>
                 <| state := SessionState.Closed |> in
      let '(s, effects) := release s in
      (s, effects ++ [Effect.SendQuicData (id s) [] true;
                      session_closed_event s None (Some error_code) (Some reason)]).

Definition recv_data_blocked (s : t) : t * list Effect.t :=
  match replenish_data_credit s true with
  | (s, Some credit_effect) => (s, [credit_effect])
  | (s, None) => (s, [session_event s EventType.SessionDataBlocked])
  end.

Definition max_data_event (s : t) (max_data : Z) : Effect.t :=
  Effect.EmitSessionEvent (id s) EventType.SessionMaxDataUpdated
    None None None None None None (Some max_data) None None None None None.

Definition recv_max_data (s : t) (capsule_value : bytes) (now : f64) : t * list Effect.t :=
  match utils.read_varint capsule_value with
  | Err _ => abort s ERR_H3_GENERAL_PROTOCOL_ERROR (b: "varint decode invalid") now
  | Ok (max_data, _) =>
      if peer_max_data s <? max_data then
        let s := s <| peer_max_data := max_data |> in
        let event := max_data_event s max_data in
        let '(s, effects) := flush_blocked_writes s in
        (s, event :: effects)
      else abort s ERR_WT_FLOW_CONTROL_ERROR (b: "wt_session validate failed") now
  end.

Definition max_streams_event (s : t) (event_type : EventType.t) (max_streams : Z) : Effect.t :=
  Effect.EmitSessionEvent (id s) event_type
    None None None None None None None (Some max_streams) None None None None.

Definition recv_max_streams_bidi (s : t) (capsule_value : bytes) (now : f64)
    : t * list Effect.t :=
  match utils.read_varint capsule_value with
  | Err _ => abort s ERR_H3_GENERAL_PROTOCOL_ERROR (b: "varint decode invalid") now
  | Ok (max_streams, _) =>
      if WT_STREAMS_LIMIT <? max_streams then
        abort s ERR_WT_FLOW_CONTROL_ERROR (b: "wt_session validate exceeded") now
      else if peer_max_streams_bidi s <? max_streams then
        let s := s <| peer_max_streams_bidi := max_streams |> in
        let event := max_streams_event s EventType.SessionMaxStreamsBidiUpdated max_streams in
        let '(s, effects) := flush_blocked_stream_requests s false in
        (s, event :: effects)
      else abort s ERR_WT_FLOW_CONTROL_ERROR (b: "wt_session validate failed") now
  end.

Definition recv_max_streams_uni (s : t) (capsule_value : bytes) (now : f64)
    : t * list Effect.t :=
  match utils.read_varint capsule_value with
  | Err _ => abort s ERR_H3_GENERAL_PROTOCOL_ERROR (b: "varint decode invalid") now
  | Ok (max_streams, _) =>
      if WT_STREAMS_LIMIT <? max_streams then
        abort s ERR_WT_FLOW_CONTROL_ERROR (b: "wt_session validate exceeded") now
      else if peer_max_streams_uni s <? max_streams then
        let s := s <| peer_max_streams_uni := max_streams |> in
        let event := max_streams_event s EventType.SessionMaxStreamsUniUpdated max_streams in
        let '(s, effects) := flush_blocked_stream_requests s true in
        (s, event :: effects)
      else abort s ERR_WT_FLOW_CONTROL_ERROR (b: "wt_session validate failed") now
  end.

Definition recv_streams_blocked (s : t) (is_unidirectional : bool) (capsule_value : bytes)
    (now : f64) : t * list Effect.t :=
  match utils.read_varint capsule_value with
  | Err _ => abort s ERR_H3_GENERAL_PROTOCOL_ERROR (b: "varint decode invalid") now
  | Ok (peer_reported_limit, _) =>
      if WT_STREAMS_LIMIT <? peer_reported_limit then
        abort s ERR_WT_FLOW_CONTROL_ERROR (b: "wt_session validate exceeded") now
      else match replenish_streams_credit s is_unidirectional true with
      | (s, Some credit_effect) => (s, [credit_effect])
      | (s, None) =>
          (s, [Effect.EmitSessionEvent (id s) EventType.SessionStreamsBlocked
                 None None None None None (Some is_unidirectional)
                 None None None None None None])
      end
  end.

(** The capsules only allowed once flow control has been negotiated. *)
Definition is_flow_control_capsule (capsule_type : Z) : bool :=
  (capsule_type =? WT_CAPSULE_TYPE_DATA_BLOCKED)
  || (capsule_type =? WT_CAPSULE_TYPE_MAX_DATA)
  || (capsule_type =? WT_CAPSULE_TYPE_MAX_STREAMS_BIDI)
  || (capsule_type =? WT_CAPSULE_TYPE_MAX_STREAMS_UNI)
  || (capsule_type =? WT_CAPSULE_TYPE_STREAMS_BLOCKED_BIDI)
  || (capsule_type =? WT_CAPSULE_TYPE_STREAMS_BLOCKED_UNI).

(** The [match capsule_type] of [recv_capsule]. *)
Definition dispatch_capsule (s : t) (capsule_type : Z) (capsule_value : bytes) (now : f64)
    : t * list Effect.t :=
  if capsule_type =? WT_CAPSULE_TYPE_CLOSE_SESSION then recv_close_session s capsule_value now
  else if capsule_type =? WT_CAPSULE_TYPE_DATA_BLOCKED then recv_data_blocked s
  else if (capsule_type =? WT_CAPSULE_TYPE_DRAIN_SESSION)
          && bool_decide (state s = SessionState.Connected) then
    let s := s <| state := SessionState.Draining |> in
    (s, [session_event s EventType.SessionDraining])
  else if capsule_type =? WT_CAPSULE_TYPE_MAX_DATA then recv_max_data s capsule_value now
  else if (capsule_type =? WT_CAPSULE_TYPE_MAX_STREAM_DATA)
          || (capsule_type =? WT_CAPSULE_TYPE_STREAM_DATA_BLOCKED) then
    abort s ERR_H3_FRAME_UNEXPECTED (b: "wt_session validate failed") now
  else if capsule_type =? WT_CAPSULE_TYPE_MAX_STREAMS_BIDI then
    recv_max_streams_bidi s capsule_value now
  else if capsule_type =? WT_CAPSULE_TYPE_MAX_STREAMS_UNI then
    recv_max_streams_uni s capsule_value now
  else if (capsule_type =? WT_CAPSULE_TYPE_STREAMS_BLOCKED_BIDI)
          || (capsule_type =? WT_CAPSULE_TYPE_STREAMS_BLOCKED_UNI) then
    recv_streams_blocked s (capsule_type =? WT_CAPSULE_TYPE_STREAMS_BLOCKED_UNI)
      capsule_value now
  else (s, []).

Definition recv_capsule (s : t) (capsule_type : Z) (capsule_value : bytes) (now : f64)
    : t * list Effect.t :=
  match state s with
  | SessionState.Connecting =>
      if max_pending_capsules s <=? len (pending_capsules s) then
        abort s ERR_H3_EXCESSIVE_LOAD (b: "wt_session validate exceeded") now
      else
        (s <| pending_capsules := pending_capsules s ++ [(capsule_type, capsule_value)] |>, [])
  | SessionState.Closing => (s, [])
  | SessionState.Closed => (s, [Effect.ResetQuicStream (id s) ERR_H3_MESSAGE_ERROR])
  | SessionState.Connected | SessionState.Draining =>
      if negb (flow_control_negotiated s) && is_flow_control_capsule capsule_type then (s, [])
      else dispatch_capsule s capsule_type capsule_value now
  end.

(** ** Establishing the session *)

(** The first loop of [replay_pending_queues]; the flag says whether it ran to the
    end of the queue instead of returning early. *)
Fixpoint replay_capsules (s : t) (fuel : nat) (now : f64) : t * list Effect.t * bool :=
  match pending_capsules s with
  | [] => (s, [], true)
  | (capsule_type, capsule_value) :: rest =>
      match fuel with
      | O => (s, [], false)
      | S fuel =>
          let s := s <| pending_capsules := rest |> in
          let '(s, effects) := recv_capsule s capsule_type capsule_value now in
          if negb (bool_decide (state s = SessionState.Connected)) then (s, effects, false)
          else
            let '(s, rest_effects, finished) := replay_capsules s fuel now in
            (s, effects ++ rest_effects, finished)
      end
  end.

(** The second loop: waiting datagram requests take the buffered datagrams. *)
Fixpoint replay_datagrams (s : t) (fuel : nat) : t * list Effect.t :=
  match pending_datagram_requests s, pending_datagrams s, fuel with
  | _ :: _, data :: rest, S fuel =>
      let s := s <| pending_datagrams := rest |> in
      let '(s, effects) := recv_datagram s data in
      let '(s, rest_effects) := replay_datagrams s fuel in
      (s, effects ++ rest_effects)
  | _, _, _ => (s, [])
  end.

(** The third loop: announce the streams opened before the session was ready. *)
Definition replay_streams (s : t) : t * list Effect.t :=
  (s <| pending_streams := [] |>,
   omap (fun stream_id =>
           if has_stream s stream_id then
             Some (stream_opened_event s stream_id
                     (utils.stream_direction_from_id stream_id (is_client s)) true)
           else None)
        (pending_streams s)).

Definition replay_pending_queues (s : t) (now : f64) : t * list Effect.t :=
  let '(s, effects, finished) := replay_capsules s (length (pending_capsules s)) now in
  if negb finished then (s, effects)
  else
    let '(s, datagram_effects) := replay_datagrams s (length (pending_datagrams s)) in
    let '(s, stream_effects) := replay_streams s in
    (s, effects ++ datagram_effects ++ stream_effects).

(** The header naming the accepted subprotocol, or the reason it is refused. *)
Definition protocol_header (s : t) (wt_protocol : option str) : result Headers str :=
  match wt_protocol with
  | None => Ok []
  | Some protocol =>
      match utils.encode_wt_protocol_list [protocol] with
      | Err _ => Err (b: "wt_protocol encode failed")
      | Ok encoded =>
          if match wt_available_protocols s with
             | Some protocols => bool_decide (protocol ∈ protocols)
             | None => false
             end
          then Ok [(WT_PROTOCOL, encoded)]
          else Err (b: "wt_protocol validate invalid")
      end
  end.

Definition accept (s : t) (request_id : RequestId) (headers : Headers)
    (protocol : option str) (now : f64) : t * list Effect.t :=
  if is_client s then
    (s, [request_failed request_id ErrorSource.Session None (b: "wt_session validate failed")])
  else if negb (bool_decide (state s = SessionState.Connecting)) then
    (s, [request_failed request_id ErrorSource.Session (Some ERR_LIB_SESSION_STATE_ERROR)
           (b: "wt_session validate failed")])
  else if negb (utils.is_valid_user_headers headers false) then
    (s, [request_failed request_id ErrorSource.Session None (b: "h3_headers validate invalid")])
  else match protocol_header s protocol with
  | Err reason => (s, [request_failed request_id ErrorSource.Session None reason])
  | Ok protocol_headers =>
      let response_headers := status_header (b: "200") :: headers ++ protocol_headers in
      let s := s <| ready_at := Some now |>
                 <| wt_protocol := protocol |>
                 <| state := SessionState.Connected |> in
      let ready :=
        Effect.EmitSessionEvent (id s) EventType.SessionReady
          None None None protocol None None None None (Some now) None None None in
      let effects :=
        [Effect.SendH3Headers (id s) response_headers false; ready; request_done request_id] in
      let '(s, replayed) := replay_pending_queues s now in
      (s, effects ++ replayed)
  end.

Definition confirm (s : t) (protocol : option str) (now : f64) : t * list Effect.t :=
  if negb (bool_decide (state s = SessionState.Connecting)) then (s, [])
  else
    let s := s <| ready_at := Some now |>
               <| wt_protocol := protocol |>
               <| state := SessionState.Connected |> in
    let ready :=
      Effect.EmitSessionEvent (id s) EventType.SessionReady
        (Some (path s)) (Some (headers s)) None protocol None None None None (Some now)
        None None None in
    let '(s, replayed) := replay_pending_queues s now in
    (s, ready :: replayed).

Definition drain (s : t) : t * list Effect.t :=
  if negb (bool_decide (state s = SessionState.Connected)) then (s, [])
  else
    let s := s <| state := SessionState.Draining |> in
    (s, [Effect.SendH3Capsule (id s) WT_CAPSULE_TYPE_DRAIN_SESSION [] false;
         session_event s EventType.SessionDraining]).

(** ** Queries *)

Definition export_keying_material (s : t) (request_id : RequestId) (label : str)
    (context : bytes) (length : Z) : list Effect.t :=
  match state s with
  | SessionState.Connected | SessionState.Draining =>
      if (U8_MAX <? len label) || (U8_MAX <? len context) then
        [request_failed request_id ErrorSource.Session None (b: "wt_session validate invalid")]
      else
        let label_len := default U8_MAX (u8_try_from (len label)) in
        let context_len := default U8_MAX (u8_try_from (len context)) in
        let exporter_context :=
          be_put 8 (id s) ++ be_put 1 label_len ++ label ++ be_put 1 context_len ++ context in
        [Effect.ExportTlsKeyingMaterial request_id WT_EXPORTER_LABEL exporter_context length]
  | _ =>
      [request_failed request_id ErrorSource.Session (Some ERR_LIB_SESSION_STATE_ERROR)
         (b: "wt_session validate failed")]
  end.

Definition diagnostics_snapshot (s : t) : SessionDiagnostics.t := {|
  SessionDiagnostics.close_code := close_code s;
  SessionDiagnostics.close_reason := close_reason s;
  SessionDiagnostics.closed_at := closed_at s;
  SessionDiagnostics.created_at := created_at s;
  SessionDiagnostics.data_consumed := data_consumed s;
  SessionDiagnostics.data_received := data_received s;
  SessionDiagnostics.data_sent := data_sent s;
  SessionDiagnostics.flow_control_negotiated := flow_control_negotiated s;
  SessionDiagnostics.headers := headers s;
  SessionDiagnostics.is_client := is_client s;
  SessionDiagnostics.local_max_data := local_max_data s;
  SessionDiagnostics.local_max_streams_bidi := local_max_streams_bidi s;
  SessionDiagnostics.local_max_streams_uni := local_max_streams_uni s;
  SessionDiagnostics.local_streams_bidi_opened := local_streams_bidi_opened s;
  SessionDiagnostics.local_streams_uni_opened := local_streams_uni_opened s;
  SessionDiagnostics.path := path s;
  SessionDiagnostics.peer_max_data := peer_max_data s;
  SessionDiagnostics.peer_max_streams_bidi := peer_max_streams_bidi s;
  SessionDiagnostics.peer_max_streams_uni := peer_max_streams_uni s;
  SessionDiagnostics.peer_streams_bidi_closed := peer_streams_bidi_closed s;
  SessionDiagnostics.peer_streams_bidi_opened := peer_streams_bidi_opened s;
  SessionDiagnostics.peer_streams_uni_closed := peer_streams_uni_closed s;
  SessionDiagnostics.peer_streams_uni_opened := peer_streams_uni_opened s;
  SessionDiagnostics.ready_at := ready_at s;
  SessionDiagnostics.session_id := id s;
  SessionDiagnostics.state := state s;
  SessionDiagnostics.wt_available_protocols := wt_available_protocols s;
  SessionDiagnostics.wt_protocol := wt_protocol s;
|}.

Definition diagnose (s : t) (request_id : RequestId) : list Effect.t :=
  [Effect.NotifyRequestDone request_id
     (RequestResult.SessionDiagnostics (diagnostics_snapshot s))].

Definition diagnose_stream (s : t) (stream_id : StreamId) (request_id : RequestId)
    : list Effect.t :=
  match streams s !! stream_id with
  | Some stream => Stream.diagnose stream request_id
  | None =>
      [request_failed request_id ErrorSource.Stream (Some ERR_LIB_STREAM_STATE_ERROR)
         (b: "wt_stream resolve failed")]
  end.

End Session.
