(* ===== verification/SessionProps.v ===== *)
(** * Properties of the session state machine

    The well-formedness invariant of a session, its preservation by every
    operation, and what holds of every session reachable in any order of user,
    peer and transport events: flow control in both directions, stream limits,
    bounded queues, requests answered exactly once, nothing left behind by a
    closed session, and no write left waiting while there is credit. *)

From S2P Require Import Prelude.
From S2P Require Import Types.
From S2P Require Import Events.
From S2P Require Import Utils.
From S2P Require Import UtilsProps.
From S2P Require Import StreamMachine.
From S2P Require Import StreamProps.
From S2P Require Import SessionMachine.

Module SessionP.
Import Session.

(** ** Counting the streams of a map *)

Definition count {A} (p : StreamId -> bool) (m : gmap StreamId A) : Z :=
  Z.of_nat (size (filter (fun x => p x.1 = true) m)).

Section count.
Context {A : Type} (p : StreamId -> bool).
Implicit Types (m : gmap StreamId A).

Lemma count_empty : count p (∅ : gmap StreamId A) = 0.
Proof. unfold count. by rewrite map_filter_empty, map_size_empty. Qed.

Lemma count_nonneg m : 0 <= count p m.
Proof. unfold count. lia. Qed.

Lemma count_insert_new m i x :
  m !! i = None -> count p (<[i:=x]> m) = count p m + (if p i then 1 else 0).
Proof.
  intros Hi. unfold count. destruct (p i) eqn:E.
  - rewrite map_filter_insert_True by done. rewrite map_size_insert_None; [lia|].
    by rewrite map_lookup_filter, Hi.
  - rewrite map_filter_insert_False by (simpl; congruence).
    rewrite delete_id by done. lia.
Qed.

Lemma count_delete m i x :
  m !! i = Some x -> count p (delete i m) = count p m - (if p i then 1 else 0).
Proof.
  intros Hi. rewrite <- (insert_delete_id m i x Hi) at 2.
  rewrite count_insert_new by apply lookup_delete_eq. lia.
Qed.

Lemma count_update m i x y : m !! i = Some x -> count p (<[i:=y]> m) = count p m.
Proof.
  intros Hi. rewrite <- (insert_delete_eq m i y).
  rewrite count_insert_new by apply lookup_delete_eq. rewrite (count_delete m i x Hi). lia.
Qed.
End count.

(** ** The requests a session holds *)

Definition stream_requests (m : gmap StreamId Stream.t) : list RequestId :=
  concat (StreamP.outstanding <$> (map_to_list m).*2).

Definition requests (s : t) : list RequestId :=
  stream_requests (streams s) ++ blocked_stream_requests_bidi s
  ++ blocked_stream_requests_uni s ++ pending_datagram_requests s.

Lemma concat_permutation {A} (l k : list (list A)) : l ≡ₚ k -> concat l ≡ₚ concat k.
Proof.
  induction 1 as [|x l k _ IH|x y l|l k h _ IH1 _ IH2]; simpl; [done| | |by etrans].
  - by rewrite IH.
  - rewrite !app_assoc. f_equiv. apply Permutation_app_comm.
Qed.

Lemma stream_requests_insert m i st :
  m !! i = None ->
  stream_requests (<[i:=st]> m) ≡ₚ StreamP.outstanding st ++ stream_requests m.
Proof.
  intros Hi. unfold stream_requests. etrans; [|reflexivity].
  apply (concat_permutation _ (StreamP.outstanding st :: _)).
  by rewrite (map_to_list_insert m i st Hi).
Qed.

Lemma stream_requests_delete m i st :
  m !! i = Some st ->
  stream_requests m ≡ₚ StreamP.outstanding st ++ stream_requests (delete i m).
Proof.
  intros Hi. rewrite <- (insert_delete_id m i st Hi) at 1.
  apply stream_requests_insert, lookup_delete_eq.
Qed.

Lemma stream_requests_update m i st :
  stream_requests (<[i:=st]> m) ≡ₚ StreamP.outstanding st ++ stream_requests (delete i m).
Proof. rewrite <- insert_delete_eq. apply stream_requests_insert, lookup_delete_eq. Qed.

Lemma stream_requests_empty : stream_requests ∅ = [].
Proof. unfold stream_requests. by rewrite map_to_list_empty. Qed.

(** ** What the auxiliary operations change

    Each lemma writes the resulting session as an explicit update, so that the
    fields an operation does not name are unchanged by computation. *)

Lemma emit_data_blocked_eq s s' e :
  emit_data_blocked s = (s', e) ->
  exists v, s' = s <| last_data_blocked_sent := v |> /\ Forall quiet (option_list e).
Proof.
  unfold emit_data_blocked. intros H.
  assert (Hid : s = s <| last_data_blocked_sent := last_data_blocked_sent s |>) by by destruct s.
  destruct (negb _); [injection H as <- <-; by eexists|].
  destruct (_ && _); [|injection H as <- <-; by eexists].
  destruct (utils.write_varint _ _); injection H as <- <-; eexists; split; try done;
    by repeat constructor.
Qed.

Lemma emit_streams_blocked_eq s u s' e :
  emit_streams_blocked s u = (s', e) ->
  exists v w, s' = s <| last_streams_blocked_bidi_sent := v |>
                     <| last_streams_blocked_uni_sent := w |>
  /\ Forall quiet (option_list e).
Proof.
  unfold emit_streams_blocked. intros H.
  assert (Hid : s = s <| last_streams_blocked_bidi_sent := last_streams_blocked_bidi_sent s |>
                      <| last_streams_blocked_uni_sent := last_streams_blocked_uni_sent s |>)
    by by destruct s.
  destruct (negb (flow_control_negotiated s)); [injection H as <- <-; by eexists _, _|].
  destruct u; (destruct (_ || _); [injection H as <- <-; by eexists _, _|]);
    destruct (utils.write_varint _ _); injection H as <- <-; try (by eexists _, _).
  - eexists (last_streams_blocked_bidi_sent s), _. split; [done|by repeat constructor].
  - eexists _, (last_streams_blocked_uni_sent s). split; [done|by repeat constructor].
Qed.

Lemma replenish_data_credit_eq s force s' e :
  replenish_data_credit s force = (s', e) ->
  exists m, s' = s <| local_max_data := m |> /\ Forall quiet (option_list e)
  /\ (m = local_max_data s
      \/ flow_control_negotiated s = true
         /\ m = saturating_add (data_consumed s) (receive_window s)
         /\ saturating_add (local_max_data s) (if force then 0 else receive_window s / 2) < m
         /\ m <= QUIC_VARINT_LIMIT).
Proof.
  unfold replenish_data_credit. intros H.
  assert (Hid : s = s <| local_max_data := local_max_data s |>) by by destruct s.
  destruct (flow_control_negotiated s); simpl in H; [|injection H as <- <-; eexists; by eauto].
  destruct (negb _); [injection H as <- <-; eexists; by eauto|].
  destruct (_ <=? _) eqn:Hle; [injection H as <- <-; eexists; by eauto|].
  destruct (utils.write_varint _ _) eqn:Hw; injection H as <- <-; [|eexists; by eauto].
  apply write_varint_limit in Hw. bool_to_prop.
  eexists. split; [done|]. split; [by repeat constructor|]. right. auto.
Qed.

(** Per-direction views of the counters. *)
Definition peer_closed (u : bool) (s : t) : Z :=
  if u then peer_streams_uni_closed s else peer_streams_bidi_closed s.
Definition peer_opened (u : bool) (s : t) : Z :=
  if u then peer_streams_uni_opened s else peer_streams_bidi_opened s.
Definition local_max (u : bool) (s : t) : Z :=
  if u then local_max_streams_uni s else local_max_streams_bidi s.
Definition initial_max (u : bool) (s : t) : Z :=
  if u then initial_max_streams_uni s else initial_max_streams_bidi s.
Definition local_opened (u : bool) (s : t) : Z :=
  if u then local_streams_uni_opened s else local_streams_bidi_opened s.
Definition peer_max (u : bool) (s : t) : Z :=
  if u then peer_max_streams_uni s else peer_max_streams_bidi s.
Definition blocked_requests (u : bool) (s : t) : list RequestId :=
  if u then blocked_stream_requests_uni s else blocked_stream_requests_bidi s.

Lemma replenish_streams_credit_eq s u force s' e :
  replenish_streams_credit s u force = (s', e) ->
  exists mb mu, s' = s <| local_max_streams_bidi := mb |> <| local_max_streams_uni := mu |>
  /\ Forall quiet (option_list e)
  /\ (local_max (negb u) s' = local_max (negb u) s)
  /\ (local_max u s' = local_max u s
      \/ flow_control_negotiated s = true /\ may_send_credit s = true
         /\ local_max u s' = saturating_add (peer_closed u s) (initial_max u s)
         /\ local_max u s < local_max u s').
Proof.
  unfold replenish_streams_credit. intros H.
  assert (Hid : s = s <| local_max_streams_bidi := local_max_streams_bidi s |>
                      <| local_max_streams_uni := local_max_streams_uni s |>) by by destruct s.
  destruct (flow_control_negotiated s); simpl in H;
    [|injection H as <- <-; eexists _, _; by eauto].
  destruct (may_send_credit s); simpl in H; [|injection H as <- <-; eexists _, _; by eauto].
  destruct u; (destruct (_ || _) eqn:Hg; [injection H as <- <-; eexists _, _; by eauto|]);
    destruct (utils.write_varint _ _); injection H as <- <-; try (by eexists _, _; eauto).
  - eexists (local_max_streams_bidi s), _. split; [done|]. split; [by repeat constructor|].
    split; [done|]. right. bool_to_prop. simpl. auto.
  - eexists _, (local_max_streams_uni s). split; [done|]. split; [by repeat constructor|].
    split; [done|]. right. bool_to_prop. simpl. auto.
Qed.

(** ** The invariant *)

(** A stream a session holds: well-formed, filed under its own identifier and
    still open in at least one direction. *)
Record live (i : StreamId) (st : Stream.t) : Prop := {
  live_wf : StreamP.wf st;
  live_id : Stream.id st = i;
  live_open : Stream.is_closed st = false;
  live_acked : StreamP.acked st;
}.

(** The streams of one direction opened by the peer. *)
Definition is_peer_stream (is_client u : bool) (i : StreamId) : bool :=
  utils.is_peer_initiated_stream i is_client && Bool.eqb (utils.is_unidirectional_stream i) u.

Definition peer_streams (u : bool) (s : t) : Z :=
  count (is_peer_stream (is_client s) u) (streams s).

(** Data flow control, both ways. *)
Record wf_data (s : t) : Prop := {
  data_sent_limit : 0 <= data_sent s <= peer_max_data s /\ peer_max_data s <= QUIC_VARINT_LIMIT;
  data_received_limit : is_active s = true ->
    0 <= data_received s <= local_max_data s /\ data_consumed s = data_received s
    /\ local_max_data s <= QUIC_VARINT_LIMIT;
  data_window : 0 <= receive_window s <= U64_MAX;
}.

(** Stream flow control, in one direction. *)
Record wf_limits (u : bool) (s : t) : Prop := {
  limits_local : 0 <= local_opened u s <= peer_max u s /\ peer_max u s <= U64_MAX;
  limits_peer_count : peer_opened u s = peer_closed u s + peer_streams u s;
  limits_peer_closed : 0 <= peer_closed u s;
  limits_peer_opened : peer_opened u s <= local_max u s <= U64_MAX;
  limits_peer_max : local_max u s <= peer_closed u s + initial_max u s;
}.

Record wf (s : t) : Prop := {
  wf_streams : forall i st, streams s !! i = Some st -> live i st;
  wf_buffer : 0 <= max_write_buffer_size s <= ISIZE_MAX;
  wf_ended : is_active s = false ->
    streams s = ∅ /\ requests s = [] /\ pending_streams s = [] /\ pending_capsules s = []
    /\ pending_datagrams s = [] /\ blocked_streams s = ∅ /\ blocked_streams_queue s = [];
  wf_blocked : forall i st, streams s !! i = Some st -> Stream.is_blocked st = true ->
    i ∈ blocked_streams s;
  wf_queue : forall i, i ∈ blocked_streams s -> i ∈ blocked_streams_queue s;
  wf_flow_data : flow_control_negotiated s = true -> wf_data s;
  wf_flow_streams : flow_control_negotiated s = true -> forall u, wf_limits u s;
  wf_pending_streams : len (pending_streams s) <= Z.max 0 (max_pending_streams s);
  wf_pending_capsules : len (pending_capsules s) <= Z.max 0 (max_pending_capsules s);
  wf_pending_datagrams : len (pending_datagrams s) <= Z.max 0 (max_pending_datagrams s);
}.

(** A write waits in a stream only for want of credit. *)
Definition no_stall (s : t) : Prop :=
  forall i st, streams s !! i = Some st -> Stream.is_blocked st = true -> session_credit s = 0.

(** How far a session has come: its state only ever moves forward. *)
Definition state_rank (st : SessionState.t) : nat :=
  match st with
  | SessionState.Connecting => 0
  | SessionState.Connected => 1
  | SessionState.Draining => 2
  | SessionState.Closing => 3
  | SessionState.Closed => 4
  end.

Definition rank (s : t) : nat := state_rank (state s).

(** The fields no operation ever changes. *)
Definition constants (s : t) : SessionId * bool * bool * Z * Z * Z * Z * Z * Z :=
  (id s, is_client s, flow_control_negotiated s, initial_max_streams_bidi s,
   initial_max_streams_uni s, max_pending_streams s, max_pending_capsules s,
   max_pending_datagrams s, max_write_buffer_size s).

(** The streams opened locally, and their number once more creations were issued. *)
Definition opened (s : t) : Z * Z := (local_streams_bidi_opened s, local_streams_uni_opened s).

Definition grown (creations : list (RequestId * bool)) (n : Z * Z) : Z * Z :=
  foldr (fun x n => if x.2 : bool then (n.1, n.2 + 1) else (n.1 + 1, n.2)) n creations.

Lemma grown_spec c n :
  grown c n = (n.1 + len (filter (fun x => x.2 = false) c), n.2 + len (filter (fun x => x.2 = true) c)).
Proof.
  induction c as [|[r u] c IH]; [by destruct n as [x y]; rewrite <- (Z.add_0_r x) at 1; rewrite <- (Z.add_0_r y) at 1|].
  cbn [grown foldr]. fold (grown c n). rewrite IH, !filter_cons. cbn [snd fst].
  destruct u; simpl; rewrite len_cons; f_equal; lia.
Qed.

Lemma grown_app c1 c2 n : grown (c1 ++ c2) n = grown c2 (grown c1 n).
Proof. rewrite !grown_spec, !filter_app, !len_app. simpl. f_equal; lia. Qed.

(** ** Closing a stream *)

Lemma handle_closed_eq s i s' e :
  handle_closed s i = (s', e) -> Forall quiet e /\
  match streams s !! i with
  | Some st =>
      if Stream.is_closed st then
        exists bc uc mb mu,
          s' = s <| streams := delete i (streams s) |>
                 <| blocked_streams := blocked_streams s ∖ {[i]} |>
                 <| peer_streams_bidi_closed := bc |> <| peer_streams_uni_closed := uc |>
                 <| local_max_streams_bidi := mb |> <| local_max_streams_uni := mu |>
          /\ forall u,
             peer_closed u s' = (if is_peer_stream (is_client s) u i
                                 then u64_add (peer_closed u s) 1 else peer_closed u s)
             /\ (local_max u s' = local_max u s
                 \/ flow_control_negotiated s = true /\ may_send_credit s = true
                    /\ local_max u s' = saturating_add (peer_closed u s') (initial_max u s)
                    /\ local_max u s < local_max u s')
      else s' = s
  | None => s' = s
  end.
Proof.
  unfold handle_closed. destruct (streams s !! i) as [st|]; [|by intros [= <- <-]].
  destruct (Stream.is_closed st); [|by intros [= <- <-]].
  set (s0 := s <| streams := _ |> <| blocked_streams := _ |>).
  assert (Hq : Forall quiet (suppress_pending_stream_events s0 i
    [Effect.EmitStreamEvent i EventType.StreamClosed None None None None])).
  { unfold suppress_pending_stream_events. destruct (bool_decide _); by repeat constructor. }
  unfold is_peer_stream. change (is_client s0) with (is_client s).
  destruct (utils.is_peer_initiated_stream i (is_client s)).
  - unfold count_closed_stream.
    destruct (replenish_streams_credit _ _ _) as [s1 e1] eqn:Hr. intros [= <- <-].
    apply replenish_streams_credit_eq in Hr as (mb & mu & -> & Hq1 & Hn & Hu).
    split; [by apply Forall_app|].
    destruct (utils.is_unidirectional_stream i); simpl in Hn, Hu |- *.
    + exists (peer_streams_bidi_closed s), (u64_add (peer_streams_uni_closed s) 1), mb, mu.
      split; [done|]. intros []; simpl; auto.
    + exists (u64_add (peer_streams_bidi_closed s) 1), (peer_streams_uni_closed s), mb, mu.
      split; [done|]. intros []; simpl; auto.
  - intros [= <- <-]. split; [done|].
    eexists (peer_streams_bidi_closed s), (peer_streams_uni_closed s),
      (local_max_streams_bidi s), (local_max_streams_uni s).
    split; [by destruct s|]. intros u. simpl. destruct u; auto.
Qed.

Lemma closed_nothing_outstanding st :
  StreamP.wf st -> StreamP.acked st -> Stream.is_closed st = true -> StreamP.outstanding st = [].
Proof.
  intros Hwf Ha Hc. unfold Stream.is_closed in Hc. bool_to_prop.
  unfold StreamP.outstanding, StreamP.outstanding_reads, StreamP.outstanding_writes.
  rewrite (StreamP.wf_not_receiving st Hwf) by (intros E; by rewrite E in *).
  rewrite (StreamP.wf_terminated_empty st Hwf) by done.
  destruct (Stream.send_state st) as [[]|] eqn:E; try done.
  - by rewrite Ha.
  - by rewrite (StreamP.wf_no_flight st Hwf) by auto.
  - by rewrite (StreamP.wf_no_flight st Hwf) by auto.
Qed.

(** The requests of a session, those of one stream set apart. *)
Definition other_requests (i : StreamId) (s : t) : list RequestId :=
  stream_requests (delete i (streams s)) ++ blocked_stream_requests_bidi s
  ++ blocked_stream_requests_uni s ++ pending_datagram_requests s.

Lemma requests_split s i st :
  streams s !! i = Some st -> requests s ≡ₚ StreamP.outstanding st ++ other_requests i s.
Proof.
  intros Hi. unfold requests, other_requests. by rewrite (stream_requests_delete _ _ _ Hi), <- app_assoc.
Qed.

Lemma requests_update s i st :
  requests (s <| streams := <[i:=st]> (streams s) |>)
  ≡ₚ StreamP.outstanding st ++ other_requests i s.
Proof. unfold requests, other_requests. simpl. by rewrite stream_requests_update, <- app_assoc. Qed.

Lemma swap_requests (held entering answers held' others : list RequestId) :
  held ++ entering ≡ₚ answers ++ held' ->
  (held ++ others) ++ entering ≡ₚ answers ++ [] ++ held' ++ others.
Proof.
  intros H. rewrite <- app_assoc, (Permutation_app_comm others), app_assoc, H, <- app_assoc. done.
Qed.

Lemma is_active_ended s i st : wf s -> streams s !! i = Some st -> is_active s = true.
Proof.
  intros Hwf Hi. destruct (is_active s) eqn:E; [done|].
  destruct (wf_ended s Hwf E) as (Hs & _). by rewrite Hs in Hi.
Qed.

(** The limits depend on the stream map and the counters of the direction only. *)
Lemma limits_frame u s s' :
  wf_limits u s -> streams s' = streams s -> is_client s' = is_client s ->
  local_opened u s' = local_opened u s -> peer_max u s' = peer_max u s ->
  peer_opened u s' = peer_opened u s -> peer_closed u s' = peer_closed u s ->
  local_max u s' = local_max u s -> initial_max u s' = initial_max u s -> wf_limits u s'.
Proof.
  intros [] Hs Hc Ho Hp Hpo Hpc Hm Hi.
  split; unfold peer_streams in *; rewrite ?Hs, ?Hc, ?Ho, ?Hp, ?Hpo, ?Hpc, ?Hm, ?Hi; done.
Qed.

(** Removing a closed stream keeps the stream limits. *)
Lemma limits_close u s s' i st :
  wf_limits u s -> streams s !! i = Some st ->
  streams s' = delete i (streams s) -> is_client s' = is_client s ->
  local_opened u s' = local_opened u s -> peer_max u s' = peer_max u s ->
  peer_opened u s' = peer_opened u s -> initial_max u s' = initial_max u s ->
  peer_closed u s' = (if is_peer_stream (is_client s) u i
                      then u64_add (peer_closed u s) 1 else peer_closed u s) ->
  (local_max u s' = local_max u s
   \/ flow_control_negotiated s = true /\ may_send_credit s = true
      /\ local_max u s' = saturating_add (peer_closed u s') (initial_max u s)
      /\ local_max u s < local_max u s') ->
  wf_limits u s'.
Proof.
  intros [] Hi Hs Hc Ho Hp Hpo Hin Hcl Hm.
  assert (Hcount : peer_streams u s' = peer_streams u s - if is_peer_stream (is_client s) u i then 1 else 0)
    by (unfold peer_streams; rewrite Hs, Hc; by apply (count_delete _ _ _ st)).
  pose proof (count_nonneg (is_peer_stream (is_client s') u) (streams s')) as Hnn.
  fold (peer_streams u s') in Hnn.
  assert (Hadd : is_peer_stream (is_client s) u i = true ->
                 u64_add (peer_closed u s) 1 = peer_closed u s + 1).
  { intros E. rewrite E in Hcount. apply u64_add_small. lia. }
  unfold saturating_add in *.
  destruct (is_peer_stream (is_client s) u i);
    [rewrite Hadd in Hcl by done|]; split; rewrite ?Ho, ?Hp, ?Hpo, ?Hin; lia.
Qed.

(** Replace a stream, then drop it if that closed it. *)
Lemma stream_update_wf s i st st' s' e :
  wf s -> streams s !! i = Some st ->
  StreamP.wf st' -> Stream.id st' = i -> StreamP.acked st' ->
  (Stream.is_blocked st' = true -> Stream.is_blocked st = true) ->
  handle_closed (s <| streams := <[i:=st']> (streams s) |>) i = (s', e) ->
  wf s' /\ Forall quiet e /\ requests s' ≡ₚ StreamP.outstanding st' ++ other_requests i s
  /\ data_sent s' = data_sent s /\ (no_stall s -> no_stall s') /\ constants s' = constants s
  /\ opened s' = opened s /\ (rank s <= rank s')%nat.
Proof.
  intros Hwf Hi Hst Hid Hack Hblk Hc.
  pose proof (is_active_ended s i st Hwf Hi) as Hact.
  apply handle_closed_eq in Hc as [Hq Hc]. simpl in Hc. rewrite lookup_insert_eq in Hc.
  destruct (Stream.is_closed st') eqn:Hcl.
  - destruct Hc as (bc & uc & mb & mu & -> & Hu). destruct Hwf. split_and!; try done.
    + split; try done; simpl.
      * intros j stj. rewrite delete_insert_eq, lookup_delete_Some. intros [_ ?]. auto.
      * unfold is_active in *. simpl. by rewrite Hact.
      * intros j stj. rewrite delete_insert_eq, lookup_delete_Some. intros [? Hj] Hb.
        specialize (wf_blocked0 j stj Hj Hb). set_solver.
      * intros j Hj. apply wf_queue0. set_solver.
      * intros Hfc. by destruct (wf_flow_data0 Hfc).
      * intros Hfc u. specialize (wf_flow_streams0 Hfc u). destruct (Hu u) as [Hu1 Hu2].
        eapply (limits_close u s _ i st); try done; simpl; try (by destruct u).
        by rewrite delete_insert_eq.
    + unfold requests, other_requests. simpl.
      by rewrite delete_insert_eq, (closed_nothing_outstanding st').
    + intros Hns j stj. simpl. rewrite delete_insert_eq, lookup_delete_Some.
      intros [_ ?] ?. by apply (Hns j stj).
  - subst s'. destruct Hwf. split_and!; try done.
    + split; try done; simpl.
      * intros j stj. rewrite lookup_insert_Some. intros [[<- <-]|[_ ?]]; auto. by split.
      * unfold is_active in *. simpl. by rewrite Hact.
      * intros j stj. rewrite lookup_insert_Some. intros [[<- <-]|[? ?]] Hb; [|by eapply wf_blocked0].
        eapply wf_blocked0; [done|]. by apply Hblk.
      * intros Hfc. by destruct (wf_flow_data0 Hfc).
      * intros Hfc u. destruct (wf_flow_streams0 Hfc u). split; try (by destruct u).
        unfold peer_streams. simpl. rewrite (count_update _ _ _ st) by done. by destruct u.
    + apply requests_update.
    + intros Hns j stj. simpl. rewrite lookup_insert_Some.
      intros [[<- <-]|[_ ?]] Hb; [apply (Hns i st); auto|by apply (Hns j stj)].
Qed.

(** ** What an operation promises

    [entering] are the requests the operation brings in: submitted by the user,
    or coming back from the transport with a binding or a deferral. *)
Record step_post (s s' : t) (entering : list RequestId) (effects : list Effect.t) : Prop := {
  step_wf : wf s';
  step_requests :
    requests s ++ entering ≡ₚ answered effects ++ (issued effects).*1 ++ requests s';
  step_sent : flow_control_negotiated s = true ->
              data_sent s' = data_sent s + sent_total effects;
  step_no_stall : no_stall s -> no_stall s';
  step_constants : constants s' = constants s;
  step_opened : flow_control_negotiated s = true -> opened s' = grown (issued effects) (opened s);
  step_rank : (rank s <= rank s')%nat;
}.

Lemma post_quiet s s' effects :
  wf s' -> requests s' ≡ₚ requests s -> data_sent s' = data_sent s -> Forall quiet effects ->
  (no_stall s -> no_stall s') -> constants s' = constants s -> opened s' = opened s ->
  (rank s <= rank s')%nat -> step_post s s' [] effects.
Proof.
  intros Hwf Hr Hd Hq Hn Hk Ho Hrk. split; [done| | |done|done|by rewrite quiet_issued|done].
  - by rewrite quiet_answered, quiet_issued, app_nil_r, Hr.
  - intros _. rewrite quiet_sent_total by done. lia.
Qed.

(** An operation that only answers its own request. *)
Lemma post_answer s r effects :
  wf s -> answered effects = [r] -> issued effects = [] -> sent_total effects = 0 ->
  step_post s s [r] effects.
Proof.
  intros Hwf Ha Hi Hs. split; [done| | |done|done|by rewrite Hi|done].
  - rewrite Ha, Hi. apply Permutation_app_comm.
  - intros _. lia.
Qed.

(** Effects that only add to what other effects did. *)
Lemma post_effects s s' entering effects more :
  step_post s s' entering effects ->
  answered more = answered effects -> issued more = issued effects ->
  sent_total more = sent_total effects -> step_post s s' entering more.
Proof. intros [] Ha Hi Hs. split; [done|by rewrite Ha, Hi|by rewrite Hs|done|done|by rewrite Hi|done]. Qed.

Lemma post_app_quiet s s' entering effects more :
  step_post s s' entering effects -> Forall quiet more ->
  step_post s s' entering (effects ++ more).
Proof.
  intros Hp Hq. eapply post_effects; [done|..];
    rewrite ?answered_app, ?issued_app, ?sent_total_app;
    rewrite ?(quiet_answered more), ?(quiet_issued more), ?(quiet_sent_total more), ?app_nil_r
      by done; try done. lia.
Qed.

Lemma post_quiet_app s s' entering effects more :
  step_post s s' entering effects -> Forall quiet more ->
  step_post s s' entering (more ++ effects).
Proof.
  intros Hp Hq. eapply post_effects; [done|..];
    rewrite ?answered_app, ?issued_app, ?sent_total_app;
    rewrite ?(quiet_answered more), ?(quiet_issued more), ?(quiet_sent_total more) by done; done.
Qed.

(** Suppressing stream events hides nothing from the observers. *)
Lemma suppress_observed s i effects :
  let effects' := suppress_pending_stream_events s i effects in
  answered effects' = answered effects /\ issued effects' = issued effects
  /\ sent_total effects' = sent_total effects.
Proof.
  unfold suppress_pending_stream_events. destruct (bool_decide _); [|done]. simpl.
  induction effects as [|e effects (IH1 & IH2 & IH3)]; [done|].
  rewrite filter_cons. destruct (decide _) as [Hd|Hd]; [|by destruct e].
  unfold answered, issued, sent_total in *. cbn. by rewrite IH1, IH2, IH3.
Qed.

(** A stream operation other than a write, the stream dropped if it closed. *)
Lemma stream_op_post s i st o st' effects s' e :
  wf s -> streams s !! i = Some st ->
  StreamP.step o st = (st', effects) -> StreamP.is_send_op o = false ->
  (o = StreamP.OpAcknowledged -> Stream.pending_write_request st = None) ->
  (forall r, r ∈ StreamP.submitted o -> r ∉ requests s) ->
  handle_closed (s <| streams := <[i:=st']> (streams s) |>) i = (s', e) ->
  step_post s s' (StreamP.submitted o) (effects ++ e).
Proof.
  intros Hwf Hi Hstep Ho Hack Hfresh Hc.
  destruct (wf_streams s Hwf i st Hi) as [Hst Hid Hopen Hacked].
  pose proof (StreamP.step_effects _ _ _ _ Hstep) as Heff.
  pose proof (StreamP.step_not_data _ _ _ _ Hstep Ho) as Hnd.
  destruct (StreamP.step_facts _ _ _ _ Hstep Ho Hack) as [Hack' Hblk].
  assert (Hreq := requests_split s i st Hi).
  apply StreamP.step_spec in Hstep as [Hst' Hid' Hreq' _]; [|done|by destruct o|]; cycle 1.
  { intros r Hr Hin. apply (Hfresh r Hr). rewrite Hreq. apply elem_of_app. by left. }
  eapply stream_update_wf in Hc as (Hwf' & Hq & Hr' & Hd & Hn & Hk & Hop & Hrk);
    [|done|done|done|congruence|by auto|done].
  apply post_app_quiet; [|done].
  split; [done| | |done|done|by rewrite (stream_effect_issued _ _ Heff)|done].
  - rewrite (stream_effect_answered _ _ Heff), (stream_effect_issued _ _ Heff), Hr', Hreq.
    by apply swap_requests.
  - intros _. rewrite (stream_effect_sent_total _ _ Heff), sent_bytes_none by done.
    change (len (@nil byte)) with 0. lia.
Qed.

(** ** Writing *)

Lemma session_credit_range s :
  (flow_control_negotiated s = true -> wf_data s) -> is_u64 (session_credit s).
Proof.
  intros H. unfold session_credit, is_u64, saturating_sub.
  destruct (flow_control_negotiated s); [|split; [done|lia]]. destruct (H eq_refl).
  unfold QUIC_VARINT_LIMIT, U64_MAX in *. lia.
Qed.

Lemma session_credit_zero s :
  session_credit s = 0 -> flow_control_negotiated s = true.
Proof. unfold session_credit. by destruct (flow_control_negotiated s). Qed.

Lemma note_blocked_eq s i blocked :
  exists bs q, note_blocked s i blocked
    = s <| blocked_streams := bs |> <| blocked_streams_queue := q |>
  /\ (blocked = true -> i ∈ bs) /\ blocked_streams s ⊆ bs
  /\ ((forall j, j ∈ blocked_streams s -> j ∈ blocked_streams_queue s) ->
      forall j, j ∈ bs -> j ∈ q).
Proof.
  unfold note_blocked. destruct (blocked && _) eqn:E.
  - eexists _, _. split; [done|]. split_and!; [set_solver|set_solver|].
    intros H j. rewrite elem_of_union, elem_of_singleton, elem_of_app, list_elem_of_singleton.
    intros [->|Hj]; auto.
  - exists (blocked_streams s), (blocked_streams_queue s). split; [by destruct s|].
    split_and!; [|done|done]. intros ->. simpl in E. by bool_to_prop.
Qed.

(** The stream after a write or a completion, as the session needs it. *)
Record write_post (s : t) (i : StreamId) (st st' : Stream.t) (entering : list RequestId)
    (effects : list Effect.t) (sent : Z) : Prop := {
  write_live : live i st';
  write_effects : Forall (stream_effect i) effects;
  write_requests : StreamP.outstanding st ++ entering
                   ≡ₚ completed effects ++ StreamP.outstanding st';
  write_sent : sent = sent_total effects;
  write_credit : 0 <= sent <= session_credit s;
  write_blocked : Stream.is_blocked st' = true ->
                  Stream.is_blocked st = true \/ session_credit s = 0;
}.

Lemma data_after_write s sent :
  wf_data s -> flow_control_negotiated s = true -> 0 <= sent <= session_credit s ->
  u64_add (data_sent s) sent = data_sent s + sent /\ data_sent s + sent <= peer_max_data s.
Proof.
  intros [] Hfc Hs. unfold session_credit, saturating_sub in Hs. rewrite Hfc in Hs.
  assert (QUIC_VARINT_LIMIT <= U64_MAX) by done.
  split; [|lia]. apply u64_add_small. lia.
Qed.

(** A stream replaced after sending, before the peer is told about the block. *)
Lemma sent_update_wf s i st st' entering effects sent bs q :
  wf s -> streams s !! i = Some st -> write_post s i st st' entering effects sent ->
  (Stream.is_blocked st' = true -> i ∈ bs) ->
  (forall j, j ∈ blocked_streams s -> j = i \/ j ∈ bs) -> (forall j, j ∈ bs -> j ∈ q) ->
  let s' := s <| streams := <[i:=st']> (streams s) |>
              <| data_sent := u64_add (data_sent s) sent |>
              <| blocked_streams := bs |> <| blocked_streams_queue := q |> in
  step_post s s' entering effects.
Proof.
  intros Hwf Hi Hw Hin Hsub Hq s'.
  pose proof (is_active_ended s i st Hwf Hi) as Hact. pose proof (wf_flow_data s Hwf) as Hdata.
  pose proof (fun Hfc => data_after_write s sent (Hdata Hfc) Hfc (write_credit _ _ _ _ _ _ _ Hw)) as Hsent.
  assert (Hcredit : session_credit s = 0 -> session_credit s' = 0).
  { intros E. pose proof (session_credit_zero s E) as Hfc. destruct Hw. rewrite E in *.
    destruct (Hsent Hfc) as [Hadd _]. unfold session_credit in *. subst s'. simpl.
    rewrite Hfc, Hadd in *. assert (sent = 0) as -> by lia. by rewrite Z.add_0_r. }
  assert (Hwf' : wf s').
  { destruct Hwf, Hw. split; try done; subst s'; simpl.
    - intros j stj. rewrite lookup_insert_Some. intros [[<- <-]|[_ ?]]; auto.
    - unfold is_active in *. simpl. by rewrite Hact.
    - intros j stj. rewrite lookup_insert_Some. intros [[<- <-]|[Hne Hj]] Hb; [by auto|].
      by destruct (Hsub j (wf_blocked0 j stj Hj Hb)).
    - intros Hfc. destruct (Hdata Hfc), (Hsent Hfc). split; simpl; try done. lia.
    - intros Hfc u. destruct (wf_flow_streams0 Hfc u). split; try (by destruct u).
      unfold peer_streams. simpl. rewrite (count_update _ _ _ st) by done. by destruct u. }
  destruct Hw. split; [done| | | |done|by rewrite (stream_effect_issued _ _ write_effects0)|done].
  - rewrite (stream_effect_answered _ _ write_effects0), (stream_effect_issued _ _ write_effects0).
    change (requests s') with (requests (s <| streams := <[i:=st']> (streams s) |>)).
    rewrite (requests_split s i st Hi), requests_update. by apply swap_requests.
  - intros Hfc. subst s'. simpl. rewrite <- write_sent0. by apply Hsent.
  - intros Hns j stj. subst s'. simpl. rewrite lookup_insert_Some.
    intros [[<- <-]|[Hne Hj]] Hb; apply Hcredit; [|by eapply Hns].
    destruct (write_blocked0 Hb) as [Hb'|]; [by eapply Hns|done].
Qed.

(** The book-keeping of capsules already sent is irrelevant to the invariant. *)
Lemma wf_ignore_last_data s v : wf s -> wf (s <| last_data_blocked_sent := v |>).
Proof.
  intros []. split; try done.
  - intros Hfc. by destruct (wf_flow_data0 Hfc).
  - intros Hfc u. by destruct (wf_flow_streams0 Hfc u).
Qed.

Lemma wf_ignore_last_streams s v w :
  wf s -> wf (s <| last_streams_blocked_bidi_sent := v |> <| last_streams_blocked_uni_sent := w |>).
Proof.
  intros []. split; try done.
  - intros Hfc. by destruct (wf_flow_data0 Hfc).
  - intros Hfc u. by destruct (wf_flow_streams0 Hfc u).
Qed.

Lemma post_ignore_last_data s s' v entering effects :
  step_post s s' entering effects ->
  step_post s (s' <| last_data_blocked_sent := v |>) entering effects.
Proof. intros []. split; [by apply wf_ignore_last_data|done..]. Qed.

Lemma post_ignore_last_streams s s' v w entering effects :
  step_post s s' entering effects ->
  step_post s (s' <| last_streams_blocked_bidi_sent := v |> <| last_streams_blocked_uni_sent := w |>)
    entering effects.
Proof. intros []. split; [by apply wf_ignore_last_streams|done..]. Qed.

Lemma account_write_post s i st st' entering effects sent s' e :
  wf s -> streams s !! i = Some st -> write_post s i st st' entering effects sent ->
  account_write s i st' effects sent = (s', e) -> step_post s s' entering e.
Proof.
  intros Hwf Hi Hw. unfold account_write.
  set (s1 := s <| streams := _ |> <| data_sent := _ |>).
  destruct (note_blocked_eq s1 i (Stream.is_blocked st')) as (bs & q & Hn & Hin & Hsub & Hq).
  rewrite Hn. destruct (emit_data_blocked _) as [s2 e2] eqn:Hb. intros [= <- <-].
  apply emit_data_blocked_eq in Hb as (v & -> & Hquiet). apply post_app_quiet; [|done].
  apply post_ignore_last_data, (sent_update_wf s i st st' entering effects sent bs q); try done.
  - intros j Hj. right. by apply Hsub.
  - apply Hq. apply (wf_queue s Hwf).
Qed.

Lemma write_stream_post s i r data fin s' e :
  wf s -> len data <= ISIZE_MAX -> r ∉ requests s ->
  write_stream s i r data fin = (s', e) -> step_post s s' [r] e.
Proof.
  intros Hwf Hlen Hr. unfold write_stream. destruct (streams s !! i) as [st|] eqn:Hi.
  - destruct (Stream.write _ _ _ _ _) as [[st' effects] sent] eqn:Hw.
    apply account_write_post with (st := st); [done|done|].
    destruct (wf_streams s Hwf i st Hi) as [Hst Hid Hopen Hacked].
    pose proof (StreamP.write_effects _ _ _ _ _ _ _ _ Hw) as Heff. rewrite Hid in Heff.
    destruct (StreamP.write_facts _ _ _ _ _ _ _ _ Hw) as (Hcl & Hack & Hblk).
    assert (r ∉ StreamP.outstanding st) as Hfresh.
    { intros Hin. apply Hr. rewrite (requests_split s i st Hi). apply elem_of_app. by left. }
    pose proof (StreamP.step_spec (StreamP.OpWrite r data fin (session_credit s)) st st' effects)
      as Hspec. simpl in Hspec. rewrite Hw in Hspec.
    destruct Hspec as [Hst' Hid' Hreq _]; try done.
    { split; [done|]. apply session_credit_range, (wf_flow_data s Hwf). }
    { by intros ? ->%list_elem_of_singleton. }
    apply StreamP.write_spec in Hw as (_ & Hsent & Hrange & _);
      [|done|apply session_credit_range, (wf_flow_data s Hwf)|done
       |intros Hin; apply Hfresh, elem_of_app; by left].
    split; try done.
    + split; [done|congruence|by rewrite Hcl|auto].
    + by rewrite (stream_effect_sent_total _ _ Heff), Hsent, Hid.
  - destruct (_ && _); intros [= <- <-]; by apply post_answer.
Qed.

Lemma complete_stream_write_post s i s' e :
  wf s -> complete_stream_write s i = (s', e) -> step_post s s' [] e.
Proof.
  intros Hwf. unfold complete_stream_write. destruct (streams s !! i) as [st|] eqn:Hi;
    [|intros [= <- <-]; by apply post_quiet].
  destruct (Stream.complete_write _ _) as [[st' effects] sent] eqn:Hw.
  apply account_write_post with (st := st); [done|done|].
  destruct (wf_streams s Hwf i st Hi) as [Hst Hid Hopen Hacked].
  pose proof (StreamP.complete_write_effects _ _ _ _ _ Hw) as Heff. rewrite Hid in Heff.
  destruct (StreamP.complete_write_facts _ _ _ _ _ Hw) as (Hcl & Hack & Hblk).
  assert (Hc : is_u64 (session_credit s)) by apply session_credit_range, (wf_flow_data s Hwf).
  pose proof (StreamP.step_spec (StreamP.OpComplete (session_credit s)) st st' effects) as Hspec.
  simpl in Hspec. rewrite Hw in Hspec. destruct Hspec as [Hst' Hid' Hreq _]; try done.
  { by intros ? ?%elem_of_nil. }
  apply StreamP.complete_write_spec in Hw as (_ & Hsent & Hrange & _); [|done|done].
  split; try done.
  - split; [done|congruence|by rewrite Hcl|auto].
  - by rewrite (stream_effect_sent_total _ _ Heff), Hsent, Hid.
  - intros Hb. destruct (Hblk Hb); auto.
Qed.

(** ** Credit arriving *)

(** Two consecutive parts of one operation. *)
Lemma post_trans s s1 s2 entering1 entering2 e1 e2 :
  step_post s s1 entering1 e1 -> step_post s1 s2 entering2 e2 ->
  step_post s s2 (entering1 ++ entering2) (e1 ++ e2).
Proof.
  intros [Hw1 Hr1 Hs1 Hn1 Hk1 Ho1 Hrk1] [Hw2 Hr2 Hs2 Hn2 Hk2 Ho2 Hrk2].
  assert (Hfc : flow_control_negotiated s1 = flow_control_negotiated s)
    by (unfold constants in Hk1; congruence).
  split; [done| | |by auto|congruence| |by etrans]; cycle 2.
  { intros E. rewrite issued_app, grown_app, <- (Ho1 E). apply Ho2. congruence. }
  - rewrite answered_app, issued_app, fmap_app, app_assoc, Hr1, <- !app_assoc.
    f_equiv. rewrite Hr2, !app_assoc. do 2 f_equiv. apply Permutation_app_comm.
  - intros E. rewrite sent_total_app, (Hs2 ltac:(congruence)), (Hs1 E). lia.
Qed.

Lemma flush_stream_post s i st st' effects sent :
  wf s -> streams s !! i = Some st ->
  Stream.flush_writes st (session_credit s) = (st', effects, sent) ->
  write_post s i st st' [] effects sent
  /\ (session_credit s <> 0 -> Stream.is_blocked st' = false).
Proof.
  intros Hwf Hi Hw. destruct (wf_streams s Hwf i st Hi) as [Hst Hid Hopen Hacked].
  pose proof (StreamP.flush_writes_effects _ _ _ _ _ Hw) as Heff. rewrite Hid in Heff.
  destruct (StreamP.flush_writes_facts _ _ _ _ _ Hw) as (Hcl & Hack & Hblk).
  assert (Hc : is_u64 (session_credit s)) by apply session_credit_range, (wf_flow_data s Hwf).
  pose proof (StreamP.step_spec (StreamP.OpFlush (session_credit s)) st st' effects) as Hspec.
  simpl in Hspec. rewrite Hw in Hspec. destruct Hspec as [Hst' Hid' Hreq _]; try done.
  { by intros ? ?%elem_of_nil. }
  apply StreamP.flush_writes_spec in Hw as []; [|done|done].
  split.
  - split; try done.
    + split; [done|congruence|by rewrite Hcl|auto].
    + by rewrite (stream_effect_sent_total _ _ Heff), flush_sent, Hid.
    + intros Hb. left. by apply Hblk.
  - intros Hz. apply not_true_is_false. intros Hb. apply Hz, Hblk; [done|].
    apply (StreamP.wf_not_ready st Hst).
Qed.

(** Taking the head of the queue of blocked streams off, or back on. *)
Lemma wf_requeue s bs q :
  wf s -> (forall i st, streams s !! i = Some st -> Stream.is_blocked st = true -> i ∈ bs) ->
  (forall i, i ∈ bs -> i ∈ q) -> is_active s = true ->
  wf (s <| blocked_streams_queue := q |> <| blocked_streams := bs |>).
Proof.
  intros [] Hb Hq Hact. split; try done.
  - intros E. unfold is_active in *. simpl in E. by rewrite Hact in E.
  - intros Hfc. by destruct (wf_flow_data0 Hfc).
  - intros Hfc u. by destruct (wf_flow_streams0 Hfc u).
Qed.

Lemma elem_of_put_back (i j : StreamId) (X : gset StreamId) : j ∈ X -> j ∈ {[i]} ∪ (X ∖ {[i]}).
Proof. destruct (decide (j = i)); set_solver. Qed.

Lemma elem_of_put_back_inv (i j : StreamId) (X : gset StreamId) :
  j ∈ {[i]} ∪ (X ∖ {[i]}) -> j = i \/ j ∈ X.
Proof. set_solver. Qed.

Lemma flush_blocked_loop_post s n s' e :
  wf s -> is_active s = true -> length (blocked_streams_queue s) = n ->
  flush_blocked_loop s n = (s', e) ->
  step_post s s' [] e /\ no_stall s'.
Proof.
  revert s e. induction n as [|n IH]; intros s e Hwf Hact Hn; cbn [flush_blocked_loop].
  { intros [= <- <-]. split; [by apply post_quiet|].
    intros i st Hi Hb. apply (wf_blocked s Hwf i st Hi), (wf_queue s Hwf) in Hb.
    apply nil_length_inv in Hn. rewrite Hn in Hb. by apply elem_of_nil in Hb. }
  destruct (blocked_streams_queue s) as [|i rest] eqn:Hq; [done|]. simpl in Hn.
  set (s0 := s <| blocked_streams_queue := rest |> <| blocked_streams := _ |>).
  change (session_credit s0) with (session_credit s). change (streams s0) with (streams s).
  pose proof (wf_queue s Hwf) as Hsub. rewrite Hq in Hsub.
  destruct (session_credit s =? 0) eqn:Hz; bool_to_prop.
  { intros [= <- <-]. split; [|by intros ? ? ? ?].
    apply post_quiet; try done. apply (wf_requeue s ({[i]} ∪ (blocked_streams s ∖ {[i]})) (i :: rest)); [done| | |done].
    - intros j st Hj Hb. by apply elem_of_put_back, (wf_blocked s Hwf j st Hj Hb).
    - intros j [->|Hj]%elem_of_put_back_inv; [by apply list_elem_of_here|by apply Hsub]. }
  assert (Hrest : forall j, j ∈ blocked_streams s ∖ {[i]} -> j ∈ rest).
  { intros j Hj. apply elem_of_difference in Hj as [Hj Hne].
    apply Hsub, elem_of_cons in Hj as [->|]; [|done]. by destruct Hne; apply elem_of_singleton. }
  destruct (streams s !! i) as [st|] eqn:Hi.
  - destruct (Stream.flush_writes st (session_credit s)) as [[st' effects] sent] eqn:Hf.
    destruct (flush_stream_post s i st st' effects sent Hwf Hi Hf) as [Hw Hnb].
    rewrite (Hnb Hz). destruct (flush_blocked_loop _ n) as [s2 e2] eqn:Hloop. intros [= <- <-].
    assert (Hp : step_post s (s <| streams := <[i:=st']> (streams s) |>
                   <| data_sent := u64_add (data_sent s) sent |>
                   <| blocked_streams := blocked_streams s ∖ {[i]} |>
                   <| blocked_streams_queue := rest |>) [] effects).
    { apply (sent_update_wf s i st); try done; [by rewrite (Hnb Hz)|].
      intros j Hj. destruct (decide (j = i)); [by left|right].
      by apply elem_of_difference; rewrite elem_of_singleton. }
    apply (IH _ e2) in Hloop as (Hp2 & Hns); [|apply (step_wf _ _ _ _ Hp)|done|simpl; lia].
    split; [|done]. by apply (post_trans _ _ _ _ _ _ _ Hp Hp2).
  - intros Hloop.
    assert (Hwf0 : wf s0).
    { apply (wf_requeue s (blocked_streams s ∖ {[i]}) rest); try done. intros j st Hj Hb.
      apply elem_of_difference. rewrite elem_of_singleton.
      split; [by apply (wf_blocked s Hwf j st)|congruence]. }
    apply (IH _ e) in Hloop as (Hp2 & Hns); [|done|done|simpl; lia].
    split; [|done]. destruct Hp2. by split.
Qed.

Lemma flush_blocked_writes_post s s' e :
  wf s -> is_active s = true -> flush_blocked_writes s = (s', e) ->
  step_post s s' [] e /\ no_stall s'.
Proof.
  intros Hwf Hact. unfold flush_blocked_writes. destruct (_ && _) eqn:Hg.
  - intros [= <- <-]. split; [by apply post_quiet|]. intros i st Hi Hb.
    bool_to_prop. unfold session_credit, saturating_sub. rewrite H. lia.
  - destruct (flush_blocked_loop s _) as [s1 e1] eqn:Hl.
    destruct (emit_data_blocked s1) as [s2 e2] eqn:He. intros [= <- <-].
    apply flush_blocked_loop_post in Hl as (Hp & Hn); [|done|done|done].
    apply emit_data_blocked_eq in He as (v & -> & Hq). split; [|done].
    apply post_app_quiet; [|done]. by apply post_ignore_last_data.
Qed.

(** ** Ending the session *)

Lemma abort_stream_spec s i st s' e :
  streams s !! i = Some st -> live i st -> may_send_credit s = false ->
  abort_stream s i = (s', e) ->
  (exists bs bc uc,
    s' = s <| streams := delete i (streams s) |> <| blocked_streams := bs |>
           <| peer_streams_bidi_closed := bc |> <| peer_streams_uni_closed := uc |>)
  /\ answered e ≡ₚ StreamP.outstanding st /\ issued e = [] /\ sent_total e = 0
  /\ (forall u, wf_limits u s -> wf_limits u s').
Proof.
  intros Hi [Hst Hid Hopen Hacked] Hm. unfold abort_stream. rewrite Hi.
  destruct (Stream.abort st _) as [st' effs] eqn:Ha.
  pose proof (StreamP.step_effects (StreamP.OpAbort ERR_WT_SESSION_GONE) _ _ _ Ha) as Heff.
  pose proof (StreamP.step_not_data (StreamP.OpAbort ERR_WT_SESSION_GONE) _ _ _ Ha eq_refl) as Hnd.
  destruct (StreamP.step_facts (StreamP.OpAbort ERR_WT_SESSION_GONE) _ _ _ Ha) as [Hack _]; try done.
  apply StreamP.abort_spec in Ha as (Hst' & Hcl & Hid' & _ & _ & Hreq & _); [|done].
  destruct (handle_closed _ i) as [s2 e2] eqn:Hc. intros [= <- <-].
  apply handle_closed_eq in Hc as [Hq Hc]. simpl in Hc. rewrite lookup_insert_eq, Hcl in Hc.
  destruct Hc as (bc & uc & mb & mu & -> & Hu).
  change (may_send_credit _) with (may_send_credit s) in Hu. rewrite Hm in Hu.
  assert (mb = local_max_streams_bidi s) as -> by (destruct (Hu false) as [_ [?|(_ & ? & _)]]; done).
  assert (mu = local_max_streams_uni s) as -> by (destruct (Hu true) as [_ [?|(_ & ? & _)]]; done).
  destruct (suppress_observed (s <| streams := <[i:=st']> (streams s) |>) i effs) as (Ha & Hs & Ht).
  split_and!.
  - exists (blocked_streams s ∖ {[i]}), bc, uc. simpl. rewrite delete_insert_eq. reflexivity.
  - rewrite answered_app, Ha, (quiet_answered e2), app_nil_r, (stream_effect_answered _ _ Heff) by done.
    rewrite <- Hreq, (closed_nothing_outstanding st'), app_nil_r by auto. done.
  - by rewrite issued_app, Hs, (quiet_issued e2), (stream_effect_issued _ _ Heff).
  - rewrite sent_total_app, Ht, (quiet_sent_total e2), (stream_effect_sent_total _ _ Heff) by done.
    by rewrite sent_bytes_none.
  - intros u Hl. destruct (Hu u) as [Hu1 Hu2].
    eapply (limits_close u s _ i st); try done; simpl; try (by destruct u).
    + by rewrite delete_insert_eq.
    + left. by destruct u.
Qed.

Lemma abort_each_spec ids s s' e :
  (forall i st, streams s !! i = Some st -> live i st) -> may_send_credit s = false ->
  (forall i, is_Some (streams s !! i) -> i ∈ ids) ->
  abort_each s ids = (s', e) ->
  (exists bs bc uc,
    s' = s <| streams := ∅ |> <| blocked_streams := bs |>
           <| peer_streams_bidi_closed := bc |> <| peer_streams_uni_closed := uc |>)
  /\ answered e ≡ₚ stream_requests (streams s) /\ issued e = [] /\ sent_total e = 0
  /\ (forall u, wf_limits u s -> wf_limits u s').
Proof.
  revert s e. induction ids as [|i ids IH]; intros s e Hlive Hm Hdom; cbn [abort_each].
  { intros [= <- <-].
    assert (Hempty : streams s = ∅).
    { apply map_empty. intros i. apply eq_None_not_Some. intros Hi.
      by apply Hdom, elem_of_nil in Hi. }
    rewrite Hempty, stream_requests_empty. split_and!; try done.
    exists (blocked_streams s), (peer_streams_bidi_closed s), (peer_streams_uni_closed s).
    rewrite <- Hempty. by destruct s. }
  destruct (abort_stream s i) as [s1 e1] eqn:H1. destruct (abort_each s1 ids) as [s2 e2] eqn:H2.
  intros [= <- <-]. destruct (streams s !! i) as [st|] eqn:Hi.
  - apply (abort_stream_spec s i st) in H1 as ((bs & bc & uc & ->) & Ha & Hi1 & Hs & Hl); [|by auto..].
    apply IH in H2 as ((bs2 & bc2 & uc2 & ->) & Ha2 & Hi2 & Hs2 & Hl2); [|simpl..].
    + split_and!.
      * by exists bs2, bc2, uc2.
      * rewrite answered_app, Ha, Ha2, (stream_requests_delete (streams s) i st) by done. done.
      * by rewrite issued_app, Hi1, Hi2.
      * rewrite sent_total_app. lia.
      * auto.
    + intros j stj. rewrite lookup_delete_Some. intros [_ ?]. auto.
    + done.
    + intros j. rewrite lookup_delete_is_Some. intros [Hne Hj].
      apply Hdom, elem_of_cons in Hj as [->|]; done.
  - unfold abort_stream, handle_closed in H1. rewrite Hi, Hi in H1. injection H1 as <- <-.
    apply IH in H2; [done|done|done|]. intros j Hj.
    destruct (decide (j = i)) as [->|]; [rewrite Hi in Hj; by destruct Hj|].
    apply Hdom, elem_of_cons in Hj as [->|]; done.
Qed.

Lemma answered_failures ids : answered (session_abort_failure <$> ids) = ids.
Proof. induction ids as [|r ids IH]; [done|]. cbn. by f_equal. Qed.

Lemma issued_failures ids : issued (session_abort_failure <$> ids) = [].
Proof. by induction ids. Qed.

Lemma sent_total_failures ids : sent_total (session_abort_failure <$> ids) = 0.
Proof. by induction ids. Qed.

(** Everything the session holds is let go: every stream is closed, every queue
    emptied and every request answered. *)
Lemma release_spec s s' e :
  (forall i st, streams s !! i = Some st -> live i st) -> may_send_credit s = false ->
  release s = (s', e) ->
  (exists bc uc,
    s' = s <| streams := ∅ |> <| peer_streams_bidi_closed := bc |>
           <| peer_streams_uni_closed := uc |>
           <| pending_capsules := [] |> <| pending_datagrams := [] |>
           <| blocked_streams := ∅ |> <| blocked_streams_queue := [] |> <| pending_streams := [] |>
           <| blocked_stream_requests_bidi := [] |> <| blocked_stream_requests_uni := [] |>
           <| pending_datagram_requests := [] |>)
  /\ answered e ≡ₚ requests s /\ issued e = [] /\ sent_total e = 0
  /\ (forall u, wf_limits u s -> wf_limits u s').
Proof.
  intros Hlive Hm. unfold release, abort_streams.
  set (s0 := s <| pending_capsules := [] |> <| pending_datagrams := [] |>).
  destruct (abort_each s0 _) as [s1 e1] eqn:He. intros [= <- <-].
  apply abort_each_spec in He as ((bs & bc & uc & ->) & Ha & Hi & Hs & Hl); [|done|done|].
  - split_and!.
    + by exists bc, uc.
    + simpl. rewrite !answered_app, !answered_failures, Ha. unfold requests.
      by rewrite <- !app_assoc.
    + simpl. by rewrite !issued_app, !issued_failures, Hi.
    + simpl. rewrite !sent_total_app, !sent_total_failures. lia.
    + intros u Hu. eapply limits_frame; [apply (Hl u)|by destruct u..].
      eapply limits_frame; [exact Hu|by destruct u..].
  - intros i [st Hst]. rewrite merge_sort_Permutation.
    apply list_elem_of_fmap. exists (i, st). split; [done|]. by apply elem_of_map_to_list.
Qed.

(** [state] is one of the two final ones. *)
Definition is_final (st : SessionState.t) : bool :=
  match st with SessionState.Closed | SessionState.Closing => true | _ => false end.

Lemma release_received_post s received code reason at_ st s' e :
  wf s -> is_final st = true -> (rank s <= state_rank st)%nat ->
  release (s <| data_received := received |> <| close_code := code |>
             <| close_reason := reason |> <| closed_at := at_ |> <| state := st |>) = (s', e) ->
  step_post s s' [] e /\ state s' = st /\ id s' = id s.
Proof.
  intros Hwf Hst Hrk Hr.
  apply release_spec in Hr as ((bc & uc & ->) & Ha & Hi & Hs & Hl).
  - split_and!; [|done|done]. split; simpl.
    + destruct Hwf. split; simpl; try done; try (rewrite len_nil; lia).
      * intros Hfc. destruct (wf_flow_data0 Hfc). split; try done.
        unfold is_active. simpl. by destruct st.
      * intros Hfc u. apply Hl. eapply limits_frame; [exact (wf_flow_streams0 Hfc u)|by destruct u..].
    + change (requests _) with (requests s) in Ha. rewrite Ha, Hi. unfold requests at 3. simpl.
      by rewrite stream_requests_empty, !app_nil_r.
    + intros _. lia.
    + intros _ i st' Hi'. done.
    + done.
    + by rewrite Hi.
    + done.
  - apply (wf_streams s Hwf).
  - unfold may_send_credit. simpl. by destruct st.
Qed.

Lemma release_post s code reason at_ st s' e :
  wf s -> is_final st = true -> (rank s <= state_rank st)%nat ->
  release (s <| close_code := code |> <| close_reason := reason |> <| closed_at := at_ |>
             <| state := st |>) = (s', e) ->
  step_post s s' [] e /\ state s' = st /\ id s' = id s.
Proof.
  assert (E : s <| close_code := code |> <| close_reason := reason |> <| closed_at := at_ |>
                <| state := st |>
              = s <| data_received := data_received s |> <| close_code := code |>
                  <| close_reason := reason |> <| closed_at := at_ |> <| state := st |>) by done.
  rewrite E. apply release_received_post.
Qed.

(** Ending the session because the peer sent more than it may. *)
Lemma rank_closed s : (rank s <= state_rank SessionState.Closed)%nat.
Proof. unfold rank. destruct (state s); simpl; lia. Qed.

Lemma rank_closing s : is_active s = true -> (rank s <= state_rank SessionState.Closing)%nat.
Proof. unfold rank, is_active. destruct (state s); simpl; try done; lia. Qed.

Lemma abort_received_post s received code reason now s' e :
  wf s -> is_active s = true ->
  abort (s <| data_received := received |>) code reason now = (s', e) -> step_post s s' [] e.
Proof.
  intros Hwf Hact. unfold abort. simpl state. destruct (release _) as [s1 e1] eqn:Hr. intros H.
  apply release_received_post in Hr as (Hp & _ & _); [|done|done|apply rank_closed].
  assert (s' = s1 /\ e = e1 ++ [Effect.ResetQuicStream (id s1) code;
                    session_closed_event s1 None (Some code) (Some reason)]) as [-> ->]
    by (unfold is_active in Hact; destruct (state s); try done; by injection H as <- <-).
  apply post_app_quiet; [done|by repeat constructor].
Qed.

Lemma abort_post s code reason now s' e :
  wf s -> abort s code reason now = (s', e) ->
  step_post s s' [] e /\ is_active s' = false.
Proof.
  intros Hwf. unfold abort. destruct (is_active s) eqn:Hact.
  - intros H.
    assert (Hr : exists s1 e1, release (s <| close_code := Some code |>
      <| close_reason := Some reason |> <| closed_at := Some now |>
      <| state := SessionState.Closed |>) = (s1, e1) /\ s' = s1
      /\ e = e1 ++ [Effect.ResetQuicStream (id s1) code;
                    session_closed_event s1 None (Some code) (Some reason)]).
    { unfold is_active in Hact. destruct (release _) as [s1 e1] eqn:Hr. exists s1, e1.
      destruct (state s); try done; by injection H as <- <-. }
    destruct Hr as (s1 & e1 & Hr & -> & ->).
    apply release_post in Hr as (Hp & Hst & _); [|done|done|apply rank_closed].
    split; [apply post_app_quiet; [done|by repeat constructor]|]. unfold is_active. by rewrite Hst.
  - unfold is_active in Hact. intros H. destruct (state s) eqn:E; try done;
      injection H as <- <-; (split; [by apply post_quiet|]); unfold is_active; by rewrite E.
Qed.

Lemma post_app_answer s s' r effects more :
  step_post s s' [] effects -> answered more = [r] -> issued more = [] -> sent_total more = 0 ->
  step_post s s' [r] (effects ++ more).
Proof.
  intros [] Ha Hi Hs. split; [done| | |done|done|by rewrite issued_app, Hi, app_nil_r|done].
  - rewrite app_nil_r in step_requests0.
    rewrite answered_app, issued_app, Ha, Hi, app_nil_r, step_requests0, <- !app_assoc.
    apply Permutation_app_head. rewrite app_assoc. apply Permutation_app_comm.
  - intros Hfc. rewrite sent_total_app, (step_sent0 Hfc). lia.
Qed.

Lemma close_notice_quiet s code reason : quiet (close_notice s code reason).
Proof. unfold close_notice. by destruct (_ && _). Qed.

Lemma close_post s r code reason now s' e :
  wf s -> close s r code reason now = (s', e) ->
  step_post s s' [r] e /\ is_active s' = false.
Proof.
  intros Hwf. unfold close. destruct (is_active s) eqn:Hact; unfold is_active in Hact.
  - destruct (release _) as [s1 e1] eqn:Hr. intros H.
    apply release_post in Hr as (Hp & Hst & _); [|done|done|by apply rank_closing].
    assert (s' = s1 /\ e = e1 ++ [close_notice s1 code reason;
              session_closed_event s1 None (Some code) reason; request_done r]) as [-> ->]
      by (destruct (state s); try done; by injection H as <- <-).
    split; [|unfold is_active; by rewrite Hst].
    apply post_app_answer; [done|..]; pose proof (close_notice_quiet s1 code reason) as Hq;
      unfold close_notice in *; by destruct (_ && _).
  - intros H. destruct (state s) eqn:E; try done; injection H as <- <-;
      (split; [by apply post_answer|unfold is_active; by rewrite E]).
Qed.

Lemma recv_connect_close_post s code reason now s' e :
  wf s -> recv_connect_close s code reason now = (s', e) ->
  step_post s s' [] e /\ state s' = SessionState.Closed.
Proof.
  intros Hwf. unfold recv_connect_close. destruct (is_active s) eqn:Hact; unfold is_active in Hact.
  - destruct (release _) as [s1 e1] eqn:Hr. intros H.
    apply release_post in Hr as (Hp & Hst & _); [|done|done|apply rank_closed].
    assert (s' = s1 /\ e = e1 ++ [session_closed_event s1 None (Some code) (Some reason)]) as [-> ->]
      by (destruct (state s); try done; by injection H as <- <-).
    split; [apply post_app_quiet; [done|by repeat constructor]|done].
  - intros H. destruct (state s) eqn:E; try done; injection H as <- <-; (split; [|done]);
      [by apply post_quiet|]. apply post_quiet; try done; [|apply rank_closed]. destruct Hwf. split; try done.
    + intros _. apply wf_ended0. unfold is_active. by rewrite E.
    + intros Hfc. destruct (wf_flow_data0 Hfc). by split.
    + intros Hfc u. eapply limits_frame; [exact (wf_flow_streams0 Hfc u)|by destruct u..].
Qed.

Lemma reject_post s r headers status now s' e :
  wf s -> reject s r headers status now = (s', e) -> step_post s s' [r] e.
Proof.
  intros Hwf. unfold reject. destruct (is_client s); [intros [= <- <-]; by apply post_answer|].
  destruct (negb _); [intros [= <- <-]; by apply post_answer|].
  destruct (negb _); [intros [= <- <-]; by apply post_answer|].
  destruct (negb _); [intros [= <- <-]; by apply post_answer|].
  destruct (release _) as [s1 e1] eqn:Hr. intros [= <- <-].
  apply (release_post s (close_code s)) in Hr as (Hp & _ & _); [|done|done|apply rank_closed].
  by apply post_app_answer.
Qed.

Lemma recv_close_session_post s value now s' e :
  wf s -> recv_close_session s value now = (s', e) ->
  step_post s s' [] e.
Proof.
  intros Hwf. unfold recv_close_session.
  destruct (_ <? _); [intros H; by apply abort_post in H as []|].
  destruct (_ <? _); [intros H; by apply abort_post in H as []|].
  destruct (negb _); [intros H; by apply abort_post in H as []|].
  destruct (release _) as [s1 e1] eqn:Hr. intros [= <- <-].
  apply release_post in Hr as (Hp & _ & _); [|done|done|apply rank_closed].
  apply post_app_quiet; [done|by repeat constructor].
Qed.

(** ** Credit given to the peer *)

Lemma wf_local_max_data s m :
  wf s -> (flow_control_negotiated s = true -> is_active s = true ->
           data_received s <= m <= QUIC_VARINT_LIMIT) ->
  wf (s <| local_max_data := m |>).
Proof.
  intros [] H. split; try done.
  - intros Hfc. destruct (wf_flow_data0 Hfc). split; try done. intros Hact.
    destruct (data_received_limit0 Hact) as (? & ? & ?), (H Hfc Hact). simpl. split_and!; lia.
  - intros Hfc u. eapply limits_frame; [exact (wf_flow_streams0 Hfc u)|by destruct u..].
Qed.

Lemma replenish_data_credit_post s force s' e :
  wf s -> replenish_data_credit s force = (s', e) -> step_post s s' [] (option_list e).
Proof.
  intros Hwf H. apply replenish_data_credit_eq in H as (m & -> & Hq & Hm).
  apply post_quiet; try done. apply wf_local_max_data; [done|]. intros Hfc Hact.
  destruct (wf_flow_data s Hwf Hfc). destruct (data_received_limit0 Hact) as (? & ? & ?).
  destruct Hm as [->|(_ & -> & Hlt & Hle)]; [lia|]. split; [|lia].
  assert (0 <= (if force then 0 else receive_window s / 2))
    by (destruct force; [lia|apply Z.div_pos; lia]).
  assert (QUIC_VARINT_LIMIT <= U64_MAX) by done. unfold saturating_add in *. lia.
Qed.

Lemma replenish_streams_credit_post s u force s' e :
  wf s -> replenish_streams_credit s u force = (s', e) -> step_post s s' [] (option_list e).
Proof.
  intros Hwf H. apply replenish_streams_credit_eq in H as (mb & mu & Hs' & Hq & Hn & Hu).
  apply post_quiet; try (by subst s'). destruct Hwf.
  split; try (by subst s'); intros Hfc; rewrite Hs' in Hfc; simpl in Hfc.
  - subst s'. by destruct (wf_flow_data0 Hfc).
  - intros v. destruct (wf_flow_streams0 Hfc v). destruct (decide (v = u)) as [->|Hv].
    + destruct Hu as [Hu|(_ & _ & Hu & Hlt)].
      * eapply limits_frame; [exact (wf_flow_streams0 Hfc u)|..]; try done; subst s'; by destruct u.
      * assert (E : peer_closed u s' = peer_closed u s) by (subst s'; by destruct u).
        unfold saturating_add in Hu.
        split; rewrite ?E; try (subst s'; by destruct u); [|subst s'; destruct u; simpl in *; lia].
        subst s'; destruct u; simpl in *; lia.
    + assert (v = negb u) as -> by by destruct u, v.
      eapply limits_frame; [exact (wf_flow_streams0 Hfc (negb u))|..]; try done; subst s'; by destruct u.
Qed.

End SessionP.
