(* ===== verification/SessionSteps.v ===== *)
(** * Every session operation keeps the invariant

    One lemma per operation of the session: the invariant of [SessionProps] is
    kept and every request is answered, handed to the transport or still held. *)

From S2P Require Import Prelude.
From S2P Require Import Types.
From S2P Require Import Events.
From S2P Require Import Utils.
From S2P Require Import UtilsProps.
From S2P Require Import StreamMachine.
From S2P Require Import StreamProps.
From S2P Require Import SessionMachine.
From S2P Require Import SessionProps.

Module SessionS.
Import Session SessionP.

(** ** Opening streams *)

Lemma new_stream_live s i direction peer now :
  0 <= max_write_buffer_size s <= ISIZE_MAX -> live i (new_stream s i direction peer now).
Proof.
  intros H. split; [apply StreamP.new_wf; simpl; lia|done|by destruct direction|done].
Qed.

Lemma new_stream_idle s i direction peer now :
  Stream.is_blocked (new_stream s i direction peer now) = false
  /\ StreamP.outstanding (new_stream s i direction peer now) = [].
Proof. done. Qed.

(** The limits once a stream has been added, counted if the peer opened it. *)
Lemma limits_open u s s' i (st : Stream.t) :
  wf_limits u s -> streams s !! i = None ->
  streams s' = <[i:=st]> (streams s) -> is_client s' = is_client s ->
  local_opened u s' = local_opened u s -> peer_max u s' = peer_max u s ->
  peer_closed u s' = peer_closed u s -> local_max u s' = local_max u s ->
  initial_max u s' = initial_max u s ->
  peer_opened u s' = (if is_peer_stream (is_client s) u i
                      then u64_add (peer_opened u s) 1 else peer_opened u s) ->
  (is_peer_stream (is_client s) u i = true -> peer_opened u s < local_max u s) ->
  wf_limits u s'.
Proof.
  intros [] Hi Hs Hc Ho Hp Hpc Hm Hin Hop Hlt.
  assert (Hcount : peer_streams u s' = peer_streams u s + if is_peer_stream (is_client s) u i then 1 else 0)
    by (unfold peer_streams; rewrite Hs, Hc; by apply count_insert_new).
  pose proof (count_nonneg (is_peer_stream (is_client s) u) (streams s)) as Hnn.
  fold (peer_streams u s) in Hnn.
  assert (Hadd : is_peer_stream (is_client s) u i = true ->
                 u64_add (peer_opened u s) 1 = peer_opened u s + 1).
  { intros E. specialize (Hlt E). apply u64_add_small. lia. }
  destruct (is_peer_stream (is_client s) u i);
    [rewrite Hadd in Hop by done; specialize (Hlt eq_refl)|];
    split; rewrite ?Ho, ?Hp, ?Hop, ?Hpc, ?Hm, ?Hin, ?Hcount; lia.
Qed.

(** Add an idle stream. *)
Lemma insert_stream_wf s s' i st :
  wf s -> is_active s = true -> streams s !! i = None -> live i st -> Stream.is_blocked st = false ->
  (exists bo uo ps, s' = s <| streams := <[i:=st]> (streams s) |>
     <| peer_streams_bidi_opened := bo |> <| peer_streams_uni_opened := uo |>
     <| pending_streams := ps |> /\ len ps <= Z.max 0 (max_pending_streams s)) ->
  (flow_control_negotiated s = true -> forall u,
     peer_opened u s' = (if is_peer_stream (is_client s) u i
                         then u64_add (peer_opened u s) 1 else peer_opened u s)
     /\ (is_peer_stream (is_client s) u i = true -> peer_opened u s < local_max u s)) ->
  wf s' /\ (no_stall s -> no_stall s').
Proof.
  intros [] Hact Hi Hst Hb (bo & uo & ps & -> & Hps) Hlim. split.
  - split; try done; simpl.
    + intros j stj. rewrite lookup_insert_Some. intros [[<- <-]|[_ ?]]; auto.
    + intros E. unfold is_active in *. simpl in E. congruence.
    + intros j stj. rewrite lookup_insert_Some. intros [[<- <-]|[_ ?]]; [congruence|eauto].
    + intros Hfc. by destruct (wf_flow_data0 Hfc).
    + intros Hfc u. destruct (Hlim Hfc u) as [H1 H2].
      eapply (limits_open u s _ i st); [exact (wf_flow_streams0 Hfc u)|done|done|..];
        try done; by destruct u.
  - intros Hns j stj. simpl. rewrite lookup_insert_Some.
    intros [[<- <-]|[_ ?]] Hb'; [congruence|by apply (Hns j stj)].
Qed.

Lemma bind_stream_post s i r u now s' e :
  wf s -> streams s !! i = None -> utils.is_peer_initiated_stream i (is_client s) = false ->
  bind_stream s i r u now = (s', e) -> step_post s s' [r] e.
Proof.
  intros Hwf Hi Hlocal. unfold bind_stream. destruct (is_active s) eqn:Hact; simpl.
  - intros [= <- <-].
    set (st := new_stream s i _ false now).
    destruct (insert_stream_wf s (s <| streams := <[i:=st]> (streams s) |>) i st) as [Hwf' Hns];
      try done; [apply new_stream_live, (wf_buffer s Hwf)|..].
    + eexists (peer_streams_bidi_opened s), (peer_streams_uni_opened s), (pending_streams s).
      split; [by destruct s|apply (wf_pending_streams s Hwf)].
    + intros _ v. unfold is_peer_stream. rewrite Hlocal. by destruct v.
    + split; try done.
      * unfold requests. simpl. rewrite (stream_requests_insert _ _ _ Hi).
        change (StreamP.outstanding st) with (@nil RequestId). simpl. apply Permutation_app_comm.
      * intros _. simpl. lia.
  - intros [= <- <-]. apply post_answer; try done; by destruct u.
Qed.

(** A stream counted as opened and as closed at once. *)
Lemma refuse_stream_wf s bo uo bc uc (v : bool) :
  let s' := s <| peer_streams_bidi_opened := bo |> <| peer_streams_uni_opened := uo |>
              <| peer_streams_bidi_closed := bc |> <| peer_streams_uni_closed := uc |> in
  wf s ->
  (forall u, peer_opened u s' = (if Bool.eqb u v then u64_add (peer_opened u s) 1 else peer_opened u s)
             /\ peer_closed u s' = (if Bool.eqb u v then u64_add (peer_closed u s) 1 else peer_closed u s)) ->
  (flow_control_negotiated s = true -> peer_opened v s < local_max v s) ->
  wf s'.
Proof.
  intros s' Hwf Hc Hlt. destruct Hwf. split; try done.
  - intros Hfc. by destruct (wf_flow_data0 Hfc).
  - intros Hfc u. change (flow_control_negotiated s = true) in Hfc. specialize (Hlt Hfc).
    pose proof (wf_flow_streams0 Hfc u) as Hu. destruct (Hc u) as [Ho Hcl].
    destruct (decide (u = v)) as [->|Hne].
    + rewrite eqb_reflx in *. destruct Hu.
      pose proof (count_nonneg (is_peer_stream (is_client s) v) (streams s)) as Hnn.
      fold (peer_streams v s) in Hnn. rewrite u64_add_small in Ho, Hcl by lia.
      assert (local_max v s' = local_max v s /\ initial_max v s' = initial_max v s
              /\ peer_streams v s' = peer_streams v s) as (Em & Ei & Es) by by destruct v.
      split; rewrite ?Ho, ?Hcl, ?Em, ?Ei, ?Es; try lia. by destruct v.
    + rewrite (proj2 (eqb_false_iff u v)) in Ho, Hcl by done.
      eapply limits_frame; [exact Hu|..]; try done; by destruct u.
Qed.

(** The direction of a stream the peer opens. *)
Definition peer_direction (u : bool) : StreamDirection.t :=
  if u then StreamDirection.ReceiveOnly else StreamDirection.Bidirectional.

Lemma peer_direction_from_id i c :
  utils.is_peer_initiated_stream i c = true ->
  utils.stream_direction_from_id i c = peer_direction (utils.is_unidirectional_stream i).
Proof.
  unfold utils.stream_direction_from_id. intros ->. by destruct (utils.is_unidirectional_stream i).
Qed.

Lemma is_peer_stream_eqb i c u :
  utils.is_peer_initiated_stream i c = true ->
  is_peer_stream c u i = Bool.eqb u (utils.is_unidirectional_stream i).
Proof. unfold is_peer_stream. intros ->. by destruct u, (utils.is_unidirectional_stream i). Qed.

Lemma refuse_stream_quiet i direction code : Forall quiet (refuse_stream i direction code).
Proof. destruct direction; by repeat constructor. Qed.

Lemma register_stream_post s i v now s' e :
  wf s -> is_active s = true -> streams s !! i = None ->
  (forall u, is_peer_stream (is_client s) u i = Bool.eqb u v) ->
  (flow_control_negotiated s = true -> peer_opened v s < local_max v s) ->
  register_stream (count_opened_stream s (peer_direction v)) i (peer_direction v) now = (s', e) ->
  step_post s s' [] e.
Proof.
  intros Hwf Hact Hi Hkind Hlt. set (s1 := count_opened_stream s _). unfold register_stream.
  change (state s1) with (state s) || (assert (state s1 = state s) as -> by by destruct v).
  assert (Hmax : max_pending_streams s1 = max_pending_streams s
                 /\ pending_streams s1 = pending_streams s) by by destruct v.
  destruct Hmax as [-> ->].
  assert (Hadd : forall ps st, len ps <= Z.max 0 (max_pending_streams s) ->
    live i st -> Stream.is_blocked st = false -> StreamP.outstanding st = [] ->
    let s2 := s1 <| pending_streams := ps |> in
    forall e, Forall quiet e -> step_post s (s2 <| streams := <[i:=st]> (streams s2) |>) [] e).
  { intros ps st Hps Hst Hb Ho s2 e' Hq.
    destruct (insert_stream_wf s (s2 <| streams := <[i:=st]> (streams s2) |>) i st)
      as [Hwf' Hns]; try done.
    - subst s1. destruct v.
      + by exists (peer_streams_bidi_opened s), (u64_add (peer_streams_uni_opened s) 1), ps.
      + by exists (u64_add (peer_streams_bidi_opened s) 1), (peer_streams_uni_opened s), ps.
    - intros Hfc u. rewrite Hkind. subst s1 s2. destruct u, v; simpl; split; auto; done.
    - apply post_quiet; try done; [|by destruct v..].
      assert (streams s2 = streams s) as -> by by destruct v.
      unfold requests. subst s1 s2. simpl. rewrite (stream_requests_insert _ _ _ Hi), Ho. by destruct v. }
  destruct (bool_decide (state s = SessionState.Connecting)).
  - destruct (_ <=? _) eqn:Hfull; bool_to_prop.
    + unfold count_closed_stream.
      destruct (replenish_streams_credit _ _ _) as [s3 e3] eqn:Hr. intros [= <- <-].
      apply post_quiet_app; [|apply refuse_stream_quiet]. apply replenish_streams_credit_post in Hr.
      * destruct Hr. destruct v; by split.
      * destruct v.
        -- refine (refuse_stream_wf s (peer_streams_bidi_opened s)
             (u64_add (peer_streams_uni_opened s) 1) (peer_streams_bidi_closed s)
             (u64_add (peer_streams_uni_closed s) 1) true Hwf _ Hlt). by intros [].
        -- refine (refuse_stream_wf s (u64_add (peer_streams_bidi_opened s) 1)
             (peer_streams_uni_opened s) (u64_add (peer_streams_bidi_closed s) 1)
             (peer_streams_uni_closed s) false Hwf _ Hlt). by intros [].
    + intros [= <- <-]. apply Hadd; try done.
      * rewrite len_app. change (len [i]) with 1. lia.
      * apply new_stream_live. destruct v; apply (wf_buffer s Hwf).
  - intros [= <- <-].
    specialize (Hadd (pending_streams s) (new_stream s1 i (peer_direction v) true now)).
    destruct v; apply Hadd; try done; try (apply new_stream_live, (wf_buffer s Hwf));
      try apply (wf_pending_streams s Hwf); by repeat constructor.
Qed.

Lemma handle_stream_opened_post s i now s' e :
  wf s -> streams s !! i = None -> utils.is_peer_initiated_stream i (is_client s) = true ->
  handle_stream_opened s i now = (s', e) -> step_post s s' [] e.
Proof.
  intros Hwf Hi Hpeer. unfold handle_stream_opened. rewrite (peer_direction_from_id _ _ Hpeer).
  set (v := utils.is_unidirectional_stream i).
  destruct (is_active s) eqn:Hact; cbn [negb];
    [|intros [= <- <-]; apply post_quiet; try done; apply refuse_stream_quiet].
  rewrite (bool_decide_false (peer_direction v = _)) by by destruct v.
  destruct (peer_streams_exhausted s (peer_direction v)) eqn:Hex.
  - destruct (abort _ _ _ _) as [s1 e1] eqn:Ha. intros [= <- <-].
    apply post_quiet_app; [|apply refuse_stream_quiet]. by apply abort_post in Ha as [].
  - apply register_stream_post; try done; [intros u; by apply is_peer_stream_eqb|].
    intros Hfc. unfold peer_streams_exhausted in Hex. rewrite Hfc in Hex.
    destruct v; simpl in Hex |- *; bool_to_prop; lia.
Qed.

(** ** Creating streams *)

(** Change the number of streams opened locally and the blocked requests. *)
Lemma wf_local_streams s s' :
  wf s -> is_active s = true ->
  (exists bo uo bq uq, s' = s <| local_streams_bidi_opened := bo |>
     <| local_streams_uni_opened := uo |>
     <| blocked_stream_requests_bidi := bq |> <| blocked_stream_requests_uni := uq |>) ->
  (flow_control_negotiated s = true -> forall u, 0 <= local_opened u s' <= peer_max u s) ->
  wf s' /\ (no_stall s -> no_stall s').
Proof.
  intros [] Hact (bo & uo & bq & uq & ->) Hlim. split; [|done].
  split; try done.
  - intros E. unfold is_active in *. simpl in E. congruence.
  - intros Hfc. by destruct (wf_flow_data0 Hfc).
  - intros Hfc u. specialize (Hlim Hfc u). destruct (wf_flow_streams0 Hfc u).
    split; try (by destruct u). destruct u; simpl in *; tauto.
Qed.

(** The requests of a session around those blocked in one direction. *)
Lemma requests_blocked s (u : bool) :
  requests s ≡ₚ blocked_requests u s ++ stream_requests (streams s)
                ++ blocked_requests (negb u) s ++ pending_datagram_requests s.
Proof.
  unfold requests. destruct u; simpl; solve_Permutation.
Qed.

Lemma create_stream_post s r u s' e :
  wf s -> create_stream s r u = (s', e) -> step_post s s' [r] e.
Proof.
  intros Hwf. unfold create_stream. destruct (is_active s) eqn:Hact; cbn [negb];
    [|intros [= <- <-]; by apply post_answer].
  destruct (flow_control_negotiated s && _) eqn:Hlim.
  - set (s1 := if u then _ else _).
    destruct (emit_streams_blocked s1 u) as [s2 e2] eqn:He. intros [= <- <-].
    apply emit_streams_blocked_eq in He as (v & w & -> & Hq). apply post_ignore_last_streams.
    destruct (wf_local_streams s s1) as [Hwf1 Hn1]; [done|done|..].
    + subst s1. destruct u.
      * by exists (local_streams_bidi_opened s), (local_streams_uni_opened s),
          (blocked_stream_requests_bidi s), (blocked_stream_requests_uni s ++ [r]).
      * by exists (local_streams_bidi_opened s), (local_streams_uni_opened s),
          (blocked_stream_requests_bidi s ++ [r]), (blocked_stream_requests_uni s).
    + intros Hfc x. destruct (wf_flow_streams s Hwf Hfc x). subst s1. destruct u, x; simpl in *; tauto.
    + split; try done.
      * rewrite quiet_answered, quiet_issued by done. simpl.
        rewrite (requests_blocked s u), (requests_blocked s1 u), <- !app_assoc.
        subst s1. destruct u; simpl; solve_Permutation.
      * intros _. rewrite quiet_sent_total by done. subst s1. destruct u; simpl; lia.
      * subst s1. by destruct u.
      * intros _. rewrite quiet_issued by done. subst s1. by destruct u.
      * subst s1. by destruct u.
  - intros [= <- <-]. set (s1 := if u then _ else _).
    destruct (wf_local_streams s s1) as [Hwf1 Hn1]; [done|done|..].
    + subst s1. destruct u.
      * by exists (local_streams_bidi_opened s), (u64_add (local_streams_uni_opened s) 1),
          (blocked_stream_requests_bidi s), (blocked_stream_requests_uni s).
      * by exists (u64_add (local_streams_bidi_opened s) 1), (local_streams_uni_opened s),
          (blocked_stream_requests_bidi s), (blocked_stream_requests_uni s).
    + intros Hfc x. rewrite Hfc in Hlim. simpl in Hlim.
      destruct (wf_flow_streams s Hwf Hfc x). subst s1.
      destruct u, x; simpl in *; bool_to_prop; try lia; rewrite u64_add_small; lia.
    + split; try done.
      * simpl. rewrite Permutation_app_comm. subst s1. by destruct u.
      * intros _. subst s1. destruct u; simpl; lia.
      * subst s1. by destruct u.
      * intros Hfc. rewrite Hfc in Hlim. simpl in Hlim. destruct (wf_flow_streams s Hwf Hfc u).
        unfold opened. subst s1. destruct u; simpl in *; bool_to_prop; rewrite u64_add_small; done || lia.
      * subst s1. by destruct u.
Qed.

(** A deferred creation gives its slot back and waits again: the session moves on
    from one that holds a stream less. *)
Lemma defer_stream_post s r u s' e :
  wf s -> (flow_control_negotiated s = true -> 1 <= local_opened u s) ->
  defer_stream s r u = (s', e) ->
  exists s1, step_post s1 s' [r] e /\ wf s1 /\ requests s1 = requests s
  /\ data_sent s1 = data_sent s /\ (no_stall s -> no_stall s1) /\ constants s1 = constants s
  /\ rank s1 = rank s
  /\ (flow_control_negotiated s = true -> forall x,
       local_opened x s - (if Bool.eqb x u then 1 else 0) <= local_opened x s1).
Proof.
  intros Hwf Hone. unfold defer_stream. destruct (is_active s) eqn:Hact; cbn [negb]; intros H.
  2: { injection H as <- <-. exists s. split_and!; try done; [by apply post_answer|].
       intros _ x. destruct (Bool.eqb x u); lia. }
  exists (if u then s <| local_streams_uni_opened := u64_sub (local_streams_uni_opened s) 1 |>
          else s <| local_streams_bidi_opened := u64_sub (local_streams_bidi_opened s) 1 |>).
  set (s1 := if u then _ else _).
  assert (Hlim : flow_control_negotiated s = true -> forall x,
    0 <= local_opened x s1 <= peer_max x s
    /\ local_opened x s - (if Bool.eqb x u then 1 else 0) <= local_opened x s1).
  { intros Hfc x. specialize (Hone Hfc). destruct (wf_flow_streams s Hwf Hfc x).
    subst s1. destruct u, x; simpl in *; try rewrite u64_sub_small; lia. }
  destruct (wf_local_streams s s1) as [Hwf1 Hn1]; [done|done| |apply Hlim|].
  { subst s1. destruct u.
    - by exists (local_streams_bidi_opened s), (u64_sub (local_streams_uni_opened s) 1),
        (blocked_stream_requests_bidi s), (blocked_stream_requests_uni s).
    - by exists (u64_sub (local_streams_bidi_opened s) 1), (local_streams_uni_opened s),
        (blocked_stream_requests_bidi s), (blocked_stream_requests_uni s). }
  split_and!; try done; try (by subst s1; destruct u); [|intros Hfc x; by apply Hlim].
  destruct (wf_local_streams s s') as [Hwf2 Hn2]; [done|done|..].
  - destruct u; injection H as <- <-.
    + by exists (local_streams_bidi_opened s), (u64_sub (local_streams_uni_opened s) 1),
        (blocked_stream_requests_bidi s), (blocked_stream_requests_uni s ++ [r]).
    + by exists (u64_sub (local_streams_bidi_opened s) 1), (local_streams_uni_opened s),
        (blocked_stream_requests_bidi s ++ [r]), (blocked_stream_requests_uni s).
  - intros Hfc x. destruct (Hlim Hfc x) as [Hx _]. subst s1.
    destruct u, x; injection H as <- <-; simpl in *; lia.
  - assert (e = []) as -> by (destruct u; by injection H as <- <-).
    assert (s' = if u then s1 <| blocked_stream_requests_uni := blocked_stream_requests_uni s ++ [r] |>
                 else s1 <| blocked_stream_requests_bidi := blocked_stream_requests_bidi s ++ [r] |>)
      as -> by (subst s1; destruct u; by injection H as <-).
    subst s1. split; try done; try (by destruct u).
    + unfold requests. destruct u; simpl; solve_Permutation.
    + intros _. destruct u; simpl; lia.
Qed.

(** The loop of [flush_blocked_stream_requests]: requests leave in order, as many
    as the limit allows. *)
Lemma unblock_requests_spec fc limit opened queue opened' blocked created :
  unblock_requests fc limit opened queue = (opened', blocked, created) ->
  queue = created ++ blocked /\ (queue = [] -> opened' = opened)
  /\ (fc = true -> 0 <= opened <= limit -> limit <= U64_MAX ->
      opened' = opened + len created /\ opened' <= limit
      /\ (blocked = [] \/ opened' = limit)).
Proof.
  revert opened opened' blocked created.
  induction queue as [|r queue IH]; intros opened opened' blocked created; cbn [unblock_requests].
  { intros [= <- <- <-]. split_and!; [done|done|]. intros. rewrite len_nil. split_and!; [lia|lia|auto]. }
  destruct (negb fc || _) eqn:Hg.
  - destruct (unblock_requests _ _ _ queue) as [[o b] c] eqn:Hrec. intros [= <- <- <-].
    apply IH in Hrec as (-> & _ & Hr). split_and!; [done|done|]. intros -> Ho Hl. simpl in Hg. bool_to_prop.
    rewrite u64_add_small in Hr by lia. destruct Hr as (-> & ? & ?); [done|lia|done|].
    rewrite len_cons. split_and!; [lia|lia|done].
  - intros [= <- <- <-]. split_and!; [done|done|]. intros -> Ho Hl. simpl in Hg. bool_to_prop.
    rewrite len_nil. split_and!; [lia|lia|right; lia].
Qed.

Lemma issued_creates ids i u :
  let effects := (fun r => Effect.CreateQuicStream r i u) <$> ids in
  answered effects = [] /\ issued effects = (fun r => (r, u)) <$> ids /\ sent_total effects = 0.
Proof.
  induction ids as [|r ids (H1 & H2 & H3)]; [done|].
  split_and!; [exact H1| |exact H3]. simpl in H2. cbn. by f_equal.
Qed.

Lemma fst_pairs (ids : list RequestId) (u : bool) : ((fun r => (r, u)) <$> ids).*1 = ids.
Proof. induction ids as [|r ids IH]; [done|]. cbn. by f_equal. Qed.

Lemma grown_pairs (ids : list RequestId) (u : bool) n :
  grown ((fun r => (r, u)) <$> ids) n
  = if u then (n.1, n.2 + len ids) else (n.1 + len ids, n.2).
Proof.
  destruct n as [x y]. induction ids as [|r ids IH]; [by destruct u; simpl; rewrite len_nil, Z.add_0_r|].
  rewrite fmap_cons. cbn [grown foldr]. fold (grown ((fun r => (r, u)) <$> ids) (x, y)).
  rewrite IH, len_cons. destruct u; simpl; f_equal; lia.
Qed.

Lemma flush_blocked_stream_requests_post s u s' e :
  wf s -> flush_blocked_stream_requests s u = (s', e) -> step_post s s' [] e.
Proof.
  intros Hwf. unfold flush_blocked_stream_requests.
  assert (Hview : (if u
    then (local_streams_uni_opened s, peer_max_streams_uni s, blocked_stream_requests_uni s)
    else (local_streams_bidi_opened s, peer_max_streams_bidi s, blocked_stream_requests_bidi s))
    = (local_opened u s, peer_max u s, blocked_requests u s)) by by destruct u.
  rewrite Hview. clear Hview.
  destruct (unblock_requests _ _ _ _) as [[opened blocked] unblocked] eqn:Hq.
  apply unblock_requests_spec in Hq as (Hqueue & Hsame & Hlim).
  set (s1 := if u then _ else _).
  destruct (emit_streams_blocked s1 u) as [s2 e2] eqn:He. intros [= <- <-].
  apply emit_streams_blocked_eq in He as (v & w & -> & Hq2). apply post_ignore_last_streams.
  apply post_app_quiet; [|done].
  destruct (is_active s) eqn:Hact.
  - destruct (wf_local_streams s s1) as [Hwf1 Hn1]; [done|done|..].
    + subst s1. destruct u.
      * by exists (local_streams_bidi_opened s), opened, (blocked_stream_requests_bidi s), blocked.
      * by exists opened, (local_streams_uni_opened s), blocked, (blocked_stream_requests_uni s).
    + intros Hfc x. destruct (wf_flow_streams s Hwf Hfc x).
      destruct (wf_flow_streams s Hwf Hfc u). pose proof (len_nonneg unblocked).
      destruct (Hlim Hfc) as (? & ? & _); [tauto|tauto|].
      subst s1. destruct u, x; simpl in *; lia.
    + destruct (issued_creates unblocked (id s1) u) as (Ha & Hi & Ht).
      split; try done; rewrite ?Ha, ?Hi, ?Ht, ?fst_pairs.
      * rewrite (requests_blocked s u), (requests_blocked s1 u), Hqueue.
        subst s1. destruct u; simpl; solve_Permutation.
      * intros _. subst s1. destruct u; simpl; lia.
      * subst s1. by destruct u.
      * intros Hfc. destruct (wf_flow_streams s Hwf Hfc u), (Hlim Hfc) as (Ho & _); [tauto|tauto|].
        rewrite grown_pairs. unfold SessionP.opened. subst s1. destruct u; simpl in *; f_equal; lia.
      * subst s1. by destruct u.
  - destruct (wf_ended s Hwf Hact) as (Hs & Hr & _).
    assert (Hb : blocked_requests u s = []).
    { unfold requests in Hr. apply app_eq_nil in Hr as [_ [Hb1 [Hb2 _]%app_eq_nil]%app_eq_nil].
      by destruct u. }
    specialize (Hsame Hb). rewrite Hb in Hqueue. symmetry in Hqueue. apply app_eq_nil in Hqueue as [-> ->].
    assert (Hs1 : exists bo uo, s1 = s <| local_streams_bidi_opened := bo |>
                                        <| local_streams_uni_opened := uo |>
                  /\ forall x, local_opened x s1 = if Bool.eqb x u then opened else local_opened x s).
    { subst s1. destruct u; simpl in Hb; [exists (local_streams_bidi_opened s), opened
        |exists opened, (local_streams_uni_opened s)]; split; try (by intros []);
        rewrite <- Hb; by destruct s. }
    destruct Hs1 as (bo & uo & -> & Hop). apply post_quiet; try done; cycle 1.
    { pose proof (Hop false) as H1. pose proof (Hop true) as H2. unfold SessionP.opened. simpl in *.
      destruct u; simpl in *; congruence. }
    pose proof (wf_flow_streams s Hwf) as Hfl. destruct Hwf. split; try done.
    + intros Hfc. by destruct (wf_flow_data0 Hfc).
    + intros Hfc x. change (flow_control_negotiated s = true) in Hfc.
      destruct (Hfl Hfc u), (Hfl Hfc x), (Hlim Hfc) as (Ho & Hle & _); [tauto|tauto|].
      split; try (by destruct x); rewrite Hop. destruct (Bool.eqb x u) eqn:E; [|by destruct x].
      apply eqb_prop in E as ->. rewrite len_nil in Ho. destruct u; simpl in *; lia.
Qed.

(** ** Operations on one stream *)

Lemma handle_stream_data_acknowledged_post s i s' e :
  wf s -> (forall st, streams s !! i = Some st -> Stream.pending_write_request st = None) ->
  handle_stream_data_acknowledged s i = (s', e) -> step_post s s' [] e.
Proof.
  intros Hwf Hack. unfold handle_stream_data_acknowledged.
  destruct (streams s !! i) as [st|] eqn:Hi; [|intros [= <- <-]; by apply post_quiet].
  intros H. by apply (stream_op_post s i st StreamP.OpAcknowledged _ []) in H; auto;
    intros ? ?%elem_of_nil.
Qed.

(** The shape shared by the handlers that step one stream and drop it if closed. *)
Lemma stream_handler_post s i st o stream_effects st' r s' e e' :
  wf s -> streams s !! i = Some st -> StreamP.step o st = (st', stream_effects) ->
  StreamP.is_send_op o = false -> o <> StreamP.OpAcknowledged ->
  StreamP.submitted o = r -> (forall x, x ∈ r -> x ∉ requests s) ->
  answered e' = answered stream_effects -> issued e' = issued stream_effects ->
  sent_total e' = sent_total stream_effects ->
  handle_closed (s <| streams := <[i:=st']> (streams s) |>) i = (s', e) ->
  step_post s s' r (e' ++ e).
Proof.
  intros Hwf Hi Hstep Ho Hna <- Hr Ha His Ht Hc.
  eapply post_effects; [by eapply stream_op_post|..];
    by rewrite ?answered_app, ?issued_app, ?sent_total_app, ?Ha, ?His, ?Ht.
Qed.

Lemma read_stream_post s i r max_bytes s' e :
  wf s -> r ∉ requests s -> read_stream s i r max_bytes = (s', e) -> step_post s s' [r] e.
Proof.
  intros Hwf Hr. unfold read_stream.
  destruct (streams s !! i) as [st|] eqn:Hi; [|intros [= <- <-]; by apply post_answer].
  destruct (Stream.read _ _ _) as [st' effs] eqn:Hs.
  destruct (handle_closed _ i) as [s2 e2] eqn:Hc. intros [= <- <-].
  eapply (stream_handler_post s i st (StreamP.OpRead r max_bytes)); try done.
  by intros ? ->%list_elem_of_singleton.
Qed.

Lemma reset_stream_post s i r code s' e :
  wf s -> r ∉ requests s -> reset_stream s i r code = (s', e) -> step_post s s' [r] e.
Proof.
  intros Hwf Hr. unfold reset_stream.
  destruct (streams s !! i) as [st|] eqn:Hi; [|intros [= <- <-]; by apply post_answer].
  destruct (Stream.reset _ _ _) as [st' effs] eqn:Hs.
  destruct (handle_closed _ i) as [s2 e2] eqn:Hc. intros [= <- <-].
  eapply (stream_handler_post s i st (StreamP.OpReset r code)); try done.
  by intros ? ->%list_elem_of_singleton.
Qed.

Lemma stop_stream_post s i r code s' e :
  wf s -> r ∉ requests s -> stop_stream s i r code = (s', e) -> step_post s s' [r] e.
Proof.
  intros Hwf Hr. unfold stop_stream.
  destruct (streams s !! i) as [st|] eqn:Hi; [|intros [= <- <-]; by apply post_answer].
  destruct (Stream.stop _ _ _) as [st' effs] eqn:Hs.
  destruct (handle_closed _ i) as [s2 e2] eqn:Hc. intros [= <- <-].
  eapply (stream_handler_post s i st (StreamP.OpStop r code)); try done.
  by intros ? ->%list_elem_of_singleton.
Qed.

Lemma session_recv_stop_sending_post s i code s' e :
  wf s -> recv_stop_sending s i code = (s', e) -> step_post s s' [] e.
Proof.
  intros Hwf. unfold recv_stop_sending.
  destruct (streams s !! i) as [st|] eqn:Hi; [|intros [= <- <-]; by apply post_quiet].
  destruct (Stream.recv_stop_sending _ _) as [st' effs] eqn:Hs.
  destruct (handle_closed _ i) as [s2 e2] eqn:Hc. intros [= <- <-].
  destruct (suppress_observed (s <| streams := <[i:=st']> (streams s) |>) i effs) as (? & ? & ?).
  eapply (stream_handler_post s i st (StreamP.OpRecvStopSending code)); try done.
  by intros ? ?%elem_of_nil.
Qed.

Lemma recv_stream_reset_post s i code s' e :
  wf s -> recv_stream_reset s i code = (s', e) -> step_post s s' [] e.
Proof.
  intros Hwf. unfold recv_stream_reset.
  destruct (streams s !! i) as [st|] eqn:Hi; [|intros [= <- <-]; by apply post_quiet].
  destruct (Stream.recv_reset _ _) as [st' effs] eqn:Hs.
  destruct (handle_closed _ i) as [s2 e2] eqn:Hc. intros [= <- <-].
  destruct (suppress_observed (s <| streams := <[i:=st']> (streams s) |>) i effs) as (? & ? & ?).
  eapply (stream_handler_post s i st (StreamP.OpRecvReset code)); try done.
  by intros ? ?%elem_of_nil.
Qed.

(** Account for data received, within the limit. *)
Lemma wf_received s received consumed m :
  wf s -> (flow_control_negotiated s = true -> is_active s = true ->
           0 <= received <= m /\ consumed = received /\ m <= QUIC_VARINT_LIMIT) ->
  wf (s <| data_received := received |> <| data_consumed := consumed |> <| local_max_data := m |>).
Proof.
  intros [] H. split; try done.
  - intros Hfc. destruct (wf_flow_data0 Hfc). split; try done. intros Hact. simpl.
    destruct (H Hfc Hact) as (? & ? & ?). done.
  - intros Hfc u. eapply limits_frame; [exact (wf_flow_streams0 Hfc u)|by destruct u..].
Qed.

Lemma recv_stream_data_post s i data fin now s' e :
  wf s -> len data <= ISIZE_MAX -> recv_stream_data s i data fin now = (s', e) ->
  step_post s s' [] e.
Proof.
  intros Hwf Hlen. unfold recv_stream_data.
  destruct (streams s !! i) as [st|] eqn:Hi; [|intros [= <- <-]; by apply post_quiet].
  pose proof (is_active_ended s i st Hwf Hi) as Hact.
  set (received := u64_add (data_received s) (len data)).
  set (s1 := s <| data_received := received |>).
  destruct (flow_control_negotiated s1 && _) eqn:Hg.
  { apply abort_received_post; done. }
  destruct (Stream.recv_data st data fin) as [st' effs] eqn:Hs.
  destruct (replenish_data_credit _ false) as [s3 e3] eqn:Hr.
  destruct (handle_closed s3 i) as [s4 e4] eqn:Hc. intros [= <- <-].
  apply replenish_data_credit_eq in Hr as (m & -> & Hq & Hm). simpl in Hm.
  set (consumed := u64_add (data_consumed s) (len data)) in *.
  assert (Hwfa : wf (s <| data_received := received |> <| data_consumed := consumed |>
                       <| local_max_data := m |>)).
  { apply wf_received; [done|]. intros Hfc _. simpl in Hg. rewrite Hfc in Hg. simpl in Hg.
    bool_to_prop. destruct (wf_flow_data s Hwf Hfc).
    destruct (data_received_limit0 Hact) as (? & Heq & ?). pose proof (len_nonneg data).
    assert (QUIC_VARINT_LIMIT + ISIZE_MAX <= U64_MAX) by done.
    assert (received = data_received s + len data) as Hrec by (apply u64_add_small; lia).
    assert (consumed = received) as -> by (unfold consumed; by rewrite Heq).
    destruct Hm as [->|(_ & -> & Hlt & Hle)]; [split_and!; lia|].
    pose proof (Z.div_pos (receive_window s) 2 ltac:(lia) ltac:(lia)).
    unfold saturating_add in *. split_and!; lia. }
  destruct (stream_op_post (s <| data_received := received |> <| data_consumed := consumed |>
      <| local_max_data := m |>) i st (StreamP.OpRecvData data fin) st' effs s4 e4)
    as [Hw Hreq Hsent Hns Hk]; try done; [by intros ? ?%elem_of_nil|].
  rewrite app_assoc. eapply post_effects with (effects := effs ++ e4).
  - by split.
  - by rewrite !answered_app, (quiet_answered (option_list e3)), app_nil_r.
  - by rewrite !issued_app, (quiet_issued (option_list e3)), app_nil_r.
  - rewrite !sent_total_app, (quiet_sent_total (option_list e3)) by done. lia.
Qed.

(** ** Datagrams *)

Lemma wf_queues s requests_ datagrams capsules pending :
  wf s -> is_active s = true ->
  len datagrams <= Z.max 0 (max_pending_datagrams s) ->
  len capsules <= Z.max 0 (max_pending_capsules s) ->
  len pending <= Z.max 0 (max_pending_streams s) ->
  wf (s <| pending_datagram_requests := requests_ |> <| pending_datagrams := datagrams |>
        <| pending_capsules := capsules |> <| pending_streams := pending |>).
Proof.
  intros [] Hact Hd Hc Hp. split; try done.
  - intros E. unfold is_active in *. simpl in E. congruence.
  - intros Hfc. by destruct (wf_flow_data0 Hfc).
  - intros Hfc u. eapply limits_frame; [exact (wf_flow_streams0 Hfc u)|by destruct u..].
Qed.

Lemma wf_datagrams s requests_ datagrams :
  wf s -> is_active s = true -> len datagrams <= Z.max 0 (max_pending_datagrams s) ->
  wf (s <| pending_datagram_requests := requests_ |> <| pending_datagrams := datagrams |>).
Proof.
  intros Hwf Hact Hd.
  refine (wf_queues s requests_ datagrams (pending_capsules s) (pending_streams s) Hwf Hact Hd _ _);
    by destruct Hwf.
Qed.

Lemma len_tail_le {A} (x : A) l n : len (x :: l) <= n -> len l <= n.
Proof. rewrite len_cons. lia. Qed.

Lemma read_datagram_post s r s' e :
  wf s -> read_datagram s r = (s', e) -> step_post s s' [r] e.
Proof.
  intros Hwf. unfold read_datagram. destruct (is_active s) eqn:Hact; cbn [negb];
    [|intros [= <- <-]; by apply post_answer].
  pose proof (wf_pending_datagrams s Hwf) as Hpd.
  assert (Hwait : step_post s
    (s <| pending_datagram_requests := pending_datagram_requests s ++ [r] |>) [r] []).
  { split; try done.
    - by refine (wf_datagrams s _ (pending_datagrams s) Hwf Hact _).
    - unfold requests. simpl. by rewrite <- !app_assoc.
    - intros _. simpl. lia. }
  destruct (negb _); [|by intros [= <- <-]].
  destruct (pending_datagrams s) as [|data rest] eqn:Hd; [by intros [= <- <-]|].
  intros [= <- <-]. split; try done.
  - refine (wf_datagrams s (pending_datagram_requests s) rest Hwf Hact _). by eapply len_tail_le.
  - apply Permutation_app_comm.
  - intros _. simpl. lia.
Qed.

Lemma recv_datagram_post s data s' e :
  wf s -> recv_datagram s data = (s', e) -> step_post s s' [] e.
Proof.
  intros Hwf. unfold recv_datagram. destruct (is_active s) eqn:Hact; cbn [negb];
    [|intros [= <- <-]; by apply post_quiet].
  pose proof (wf_pending_datagrams s Hwf) as Hpd.
  assert (Hstore : forall u, (if max_pending_datagrams s <=? len (pending_datagrams s) then (s, [])
    else (s <| pending_datagrams := pending_datagrams s ++ [data] |>, [])) = u ->
    step_post s u.1 [] u.2).
  { intros u <-. destruct (_ <=? _) eqn:Hfull; bool_to_prop; [by apply post_quiet|].
    apply post_quiet; try done.
    refine (wf_datagrams s (pending_datagram_requests s) (pending_datagrams s ++ [data]) Hwf Hact _).
    rewrite len_app. change (len [data]) with 1. lia. }
  destruct (negb _); [|intros H; apply (Hstore (s', e) H)].
  destruct (pending_datagram_requests s) as [|r rest] eqn:Hr; [intros H; apply (Hstore (s', e) H)|].
  intros [= <- <-]. split; try done.
  - by refine (wf_datagrams s rest (pending_datagrams s) Hwf Hact _).
  - unfold requests. simpl. rewrite Hr. solve_Permutation.
  - intros _. simpl. lia.
Qed.

(** ** Capsules *)

Lemma wf_state s st ready protocol :
  wf s -> is_active s = true ->
  match st with SessionState.Closed | SessionState.Closing => False | _ => True end ->
  wf (s <| ready_at := ready |> <| wt_protocol := protocol |> <| state := st |>).
Proof.
  intros [] Hact Hst. split; try done.
  - intros E. unfold is_active in E. simpl in E. by destruct st.
  - intros Hfc. destruct (wf_flow_data0 Hfc). split; try done. intros _. by apply data_received_limit0.
  - intros Hfc u. eapply limits_frame; [exact (wf_flow_streams0 Hfc u)|by destruct u..].
Qed.

Lemma recv_data_blocked_post s s' e :
  wf s -> recv_data_blocked s = (s', e) -> step_post s s' [] e.
Proof.
  intros Hwf. unfold recv_data_blocked.
  destruct (replenish_data_credit s true) as [s1 [effect|]] eqn:Hr; intros [= <- <-];
    apply replenish_data_credit_post in Hr; try done.
  apply (post_app_quiet _ _ _ []); [done|by repeat constructor].
Qed.

Lemma wf_peer_max_data s m :
  wf s -> peer_max_data s <= m <= QUIC_VARINT_LIMIT -> wf (s <| peer_max_data := m |>).
Proof.
  intros [] Hm. split; try done.
  - intros Hfc. destruct (wf_flow_data0 Hfc). split; try done. simpl. lia.
  - intros Hfc u. eapply limits_frame; [exact (wf_flow_streams0 Hfc u)|by destruct u..].
Qed.

Lemma recv_max_data_post s value now s' e :
  wf s -> is_active s = true -> recv_max_data s value now = (s', e) -> step_post s s' [] e.
Proof.
  intros Hwf Hact. unfold recv_max_data.
  destruct (utils.read_varint value) as [[m rest]|] eqn:Hv; [|intros H; by apply abort_post in H as []].
  apply read_varint_spec in Hv as [Hm _].
  destruct (peer_max_data s <? m) eqn:Hlt; bool_to_prop; [|intros H; by apply abort_post in H as []].
  destruct (flush_blocked_writes _) as [s1 e1] eqn:Hf. intros [= <- <-].
  apply flush_blocked_writes_post in Hf as [Hp Hn]; [|apply wf_peer_max_data; [done|lia]|done].
  apply (post_quiet_app _ _ _ _ [_]); [|by repeat constructor]. destruct Hp. by split.
Qed.

Lemma wf_peer_max_streams s mb mu :
  wf s -> (flow_control_negotiated s = true -> peer_max_streams_bidi s <= mb <= U64_MAX) ->
  (flow_control_negotiated s = true -> peer_max_streams_uni s <= mu <= U64_MAX) ->
  wf (s <| peer_max_streams_bidi := mb |> <| peer_max_streams_uni := mu |>).
Proof.
  intros [] Hb Hu. split; try done.
  - intros Hfc. by destruct (wf_flow_data0 Hfc).
  - intros Hfc u. destruct (wf_flow_streams0 Hfc u). specialize (Hb Hfc). specialize (Hu Hfc).
    split; try (by destruct u). destruct u; simpl in *; lia.
Qed.

Lemma recv_max_streams_bidi_post s value now s' e :
  wf s -> recv_max_streams_bidi s value now = (s', e) -> step_post s s' [] e.
Proof.
  intros Hwf. unfold recv_max_streams_bidi.
  destruct (utils.read_varint value) as [[m rest]|] eqn:Hv; [|intros H; by apply abort_post in H as []].
  apply read_varint_spec in Hv as [Hm _].
  destruct (_ <? m); [intros H; by apply abort_post in H as []|].
  destruct (_ <? m) eqn:Hlt; bool_to_prop; [|intros H; by apply abort_post in H as []].
  destruct (flush_blocked_stream_requests _ _) as [s1 e1] eqn:Hf. intros [= <- <-].
  apply (post_quiet_app _ _ _ _ [_]); [|by repeat constructor].
  apply flush_blocked_stream_requests_post in Hf; [destruct Hf; by split|].
  assert (QUIC_VARINT_LIMIT <= U64_MAX) by done.
  refine (wf_peer_max_streams s m (peer_max_streams_uni s) Hwf _ _); [lia|].
  intros Hfc. destruct (wf_flow_streams s Hwf Hfc true). simpl in *. lia.
Qed.

Lemma recv_max_streams_uni_post s value now s' e :
  wf s -> recv_max_streams_uni s value now = (s', e) -> step_post s s' [] e.
Proof.
  intros Hwf. unfold recv_max_streams_uni.
  destruct (utils.read_varint value) as [[m rest]|] eqn:Hv; [|intros H; by apply abort_post in H as []].
  apply read_varint_spec in Hv as [Hm _].
  destruct (_ <? m); [intros H; by apply abort_post in H as []|].
  destruct (_ <? m) eqn:Hlt; bool_to_prop; [|intros H; by apply abort_post in H as []].
  destruct (flush_blocked_stream_requests _ _) as [s1 e1] eqn:Hf. intros [= <- <-].
  apply (post_quiet_app _ _ _ _ [_]); [|by repeat constructor].
  apply flush_blocked_stream_requests_post in Hf; [destruct Hf; by split|].
  assert (QUIC_VARINT_LIMIT <= U64_MAX) by done.
  refine (wf_peer_max_streams s (peer_max_streams_bidi s) m Hwf _ _); [|lia].
  intros Hfc. destruct (wf_flow_streams s Hwf Hfc false). simpl in *. lia.
Qed.

Lemma recv_streams_blocked_post s u value now s' e :
  wf s -> recv_streams_blocked s u value now = (s', e) -> step_post s s' [] e.
Proof.
  intros Hwf. unfold recv_streams_blocked.
  destruct (utils.read_varint value) as [[m rest]|]; [|intros H; by apply abort_post in H as []].
  destruct (_ <? m); [intros H; by apply abort_post in H as []|].
  destruct (replenish_streams_credit s u true) as [s1 [effect|]] eqn:Hr; intros [= <- <-];
    apply replenish_streams_credit_post in Hr; try done.
  apply (post_app_quiet _ _ _ []); [done|by repeat constructor].
Qed.

Lemma drain_state_post s effects :
  wf s -> is_active s = true -> Forall quiet effects ->
  step_post s (s <| state := SessionState.Draining |>) [] effects.
Proof.
  intros Hwf Hact Hq. apply post_quiet; try done.
  - by refine (wf_state s SessionState.Draining (ready_at s) (wt_protocol s) Hwf Hact _).
  - unfold is_active, rank in *. simpl. destruct (state s); simpl; try done; lia.
Qed.

Lemma recv_capsule_post s capsule_type value now s' e :
  wf s -> recv_capsule s capsule_type value now = (s', e) -> step_post s s' [] e.
Proof.
  intros Hwf. unfold recv_capsule.
  assert (Hdispatch : is_active s = true ->
    dispatch_capsule s capsule_type value now = (s', e) -> step_post s s' [] e).
  { intros Hact. unfold dispatch_capsule.
    destruct (_ =? _); [by apply recv_close_session_post|].
    destruct (_ =? _); [by apply recv_data_blocked_post|].
    destruct (_ && _); [intros [= <- <-]; apply drain_state_post; [done|done|by repeat constructor]|].
    destruct (_ =? _); [by apply recv_max_data_post|].
    destruct (_ || _); [intros H; by apply abort_post in H as []|].
    destruct (_ =? _); [by apply recv_max_streams_bidi_post|].
    destruct (_ =? _); [by apply recv_max_streams_uni_post|].
    destruct (_ || _); [by apply recv_streams_blocked_post|].
    intros [= <- <-]. by apply post_quiet. }
  pose proof (wf_pending_capsules s Hwf) as Hpc.
  destruct (state s) eqn:E.
  - intros [= <- <-]. apply post_quiet; try done. by repeat constructor.
  - intros [= <- <-]. by apply post_quiet.
  - destruct (_ && _); [intros [= <- <-]; by apply post_quiet|].
    apply Hdispatch. unfold is_active. by rewrite E.
  - destruct (_ <=? _) eqn:Hfull; bool_to_prop; [intros H; by apply abort_post in H as []|].
    intros [= <- <-]. apply post_quiet; try done.
    refine (wf_queues s (pending_datagram_requests s) (pending_datagrams s)
              (pending_capsules s ++ [(capsule_type, value)]) (pending_streams s) Hwf _ _ _ _);
      try (by destruct Hwf); [unfold is_active; by rewrite E|].
    rewrite len_app. change (len [(capsule_type, value)]) with 1. lia.
  - destruct (_ && _); [intros [= <- <-]; by apply post_quiet|].
    apply Hdispatch. unfold is_active. by rewrite E.
Qed.

(** ** Establishing the session *)

Lemma replay_capsules_post fuel s now s' e finished :
  wf s -> is_active s = true -> replay_capsules s fuel now = (s', e, finished) ->
  step_post s s' [] e /\ (finished = true -> is_active s' = true).
Proof.
  revert s e finished. induction fuel as [|fuel IH]; intros s e finished Hwf Hact;
    cbn [replay_capsules]; destruct (pending_capsules s) as [|[ty v] rest] eqn:Hq;
    try (intros [= <- <- <-]; split; [by apply post_quiet|done]).
  assert (Hwf1 : wf (s <| pending_capsules := rest |>)).
  { refine (wf_queues s (pending_datagram_requests s) (pending_datagrams s) rest
              (pending_streams s) Hwf Hact _ _ _); try (by destruct Hwf).
    apply (len_tail_le (ty, v)). rewrite <- Hq. by destruct Hwf. }
  destruct (recv_capsule _ ty v now) as [s1 e1] eqn:Hc.
  apply recv_capsule_post in Hc; [|done].
  assert (Hp : step_post s s1 [] e1) by (destruct Hc; by split).
  destruct (bool_decide _) eqn:Est; cbn [negb]; bool_to_prop;
    [|intros [= <- <- <-]; split; [done|by intros ?]].
  destruct (replay_capsules s1 fuel now) as [[s2 e2] f2] eqn:Hr. intros [= <- <- <-].
  apply IH in Hr as [Hp2 Ha2]; [|by destruct Hc|unfold is_active; by rewrite Est].
  split; [|done]. by apply (post_trans _ _ _ _ _ _ _ Hp Hp2).
Qed.

Lemma replay_datagrams_post fuel s s' e :
  wf s -> is_active s = true -> replay_datagrams s fuel = (s', e) ->
  step_post s s' [] e /\ is_active s' = true.
Proof.
  revert s e. induction fuel as [|fuel IH]; intros s e Hwf Hact; cbn [replay_datagrams];
    destruct (pending_datagram_requests s) as [|r rs] eqn:Hr,
      (pending_datagrams s) as [|data rest] eqn:Hd;
    try (intros [= <- <-]; split; [by apply post_quiet|done]).
  assert (Hwf1 : wf (s <| pending_datagrams := rest |>)).
  { refine (wf_datagrams s (pending_datagram_requests s) rest Hwf Hact _).
    apply (len_tail_le data). rewrite <- Hd. by destruct Hwf. }
  destruct (recv_datagram _ data) as [s1 e1] eqn:Hc.
  assert (Hact1 : is_active s1 = true).
  { unfold recv_datagram in Hc. change (is_active (s <| pending_datagrams := rest |>)) with (is_active s) in Hc.
    rewrite Hact in Hc. simpl in Hc. rewrite Hr in Hc.
    destruct (negb _); [|destruct (_ <=? _)]; injection Hc as <- _; done. }
  apply recv_datagram_post in Hc; [|done].
  assert (Hp : step_post s s1 [] e1) by (destruct Hc; by split).
  destruct (replay_datagrams s1 fuel) as [s2 e2] eqn:Hrec. intros [= <- <-].
  apply IH in Hrec as [Hp2 Ha2]; [|by destruct Hc|done].
  split; [|done]. by apply (post_trans _ _ _ _ _ _ _ Hp Hp2).
Qed.

Lemma replay_pending_queues_post s now s' e :
  wf s -> is_active s = true -> replay_pending_queues s now = (s', e) -> step_post s s' [] e.
Proof.
  intros Hwf Hact. unfold replay_pending_queues.
  destruct (replay_capsules _ _ _) as [[s1 e1] finished] eqn:H1.
  apply replay_capsules_post in H1 as [Hp1 Ha1]; [|done|done].
  destruct finished; cbn [negb]; [|by intros [= <- <-]]. specialize (Ha1 eq_refl).
  destruct (replay_datagrams _ _) as [s2 e2] eqn:H2.
  apply replay_datagrams_post in H2 as [Hp2 Ha2]; [|by destruct Hp1|done].
  unfold replay_streams. intros [= <- <-].
  apply (post_trans _ s1 _ [] [] e1); [done|].
  apply post_app_quiet.
  - destruct Hp2. split; try done.
    refine (wf_queues s2 (pending_datagram_requests s2) (pending_datagrams s2)
              (pending_capsules s2) [] step_wf0 Ha2 _ _ _); try (by destruct step_wf0).
    rewrite len_nil. lia.
  - apply Forall_forall. intros x Hx. apply list_elem_of_omap in Hx as (i & _ & Hx).
    destruct (has_stream s2 i); [by injection Hx as <-|done].
Qed.

Lemma accept_post s r headers protocol now s' e :
  wf s -> accept s r headers protocol now = (s', e) -> step_post s s' [r] e.
Proof.
  intros Hwf. unfold accept. destruct (is_client s); [intros [= <- <-]; by apply post_answer|].
  destruct (bool_decide (state s = _)) eqn:Est; cbn [negb]; bool_to_prop;
    [|intros [= <- <-]; by apply post_answer].
  destruct (negb _); [intros [= <- <-]; by apply post_answer|].
  destruct (protocol_header s protocol); [|intros [= <- <-]; by apply post_answer].
  assert (Hact : is_active s = true) by (unfold is_active; by rewrite Est).
  destruct (replay_pending_queues _ now) as [s1 e1] eqn:Hr. intros [= <- <-].
  apply replay_pending_queues_post in Hr; [|by apply wf_state|done].
  apply (post_trans _ s _ [r] [] [_; _; _]); [by apply post_answer|]. destruct Hr.
  split; try done. etrans; [|exact step_rank0]. unfold rank. rewrite Est. simpl. lia.
Qed.

Lemma confirm_post s protocol now s' e :
  wf s -> confirm s protocol now = (s', e) -> step_post s s' [] e.
Proof.
  intros Hwf. unfold confirm.
  destruct (bool_decide (state s = _)) eqn:Est; cbn [negb]; bool_to_prop;
    [|intros [= <- <-]; by apply post_quiet].
  assert (Hact : is_active s = true) by (unfold is_active; by rewrite Est).
  destruct (replay_pending_queues _ now) as [s1 e1] eqn:Hr. intros [= <- <-].
  apply replay_pending_queues_post in Hr; [|by apply wf_state|done].
  apply (post_quiet_app _ _ _ _ [_]); [|by repeat constructor]. destruct Hr.
  split; try done. etrans; [|exact step_rank0]. unfold rank. rewrite Est. simpl. lia.
Qed.

Lemma drain_post s s' e : wf s -> drain s = (s', e) -> step_post s s' [] e.
Proof.
  intros Hwf. unfold drain. destruct (bool_decide _) eqn:Est; cbn [negb]; bool_to_prop;
    [|intros [= <- <-]; by apply post_quiet].
  intros [= <- <-]. apply drain_state_post; [done|unfold is_active; by rewrite Est|by repeat constructor].
Qed.

End SessionS.
