(* ===== verification/SessionRuns.v ===== *)
(** * Sessions in every order of events

    A session is driven by the user, the peer and the transport.  Their events
    are the constructors of [op]; [reachable] closes a fresh session under them,
    subject only to what the QUIC transport guarantees.  The theorems hold of
    every reachable session. *)

From S2P Require Import Prelude.
From S2P Require Import Types.
From S2P Require Import Events.
From S2P Require Import Utils.
From S2P Require Import UtilsProps.
From S2P Require Import StreamMachine.
From S2P Require Import StreamProps.
From S2P Require Import SessionMachine.
From S2P Require Import SessionProps.
From S2P Require Import SessionSteps.

Module SessionR.
Import Session SessionP SessionS.

(** ** Events *)

Inductive op : Set :=
| OpAbort (error_code : ErrorCode) (reason : str) (now : f64)
| OpAccept (request_id : RequestId) (headers : Headers) (protocol : option str) (now : f64)
| OpBind (stream_id : StreamId) (request_id : RequestId) (is_unidirectional : bool) (now : f64)
| OpClose (request_id : RequestId) (error_code : ErrorCode) (reason : option str) (now : f64)
| OpComplete (stream_id : StreamId)
| OpConfirm (protocol : option str) (now : f64)
| OpCreate (request_id : RequestId) (is_unidirectional : bool)
| OpDefer (request_id : RequestId) (is_unidirectional : bool)
| OpDiagnose (request_id : RequestId)
| OpDiagnoseStream (stream_id : StreamId) (request_id : RequestId)
| OpDrain
| OpExport (request_id : RequestId) (label : str) (context : bytes) (length : Z)
| OpFlushRequests (is_unidirectional : bool)
| OpAcknowledged (stream_id : StreamId)
| OpStreamOpened (stream_id : StreamId) (now : f64)
| OpReadDatagram (request_id : RequestId)
| OpReadStream (stream_id : StreamId) (request_id : RequestId) (max_bytes : Z)
| OpCapsule (capsule_type : Z) (capsule_value : bytes) (now : f64)
| OpConnectClose (error_code : ErrorCode) (reason : str) (now : f64)
| OpRecvDatagram (data : bytes)
| OpStopSending (stream_id : StreamId) (error_code : ErrorCode)
| OpStreamData (stream_id : StreamId) (data : bytes) (end_stream : bool) (now : f64)
| OpStreamReset (stream_id : StreamId) (error_code : ErrorCode)
| OpReject (request_id : RequestId) (headers : Headers) (status_code : Z) (now : f64)
| OpResetStream (stream_id : StreamId) (request_id : RequestId) (error_code : ErrorCode)
| OpSendDatagram (request_id : RequestId) (data : bytes) (peer_max_datagram_frame_size : Z)
| OpStopStream (stream_id : StreamId) (request_id : RequestId) (error_code : ErrorCode)
| OpWriteStream (stream_id : StreamId) (request_id : RequestId) (data : bytes) (end_stream : bool).

Definition step (o : op) (s : t) : t * list Effect.t :=
  match o with
  | OpAbort code reason now => abort s code reason now
  | OpAccept r headers protocol now => accept s r headers protocol now
  | OpBind i r u now => bind_stream s i r u now
  | OpClose r code reason now => close s r code reason now
  | OpComplete i => complete_stream_write s i
  | OpConfirm protocol now => confirm s protocol now
  | OpCreate r u => create_stream s r u
  | OpDefer r u => defer_stream s r u
  | OpDiagnose r => (s, diagnose s r)
  | OpDiagnoseStream i r => (s, diagnose_stream s i r)
  | OpDrain => drain s
  | OpExport r label context length => (s, export_keying_material s r label context length)
  | OpFlushRequests u => flush_blocked_stream_requests s u
  | OpAcknowledged i => handle_stream_data_acknowledged s i
  | OpStreamOpened i now => handle_stream_opened s i now
  | OpReadDatagram r => read_datagram s r
  | OpReadStream i r max_bytes => read_stream s i r max_bytes
  | OpCapsule ty value now => recv_capsule s ty value now
  | OpConnectClose code reason now => recv_connect_close s code reason now
  | OpRecvDatagram data => recv_datagram s data
  | OpStopSending i code => recv_stop_sending s i code
  | OpStreamData i data fin now => recv_stream_data s i data fin now
  | OpStreamReset i code => recv_stream_reset s i code
  | OpReject r headers status now => reject s r headers status now
  | OpResetStream i r code => reset_stream s i r code
  | OpSendDatagram r data size => (s, send_datagram s r data size)
  | OpStopStream i r code => stop_stream s i r code
  | OpWriteStream i r data fin => write_stream s i r data fin
  end.

(** The requests the user submits with an event. *)
Definition submits (o : op) : list RequestId :=
  match o with
  | OpAccept r _ _ _ | OpClose r _ _ _ | OpCreate r _ | OpDiagnose r | OpDiagnoseStream _ r
  | OpExport r _ _ _ | OpReadDatagram r | OpReadStream _ r _ | OpReject r _ _ _
  | OpResetStream _ r _ | OpSendDatagram r _ _ | OpStopStream _ r _ | OpWriteStream _ r _ _ => [r]
  | _ => []
  end.

(** The stream creation the transport comes back with. *)
Definition returns (o : op) : list (RequestId * bool) :=
  match o with
  | OpBind _ r u _ | OpDefer r u => [(r, u)]
  | _ => []
  end.

(** What the QUIC transport guarantees: stream identifiers are not reused, their
    low bit tells who opened the stream, a buffer fits in memory, and the last
    byte of a stream is acknowledged after the write that carried it was
    reported complete. *)
Definition transport_ok (s : t) (o : op) : Prop :=
  match o with
  | OpBind i _ _ _ =>
      streams s !! i = None /\ utils.is_peer_initiated_stream i (is_client s) = false
  | OpStreamOpened i _ =>
      streams s !! i = None /\ utils.is_peer_initiated_stream i (is_client s) = true
  | OpAcknowledged i =>
      forall st, streams s !! i = Some st -> Stream.pending_write_request st = None
  | OpWriteStream _ _ data _ => len data <= ISIZE_MAX
  | OpStreamData _ data _ _ => len data <= ISIZE_MAX
  | _ => True
  end.

Lemma diagnose_stream_post s i r : wf s -> step_post s s [r] (diagnose_stream s i r).
Proof.
  intros Hwf. unfold diagnose_stream. destruct (streams s !! i); by apply post_answer.
Qed.

Lemma export_post s r label context length :
  wf s -> step_post s s [r] (export_keying_material s r label context length).
Proof.
  intros Hwf. unfold export_keying_material.
  destruct (state s); try destruct (_ || _); by apply post_answer.
Qed.

Lemma send_datagram_post s r data size : wf s -> step_post s s [r] (send_datagram s r data size).
Proof.
  intros Hwf. unfold send_datagram. destruct (negb _); [by apply post_answer|].
  destruct (_ <? _); by apply post_answer.
Qed.

(** Every event but a deferral. *)
Lemma step_post_holds o s s' e :
  wf s -> transport_ok s o -> (forall r, r ∈ submits o -> r ∉ requests s) ->
  (forall r u, o <> OpDefer r u) -> step o s = (s', e) ->
  step_post s s' (submits o ++ (returns o).*1) e.
Proof.
  intros Hwf Hok Hfresh Hnd. destruct o; cbn [step submits returns app fmap list_fmap fst] in *;
    try (intros [= <- <-]);
    eauto using accept_post, create_stream_post, flush_blocked_stream_requests_post,
      read_datagram_post, recv_capsule_post, recv_datagram_post, session_recv_stop_sending_post,
      recv_stream_reset_post, reject_post, drain_post, confirm_post, complete_stream_write_post,
      diagnose_stream_post, export_post, send_datagram_post.
  - intros H. by apply abort_post in H as [].
  - destruct Hok. by apply bind_stream_post.
  - intros H. by apply close_post in H as [].
  - by destruct (Hnd request_id is_unidirectional).
  - by apply post_answer.
  - by apply handle_stream_data_acknowledged_post.
  - destruct Hok. by apply handle_stream_opened_post.
  - apply read_stream_post; [done|]. apply Hfresh. by apply list_elem_of_here.
  - intros H. by apply recv_connect_close_post in H as [].
  - by apply recv_stream_data_post.
  - apply reset_stream_post; [done|]. apply Hfresh. by apply list_elem_of_here.
  - apply stop_stream_post; [done|]. apply Hfresh. by apply list_elem_of_here.
  - apply write_stream_post; [done|done|]. apply Hfresh. by apply list_elem_of_here.
Qed.

(** ** Reachability *)

(** Ranges of the parameters a session is created with: limits travel in
    varints, counters are [u64], buffers fit in memory. *)
Record parameters_ok (p : SessionParameters.t) : Prop := {
  ok_initial_max_data : 0 <= SessionParameters.initial_max_data p <= QUIC_VARINT_LIMIT;
  ok_peer_max_data : 0 <= SessionParameters.peer_max_data p <= QUIC_VARINT_LIMIT;
  ok_initial_bidi : is_u64 (SessionParameters.initial_max_streams_bidi p);
  ok_initial_uni : is_u64 (SessionParameters.initial_max_streams_uni p);
  ok_peer_bidi : is_u64 (SessionParameters.peer_max_streams_bidi p);
  ok_peer_uni : is_u64 (SessionParameters.peer_max_streams_uni p);
  ok_window : is_u64 (SessionParameters.receive_window p);
  ok_buffer : 0 <= SessionParameters.max_write_buffer_size p <= ISIZE_MAX;
}.

(** [reachable s0 s creating submitted effects]: from [s0] the session came to
    [s]; [creating] are the stream creations the transport has not come back
    with yet, [submitted] the requests of the user so far, all distinct, and
    [effects] everything emitted. *)
Inductive reachable (s0 : t)
  : t -> list (RequestId * bool) -> list RequestId -> list Effect.t -> Prop :=
| reachable_start : reachable s0 s0 [] [] []
| reachable_step s creating creating' submitted effects o s' e :
    reachable s0 s creating submitted effects ->
    transport_ok s o -> creating ≡ₚ returns o ++ creating' ->
    NoDup (submitted ++ submits o) -> step o s = (s', e) ->
    reachable s0 s' (creating' ++ issued e) (submitted ++ submits o) (effects ++ e).

(** The pending creations of one direction. *)
Definition creations (u : bool) (creating : list (RequestId * bool)) : Z :=
  len (filter (fun x => x.2 = u) creating).

Record invariant (s0 s : t) (creating : list (RequestId * bool)) (submitted : list RequestId)
    (effects : list Effect.t) : Prop := {
  inv_wf : wf s;
  inv_no_stall : no_stall s;
  inv_distinct : NoDup submitted;
  inv_requests : submitted ≡ₚ answered effects ++ requests s ++ creating.*1;
  inv_constants : constants s = constants s0;
  inv_sent : flow_control_negotiated s0 = true -> data_sent s = sent_total effects;
  inv_creating : flow_control_negotiated s0 = true -> forall u,
    creations u creating <= local_opened u s;
  inv_rank : (rank s0 <= rank s)%nat;
}.

Lemma new_session_wf i path headers protocols client p now :
  parameters_ok p -> wf (new i path headers protocols client p now).
Proof.
  intros []. unfold is_u64 in *. split; try done; simpl; try (rewrite len_nil; lia).
  - intros _. split; simpl; try done; lia.
  - intros _ u. split; unfold peer_streams; simpl; rewrite ?count_empty; destruct u; simpl; lia.
Qed.

Lemma new_invariant i path headers protocols client p now :
  parameters_ok p ->
  let s := new i path headers protocols client p now in invariant s s [] [] [].
Proof.
  intros Hp s. split; try done.
  - by apply new_session_wf.
  - apply NoDup_nil_2.
  - intros _ u. subst s. by destruct u.
Qed.

Lemma creations_app u c1 c2 : creations u (c1 ++ c2) = creations u c1 + creations u c2.
Proof. unfold creations. by rewrite filter_app, len_app. Qed.

Lemma creations_perm u c1 c2 : c1 ≡ₚ c2 -> creations u c1 = creations u c2.
Proof. intros H. unfold creations, len. by rewrite H. Qed.

Lemma opened_grown s s' creating :
  opened s' = grown creating (opened s) ->
  forall u, local_opened u s' = local_opened u s + creations u creating.
Proof.
  rewrite grown_spec. unfold opened. intros [= H1 H2] u. unfold creations. by destruct u.
Qed.

(** One event, from a session [s1] holding the same requests. *)
Lemma invariant_step s0 s s1 creating creating' submitted effects entering returned s' e :
  invariant s0 s creating submitted effects ->
  creating ≡ₚ returned ++ creating' -> NoDup (submitted ++ entering) ->
  step_post s1 s' (entering ++ returned.*1) e ->
  requests s1 = requests s -> data_sent s1 = data_sent s -> (no_stall s -> no_stall s1) ->
  constants s1 = constants s -> rank s1 = rank s ->
  (flow_control_negotiated s = true -> forall u, creations u creating' <= local_opened u s1) ->
  invariant s0 s' (creating' ++ issued e) (submitted ++ entering) (effects ++ e).
Proof.
  intros [] Hc Hnd [] Hr Hd Hn Hk Hrk Hcr.
  assert (Hfc : flow_control_negotiated s0 = true ->
                flow_control_negotiated s1 = true /\ flow_control_negotiated s = true)
    by (unfold constants in *; intros; split; congruence).
  split; auto; try congruence.
  - rewrite answered_app, inv_requests0, Hc, !fmap_app. rewrite Hr in step_requests0.
    transitivity (answered effects ++ (requests s ++ entering ++ returned.*1) ++ creating'.*1);
      [solve_Permutation|]. rewrite step_requests0. solve_Permutation.
  - intros Hf. destruct (Hfc Hf) as [Hf1 _].
    rewrite sent_total_app, (step_sent0 Hf1), Hd, (inv_sent0 Hf). done.
  - intros Hf u. destruct (Hfc Hf) as [Hf1 Hf2]. rewrite creations_app.
    rewrite (opened_grown _ _ _ (step_opened0 Hf1) u). specialize (Hcr Hf2 u). lia.
  - lia.
Qed.

Lemma fresh_requests s0 s creating submitted effects entering r :
  invariant s0 s creating submitted effects -> NoDup (submitted ++ entering) ->
  r ∈ entering -> r ∉ requests s.
Proof.
  intros [] Hnd Hr Hin. apply NoDup_app in Hnd as (_ & Hd & _).
  apply (Hd r); [|done]. rewrite inv_requests0, !elem_of_app. auto.
Qed.

Lemma reachable_invariant s0 s creating submitted effects :
  invariant s0 s0 [] [] [] -> reachable s0 s creating submitted effects ->
  invariant s0 s creating submitted effects.
Proof.
  intros H0 Hreach.
  induction Hreach as [|s c c' sub eff o s' e _ IH Hok Hc Hnd Hstep]; [done|].
  assert (Hcase : (exists r u, o = OpDefer r u) \/ forall r u, o <> OpDefer r u)
    by (destruct o; eauto; by right).
  assert (Hfc : flow_control_negotiated s = flow_control_negotiated s0)
    by (destruct IH; unfold constants in *; congruence).
  pose proof (fun u => creations_perm u _ _ Hc) as Hcount. setoid_rewrite creations_app in Hcount.
  destruct Hcase as [(r & u & ->)|Hnot]; cbn [step returns submits] in *.
  - assert (Hone : creations u [(r, u)] = 1)
      by (unfold creations; rewrite filter_cons_True by done; done).
    apply defer_stream_post in Hstep as (s1 & Hp & _ & Hr & Hd & Hn & Hk & Hrk & Hlo).
    + eapply (invariant_step s0 s s1 c c' sub eff [] [(r, u)]); try done.
      intros Hf x. specialize (Hlo Hf x). rewrite Hfc in Hf.
      pose proof (inv_creating _ _ _ _ _ IH Hf x) as Hx. rewrite Hcount in Hx.
      destruct (Bool.eqb x u) eqn:E; [apply eqb_prop in E as ->; lia|].
      pose proof (len_nonneg (filter (fun y => y.2 = x) [(r, u)])). unfold creations in *. lia.
    + by destruct IH.
    + intros Hf. rewrite Hfc in Hf. pose proof (inv_creating _ _ _ _ _ IH Hf u) as Hx.
      rewrite Hcount, Hone in Hx. pose proof (len_nonneg (filter (fun y => y.2 = u) c')).
      unfold creations in *. lia.
  - apply step_post_holds in Hstep; try done; [|by destruct IH|].
    + eapply (invariant_step s0 s s c c' sub eff (submits o) (returns o)); try done.
      intros Hf x. rewrite Hfc in Hf. pose proof (inv_creating _ _ _ _ _ IH Hf x) as Hx.
      rewrite Hcount in Hx. pose proof (len_nonneg (filter (fun y => y.2 = x) (returns o))).
      unfold creations in *. lia.
    + intros r Hr. by eapply fresh_requests.
Qed.

(** An event moves the state forward. *)
Lemma event_rank s0 s creating creating' submitted effects o s' e :
  invariant s0 s creating submitted effects -> transport_ok s o ->
  creating ≡ₚ returns o ++ creating' -> NoDup (submitted ++ submits o) -> step o s = (s', e) ->
  (rank s <= rank s')%nat.
Proof.
  intros Hinv Hok Hc Hnd Hs.
  assert (Hcase : (exists r u, o = OpDefer r u) \/ forall r u, o <> OpDefer r u)
    by (destruct o; eauto; by right).
  destruct Hcase as [(r & u & ->)|Hnot].
  - apply defer_stream_post in Hs as (s1 & [] & _ & _ & _ & _ & _ & Hrk & _); [lia|by destruct Hinv|].
    intros Hfc. destruct Hinv. assert (Hf0 : flow_control_negotiated s0 = true)
      by (unfold constants in *; congruence).
    specialize (inv_creating0 Hf0 u). rewrite (creations_perm u _ _ Hc), creations_app in inv_creating0.
    assert (creations u [(r, u)] = 1)
      by (unfold creations; rewrite filter_cons_True by done; done).
    pose proof (len_nonneg (filter (fun y => y.2 = u) creating')). unfold creations in *. simpl in *. lia.
  - apply step_post_holds in Hs as []; try done; [by destruct Hinv|].
    intros x Hx. by eapply fresh_requests.
Qed.

(** ** Running a list of events *)

Definition transport_okb (s : t) (o : op) : bool :=
  match o with
  | OpBind i _ _ _ =>
      negb (has_stream s i) && negb (utils.is_peer_initiated_stream i (is_client s))
  | OpStreamOpened i _ =>
      negb (has_stream s i) && utils.is_peer_initiated_stream i (is_client s)
  | OpAcknowledged i =>
      match streams s !! i with
      | Some st => bool_decide (Stream.pending_write_request st = None)
      | None => true
      end
  | OpWriteStream _ _ data _ => len data <=? ISIZE_MAX
  | OpStreamData _ data _ _ => len data <=? ISIZE_MAX
  | _ => true
  end.

Lemma transport_okb_sound s o : transport_okb s o = true -> transport_ok s o.
Proof.
  assert (Hhas : forall i, has_stream s i = false -> streams s !! i = None).
  { intros i H. unfold has_stream in H. bool_to_prop. by apply eq_None_not_Some. }
  destruct o; simpl; try done; intros H; try (by bool_to_prop; auto).
  intros st Hst. rewrite Hst in H. by bool_to_prop.
Qed.

Record trace : Type := Trace {
  trace_state : t;
  trace_creating : list (RequestId * bool);
  trace_submitted : list RequestId;
  trace_effects : list Effect.t;
}.

Fixpoint remove_first {A} `{EqDecision A} (x : A) (l : list A) : option (list A) :=
  match l with
  | [] => None
  | y :: l' => if bool_decide (x = y) then Some l' else cons y <$> remove_first x l'
  end.

Lemma remove_first_Some {A} `{EqDecision A} (x : A) l k : remove_first x l = Some k -> l ≡ₚ x :: k.
Proof.
  revert k. induction l as [|y l IH]; intros k; simpl; [done|].
  destruct (bool_decide _) eqn:E; bool_to_prop; [by intros [= ->]; subst|].
  destruct (remove_first x l) as [k'|]; [|done]. intros [= <-].
  rewrite (IH k' eq_refl). apply Permutation_swap.
Qed.

Definition take_creation (o : op) (creating : list (RequestId * bool))
    : option (list (RequestId * bool)) :=
  match returns o with
  | [] => Some creating
  | x :: _ => remove_first x creating
  end.

Fixpoint drive (ops : list op) (r : trace) : option trace :=
  match ops with
  | [] => Some r
  | o :: rest =>
      let s := trace_state r in
      let submitted := trace_submitted r ++ submits o in
      if transport_okb s o && bool_decide (NoDup submitted) then
        match take_creation o (trace_creating r) with
        | Some creating =>
            let '(s', e) := step o s in
            drive rest (Trace s' (creating ++ issued e) submitted (trace_effects r ++ e))
        | None => None
        end
      else None
  end.

Definition reached (s0 : t) (r : trace) : Prop :=
  reachable s0 (trace_state r) (trace_creating r) (trace_submitted r) (trace_effects r).

Lemma take_creation_sound o c c' : take_creation o c = Some c' -> c ≡ₚ returns o ++ c'.
Proof.
  unfold take_creation. destruct (returns o) as [|x l] eqn:E; [by intros [= ->]|].
  assert (l = []) as -> by (destruct o; try done; by injection E as _ <-).
  apply remove_first_Some.
Qed.

Lemma drive_sound s0 ops r r' : reached s0 r -> drive ops r = Some r' -> reached s0 r'.
Proof.
  revert r. induction ops as [|o ops IH]; intros r Hr; cbn [drive]; [by intros [= <-]|].
  destruct (_ && _) eqn:Hg; [|done]. bool_to_prop.
  destruct (take_creation _ _) as [c|] eqn:Hc; [|done].
  destruct (step o (trace_state r)) as [s' e] eqn:Hs. apply IH. unfold reached. simpl.
  eapply reachable_step; [exact Hr|by apply transport_okb_sound|by apply take_creation_sound|done|done].
Qed.

End SessionR.
