(* ===== verification/SessionTheorems.v ===== *)
(** * What holds of every session

    The properties of the session layer, each with a concrete run it applies to. *)

From S2P Require Import Prelude.
From S2P Require Import Types.
From S2P Require Import Events.
From S2P Require Import Utils.
From S2P Require Import UtilsProps.
From S2P Require Import StreamMachine.
From S2P Require Import StreamProps.
From S2P Require Import SessionMachine.
From S2P Require Import SessionProps.
From S2P Require Import SessionSteps.
From S2P Require Import SessionRuns.

Module SessionT.
Import Session SessionP SessionS SessionR.

(** ** An example run

    A server session with small limits: the peer opens a stream, the user reads
    and writes on it until the credit runs out, credit arrives, a second local
    stream has to wait, and the session is closed. *)

Definition zero : f64 := S754_zero false.

Definition example_parameters : SessionParameters.t := {|
  SessionParameters.flow_control_negotiated := true;
  SessionParameters.initial_max_data := 1000;
  SessionParameters.initial_max_streams_bidi := 2;
  SessionParameters.initial_max_streams_uni := 2;
  SessionParameters.max_pending_capsules := 4;
  SessionParameters.max_pending_datagrams := 4;
  SessionParameters.max_pending_streams := 4;
  SessionParameters.max_write_buffer_size := 65536;
  SessionParameters.peer_max_data := 10;
  SessionParameters.peer_max_streams_bidi := 1;
  SessionParameters.peer_max_streams_uni := 1;
  SessionParameters.receive_window := 1000;
|}.

Lemma example_parameters_ok : parameters_ok example_parameters.
Proof. split; vm_compute; split; congruence. Qed.

Definition example_session : t :=
  new 0 (b: "/chat") [] None false example_parameters zero.

Definition max_data_100 : bytes := be_put 2 (Z.lor 100 0x4000).

Definition example_opening : list op :=
  [OpAccept 1 [] None zero; OpStreamOpened 4 zero; OpReadStream 4 2 100;
   OpStreamData 4 (b: "ping") false zero; OpReadStream 4 9 100;
   OpWriteStream 4 3 (b: "hello, world!") false; OpComplete 4;
   OpCreate 5 false; OpCreate 6 false].

Definition example_closing : list op :=
  [OpCapsule WT_CAPSULE_TYPE_MAX_DATA max_data_100 zero; OpComplete 4; OpBind 1 5 false zero;
   OpReadDatagram 8; OpClose 7 42 (Some (b: "bye")) zero].

Definition start : trace := Trace example_session [] [] [].

(** The session while its write is blocked and its second stream is waiting. *)
Definition example_blocked : trace := default start (drive example_opening start).
(** The session once it has been closed. *)
Definition example_closed : trace := default start (drive example_closing example_blocked).

Lemma example_blocked_reached : reached example_session example_blocked.
Proof.
  eapply (drive_sound _ example_opening start); [apply reachable_start|vm_compute; reflexivity].
Qed.

Lemma example_closed_reached : reached example_session example_closed.
Proof.
  eapply (drive_sound _ example_closing example_blocked);
    [apply example_blocked_reached|vm_compute; reflexivity].
Qed.

(** A session just created with acceptable parameters. *)
Definition fresh (p : SessionParameters.t) (s0 : t) : Prop :=
  parameters_ok p /\ exists i path headers protocols client now,
    s0 = new i path headers protocols client p now.

Lemma example_fresh : fresh example_parameters example_session.
Proof. split; [apply example_parameters_ok|]. by repeat eexists. Qed.

Lemma fresh_invariant p s0 s creating submitted effects :
  fresh p s0 -> reachable s0 s creating submitted effects ->
  invariant s0 s creating submitted effects.
Proof.
  intros (Hp & i & path & headers & protocols & client & now & ->).
  apply reachable_invariant. by apply new_invariant.
Qed.

Lemma fresh_flow p s0 s creating submitted effects :
  fresh p s0 -> SessionParameters.flow_control_negotiated p = true ->
  invariant s0 s creating submitted effects ->
  flow_control_negotiated s0 = true /\ flow_control_negotiated s = true.
Proof.
  intros (_ & i & path & headers & protocols & client & now & ->) Hfc [].
  unfold constants in *. simpl in *. split; congruence.
Qed.

Section reached.
Context (p : SessionParameters.t) (s0 s : t) (creating : list (RequestId * bool))
  (submitted : list RequestId) (effects : list Effect.t).

(** C11: in every reachable session each request of the user has been answered
    exactly once, is held by the session, or waits for the transport to open a
    stream for it; no request is ever lost or answered twice. *)
Theorem session_answers_once :
  fresh p s0 -> reachable s0 s creating submitted effects ->
  submitted ≡ₚ answered effects ++ requests s ++ creating.*1
  /\ NoDup (answered effects ++ requests s ++ creating.*1).
Proof.
  intros Hp Hr. destruct (fresh_invariant _ _ _ _ _ _ Hp Hr). split; [done|].
  by rewrite <- inv_requests0.
Qed.

(** C12: with flow control the bytes handed to QUIC for all the streams of a
    session together never exceed the limit the peer announced last. *)
Theorem session_respects_peer_credit :
  fresh p s0 -> SessionParameters.flow_control_negotiated p = true ->
  reachable s0 s creating submitted effects ->
  sent_total effects = data_sent s /\ sent_total effects <= peer_max_data s.
Proof.
  intros Hp Hfc Hr. destruct (fresh_invariant _ _ _ _ _ _ Hp Hr).
  destruct (fresh_flow _ _ _ _ _ _ Hp Hfc (fresh_invariant _ _ _ _ _ _ Hp Hr)) as [Hf0 Hf].
  rewrite <- (inv_sent0 Hf0). split; [done|].
  destruct (wf_flow_data s inv_wf0 Hf). lia.
Qed.

(** C13: with flow control an active session never holds more data from the peer
    than it announced it would take, and everything received was consumed. *)
Theorem session_enforces_own_credit :
  fresh p s0 -> SessionParameters.flow_control_negotiated p = true ->
  reachable s0 s creating submitted effects -> is_active s = true ->
  0 <= data_received s <= local_max_data s /\ data_consumed s = data_received s.
Proof.
  intros Hp Hfc Hr Hact. destruct (fresh_invariant _ _ _ _ _ _ Hp Hr).
  destruct (fresh_flow _ _ _ _ _ _ Hp Hfc (fresh_invariant _ _ _ _ _ _ Hp Hr)) as [Hf0 Hf].
  destruct (wf_flow_data s inv_wf0 Hf). destruct (data_received_limit0 Hact) as (? & ? & _). done.
Qed.

(** With flow control the peer never has more streams of a direction open at
    once than the session was configured for, and the session never asks the
    transport for more streams than the peer allows. *)
Theorem session_bounds_streams (u : bool) :
  fresh p s0 -> SessionParameters.flow_control_negotiated p = true ->
  reachable s0 s creating submitted effects ->
  peer_streams u s <= initial_max u s0
  /\ creations u creating <= local_opened u s <= peer_max u s.
Proof.
  intros Hp Hfc Hr. destruct (fresh_invariant _ _ _ _ _ _ Hp Hr).
  destruct (fresh_flow _ _ _ _ _ _ Hp Hfc (fresh_invariant _ _ _ _ _ _ Hp Hr)) as [Hf0 Hf].
  assert (Hi : initial_max u s = initial_max u s0)
    by (unfold constants in *; destruct u; simpl in *; congruence).
  destruct (wf_flow_streams s inv_wf0 Hf u). specialize (inv_creating0 Hf0 u). lia.
Qed.

(** A session that is closing or closed holds nothing: no stream, no queued
    data and no request, every one of which has been answered. *)
Theorem session_end_releases_all :
  fresh p s0 -> reachable s0 s creating submitted effects -> is_active s = false ->
  streams s = ∅ /\ pending_streams s = [] /\ pending_capsules s = [] /\ pending_datagrams s = []
  /\ blocked_streams_queue s = [] /\ submitted ≡ₚ answered effects ++ creating.*1.
Proof.
  intros Hp Hr Hact. destruct (fresh_invariant _ _ _ _ _ _ Hp Hr).
  destruct (wf_ended s inv_wf0 Hact) as (? & Hq & ? & ? & ? & _ & ?).
  split_and!; try done. by rewrite inv_requests0, Hq.
Qed.

(** C14: a write waits in a stream only when the session has no credit left, and
    the stream is then queued to be resumed when credit arrives: no wake-up is
    lost. *)
Theorem session_never_stalls j st :
  fresh p s0 -> reachable s0 s creating submitted effects ->
  streams s !! j = Some st -> Stream.is_blocked st = true ->
  flow_control_negotiated s = true /\ data_sent s = peer_max_data s
  /\ j ∈ blocked_streams_queue s.
Proof.
  intros Hp Hr Hj Hb. destruct (fresh_invariant _ _ _ _ _ _ Hp Hr).
  pose proof (inv_no_stall0 j st Hj Hb) as Hz. pose proof (session_credit_zero s Hz) as Hfc.
  split_and!; [done| |].
  - unfold session_credit, saturating_sub in Hz. rewrite Hfc in Hz.
    destruct (wf_flow_data s inv_wf0 Hfc). lia.
  - by apply (wf_queue s inv_wf0), (wf_blocked s inv_wf0 j st).
Qed.

(** Every stream a session holds is well-formed, filed under its own
    identifier and still open: a stream that closes is dropped at once. *)
Theorem session_streams_are_live j st :
  fresh p s0 -> reachable s0 s creating submitted effects -> streams s !! j = Some st ->
  StreamP.wf st /\ Stream.id st = j /\ Stream.is_closed st = false.
Proof.
  intros Hp Hr Hj. destruct (fresh_invariant _ _ _ _ _ _ Hp Hr).
  by destruct (wf_streams s inv_wf0 j st Hj).
Qed.

(** What the peer can make a session queue is bounded: capsules, datagrams
    and streams arriving before they can be handled never exceed the configured
    limits. *)
Theorem session_queues_are_bounded :
  fresh p s0 -> reachable s0 s creating submitted effects ->
  len (pending_capsules s) <= Z.max 0 (SessionParameters.max_pending_capsules p)
  /\ len (pending_datagrams s) <= Z.max 0 (SessionParameters.max_pending_datagrams p)
  /\ len (pending_streams s) <= Z.max 0 (SessionParameters.max_pending_streams p).
Proof.
  intros Hp Hr. destruct (fresh_invariant _ _ _ _ _ _ Hp Hr). destruct inv_wf0.
  unfold constants in inv_constants0. simpl in inv_constants0.
  destruct Hp as (_ & ? & ? & ? & ? & ? & ? & ->). simpl in inv_constants0.
  injection inv_constants0 as _ _ _ _ _ E1 E2 E3 _. rewrite <- E1, <- E2, <- E3. done.
Qed.

(** The state of a session only moves forward, from connecting over
    connected and draining to closing and closed, and never back. *)
Theorem session_state_moves_forward creating' o s' e :
  fresh p s0 -> reachable s0 s creating submitted effects -> transport_ok s o ->
  creating ≡ₚ returns o ++ creating' -> NoDup (submitted ++ submits o) -> step o s = (s', e) ->
  (state_rank (state s) <= state_rank (state s'))%nat
  /\ (state s = SessionState.Closed -> state s' = SessionState.Closed).
Proof.
  intros Hp Hr Hok Hc Hnd Hs.
  pose proof (fresh_invariant _ _ _ _ _ _ Hp Hr) as Hinv.
  pose proof (event_rank s0 s creating creating' submitted effects o s' e Hinv Hok Hc Hnd Hs) as Hrk.
  split; [done|]. unfold rank in *. intros E. rewrite E in *. destruct (state s'); simpl in *; lia || done.
Qed.

End reached.

(** ** The properties at work on the example *)

Lemma session_answers_once_witness :
  answered (trace_effects example_closed) = [1; 2; 3; 5; 9; 6; 8; 7]
  /\ trace_submitted example_closed
     ≡ₚ answered (trace_effects example_closed) ++ requests (trace_state example_closed)
        ++ (trace_creating example_closed).*1.
Proof.
  split; [vm_compute; reflexivity|].
  apply (session_answers_once example_parameters example_session);
    [apply example_fresh|apply example_closed_reached].
Defined.

Lemma session_respects_peer_credit_witness :
  sent_total (trace_effects example_blocked) = 10
  /\ sent_total (trace_effects example_blocked) <= peer_max_data (trace_state example_blocked).
Proof.
  split; [vm_compute; reflexivity|].
  eapply (session_respects_peer_credit example_parameters example_session);
    [apply example_fresh|reflexivity|apply example_blocked_reached].
Defined.

Lemma session_enforces_own_credit_witness :
  data_received (trace_state example_blocked) = 4
  /\ data_consumed (trace_state example_blocked) = data_received (trace_state example_blocked).
Proof.
  split; [vm_compute; reflexivity|].
  eapply (session_enforces_own_credit example_parameters example_session);
    [apply example_fresh|reflexivity|apply example_blocked_reached|vm_compute; reflexivity].
Defined.

Lemma session_bounds_streams_witness :
  peer_streams false (trace_state example_blocked) = 1
  /\ peer_streams false (trace_state example_blocked) <= initial_max false example_session.
Proof.
  split; [vm_compute; reflexivity|].
  destruct (session_bounds_streams example_parameters example_session
    (trace_state example_blocked) (trace_creating example_blocked)
    (trace_submitted example_blocked) (trace_effects example_blocked) false) as [H _];
    [apply example_fresh|reflexivity|apply example_blocked_reached|exact H].
Defined.

Lemma session_end_releases_all_witness :
  state (trace_state example_closed) = SessionState.Closing
  /\ trace_submitted example_closed
     ≡ₚ answered (trace_effects example_closed) ++ (trace_creating example_closed).*1.
Proof.
  split; [vm_compute; reflexivity|].
  eapply (session_end_releases_all example_parameters example_session);
    [apply example_fresh|apply example_closed_reached|vm_compute; reflexivity].
Defined.

Lemma session_never_stalls_witness :
  exists st, streams (trace_state example_blocked) !! 4 = Some st
  /\ Stream.is_blocked st = true
  /\ data_sent (trace_state example_blocked) = peer_max_data (trace_state example_blocked).
Proof.
  eexists. split; [vm_compute; reflexivity|]. split; [vm_compute; reflexivity|].
  eapply (session_never_stalls example_parameters example_session
            (trace_state example_blocked) _ _ _ 4);
    [apply example_fresh|apply example_blocked_reached|vm_compute; reflexivity|vm_compute; reflexivity].
Defined.

Lemma session_streams_are_live_witness :
  exists st, streams (trace_state example_blocked) !! 4 = Some st /\ StreamP.wf st.
Proof.
  eexists. split; [vm_compute; reflexivity|].
  eapply (session_streams_are_live example_parameters example_session
            (trace_state example_blocked) _ _ _ 4);
    [apply example_fresh|apply example_blocked_reached|vm_compute; reflexivity].
Defined.

Lemma session_queues_are_bounded_witness :
  len (pending_capsules (trace_state example_blocked)) <= 4.
Proof.
  destruct (session_queues_are_bounded example_parameters example_session
    (trace_state example_blocked) (trace_creating example_blocked)
    (trace_submitted example_blocked) (trace_effects example_blocked)) as [H _];
    [apply example_fresh|apply example_blocked_reached|exact H].
Defined.

Lemma session_state_moves_forward_witness :
  let s := trace_state example_blocked in
  state s = SessionState.Connected
  /\ (state_rank (state s) <= state_rank (state (step OpDrain s).1))%nat.
Proof.
  split; [vm_compute; reflexivity|].
  destruct (session_state_moves_forward example_parameters example_session
    (trace_state example_blocked) (trace_creating example_blocked)
    (trace_submitted example_blocked) (trace_effects example_blocked)
    (trace_creating example_blocked) OpDrain
    (step OpDrain (trace_state example_blocked)).1 (step OpDrain (trace_state example_blocked)).2)
    as [H _]; [apply example_fresh|apply example_blocked_reached|exact I
              |cbn [returns app]; apply Permutation_refl
              |apply (bool_decide_unpack _); vm_compute; exact I|apply surjective_pairing|exact H].
Defined.

End SessionT.
