(* ===== verification/SessionOutcomes.v ===== *)
(** * What single session operations achieve

    How a session ends on the wire and in its fields, how credit is renewed, and
    how the queues filled before the session was ready are replayed. *)

From S2P Require Import Prelude.
From S2P Require Import Types.
From S2P Require Import Events.
From S2P Require Import Utils.
From S2P Require Import UtilsProps.
From S2P Require Import StreamMachine.
From S2P Require Import StreamProps.
From S2P Require Import SessionMachine.
From S2P Require Import SessionProps.
From S2P Require Import SessionSteps.
From S2P Require Import SessionRuns.
From S2P Require Import SessionTheorems.

Module SessionO.
Import Session SessionP SessionS SessionR SessionT.

(** ** Aborting *)

(** The streams of [s] are live. *)
Definition streams_live (s : t) : Prop := forall i st, streams s !! i = Some st -> live i st.

Lemma wf_live s : wf s -> streams_live s.
Proof. intros Hwf i st. apply (wf_streams s Hwf). Qed.

Lemma release_outcome s s' e :
  streams_live s -> is_final (state s) = true -> release s = (s', e) ->
  state s' = state s /\ close_code s' = close_code s /\ close_reason s' = close_reason s
  /\ id s' = id s /\ streams s' = ∅ /\ pending_capsules s' = [].
Proof.
  intros Hl Hf Hr. apply release_spec in Hr as ((bc & uc & ->) & _); [done|done|].
  unfold may_send_credit. by destruct (state s).
Qed.

Lemma abort_outcome s code reason now s' e :
  streams_live s -> is_active s = true -> abort s code reason now = (s', e) ->
  state s' = SessionState.Closed /\ close_code s' = Some code /\ close_reason s' = Some reason
  /\ streams s' = ∅ /\ pending_capsules s' = []
  /\ exists e0, e = e0 ++ [Effect.ResetQuicStream (id s) code;
                           session_closed_event s None (Some code) (Some reason)].
Proof.
  intros Hl Hact. unfold abort. destruct (release _) as [s1 e1] eqn:Hr. intros H.
  apply release_outcome in Hr as (Hst & Hc & Hre & Hid & Hs & Hp); [|done|done].
  assert (s' = s1 /\ e = e1 ++ [Effect.ResetQuicStream (id s1) code;
             session_closed_event s1 None (Some code) (Some reason)]) as [-> ->]
    by (unfold is_active in Hact; destruct (state s); try done; by injection H as <- <-).
  split_and!; try done. exists e1. unfold session_closed_event. by rewrite Hid.
Qed.

(** A peer that sends more data than the session announced is cut off: the
    session closes with the flow-control error and resets its CONNECT stream. *)
Theorem session_cuts_off_overrun s i data fin now s' e :
  wf s -> flow_control_negotiated s = true -> is_Some (streams s !! i) ->
  len data <= ISIZE_MAX -> local_max_data s < data_received s + len data ->
  recv_stream_data s i data fin now = (s', e) ->
  state s' = SessionState.Closed /\ close_code s' = Some ERR_WT_FLOW_CONTROL_ERROR
  /\ streams s' = ∅ /\ requests s' = []
  /\ Effect.ResetQuicStream (id s) ERR_WT_FLOW_CONTROL_ERROR ∈ e.
Proof.
  intros Hwf Hfc [st Hi] Hlen Hover Hs.
  pose proof (is_active_ended s i st Hwf Hi) as Hact.
  pose proof (recv_stream_data_post _ _ _ _ _ _ _ Hwf Hlen Hs) as [Hwf' _ _ _ _ _ _].
  assert (Hadd : u64_add (data_received s) (len data) = data_received s + len data).
  { destruct (wf_flow_data s Hwf Hfc). destruct (data_received_limit0 Hact) as (? & ? & ?).
    assert (QUIC_VARINT_LIMIT + ISIZE_MAX <= U64_MAX) by done.
    pose proof (len_nonneg data). apply u64_add_small. lia. }
  unfold recv_stream_data in Hs. rewrite Hi in Hs. simpl in Hs.
  rewrite Hfc, Hadd, (proj2 (Z.ltb_lt _ _) Hover) in Hs. simpl in Hs.
  apply abort_outcome in Hs as (Hst & Hc & _ & Hss & _ & e0 & ->); [|exact (wf_live s Hwf)|done].
  split_and!; try done.
  - apply (wf_ended s' Hwf'). unfold is_active. by rewrite Hst.
  - apply elem_of_app. right. by apply list_elem_of_here.
Qed.

Lemma session_cuts_off_overrun_witness :
  let s := trace_state example_blocked in
  state (recv_stream_data s 4 (repeat x00 997) false zero).1 = SessionState.Closed.
Proof.
  pose proof (inv_wf _ _ _ _ _ (fresh_invariant _ _ _ _ _ _ example_fresh example_blocked_reached)).
  destruct (session_cuts_off_overrun (trace_state example_blocked) 4 (repeat x00 997) false zero
    (recv_stream_data (trace_state example_blocked) 4 (repeat x00 997) false zero).1
    (recv_stream_data (trace_state example_blocked) 4 (repeat x00 997) false zero).2) as [H1 _];
    [done|vm_compute; reflexivity|vm_compute; by eexists|vm_compute; congruence
    |vm_compute; reflexivity|apply surjective_pairing|exact H1].
Defined.

(** ** Renewing credit *)

Lemma replenish_data_credit_room s s' e :
  flow_control_negotiated s = true -> may_send_credit s = true ->
  0 <= data_consumed s -> 0 <= receive_window s -> 0 <= local_max_data s ->
  data_consumed s + receive_window s <= QUIC_VARINT_LIMIT ->
  replenish_data_credit s false = (s', e) ->
  receive_window s - receive_window s / 2 <= local_max_data s' - data_consumed s
  /\ (local_max_data s' <> local_max_data s -> exists value,
        utils.write_varint [] (local_max_data s') = Ok value
        /\ e = Some (Effect.SendH3Capsule (id s) WT_CAPSULE_TYPE_MAX_DATA value false)).
Proof.
  unfold replenish_data_credit. intros -> -> Hc Hw Hm Hlim. cbn [negb].
  assert (QUIC_VARINT_LIMIT <= U64_MAX) by done.
  pose proof (Z.div_pos (receive_window s) 2 Hw ltac:(lia)).
  unfold saturating_add. rewrite (Z.min_l (data_consumed s + _)) by lia.
  destruct (_ <=? _) eqn:Hle; bool_to_prop.
  - intros [= <- <-]. split; [lia|done].
  - destruct (write_read_app [] (data_consumed s + receive_window s) []) as (enc & Hwr & _);
      [lia|]. rewrite Hwr. intros [= <- <-]. simpl. split; [lia|]. intros _. by exists enc.
Qed.

(** Data received from the peer earns it new credit at once: afterwards at
    least half of the receive window is open, and a limit that moved has been
    announced in a MAX_DATA capsule. *)
Theorem session_renews_data_credit s i data fin now s' e :
  wf s -> flow_control_negotiated s = true -> may_send_credit s = true ->
  is_Some (streams s !! i) ->
  data_received s + len data <= local_max_data s ->
  data_received s + len data + receive_window s <= QUIC_VARINT_LIMIT ->
  recv_stream_data s i data fin now = (s', e) ->
  receive_window s - receive_window s / 2 <= local_max_data s' - data_received s'
  /\ (local_max_data s' <> local_max_data s -> exists value,
        utils.write_varint [] (local_max_data s') = Ok value
        /\ Effect.SendH3Capsule (id s) WT_CAPSULE_TYPE_MAX_DATA value false ∈ e).
Proof.
  intros Hwf Hfc Hmay [st Hi] Hroom Hlim.
  destruct (wf_flow_data s Hwf Hfc) as [_ Hrec [Hwin _]].
  destruct (Hrec (is_active_ended s i st Hwf Hi)) as ([? _] & Hcon & _).
  pose proof (len_nonneg data). assert (QUIC_VARINT_LIMIT <= U64_MAX) by done.
  unfold recv_stream_data. rewrite Hi. simpl.
  rewrite Hfc, Hcon, u64_add_small by lia.
  replace (_ <? _) with false by (symmetry; apply Z.ltb_ge; lia). simpl.
  destruct (Stream.recv_data st data fin) as [st' effs].
  destruct (replenish_data_credit _ false) as [s3 e3] eqn:Hr.
  pose proof Hr as (m & -> & _)%replenish_data_credit_eq.
  apply replenish_data_credit_room in Hr as [Hr1 Hr2]; try done; simpl in *; try lia.
  destruct (handle_closed _ i) as [s4 e4] eqn:Hc. intros [= <- <-].
  apply handle_closed_eq in Hc as [_ Hc]. simpl in Hc.
  assert (local_max_data s4 = m /\ data_received s4 = data_received s + len data) as [-> ->].
  { rewrite lookup_insert_eq in Hc. destruct (Stream.is_closed st'); [|by subst s4].
    by destruct Hc as (? & ? & ? & ? & -> & _). }
  split; [done|]. intros Hne. destruct (Hr2 Hne) as (value & Hv & ->).
  exists value. split; [done|]. apply elem_of_app. right. apply elem_of_app. left. by left.
Qed.

Lemma session_renews_data_credit_witness :
  let s := trace_state example_blocked in
  let s' := (recv_stream_data s 4 (repeat x00 600) false zero).1 in
  receive_window s - receive_window s / 2 <= local_max_data s' - data_received s'.
Proof.
  pose proof (inv_wf _ _ _ _ _ (fresh_invariant _ _ _ _ _ _ example_fresh example_blocked_reached)).
  destruct (session_renews_data_credit (trace_state example_blocked) 4 (repeat x00 600) false zero
    (recv_stream_data (trace_state example_blocked) 4 (repeat x00 600) false zero).1
    (recv_stream_data (trace_state example_blocked) 4 (repeat x00 600) false zero).2) as [H1 _];
    [done|vm_compute; reflexivity|vm_compute; reflexivity|vm_compute; by eexists
    |vm_compute; congruence|vm_compute; congruence|apply surjective_pairing|exact H1].
Defined.

(** ** The closing capsule *)

Lemma in_range_cont lo hi b :
  128 <= lo -> hi <= 191 -> in_range lo hi b = true -> is_utf8_cont b = true.
Proof.
  unfold is_utf8_cont, in_range. intros Hlo Hhi H. bool_to_prop.
  apply andb_true_iff. split; apply Z.leb_le; lia.
Qed.

(** A position that does not fall inside a character. *)
Definition boundary (l : bytes) (k : nat) : Prop :=
  k = 0%nat \/ forall b, l !! k = Some b -> is_utf8_cont b = false.

Lemma boundary_inside (c : bytes) l k b :
  boundary (c ++ l) k -> (0 < k)%nat -> c !! k = Some b -> is_utf8_cont b = true -> False.
Proof.
  intros [->|Hk] Hpos Hb Hc; [lia|].
  rewrite (Hk b) in Hc; [done|]. by apply lookup_app_l_Some.
Qed.

(** One encoded character in front: the shape shared by the four lengths. *)
Lemma boundary_tail (c : bytes) l k :
  (length c <= k)%nat -> boundary (c ++ l) k -> c <> [] -> boundary l (k - length c).
Proof.
  intros Hle [->|Hk] Hne; [by destruct c; simpl in *; [|lia]|].
  right. intros b Hb. apply Hk. by rewrite lookup_app_r.
Qed.

Lemma utf8_take l : forall k, utf8_valid l = true -> boundary l k -> utf8_valid (take k l) = true.
Proof.
  induction l as [l IH] using (well_founded_induction
    (Wf_nat.well_founded_ltof _ (@length byte))).
  unfold Wf_nat.ltof in IH. intros k Hv Hk.
  destruct k as [|k]; [done|]. destruct l as [|b1 l1]; [done|].
  cbn [utf8_valid take] in Hv |- *. destruct (in_range 0 127 b1) eqn:E1.
  { apply IH; [simpl; lia|done|].
    replace k with (S k - length [b1])%nat by (simpl; lia).
    by apply (boundary_tail [b1]); [simpl; lia|..]. }
  destruct l1 as [|b2 l2]; [done|].
  destruct k as [|k].
  { exfalso. apply (boundary_inside [b1; b2] l2 1 b2 Hk ltac:(lia) eq_refl).
    destruct (in_range 194 223 b1); [by apply andb_prop in Hv as [-> _]|].
    destruct l2 as [|b3 l3]; [done|]. destruct (in_range 224 239 b1).
    - bool_to_prop. repeat case_match; try done; by eapply in_range_cont; [..|eassumption].
    - destruct l3 as [|b4 l4]; [done|]. destruct (in_range 240 244 b1); [|done].
      bool_to_prop. repeat case_match; try done; by eapply in_range_cont; [..|eassumption]. }
  cbn [take]. destruct (in_range 194 223 b1) eqn:E2.
  { apply andb_prop in Hv as [-> Hv]. simpl. apply IH; [simpl; lia|done|].
    replace k with (S (S k) - length [b1; b2])%nat by (simpl; lia).
    by apply (boundary_tail [b1; b2]); [simpl; lia|..]. }
  destruct l2 as [|b3 l3]; [done|].
  destruct k as [|k].
  { exfalso. apply (boundary_inside [b1; b2; b3] l3 2 b3 Hk ltac:(lia) eq_refl).
    destruct (in_range 224 239 b1); [by bool_to_prop|].
    destruct l3 as [|b4 l4]; [done|]. destruct (in_range 240 244 b1); [|done]. by bool_to_prop. }
  cbn [take]. destruct (in_range 224 239 b1) eqn:E3.
  { apply andb_prop in Hv as [-> Hv]. simpl. apply IH; [simpl; lia|done|].
    replace k with (S (S (S k)) - length [b1; b2; b3])%nat by (simpl; lia).
    by apply (boundary_tail [b1; b2; b3]); [simpl; lia|..]. }
  destruct l3 as [|b4 l4]; [done|]. destruct (in_range 240 244 b1) eqn:E4; [|done].
  apply andb_prop in Hv as [Hh Hv]. destruct k as [|k].
  { exfalso. apply (boundary_inside [b1; b2; b3; b4] l4 3 b4 Hk ltac:(lia) eq_refl).
    by bool_to_prop. }
  cbn [take]. rewrite Hh. simpl. apply IH; [simpl; lia|done|].
  replace k with (S (S (S (S k))) - length [b1; b2; b3; b4])%nat by (simpl; lia).
  by apply (boundary_tail [b1; b2; b3; b4]); [simpl; lia|..].
Qed.

Lemma floor_char_boundary_spec l n :
  (floor_char_boundary l n <= n)%nat /\ boundary l (floor_char_boundary l n).
Proof.
  unfold floor_char_boundary. destruct (bool_decide _) eqn:E; bool_to_prop.
  { split; [done|]. right. intros b. by rewrite lookup_ge_None_2. }
  clear E. induction n as [|n IH]; [split; [done|by left]|].
  cbn [floor_boundary_from]. destruct (l !! S n) as [b|] eqn:E.
  - destruct (is_utf8_cont b) eqn:Hb; [destruct IH; split; [lia|done]|].
    split; [done|]. right. intros b'. rewrite E. by intros [= <-].
  - split; [done|]. right. intros b'. by rewrite E.
Qed.

Lemma recv_close_session_outcome peer code kept now peer' e :
  streams_live peer -> is_u32 code -> len kept <= WT_CLOSE_REASON_SIZE_LIMIT ->
  utf8_valid kept = true -> recv_close_session peer (be_put 4 code ++ kept) now = (peer', e) ->
  state peer' = SessionState.Closed /\ close_code peer' = Some code
  /\ close_reason peer' = Some kept
  /\ session_closed_event peer None (Some code) (Some kept) ∈ e.
Proof.
  intros Hl [Hc0 Hc] Hlen Hutf. unfold recv_close_session.
  assert (Hput : length (be_put 4 code) = 4%nat) by apply be_put_length.
  assert (Htake : take 4 (be_put 4 code ++ kept) = be_put 4 code)
    by (by rewrite <- Hput at 1; apply take_app_length).
  assert (Hdrop : drop 4 (be_put 4 code ++ kept) = kept)
    by (by rewrite <- Hput at 1; apply drop_app_length).
  rewrite Htake, Hdrop, be_get_put, Hutf, len_app. cbn [negb].
  rewrite Z.mod_small by (unfold U32_MAX in Hc; change (256 ^ Z.of_nat 4) with 4294967296; lia).
  pose proof (len_nonneg kept).
  replace (_ <? 4) with false by (symmetry; apply Z.ltb_ge; unfold len; rewrite Hput; lia).
  replace (_ <? len kept) with false by (symmetry; apply Z.ltb_ge; lia).
  destruct (release _) as [s1 e1] eqn:Hr. intros [= <- <-].
  apply release_outcome in Hr as (Hs & Hcode & Hreason & Hid & _); [|done|done].
  split_and!; try done. apply elem_of_app. right. right.
  unfold session_closed_event. rewrite Hid. by left.
Qed.

(** Closing with a code or a reason is understood by the other side.  The
    capsule the closing session sends is accepted by an open session, which ends
    with the code (saturated to 32 bits) and with the reason, cut at a character
    boundary to at most 1024 bytes. *)
Theorem session_close_roundtrip s code reason :
  is_u64 code -> utf8_valid reason = true -> (code <> ERR_APP_NO_ERROR \/ reason <> []) ->
  exists value kept,
    close_notice s code (Some reason)
      = Effect.SendH3Capsule (id s) WT_CAPSULE_TYPE_CLOSE_SESSION value true
    /\ kept `prefix_of` reason /\ len kept <= WT_CLOSE_REASON_SIZE_LIMIT
    /\ (len reason <= WT_CLOSE_REASON_SIZE_LIMIT -> kept = reason)
    /\ forall peer now peer' e,
         wf peer -> may_send_credit peer = true -> state peer <> SessionState.Connecting ->
         recv_capsule peer WT_CAPSULE_TYPE_CLOSE_SESSION value now = (peer', e) ->
         state peer' = SessionState.Closed /\ close_code peer' = Some (Z.min code U32_MAX)
         /\ close_reason peer' = Some kept
         /\ session_closed_event peer None (Some (Z.min code U32_MAX)) (Some kept) ∈ e.
Proof.
  intros [Hc0 Hc] Hutf Hne. unfold close_notice. cbn [default from_option].
  replace ((code =? ERR_APP_NO_ERROR) && bool_decide (reason = [])) with false.
  2:{ symmetry. apply andb_false_iff. rewrite Z.eqb_neq, bool_decide_eq_false. done. }
  set (kept := take (floor_char_boundary reason (Z.to_nat WT_CLOSE_REASON_SIZE_LIMIT)) reason).
  destruct (floor_char_boundary_spec reason (Z.to_nat WT_CLOSE_REASON_SIZE_LIMIT)) as [Hle Hb].
  assert (Hlen : len kept <= WT_CLOSE_REASON_SIZE_LIMIT).
  { assert (0 <= WT_CLOSE_REASON_SIZE_LIMIT) by done. unfold len, kept.
    rewrite length_take. lia. }
  assert (Hcode : default U32_MAX (u32_try_from code) = Z.min code U32_MAX).
  { unfold u32_try_from. case_match; bool_to_prop; simpl; lia. }
  exists (be_put 4 (Z.min code U32_MAX) ++ kept), kept. rewrite Hcode.
  split_and!; [done|apply prefix_take|done| |].
  - intros Hshort. unfold kept, floor_char_boundary. rewrite bool_decide_true.
    + by apply take_ge.
    + unfold len in Hshort. lia.
  - intros peer now peer' e Hwf Hmay Hst Hrecv.
    apply (recv_close_session_outcome peer _ kept now); try done.
    + exact (wf_live peer Hwf).
    + split; [|lia]. assert (0 <= U32_MAX) by done. lia.
    + by apply utf8_take.
    + unfold recv_capsule, may_send_credit in *.
      by destruct (state peer), (flow_control_negotiated peer), (is_client peer).
Qed.

Lemma session_close_roundtrip_witness :
  exists value kept,
    close_notice example_session 7 (Some (b: "bye"))
      = Effect.SendH3Capsule 0 WT_CAPSULE_TYPE_CLOSE_SESSION value true
    /\ kept `prefix_of` b: "bye".
Proof.
  destruct (session_close_roundtrip example_session 7 (b: "bye")) as (value & kept & H1 & H2 & _);
    [split; vm_compute; congruence|reflexivity|right; discriminate|].
  exists value, kept. split; [exact H1|exact H2].
Defined.

(** ** Replaying what arrived early *)

(** What the handlers of an established session leave alone. *)
Definition same_queues (s s' : t) : Prop :=
  pending_capsules s' = pending_capsules s /\ pending_streams s' = pending_streams s.

Lemma same_queues_trans s1 s2 s3 : same_queues s1 s2 -> same_queues s2 s3 -> same_queues s1 s3.
Proof. unfold same_queues. intuition congruence. Qed.

Lemma flush_blocked_loop_queues n s s' e :
  flush_blocked_loop s n = (s', e) -> same_queues s s'.
Proof.
  revert s s' e. induction n as [|n IH]; intros s s' e H; cbn [flush_blocked_loop] in H.
  { by injection H as <- <-. }
  destruct (blocked_streams_queue s) as [|i q]; [by injection H as <- <-|].
  destruct (_ =? 0); [by injection H as <- <-|].
  destruct (streams _ !! i) as [st|]; [|by apply IH in H].
  destruct (Stream.flush_writes _ _) as [[st' eff] sent].
  destruct (flush_blocked_loop _ n) as [s1 e1] eqn:Hl. injection H as <- _.
  apply IH in Hl. by destruct (Stream.is_blocked st').
Qed.

Lemma flush_blocked_writes_queues s s' e :
  flush_blocked_writes s = (s', e) -> same_queues s s'.
Proof.
  unfold flush_blocked_writes. destruct (_ && _); [by intros [= <- _]|].
  destruct (flush_blocked_loop _ _) as [s1 e1] eqn:Hl.
  destruct (emit_data_blocked s1) as [s2 e2] eqn:He. intros [= <- _].
  apply emit_data_blocked_eq in He as (v & -> & _). by apply flush_blocked_loop_queues in Hl.
Qed.

Lemma flush_blocked_stream_requests_queues s u s' e :
  flush_blocked_stream_requests s u = (s', e) -> same_queues s s'.
Proof.
  unfold flush_blocked_stream_requests. destruct u;
    destruct (unblock_requests _ _ _ _) as [[o bl] cr];
    destruct (emit_streams_blocked _ _) as [s1 e1] eqn:He; intros [= <- _];
    by apply emit_streams_blocked_eq in He as (v & w & -> & _).
Qed.

Lemma abort_not_connected s code reason now s' e :
  wf s -> is_active s = true -> abort s code reason now = (s', e) ->
  state s' <> SessionState.Connected.
Proof.
  intros Hwf Hact H. apply abort_outcome in H as (-> & _); [done|exact (wf_live s Hwf)|done].
Qed.

Lemma recv_capsule_queues s capsule_type value now s' e :
  wf s -> state s = SessionState.Connected ->
  recv_capsule s capsule_type value now = (s', e) -> state s' = SessionState.Connected ->
  same_queues s s'.
Proof.
  intros Hwf Hst. assert (Hact : is_active s = true) by (unfold is_active; by rewrite Hst).
  pose proof (fun code reason s' e => abort_not_connected s code reason now s' e Hwf Hact) as Hab.
  unfold recv_capsule. rewrite Hst. destruct (_ && _); [by intros [= <- _]|].
  unfold dispatch_capsule.
  destruct (_ =? _).
  { unfold recv_close_session. repeat (case_match; [intros H' Hc; by apply Hab in H'|]).
    destruct (release _) as [s1 e1] eqn:Hr. intros [= <- _].
    apply release_outcome in Hr as (-> & _); [done|exact (wf_live s Hwf)|done]. }
  destruct (_ =? _).
  { unfold recv_data_blocked. destruct (replenish_data_credit s true) as [s1 [eff|]] eqn:Hr;
      intros [= <- _]; by apply replenish_data_credit_eq in Hr as (m & -> & _). }
  destruct (_ && _); [by intros [= <- _]|].
  destruct (_ =? _).
  { unfold recv_max_data. destruct (utils.read_varint value) as [[m ?]|];
      [|intros H Hc; by apply Hab in H].
    destruct (_ <? _); [|intros H Hc; by apply Hab in H].
    destruct (flush_blocked_writes _) as [s1 e1] eqn:Hf. intros [= <- _] _.
    by apply flush_blocked_writes_queues in Hf. }
  destruct (_ || _); [intros H Hc; by apply Hab in H|].
  destruct (_ =? _); [|destruct (_ =? _)].
  1: unfold recv_max_streams_bidi. 2: unfold recv_max_streams_uni.
  1,2: destruct (utils.read_varint value) as [[m ?]|]; [|intros H Hc; by apply Hab in H];
    destruct (_ <? _); [intros H Hc; by apply Hab in H|];
    destruct (_ <? _); [|intros H Hc; by apply Hab in H];
    destruct (flush_blocked_stream_requests _ _) as [s1 e1] eqn:Hf; intros [= <- _] _;
    by apply flush_blocked_stream_requests_queues in Hf.
  destruct (_ || _); [|by intros [= <- _]].
  unfold recv_streams_blocked. destruct (utils.read_varint value) as [[m ?]|];
    [|intros H Hc; by apply Hab in H].
  destruct (_ <? _); [intros H Hc; by apply Hab in H|].
  destruct (replenish_streams_credit s _ true) as [s1 [eff|]] eqn:Hr; intros [= <- _];
    by apply replenish_streams_credit_eq in Hr as (mb & mu & -> & _).
Qed.

Lemma wf_next_capsule s c rest :
  wf s -> is_active s = true -> pending_capsules s = c :: rest ->
  wf (s <| pending_capsules := rest |>).
Proof.
  intros Hwf Hact Hq.
  refine (wf_queues s (pending_datagram_requests s) (pending_datagrams s) rest
            (pending_streams s) Hwf Hact _ _ _); try (by destruct Hwf).
  apply (len_tail_le c). rewrite <- Hq. by destruct Hwf.
Qed.

Lemma replay_capsules_complete fuel s now s' e finished :
  wf s -> state s = SessionState.Connected -> (length (pending_capsules s) <= fuel)%nat ->
  replay_capsules s fuel now = (s', e, finished) ->
  if finished
  then pending_capsules s' = [] /\ pending_streams s' = pending_streams s
       /\ state s' = SessionState.Connected
  else state s' <> SessionState.Connected.
Proof.
  revert s e finished. induction fuel as [|fuel IH]; intros s e finished Hwf Hst Hlen;
    cbn [replay_capsules]; destruct (pending_capsules s) as [|[ty v] rest] eqn:Hq;
    try (by intros [= <- _ <-]); [simpl in Hlen; lia|].
  assert (Hact : is_active s = true) by (unfold is_active; by rewrite Hst).
  pose proof (wf_next_capsule s _ _ Hwf Hact Hq) as Hwf1.
  destruct (recv_capsule _ ty v now) as [s1 e1] eqn:Hc.
  destruct (bool_decide _) eqn:Est; cbn [negb]; bool_to_prop; [|by intros [= <- _ <-]].
  destruct (replay_capsules s1 fuel now) as [[s2 e2] f2] eqn:Hr. intros [= <- _ <-].
  pose proof (recv_capsule_queues _ _ _ _ _ _ Hwf1 Hst Hc Est) as [Hpc Hps]. simpl in Hpc, Hps.
  apply recv_capsule_post in Hc; [|done].
  apply IH in Hr; [|by destruct Hc|done|rewrite Hpc; simpl in Hlen; lia].
  by rewrite <- Hps.
Qed.

Lemma replay_datagrams_complete fuel s s' e :
  state s = SessionState.Connected -> (length (pending_datagrams s) <= fuel)%nat ->
  replay_datagrams s fuel = (s', e) ->
  (pending_datagram_requests s' = [] \/ pending_datagrams s' = [])
  /\ same_queues s s' /\ streams s' = streams s /\ state s' = state s
  /\ id s' = id s /\ is_client s' = is_client s.
Proof.
  revert s e. induction fuel as [|fuel IH]; intros s e Hst Hlen; cbn [replay_datagrams];
    destruct (pending_datagram_requests s) as [|r rs] eqn:Hr,
      (pending_datagrams s) as [|data rest] eqn:Hd;
    try (intros [= <- _]; unfold same_queues; by auto 8); [simpl in Hlen; lia|].
  assert (Hc : recv_datagram (s <| pending_datagrams := rest |>) data
    = (s <| pending_datagrams := rest |> <| pending_datagram_requests := rs |>,
       [Effect.NotifyRequestDone r (RequestResult.Datagram data)])).
  { unfold recv_datagram, is_active. simpl. by rewrite Hst, Hr. }
  rewrite Hc. destruct (replay_datagrams _ fuel) as [s2 e2] eqn:Hrec. intros [= <- _].
  apply IH in Hrec as (Hdone & Hq & Hs & Hstate & Hid & Hcl); [|done|simpl in *; lia].
  by split_and!.
Qed.

Lemma replay_pending_queues_complete s now s' e :
  wf s -> state s = SessionState.Connected -> replay_pending_queues s now = (s', e) ->
  state s' = SessionState.Connected ->
  pending_capsules s' = [] /\ pending_streams s' = []
  /\ (pending_datagram_requests s' = [] \/ pending_datagrams s' = [])
  /\ forall i, i ∈ pending_streams s -> has_stream s' i = true ->
       stream_opened_event s' i (utils.stream_direction_from_id i (is_client s')) true ∈ e.
Proof.
  intros Hwf Hst. unfold replay_pending_queues.
  destruct (replay_capsules _ _ _) as [[s1 e1] finished] eqn:H1.
  apply replay_capsules_complete in H1; [|done..].
  destruct finished; cbn [negb]; [|by intros [= <- _]]. destruct H1 as (Hpc & Hps & Hst1).
  destruct (replay_datagrams _ _) as [s2 e2] eqn:H2.
  apply replay_datagrams_complete in H2 as (Hdone & [Hpc2 Hps2] & Hs & _ & Hid & Hcl); [|done..].
  unfold replay_streams. intros [= <- <-] _. simpl.
  split_and!; [congruence|done|done|]. intros i Hi Hhas.
  apply elem_of_app. right. apply elem_of_app. right.
  apply list_elem_of_omap. exists i. split; [congruence|].
  change (has_stream s2 i = true) in Hhas. by rewrite Hhas.
Qed.

(** The two ways a connecting session becomes ready. *)
Definition becomes_ready (s : t) (now : f64) (s' : t) (e : list Effect.t) : Prop :=
  (exists r headers protocol, accept s r headers protocol now = (s', e))
  \/ (exists protocol, confirm s protocol now = (s', e)).

Lemma becomes_ready_inv s now s' e :
  state s = SessionState.Connecting -> becomes_ready s now s' e ->
  s' = s \/ exists protocol before replayed, e = before ++ replayed
    /\ Forall (fun x => is_stream_event x = false) before
    /\ replay_pending_queues (s <| ready_at := Some now |> <| wt_protocol := protocol |>
                                <| state := SessionState.Connected |>) now = (s', replayed).
Proof.
  intros Hst [(r & headers & protocol & H)|(protocol & H)].
  - unfold accept in H. destruct (is_client s); [left; congruence|].
    destruct (negb _); [left; congruence|]. destruct (negb _); [left; congruence|].
    destruct (protocol_header _ _) as [hs|]; [|left; congruence].
    destruct (replay_pending_queues _ _) as [s1 e1] eqn:Hr. injection H as <- <-.
    right. eexists protocol, [_; _; _], e1. split; [done|]. split; [by repeat constructor|done].
  - unfold confirm in H. destruct (negb _); [left; congruence|].
    destruct (replay_pending_queues _ _) as [s1 e1] eqn:Hr. injection H as <- <-.
    right. eexists protocol, [_], e1. split; [done|]. split; [by repeat constructor|done].
Qed.

(** A session that becomes ready (accepted by a server, confirmed to a client)
    and stays open has replayed everything that arrived early: no capsule or stream
    is left waiting, every stream it still holds has been announced, and no
    datagram waits while a read does. *)
Theorem session_replays_early_arrivals s now s' e :
  wf s -> state s = SessionState.Connecting -> becomes_ready s now s' e ->
  state s' = SessionState.Connected ->
  pending_capsules s' = [] /\ pending_streams s' = []
  /\ (pending_datagram_requests s' = [] \/ pending_datagrams s' = [])
  /\ forall i, i ∈ pending_streams s -> has_stream s' i = true ->
       stream_opened_event s' i (utils.stream_direction_from_id i (is_client s')) true ∈ e.
Proof.
  intros Hwf Hst Hr Hst'.
  apply becomes_ready_inv in Hr as [->|(protocol & before & replayed & -> & _ & Hr)];
    [congruence| |done].
  assert (Hact : is_active s = true) by (unfold is_active; by rewrite Hst).
  apply replay_pending_queues_complete in Hr as (? & ? & ? & Hopen);
    [|by apply wf_state|done|done].
  split_and!; try done. intros i Hi Hhas. apply elem_of_app. right. by apply Hopen.
Qed.

(** An early session: a datagram, a stream and a capsule arrived before the user
    accepted it. *)
Definition early_arrivals (capsule : Z) (value : bytes) : list op :=
  [OpStreamOpened 4 zero; OpStreamOpened 8 zero; OpRecvDatagram (b: "hi");
   OpCapsule capsule value zero].

Definition example_early : trace :=
  default start (drive (early_arrivals WT_CAPSULE_TYPE_MAX_DATA max_data_100) start).

Lemma example_early_wf : wf (trace_state example_early).
Proof.
  assert (Hr : reached example_session example_early).
  { eapply (drive_sound _ (early_arrivals WT_CAPSULE_TYPE_MAX_DATA max_data_100) start);
      [apply reachable_start|vm_compute; reflexivity]. }
  exact (inv_wf _ _ _ _ _ (fresh_invariant _ _ _ _ _ _ example_fresh Hr)).
Qed.

Lemma session_replays_early_arrivals_witness :
  let s := trace_state example_early in
  let '(s', e) := accept s 1 [] None zero in
  pending_streams s = [4; 8] /\ pending_streams s' = [] /\ pending_capsules s' = [].
Proof.
  destruct (session_replays_early_arrivals (trace_state example_early) zero
    (accept (trace_state example_early) 1 [] None zero).1
    (accept (trace_state example_early) 1 [] None zero).2) as (H1 & H2 & _);
    [apply example_early_wf|vm_compute; reflexivity|left; exists 1, [], None; apply surjective_pairing
    |vm_compute; reflexivity|].
  cbv zeta. destruct (accept _ _ _ _ _) as [s' e]. split_and!; [vm_compute; reflexivity|exact H2|exact H1].
Defined.

Lemma recv_capsule_drain s value now :
  state s = SessionState.Connected ->
  recv_capsule s WT_CAPSULE_TYPE_DRAIN_SESSION value now
  = (s <| state := SessionState.Draining |>, [session_event s EventType.SessionDraining]).
Proof.
  intros Hst. unfold recv_capsule. rewrite Hst, andb_false_r.
  unfold dispatch_capsule. rewrite Hst. done.
Qed.

(** C35: a DRAIN capsule that arrived before the session was ready stops the replay:
    the session becomes draining with everything behind the capsule still queued,
    and not one of the streams that arrived early is announced. *)
Theorem session_drain_stops_replay s now s' e value rest :
  state s = SessionState.Connecting ->
  pending_capsules s = (WT_CAPSULE_TYPE_DRAIN_SESSION, value) :: rest ->
  becomes_ready s now s' e -> state s' <> SessionState.Connecting ->
  state s' = SessionState.Draining /\ pending_capsules s' = rest
  /\ pending_streams s' = pending_streams s /\ pending_datagrams s' = pending_datagrams s
  /\ pending_datagram_requests s' = pending_datagram_requests s
  /\ Forall (fun x => is_stream_event x = false) e.
Proof.
  intros Hst Hq Hr Hne.
  apply becomes_ready_inv in Hr as [->|(protocol & before & replayed & -> & Hb & Hr)];
    [done| |done].
  unfold replay_pending_queues in Hr.
  assert (Hcap : pending_capsules (s <| ready_at := Some now |> <| wt_protocol := protocol |>
                    <| state := SessionState.Connected |>)
                 = (WT_CAPSULE_TYPE_DRAIN_SESSION, value) :: rest) by done.
  rewrite Hcap in Hr. cbn [length replay_capsules] in Hr. rewrite Hcap in Hr.
  rewrite recv_capsule_drain in Hr by done.
  rewrite bool_decide_false in Hr by done. cbn [negb] in Hr.
  apply pair_eq in Hr as [<- <-]. split_and!; try done.
  apply Forall_app. split; [done|]. by repeat constructor.
Qed.

Definition example_drained : trace :=
  default start (drive (early_arrivals WT_CAPSULE_TYPE_DRAIN_SESSION []) start).

Lemma session_drain_stops_replay_witness :
  let s := trace_state example_drained in
  let '(s', e) := accept s 1 [] None zero in
  state s' = SessionState.Draining /\ pending_streams s' = [4; 8].
Proof.
  destruct (session_drain_stops_replay (trace_state example_drained) zero
    (accept (trace_state example_drained) 1 [] None zero).1
    (accept (trace_state example_drained) 1 [] None zero).2 [] []) as (H1 & _ & H2 & _);
    [vm_compute; reflexivity|vm_compute; reflexivity
    |left; exists 1, [], None; apply surjective_pairing|vm_compute; discriminate|].
  cbv zeta. destruct (accept _ _ _ _ _) as [s' e]. split; [exact H1|]. refine (eq_trans H2 _). vm_compute. reflexivity.
Defined.

End SessionO.
