(* ===== verification/SessionStreams.v ===== *)
(** * What a session speaks about

    An operation of a session never brings in a stream but the one it opens or
    binds, and what it emits is about the session itself.  The connection relies
    on both to route events to the right session. *)

From S2P Require Import Prelude.
From S2P Require Import Types.
From S2P Require Import Events.
From S2P Require Import Utils.
From S2P Require Import StreamMachine.
From S2P Require Import StreamProps.
From S2P Require Import SessionMachine.
From S2P Require Import SessionProps.
From S2P Require Import SessionRuns.
From S2P Require Import SessionTheorems.

Module SessionSt.
Import Session SessionP SessionR.

(** Every stream of [s'] is one of [s] or in [extra]. *)
Definition streams_within (s s' : t) (extra : list StreamId) : Prop :=
  forall j, is_Some (streams s' !! j) -> is_Some (streams s !! j) \/ j ∈ extra.

(** An effect in the name of one session. *)
Definition speaks_for (session_id : SessionId) (e : Effect.t) : Prop :=
  match e with
  | Effect.CreateQuicStream _ i _ | Effect.EmitSessionEvent i _ _ _ _ _ _ _ _ _ _ _ _ _
  | Effect.SendH3Capsule i _ _ _ | Effect.SendH3Datagram i _ | Effect.SendH3Headers i _ _ =>
      i = session_id
  | Effect.CloseQuicConnection _ _ | Effect.CreateH3ConnectStream _ _ _ _
  | Effect.CreateH3LocalStreams | Effect.EmitConnectionEvent _ _ _ _ | Effect.SendH3Goaway _
  | Effect.SendQuicDatagram _ _ => False
  | _ => True
  end.

Record local_step (s s' : t) (extra : list StreamId) (effects : list Effect.t) : Prop := {
  local_streams : streams_within s s' extra;
  local_id : id s' = id s;
  local_speaks : Forall (speaks_for (id s)) effects;
}.

Lemma within_trans s1 s2 s3 extra :
  streams_within s1 s2 extra -> streams_within s2 s3 extra -> streams_within s1 s3 extra.
Proof. intros H12 H23 j Hj. destruct (H23 j Hj); auto. Qed.

Lemma local_trans s1 s2 s3 extra e1 e2 :
  local_step s1 s2 extra e1 -> local_step s2 s3 extra e2 ->
  local_step s1 s3 extra (e1 ++ e2).
Proof.
  intros [Hs1 Hi1 He1] [Hs2 Hi2 He2]. rewrite Hi1 in *. split; [|congruence|by apply Forall_app].
  by eapply within_trans.
Qed.

Lemma local_app s s' extra e1 e2 :
  local_step s s' extra e1 -> Forall (speaks_for (id s)) e2 -> local_step s s' extra (e1 ++ e2).
Proof. intros [] ?. split; [done|done|by apply Forall_app]. Qed.

Lemma local_cons s s' extra e e1 :
  speaks_for (id s) e -> local_step s s' extra e1 -> local_step s s' extra (e :: e1).
Proof. intros ? []. split; [done|done|by constructor]. Qed.

(** The streams are the same, but for one that was updated, dropped or added. *)
Lemma local_same s s' extra e :
  streams s' = streams s -> id s' = id s -> Forall (speaks_for (id s)) e ->
  local_step s s' extra e.
Proof. intros Hs Hi He. split; [|done|done]. intros j. rewrite Hs. by left. Qed.

Lemma local_update s s' i st extra e :
  is_Some (streams s !! i) -> streams s' = <[i := st]> (streams s) -> id s' = id s ->
  Forall (speaks_for (id s)) e -> local_step s s' extra e.
Proof.
  intros Hi Hs Hid He. split; [|done|done]. intros j. rewrite Hs.
  destruct (decide (i = j)) as [<-|Hne]; [by left|]. rewrite lookup_insert_ne by done. by left.
Qed.

Lemma local_delete s s' i extra e :
  streams s' = delete i (streams s) -> id s' = id s -> Forall (speaks_for (id s)) e ->
  local_step s s' extra e.
Proof.
  intros Hs Hid He. split; [|done|done]. intros j. rewrite Hs.
  destruct (decide (i = j)) as [<-|Hne].
  - rewrite lookup_delete_eq. by intros [].
  - rewrite lookup_delete_ne by done. by left.
Qed.

Lemma local_open s s' i st e :
  streams s' = <[i := st]> (streams s) -> id s' = id s -> Forall (speaks_for (id s)) e ->
  local_step s s' [i] e.
Proof.
  intros Hs Hid He. split; [|done|done]. intros j. rewrite Hs.
  destruct (decide (i = j)) as [<-|Hne].
  - intros _. right. by left.
  - rewrite lookup_insert_ne by done. by left.
Qed.

Lemma stream_speaks i session_id effects :
  Forall (stream_effect i) effects -> Forall (speaks_for session_id) effects.
Proof. intros H. eapply Forall_impl; [exact H|]. by intros []. Qed.

Lemma failures_speak session_id ids :
  Forall (speaks_for session_id) (session_abort_failure <$> ids).
Proof. apply Forall_fmap, Forall_true. done. Qed.

Lemma suppress_speaks s i effects session_id :
  Forall (speaks_for session_id) effects ->
  Forall (speaks_for session_id) (suppress_pending_stream_events s i effects).
Proof.
  intros H. unfold suppress_pending_stream_events. destruct (bool_decide _); [|done].
  rewrite Forall_forall in *. intros x Hx. apply H. by apply list_elem_of_filter in Hx as [_ ?].
Qed.

(** Finish a branch that left the streams alone. *)
Ltac same_streams := intros [= <- <-]; by apply local_same; [..|repeat constructor].

(** ** The auxiliary operations *)

Lemma emit_data_blocked_local s s' e extra :
  emit_data_blocked s = (s', e) -> local_step s s' extra (option_list e).
Proof.
  unfold emit_data_blocked. destruct (negb _); [same_streams|]. destruct (_ && _); [|same_streams].
  destruct (utils.write_varint _ _); same_streams.
Qed.

Lemma emit_streams_blocked_local s u s' e extra :
  emit_streams_blocked s u = (s', e) -> local_step s s' extra (option_list e).
Proof.
  unfold emit_streams_blocked. destruct (negb (flow_control_negotiated s)); [same_streams|].
  destruct u; (destruct (_ || _); [same_streams|]); destruct (utils.write_varint _ _); same_streams.
Qed.

Lemma replenish_data_credit_local s force s' e extra :
  replenish_data_credit s force = (s', e) -> local_step s s' extra (option_list e).
Proof.
  unfold replenish_data_credit. repeat (destruct (negb _); [same_streams|]).
  destruct (_ <=? _); [same_streams|]. destruct (utils.write_varint _ _); same_streams.
Qed.

Lemma replenish_streams_credit_local s u force s' e extra :
  replenish_streams_credit s u force = (s', e) -> local_step s s' extra (option_list e).
Proof.
  unfold replenish_streams_credit. repeat (destruct (negb _); [same_streams|]).
  destruct u; (destruct (_ || _); [same_streams|]); destruct (utils.write_varint _ _); same_streams.
Qed.

Lemma count_closed_stream_local s u s' e extra :
  count_closed_stream s u = (s', e) -> local_step s s' extra (option_list e).
Proof.
  unfold count_closed_stream. destruct u; intros H;
    apply (replenish_streams_credit_local _ _ _ _ _ extra) in H as [Hs Hi He]; by split.
Qed.

Lemma handle_closed_local s i s' e extra :
  handle_closed s i = (s', e) -> local_step s s' extra e.
Proof.
  unfold handle_closed. destruct (streams s !! i) as [st|]; [|same_streams].
  destruct (Stream.is_closed st); [|same_streams].
  set (s0 := s <| streams := _ |> <| blocked_streams := _ |>).
  assert (H0 : local_step s s0 extra (suppress_pending_stream_events s0 i
    [Effect.EmitStreamEvent i EventType.StreamClosed None None None None])).
  { apply (local_delete _ _ i); [done|done|]. apply suppress_speaks. by repeat constructor. }
  destruct (utils.is_peer_initiated_stream _ _); [|by intros [= <- <-]].
  destruct (count_closed_stream _ _) as [s1 e1] eqn:Hc. intros [= <- <-].
  apply (count_closed_stream_local _ _ _ _ extra) in Hc. by eapply local_trans.
Qed.

(** A stream handler: the stream is replaced, then forgotten if it is closed. *)
Lemma handler_local s i st eff s' e extra :
  is_Some (streams s !! i) -> Forall (speaks_for (id s)) eff ->
  handle_closed (s <| streams := <[i := st]> (streams s) |>) i = (s', e) ->
  local_step s s' extra (eff ++ e).
Proof.
  intros Hi He H. apply (handle_closed_local _ _ _ _ extra) in H.
  eapply local_trans; [|exact H]. by apply (local_update _ _ i st).
Qed.

Lemma account_write_local s i st effects sent s' e extra :
  is_Some (streams s !! i) -> Forall (speaks_for (id s)) effects ->
  account_write s i st effects sent = (s', e) -> local_step s s' extra e.
Proof.
  unfold account_write. intros Hi He. destruct (emit_data_blocked _) as [s1 e1] eqn:Hb.
  intros [= <- <-]. apply (emit_data_blocked_local _ _ _ extra) in Hb.
  eapply local_trans; [|exact Hb].
  apply (local_update _ _ i st); [done| | |done]; unfold note_blocked; by destruct (_ && _).
Qed.

Lemma flush_blocked_loop_local n s s' e extra :
  flush_blocked_loop s n = (s', e) -> local_step s s' extra e.
Proof.
  revert s s' e. induction n as [|n IH]; intros s s' e; cbn [flush_blocked_loop]; [same_streams|].
  destruct (blocked_streams_queue s) as [|i q]; [same_streams|].
  destruct (_ =? 0); [same_streams|].
  destruct (streams _ !! i) as [st|] eqn:Hi.
  2:{ intros H. apply IH in H as [? ? ?]. by split. }
  destruct (Stream.flush_writes _ _) as [[st' eff] sent] eqn:Hf.
  destruct (flush_blocked_loop _ n) as [s1 e1] eqn:Hl. intros [= <- <-].
  apply StreamP.flush_writes_effects in Hf. apply (stream_speaks _ (id s)) in Hf.
  apply IH in Hl. eapply local_trans; [|exact Hl].
  apply (local_update _ _ i st'); [by eexists| | |done]; by destruct (Stream.is_blocked st').
Qed.

Lemma flush_blocked_writes_local s s' e extra :
  flush_blocked_writes s = (s', e) -> local_step s s' extra e.
Proof.
  unfold flush_blocked_writes. destruct (_ && _); [same_streams|].
  destruct (flush_blocked_loop _ _) as [s1 e1] eqn:Hl.
  destruct (emit_data_blocked s1) as [s2 e2] eqn:He. intros [= <- <-].
  apply (emit_data_blocked_local _ _ _ extra) in He.
  apply (flush_blocked_loop_local _ _ _ _ extra) in Hl. by eapply local_trans.
Qed.

Lemma flush_blocked_stream_requests_local s u s' e extra :
  flush_blocked_stream_requests s u = (s', e) -> local_step s s' extra e.
Proof.
  unfold flush_blocked_stream_requests. destruct u;
    destruct (unblock_requests _ _ _ _) as [[o bl] cr];
    destruct (emit_streams_blocked _ _) as [s1 e1] eqn:He; intros [= <- <-];
    apply (emit_streams_blocked_local _ _ _ _ extra) in He; (eapply local_trans; [|exact He]);
    (apply local_same; [done|done|]); by apply Forall_fmap, Forall_true.
Qed.

(** ** Ending a session *)

Lemma abort_each_local ids s s' e extra :
  abort_each s ids = (s', e) -> local_step s s' extra e.
Proof.
  revert s s' e. induction ids as [|i ids IH]; intros s s' e; cbn [abort_each]; [same_streams|].
  unfold abort_stream.
  assert (Hrest : forall s0 eff, local_step s s0 extra eff ->
    forall s' e, (let '(s, effects) := let '(s, closed) := handle_closed s0 i in (s, eff ++ closed) in
      let '(s, rest) := abort_each s ids in (s, effects ++ rest)) = (s', e) ->
    local_step s s' extra e).
  { intros s0 eff H0 s1 e1. destruct (handle_closed s0 i) as [s2 e2] eqn:Hc.
    destruct (abort_each s2 ids) as [s3 e3] eqn:Ha. intros [= <- <-].
    apply (handle_closed_local _ _ _ _ extra) in Hc. apply IH in Ha.
    eapply local_trans; [|exact Ha]. by eapply local_trans. }
  destruct (streams s !! i) as [st|] eqn:Hi; [|apply Hrest; by apply local_same].
  destruct (Stream.abort st _) as [st' eff] eqn:Hs. apply Hrest.
  apply (local_update _ _ i st'); [by eexists|done|done|]. apply suppress_speaks.
  apply (stream_speaks (Stream.id st)).
  exact (StreamP.step_effects (StreamP.OpAbort _) _ _ _ Hs).
Qed.

Lemma release_local s s' e extra : release s = (s', e) -> local_step s s' extra e.
Proof.
  unfold release, abort_streams. destruct (abort_each _ _) as [s1 e1] eqn:Ha. intros [= <- <-].
  apply (abort_each_local _ _ _ _ extra) in Ha as [Hs Hi He].
  split; [done|done|]. rewrite !Forall_app. split_and!; try apply failures_speak. done.
Qed.

(** The shape of every way a session ends. *)
Lemma ended_local s s0 s' e eff extra :
  streams s0 = streams s -> id s0 = id s -> release s0 = (s', e) ->
  (id s' = id s -> Forall (speaks_for (id s)) eff) -> local_step s s' extra (e ++ eff).
Proof.
  intros Hs Hi Hr Heff. apply (release_local _ _ _ extra) in Hr as [Hs' Hi' He'].
  rewrite Hi in *. split; [|done|apply Forall_app; auto].
  intros j Hj. unfold streams_within in Hs'. rewrite Hs in Hs'. auto.
Qed.

Lemma abort_local s code reason now s' e extra :
  abort s code reason now = (s', e) -> local_step s s' extra e.
Proof.
  unfold abort. destruct (release _) as [s1 e1] eqn:Hr.
  assert (Hend : local_step s s1 extra (e1 ++ [Effect.ResetQuicStream (id s1) code;
                    session_closed_event s1 None (Some code) (Some reason)])).
  { eapply ended_local; [| |exact Hr|]; [done|done|]. intros Hi. by repeat constructor. }
  by destruct (state s); try same_streams; intros [= <- <-].
Qed.

Lemma close_notice_speaks s code reason : speaks_for (id s) (close_notice s code reason).
Proof. unfold close_notice. by destruct (_ && _). Qed.

(** ** Capsules and readiness *)

Lemma recv_close_session_local s value now s' e extra :
  recv_close_session s value now = (s', e) -> local_step s s' extra e.
Proof.
  unfold recv_close_session. repeat (case_match; [apply abort_local|]).
  destruct (release _) as [s1 e1] eqn:Hr. intros [= <- <-].
  eapply ended_local; [| |exact Hr|]; [done|done|]. intros Hi. by repeat constructor.
Qed.

(** A limit of the peer that moved: the event, then what it unblocks. *)
Lemma limit_local s s0 s' event e extra :
  streams s0 = streams s -> id s0 = id s -> speaks_for (id s) event ->
  local_step s0 s' extra e -> local_step s s' extra (event :: e).
Proof.
  intros Hs Hi Hev [Hs' Hi' He']. rewrite Hi in *. split; [|congruence|by constructor].
  intros j Hj. unfold streams_within in Hs'. rewrite Hs in Hs'. auto.
Qed.

Lemma dispatch_capsule_local s capsule_type value now s' e extra :
  dispatch_capsule s capsule_type value now = (s', e) -> local_step s s' extra e.
Proof.
  unfold dispatch_capsule. destruct (_ =? _); [apply recv_close_session_local|].
  destruct (_ =? _).
  { unfold recv_data_blocked. destruct (replenish_data_credit s true) as [s1 [eff|]] eqn:Hr;
      apply (replenish_data_credit_local _ _ _ _ extra) in Hr as [? Hi ?]; intros [= <- <-];
      split; try done. by repeat constructor. }
  destruct (_ && _); [same_streams|]. destruct (_ =? _).
  { unfold recv_max_data. destruct (utils.read_varint value) as [[m ?]|]; [|apply abort_local].
    destruct (_ <? _); [|apply abort_local].
    destruct (flush_blocked_writes _) as [s1 e1] eqn:Hf. intros [= <- <-].
    apply (flush_blocked_writes_local _ _ _ extra) in Hf. by eapply limit_local; [..|exact Hf]. }
  destruct (_ || _); [apply abort_local|].
  destruct (_ =? _); [|destruct (_ =? _)].
  1: unfold recv_max_streams_bidi. 2: unfold recv_max_streams_uni.
  1,2: destruct (utils.read_varint value) as [[m ?]|]; [|apply abort_local];
    destruct (_ <? _); [apply abort_local|]; destruct (_ <? _); [|apply abort_local];
    destruct (flush_blocked_stream_requests _ _) as [s1 e1] eqn:Hf; intros [= <- <-];
    apply (flush_blocked_stream_requests_local _ _ _ _ extra) in Hf;
    by eapply limit_local; [..|exact Hf].
  destruct (_ || _); [|same_streams].
  unfold recv_streams_blocked. destruct (utils.read_varint value) as [[m ?]|]; [|apply abort_local].
  destruct (_ <? _); [apply abort_local|].
  destruct (replenish_streams_credit s _ true) as [s1 [eff|]] eqn:Hr;
    apply (replenish_streams_credit_local _ _ _ _ _ extra) in Hr as [? Hi ?]; intros [= <- <-];
    split; try done. by repeat constructor.
Qed.

Lemma recv_capsule_local s capsule_type value now s' e extra :
  recv_capsule s capsule_type value now = (s', e) -> local_step s s' extra e.
Proof.
  unfold recv_capsule. destruct (state s); try same_streams.
  - destruct (_ && _); [same_streams|apply dispatch_capsule_local].
  - destruct (_ <=? _); [apply abort_local|same_streams].
  - destruct (_ && _); [same_streams|apply dispatch_capsule_local].
Qed.

Lemma replay_capsules_local fuel s now s' e finished extra :
  replay_capsules s fuel now = (s', e, finished) -> local_step s s' extra e.
Proof.
  revert s e finished. induction fuel as [|fuel IH]; intros s e finished;
    cbn [replay_capsules]; destruct (pending_capsules s) as [|[ty v] rest];
    try (intros [= <- <- _]; by apply local_same).
  destruct (recv_capsule _ ty v now) as [s1 e1] eqn:Hc.
  apply (recv_capsule_local _ _ _ _ _ _ extra) in Hc.
  assert (Hc' : local_step s s1 extra e1) by (destruct Hc; by split).
  destruct (negb _); [by intros [= <- <- _]|].
  destruct (replay_capsules s1 fuel now) as [[s2 e2] f2] eqn:Hr. intros [= <- <- _].
  apply IH in Hr. by eapply local_trans.
Qed.

Lemma recv_datagram_local s data s' e extra :
  recv_datagram s data = (s', e) -> local_step s s' extra e.
Proof.
  unfold recv_datagram. destruct (negb (is_active s)); [same_streams|].
  destruct (negb _); [destruct (pending_datagram_requests s)|]; try destruct (_ <=? _);
    same_streams.
Qed.

Lemma replay_datagrams_local fuel s s' e extra :
  replay_datagrams s fuel = (s', e) -> local_step s s' extra e.
Proof.
  revert s e. induction fuel as [|fuel IH]; intros s e; cbn [replay_datagrams];
    destruct (pending_datagram_requests s), (pending_datagrams s); try same_streams.
  destruct (recv_datagram _ _) as [s1 e1] eqn:Hc.
  apply (recv_datagram_local _ _ _ _ extra) in Hc.
  destruct (replay_datagrams s1 fuel) as [s2 e2] eqn:Hr. intros [= <- <-].
  apply IH in Hr. eapply local_trans; [|exact Hr]. destruct Hc. by split.
Qed.

Lemma replay_pending_queues_local s now s' e extra :
  replay_pending_queues s now = (s', e) -> local_step s s' extra e.
Proof.
  unfold replay_pending_queues. destruct (replay_capsules _ _ _) as [[s1 e1] f] eqn:H1.
  apply (replay_capsules_local _ _ _ _ _ _ extra) in H1.
  destruct (negb f); [by intros [= <- <-]|].
  destruct (replay_datagrams _ _) as [s2 e2] eqn:H2.
  apply (replay_datagrams_local _ _ _ _ extra) in H2.
  unfold replay_streams. intros [= <- <-]. eapply local_trans; [exact H1|].
  eapply local_trans; [exact H2|]. apply local_same; [done|done|].
  apply Forall_forall. intros x Hx. apply list_elem_of_omap in Hx as (i & _ & Hx).
  destruct (has_stream s2 i); [by injection Hx as <-|done].
Qed.

Lemma ready_local s now protocol s' e eff extra :
  replay_pending_queues (s <| ready_at := Some now |> <| wt_protocol := protocol |>
                           <| state := SessionState.Connected |>) now = (s', e) ->
  Forall (speaks_for (id s)) eff -> local_step s s' extra (eff ++ e).
Proof.
  intros H Heff. apply (replay_pending_queues_local _ _ _ _ extra) in H as [].
  split; [done|done|by apply Forall_app].
Qed.

(** ** Every event *)

Lemma register_stream_local s i direction now s' e :
  register_stream s i direction now = (s', e) -> local_step s s' [i] e.
Proof.
  unfold register_stream. destruct (bool_decide _).
  - destruct (_ <=? _); [|intros [= <- <-]; by eapply local_open].
    destruct (count_closed_stream _ _) as [s1 e1] eqn:Hc. intros [= <- <-].
    apply (count_closed_stream_local _ _ _ _ [i]) in Hc.
    eapply local_trans; [|exact Hc]. apply local_same; [done|done|].
    unfold refuse_stream. case_bool_decide; by repeat constructor.
  - intros [= <- <-]. eapply local_open; [done|done|]. by repeat constructor.
Qed.

Lemma handle_stream_opened_local s i now s' e :
  handle_stream_opened s i now = (s', e) -> local_step s s' [i] e.
Proof.
  assert (Hrefuse : forall d c, Forall (speaks_for (id s)) (refuse_stream i d c)).
  { intros d c. unfold refuse_stream. case_bool_decide; by repeat constructor. }
  unfold handle_stream_opened. destruct (negb _); [intros [= <- <-]; by apply local_same|].
  destruct (bool_decide _); [same_streams|].
  destruct (peer_streams_exhausted _ _).
  - destruct (abort _ _ _ _) as [s1 e1] eqn:Ha. intros [= <- <-].
    apply (abort_local _ _ _ _ _ _ [i]) in Ha. eapply local_trans; [|exact Ha]. by apply local_same.
  - intros H. apply register_stream_local in H as [].
    by destruct (utils.stream_direction_from_id _ _).
Qed.

Lemma recv_stream_data_local s i data fin now s' e extra :
  recv_stream_data s i data fin now = (s', e) -> local_step s s' extra e.
Proof.
  unfold recv_stream_data. destruct (streams s !! i) as [st|] eqn:Hi; [|same_streams].
  destruct (_ && _).
  { intros H. apply (abort_local _ _ _ _ _ _ extra) in H as []. by split. }
  destruct (Stream.recv_data _ _ _) as [st' eff] eqn:Hs.
  apply StreamP.recv_data_effects, (stream_speaks _ (id s)) in Hs.
  destruct (replenish_data_credit _ _) as [s1 e1] eqn:Hr.
  apply (replenish_data_credit_local _ _ _ _ extra) in Hr.
  destruct (handle_closed _ i) as [s2 e2] eqn:Hc. intros [= <- <-].
  apply (handle_closed_local _ _ _ _ extra) in Hc.
  eapply local_trans; [|eapply local_trans; [exact Hr|exact Hc]].
  by apply (local_update _ _ i st').
Qed.

(** The streams an operation may bring in. *)
Definition opens (o : op) : list StreamId :=
  match o with
  | OpBind i _ _ _ | OpStreamOpened i _ => [i]
  | _ => []
  end.

(** The handlers that replace one stream and may close it; [o] is the operation
    of the stream they run. *)
Ltac stream_handler o :=
  match goal with |- context [streams ?s !! ?i] => destruct (streams s !! i) eqn:Hi end;
  [|same_streams];
  match goal with
  | |- context [let '(_, _) := ?x in _] =>
      let Hs := fresh in
      destruct x eqn:Hs; apply (StreamP.step_effects o) in Hs
  end;
  destruct (handle_closed _ _) as [s1 e1] eqn:Hc; intros [= <- <-];
  eapply handler_local; [by eexists| |exact Hc];
  try apply suppress_speaks; by eapply stream_speaks.

Lemma create_stream_local s r u s' e extra :
  create_stream s r u = (s', e) -> local_step s s' extra e.
Proof.
  unfold create_stream. destruct (negb _); [same_streams|].
  destruct (_ && _); [|destruct u; same_streams].
  destruct (emit_streams_blocked _ _) as [s1 e1] eqn:He. intros [= <- <-].
  apply (emit_streams_blocked_local _ _ _ _ extra) in He. destruct u, He; by split.
Qed.

Lemma close_local s r code reason now s' e extra :
  close s r code reason now = (s', e) -> local_step s s' extra e.
Proof.
  unfold close. destruct (release _) as [s1 e1] eqn:Hr.
  assert (Hend : local_step s s1 extra (e1 ++ [close_notice s1 code reason;
                    session_closed_event s1 None (Some code) reason; request_done r])).
  { eapply ended_local; [| |exact Hr|]; [done|done|]. intros Hi.
    constructor; [rewrite <- Hi; apply close_notice_speaks|]. by repeat constructor. }
  by destruct (state s); try same_streams; intros [= <- <-].
Qed.

Lemma recv_connect_close_local s code reason now s' e extra :
  recv_connect_close s code reason now = (s', e) -> local_step s s' extra e.
Proof.
  unfold recv_connect_close. destruct (release _) as [s1 e1] eqn:Hr.
  assert (Hend : local_step s s1 extra
                   (e1 ++ [session_closed_event s1 None (Some code) (Some reason)])).
  { eapply ended_local; [| |exact Hr|]; [done|done|]. intros Hi. by repeat constructor. }
  by destruct (state s); try same_streams; intros [= <- <-].
Qed.

Lemma reject_local s r headers status now s' e extra :
  reject s r headers status now = (s', e) -> local_step s s' extra e.
Proof.
  unfold reject. destruct (is_client s); [same_streams|].
  repeat (destruct (negb _); [same_streams|]).
  destruct (release _) as [s1 e1] eqn:Hr. intros [= <- <-].
  eapply ended_local; [| |exact Hr|]; [done|done|]. intros Hi. by repeat constructor.
Qed.

Lemma accept_local s r headers protocol now s' e extra :
  accept s r headers protocol now = (s', e) -> local_step s s' extra e.
Proof.
  unfold accept. destruct (is_client s); [same_streams|]. repeat (destruct (negb _); [same_streams|]).
  destruct (protocol_header _ _); [|same_streams].
  destruct (replay_pending_queues _ _) as [s1 e1] eqn:Hr. intros [= <- <-].
  apply (ready_local _ _ _ _ _ [_; _; _] extra Hr). by repeat constructor.
Qed.

Lemma confirm_local s protocol now s' e extra :
  confirm s protocol now = (s', e) -> local_step s s' extra e.
Proof.
  unfold confirm. destruct (negb _); [same_streams|].
  destruct (replay_pending_queues _ _) as [s1 e1] eqn:Hr. intros [= <- <-].
  apply (ready_local _ _ _ _ _ [_] extra Hr). by repeat constructor.
Qed.

Lemma step_local o s s' e :
  step o s = (s', e) -> local_step s s' (opens o) e.
Proof.
  destruct o; cbn [step opens]; try same_streams;
    eauto using abort_local, recv_capsule_local, flush_blocked_stream_requests_local,
      handle_stream_opened_local, recv_stream_data_local, create_stream_local, close_local,
      recv_connect_close_local, reject_local, accept_local, confirm_local, recv_datagram_local.
  - unfold bind_stream. destruct (negb _); [|intros [= <- <-]; by eapply local_open; [..|repeat constructor]].
    destruct is_unidirectional; same_streams.
  - unfold complete_stream_write. destruct (streams s !! _) eqn:Hi; [|same_streams].
    destruct (Stream.complete_write _ _) as [[st eff] sent] eqn:Hs.
    apply account_write_local; [by eexists|].
    apply StreamP.complete_write_effects in Hs. by eapply stream_speaks.
  - unfold defer_stream. destruct (negb _); [same_streams|]. destruct is_unidirectional; same_streams.
  - unfold diagnose_stream. destruct (streams s !! _); same_streams.
  - unfold drain. destruct (negb _); same_streams.
  - unfold export_keying_material. destruct (state s); try same_streams; destruct (_ || _); same_streams.
  - unfold handle_stream_data_acknowledged. destruct (streams s !! _) eqn:Hi; [|same_streams].
    intros H. eapply (handler_local _ _ _ []); [by eexists|done|exact H].
  - unfold read_datagram. destruct (negb (is_active s)); [same_streams|].
    destruct (negb _); [|same_streams]. destruct (pending_datagrams s); same_streams.
  - unfold read_stream. stream_handler (StreamP.OpRead request_id max_bytes).
  - unfold recv_stop_sending. stream_handler (StreamP.OpRecvStopSending error_code).
  - unfold recv_stream_reset. stream_handler (StreamP.OpRecvReset error_code).
  - unfold reset_stream. stream_handler (StreamP.OpReset request_id error_code).
  - unfold send_datagram. destruct (negb _); [same_streams|]. destruct (_ <? _); same_streams.
  - unfold stop_stream. stream_handler (StreamP.OpStop request_id error_code).
  - unfold write_stream. destruct (streams s !! _) eqn:Hi.
    2:{ destruct (_ && _); same_streams. }
    destruct (Stream.write _ _ _ _ _) as [[st eff] sent] eqn:Hs.
    apply account_write_local; [by eexists|].
    apply StreamP.write_effects in Hs. by eapply stream_speaks.
Qed.

(** A session speaks only for itself: no event brings a stream into it but the
    one it opens or binds, its identifier never changes, and every session event,
    capsule, datagram, header block and stream creation it emits carries that
    identifier. *)
Theorem session_speaks_for_itself o s s' e :
  step o s = (s', e) ->
  streams_within s s' (opens o) /\ id s' = id s /\ Forall (speaks_for (id s)) e.
Proof. intros H. apply step_local in H as []. done. Qed.

Lemma session_speaks_for_itself_witness :
  let s := trace_state SessionT.example_blocked in
  Forall (speaks_for 0) (step (OpClose 7 42 None SessionT.zero) s).2.
Proof.
  destruct (session_speaks_for_itself (OpClose 7 42 None SessionT.zero)
    (trace_state SessionT.example_blocked) _ _ (surjective_pairing _)) as (_ & _ & H). exact H.
Defined.

End SessionSt.
