(* ===== verification/ConnectionMachine.v ===== *)
(** * The connection state machine

    [crates/src/protocol/connection.rs]: one WebTransport connection.  It owns the
    sessions, routes every event to the session it concerns through the stream
    map, keeps the session requests of a client until the peer answers, and
    buffers what arrives for a session that does not exist yet.  Hash maps are
    finite maps; the code sorts the keys before every loop whose order shows. *)

From S2P Require Import Prelude.
From S2P Require Import Types.
From S2P Require Import Events.
From S2P Require Import Utils.
From S2P Require Import StreamMachine.
From S2P Require Import SessionMachine.

Module ConnectionParameters.
Record t : Set := mk {
  early_event_ttl : f64;
  initial_max_data : Z;
  initial_max_streams_bidi : Z;
  initial_max_streams_uni : Z;
  max_connection_pending_events : Z;
  max_pending_capsules : Z;
  max_pending_datagrams : Z;
  max_pending_streams : Z;
  max_session_pending_events : Z;
  max_sessions : Z;
  max_write_buffer_size : Z;
  session_receive_window : Z;
}.
End ConnectionParameters.

Module SessionRequest.
Record t : Set := mk {
  authority : str;
  created_at : f64;
  headers : Headers;
  optimistic : bool;
  path : str;
  wt_available_protocols : option (list str);
}.
#[global] Instance eta_session_request : Eta t := fun r =>
  mk (authority r) (created_at r) (headers r) (optimistic r) (path r)
     (wt_available_protocols r).
#[global] Instance set_headers : Setter headers := ltac:(build_setter).
End SessionRequest.

Module Connection.

Record t : Set := mk {
  blocked_session_requests : list RequestId;
  close_code : option ErrorCode;
  close_reason : option str;
  closed_at : option f64;
  connected_at : option f64;
  early_event_buffer : gmap SessionId (list (f64 * ProtocolEvent.t));
  early_event_count : Z;
  early_event_ttl : f64;
  handle : ConnectionHandle;
  handshake_completed : bool;
  initial_max_data : Z;
  initial_max_streams_bidi : Z;
  initial_max_streams_uni : Z;
  is_client : bool;
  local_goaway_sent : bool;
  max_connection_pending_events : Z;
  max_pending_capsules : Z;
  max_pending_datagrams : Z;
  max_pending_streams : Z;
  max_session_pending_events : Z;
  max_sessions : Z;
  max_write_buffer_size : Z;
  peer_goaway_received : bool;
  peer_initial_max_data : Z;
  peer_initial_max_streams_bidi : Z;
  peer_initial_max_streams_uni : Z;
  peer_max_datagram_frame_size : option Z;
  peer_settings_received : bool;
  pending_session_requests : gmap StreamId RequestId;
  request_id : option RequestId;
  session_receive_window : Z;
  session_requests : gmap RequestId SessionRequest.t;
  sessions : gmap SessionId Session.t;
  state : ConnectionState.t;
  stream_map : gmap StreamId SessionId;
}.

#[export] Instance eta_connection : Eta t := fun c =>
  mk (blocked_session_requests c) (close_code c) (close_reason c) (closed_at c)
     (connected_at c) (early_event_buffer c) (early_event_count c) (early_event_ttl c)
     (handle c) (handshake_completed c) (initial_max_data c) (initial_max_streams_bidi c)
     (initial_max_streams_uni c) (is_client c) (local_goaway_sent c)
     (max_connection_pending_events c) (max_pending_capsules c) (max_pending_datagrams c)
     (max_pending_streams c) (max_session_pending_events c) (max_sessions c)
     (max_write_buffer_size c) (peer_goaway_received c) (peer_initial_max_data c)
     (peer_initial_max_streams_bidi c) (peer_initial_max_streams_uni c)
     (peer_max_datagram_frame_size c) (peer_settings_received c)
     (pending_session_requests c) (request_id c) (session_receive_window c)
     (session_requests c) (sessions c) (state c) (stream_map c).
#[export] Instance set_blocked_session_requests : Setter blocked_session_requests := ltac:(build_setter).
#[export] Instance set_close_code : Setter close_code := ltac:(build_setter).
#[export] Instance set_close_reason : Setter close_reason := ltac:(build_setter).
#[export] Instance set_closed_at : Setter closed_at := ltac:(build_setter).
#[export] Instance set_connected_at : Setter connected_at := ltac:(build_setter).
#[export] Instance set_early_event_buffer : Setter early_event_buffer := ltac:(build_setter).
#[export] Instance set_early_event_count : Setter early_event_count := ltac:(build_setter).
#[export] Instance set_handshake_completed : Setter handshake_completed := ltac:(build_setter).
#[export] Instance set_local_goaway_sent : Setter local_goaway_sent := ltac:(build_setter).
#[export] Instance set_peer_goaway_received : Setter peer_goaway_received := ltac:(build_setter).
#[export] Instance set_peer_initial_max_data : Setter peer_initial_max_data := ltac:(build_setter).
#[export] Instance set_peer_initial_max_streams_bidi : Setter peer_initial_max_streams_bidi := ltac:(build_setter).
#[export] Instance set_peer_initial_max_streams_uni : Setter peer_initial_max_streams_uni := ltac:(build_setter).
#[export] Instance set_peer_max_datagram_frame_size : Setter peer_max_datagram_frame_size := ltac:(build_setter).
#[export] Instance set_peer_settings_received : Setter peer_settings_received := ltac:(build_setter).
#[export] Instance set_pending_session_requests : Setter pending_session_requests := ltac:(build_setter).
#[export] Instance set_request_id : Setter request_id := ltac:(build_setter).
#[export] Instance set_session_requests : Setter session_requests := ltac:(build_setter).
#[export] Instance set_sessions : Setter sessions := ltac:(build_setter).
#[export] Instance set_state : Setter state := ltac:(build_setter).
#[export] Instance set_stream_map : Setter stream_map := ltac:(build_setter).

Definition new (handle : ConnectionHandle) (request_id : option RequestId) (is_client : bool)
    (parameters : ConnectionParameters.t) : t := {|
  blocked_session_requests := [];
  close_code := None;
  close_reason := None;
  closed_at := None;
  connected_at := None;
  early_event_buffer := ∅;
  early_event_count := 0;
  early_event_ttl := ConnectionParameters.early_event_ttl parameters;
  handle := handle;
  handshake_completed := false;
  initial_max_data := ConnectionParameters.initial_max_data parameters;
  initial_max_streams_bidi := ConnectionParameters.initial_max_streams_bidi parameters;
  initial_max_streams_uni := ConnectionParameters.initial_max_streams_uni parameters;
  is_client := is_client;
  local_goaway_sent := false;
  max_connection_pending_events := ConnectionParameters.max_connection_pending_events parameters;
  max_pending_capsules := ConnectionParameters.max_pending_capsules parameters;
  max_pending_datagrams := ConnectionParameters.max_pending_datagrams parameters;
  max_pending_streams := ConnectionParameters.max_pending_streams parameters;
  max_session_pending_events := ConnectionParameters.max_session_pending_events parameters;
  max_sessions := ConnectionParameters.max_sessions parameters;
  max_write_buffer_size := ConnectionParameters.max_write_buffer_size parameters;
  peer_goaway_received := false;
  peer_initial_max_data := 0;
  peer_initial_max_streams_bidi := 0;
  peer_initial_max_streams_uni := 0;
  peer_max_datagram_frame_size := None;
  peer_settings_received := false;
  pending_session_requests := ∅;
  request_id := request_id;
  session_receive_window := ConnectionParameters.session_receive_window parameters;
  session_requests := ∅;
  sessions := ∅;
  state := ConnectionState.Idle;
  stream_map := ∅;
|}.

(** ** Queries *)

Definition has_stream (c : t) (stream_id : StreamId) : bool :=
  bool_decide (is_Some (stream_map c !! stream_id)).

Definition is_connected (c : t) : bool := bool_decide (state c = ConnectionState.Connected).

Definition is_pre_connected (c : t) : bool :=
  match state c with
  | ConnectionState.Connecting | ConnectionState.Idle => true
  | _ => false
  end.

Definition is_session_closed (c : t) (session_id : SessionId) : bool :=
  match sessions c !! session_id with
  | Some session => Session.is_closed session
  | None => false
  end.

Definition is_session_stream (c : t) (stream_id : StreamId) : bool :=
  bool_decide (is_Some (sessions c !! stream_id)).

Definition has_flow_control (c : t) : bool :=
  let local_intent := (0 <? initial_max_data c) || (0 <? initial_max_streams_bidi c)
                      || (0 <? initial_max_streams_uni c) in
  let peer_intent := (0 <? peer_initial_max_data c) || (0 <? peer_initial_max_streams_bidi c)
                     || (0 <? peer_initial_max_streams_uni c) in
  local_intent && peer_intent.

Definition diagnostics_snapshot (c : t) : ConnectionDiagnostics.t := {|
  ConnectionDiagnostics.close_code := close_code c;
  ConnectionDiagnostics.close_reason := close_reason c;
  ConnectionDiagnostics.closed_at := closed_at c;
  ConnectionDiagnostics.connected_at := connected_at c;
  ConnectionDiagnostics.connection_handle := handle c;
  ConnectionDiagnostics.handshake_completed := handshake_completed c;
  ConnectionDiagnostics.is_client := is_client c;
  ConnectionDiagnostics.local_goaway_sent := local_goaway_sent c;
  ConnectionDiagnostics.peer_goaway_received := peer_goaway_received c;
  ConnectionDiagnostics.peer_initial_max_data := peer_initial_max_data c;
  ConnectionDiagnostics.peer_initial_max_streams_bidi := peer_initial_max_streams_bidi c;
  ConnectionDiagnostics.peer_initial_max_streams_uni := peer_initial_max_streams_uni c;
  ConnectionDiagnostics.peer_max_datagram_frame_size := peer_max_datagram_frame_size c;
  ConnectionDiagnostics.peer_settings_received := peer_settings_received c;
  ConnectionDiagnostics.state := state c;
|}.

Definition diagnose (c : t) (request_id : RequestId) : list Effect.t :=
  [Effect.NotifyRequestDone request_id
     (RequestResult.ConnectionDiagnostics (diagnostics_snapshot c))].

(** ** Routing *)

Definition request_done (request_id : RequestId) : Effect.t :=
  Effect.NotifyRequestDone request_id RequestResult.None.

(** The answers when the session or the stream of a request is unknown. *)
Definition session_unknown (request_id : RequestId) : list Effect.t :=
  [Effect.NotifyRequestFailed request_id ErrorSource.Session (Some ERR_LIB_SESSION_STATE_ERROR)
     (b: "wt_session resolve failed")].

Definition stream_unknown (request_id : RequestId) : list Effect.t :=
  [Effect.NotifyRequestFailed request_id ErrorSource.Stream (Some ERR_LIB_STREAM_STATE_ERROR)
     (b: "wt_stream resolve failed")].

(** [if let Some(session) = self.sessions.get_mut(&session_id) { .. }] with the
    effects of the fall-through. *)
Definition with_session (c : t) (session_id : SessionId)
    (operation : Session.t -> Session.t * list Effect.t) (otherwise : list Effect.t)
    : t * list Effect.t :=
  match sessions c !! session_id with
  | Some session =>
      let '(session, effects) := operation session in
      (c <| sessions := <[session_id := session]> (sessions c) |>, effects)
  | None => (c, otherwise)
  end.

(** The session that owns a stream, through the stream map. *)
Definition session_of_stream (c : t) (stream_id : StreamId) : option (SessionId * Session.t) :=
  session_id ← stream_map c !! stream_id;
  session ← sessions c !! session_id;
  Some (session_id, session).

(** The routing shared by the stream operations: run [operation] on the session
    that owns the stream and forget the stream if it is gone afterwards. *)
Definition with_stream (c : t) (stream_id : StreamId)
    (operation : Session.t -> Session.t * list Effect.t)
    (otherwise : t * list Effect.t) : t * list Effect.t :=
  match session_of_stream c stream_id with
  | Some (session_id, session) =>
      let '(session, effects) := operation session in
      let c := c <| sessions := <[session_id := session]> (sessions c) |> in
      let c := if Session.has_stream session stream_id then c
               else c <| stream_map := delete stream_id (stream_map c) |> in
      (c, effects)
  | None => otherwise
  end.

(** The loops over all sessions, in increasing order of their identifiers. *)
Fixpoint each_session (c : t) (operation : Session.t -> Session.t * list Effect.t)
    (session_ids : list SessionId) : t * list Effect.t :=
  match session_ids with
  | [] => (c, [])
  | session_id :: rest =>
      let '(c, effects) := with_session c session_id operation [] in
      let '(c, rest_effects) := each_session c operation rest in
      (c, effects ++ rest_effects)
  end.

Definition session_ids (c : t) : list SessionId := merge_sort Z.le (map_to_list (sessions c)).*1.

Definition all_sessions (c : t) (operation : Session.t -> Session.t * list Effect.t)
    : t * list Effect.t :=
  each_session c operation (session_ids c).

(** ** Session and stream operations of the user and the transport *)

Definition accept_session (c : t) (session_id : SessionId) (request_id : RequestId)
    (headers : Headers) (wt_protocol : option str) (now : f64) : t * list Effect.t :=
  with_session c session_id
    (fun session => Session.accept session request_id headers wt_protocol now)
    (session_unknown request_id).

Definition reject_session (c : t) (session_id : SessionId) (request_id : RequestId)
    (headers : Headers) (status_code : Z) (now : f64) : t * list Effect.t :=
  with_session c session_id
    (fun session => Session.reject session request_id headers status_code now)
    (session_unknown request_id).

Definition close_session (c : t) (session_id : SessionId) (request_id : RequestId)
    (error_code : ErrorCode) (reason : option str) (now : f64) : t * list Effect.t :=
  with_session c session_id
    (fun session => Session.close session request_id error_code reason now)
    [request_done request_id].

Definition create_stream (c : t) (session_id : SessionId) (request_id : RequestId)
    (is_unidirectional : bool) : t * list Effect.t :=
  with_session c session_id
    (fun session => Session.create_stream session request_id is_unidirectional)
    (session_unknown request_id).

Definition defer_stream (c : t) (session_id : SessionId) (request_id : RequestId)
    (is_unidirectional : bool) : t * list Effect.t :=
  with_session c session_id
    (fun session => Session.defer_stream session request_id is_unidirectional)
    (session_unknown request_id).

Definition read_datagram (c : t) (session_id : SessionId) (request_id : RequestId)
    : t * list Effect.t :=
  with_session c session_id (fun session => Session.read_datagram session request_id)
    (session_unknown request_id).

Definition send_datagram (c : t) (session_id : SessionId) (request_id : RequestId)
    (data : bytes) : t * list Effect.t :=
  with_session c session_id
    (fun session => (session, Session.send_datagram session request_id data
                                (default 0 (peer_max_datagram_frame_size c))))
    (session_unknown request_id).

Definition export_keying_material (c : t) (session_id : SessionId) (request_id : RequestId)
    (label : str) (context : bytes) (length : Z) : list Effect.t :=
  match sessions c !! session_id with
  | Some session => Session.export_keying_material session request_id label context length
  | None => session_unknown request_id
  end.

Definition diagnose_session (c : t) (session_id : SessionId) (request_id : RequestId)
    : list Effect.t :=
  match sessions c !! session_id with
  | Some session => Session.diagnose session request_id
  | None => session_unknown request_id
  end.

Definition diagnose_stream (c : t) (stream_id : StreamId) (request_id : RequestId)
    : list Effect.t :=
  match session_of_stream c stream_id with
  | Some (_, session) => Session.diagnose_stream session stream_id request_id
  | None => stream_unknown request_id
  end.

Definition recv_capsule (c : t) (session_id : SessionId) (capsule_type : Z)
    (capsule_value : bytes) (now : f64) : t * list Effect.t :=
  with_session c session_id
    (fun session => Session.recv_capsule session capsule_type capsule_value now) [].

Definition recv_connect_close (c : t) (session_id : SessionId) (now : f64)
    : t * list Effect.t :=
  with_session c session_id
    (fun session => Session.recv_connect_close session ERR_APP_NO_ERROR [] now) [].

Definition bind_stream (c : t) (session_id : SessionId) (stream_id : StreamId)
    (request_id : RequestId) (is_unidirectional : bool) (now : f64) : t * list Effect.t :=
  match sessions c !! session_id with
  | Some session =>
      let '(session, effects) :=
        Session.bind_stream session stream_id request_id is_unidirectional now in
      let c := c <| sessions := <[session_id := session]> (sessions c) |> in
      let c := if Session.has_stream session stream_id
               then c <| stream_map := <[stream_id := session_id]> (stream_map c) |> else c in
      (c, effects)
  | None => (c, session_unknown request_id)
  end.

Definition complete_stream_write (c : t) (stream_id : StreamId) : t * list Effect.t :=
  with_stream c stream_id
    (fun session => Session.complete_stream_write session stream_id) (c, []).

Definition handle_stream_data_acknowledged (c : t) (stream_id : StreamId)
    : t * list Effect.t :=
  with_stream c stream_id
    (fun session => Session.handle_stream_data_acknowledged session stream_id) (c, []).

Definition read_stream (c : t) (stream_id : StreamId) (request_id : RequestId) (max_size : Z)
    : t * list Effect.t :=
  with_stream c stream_id
    (fun session => Session.read_stream session stream_id request_id max_size)
    (c, stream_unknown request_id).

Definition write_stream (c : t) (stream_id : StreamId) (request_id : RequestId)
    (data : bytes) (end_stream : bool) : t * list Effect.t :=
  with_stream c stream_id
    (fun session => Session.write_stream session stream_id request_id data end_stream)
    (if bool_decide (data = []) && end_stream then (c, [request_done request_id])
     else (c, stream_unknown request_id)).

Definition reset_stream (c : t) (stream_id : StreamId) (request_id : RequestId)
    (error_code : ErrorCode) : t * list Effect.t :=
  with_stream c stream_id
    (fun session => Session.reset_stream session stream_id request_id error_code)
    (c, [request_done request_id]).

Definition stop_stream (c : t) (stream_id : StreamId) (request_id : RequestId)
    (error_code : ErrorCode) : t * list Effect.t :=
  with_stream c stream_id
    (fun session => Session.stop_stream session stream_id request_id error_code)
    (c, [request_done request_id]).

Definition recv_stream_data (c : t) (stream_id : StreamId) (data : bytes) (fin : bool)
    (now : f64) : t * list Effect.t :=
  with_stream c stream_id
    (fun session => Session.recv_stream_data session stream_id data fin now) (c, []).

(** A reset or a stop concerns a stream of a session or its CONNECT stream. *)
Definition recv_stream_reset (c : t) (stream_id : StreamId) (error_code : ErrorCode)
    (now : f64) : t * list Effect.t :=
  with_stream c stream_id
    (fun session => Session.recv_stream_reset session stream_id error_code)
    (with_session c stream_id
       (fun session => Session.abort session error_code (b: "wt_session abort") now) []).

Definition recv_stop_sending (c : t) (stream_id : StreamId) (error_code : ErrorCode)
    (now : f64) : t * list Effect.t :=
  with_stream c stream_id
    (fun session => Session.recv_stop_sending session stream_id error_code)
    (with_session c stream_id
       (fun session => Session.abort session error_code (b: "wt_session abort") now) []).

(** ** Events for sessions that do not exist yet *)

(** Returns whether the event was stored.  The entry is created before the
    per-session limit is checked. *)
Definition buffer_early_event (c : t) (session_id : SessionId) (event : ProtocolEvent.t)
    (now : f64) : t * bool :=
  if max_connection_pending_events c <=? early_event_count c then (c, false)
  else
    let session_buffer := default [] (early_event_buffer c !! session_id) in
    if max_session_pending_events c <=? len session_buffer then
      (c <| early_event_buffer := <[session_id := session_buffer]> (early_event_buffer c) |>,
       false)
    else
      (c <| early_event_buffer :=
              <[session_id := session_buffer ++ [(now, event)]]> (early_event_buffer c) |>
         <| early_event_count := u64_add (early_event_count c) 1 |>, true).

(** Refuse a stream whose session never came. *)
Definition reject_stream (stream_id : StreamId) : list Effect.t :=
  if utils.is_unidirectional_stream stream_id
  then [Effect.StopQuicStream stream_id ERR_WT_BUFFERED_STREAM_REJECTED]
  else [Effect.ResetQuicStream stream_id ERR_WT_BUFFERED_STREAM_REJECTED;
        Effect.StopQuicStream stream_id ERR_WT_BUFFERED_STREAM_REJECTED].

Definition handle_stream_opened (c : t) (session_id : SessionId) (stream_id : StreamId)
    (now : f64) : t * list Effect.t :=
  match sessions c !! session_id with
  | Some session =>
      let '(session, effects) := Session.handle_stream_opened session stream_id now in
      let c := c <| sessions := <[session_id := session]> (sessions c) |> in
      let c := if Session.has_stream session stream_id
               then c <| stream_map := <[stream_id := session_id]> (stream_map c) |> else c in
      (c, effects)
  | None =>
      let event := ProtocolEvent.H3WebTransportStreamOpened session_id stream_id in
      let '(c, stored) := buffer_early_event c session_id event now in
      if negb stored then (c, reject_stream stream_id) else (c, [])
  end.

Definition recv_datagram (c : t) (session_id : SessionId) (data : bytes) (now : f64)
    : t * list Effect.t :=
  match sessions c !! session_id with
  | Some session =>
      let '(session, effects) := Session.recv_datagram session data in
      (c <| sessions := <[session_id := session]> (sessions c) |>, effects)
  | None =>
      let event := ProtocolEvent.H3DatagramReceived session_id data in
      ((buffer_early_event c session_id event now).1, [])
  end.

(** One event of the loop of [replay_early_events]. *)
Definition replay_event (c : t) (is_session_present : bool) (event : ProtocolEvent.t)
    (now : f64) : t * list Effect.t :=
  match event with
  | ProtocolEvent.H3DatagramReceived session_id data =>
      if is_session_present then recv_datagram c session_id data now else (c, [])
  | ProtocolEvent.H3WebTransportStreamOpened session_id stream_id =>
      if is_session_present then handle_stream_opened c session_id stream_id now
      else (c, reject_stream stream_id)
  | _ => (c, [])
  end.

Fixpoint replay_events (c : t) (is_session_present : bool)
    (events : list (f64 * ProtocolEvent.t)) (now : f64) : t * list Effect.t :=
  match events with
  | [] => (c, [])
  | (_, event) :: rest =>
      let '(c, effects) := replay_event c is_session_present event now in
      let '(c, rest_effects) := replay_events c is_session_present rest now in
      (c, effects ++ rest_effects)
  end.

Definition replay_early_events (c : t) (session_id : SessionId) (now : f64)
    : t * list Effect.t :=
  match early_event_buffer c !! session_id with
  | None => (c, [])
  | Some events =>
      let c := c <| early_event_buffer := delete session_id (early_event_buffer c) |>
                 <| early_event_count := u64_sub (early_event_count c) (len events) |> in
      replay_events c (is_session_stream c session_id) events now
  end.

(** Whether a buffered event is still within its time to live. *)
Definition is_valid_event (c : t) (now : f64) (entry : f64 * ProtocolEvent.t) : bool :=
  f64_ltb (f64_sub now entry.1) (early_event_ttl c).

(** What an expired event leaves behind. *)
Definition expired_effects (entry : f64 * ProtocolEvent.t) : list Effect.t :=
  match entry.2 with
  | ProtocolEvent.H3WebTransportStreamOpened _ stream_id => reject_stream stream_id
  | _ => []
  end.

Definition prune_session_events (c : t) (session_id : SessionId) (now : f64)
    : t * list Effect.t :=
  match early_event_buffer c !! session_id with
  | None => (c, [])
  | Some events =>
      let valid_events := filter (fun entry => is_valid_event c now entry = true) events in
      let expired := filter (fun entry => is_valid_event c now entry = false) events in
      let c := c <| early_event_count := u64_sub (early_event_count c) (len expired) |> in
      (c <| early_event_buffer :=
              if bool_decide (valid_events = []) then delete session_id (early_event_buffer c)
              else <[session_id := valid_events]> (early_event_buffer c) |>,
       expired ≫= expired_effects)
  end.

Fixpoint prune_each (c : t) (session_ids : list SessionId) (now : f64) : t * list Effect.t :=
  match session_ids with
  | [] => (c, [])
  | session_id :: rest =>
      let '(c, effects) := prune_session_events c session_id now in
      let '(c, rest_effects) := prune_each c rest now in
      (c, effects ++ rest_effects)
  end.

Definition prune_early_events (c : t) (now : f64) : t * list Effect.t :=
  prune_each c (merge_sort Z.le (map_to_list (early_event_buffer c)).*1) now.

Definition prune_resources (c : t) : t :=
  let is_destroyed := fun session_id => is_session_closed c session_id in
  c <| sessions := filter (fun '(_, session) => Session.is_closed session = false) (sessions c) |>
    <| stream_map := filter (fun '(_, session_id) => is_destroyed session_id = false)
                       (stream_map c) |>.

(** ** Creating sessions *)

(** The parameters every session of this connection is created with. *)
Definition session_parameters (c : t) : SessionParameters.t := {|
  SessionParameters.flow_control_negotiated := has_flow_control c;
  SessionParameters.initial_max_data := initial_max_data c;
  SessionParameters.initial_max_streams_bidi := initial_max_streams_bidi c;
  SessionParameters.initial_max_streams_uni := initial_max_streams_uni c;
  SessionParameters.max_pending_capsules := max_pending_capsules c;
  SessionParameters.max_pending_datagrams := max_pending_datagrams c;
  SessionParameters.max_pending_streams := max_pending_streams c;
  SessionParameters.max_write_buffer_size := max_write_buffer_size c;
  SessionParameters.peer_max_data := peer_initial_max_data c;
  SessionParameters.peer_max_streams_bidi := peer_initial_max_streams_bidi c;
  SessionParameters.peer_max_streams_uni := peer_initial_max_streams_uni c;
  SessionParameters.receive_window := session_receive_window c;
|}.

(** The session a client request turns into. *)
Definition session_of_request (c : t) (stream_id : StreamId) (request : SessionRequest.t)
    : Session.t :=
  Session.new stream_id (SessionRequest.path request) (SessionRequest.headers request)
    (SessionRequest.wt_available_protocols request) (is_client c) (session_parameters c)
    (SessionRequest.created_at request).

Definition connection_failed (request_id : RequestId) (error_code : option ErrorCode)
    (reason : str) : list Effect.t :=
  [Effect.NotifyRequestFailed request_id ErrorSource.Connection error_code reason].

Definition active_limit (c : t) : Z := if has_flow_control c then max_sessions c else 1.

(** The request with its protocols appended to the headers, or [None] when they
    cannot be encoded. *)
Definition with_protocols (request : SessionRequest.t) : option SessionRequest.t :=
  match SessionRequest.wt_available_protocols request with
  | None => Some request
  | Some protocols =>
      match utils.encode_wt_protocol_list protocols with
      | Ok encoded =>
          Some (request <| SessionRequest.headers :=
                  SessionRequest.headers request ++ [(WT_AVAILABLE_PROTOCOLS, encoded)] |>)
      | Err _ => None
      end
  end.

Definition connect_effect (request_id : RequestId) (request : SessionRequest.t) : Effect.t :=
  Effect.CreateH3ConnectStream request_id (SessionRequest.authority request)
    (SessionRequest.path request) (SessionRequest.headers request).

Definition create_session (c : t) (request_id : RequestId) (session_request : SessionRequest.t)
    : t * list Effect.t :=
  if negb (is_client c) then
    (c, connection_failed request_id None (b: "wt_connection validate failed"))
  else if negb (is_connected c) then
    (c, connection_failed request_id (Some ERR_LIB_CONNECTION_STATE_ERROR)
          (b: "wt_connection validate failed"))
  else if peer_goaway_received c then
    (c, connection_failed request_id (Some ERR_LIB_CONNECTION_STATE_ERROR)
          (b: "wt_connection validate failed"))
  else
    let current_total := Z.of_nat (size (sessions c) + size (session_requests c)) in
    if (0 <? active_limit c) && (active_limit c <=? current_total) then
      (c, connection_failed request_id (Some ERR_LIB_CONNECTION_STATE_ERROR)
            (b: "wt_session validate exceeded"))
    else if negb (utils.is_valid_user_headers (SessionRequest.headers session_request) true) then
      (c, connection_failed request_id None (b: "h3_headers validate invalid"))
    else match with_protocols session_request with
    | None => (c, connection_failed request_id None (b: "wt_available_protocols encode failed"))
    | Some session_request =>
        (c <| session_requests := <[request_id := session_request]> (session_requests c) |>,
         [connect_effect request_id session_request])
    end.

Definition bind_session (c : t) (stream_id : StreamId) (request_id : RequestId)
    : t * list Effect.t :=
  let c := c <| pending_session_requests :=
                  <[stream_id := request_id]> (pending_session_requests c) |> in
  match session_requests c !! request_id with
  | Some session_request =>
      if SessionRequest.optimistic session_request then
        let c := c <| session_requests := delete request_id (session_requests c) |> in
        let session := session_of_request c stream_id session_request in
        (c <| sessions := <[stream_id := session]> (sessions c) |>,
         [Effect.EmitSessionEvent stream_id EventType.SessionPending
            (Some (SessionRequest.path session_request))
            (Some (SessionRequest.headers session_request))
            None None None None None None None None None None;
          Effect.NotifyRequestDone request_id (RequestResult.SessionId stream_id)])
      else (c, [])
  | None => (c, [])
  end.

Definition defer_session (c : t) (request_id : RequestId) : t * list Effect.t :=
  (c <| blocked_session_requests := blocked_session_requests c ++ [request_id] |>, []).

Definition fail_session (c : t) (request_id : RequestId) (error_code : option ErrorCode)
    (reason : str) : t * list Effect.t :=
  (c <| session_requests := delete request_id (session_requests c) |>,
   [Effect.NotifyRequestFailed request_id ErrorSource.Session error_code reason]).

(** The answer to a client request whose session cannot be established. *)
Definition refuse_response (request_id : RequestId) (stream_id : StreamId)
    (error_code : ErrorCode) (reason : str) : list Effect.t :=
  [Effect.NotifyRequestFailed request_id ErrorSource.Session (Some error_code) reason;
   Effect.StopQuicStream stream_id error_code; Effect.ResetQuicStream stream_id error_code].

(** Whether the subprotocol in the response is one the client offered. *)
Definition is_valid_protocol (offered : option (list str)) (wt_protocol : option str) : bool :=
  match offered with
  | None => true
  | Some protocols =>
      match wt_protocol with
      | Some protocol => bool_decide (protocol ∈ protocols)
      | None => false
      end
  end.

(** A response with status 200 and an acceptable protocol. *)
Definition establish_session (c : t) (stream_id : StreamId) (request_id : RequestId)
    (wt_protocol : option str) (now : f64) : t * list Effect.t :=
  match sessions c !! stream_id with
  | Some session =>
      let '(session, effects) := Session.confirm session wt_protocol now in
      (c <| sessions := <[stream_id := session]> (sessions c) |>, effects)
  | None =>
      match session_requests c !! request_id with
      | Some session_request =>
          let c := c <| session_requests := delete request_id (session_requests c) |> in
          let session := session_of_request c stream_id session_request in
          let '(session, effects) := Session.confirm session wt_protocol now in
          (c <| sessions := <[stream_id := session]> (sessions c) |>,
           effects ++ [Effect.NotifyRequestDone request_id (RequestResult.SessionId stream_id)])
      | None => (c, [])
      end
  end.

(** A response the client does not accept; [sessions] holds the stream only when
    the session was created optimistically. *)
Definition abandon_session (c : t) (stream_id : StreamId) (request_id : RequestId)
    (error_code : ErrorCode) (reason : str) (now : f64) : t * list Effect.t :=
  with_session c stream_id (fun session => Session.abort session error_code reason now)
    (refuse_response request_id stream_id error_code reason).

(** The protocols the client offered for the session of a response, or [None] when
    the request is unknown. *)
Definition offered_protocols (c : t) (stream_id : StreamId) (request_id : RequestId)
    : option (option (list str)) :=
  match sessions c !! stream_id with
  | Some session => Some (Session.wt_available_protocols session)
  | None => SessionRequest.wt_available_protocols <$> session_requests c !! request_id
  end.

(** The client half of [recv_headers]. *)
Definition recv_response (c : t) (stream_id : StreamId) (headers : Headers) (now : f64)
    : t * list Effect.t :=
  match pending_session_requests c !! stream_id with
  | None => (c, [])
  | Some request_id =>
      let c := c <| pending_session_requests := delete stream_id (pending_session_requests c) |> in
      match offered_protocols c stream_id request_id with
      | None =>
          (c, [Effect.NotifyRequestFailed request_id ErrorSource.Unspecified
                 (Some ERR_LIB_INTERNAL_ERROR) (b: "wt_session resolve failed")])
      | Some offered =>
          if bool_decide (utils.find_header headers (b: ":status") = Some (b: "200")) then
            let wt_protocol :=
              value ← utils.combine_header headers WT_PROTOCOL;
              utils.parse_wt_protocol_string value in
            if is_valid_protocol offered wt_protocol then
              let '(c, effects) := establish_session c stream_id request_id wt_protocol now in
              let '(c, replayed) := replay_early_events c stream_id now in
              (c, effects ++ replayed)
            else
              let c := if is_session_stream c stream_id then c
                       else c <| session_requests := delete request_id (session_requests c) |> in
              abandon_session c stream_id request_id ERR_WT_ALPN_ERROR
                (b: "wt_protocol validate invalid") now
          else
            let c := c <| session_requests := delete request_id (session_requests c) |> in
            let '(c, effects) := abandon_session c stream_id request_id ERR_H3_REQUEST_REJECTED
                                   (b: "wt_session abort") now in
            let '(c, replayed) := replay_early_events c stream_id now in
            (c, effects ++ replayed)
      end
  end.

(** A request the server turns away. *)
Definition refuse_request (stream_id : StreamId) (status : bytes) : list Effect.t :=
  [Effect.SendH3Headers stream_id [(b: ":status", status)] true;
   Effect.StopQuicStream stream_id ERR_H3_REQUEST_REJECTED].

Definition is_webtransport_request (headers : Headers) : bool :=
  bool_decide (utils.find_header headers (b: ":method") = Some (b: "CONNECT"))
  && bool_decide (utils.find_header headers (b: ":protocol") = Some WT_UPGRADE_TOKEN).

Definition request_path (headers : Headers) : str :=
  match utils.find_header headers (b: ":path") with
  | Some path => if utf8_valid path then path else b: "/"
  | None => b: "/"
  end.

(** The server half of [recv_headers]. *)
Definition recv_request (c : t) (stream_id : StreamId) (headers : Headers) (now : f64)
    : t * list Effect.t :=
  if is_session_stream c stream_id then (c, [])
  else if negb (is_connected c) then (c, refuse_request stream_id (b: "429"))
  else if local_goaway_sent c then (c, refuse_request stream_id (b: "429"))
  else if (0 <? active_limit c) && (active_limit c <=? Z.of_nat (size (sessions c))) then
    (c, refuse_request stream_id (b: "429"))
  else if negb (is_webtransport_request headers) then (c, refuse_request stream_id (b: "400"))
  else
    let path := request_path headers in
    let wt_available_protocols :=
      value ← utils.combine_header headers WT_AVAILABLE_PROTOCOLS;
      utils.parse_wt_protocol_list value in
    let session := Session.new stream_id path headers wt_available_protocols (is_client c)
                     (session_parameters c) now in
    let c := c <| sessions := <[stream_id := session]> (sessions c) |> in
    let '(c, replayed) := replay_early_events c stream_id now in
    (c, Effect.EmitSessionEvent stream_id EventType.SessionRequestReceived
          (Some path) (Some headers) wt_available_protocols None None None None None None None
          None None :: replayed).

Definition recv_headers (c : t) (stream_id : StreamId) (headers : Headers) (now : f64)
    : t * list Effect.t :=
  if is_client c then recv_response c stream_id headers now
  else recv_request c stream_id headers now.

(** ** The connection itself *)

Definition open (c : t) (now : f64) : t * list Effect.t :=
  let c := c <| connected_at := Some now |> <| state := ConnectionState.Connected |> in
  let established :=
    Effect.EmitConnectionEvent (handle c) EventType.ConnectionEstablished None None in
  match request_id c with
  | Some request =>
      (c <| request_id := None |>,
       [established;
        Effect.NotifyRequestDone request (RequestResult.ConnectionHandle (handle c))])
  | None => (c, [established])
  end.

Definition handle_handshake_completed (c : t) (now : f64) : t * list Effect.t :=
  let c := if bool_decide (state c = ConnectionState.Idle)
           then c <| state := ConnectionState.Connecting |> else c in
  if negb (bool_decide (state c = ConnectionState.Connecting)) then (c, [])
  else
    let c := c <| handshake_completed := true |> in
    if negb (is_client c) || peer_settings_received c then
      let '(c, effects) := open c now in (c, Effect.CreateH3LocalStreams :: effects)
    else (c, [Effect.CreateH3LocalStreams]).

Definition recv_settings (c : t) (settings : H3Settings.t) (now : f64) : t * list Effect.t :=
  let c := c <| peer_settings_received := true |>
             <| peer_initial_max_data :=
                  default (peer_initial_max_data c) (H3Settings.wt_initial_max_data settings) |>
             <| peer_initial_max_streams_bidi :=
                  default (peer_initial_max_streams_bidi c)
                    (H3Settings.wt_initial_max_streams_bidi settings) |>
             <| peer_initial_max_streams_uni :=
                  default (peer_initial_max_streams_uni c)
                    (H3Settings.wt_initial_max_streams_uni settings) |> in
  if bool_decide (state c = ConnectionState.Connecting) && handshake_completed c
  then open c now else (c, []).

Definition recv_transport_parameters (c : t) (size : Z) : t * list Effect.t :=
  (c <| peer_max_datagram_frame_size := Some size |>, []).

(** The loop of [recv_max_streams]: deferred session requests are tried again. *)
Definition retry_session (c : t) (request_id : RequestId) : option Effect.t :=
  connect_effect request_id <$> session_requests c !! request_id.

Definition recv_max_streams (c : t) (is_unidirectional : bool) : t * list Effect.t :=
  let '(c, effects) :=
    if negb is_unidirectional then
      (c <| blocked_session_requests := [] |>,
       omap (retry_session c) (blocked_session_requests c))
    else (c, []) in
  let '(c, session_effects) :=
    all_sessions c
      (fun session => Session.flush_blocked_stream_requests session is_unidirectional) in
  (c, effects ++ session_effects).

Definition recv_goaway (c : t) : t * list Effect.t :=
  let blocked := blocked_session_requests c in
  let effects :=
    blocked ≫= (fun request_id =>
      connection_failed request_id (Some ERR_LIB_CONNECTION_STATE_ERROR)
        (b: "wt_connection validate failed")) in
  let c := c <| peer_goaway_received := true |>
             <| session_requests :=
                  foldr (fun request_id requests => delete request_id requests)
                    (session_requests c) blocked |>
             <| blocked_session_requests := [] |> in
  let '(c, session_effects) := all_sessions c Session.drain in
  (c, effects ++ session_effects).

Definition close (c : t) (request_id : option RequestId) (error_code : ErrorCode)
    (reason : option str) (now : f64) : t * list Effect.t :=
  let done := request_done <$> option_list request_id in
  match state c with
  | ConnectionState.Closed | ConnectionState.Closing => (c, done)
  | _ =>
      (c <| close_code := Some error_code |> <| close_reason := reason |>
         <| closed_at := Some now |> <| state := ConnectionState.Closing |>,
       Effect.CloseQuicConnection error_code reason :: done)
  end.

(** The identifier a server announces in GOAWAY: the first stream it refuses. *)
Definition goaway_identifier (c : t) : Z :=
  if is_client c then 0
  else
    Z.min (match last (session_ids c) with
           | Some session_id => saturating_add session_id QUIC_STREAM_TYPE_COUNT
           | None => 0
           end) QUIC_VARINT_LIMIT.

Definition close_gracefully (c : t) (request_id : RequestId) : t * list Effect.t :=
  if negb (is_connected c) then (c, [request_done request_id])
  else
    let '(c, effects) :=
      if negb (local_goaway_sent c)
      then (c <| local_goaway_sent := true |>, [Effect.SendH3Goaway (goaway_identifier c)])
      else (c, []) in
    let '(c, session_effects) := all_sessions c Session.drain in
    (c, effects ++ session_effects ++ [request_done request_id]).

Definition handle_terminated (c : t) (error_code : ErrorCode) (reason : str) (now : f64)
    : t * list Effect.t :=
  if bool_decide (state c = ConnectionState.Closed) then (c, [])
  else
    let previous_state := state c in
    let c := if bool_decide (previous_state = ConnectionState.Closing) then c
             else c <| close_code := Some error_code |> <| close_reason := Some reason |>
                    <| closed_at := Some now |> in
    let c := c <| state := ConnectionState.Closed |> in
    let failure_reason := if bool_decide (previous_state = ConnectionState.Closing)
                          then b: "wt_connection close" else b: "wt_connection abort" in
    let request_ids :=
      merge_sort Z.le ((map_to_list (session_requests c)).*1 ++ option_list (request_id c)) in
    let c := c <| session_requests := ∅ |> <| request_id := None |>
               <| blocked_session_requests := [] |> <| pending_session_requests := ∅ |> in
    let '(c, effects) :=
      all_sessions c (fun session => Session.recv_connect_close session error_code reason now) in
    (c, effects
        ++ [Effect.EmitConnectionEvent (handle c) EventType.ConnectionClosed
              (Some error_code) (Some reason)]
        ++ (request_ids ≫= fun request_id =>
              connection_failed request_id (Some ERR_LIB_CONNECTION_STATE_ERROR) failure_reason)).

End Connection.
