(* ===== verification/ConnectionProps.v ===== *)
(** * Properties of the connection state machine

    How the sessions of a connection relate to the session state machine: every
    one of them is in a state its own events lead to, whatever the connection
    routed to the others.  The ledger of the requests follows. *)

From S2P Require Import Prelude.
From S2P Require Import Types.
From S2P Require Import Events.
From S2P Require Import Utils.
From S2P Require Import StreamMachine.
From S2P Require Import SessionMachine.
From S2P Require Import SessionProps.
From S2P Require Import SessionRuns.
From S2P Require Import SessionTheorems.
From S2P Require Import SessionStreams.
From S2P Require Import ConnectionMachine.

Module ConnP.
Import Connection.

(** ** Collecting over a map *)

Definition collect {A B} (f : A -> list B) (m : gmap Z A) : list B :=
  concat (f <$> (map_to_list m).*2).

Section collect.
Context {A B : Type} (f : A -> list B).
Implicit Types (m : gmap Z A).

Lemma collect_insert m i x :
  m !! i = None -> collect f (<[i := x]> m) ≡ₚ f x ++ collect f m.
Proof.
  intros Hi. unfold collect.
  apply (SessionP.concat_permutation _ (f x :: (f <$> (map_to_list m).*2))).
  by rewrite (map_to_list_insert m i x Hi).
Qed.

Lemma collect_delete m i x :
  m !! i = Some x -> collect f m ≡ₚ f x ++ collect f (delete i m).
Proof.
  intros Hi. rewrite <- (insert_delete_id m i x Hi) at 1.
  apply collect_insert, lookup_delete_eq.
Qed.

Lemma collect_update m i x : collect f (<[i := x]> m) ≡ₚ f x ++ collect f (delete i m).
Proof. rewrite <- insert_delete_eq. apply collect_insert, lookup_delete_eq. Qed.

Lemma collect_replace m i x :
  collect f (<[i := x]> m) ++ from_option f [] (m !! i) ≡ₚ f x ++ collect f m.
Proof.
  rewrite collect_update. destruct (m !! i) as [old|] eqn:Hi; simpl.
  - rewrite (collect_delete _ _ _ Hi). solve_Permutation.
  - by rewrite delete_id, app_nil_r.
Qed.

Lemma elem_of_collect m y : y ∈ collect f m <-> exists i x, m !! i = Some x /\ y ∈ f x.
Proof.
  unfold collect. rewrite list_elem_of_In, in_concat. setoid_rewrite <- list_elem_of_In. split.
  - intros (l & (x & -> & Hl)%list_elem_of_fmap & Hy).
    apply list_elem_of_fmap in Hl as ([i x'] & -> & Hx). apply elem_of_map_to_list in Hx. eauto.
  - intros (i & x & Hx & Hy). exists (f x). split; [|done]. apply list_elem_of_fmap.
    exists x. split; [done|]. apply list_elem_of_fmap. exists (i, x). split; [done|].
    by apply elem_of_map_to_list.
Qed.
End collect.

(** ** A session inside a connection *)

(** [simulated s mine submitted]: the session machine reaches [s] with the pending
    stream creations [mine], on requests among [submitted]. *)
Definition simulated (s : Session.t) (mine : list (RequestId * bool))
    (submitted : list RequestId) : Prop :=
  exists p s0 cr sub eff, SessionT.fresh p s0 /\ SessionR.reachable s0 s cr sub eff
    /\ cr ≡ₚ mine /\ sub ⊆ submitted.

Lemma simulated_wf s mine submitted :
  simulated s mine submitted -> SessionP.wf s /\ SessionP.no_stall s.
Proof.
  intros (p & s0 & cr & sub & eff & Hf & Hr & _ & _).
  by destruct (SessionT.fresh_invariant _ _ _ _ _ _ Hf Hr).
Qed.

Lemma simulated_mono s mine mine' submitted submitted' :
  simulated s mine submitted -> mine ≡ₚ mine' -> submitted ⊆ submitted' ->
  simulated s mine' submitted'.
Proof.
  intros (p & s0 & cr & sub & eff & Hf & Hr & Hc & Hs) Hm Hsub.
  exists p, s0, cr, sub, eff. split_and!; [done|done|by rewrite Hc|by etrans].
Qed.

Lemma simulated_new i path headers protocols client p now submitted :
  SessionR.parameters_ok p ->
  simulated (Session.new i path headers protocols client p now) [] submitted.
Proof.
  intros Hp. eexists p, _, [], [], []. split; [|split; [apply SessionR.reachable_start|]].
  - split; [done|]. by repeat eexists.
  - split; [done|]. intros x Hx. by apply not_elem_of_nil in Hx.
Qed.

Lemma nodup_subset {A} (sub submitted extra : list A) :
  sub ⊆ submitted -> NoDup sub -> NoDup (submitted ++ extra) -> NoDup (sub ++ extra).
Proof.
  intros Hs Hd (_ & Hdisj & He)%NoDup_app. apply NoDup_app. split_and!; [done| |done].
  intros x Hx. apply Hdisj. by apply Hs.
Qed.

(** One event of a session, as the connection sees it. *)
Lemma simulated_step s mine mine' submitted o s' e :
  simulated s mine submitted -> SessionR.transport_ok s o ->
  mine ≡ₚ SessionR.returns o ++ mine' -> NoDup (submitted ++ SessionR.submits o) ->
  SessionR.step o s = (s', e) ->
  simulated s' (mine' ++ issued e) (submitted ++ SessionR.submits o)
  /\ SessionP.requests s ++ SessionR.submits o ++ (SessionR.returns o).*1
     ≡ₚ answered e ++ (issued e).*1 ++ SessionP.requests s'
  /\ SessionP.constants s' = SessionP.constants s
  /\ (SessionP.rank s <= SessionP.rank s')%nat.
Proof.
  intros (p & s0 & cr & sub & eff & Hf & Hr & Hc & Hs) Hok Hm Hnd Hstep.
  pose proof (SessionT.fresh_invariant _ _ _ _ _ _ Hf Hr) as Hinv.
  assert (Hrank : (SessionP.rank s <= SessionP.rank s')%nat).
  { eapply (SessionR.event_rank s0 s cr mine' sub); try done; [by rewrite Hc|].
    eapply nodup_subset; [done|by destruct Hinv|done]. }
  destruct Hinv as [_ _ Hd Hreq Hk _ _ _].
  assert (Hr' : SessionR.reachable s0 s' (mine' ++ issued e) (sub ++ SessionR.submits o) (eff ++ e)).
  { eapply SessionR.reachable_step; try done; [by rewrite Hc|by eapply nodup_subset]. }
  split.
  { exists p, s0, (mine' ++ issued e), (sub ++ SessionR.submits o), (eff ++ e).
    split_and!; [done|done|done|]. intros x. rewrite !elem_of_app. intros [?|?]; auto. }
  destruct (SessionT.fresh_invariant _ _ _ _ _ _ Hf Hr') as [_ _ _ Hreq' Hk' _ _ _].
  split; [|split; [congruence|done]].
  rewrite Hreq, answered_app, fmap_app, Hc, Hm, fmap_app in Hreq'.
  apply (Permutation_app_inv_l (answered eff ++ mine'.*1)).
  transitivity ((answered eff ++ SessionP.requests s ++ (SessionR.returns o).*1 ++ mine'.*1)
                ++ SessionR.submits o); [solve_Permutation|].
  rewrite Hreq'. solve_Permutation.
Qed.

(** ** Stream creations in flight *)

(** The stream creations asked of the transport, with the session they are for. *)
Definition creation : Type := SessionId * RequestId * bool.

Definition asked (effects : list Effect.t) : list creation :=
  omap (fun e => match e with
        | Effect.CreateQuicStream r i u => Some (i, r, u)
        | _ => None
        end) effects.

Definition tag (session_id : SessionId) (x : RequestId * bool) : creation :=
  (session_id, x.1, x.2).

Definition requester (x : creation) : RequestId := x.1.2.

(** The creations of one session. *)
Definition mine (session_id : SessionId) (l : list creation) : list (RequestId * bool) :=
  omap (fun x => if bool_decide (x.1.1 = session_id) then Some (x.1.2, x.2) else None) l.

Lemma asked_app e1 e2 : asked (e1 ++ e2) = asked e1 ++ asked e2.
Proof. apply omap_app. Qed.

Lemma asked_own session_id effects :
  Forall (SessionSt.speaks_for session_id) effects ->
  asked effects = tag session_id <$> issued effects.
Proof.
  unfold asked, issued. induction 1 as [|e effects He _ IH]; [done|].
  destruct e; cbn; rewrite ?IH; try done. simpl in He. by subst.
Qed.

Lemma requester_tag session_id l : requester <$> (tag session_id <$> l) = l.*1.
Proof. rewrite <- list_fmap_compose. done. Qed.

Lemma mine_app i l k : mine i (l ++ k) = mine i l ++ mine i k.
Proof. apply omap_app. Qed.

Lemma mine_tag i l : mine i (tag i <$> l) = l.
Proof.
  induction l as [|[r u] l IH]; [done|]. cbn. rewrite bool_decide_true by done.
  f_equal. exact IH.
Qed.

Lemma mine_tag_other i j l : i <> j -> mine i (tag j <$> l) = [].
Proof.
  intros Hne. induction l as [|[r u] l IH]; [done|]. cbn. rewrite bool_decide_false by done.
  exact IH.
Qed.

Lemma mine_perm i l k : l ≡ₚ k -> mine i l ≡ₚ mine i k.
Proof. intros H. by apply omap_Permutation. Qed.

Lemma mine_none i l : (forall x, x ∈ l -> x.1.1 <> i) -> mine i l = [].
Proof.
  induction l as [|x l IH]; intros H; [done|]. cbn.
  rewrite bool_decide_false by (apply H; by left). apply IH. intros y Hy. apply H. by right.
Qed.

(** ** Streams announced for sessions that do not exist yet *)

Definition opened_stream (event : ProtocolEvent.t) : option StreamId :=
  match event with
  | ProtocolEvent.H3WebTransportStreamOpened _ i => Some i
  | _ => None
  end.

Definition opened_streams (events : list (f64 * ProtocolEvent.t)) : list StreamId :=
  omap opened_stream events.*2.

Definition buffered (c : t) : list StreamId := collect opened_streams (early_event_buffer c).

(** ** Loops over the sessions *)

Lemma elem_of_tail (i k : Z) ids : i <> k -> bool_decide (i ∈ ids) = bool_decide (i ∈ k :: ids).
Proof. intros Hne. apply bool_decide_ext. rewrite elem_of_cons. naive_solver. Qed.

(** A loop changes the sessions it visits and nothing else. *)
Lemma each_session_spec f ids : forall c c' e,
  NoDup ids -> each_session c f ids = (c', e) ->
  (exists m, c' = c <| sessions := m |>)
  /\ forall i, sessions c' !! i
      = if bool_decide (i ∈ ids) then (fun s => (f s).1) <$> sessions c !! i else sessions c !! i.
Proof.
  induction ids as [|k ids IH]; intros c c' e Hnd; cbn [each_session].
  { intros [= <- <-]. split; [exists (sessions c); by destruct c|]. intros i.
    rewrite bool_decide_false; [done|apply not_elem_of_nil]. }
  apply NoDup_cons in Hnd as [Hk Hnd]. unfold with_session.
  destruct (sessions c !! k) as [s|] eqn:Hs.
  - destruct (f s) as [s' e1] eqn:Hf. destruct (each_session _ f ids) as [c2 e2] eqn:He.
    intros [= <- <-]. apply IH in He as [[m ->] He]; [|done]. split; [by exists m|].
    intros i. rewrite He. destruct (decide (i = k)) as [->|Hne].
    + rewrite bool_decide_false, bool_decide_true by (done || by left).
      simpl. by rewrite lookup_insert_eq, Hs; simpl; rewrite Hf.
    + simpl. rewrite lookup_insert_ne by done. by rewrite (elem_of_tail i k).
  - destruct (each_session c f ids) as [c2 e2] eqn:He. intros [= <- <-].
    apply IH in He as [Hm He]; [|done]. split; [done|]. intros i. rewrite He.
    destruct (decide (i = k)) as [->|Hne].
    + rewrite Hs. by repeat case_bool_decide.
    + by rewrite (elem_of_tail i k).
Qed.

Lemma session_ids_spec c i : i ∈ session_ids c <-> is_Some (sessions c !! i).
Proof.
  unfold session_ids. rewrite merge_sort_Permutation, list_elem_of_fmap. split.
  - intros ([j s] & -> & Hj). apply elem_of_map_to_list in Hj. by eexists.
  - intros [s Hs]. exists (i, s). split; [done|]. by apply elem_of_map_to_list.
Qed.

Lemma session_ids_distinct c : NoDup (session_ids c).
Proof. unfold session_ids. rewrite merge_sort_Permutation. apply NoDup_fst_map_to_list. Qed.

(** A loop over all sessions applies the operation to each. *)
Lemma all_sessions_spec f c c' e :
  all_sessions c f = (c', e) ->
  c' = c <| sessions := (fun s => (f s).1) <$> sessions c |>.
Proof.
  intros He. apply each_session_spec in He as [[m ->] He]; [|apply session_ids_distinct].
  replace m with ((fun s => (f s).1) <$> sessions c); [done|].
  apply map_eq. intros i. specialize (He i). simpl in He. rewrite He, lookup_fmap.
  case_bool_decide as Hi; [done|]. rewrite session_ids_spec in Hi.
  by destruct (sessions c !! i) eqn:E; [destruct Hi|].
Qed.

(** What a loop emits depends on the sessions alone. *)
Lemma each_session_effects f ids : forall c1 c2,
  sessions c1 = sessions c2 -> (each_session c1 f ids).2 = (each_session c2 f ids).2.
Proof.
  induction ids as [|k ids IH]; intros c1 c2 Hs; [done|]. cbn [each_session].
  unfold with_session. rewrite Hs. destruct (sessions c2 !! k) as [s|].
  - destruct (f s) as [s' e].
    specialize (IH (c1 <| sessions := <[k := s']> (sessions c2) |>)
                   (c2 <| sessions := <[k := s']> (sessions c2) |>) eq_refl).
    do 2 destruct (each_session _ f ids). simpl in *. by rewrite IH.
  - specialize (IH c1 c2 Hs). do 2 destruct (each_session _ f ids). simpl in *. by rewrite IH.
Qed.

Lemma all_sessions_effects f c1 c2 :
  sessions c1 = sessions c2 -> (all_sessions c1 f).2 = (all_sessions c2 f).2.
Proof.
  intros Hs. unfold all_sessions, session_ids. rewrite Hs. by apply each_session_effects.
Qed.

(** ** Routing *)

(** The sessions [sess] of a connection are routed by [smap]: each is simulated,
    filed under its identifier, and owns its streams alone. *)
Record routed (client : bool) (sess : gmap SessionId Session.t) (smap : gmap StreamId SessionId)
    (buf : list StreamId) (creating : list creation) (seen : gset StreamId)
    (submitted : list RequestId) : Prop := {
  rt_simulated : forall i s, sess !! i = Some s -> simulated s (mine i creating) submitted;
  rt_named : forall i s, sess !! i = Some s ->
    Session.id s = i /\ Session.is_client s = client /\ i ∈ seen;
  rt_streams : forall i s j, sess !! i = Some s -> is_Some (Session.streams s !! j) ->
    smap !! j = Some i /\ j ∈ seen /\ j ∉ buf;
  rt_buffered : NoDup buf;
  rt_buffered_seen : forall j, j ∈ buf ->
    j ∈ seen /\ utils.is_peer_initiated_stream j client = true;
}.

(** An event of session [i], all the others untouched. *)
Lemma routed_event client sess smap smap' buf buf' creating creating' seen seen' submitted
    i s o s' e :
  routed client sess smap buf creating seen submitted -> sess !! i = Some s ->
  SessionR.transport_ok s o -> creating ≡ₚ (tag i <$> SessionR.returns o) ++ creating' ->
  NoDup (submitted ++ SessionR.submits o) -> SessionR.step o s = (s', e) ->
  seen ⊆ seen' -> NoDup buf' -> (forall j, j ∈ buf' -> j ∈ buf) ->
  (forall j, j ∈ SessionSt.opens o -> j ∈ seen' /\ j ∉ buf') ->
  (forall j, is_Some (Session.streams s' !! j) -> smap' !! j = Some i) ->
  (forall j k, k <> i -> smap !! j = Some k -> j ∉ SessionSt.opens o -> smap' !! j = Some k) ->
  (forall k sk j, sess !! k = Some sk -> is_Some (Session.streams sk !! j) ->
     j ∉ SessionSt.opens o) ->
  routed client (<[i := s']> sess) smap' buf' (creating' ++ asked e) seen'
    (submitted ++ SessionR.submits o)
  /\ SessionP.requests s ++ SessionR.submits o ++ (SessionR.returns o).*1
     ≡ₚ answered e ++ (requester <$> asked e) ++ SessionP.requests s'
  /\ (SessionP.rank s <= SessionP.rank s')%nat.
Proof.
  intros [Hsim Hnamed Hstr Hbn Hbs] Hi Hok Hc Hnd Hstep Hseen Hbn' Hbuf Hop Hmap Hmap' Hfresh.
  destruct (Hnamed i s Hi) as (Hid & Hcl & His).
  pose proof (SessionSt.step_local _ _ _ _ Hstep) as [Hwithin Hid' Hspeaks].
  rewrite Hid in Hspeaks, Hid'. pose proof (asked_own _ _ Hspeaks) as Hasked.
  assert (Hmine : mine i creating ≡ₚ SessionR.returns o ++ mine i creating').
  { rewrite (mine_perm i _ _ Hc), mine_app, mine_tag. done. }
  destruct (simulated_step _ _ _ _ _ _ _ (Hsim i s Hi) Hok Hmine Hnd Hstep) as (Hsim' & Hreq & Hconst & Hrank).
  rewrite Hasked, requester_tag. split; [|done]. split.
  - intros k sk. rewrite lookup_insert_Some. intros [[<- <-]|[Hne Hk]].
    + by rewrite mine_app, mine_tag.
    + rewrite mine_app, mine_tag_other, app_nil_r by done.
      apply (simulated_mono sk (mine k creating) _ submitted); [by apply Hsim| |].
      * rewrite (mine_perm k _ _ Hc), mine_app, mine_tag_other by done. done.
      * intros x Hx. apply elem_of_app. by left.
  - intros k sk. rewrite lookup_insert_Some. intros [[<- <-]|[Hne Hk]].
    + split_and!; [done| |by apply Hseen].
      rewrite <- Hcl. unfold SessionP.constants in Hconst. congruence.
    + destruct (Hnamed k sk Hk) as (? & ? & ?). split_and!; auto.
  - intros k sk j. rewrite lookup_insert_Some. intros [[<- <-]|[Hne Hk]] Hj.
    + split; [by apply Hmap|]. destruct (Hwithin j Hj) as [Hold|Hnew]; [|by apply Hop].
      destruct (Hstr i s j Hi Hold) as (_ & ? & ?). split; auto.
    + destruct (Hstr k sk j Hk Hj) as (? & ? & ?). split_and!; [|auto|auto].
      apply Hmap'; eauto.
  - done.
  - intros j Hj. destruct (Hbs j (Hbuf j Hj)). auto.
Qed.

End ConnP.
