(* ===== verification/ConnectionRuns.v ===== *)
(** * Connections in every order of events

    A connection is driven by the user, the peer and the transport, each through
    the operations of [ConnectionMachine].  This file runs them in any order the
    transport allows and states the invariant every such run keeps. *)

From S2P Require Import Prelude.
From S2P Require Import Types.
From S2P Require Import Events.
From S2P Require Import Utils.
From S2P Require Import StreamMachine.
From S2P Require Import SessionMachine.
From S2P Require Import SessionProps.
From S2P Require Import SessionRuns.
From S2P Require Import SessionTheorems.
From S2P Require Import SessionStreams.
From S2P Require Import ConnectionMachine.
From S2P Require Import ConnectionProps.

Module ConnR.
Import Connection ConnP.

(** ** The world around a connection *)

(** The CONNECT streams asked of the transport. *)
Definition connects (effects : list Effect.t) : list RequestId :=
  omap (fun e => match e with
        | Effect.CreateH3ConnectStream r _ _ _ => Some r
        | _ => None
        end) effects.

Lemma connects_app e1 e2 : connects (e1 ++ e2) = connects e1 ++ connects e2.
Proof. apply omap_app. Qed.

Lemma connects_session i effects :
  Forall (SessionSt.speaks_for i) effects -> connects effects = [].
Proof. unfold connects. induction 1 as [|e effects He _ IH]; [done|]. by destruct e. Qed.

Lemma step_connects o s s' e : SessionR.step o s = (s', e) -> connects e = [].
Proof.
  intros Hs. apply (connects_session (Session.id s)).
  apply (SessionSt.local_speaks _ _ _ _ (SessionSt.step_local _ _ _ _ Hs)).
Qed.

(** What the environment knows: stream creations and CONNECT streams the
    transport has not come back with, every stream identifier used so far, the
    sessions that were destroyed, the requests submitted and the effects
    emitted. *)
Record world : Type := World {
  creating : list creation;
  connecting : list RequestId;
  seen : gset StreamId;
  destroyed : gset SessionId;
  submitted : list RequestId;
  emitted : list Effect.t;
}.

(** The requests a connection holds: its own, the session requests of a client,
    and those of its sessions. *)
Definition own (c : t) : list RequestId :=
  option_list (request_id c) ++ (map_to_list (session_requests c)).*1.

Definition held (c : t) : list RequestId := own c ++ collect SessionP.requests (sessions c).

Definition event_for (i : SessionId) (event : ProtocolEvent.t) : Prop :=
  match event with
  | ProtocolEvent.H3WebTransportStreamOpened k _ | ProtocolEvent.H3DatagramReceived k _ => k = i
  | _ => False
  end.

(** The session [i] exists or existed. *)
Definition was_session (c : t) (w : world) (i : SessionId) : Prop :=
  is_Some (sessions c !! i) \/ i ∈ destroyed w.

(** The session requests of a client: each waits for the transport, for a stream
    to be allowed, or for the response of the peer on its CONNECT stream.  A
    request leaves the table when its session is created. *)
Record waiting (c : t) (w : world) : Prop := {
  wait_distinct : NoDup (connecting w ++ blocked_session_requests c);
  wait_held : forall r, r ∈ connecting w ++ blocked_session_requests c ->
    is_Some (session_requests c !! r);
  wait_pending : forall i r, pending_session_requests c !! i = Some r ->
    i ∈ seen w /\ r ∈ submitted w /\ r ∉ connecting w ++ blocked_session_requests c
    /\ (session_requests c !! r = None <-> was_session c w i);
  wait_injective : forall i j r, pending_session_requests c !! i = Some r ->
    pending_session_requests c !! j = Some r -> i = j;
}.

(** A closed connection holds no request of its own and no open session. *)
Record ended (c : t) : Prop := {
  ended_requests : session_requests c = ∅;
  ended_pending : pending_session_requests c = ∅;
  ended_own : request_id c = None;
  ended_sessions : forall i s, sessions c !! i = Some s -> Session.state s = SessionState.Closed;
}.

Record inv (c : t) (w : world) : Prop := {
  inv_routed : routed (is_client c) (sessions c) (stream_map c) (buffered c) (creating w)
                 (seen w) (submitted w);
  inv_keyed : forall k events, early_event_buffer c !! k = Some events ->
    Forall (event_for k) events.*2;
  inv_distinct : NoDup (submitted w);
  inv_ledger : submitted w ≡ₚ answered (emitted w) ++ held c ++ (requester <$> creating w);
  inv_parameters : SessionR.parameters_ok (session_parameters c);
  inv_waiting : state c <> ConnectionState.Closed -> waiting c w;
  inv_ended : state c = ConnectionState.Closed -> ended c;
  inv_creators : forall x, x ∈ creating w -> was_session c w x.1.1;
  inv_destroyed : destroyed w ⊆ seen w;
}.

(** The world after an event: [creating'] and [connecting'] are what is left in
    flight, [names] the new stream identifiers, [entering] the new requests. *)
Definition next (w : world) (creating' : list creation) (connecting' : list RequestId)
    (names : list StreamId) (gone : gset SessionId) (entering : list RequestId)
    (e : list Effect.t) : world :=
  World (creating' ++ asked e) (connecting' ++ connects e) (list_to_set names ∪ seen w)
    (gone ∪ destroyed w) (submitted w ++ entering) (emitted w ++ e).

Lemma seen_old (names : list StreamId) (X : gset StreamId) j : j ∈ X -> j ∈ list_to_set names ∪ X.
Proof. apply elem_of_union_r. Qed.

Lemma seen_new (names : list StreamId) (X : gset StreamId) j :
  j ∈ names -> j ∈ list_to_set names ∪ X.
Proof. intros H. apply elem_of_union_l. by apply elem_of_list_to_set. Qed.

Lemma destroyed_old (gone X : gset SessionId) : X ⊆ gone ∪ X.
Proof. apply union_subseteq_r. Qed.

Lemma destroyed_next (names : list StreamId) (gone X Y : gset SessionId) :
  gone ⊆ Y -> X ⊆ Y -> gone ∪ X ⊆ list_to_set names ∪ Y.
Proof. set_solver. Qed.

#[export] Hint Resolve seen_old seen_new destroyed_old : wt.

(** ** Events of one session *)

(** The fields the request bookkeeping looks at are unchanged. *)
Lemma waiting_frame c c' w w' :
  waiting c w -> connecting w' = connecting w ->
  blocked_session_requests c' = blocked_session_requests c ->
  session_requests c' = session_requests c ->
  pending_session_requests c' = pending_session_requests c ->
  seen w ⊆ seen w' -> submitted w ⊆ submitted w' ->
  (forall i, is_Some (pending_session_requests c !! i) ->
     was_session c w i <-> was_session c' w' i) -> waiting c' w'.
Proof.
  intros [Hd Hh Hp Hj] Hc Hb Hs Hpe Hse Hsu Hwas. rewrite <- Hc, <- Hb in Hd, Hh, Hp.
  split; rewrite ?Hc, ?Hb, ?Hs, ?Hpe in *; try done.
  intros i r Hi. destruct (Hp i r Hi) as (? & ? & ? & Hr).
  split_and!; [by apply Hse|by apply Hsu|done|].
  rewrite Hr. apply Hwas. by eexists.
Qed.

Lemma was_session_next c c' w w' i :
  (is_Some (sessions c' !! i) <-> is_Some (sessions c !! i)) ->
  destroyed w' = ∅ ∪ destroyed w -> was_session c' w' i <-> was_session c w i.
Proof. intros H Hd. unfold was_session. by rewrite H, Hd, (left_id_L ∅ (∪)). Qed.

Lemma submitted_old (l k : list RequestId) : l ⊆ l ++ k.
Proof. intros x Hx. apply elem_of_app. by left. Qed.

Lemma seen_next (names : list StreamId) (X : gset StreamId) : X ⊆ list_to_set names ∪ X.
Proof. apply union_subseteq_r. Qed.

#[export] Hint Resolve submitted_old seen_next : wt.

Lemma ended_frame c c' :
  ended c -> session_requests c' = session_requests c ->
  pending_session_requests c' = pending_session_requests c -> request_id c' = request_id c ->
  (forall i s, sessions c' !! i = Some s ->
     sessions c !! i = Some s \/ Session.state s = SessionState.Closed) -> ended c'.
Proof.
  intros [] Hs Hp Hr Hse. split; try congruence. intros i s Hi. destruct (Hse i s Hi); eauto.
Qed.

Lemma closed_stays s s' :
  (SessionP.rank s <= SessionP.rank s')%nat -> Session.state s = SessionState.Closed ->
  Session.state s' = SessionState.Closed.
Proof.
  unfold SessionP.rank. intros Hr E. rewrite E in Hr. destruct (Session.state s'); simpl in Hr; lia || done.
Qed.

(** The ledger after one session changed. *)
Lemma ledger_update c w sess i s s' creating' entering (e : list Effect.t) held_rest :
  submitted w ≡ₚ answered (emitted w) ++ (held_rest ++ collect SessionP.requests (sessions c))
                 ++ (requester <$> creating w) ->
  sess = <[i := s']> (sessions c) -> sessions c !! i = Some s ->
  forall returned, creating w ≡ₚ returned ++ creating' ->
  SessionP.requests s ++ entering ++ (requester <$> returned)
    ≡ₚ answered e ++ (requester <$> asked e) ++ SessionP.requests s' ->
  submitted w ++ entering
    ≡ₚ answered (emitted w ++ e) ++ (held_rest ++ collect SessionP.requests sess)
       ++ (requester <$> (creating' ++ asked e)).
Proof.
  intros Hl -> Hi returned Hc Hp. rewrite Hl, Hc, answered_app, !fmap_app.
  rewrite (collect_delete _ _ _ _ Hi), collect_update.
  transitivity (answered (emitted w) ++ held_rest
    ++ (SessionP.requests s ++ entering ++ (requester <$> returned))
    ++ collect SessionP.requests (delete i (sessions c)) ++ (requester <$> creating'));
    [solve_Permutation|].
  rewrite Hp. solve_Permutation.
Qed.

(** A stream no session holds and no buffered event announces. *)
Definition unowned (c : t) (j : StreamId) : Prop :=
  j ∉ buffered c /\ forall k s, sessions c !! k = Some s -> Session.streams s !! j = None.

Lemma session_event_inv c w i s o s' e m' creating' names :
  inv c w -> sessions c !! i = Some s -> SessionR.transport_ok s o ->
  creating w ≡ₚ (tag i <$> SessionR.returns o) ++ creating' ->
  NoDup (submitted w ++ SessionR.submits o) -> SessionR.step o s = (s', e) ->
  (forall j, j ∈ SessionSt.opens o -> (j ∈ names \/ j ∈ seen w) /\ unowned c j) ->
  (forall j, is_Some (Session.streams s' !! j) -> m' !! j = Some i) ->
  (forall j k, k <> i -> stream_map c !! j = Some k -> j ∉ SessionSt.opens o ->
     m' !! j = Some k) ->
  inv (c <| sessions := <[i := s']> (sessions c) |> <| stream_map := m' |>)
      (next w creating' (connecting w) names ∅ (SessionR.submits o) e).
Proof.
  intros [Hrt Hkey Hdis Hled Hpar Hwait Hend Hcr Hdes] Hi Hok Hc Hnd Hstep Hop Hm Hm'.
  destruct (routed_event (is_client c) (sessions c) (stream_map c) m' (buffered c) (buffered c)
    (creating w) creating' (seen w) (list_to_set names ∪ seen w) (submitted w) i s o s' e)
    as (Hrt' & Hreq & Hrank); try done.
  - intros j. apply seen_old.
  - by destruct Hrt.
  - intros j Hj. destruct (Hop j Hj) as ([?|?] & ? & _); (split; [by auto with wt|done]).
  - intros k sk j Hk Hsk Hj. destruct (Hop j Hj) as (_ & _ & Hno).
    rewrite (Hno k sk Hk) in Hsk. by destruct Hsk.
  - pose proof (step_connects _ _ _ _ Hstep) as Hcon. split; try done.
    + apply (ledger_update c w _ i s s' _ _ _ (own c) Hled eq_refl Hi _ Hc).
      by rewrite requester_tag.
    + intros Hst. eapply waiting_frame; [exact (Hwait Hst)|..]; try done.
      * unfold next. simpl. by rewrite Hcon, app_nil_r.
      * apply seen_next.
      * apply submitted_old.
      * intros k _. symmetry. apply was_session_next; [|done]. simpl. rewrite lookup_insert_is_Some'.
        split; [intros [<-|?]; [by eexists|done]|by right].
    + intros Hst. apply (ended_frame c); try done; [exact (Hend Hst)|].
      intros k sk. simpl. rewrite lookup_insert_Some. intros [[<- <-]|[_ Hk]]; [right|by left].
      apply (closed_stays s); [done|]. by apply (ended_sessions c (Hend Hst) i).
    + destruct (rt_named _ _ _ _ _ _ _ Hrt i s Hi) as (Hid & _).
      intros x. simpl. unfold was_session. simpl. rewrite elem_of_app, lookup_insert_is_Some'.
      intros [Hx|Hx].
      * destruct (Hcr x); [rewrite Hc, elem_of_app; by right|by left; right|right; by apply elem_of_union_r].
      * rewrite (asked_own (Session.id s)) in Hx
          by apply (SessionSt.local_speaks _ _ _ _ (SessionSt.step_local _ _ _ _ Hstep)).
        apply list_elem_of_fmap in Hx as (y & -> & _). left. by left.
    + apply destroyed_next; [apply empty_subseteq|done].
Qed.

(** An answer to requests that reached no session. *)
Lemma answer_inv c w creating' returned names entering e :
  inv c w -> creating w ≡ₚ returned ++ creating' ->
  (forall x, x ∈ returned -> sessions c !! x.1.1 = None) ->
  NoDup (submitted w ++ entering) -> answered e ≡ₚ entering ++ (requester <$> returned) ->
  asked e = [] -> connects e = [] ->
  inv c (next w creating' (connecting w) names ∅ entering e).
Proof.
  intros [[Hsim Hnm Hst Hb Hbs] Hkey Hdis Hled Hpar Hwait Hend Hcr Hdes] Hc Hgone Hnd Ha Hask Hcon.
  split; unfold next; cbn [submitted emitted creating connecting seen destroyed];
    rewrite ?Hask, ?Hcon, ?app_nil_r; try done.
  - split; try done.
    + intros i s Hi. eapply simulated_mono; [by apply Hsim| |].
      * rewrite (mine_perm i _ _ Hc), mine_app, (mine_none i returned); [done|].
        intros x Hx <-. by rewrite (Hgone x Hx) in Hi.
      * intros x Hx. apply elem_of_app. by left.
    + intros i s Hi. destruct (Hnm i s Hi) as (? & ? & ?). split_and!; [done|done|by auto with wt].
    + intros i s j Hi Hj. destruct (Hst i s j Hi Hj) as (? & ? & ?). split_and!; [done|by auto with wt|done].
    + intros j Hj. destruct (Hbs j Hj). split; [by auto with wt|done].
  - rewrite Hled, Hc, answered_app, Ha, fmap_app. solve_Permutation.
  - intros Hs. eapply waiting_frame; [exact (Hwait Hs)|..]; try done; simpl; auto with wt.
    intros i _. symmetry. by apply was_session_next.
  - intros x Hx. apply (was_session_next c c w); [done|done|]. apply Hcr. rewrite Hc, elem_of_app. by right.
  - apply destroyed_next; [apply empty_subseteq|done].
Qed.

Lemma note_inv c w names e :
  inv c w -> answered e = [] -> asked e = [] -> connects e = [] ->
  inv c (next w (creating w) (connecting w) names ∅ [] e).
Proof.
  intros Hinv Ha Hask Hcon. apply (answer_inv c w _ []); try done.
  - intros x Hx. by apply not_elem_of_nil in Hx.
  - rewrite app_nil_r. by destruct Hinv.
  - by rewrite Ha.
Qed.

(** A stream a session still holds after an event that opens none was its own. *)
Lemma still_routed c w i s o s' e j :
  inv c w -> sessions c !! i = Some s -> SessionSt.opens o = [] ->
  SessionR.step o s = (s', e) -> is_Some (Session.streams s' !! j) ->
  stream_map c !! j = Some i.
Proof.
  intros [Hrt _ _ _ _ _ _ _ _] Hi Hop Hstep Hj.
  destruct (SessionSt.step_local _ _ _ _ Hstep) as [Hw _ _]. rewrite Hop in Hw.
  destruct (Hw j Hj) as [Hold|Hnew]; [|by apply not_elem_of_nil in Hnew].
  by destruct (rt_streams _ _ _ _ _ _ _ Hrt i s j Hi Hold).
Qed.

Lemma with_session_inv c w i o otherwise creating' c' e :
  inv c w -> SessionSt.opens o = [] ->
  (forall s, sessions c !! i = Some s -> SessionR.transport_ok s o) ->
  creating w ≡ₚ (tag i <$> SessionR.returns o) ++ creating' ->
  NoDup (submitted w ++ SessionR.submits o) ->
  answered otherwise ≡ₚ SessionR.submits o ++ (SessionR.returns o).*1 ->
  asked otherwise = [] -> connects otherwise = [] ->
  with_session c i (SessionR.step o) otherwise = (c', e) ->
  inv c' (next w creating' (connecting w) [] ∅ (SessionR.submits o) e).
Proof.
  intros Hinv Hop Hok Hc Hnd Ha Hask Hcon. unfold with_session.
  destruct (sessions c !! i) as [s|] eqn:Hi.
  - destruct (SessionR.step o s) as [s' e'] eqn:Hstep. intros [= <- <-].
    apply (session_event_inv c w i s o s' e' (stream_map c)); try done; [by apply Hok|..].
    + rewrite Hop. intros j Hj. by apply not_elem_of_nil in Hj.
    + intros j. by eapply still_routed.
  - intros [= <- <-]. eapply answer_inv; try done.
    + intros x Hx. by apply list_elem_of_fmap in Hx as (y & -> & _).
    + by rewrite requester_tag.
Qed.

(** The stream map after a stream operation still routes every stream. *)
Lemma with_stream_inv c w i o otherwise creating' c' e :
  inv c w -> SessionSt.opens o = [] -> SessionR.returns o = [] -> creating' = creating w ->
  (forall k s, session_of_stream c i = Some (k, s) -> SessionR.transport_ok s o) ->
  NoDup (submitted w ++ SessionR.submits o) ->
  (session_of_stream c i = None -> otherwise = (c', e) ->
   inv c' (next w creating' (connecting w) [] ∅ (SessionR.submits o) e)) ->
  with_stream c i (SessionR.step o) otherwise = (c', e) ->
  inv c' (next w creating' (connecting w) [] ∅ (SessionR.submits o) e).
Proof.
  intros Hinv Hop Hret -> Hok Hnd Hoth. unfold with_stream.
  destruct (session_of_stream c i) as [[k s]|] eqn:Hi; [|by apply Hoth].
  unfold session_of_stream in Hi. destruct (stream_map c !! i) as [k'|] eqn:Hmap; [|done].
  simpl in Hi. destruct (sessions c !! k') as [s0|] eqn:Hk; [|done]. injection Hi as -> ->.
  specialize (Hok k s eq_refl).
  destruct (SessionR.step o s) as [s' e'] eqn:Hstep. intros [= <- <-].
  set (m' := if Session.has_stream s' i then stream_map c else delete i (stream_map c)).
  replace (if Session.has_stream s' i then _ else _)
    with (c <| sessions := <[k := s']> (sessions c) |> <| stream_map := m' |>)
    by (unfold m'; by destruct (Session.has_stream s' i)).
  apply (session_event_inv c w k s o); try done; rewrite ?Hop, ?Hret; try done.
  - intros j Hj. by apply not_elem_of_nil in Hj.
  - intros j Hj. pose proof (still_routed _ _ _ _ _ _ _ _ Hinv Hk Hop Hstep Hj) as Hr.
    unfold m', Session.has_stream. destruct (bool_decide _) eqn:E; [done|].
    apply bool_decide_eq_false in E. rewrite lookup_delete_ne; [done|]. by intros ->.
  - intros j k' Hne Hj _. unfold m'. destruct (Session.has_stream s' i); [done|].
    rewrite lookup_delete_ne; [done|]. intros ->. congruence.
Qed.

(** Two events that only emit effects are one. *)
Definition emits (w : world) (e : list Effect.t) : world :=
  next w (creating w) (connecting w) [] ∅ [] e.

Lemma next_emits w creating' connecting' names gone entering e1 e2 :
  emits (next w creating' connecting' names gone entering e1) e2
  = next w creating' connecting' names gone entering (e1 ++ e2).
Proof.
  unfold emits, next. cbn [creating connecting seen destroyed submitted emitted list_to_set].
  by rewrite asked_app, connects_app, !app_assoc, app_nil_r, !(left_id_L ∅ (∪)).
Qed.

Lemma emits_nil w : emits w [] = w.
Proof.
  destruct w. unfold emits, next. cbn. by rewrite !app_nil_r, !(left_id_L ∅ (∪)).
Qed.

Lemma emits_app w e1 e2 : emits (emits w e1) e2 = emits w (e1 ++ e2).
Proof. apply next_emits. Qed.

(** The events a connection passes to all its sessions. *)
Definition broadcast (o : SessionR.op) : Prop :=
  SessionSt.opens o = [] /\ SessionR.returns o = [] /\ SessionR.submits o = []
  /\ forall s, SessionR.transport_ok s o.

Lemma each_session_inv o ids c w c' e :
  broadcast o -> inv c w -> each_session c (SessionR.step o) ids = (c', e) ->
  inv c' (emits w e).
Proof.
  intros (Hop & Hret & Hsub & Hok). revert c w c' e.
  induction ids as [|i ids IH]; intros c w c' e Hinv; cbn [each_session].
  { intros [= <- <-]. by rewrite emits_nil. }
  destruct (with_session c i _ []) as [c1 e1] eqn:H1.
  destruct (each_session c1 _ ids) as [c2 e2] eqn:H2. intros [= <- <-].
  rewrite <- emits_app. apply (IH c1); [|done].
  apply (with_session_inv c w i o [] (creating w)) in H1; rewrite ?Hsub, ?Hret in *; try done.
  rewrite app_nil_r. by destruct Hinv.
Qed.

Lemma all_sessions_inv o c w c' e :
  broadcast o -> inv c w -> all_sessions c (SessionR.step o) = (c', e) -> inv c' (emits w e).
Proof. intros. by eapply each_session_inv. Qed.

(** ** Opening streams *)

Lemma fresh_unowned c w j : inv c w -> j ∉ seen w -> unowned c j.
Proof.
  intros [Hrt _ _ _ _ _ _ _ _] Hj. split.
  - intros Hb. by destruct (rt_buffered_seen _ _ _ _ _ _ _ Hrt j Hb).
  - intros k s Hk. destruct (Session.streams s !! j) as [st|] eqn:E; [|done].
    destruct (rt_streams _ _ _ _ _ _ _ Hrt k s j Hk) as (_ & ? & _); [by eexists|done].
Qed.

(** A session opens the stream [i]: the map learns it if the session keeps it. *)
Lemma open_inv c w k s o s' e i creating' names :
  inv c w -> sessions c !! k = Some s -> SessionSt.opens o = [i] ->
  SessionR.transport_ok s o -> creating w ≡ₚ (tag k <$> SessionR.returns o) ++ creating' ->
  NoDup (submitted w ++ SessionR.submits o) -> SessionR.step o s = (s', e) ->
  i ∈ names \/ i ∈ seen w -> unowned c i ->
  inv (if Session.has_stream s' i
       then c <| sessions := <[k := s']> (sessions c) |>
              <| stream_map := <[i := k]> (stream_map c) |>
       else c <| sessions := <[k := s']> (sessions c) |>)
      (next w creating' (connecting w) names ∅ (SessionR.submits o) e).
Proof.
  intros Hinv Hk Hop Hok Hc Hnd Hstep Hname Hun.
  set (m' := if Session.has_stream s' i then <[i := k]> (stream_map c) else stream_map c).
  replace (if Session.has_stream s' i then _ else _)
    with (c <| sessions := <[k := s']> (sessions c) |> <| stream_map := m' |>)
    by (unfold m'; by destruct (Session.has_stream s' i)).
  apply (session_event_inv c w k s o); try done; rewrite ?Hop.
  - intros j ->%list_elem_of_singleton. done.
  - intros j Hj. destruct (decide (i = j)) as [<-|Hne].
    + unfold m', Session.has_stream. rewrite bool_decide_true by done. apply lookup_insert_eq.
    + assert (Hr : stream_map c !! j = Some k).
      { destruct (SessionSt.step_local _ _ _ _ Hstep) as [Hw _ _]. rewrite Hop in Hw.
        destruct (Hw j Hj) as [Hold|Hnew%list_elem_of_singleton]; [|done].
        by destruct (rt_streams _ _ _ _ _ _ _ (inv_routed c w Hinv) k s j Hk Hold). }
      unfold m'. destruct (Session.has_stream s' i); [|done]. by rewrite lookup_insert_ne.
  - intros j k' _ Hj Hnot. unfold m'. destruct (Session.has_stream s' i); [|done].
    rewrite lookup_insert_ne; [done|]. intros ->. apply Hnot. by left.
Qed.

Lemma bind_stream_inv c w k i r u now creating' c' e :
  inv c w -> creating w ≡ₚ (k, r, u) :: creating' -> i ∉ seen w ->
  utils.is_peer_initiated_stream i (is_client c) = false ->
  bind_stream c k i r u now = (c', e) ->
  inv c' (next w creating' (connecting w) [i] ∅ [] e).
Proof.
  intros Hinv Hc Hi Hloc. pose proof (fresh_unowned c w i Hinv Hi) as Hun.
  assert (Hnd : NoDup (submitted w ++ [])) by (rewrite app_nil_r; by destruct Hinv).
  unfold bind_stream. destruct (sessions c !! k) as [s|] eqn:Hk.
  - destruct (Session.bind_stream s i r u now) as [s' e'] eqn:Hb. intros [= <- <-].
    apply (open_inv c w k s (SessionR.OpBind i r u now)); try done; [|left; by left].
    destruct (rt_named _ _ _ _ _ _ _ (inv_routed c w Hinv) k s Hk) as (_ & Hcl & _).
    split; [by apply Hun in Hk|by rewrite Hcl].
  - intros [= <- <-]. apply (answer_inv c w creating' [(k, r, u)]); try done.
    intros x ->%list_elem_of_singleton. done.
Qed.

(** ** The buffer of early events *)

Lemma buffer_inv c w buffer count names (e : list Effect.t) :
  inv c w -> NoDup (collect opened_streams buffer) ->
  (forall j, j ∈ collect opened_streams buffer ->
     j ∈ buffered c \/ j ∈ names /\ j ∉ seen w
                       /\ utils.is_peer_initiated_stream j (is_client c) = true) ->
  (forall k events, buffer !! k = Some events -> Forall (event_for k) events.*2) ->
  answered e = [] -> asked e = [] -> connects e = [] ->
  inv (c <| early_event_buffer := buffer |> <| early_event_count := count |>)
      (next w (creating w) (connecting w) names ∅ [] e).
Proof.
  intros Hinv Hnd Hsub Hkeyed Ha Hask Hcon.
  destruct Hinv as [[Hsim Hnm Hst Hb Hbs] Hkey Hdis Hled Hpar Hwait Hend Hcr Hdes].
  split; unfold next; cbn [submitted emitted creating connecting seen destroyed];
    rewrite ?Hask, ?Hcon, ?app_nil_r; try done.
  - split; try done.
    + intros i s Hi. destruct (Hnm i s Hi) as (? & ? & ?). split_and!; [done|done|by auto with wt].
    + intros i s j Hi Hj. destruct (Hst i s j Hi Hj) as (? & ? & ?).
      split_and!; [done|by auto with wt|]. intros Hin. by destruct (Hsub j Hin) as [?|(_ & ? & _)].
    + intros j Hj. destruct (Hsub j Hj) as [Hold|(? & _ & ?)]; [|split; [by auto with wt|done]].
      destruct (Hbs j Hold). split; [by auto with wt|done].
  - by rewrite answered_app, Ha, app_nil_r.
  - intros Hs. eapply waiting_frame; [exact (Hwait Hs)|..]; try done; simpl; auto with wt.
    intros i _. symmetry. by apply was_session_next.
  - intros Hs. apply (ended_frame c); try done; [exact (Hend Hs)|auto].
  - intros x Hx. apply (was_session_next c _ w); [done|done|]. by apply Hcr.
  - apply destroyed_next; [apply empty_subseteq|done].
Qed.

Lemma opened_streams_snoc events event now :
  opened_streams (events ++ [(now, event)])
  = opened_streams events ++ option_list (opened_stream event).
Proof.
  unfold opened_streams. rewrite fmap_app, omap_app. simpl.
  by destruct (opened_stream event).
Qed.

Lemma buffered_replace c k events :
  collect opened_streams (<[k := events]> (early_event_buffer c))
    ++ opened_streams (default [] (early_event_buffer c !! k))
  ≡ₚ opened_streams events ++ buffered c.
Proof.
  unfold buffered. rewrite <- (collect_replace opened_streams _ k). by destruct (early_event_buffer c !! k).
Qed.

Lemma buffered_snoc c k event now :
  collect opened_streams
    (<[k := default [] (early_event_buffer c !! k) ++ [(now, event)]]> (early_event_buffer c))
  ≡ₚ option_list (opened_stream event) ++ buffered c.
Proof.
  apply (Permutation_app_inv_r (opened_streams (default [] (early_event_buffer c !! k)))).
  rewrite buffered_replace, opened_streams_snoc. solve_Permutation.
Qed.

Lemma buffered_touch c k :
  collect opened_streams
    (<[k := default [] (early_event_buffer c !! k)]> (early_event_buffer c)) ≡ₚ buffered c.
Proof.
  apply (Permutation_app_inv_r (opened_streams (default [] (early_event_buffer c !! k)))).
  rewrite buffered_replace. solve_Permutation.
Qed.

Lemma early_events_keyed c w k :
  inv c w -> Forall (event_for k) (default [] (early_event_buffer c !! k)).*2.
Proof.
  intros Hinv. destruct (early_event_buffer c !! k) eqn:Hk; [|by apply Forall_nil].
  by apply (inv_keyed c w Hinv).
Qed.

Lemma keyed_insert c w k events :
  inv c w -> Forall (event_for k) events.*2 ->
  forall k' events', <[k := events]> (early_event_buffer c) !! k' = Some events' ->
    Forall (event_for k') events'.*2.
Proof.
  intros Hinv Hev k' events'. rewrite lookup_insert_Some.
  intros [[<- <-]|[_ Hk]]; [done|by apply (inv_keyed c w Hinv)].
Qed.

(** The buffer gains an event that announces a fresh stream, or none. *)
Lemma buffer_early_event_inv c w k event now c' stored names (e : list Effect.t) :
  inv c w -> event_for k event ->
  (forall j, opened_stream event = Some j -> j ∈ names /\ j ∉ seen w
     /\ utils.is_peer_initiated_stream j (is_client c) = true) ->
  answered e = [] -> asked e = [] -> connects e = [] ->
  buffer_early_event c k event now = (c', stored) ->
  inv c' (next w (creating w) (connecting w) names ∅ [] e).
Proof.
  intros Hinv Hev Hj Ha Hask Hcon. unfold buffer_early_event.
  destruct (inv_routed c w Hinv) as [_ _ _ Hb Hbs].
  destruct (_ <=? _).
  { intros [= <- _]. by apply note_inv. }
  pose proof (early_events_keyed c w k Hinv) as Hdef.
  destruct (_ <=? _); intros [= <- _].
  - apply (buffer_inv c w
      (<[k := default [] (early_event_buffer c !! k)]> (early_event_buffer c))
      (early_event_count c)); try done.
    + by rewrite buffered_touch.
    + intros j. rewrite buffered_touch. auto.
    + by apply (keyed_insert c w).
  - apply buffer_inv; try done.
    + rewrite buffered_snoc. destruct (opened_stream event) as [j|]; [|done].
      apply NoDup_cons. split; [|done]. destruct (Hj j eq_refl) as (_ & Hn & _).
      intros Hin. by destruct (Hbs j Hin).
    + intros j. rewrite buffered_snoc, elem_of_app. intros [H|H]; [|by left].
      right. apply Hj. destruct (opened_stream event); [|by apply not_elem_of_nil in H].
      by apply list_elem_of_singleton in H as ->.
    + apply (keyed_insert c w); [done|]. rewrite fmap_app. apply Forall_app.
      split; [done|by repeat constructor].
Qed.

Lemma reject_stream_silent j :
  answered (reject_stream j) = [] /\ asked (reject_stream j) = []
  /\ connects (reject_stream j) = [].
Proof. unfold reject_stream. by destruct (utils.is_unidirectional_stream j). Qed.

(** A stream of the peer, new or taken out of the buffer. *)
Lemma handle_stream_opened_inv c w k i now names c' e :
  inv c w -> utils.is_peer_initiated_stream i (is_client c) = true ->
  (i ∈ names /\ i ∉ seen w) \/ (i ∈ seen w /\ unowned c i /\ is_Some (sessions c !! k)) ->
  handle_stream_opened c k i now = (c', e) ->
  inv c' (next w (creating w) (connecting w) names ∅ [] e).
Proof.
  intros Hinv Hpeer Hi. unfold handle_stream_opened.
  destruct (sessions c !! k) as [s|] eqn:Hk.
  - destruct (Session.handle_stream_opened s i now) as [s' e'] eqn:Hs. intros [= <- <-].
    assert (Hun : unowned c i) by (destruct Hi as [[_ ?]|(_ & ? & _)]; [by eapply fresh_unowned|done]).
    apply (open_inv c w k s (SessionR.OpStreamOpened i now)); try done.
    + destruct (rt_named _ _ _ _ _ _ _ (inv_routed c w Hinv) k s Hk) as (_ & Hcl & _).
      split; [by apply Hun in Hk|by rewrite Hcl].
    + simpl. rewrite app_nil_r. by destruct Hinv.
    + destruct Hi as [[? _]|[? _]]; auto.
  - destruct Hi as [[Hin Hni]|(_ & _ & Hsome)]; [|by destruct Hsome].
    destruct (buffer_early_event c k _ now) as [c1 stored] eqn:Hb.
    destruct (reject_stream_silent i) as (? & ? & ?).
    destruct stored; intros [= <- <-];
      eapply (buffer_early_event_inv c w k (ProtocolEvent.H3WebTransportStreamOpened k i));
      try exact Hb; try done; by intros j [= <-].
Qed.

Lemma recv_datagram_inv c w k data now c' e :
  inv c w -> recv_datagram c k data now = (c', e) -> inv c' (emits w e).
Proof.
  intros Hinv. unfold recv_datagram.
  destruct (sessions c !! k) as [s|] eqn:Hk.
  - intros He. apply (with_session_inv c w k (SessionR.OpRecvDatagram data) []); try done.
    + rewrite app_nil_r. by destruct Hinv.
    + unfold with_session. rewrite Hk. exact He.
  - destruct (buffer_early_event c k _ now) as [c1 stored] eqn:Hb. intros [= <- <-].
    by eapply (buffer_early_event_inv c w k (ProtocolEvent.H3DatagramReceived k data));
      try exact Hb.
Qed.

(** *** Replaying *)

(** What is left to replay stays free while the session handles an event. *)
Record replayable (c : t) (w : world) (k : SessionId) (present : bool)
    (events : list (f64 * ProtocolEvent.t)) : Prop := {
  rp_keyed : Forall (event_for k) events.*2;
  rp_distinct : NoDup (opened_streams events);
  rp_free : forall j, j ∈ opened_streams events ->
    j ∈ seen w /\ utils.is_peer_initiated_stream j (is_client c) = true /\ unowned c j;
  rp_present : present = true -> is_Some (sessions c !! k);
}.

Lemma session_event_unowned c c' k s o s' e j :
  sessions c !! k = Some s -> SessionR.step o s = (s', e) -> j ∉ SessionSt.opens o ->
  unowned c j -> sessions c' = <[k := s']> (sessions c) ->
  early_event_buffer c' = early_event_buffer c -> unowned c' j.
Proof.
  intros Hk Hstep Hj [Hb Hs] Hse Hbu. split; [unfold buffered; by rewrite Hbu|].
  intros k' sk. rewrite Hse, lookup_insert_Some. intros [[<- <-]|[_ Hk']]; [|by eapply Hs].
  destruct (Session.streams s' !! j) as [st|] eqn:E; [|done].
  destruct (SessionSt.local_streams _ _ _ _ (SessionSt.step_local _ _ _ _ Hstep) j) as [Ho|?];
    [by eexists| |done].
  rewrite (Hs k s Hk) in Ho. by destruct Ho.
Qed.

Lemma replay_stream c w k j now rest c' e :
  inv c w -> is_Some (sessions c !! k) ->
  replayable c w k true ((now, ProtocolEvent.H3WebTransportStreamOpened k j) :: rest) ->
  forall now', handle_stream_opened c k j now' = (c', e) ->
  inv c' (emits w e) /\ replayable c' (emits w e) k true rest.
Proof.
  intros Hinv [s Hk] [Hkey Hnd Hfree Hpres] now' He. cbn in Hkey, Hnd.
  destruct (Hfree j) as (Hjs & Hpeer & Hun); [by left|]. split.
  { apply (handle_stream_opened_inv c w k j now'); try done. right. by rewrite Hk. }
  unfold handle_stream_opened in He. rewrite Hk in He.
  destruct (Session.handle_stream_opened s j now') as [s' e'] eqn:Hs. injection He as <- <-.
  apply NoDup_cons in Hnd as [Hj Hnd]. apply Forall_cons in Hkey as [_ Hkey].
  set (c1 := if Session.has_stream s' j then _ else _).
  assert (Hc1 : sessions c1 = <[k := s']> (sessions c)
    /\ early_event_buffer c1 = early_event_buffer c /\ is_client c1 = is_client c)
    by (unfold c1; by destruct (Session.has_stream s' j)).
  destruct Hc1 as (Hse & Hbu & Hcl). split; [done|done| |].
  - intros i Hi. destruct (Hfree i) as (? & ? & Hui); [by right|].
    rewrite Hcl. split_and!; [by apply seen_old|done|].
    apply (session_event_unowned c c1 k s (SessionR.OpStreamOpened j now') s' e'); try done.
    simpl. rewrite list_elem_of_singleton. by intros ->.
  - rewrite Hse, lookup_insert_eq. by eexists.
Qed.

Lemma replay_datagram c w k data now rest c' e :
  inv c w -> is_Some (sessions c !! k) ->
  replayable c w k true ((now, ProtocolEvent.H3DatagramReceived k data) :: rest) ->
  forall now', recv_datagram c k data now' = (c', e) ->
  inv c' (emits w e) /\ replayable c' (emits w e) k true rest.
Proof.
  intros Hinv [s Hk] [Hkey Hnd Hfree Hpres] now' He. cbn in Hkey, Hnd, Hfree. split.
  { by apply (recv_datagram_inv c w k data now'). }
  unfold recv_datagram in He. rewrite Hk in He.
  destruct (Session.recv_datagram s data) as [s' e'] eqn:Hs. injection He as <- <-.
  apply Forall_cons in Hkey as [_ Hkey]. split; [done|done| |].
  - intros i Hi. destruct (Hfree i) as (? & ? & Hui); [done|].
    split_and!; [by apply seen_old|done|].
    apply (session_event_unowned c _ k s (SessionR.OpRecvDatagram data) s' e'); try done.
    apply not_elem_of_nil.
  - simpl. rewrite lookup_insert_eq. by eexists.
Qed.

(** Without a session, every stream is refused. *)
Lemma replay_absent c w k x rest :
  inv c w -> replayable c w k false (x :: rest) ->
  forall now c' e, replay_event c false x.2 now = (c', e) ->
  inv c' (emits w e) /\ replayable c' (emits w e) k false rest.
Proof.
  intros Hinv [Hkey Hnd Hfree _] now c' e He.
  assert (He' : c' = c /\ answered e = [] /\ asked e = [] /\ connects e = []).
  { destruct x as [at_ ev]. destruct ev; simpl in He; injection He as <- <-; try done.
    split; [done|]. apply reject_stream_silent. }
  destruct He' as (-> & ? & ? & ?). split; [by apply note_inv|].
  apply Forall_cons in Hkey as [_ Hkey]. split; [done| | |done].
  - unfold opened_streams in *. cbn in Hnd. destruct (opened_stream x.2); [|done].
    by apply NoDup_cons in Hnd as [_ ?].
  - intros j Hj. destruct (Hfree j) as (? & ? & ?); [|split_and!; [by apply seen_old|done|done]].
    unfold opened_streams in *. cbn. destruct (opened_stream x.2); [by right|done].
Qed.

Lemma replay_events_inv events : forall c w k present now c' e,
  inv c w -> replayable c w k present events ->
  replay_events c present events now = (c', e) -> inv c' (emits w e).
Proof.
  induction events as [|[at_ event] rest IH]; intros c w k present now c' e Hinv Hrp;
    cbn [replay_events].
  { intros [= <- <-]. by rewrite emits_nil. }
  destruct (replay_event c present event now) as [c1 e1] eqn:H1.
  destruct (replay_events c1 present rest now) as [c2 e2] eqn:H2. intros [= <- <-].
  rewrite <- emits_app.
  assert (inv c1 (emits w e1) /\ replayable c1 (emits w e1) k present rest) as [? ?];
    [|by eapply IH].
  destruct present; [|by eapply (replay_absent c w k (at_, event))].
  pose proof (rp_present _ _ _ _ _ Hrp eq_refl) as Hs.
  pose proof (Forall_inv (rp_keyed _ _ _ _ _ Hrp)) as Hk.
  destruct event; try done; simpl in Hk; subst k; simpl in H1.
  - by eapply replay_datagram.
  - by eapply replay_stream.
Qed.

(** Dropping events from the buffer. *)
Lemma shrink_inv c w buffer count :
  inv c w -> (exists gone, buffered c ≡ₚ gone ++ collect opened_streams buffer) ->
  (forall k events, buffer !! k = Some events -> Forall (event_for k) events.*2) ->
  inv (c <| early_event_buffer := buffer |> <| early_event_count := count |>) w.
Proof.
  intros Hinv [gone Hg] Hkey. rewrite <- (emits_nil w). apply buffer_inv; try done.
  - pose proof (rt_buffered _ _ _ _ _ _ _ (inv_routed c w Hinv)) as Hnd.
    rewrite Hg in Hnd. by apply NoDup_app in Hnd as (_ & _ & ?).
  - intros j Hj. left. rewrite Hg, elem_of_app. by right.
Qed.

Lemma keyed_delete c w k :
  inv c w -> forall k' events', delete k (early_event_buffer c) !! k' = Some events' ->
    Forall (event_for k') events'.*2.
Proof. intros Hinv k' events' [_ Hk]%lookup_delete_Some. by apply (inv_keyed c w Hinv). Qed.

Lemma replay_early_events_inv c w k now c' e :
  inv c w -> replay_early_events c k now = (c', e) -> inv c' (emits w e).
Proof.
  intros Hinv. unfold replay_early_events.
  destruct (early_event_buffer c !! k) as [events|] eqn:Hk;
    [|intros [= <- <-]; by rewrite emits_nil].
  pose proof (collect_delete opened_streams _ _ _ Hk) as Hperm. fold (buffered c) in Hperm.
  destruct (inv_routed c w Hinv) as [_ _ Hst Hnd Hbs].
  rewrite Hperm in Hnd. apply NoDup_app in Hnd as (Hnd & Hdisj & _).
  set (c0 := c <| early_event_buffer := _ |> <| early_event_count := _ |>).
  intros He. apply (replay_events_inv events c0 w k (is_session_stream c0 k) now); [| |exact He].
  - apply shrink_inv; [done|by eexists|by apply (keyed_delete c w)].
  - split; [by apply (inv_keyed c w Hinv)|done| |].
    + intros j Hj. assert (Hb : j ∈ buffered c) by (rewrite Hperm, elem_of_app; by left).
      destruct (Hbs j Hb). split_and!; [done|done|]. split; [by apply Hdisj|].
      intros k' s Hk'. destruct (Session.streams s !! j) as [st|] eqn:E; [|done].
      destruct (Hst k' s j Hk') as (_ & _ & ?); [by eexists|done].
    + intros Hp. by apply bool_decide_eq_true in Hp.
Qed.

(** *** Expiry *)

Lemma opened_streams_split (P : f64 * ProtocolEvent.t -> bool) events :
  opened_streams events
  ≡ₚ opened_streams (filter (fun x => P x = false) events)
     ++ opened_streams (filter (fun x => P x = true) events).
Proof.
  induction events as [|x events IH]; [done|].
  change (x :: events) with ([x] ++ events) at 1. rewrite !filter_cons.
  unfold opened_streams in *. rewrite fmap_app, omap_app, IH.
  destruct (P x); simpl; destruct (opened_stream x.2); simpl; solve_Permutation.
Qed.

Lemma expired_effects_silent events :
  answered (events ≫= expired_effects) = [] /\ asked (events ≫= expired_effects) = []
  /\ connects (events ≫= expired_effects) = [].
Proof.
  induction events as [|x events (IH1 & IH2 & IH3)]; [done|]. rewrite !bind_cons.
  rewrite answered_app, asked_app, connects_app, IH1, IH2, IH3, !app_nil_r.
  unfold expired_effects. destruct (x.2); try done. apply reject_stream_silent.
Qed.

Lemma prune_session_events_inv c w k now c' e :
  inv c w -> prune_session_events c k now = (c', e) -> inv c' (emits w e).
Proof.
  intros Hinv. unfold prune_session_events.
  destruct (early_event_buffer c !! k) as [events|] eqn:Hk;
    [|intros [= <- <-]; by rewrite emits_nil].
  set (valid := filter (fun x => is_valid_event c now x = true) events).
  set (expired := filter (fun x => is_valid_event c now x = false) events).
  set (buffer := if bool_decide (valid = []) then _ else _). intros [= <- <-].
  destruct (expired_effects_silent expired) as (? & ? & ?).
  apply note_inv; try done.
  apply (shrink_inv c w buffer (u64_sub (early_event_count c) (len expired))); try done.
  - exists (opened_streams expired). unfold buffered.
    rewrite (collect_delete _ _ _ _ Hk), (opened_streams_split (is_valid_event c now) events).
    fold valid expired. unfold buffer. destruct (bool_decide_reflect (valid = [])) as [->|_].
    + solve_Permutation.
    + rewrite collect_update. solve_Permutation.
  - unfold buffer. destruct (bool_decide (valid = [])); [by apply (keyed_delete c w)|].
    apply (keyed_insert c w); [done|]. pose proof (inv_keyed c w Hinv k events Hk) as Hall.
    rewrite Forall_fmap, Forall_forall in Hall. apply Forall_fmap, Forall_forall.
    intros x [_ Hx]%list_elem_of_filter. by apply Hall.
Qed.

Lemma prune_each_inv ids now : forall c w c' e,
  inv c w -> prune_each c ids now = (c', e) -> inv c' (emits w e).
Proof.
  induction ids as [|k ids IH]; intros c w c' e Hinv; cbn [prune_each].
  { intros [= <- <-]. by rewrite emits_nil. }
  destruct (prune_session_events c k now) as [c1 e1] eqn:H1.
  destruct (prune_each c1 ids now) as [c2 e2] eqn:H2. intros [= <- <-].
  rewrite <- emits_app. apply (IH c1); [|done]. by eapply prune_session_events_inv.
Qed.

Lemma prune_early_events_inv c w now c' e :
  inv c w -> prune_early_events c now = (c', e) -> inv c' (emits w e).
Proof. intros. by eapply prune_each_inv. Qed.

End ConnR.
