(* ===== verification/ConnectionRequests.v ===== *)
(** * Session requests and the end of a connection

    The operations that create, establish, abandon and destroy sessions, and those
    that open and close the connection, keep the invariant of [ConnectionRuns]. *)

From S2P Require Import Prelude.
From S2P Require Import Types.
From S2P Require Import Events.
From S2P Require Import Utils.
From S2P Require Import StreamMachine.
From S2P Require Import SessionMachine.
From S2P Require Import SessionProps.
From S2P Require Import SessionRuns.
From S2P Require Import SessionTheorems.
From S2P Require Import SessionStreams.
From S2P Require Import ConnectionMachine.
From S2P Require Import ConnectionProps.
From S2P Require Import ConnectionRuns.

Module ConnQ.
Import Connection ConnP ConnR.

(** ** Bookkeeping *)

(** The sessions are untouched: only requests enter, move or are answered. *)
Lemma books_inv c c' w connecting' names entering e :
  inv c w -> sessions c' = sessions c -> stream_map c' = stream_map c ->
  early_event_buffer c' = early_event_buffer c -> is_client c' = is_client c ->
  SessionR.parameters_ok (session_parameters c') -> NoDup (submitted w ++ entering) ->
  own c ++ entering ≡ₚ answered e ++ own c' -> asked e = [] ->
  let w' := next w (creating w) connecting' names ∅ entering e in
  (state c' <> ConnectionState.Closed -> waiting c' w') ->
  (state c' = ConnectionState.Closed -> ended c') -> inv c' w'.
Proof.
  intros [[Hsim Hnm Hst Hb Hbs] Hkey Hdis Hled _ _ _ Hcr Hdes] Hse Hsm Hbu Hcl Hp Hnd Hown Hask w'
    Hwait Hend.
  assert (Hheld : submitted w ++ entering
    ≡ₚ answered (emitted w ++ e) ++ held c' ++ (requester <$> creating w)).
  { unfold held in *. rewrite Hled, answered_app, Hse.
    transitivity (answered (emitted w) ++ (own c ++ entering)
      ++ collect SessionP.requests (sessions c) ++ (requester <$> creating w));
      [solve_Permutation|]. rewrite Hown. solve_Permutation. }
  split; try done; unfold w', next, buffered;
    cbn [submitted emitted creating connecting seen destroyed];
    rewrite ?Hse, ?Hsm, ?Hbu, ?Hcl, ?Hask, ?app_nil_r; try done.
  - split; try done.
    + intros i s Hi. eapply simulated_mono; [by apply Hsim|done|apply submitted_old].
    + intros i s Hi. destruct (Hnm i s Hi) as (? & ? & ?). split_and!; [done|done|by auto with wt].
    + intros i s j Hi Hj. destruct (Hst i s j Hi Hj) as (? & ? & ?).
      split_and!; [done|by auto with wt|done].
    + intros j Hj. destruct (Hbs j Hj). split; [by auto with wt|done].
  - intros x Hx. apply (was_session_next c _ w); [by rewrite Hse|done|by apply Hcr].
  - apply destroyed_next; [apply empty_subseteq|done].
Qed.

(** A new session, not known before, without streams or requests. *)
Lemma add_session_inv c w i s path headers protocols now names :
  inv c w -> state c <> ConnectionState.Closed -> ~ was_session c w i -> i ∈ names \/ i ∈ seen w ->
  pending_session_requests c !! i = None ->
  s = Session.new i path headers protocols (is_client c) (session_parameters c) now ->
  inv (c <| sessions := <[i := s]> (sessions c) |>)
      (next w (creating w) (connecting w) names ∅ [] []).
Proof.
  intros [[Hsim Hnm Hstr Hb Hbs] Hkey Hdis Hled Hp Hwait Hend Hcr Hdes] Hst Hnew Hi Hpen ->.
  assert (Hnone : sessions c !! i = None).
  { destruct (sessions c !! i) eqn:E; [|done]. destruct Hnew. left. by rewrite E. }
  split; unfold next; cbn [submitted emitted creating connecting seen destroyed asked connects omap];
    rewrite ?app_nil_r; try done.
  - split; try done.
    + intros k sk. simpl. rewrite lookup_insert_Some. intros [[<- <-]|[Hne Hk]]; [|by apply Hsim].
      rewrite (mine_none i (creating w)); [by apply simulated_new|].
      intros x Hx <-. by apply Hnew, Hcr.
    + intros k sk. simpl. rewrite lookup_insert_Some. intros [[<- <-]|[Hne Hk]].
      * split_and!; [done|done|]. destruct Hi; auto with wt.
      * destruct (Hnm k sk Hk) as (? & ? & ?). split_and!; [done|done|by auto with wt].
    + intros k sk j. simpl. rewrite lookup_insert_Some. intros [[<- <-]|[Hne Hk]] Hj;
        [by destruct Hj|].
      destruct (Hstr k sk j Hk Hj) as (? & ? & ?). split_and!; [done|by auto with wt|done].
    + intros j Hj. destruct (Hbs j Hj). split; [by auto with wt|done].
  - unfold held, own in *. simpl. rewrite collect_insert by done. exact Hled.
  - intros Hs. eapply waiting_frame; [exact (Hwait Hs)|..]; try done; simpl; auto with wt.
    intros k Hk. unfold was_session. simpl. rewrite (left_id_L ∅ (∪)), lookup_insert_is_Some'.
    split; [intros [?|?]; auto|]. intros [[<-|?]|?]; auto. rewrite Hpen in Hk. by destruct Hk.
  - intros x Hx. unfold was_session. simpl. rewrite (left_id_L ∅ (∪)), lookup_insert_is_Some'.
    destruct (Hcr x Hx); auto.
  - apply destroyed_next; [apply empty_subseteq|done].
Qed.

Lemma next_next w connecting' names entering e :
  let w1 := next w (creating w) (connecting w) names ∅ [] [] in
  next w1 (creating w1) connecting' [] ∅ entering e
  = next w (creating w) connecting' names ∅ entering e.
Proof.
  cbv zeta. unfold next. cbn [creating connecting seen destroyed submitted emitted list_to_set asked connects omap].
  by rewrite !app_nil_r, !(left_id_L ∅ (∪)).
Qed.

Lemma own_insert c c' r request :
  session_requests c !! r = None -> request_id c' = request_id c ->
  session_requests c' = <[r := request]> (session_requests c) -> own c' ≡ₚ r :: own c.
Proof.
  intros Hr Hid Hs. unfold own. rewrite Hid, Hs.
  rewrite (fmap_Permutation fst _ _ (map_to_list_insert _ _ request Hr)). solve_Permutation.
Qed.

Lemma own_delete c c' r :
  is_Some (session_requests c !! r) -> request_id c' = request_id c ->
  session_requests c' = delete r (session_requests c) -> own c ≡ₚ r :: own c'.
Proof.
  intros [request Hr] Hid Hs. apply (own_insert _ _ _ request); [|done|].
  - by rewrite Hs, lookup_delete_eq.
  - by rewrite Hs, insert_delete_id.
Qed.

Lemma held_submitted c w r : inv c w -> is_Some (session_requests c !! r) -> r ∈ submitted w.
Proof.
  intros Hinv [request Hr]. rewrite (inv_ledger c w Hinv). unfold held, own. rewrite !elem_of_app.
  right. left. left. right. apply list_elem_of_fmap. exists (r, request).
  split; [done|]. by apply elem_of_map_to_list.
Qed.

Lemma entering_fresh c w r :
  inv c w -> NoDup (submitted w ++ [r]) -> r ∉ submitted w /\ session_requests c !! r = None.
Proof.
  intros Hinv (_ & Hd & _)%NoDup_app. assert (Hr : r ∉ submitted w).
  { intros Hr. apply (Hd r Hr). by left. }
  split; [done|]. destruct (session_requests c !! r) eqn:E; [|done].
  destruct Hr. apply (held_submitted c w); [done|by eexists].
Qed.

(** ** Asking for a session *)

Lemma create_session_inv c w r request c' e :
  inv c w -> NoDup (submitted w ++ [r]) -> create_session c r request = (c', e) ->
  inv c' (next w (creating w) (connecting w) [] ∅ [r] e).
Proof.
  intros Hinv Hnd. destruct (entering_fresh c w r Hinv Hnd) as [Hr Hnone]. unfold create_session.
  assert (Hfail : forall code reason, (c, connection_failed r code reason) = (c', e) ->
    inv c' (next w (creating w) (connecting w) [] ∅ [r] e)).
  { intros code reason [= <- <-]. apply (answer_inv c w _ []); try done.
    intros x Hx. by apply not_elem_of_nil in Hx. }
  destruct (negb (is_client c)); [by eauto|].
  destruct (is_connected c) eqn:Hcon; cbn [negb]; [|by eauto].
  destruct (peer_goaway_received c); [by eauto|].
  destruct (_ && _); [by eauto|].
  destruct (negb _); [by eauto|]. destruct (with_protocols request) as [req|]; [|by eauto].
  apply bool_decide_eq_true in Hcon. intros [= <- <-].
  apply (books_inv c); try done.
  - by destruct Hinv.
  - transitivity (r :: own c); [solve_Permutation|]. symmetry. by apply (own_insert c _ r req).
  - intros Hst. destruct (inv_waiting c w Hinv Hst) as [Hd Hh Hp Hj].
    assert (Hfresh : r ∉ connecting w ++ blocked_session_requests c).
    { intros Hin. destruct (Hh r Hin). congruence. }
    assert (Hperm : (connecting w ++ [r]) ++ blocked_session_requests c
                    ≡ₚ r :: connecting w ++ blocked_session_requests c) by solve_Permutation.
    split; unfold next; simpl; [..|done].
    + rewrite Hperm. by apply NoDup_cons.
    + intros x. rewrite Hperm, elem_of_cons, lookup_insert_is_Some'. intros [->|Hx]; auto.
    + intros i x Hi. destruct (Hp i x Hi) as (? & Hsub & ? & Hreq).
      assert (x <> r) by congruence. rewrite lookup_insert_ne by done.
      rewrite Hperm, not_elem_of_cons, elem_of_app.
      split_and!; [by apply elem_of_union_r|by left|done|done|].
      rewrite Hreq. symmetry. by apply was_session_next.
  - simpl. by rewrite Hcon.
Qed.

(** ** What the transport answers *)

Lemma defer_session_inv c w r connecting' c' e :
  inv c w -> connecting w ≡ₚ r :: connecting' -> defer_session c r = (c', e) ->
  inv c' (next w (creating w) connecting' [] ∅ [] e).
Proof.
  intros Hinv Hc [= <- <-]. apply (books_inv c); try done.
  - by destruct Hinv.
  - rewrite app_nil_r. by destruct Hinv.
  - by rewrite app_nil_r.
  - intros Hst. destruct (inv_waiting c w Hinv Hst) as [Hd Hh Hp Hj].
    assert (Hperm : (connecting' ++ []) ++ blocked_session_requests c ++ [r]
                    ≡ₚ connecting w ++ blocked_session_requests c)
      by (rewrite Hc; solve_Permutation).
    split; unfold next; simpl; rewrite ?app_nil_r in *; [..|done].
    + by rewrite Hperm.
    + intros x. rewrite Hperm. apply Hh.
    + intros i x Hi. destruct (Hp i x Hi) as (? & ? & ? & Hreq). rewrite Hperm.
      split_and!; [by apply elem_of_union_r|done|done|].
      rewrite Hreq. symmetry. by apply was_session_next.
  - intros Hst. apply (ended_frame c); try done; [exact (inv_ended c w Hinv Hst)|auto].
Qed.

Lemma fail_session_inv c w r code reason connecting' c' e :
  inv c w -> state c <> ConnectionState.Closed -> connecting w ≡ₚ r :: connecting' ->
  fail_session c r code reason = (c', e) ->
  inv c' (next w (creating w) connecting' [] ∅ [] e).
Proof.
  intros Hinv Hst Hc [= <- <-]. destruct (inv_waiting c w Hinv Hst) as [Hd Hh Hp Hj].
  assert (Hr : r ∈ connecting w ++ blocked_session_requests c)
    by (rewrite Hc; by left).
  rewrite Hc, <- app_comm_cons, NoDup_cons in Hd. destruct Hd as [Hnr Hd].
  apply (books_inv c); try done.
  - by destruct Hinv.
  - rewrite app_nil_r. by destruct Hinv.
  - rewrite app_nil_r. simpl. apply own_delete; auto.
  - intros _. split; unfold next; simpl; rewrite ?app_nil_r; [done|..|done].
    + intros x Hx. rewrite lookup_delete_ne by (intros ->; done). apply Hh. rewrite Hc. by right.
    + intros i x Hi. destruct (Hp i x Hi) as (? & ? & Hx & Hreq).
      assert (x <> r) by (intros ->; done). rewrite lookup_delete_ne by done.
      split_and!; [by apply elem_of_union_r|done| |].
      * intros Hin. apply Hx. rewrite Hc. by right.
      * rewrite Hreq. symmetry. by apply was_session_next.
Qed.

(** A CONNECT stream is there: the session exists from now on if the user did not
    want to wait for the response. *)
Lemma waiting_bind c c' w w' i r connecting' :
  waiting c w -> connecting w ≡ₚ r :: connecting' -> connecting w' = connecting' ->
  i ∉ seen w -> i ∈ seen w' -> seen w ⊆ seen w' -> submitted w' = submitted w ->
  r ∈ submitted w -> blocked_session_requests c' = blocked_session_requests c ->
  pending_session_requests c' = <[i := r]> (pending_session_requests c) ->
  (forall x, x <> r -> session_requests c' !! x = session_requests c !! x) ->
  (session_requests c' !! r = None <-> was_session c' w' i) ->
  (forall k, k <> i -> was_session c' w' k <-> was_session c w k) -> waiting c' w'.
Proof.
  intros [Hd Hh Hp Hj] Hc Hc' Hi Hi' Hseen Hsub Hr Hb Hpe Hreq Hreqr Hwas.
  rewrite Hc, <- app_comm_cons, NoDup_cons in Hd. destruct Hd as [Hnr Hd].
  assert (Hin : forall x, x ∈ connecting' ++ blocked_session_requests c ->
    x ∈ connecting w ++ blocked_session_requests c) by (intros x Hx; rewrite Hc; by right).
  assert (Hrp : forall k, pending_session_requests c !! k <> Some r).
  { intros k Hk. destruct (Hp k r Hk) as (_ & _ & Hno & _). apply Hno. rewrite Hc. by left. }
  split; rewrite ?Hc', ?Hb, ?Hpe.
  - done.
  - intros x Hx. rewrite Hreq by (intros ->; done). by apply Hh, Hin.
  - intros k x. rewrite lookup_insert_Some. intros [[<- <-]|[Hne Hk]].
    + split_and!; [done|by rewrite Hsub|done|done].
    + destruct (Hp k x Hk) as (? & ? & Hx & Hxr). rewrite Hsub.
      assert (x <> r) by (intros ->; by apply (Hrp k)).
      rewrite Hreq, Hxr, Hwas by done. split_and!; [by apply Hseen|done| |done].
      intros Hin'. by apply Hx, Hin.
  - intros k j x. rewrite !lookup_insert_Some.
    intros [[<- <-]|[Hne Hk]] [[<- Hx]|[Hne' Hj']]; [done|by apply Hrp in Hj'| |by eapply Hj].
    subst x. by apply Hrp in Hk.
Qed.

Lemma bind_session_inv c w i r connecting' c' e :
  inv c w -> state c <> ConnectionState.Closed -> connecting w ≡ₚ r :: connecting' ->
  i ∉ seen w -> bind_session c i r = (c', e) ->
  inv c' (next w (creating w) connecting' [i] ∅ [] e).
Proof.
  intros Hinv Hst Hc Hi. pose proof (inv_waiting c w Hinv Hst) as Hw.
  assert (Hr : is_Some (session_requests c !! r))
    by (apply (wait_held c w Hw); rewrite Hc; by left).
  pose proof (held_submitted c w r Hinv Hr) as Hrs.
  assert (Hnew : ~ was_session c w i).
  { intros [[s Hs]|Hd]; [|by apply Hi, (inv_destroyed c w Hinv)].
    by destruct (rt_named _ _ _ _ _ _ _ (inv_routed c w Hinv) i s Hs) as (_ & _ & ?). }
  assert (Hnd : NoDup (submitted w ++ [])) by (rewrite app_nil_r; by destruct Hinv).
  destruct Hr as [req Hr]. unfold bind_session. simpl. rewrite Hr.
  destruct (SessionRequest.optimistic req); intros [= <- <-].
  - set (w1 := next w (creating w) (connecting w) [i] ∅ [] []).
    eapply (add_session_inv c w i _ _ _ _ _ [i]) in Hinv as Hinv1; try done; [|by left; left|].
    + rewrite <- next_next. apply (books_inv _ _ w1 connecting' [] [] _ Hinv1); try done.
      * by destruct Hinv.
      * by rewrite app_nil_r.
      * rewrite app_nil_r. by apply own_delete.
      * intros _. unfold w1. rewrite next_next.
        eapply (waiting_bind c _ w); try done; simpl.
        -- by rewrite app_nil_r.
        -- set_solver.
        -- set_solver.
        -- by rewrite app_nil_r.
        -- intros x Hx. by rewrite lookup_delete_ne.
        -- rewrite lookup_delete_eq. split; [|done]. intros _. left. simpl.
           rewrite lookup_insert_eq. by eexists.
        -- intros k Hk. apply was_session_next; [|done]. simpl. by rewrite lookup_insert_ne.
    + destruct (pending_session_requests c !! i) as [x|] eqn:E; [|done].
      by destruct (wait_pending c w Hw i x E).
  - apply (books_inv c); try done.
    + by destruct Hinv.
    + by rewrite app_nil_r.
    + intros _. eapply (waiting_bind c _ w); try done; simpl.
      * by rewrite app_nil_r.
      * set_solver.
      * set_solver.
      * by rewrite app_nil_r.
      * rewrite Hr. split; [done|]. intros H. destruct Hnew.
        by apply (was_session_next c _ w _ i) in H.
      * intros k Hk. by apply was_session_next.
Qed.

(** ** The response of the peer *)

(** The request [r] waits for nothing any more. *)
Definition settled (c : t) (w : world) (r : RequestId) : Prop :=
  r ∉ connecting w ++ blocked_session_requests c
  /\ forall i, pending_session_requests c !! i <> Some r.

(** The response to the request [r] arrived on the stream [i]. *)
Lemma take_response c w i r :
  inv c w -> pending_session_requests c !! i = Some r ->
  let c0 := c <| pending_session_requests := delete i (pending_session_requests c) |> in
  inv c0 w /\ state c <> ConnectionState.Closed /\ i ∈ seen w /\ settled c0 w r
  /\ (session_requests c !! r = None <-> was_session c w i).
Proof.
  intros Hinv Hi c0. assert (Hst : state c <> ConnectionState.Closed).
  { intros Hst. destruct (inv_ended c w Hinv Hst) as [_ Hp _ _]. by rewrite Hp in Hi. }
  destruct (inv_waiting c w Hinv Hst) as [Hd Hh Hp Hj].
  destruct (Hp i r Hi) as (Hseen & _ & Hr & Hreq). split; [|split_and!; try done; split; [done|]].
  - rewrite <- (emits_nil w). apply (books_inv c); try done.
    + by destruct Hinv.
    + rewrite app_nil_r. by destruct Hinv.
    + by rewrite app_nil_r.
    + intros _. rewrite (emits_nil w : next _ _ _ _ _ _ _ = w). split; try done; simpl.
      * intros k x [_ Hk]%lookup_delete_Some. by apply Hp.
      * intros k j x [_ Hk]%lookup_delete_Some [_ Hk']%lookup_delete_Some. by eapply Hj.
  - intros k Hk. unfold c0 in Hk. simpl in Hk. apply lookup_delete_Some in Hk as [Hne Hk]. by destruct (Hj i k r).
Qed.

(** A settled request is answered and leaves the table. *)
Lemma drop_request_inv c w r e :
  inv c w -> state c <> ConnectionState.Closed -> is_Some (session_requests c !! r) ->
  settled c w r -> answered e = [r] -> asked e = [] -> connects e = [] ->
  inv (c <| session_requests := delete r (session_requests c) |>) (emits w e).
Proof.
  intros Hinv Hst Hr [Hnc Hnp] Ha Hask Hcon.
  destruct (inv_waiting c w Hinv Hst) as [Hd Hh Hp Hj].
  apply (books_inv c); try done.
  - by destruct Hinv.
  - rewrite app_nil_r. by destruct Hinv.
  - rewrite app_nil_r, Ha. by apply own_delete.
  - intros _. split; unfold next; cbn [connecting]; rewrite ?Hcon, ?app_nil_r; try done; simpl.
    + intros x Hx. rewrite lookup_delete_ne by (intros ->; done). by apply Hh.
    + intros k x Hk. destruct (Hp k x Hk) as (? & ? & ? & Hreq).
      rewrite ?Hcon, ?app_nil_r, lookup_delete_ne by (intros ->; by apply (Hnp k)).
      split_and!; [by apply elem_of_union_r|done|done|].
      rewrite Hreq. symmetry. by apply was_session_next.
Qed.

Lemma absent_request c r :
  session_requests c !! r = None ->
  c <| session_requests := delete r (session_requests c) |> = c.
Proof. intros Hr. destruct c. cbn in *. by rewrite delete_id. Qed.

(** An event of a present session that carries no request. *)
Lemma session_emits_inv c w i s o s' e :
  inv c w -> sessions c !! i = Some s -> broadcast o -> SessionR.step o s = (s', e) ->
  inv (c <| sessions := <[i := s']> (sessions c) |>) (emits w e).
Proof.
  intros Hinv Hi Ho Hs. apply (each_session_inv o [i] c w); [done|done|].
  cbn [each_session]. unfold with_session. by rewrite Hi, Hs, app_nil_r.
Qed.

Lemma establish_session_inv c w i r protocol now c' e :
  inv c w -> state c <> ConnectionState.Closed -> i ∈ seen w -> settled c w r ->
  pending_session_requests c !! i = None ->
  (session_requests c !! r = None <-> was_session c w i) ->
  establish_session c i r protocol now = (c', e) -> inv c' (emits w e).
Proof.
  intros Hinv Hst Hi Hset Hpen Hreq. unfold establish_session.
  assert (Hcf : broadcast (SessionR.OpConfirm protocol now)) by done.
  destruct (sessions c !! i) as [s|] eqn:Hs.
  - destruct (Session.confirm s protocol now) as [s' e'] eqn:Hc. intros [= <- <-].
    by eapply session_emits_inv.
  - destruct (session_requests c !! r) as [req|] eqn:Hr;
      [|intros [= <- <-]; by rewrite emits_nil].
    change (session_of_request _ i req) with (session_of_request c i req).
    destruct (Session.confirm _ protocol now) as [s' e'] eqn:Hc. intros [= <- <-].
    pose proof (Hc : SessionR.step (SessionR.OpConfirm protocol now) _ = _) as Hc'.
    assert (Hinv1 : inv (c <| sessions := <[i := session_of_request c i req]> (sessions c) |>) w).
    { rewrite <- (emits_nil w). eapply add_session_inv; try done; [|by right].
      intros Hwas. by apply Hreq in Hwas. }
    rewrite <- emits_app.
    eapply session_emits_inv in Hinv1; [|apply lookup_insert_eq|exact Hcf|exact Hc].
    simpl in Hinv1. rewrite insert_insert_eq in Hinv1.
    eapply (drop_request_inv _ _ r) in Hinv1; [exact Hinv1|done|by exists req| |done..].
    destruct Hset. split; [|done]. simpl. by rewrite (step_connects _ _ _ _ Hc'), app_nil_r.
Qed.

Lemma abandon_session_inv c w i r code reason now c' e :
  inv c w -> state c <> ConnectionState.Closed -> settled c w r ->
  (session_requests c !! r = None <-> is_Some (sessions c !! i)) ->
  abandon_session (c <| session_requests := delete r (session_requests c) |>) i r code reason now
    = (c', e) -> inv c' (emits w e).
Proof.
  intros Hinv Hst Hset Hreq. unfold abandon_session, with_session. simpl.
  destruct (sessions c !! i) as [s|] eqn:Hs.
  - rewrite absent_request by (apply Hreq; by eexists).
    destruct (Session.abort s code reason now) as [s' e'] eqn:Ha. intros [= <- <-].
    by apply (session_emits_inv c w i s (SessionR.OpAbort code reason now)).
  - intros [= <- <-]. apply drop_request_inv; try done.
    destruct (session_requests c !! r) eqn:E; [by eexists|].
    destruct Hreq as [Hreq _]. by destruct (Hreq eq_refl).
Qed.

Lemma recv_response_inv c w i headers now c' e :
  inv c w -> i ∉ destroyed w -> recv_response c i headers now = (c', e) -> inv c' (emits w e).
Proof.
  intros Hinv Hi. unfold recv_response.
  destruct (pending_session_requests c !! i) as [r|] eqn:Hp;
    [|intros [= <- <-]; by rewrite emits_nil].
  destruct (take_response c w i r Hinv Hp) as (Hinv0 & Hst & Hseen & Hset & Hreq).
  set (c0 := c <| pending_session_requests := _ |>) in *.
  assert (Hreq' : session_requests c0 !! r = None <-> is_Some (sessions c0 !! i)).
  { etransitivity; [exact Hreq|]. unfold was_session. simpl. split; [intros [?|?]; done|by left]. }
  destruct (offered_protocols c0 i r) as [offered|] eqn:Hof.
  - destruct (bool_decide _).
    + destruct (is_valid_protocol offered _).
      * destruct (establish_session c0 i r _ now) as [c1 e1] eqn:He.
        destruct (replay_early_events c1 i now) as [c2 e2] eqn:Hr. intros [= <- <-].
        rewrite <- emits_app. eapply replay_early_events_inv; [|exact Hr].
        eapply (establish_session_inv c0 w i r); try done. simpl. apply lookup_delete_eq.
      * replace (if is_session_stream c0 i then c0 else _)
          with (c0 <| session_requests := delete r (session_requests c0) |>).
        -- by apply abandon_session_inv.
        -- unfold is_session_stream. destruct (bool_decide_reflect (is_Some (sessions c0 !! i)));
             [|done]. apply absent_request. by apply Hreq'.
    + destruct (abandon_session _ i r _ _ now) as [c1 e1] eqn:He.
      destruct (replay_early_events c1 i now) as [c2 e2] eqn:Hr. intros [= <- <-].
      rewrite <- emits_app. eapply replay_early_events_inv; [|exact Hr].
      by eapply (abandon_session_inv c0 w i r).
  - unfold offered_protocols in Hof. destruct (sessions c0 !! i) eqn:Hs; [done|].
    destruct (session_requests c0 !! r) eqn:Hr; [done|].
    destruct Hreq' as [Hreq' _]. by destruct (Hreq' eq_refl).
Qed.

(** ** The request of a client, at the server *)

Lemma known_session c w i : inv c w -> was_session c w i -> i ∈ seen w.
Proof.
  intros Hinv [[s Hs]|Hd]; [|by apply (inv_destroyed c w Hinv)].
  by destruct (rt_named _ _ _ _ _ _ _ (inv_routed c w Hinv) i s Hs) as (_ & _ & ?).
Qed.

Lemma recv_request_inv c w i headers now c' e :
  inv c w -> is_Some (sessions c !! i) \/ i ∉ seen w ->
  recv_request c i headers now = (c', e) ->
  inv c' (next w (creating w) (connecting w) [i] ∅ [] e).
Proof.
  intros Hinv Hi. unfold recv_request.
  assert (Hrefuse : forall status, (c, refuse_request i status) = (c', e) ->
    inv c' (next w (creating w) (connecting w) [i] ∅ [] e))
    by (intros status [= <- <-]; by apply note_inv).
  destruct (is_session_stream c i) eqn:Hs; [intros [= <- <-]; by apply note_inv|].
  destruct (is_connected c) eqn:Hcon; cbn [negb]; [|by eauto].
  destruct (local_goaway_sent c); [by eauto|]. destruct (_ && _); [by eauto|].
  destruct (negb _); [by eauto|].
  apply bool_decide_eq_true in Hcon. apply bool_decide_eq_false in Hs.
  destruct Hi as [Hi|Hi]; [done|].
  assert (Hw : waiting c w) by (apply (inv_waiting c w Hinv); by rewrite Hcon).
  set (s := Session.new _ _ _ _ _ _ _).
  assert (Hinv1 : inv (c <| sessions := <[i := s]> (sessions c) |>)
                      (next w (creating w) (connecting w) [i] ∅ [] [])).
  { eapply add_session_inv; try done; [by rewrite Hcon|by intros ?%(known_session c w i Hinv)
      |by left; left|].
    destruct (pending_session_requests c !! i) as [x|] eqn:E; [|done].
    by destruct (wait_pending c w Hw i x E). }
  destruct (replay_early_events _ i now) as [c1 e1] eqn:Hr. intros [= <- <-].
  change (?x :: e1) with ([] ++ [x] ++ e1). rewrite <- next_emits, <- emits_app.
  eapply replay_early_events_inv; [|exact Hr]. by apply note_inv.
Qed.

Lemma recv_headers_inv c w i headers now c' e :
  inv c w -> i ∉ destroyed w ->
  (is_client c = false -> is_Some (sessions c !! i) \/ i ∉ seen w) ->
  recv_headers c i headers now = (c', e) ->
  inv c' (next w (creating w) (connecting w) (if is_client c then [] else [i]) ∅ [] e).
Proof.
  intros Hinv Hd Hi. unfold recv_headers. destruct (is_client c).
  - by apply recv_response_inv.
  - apply recv_request_inv; auto.
Qed.

(** ** Destroying closed sessions *)

Definition closed_sessions (c : t) : gset SessionId :=
  dom (filter (fun '(_, session) => Session.is_closed session = true) (sessions c)).

Lemma elem_of_closed c i :
  i ∈ closed_sessions c <-> exists s, sessions c !! i = Some s /\ Session.is_closed s = true.
Proof.
  unfold closed_sessions. rewrite elem_of_dom. unfold is_Some.
  setoid_rewrite map_lookup_filter_Some. done.
Qed.

Lemma closed_requests c w i s :
  inv c w -> sessions c !! i = Some s -> Session.is_closed s = true -> SessionP.requests s = [].
Proof.
  intros Hinv Hi Hc. pose proof (rt_simulated _ _ _ _ _ _ _ (inv_routed c w Hinv) i s Hi) as Hs.
  destruct (simulated_wf _ _ _ Hs) as [Hwf _]. apply (SessionP.wf_ended s Hwf).
  unfold Session.is_active. apply bool_decide_eq_true in Hc. by rewrite Hc.
Qed.

Lemma collect_filter {A B} (f : A -> list B) (P : Z * A -> Prop) `{!forall x, Decision (P x)}
    (m : gmap Z A) :
  (forall i x, m !! i = Some x -> ~ P (i, x) -> f x = []) ->
  collect f (filter P m) ≡ₚ collect f m.
Proof.
  induction m as [|i x m Hi IH] using map_ind; intros Hf; [by rewrite map_filter_empty|].
  rewrite (collect_insert _ _ _ _ Hi), <- IH.
  - destruct (decide (P (i, x))) as [HP|HP].
    + rewrite map_filter_insert_True by done. apply collect_insert.
      rewrite map_lookup_filter_None. by left.
    + rewrite map_filter_insert_False, delete_id by done.
      by rewrite (Hf i x (lookup_insert_eq _ _ _) HP).
  - intros j y Hj. apply (Hf j y). rewrite lookup_insert_ne; [done|]. congruence.
Qed.

Lemma prune_resources_inv c w :
  inv c w -> inv (prune_resources c) (next w (creating w) (connecting w) [] (closed_sessions c) [] []).
Proof.
  intros Hinv. pose proof Hinv as [[Hsim Hnm Hst Hb Hbs] Hkey Hdis Hled Hp Hwait Hend Hcr Hdes].
  assert (Hwas : forall i, was_session c w i <-> was_session (prune_resources c)
    (next w (creating w) (connecting w) [] (closed_sessions c) [] []) i).
  { intros i. unfold was_session, is_Some. simpl. rewrite elem_of_union, elem_of_closed.
    setoid_rewrite map_lookup_filter_Some. split.
    - intros [[s Hs]|?]; [|auto]. destruct (Session.is_closed s) eqn:E; [right; left|left]; eauto.
    - intros [[s [Hs _]]|[[s [Hs _]]|?]]; eauto. }
  split; try done.
  - split; simpl; rewrite ?app_nil_r; try done.
    + intros i s [Hi _]%map_lookup_filter_Some. by apply Hsim.
    + intros i s [Hi _]%map_lookup_filter_Some. destruct (Hnm i s Hi) as (? & ? & ?).
      split_and!; [done|done|by apply elem_of_union_r].
    + intros i s j [Hi Hs]%map_lookup_filter_Some Hj. destruct (Hst i s j Hi Hj) as (? & ? & ?).
      split_and!; [|by apply elem_of_union_r|done].
      apply map_lookup_filter_Some. split; [done|]. unfold is_session_closed. by rewrite Hi.
    + intros j Hj. destruct (Hbs j Hj). split; [by apply elem_of_union_r|done].
  - simpl. by rewrite app_nil_r.
  - simpl. rewrite !app_nil_r. unfold held. simpl. rewrite collect_filter; [exact Hled|].
    intros i s Hi Hn. eapply closed_requests; [done..|]. by destruct (Session.is_closed s).
  - intros Hs. eapply waiting_frame; [exact (Hwait Hs)|..]; try done; simpl;
      rewrite ?app_nil_r; try done. by apply union_subseteq_r.
  - intros Hs. apply (ended_frame c); try done; [exact (Hend Hs)|].
    intros i s [Hi _]%map_lookup_filter_Some. by left.
  - intros x Hx. apply Hwas, Hcr. simpl in Hx. by rewrite app_nil_r in Hx.
  - apply destroyed_next; [|done]. intros i (s & Hs & _)%elem_of_closed.
    apply (known_session c w); [done|]. left. by eexists.
Qed.

End ConnQ.
