(* ===== verification/ConnectionSteps.v ===== *)
(** * Every step of a connection

    The operations on the connection itself keep the invariant, and so does every
    event a connection can see.  Runs are lists of such events. *)

From S2P Require Import Prelude.
From S2P Require Import Types.
From S2P Require Import Events.
From S2P Require Import Utils.
From S2P Require Import StreamMachine.
From S2P Require Import SessionMachine.
From S2P Require Import SessionProps.
From S2P Require Import SessionRuns.
From S2P Require Import SessionTheorems.
From S2P Require Import SessionStreams.
From S2P Require Import ConnectionMachine.
From S2P Require Import ConnectionProps.
From S2P Require Import ConnectionRuns.
From S2P Require Import ConnectionRequests.

Module ConnS.
Import Connection ConnP ConnR ConnQ.

(** ** The connection itself *)

(** Only fields that route nothing and hold no request change. *)
Lemma update_inv c c' w entering e :
  inv c w -> sessions c' = sessions c -> stream_map c' = stream_map c ->
  early_event_buffer c' = early_event_buffer c -> is_client c' = is_client c ->
  SessionR.parameters_ok (session_parameters c') ->
  blocked_session_requests c' = blocked_session_requests c ->
  session_requests c' = session_requests c ->
  pending_session_requests c' = pending_session_requests c ->
  (state c' = ConnectionState.Closed <-> state c = ConnectionState.Closed) ->
  (state c = ConnectionState.Closed -> request_id c' = None) ->
  NoDup (submitted w ++ entering) ->
  option_list (request_id c) ++ entering ≡ₚ answered e ++ option_list (request_id c') ->
  asked e = [] -> connects e = [] ->
  inv c' (next w (creating w) (connecting w) [] ∅ entering e).
Proof.
  intros Hinv Hse Hsm Hbu Hcl Hp Hbl Hsr Hpe Hst Hrid Hnd Hown Hask Hcon.
  apply (books_inv c); try done.
  - unfold own. rewrite Hsr. transitivity ((option_list (request_id c) ++ entering)
      ++ (map_to_list (session_requests c)).*1); [solve_Permutation|].
    rewrite Hown. solve_Permutation.
  - intros Hs. eapply waiting_frame; [apply (inv_waiting c w Hinv); by rewrite <- Hst|..];
      try done; simpl; rewrite ?Hcon, ?app_nil_r; auto with wt.
    intros i _. symmetry. apply was_session_next; [by rewrite Hse|done].
  - intros Hs. apply Hst in Hs. destruct (inv_ended c w Hinv Hs).
    split; [congruence|congruence|auto|]. intros i s. rewrite Hse. eauto.
Qed.

Lemma nodup_same c w : inv c w -> NoDup (submitted w ++ []).
Proof. intros []. by rewrite app_nil_r. Qed.

Lemma open_connection_inv c w now c' e :
  inv c w -> state c <> ConnectionState.Closed -> open c now = (c', e) -> inv c' (emits w e).
Proof.
  intros Hinv Hst. unfold open. simpl.
  assert (Hp : SessionR.parameters_ok (session_parameters c)) by by destruct Hinv.
  destruct (request_id c) as [r|] eqn:Hr; intros [= <- <-];
    apply (update_inv c); try done; try (by apply (nodup_same c)); simpl; rewrite ?Hr; done.
Qed.

Lemma handle_handshake_completed_inv c w now c' e :
  inv c w -> handle_handshake_completed c now = (c', e) -> inv c' (emits w e).
Proof.
  intros Hinv. unfold handle_handshake_completed.
  assert (Hp : SessionR.parameters_ok (session_parameters c)) by by destruct Hinv.
  set (c1 := if bool_decide (state c = ConnectionState.Idle) then _ else _).
  assert (Hinv1 : inv c1 w).
  { unfold c1. destruct (bool_decide_reflect (state c = ConnectionState.Idle)) as [E|_]; [|done].
    rewrite <- (emits_nil w). apply (update_inv c); try done; try (by apply (nodup_same c)).
    - simpl. by rewrite E.
    - by rewrite E.
    - by rewrite app_nil_r. }
  clearbody c1. clear Hp. assert (Hp : SessionR.parameters_ok (session_parameters c1)) by by destruct Hinv1.
  destruct (bool_decide_reflect (state c1 = ConnectionState.Connecting)) as [E|_]; cbn [negb];
    [|intros [= <- <-]; by rewrite emits_nil].
  assert (Hinv2 : inv (c1 <| handshake_completed := true |>) (emits w [Effect.CreateH3LocalStreams])).
  { apply (update_inv c1); try done; try (by apply (nodup_same c1)).
    - by rewrite E.
    - by rewrite app_nil_r. }
  destruct (_ || _); [|intros [= <- <-]; done].
  destruct (open _ now) as [c2 e2] eqn:Ho. intros [= <- <-].
  change (?x :: e2) with ([x] ++ e2). rewrite <- emits_app.
  eapply open_connection_inv; [exact Hinv2| |exact Ho]. simpl. by rewrite E.
Qed.

(** Limits in SETTINGS are varints. *)
Definition settings_ok (settings : H3Settings.t) : Prop :=
  (forall v, H3Settings.wt_initial_max_data settings = Some v -> 0 <= v <= QUIC_VARINT_LIMIT)
  /\ (forall v, H3Settings.wt_initial_max_streams_bidi settings = Some v -> is_u64 v)
  /\ (forall v, H3Settings.wt_initial_max_streams_uni settings = Some v -> is_u64 v).

Lemma recv_settings_inv c w settings now c' e :
  inv c w -> settings_ok settings -> recv_settings c settings now = (c', e) ->
  inv c' (emits w e).
Proof.
  intros Hinv (H1 & H2 & H3). unfold recv_settings.
  set (c1 := c <| peer_settings_received := true |> <| peer_initial_max_data := _ |>
               <| peer_initial_max_streams_bidi := _ |> <| peer_initial_max_streams_uni := _ |>).
  assert (Hp : SessionR.parameters_ok (session_parameters c1)).
  { destruct (inv_parameters c w Hinv). split; try done; simpl.
    - destruct (H3Settings.wt_initial_max_data settings); [by apply H1|done].
    - destruct (H3Settings.wt_initial_max_streams_bidi settings); [by apply H2|done].
    - destruct (H3Settings.wt_initial_max_streams_uni settings); [by apply H3|done]. }
  assert (Hinv1 : inv c1 w).
  { rewrite <- (emits_nil w). apply (update_inv c); try done; try (by apply (nodup_same c)).
    - intros Hs. by destruct (inv_ended c w Hinv Hs).
    - by rewrite app_nil_r. }
  destruct (bool_decide_reflect (state c1 = ConnectionState.Connecting)) as [E|_]; cbn [andb];
    [|intros [= <- <-]; by rewrite emits_nil].
  destruct (handshake_completed c1); [|intros [= <- <-]; by rewrite emits_nil].
  apply open_connection_inv; [done|by rewrite E].
Qed.

Lemma recv_transport_parameters_inv c w size c' e :
  inv c w -> recv_transport_parameters c size = (c', e) -> inv c' (emits w e).
Proof.
  intros Hinv [= <- <-]. apply (update_inv c); try done; try (by apply (nodup_same c)).
  - by destruct Hinv.
  - intros Hs. by destruct (inv_ended c w Hinv Hs).
  - by rewrite app_nil_r.
Qed.

Lemma close_inv c w r code reason now c' e :
  inv c w -> NoDup (submitted w ++ option_list r) -> close c r code reason now = (c', e) ->
  inv c' (next w (creating w) (connecting w) [] ∅ (option_list r) e).
Proof.
  intros Hinv Hnd. unfold close.
  assert (Hp : SessionR.parameters_ok (session_parameters c)) by by destruct Hinv.
  assert (Ha : answered (request_done <$> option_list r) = option_list r) by by destruct r.
  assert (Hend : state c = ConnectionState.Closed -> request_id c = None)
    by (intros Hs; by destruct (inv_ended c w Hinv Hs)).
  destruct (state c) eqn:E; intros [= <- <-]; apply (update_inv c); try done;
    try (simpl; by rewrite ?E); try (simpl; rewrite Ha; solve_Permutation); by destruct r.
Qed.

Lemma answers_all rs (f : RequestId -> list Effect.t) :
  (forall r, answered (f r) = [r] /\ asked (f r) = [] /\ connects (f r) = []) ->
  answered (rs ≫= f) = rs /\ asked (rs ≫= f) = [] /\ connects (rs ≫= f) = [].
Proof.
  intros Hf. induction rs as [|r rs (IH1 & IH2 & IH3)]; [done|].
  destruct (Hf r) as (H1 & H2 & H3).
  by rewrite bind_cons, answered_app, asked_app, connects_app, H1, H2, H3, IH1, IH2, IH3.
Qed.

Lemma drain_broadcast : broadcast SessionR.OpDrain.
Proof. done. Qed.

Lemma emits_next w entering e1 e2 :
  let w1 := emits w e1 in
  next w1 (creating w1) (connecting w1) [] ∅ entering e2
  = next w (creating w) (connecting w) [] ∅ entering (e1 ++ e2).
Proof.
  unfold emits, next. cbn [creating connecting seen destroyed submitted emitted list_to_set].
  by rewrite asked_app, connects_app, !app_assoc, app_nil_r, !(left_id_L ∅ (∪)).
Qed.

Lemma close_gracefully_inv c w r c' e :
  inv c w -> NoDup (submitted w ++ [r]) -> close_gracefully c r = (c', e) ->
  inv c' (next w (creating w) (connecting w) [] ∅ [r] e).
Proof.
  intros Hinv Hnd. unfold close_gracefully.
  destruct (is_connected c); cbn [negb].
  - set (ce := if negb (local_goaway_sent c) then _ else _).
    assert (Hinv1 : inv ce.1 (emits w ce.2)).
    { unfold ce. destruct (negb _); simpl; [|by rewrite emits_nil].
      apply (update_inv c); try done; try (by apply (nodup_same c)).
      - by destruct Hinv.
      - intros Hs. by destruct (inv_ended c w Hinv Hs).
      - by rewrite app_nil_r. }
    destruct ce as [c1 e1]. simpl in Hinv1.
    destruct (all_sessions c1 Session.drain) as [c2 e2] eqn:Hd. intros [= <- <-].
    apply (all_sessions_inv SessionR.OpDrain _ _ _ _ drain_broadcast Hinv1) in Hd as Hinv2.
    rewrite emits_app in Hinv2. rewrite app_assoc, <- emits_next.
    apply (answer_inv c2 _ _ []); try done.
    + intros x Hx. by apply not_elem_of_nil in Hx.
    + simpl. by rewrite app_nil_r.
  - intros [= <- <-]. apply (answer_inv c w _ []); try done.
    intros x Hx. by apply not_elem_of_nil in Hx.
Qed.

(** ** Streams become available *)

Lemma retry_held c w :
  inv c w -> state c <> ConnectionState.Closed ->
  forall rs, (forall r, r ∈ rs -> is_Some (session_requests c !! r)) ->
  connects (omap (retry_session c) rs) = rs
  /\ answered (omap (retry_session c) rs) = [] /\ asked (omap (retry_session c) rs) = [].
Proof.
  intros Hinv Hst rs. induction rs as [|r rs IH]; intros Hrs; [done|].
  destruct (Hrs r) as [request Hr]; [by left|].
  destruct IH as (IH1 & IH2 & IH3); [intros x Hx; apply Hrs; by right|].
  assert (E : omap (retry_session c) (r :: rs)
              = connect_effect r request :: omap (retry_session c) rs)
    by (cbn; unfold retry_session at 1; by rewrite Hr).
  rewrite E. split_and!; [exact (f_equal (cons r) IH1)|exact IH2|exact IH3].
Qed.

Lemma retry_sessions_inv c w :
  inv c w -> inv (c <| blocked_session_requests := [] |>)
                 (emits w (omap (retry_session c) (blocked_session_requests c))).
Proof.
  intros Hinv. set (e := omap _ _).
  assert (Hp : SessionR.parameters_ok (session_parameters c)) by by destruct Hinv.
  assert (He : answered e = [] /\ asked e = []
    /\ (state c <> ConnectionState.Closed -> connects e = blocked_session_requests c)).
  { destruct (decide (state c = ConnectionState.Closed)) as [Hs|Hs].
    - destruct (inv_ended c w Hinv Hs) as [Hr _ _ _].
      assert (He : e = []); [|by rewrite He]. unfold e.
      induction (blocked_session_requests c); [done|]. cbn. unfold retry_session at 1.
      by rewrite Hr, lookup_empty.
    - destruct (retry_held c w Hinv Hs (blocked_session_requests c)) as (? & ? & ?); [|done].
      intros r Hr. apply (wait_held c w (inv_waiting c w Hinv Hs)). apply elem_of_app. by right. }
  destruct He as (Ha & Hask & Hcon). apply (books_inv c); try done.
  - by apply (nodup_same c).
  - by rewrite Ha, app_nil_r.
  - intros Hs. specialize (Hcon Hs). destruct (inv_waiting c w Hinv Hs) as [Hd Hh Hpe Hj].
    split; unfold next; simpl; rewrite ?Hcon, ?app_nil_r; try done.
    intros i r Hi. destruct (Hpe i r Hi) as (? & ? & ? & Hreq).
    rewrite ?Hcon, ?app_nil_r. split_and!; [by apply elem_of_union_r|done|done|].
    rewrite Hreq. symmetry. by apply was_session_next.
  - intros Hs. apply (ended_frame c); try done; [exact (inv_ended c w Hinv Hs)|auto].
Qed.

Lemma recv_max_streams_inv c w u c' e :
  inv c w -> recv_max_streams c u = (c', e) -> inv c' (emits w e).
Proof.
  intros Hinv. unfold recv_max_streams.
  set (ce := if negb u then _ else _). assert (Hinv1 : inv ce.1 (emits w ce.2)).
  { unfold ce. destruct u; simpl; [by rewrite emits_nil|]. by apply retry_sessions_inv. }
  destruct ce as [c1 e1]. simpl in Hinv1.
  destruct (all_sessions c1 _) as [c2 e2] eqn:Hd. intros [= <- <-]. rewrite <- emits_app.
  by apply (all_sessions_inv (SessionR.OpFlushRequests u) c1).
Qed.

(** ** GOAWAY of the peer *)

Lemma own_delete_all c rs : forall c',
  NoDup rs -> (forall r, r ∈ rs -> is_Some (session_requests c !! r)) ->
  request_id c' = request_id c ->
  session_requests c' = foldr (fun r m => delete r m) (session_requests c) rs ->
  own c ≡ₚ rs ++ own c'.
Proof.
  induction rs as [|r rs IH]; intros c' Hnd Hrs Hid Hs.
  { unfold own. by rewrite Hid, Hs. }
  apply NoDup_cons in Hnd as [Hr Hnd]. simpl in Hs.
  set (c1 := c <| session_requests := foldr (fun r m => delete r m) (session_requests c) rs |>).
  rewrite (IH c1); [|done|intros x Hx; apply Hrs; by right|done|done].
  rewrite (own_delete c1 c' r); [solve_Permutation| |done|done].
  assert (Hlook : forall l, r ∉ l ->
    foldr (fun r m => delete r m) (session_requests c) l !! r = session_requests c !! r).
  { induction l as [|x l IHl]; [done|]. intros [Hx Hl]%not_elem_of_cons. simpl.
    rewrite lookup_delete_ne by done. auto. }
  simpl. rewrite (Hlook rs Hr). apply Hrs. by left.
Qed.

Lemma goaway_requests_inv c w e :
  inv c w -> state c <> ConnectionState.Closed ->
  answered e = blocked_session_requests c -> asked e = [] -> connects e = [] ->
  inv (c <| peer_goaway_received := true |>
         <| session_requests := foldr (fun r m => delete r m) (session_requests c)
                                  (blocked_session_requests c) |>
         <| blocked_session_requests := [] |>) (emits w e).
Proof.
  intros Hinv Hst Ha Hask Hcon. destruct (inv_waiting c w Hinv Hst) as [Hd Hh Hp Hj].
  assert (Hlook : forall l r, r ∉ l ->
    foldr (fun r m => delete r m) (session_requests c) l !! r = session_requests c !! r).
  { induction l as [|x l IHl]; [done|]. intros r [Hx Hl]%not_elem_of_cons. simpl.
    rewrite lookup_delete_ne by done. auto. }
  apply NoDup_app in Hd as (Hd1 & Hdisj & Hd2).
  apply (books_inv c); try done.
  - by destruct Hinv.
  - by apply (nodup_same c).
  - rewrite Ha, app_nil_r. apply own_delete_all; try done. intros r Hr. apply Hh, elem_of_app. by right.
  - intros _. split; unfold next; simpl; rewrite ?Hcon, ?app_nil_r; try done.
    + intros r Hr. rewrite Hlook by auto. apply Hh, elem_of_app. by left.
    + intros i r Hi. destruct (Hp i r Hi) as (? & ? & Hr & Hreq).
      rewrite elem_of_app in Hr. rewrite ?Hcon, ?app_nil_r, Hlook by auto.
      split_and!; [by apply elem_of_union_r|done|auto|].
      rewrite Hreq. symmetry. by apply was_session_next.
Qed.

Lemma failures_silent code reason rs :
  let e := rs ≫= (fun r => connection_failed r code reason) in
  answered e = rs /\ asked e = [] /\ connects e = [].
Proof. by apply answers_all. Qed.

Lemma recv_goaway_inv c w c' e :
  inv c w -> state c <> ConnectionState.Closed -> recv_goaway c = (c', e) -> inv c' (emits w e).
Proof.
  intros Hinv Hst. unfold recv_goaway. set (e1 := blocked_session_requests c ≫= _).
  destruct (failures_silent (Some ERR_LIB_CONNECTION_STATE_ERROR)
    (b: "wt_connection validate failed") (blocked_session_requests c)) as (Ha & Hask & Hcon).
  destruct (all_sessions _ Session.drain) as [c2 e2] eqn:Hd. intros [= <- <-].
  rewrite <- emits_app. eapply (all_sessions_inv SessionR.OpDrain _ _ _ _ drain_broadcast); [|exact Hd].
  by apply goaway_requests_inv.
Qed.

(** ** The end *)

Lemma terminate_requests_inv c c' w e :
  inv c w -> sessions c' = sessions c -> stream_map c' = stream_map c ->
  early_event_buffer c' = early_event_buffer c -> is_client c' = is_client c ->
  session_parameters c' = session_parameters c -> state c' = ConnectionState.Closed ->
  session_requests c' = ∅ -> pending_session_requests c' = ∅ -> request_id c' = None ->
  (forall i s, sessions c' !! i = Some s -> Session.state s = SessionState.Closed) ->
  answered e ≡ₚ own c -> asked e = [] -> connects e = [] -> inv c' (emits w e).
Proof.
  intros Hinv Hse Hsm Hbu Hcl Hpar Hst Hsr Hpe Hid Hclo Ha Hask Hcon.
  apply (books_inv c); try done.
  - rewrite Hpar. by destruct Hinv.
  - by apply (nodup_same c).
  - unfold own at 2. by rewrite Hid, Hsr, Ha, map_to_list_empty.
Qed.

(** Terminating closes every session. *)
Lemma terminate_sessions c w code reason now s i :
  inv c w -> ((fun s => (Session.recv_connect_close s code reason now).1) <$> sessions c) !! i
    = Some s -> Session.state s = SessionState.Closed.
Proof.
  intros Hinv. rewrite lookup_fmap, fmap_Some. intros (s0 & Hs0 & ->).
  pose proof (rt_simulated _ _ _ _ _ _ _ (inv_routed c w Hinv) i s0 Hs0) as Hs.
  destruct (simulated_wf _ _ _ Hs) as [Hwf _].
  destruct (Session.recv_connect_close s0 code reason now) as [s1 e1] eqn:E.
  by apply SessionP.recv_connect_close_post in E as [_ ?].
Qed.

Lemma handle_terminated_inv c w code reason now c' e :
  inv c w -> handle_terminated c code reason now = (c', e) -> inv c' (emits w e).
Proof.
  intros Hinv. unfold handle_terminated.
  destruct (bool_decide_reflect (state c = ConnectionState.Closed)) as [_|Hst];
    [intros [= <- <-]; by rewrite emits_nil|].
  set (c1 := (if bool_decide (state c = ConnectionState.Closing) then _ else _)
             <| state := ConnectionState.Closed |>).
  assert (Hc1 : sessions c1 = sessions c /\ stream_map c1 = stream_map c
    /\ early_event_buffer c1 = early_event_buffer c /\ is_client c1 = is_client c
    /\ session_parameters c1 = session_parameters c /\ session_requests c1 = session_requests c
    /\ request_id c1 = request_id c /\ state c1 = ConnectionState.Closed)
    by (unfold c1; by destruct (bool_decide (state c = ConnectionState.Closing))).
  clearbody c1. destruct Hc1 as (Hse & Hsm & Hbu & Hcl & Hpar & Hsr & Hid & Hs1).
  set (reason' := if bool_decide _ then _ else _). rewrite Hsr, Hid.
  set (rs := merge_sort _ _). set (f := fun s => Session.recv_connect_close s code reason now).
  set (c1' := c1 <| session_requests := ∅ |> <| request_id := None |>
                 <| blocked_session_requests := [] |> <| pending_session_requests := ∅ |>).
  destruct (all_sessions c1' f) as [c2 e2] eqn:Hd. intros [= <- <-].
  pose proof (all_sessions_spec _ _ _ _ Hd) as ->.
  pose proof (all_sessions_effects f c1' c Hse) as He2. rewrite Hd in He2. simpl in He2. subst e2.
  destruct (all_sessions c f) as [c3 e3] eqn:Hd3. pose proof (all_sessions_spec _ _ _ _ Hd3) as Hc3.
  apply (all_sessions_inv (SessionR.OpConnectClose code reason now) c w) in Hd3; [|done|done].
  destruct (failures_silent (Some ERR_LIB_CONNECTION_STATE_ERROR) reason' rs) as (Ha & Hask & Hcon).
  rewrite <- emits_app. apply (terminate_requests_inv c3); try done; rewrite ?Hc3; try done.
  - simpl. by rewrite Hse.
  - intros i s. simpl. rewrite Hse. by apply (terminate_sessions c w).
  - cbn [app]. transitivity rs; [by rewrite <- Ha at 2|].
    unfold rs, own. rewrite merge_sort_Permutation. solve_Permutation.
Qed.

(** ** Events *)

(** Everything a connection can be asked or told, one constructor per operation. *)
Inductive op : Set :=
| OpAcceptSession (session_id : SessionId) (r : RequestId) (headers : Headers)
    (protocol : option str) (now : f64)
| OpBindSession (stream_id : StreamId) (r : RequestId)
| OpBindStream (session_id : SessionId) (stream_id : StreamId) (r : RequestId)
    (is_unidirectional : bool) (now : f64)
| OpClose (r : option RequestId) (error_code : ErrorCode) (reason : option str) (now : f64)
| OpCloseGracefully (r : RequestId)
| OpCloseSession (session_id : SessionId) (r : RequestId) (error_code : ErrorCode)
    (reason : option str) (now : f64)
| OpComplete (stream_id : StreamId)
| OpCreateSession (r : RequestId) (request : SessionRequest.t)
| OpCreateStream (session_id : SessionId) (r : RequestId) (is_unidirectional : bool)
| OpDeferSession (r : RequestId)
| OpDeferStream (session_id : SessionId) (r : RequestId) (is_unidirectional : bool)
| OpDiagnose (r : RequestId)
| OpDiagnoseSession (session_id : SessionId) (r : RequestId)
| OpDiagnoseStream (stream_id : StreamId) (r : RequestId)
| OpExport (session_id : SessionId) (r : RequestId) (label : str) (context : bytes)
    (length : Z)
| OpFailSession (r : RequestId) (error_code : option ErrorCode) (reason : str)
| OpHandshakeCompleted (now : f64)
| OpAcknowledged (stream_id : StreamId)
| OpStreamOpened (session_id : SessionId) (stream_id : StreamId) (now : f64)
| OpTerminated (error_code : ErrorCode) (reason : str) (now : f64)
| OpPruneEvents (now : f64)
| OpPruneResources
| OpReadDatagram (session_id : SessionId) (r : RequestId)
| OpReadStream (stream_id : StreamId) (r : RequestId) (max_size : Z)
| OpCapsule (session_id : SessionId) (capsule_type : Z) (capsule_value : bytes) (now : f64)
| OpConnectClose (session_id : SessionId) (now : f64)
| OpDatagram (session_id : SessionId) (data : bytes) (now : f64)
| OpGoaway
| OpHeaders (stream_id : StreamId) (headers : Headers) (now : f64)
| OpMaxStreams (is_unidirectional : bool)
| OpSettings (settings : H3Settings.t) (now : f64)
| OpStopSending (stream_id : StreamId) (error_code : ErrorCode) (now : f64)
| OpStreamData (stream_id : StreamId) (data : bytes) (end_stream : bool) (now : f64)
| OpStreamReset (stream_id : StreamId) (error_code : ErrorCode) (now : f64)
| OpTransportParameters (size : Z)
| OpRejectSession (session_id : SessionId) (r : RequestId) (headers : Headers)
    (status_code : Z) (now : f64)
| OpResetStream (stream_id : StreamId) (r : RequestId) (error_code : ErrorCode)
| OpSendDatagram (session_id : SessionId) (r : RequestId) (data : bytes)
| OpStopStream (stream_id : StreamId) (r : RequestId) (error_code : ErrorCode)
| OpWriteStream (stream_id : StreamId) (r : RequestId) (data : bytes) (end_stream : bool).

Definition step (o : op) (c : t) : t * list Effect.t :=
  match o with
  | OpAcceptSession k r headers protocol now => accept_session c k r headers protocol now
  | OpBindSession i r => bind_session c i r
  | OpBindStream k i r u now => bind_stream c k i r u now
  | OpClose r code reason now => close c r code reason now
  | OpCloseGracefully r => close_gracefully c r
  | OpCloseSession k r code reason now => close_session c k r code reason now
  | OpComplete i => complete_stream_write c i
  | OpCreateSession r request => create_session c r request
  | OpCreateStream k r u => create_stream c k r u
  | OpDeferSession r => defer_session c r
  | OpDeferStream k r u => defer_stream c k r u
  | OpDiagnose r => (c, diagnose c r)
  | OpDiagnoseSession k r => (c, diagnose_session c k r)
  | OpDiagnoseStream i r => (c, diagnose_stream c i r)
  | OpExport k r label context length => (c, export_keying_material c k r label context length)
  | OpFailSession r code reason => fail_session c r code reason
  | OpHandshakeCompleted now => handle_handshake_completed c now
  | OpAcknowledged i => handle_stream_data_acknowledged c i
  | OpStreamOpened k i now => handle_stream_opened c k i now
  | OpTerminated code reason now => handle_terminated c code reason now
  | OpPruneEvents now => prune_early_events c now
  | OpPruneResources => (prune_resources c, [])
  | OpReadDatagram k r => read_datagram c k r
  | OpReadStream i r max_size => read_stream c i r max_size
  | OpCapsule k ty value now => recv_capsule c k ty value now
  | OpConnectClose k now => recv_connect_close c k now
  | OpDatagram k data now => recv_datagram c k data now
  | OpGoaway => recv_goaway c
  | OpHeaders i headers now => recv_headers c i headers now
  | OpMaxStreams u => recv_max_streams c u
  | OpSettings settings now => recv_settings c settings now
  | OpStopSending i code now => recv_stop_sending c i code now
  | OpStreamData i data fin now => recv_stream_data c i data fin now
  | OpStreamReset i code now => recv_stream_reset c i code now
  | OpTransportParameters size => recv_transport_parameters c size
  | OpRejectSession k r headers status now => reject_session c k r headers status now
  | OpResetStream i r code => reset_stream c i r code
  | OpSendDatagram k r data => send_datagram c k r data
  | OpStopStream i r code => stop_stream c i r code
  | OpWriteStream i r data fin => write_stream c i r data fin
  end.

(** The requests the user submits with an event. *)
Definition submits (o : op) : list RequestId :=
  match o with
  | OpAcceptSession _ r _ _ _ | OpCloseGracefully r | OpCloseSession _ r _ _ _
  | OpCreateSession r _ | OpCreateStream _ r _ | OpDiagnose r | OpDiagnoseSession _ r
  | OpDiagnoseStream _ r | OpExport _ r _ _ _ | OpReadDatagram _ r | OpReadStream _ r _
  | OpRejectSession _ r _ _ _ | OpResetStream _ r _ | OpSendDatagram _ r _ | OpStopStream _ r _
  | OpWriteStream _ r _ _ => [r]
  | OpClose r _ _ _ => option_list r
  | _ => []
  end.

(** What the transport comes back with: stream creations and CONNECT streams. *)
Definition returns (o : op) : list creation :=
  match o with
  | OpBindStream k _ r u _ | OpDeferStream k r u => [(k, r, u)]
  | _ => []
  end.

Definition connected (o : op) : list RequestId :=
  match o with
  | OpBindSession _ r | OpDeferSession r | OpFailSession r _ _ => [r]
  | _ => []
  end.

(** The stream identifiers an event introduces and the sessions it destroys. *)
Definition names (c : t) (o : op) : list StreamId :=
  match o with
  | OpBindSession i _ | OpBindStream _ i _ _ _ | OpStreamOpened _ i _ => [i]
  | OpHeaders i _ _ => if is_client c then [] else [i]
  | _ => []
  end.

Definition gone (c : t) (o : op) : gset SessionId :=
  match o with OpPruneResources => closed_sessions c | _ => ∅ end.

(** What the layers below guarantee: a new stream has a new identifier whose low
    bit tells who opened it; a connection that is gone opens no CONNECT stream
    and receives no GOAWAY; the headers of a request arrive once; a response
    finds its session unless it is already destroyed; limits and buffers are
    in range; the last byte of a stream is acknowledged after its write was
    reported complete. *)
Definition transport_ok (c : t) (w : world) (o : op) : Prop :=
  match o with
  | OpBindStream _ i _ _ _ =>
      i ∉ seen w /\ utils.is_peer_initiated_stream i (is_client c) = false
  | OpStreamOpened _ i _ =>
      i ∉ seen w /\ utils.is_peer_initiated_stream i (is_client c) = true
  | OpBindSession i _ => i ∉ seen w /\ state c <> ConnectionState.Closed
  | OpFailSession _ _ _ | OpGoaway => state c <> ConnectionState.Closed
  | OpHeaders i _ _ =>
      i ∉ destroyed w /\ (is_client c = false -> is_Some (sessions c !! i) \/ i ∉ seen w)
  | OpAcknowledged i => forall k s st, session_of_stream c i = Some (k, s) ->
      Session.streams s !! i = Some st -> Stream.pending_write_request st = None
  | OpWriteStream _ _ data _ | OpStreamData _ data _ _ => len data <= ISIZE_MAX
  | OpSettings settings _ => settings_ok settings
  | _ => True
  end.

(** ** Every event keeps the invariant *)

(** The order of what is in flight does not matter. *)
Definition reorder (w : world) (creating' : list creation) (connecting' : list RequestId) : world :=
  World creating' connecting' (seen w) (destroyed w) (submitted w) (emitted w).

Lemma inv_reorder c w creating' connecting' :
  inv c w -> creating w ≡ₚ creating' -> connecting w ≡ₚ connecting' ->
  inv c (reorder w creating' connecting').
Proof.
  intros [[Hsim Hnm Hst Hb Hbs] Hkey Hdis Hled Hp Hwait Hend Hcr Hdes] Hc Hco.
  split; try done; simpl.
  - split; try done. intros i s Hi. eapply simulated_mono; [by apply Hsim| |done].
    by apply mine_perm.
  - by rewrite <- Hc.
  - intros Hs. destruct (Hwait Hs) as [Hd Hh Hpe Hj]. split; simpl; [..|done].
    + by rewrite <- Hco.
    + intros r. rewrite <- Hco. apply Hh.
    + intros i r Hi. destruct (Hpe i r Hi) as (? & ? & Hr & ?). rewrite Hco in Hr. done.
  - intros x Hx. apply Hcr. by rewrite Hc.
Qed.

Section step_inv.
Context (c : t) (w : world) (Hinv : inv c w).

Lemma answer_only_inv r e :
  NoDup (submitted w ++ [r]) -> answered e = [r] -> asked e = [] -> connects e = [] ->
  inv c (next w (creating w) (connecting w) [] ∅ [r] e).
Proof.
  intros Hnd Ha Hask Hcon. apply (answer_inv c w _ []); try done.
  - intros x Hx. by apply not_elem_of_nil in Hx.
  - by rewrite Ha.
Qed.

Lemma diagnose_session_inv k r :
  NoDup (submitted w ++ [r]) ->
  inv c (next w (creating w) (connecting w) [] ∅ [r] (diagnose_session c k r)).
Proof. intros. apply answer_only_inv; unfold diagnose_session; by destruct (sessions c !! k). Qed.

Lemma diagnose_stream_inv i r :
  NoDup (submitted w ++ [r]) ->
  inv c (next w (creating w) (connecting w) [] ∅ [r] (diagnose_stream c i r)).
Proof.
  intros. unfold diagnose_stream. destruct (session_of_stream c i) as [[k s]|].
  - apply answer_only_inv; unfold Session.diagnose_stream; by destruct (Session.streams s !! i).
  - by apply answer_only_inv.
Qed.

Lemma export_keying_material_inv k r label context length :
  NoDup (submitted w ++ [r]) ->
  inv c (next w (creating w) (connecting w) [] ∅ [r]
           (export_keying_material c k r label context length)).
Proof.
  intros. unfold export_keying_material. destruct (sessions c !! k) as [s|].
  - unfold Session.export_keying_material.
    destruct (Session.state s); try destruct (_ || _); by apply answer_only_inv.
  - by apply answer_only_inv.
Qed.

(** A session operation of the user. *)
Lemma user_session_inv k o otherwise r c' e :
  SessionSt.opens o = [] -> SessionR.returns o = [] -> SessionR.submits o = [r] ->
  (forall s, SessionR.transport_ok s o) -> NoDup (submitted w ++ [r]) ->
  answered otherwise = [r] -> asked otherwise = [] -> connects otherwise = [] ->
  with_session c k (SessionR.step o) otherwise = (c', e) ->
  inv c' (next w (creating w) (connecting w) [] ∅ [r] e).
Proof.
  intros Hop Hret Hsub Hok Hnd Ha Hask Hcon He. rewrite <- Hsub.
  apply (with_session_inv c w k o otherwise); rewrite ?Hret, ?Hsub, ?Ha; auto.
Qed.

(** An event for a session, or for none. *)
Lemma peer_session_inv k o c' e :
  broadcast o -> with_session c k (SessionR.step o) [] = (c', e) -> inv c' (emits w e).
Proof.
  intros Ho He. apply (each_session_inv o [k] c w); [done|done|].
  cbn [each_session]. by rewrite He, app_nil_r.
Qed.

(** A stream operation of the user. *)
Lemma user_stream_inv i o effects r c' e :
  SessionSt.opens o = [] -> SessionR.returns o = [] -> SessionR.submits o = [r] ->
  (forall s, SessionR.transport_ok s o) -> NoDup (submitted w ++ [r]) ->
  answered effects = [r] -> asked effects = [] -> connects effects = [] ->
  with_stream c i (SessionR.step o) (c, effects) = (c', e) ->
  inv c' (next w (creating w) (connecting w) [] ∅ [r] e).
Proof.
  intros Hop Hret Hsub Hok Hnd Ha Hask Hcon He. rewrite <- Hsub.
  apply (with_stream_inv c w i o (c, effects)); rewrite ?Hsub; auto.
  intros _ [= <- <-]. by apply answer_only_inv.
Qed.

(** An event for a stream; a reset may concern a CONNECT stream instead. *)
Lemma peer_stream_inv i o otherwise c' e :
  SessionSt.opens o = [] -> SessionR.returns o = [] -> SessionR.submits o = [] ->
  (forall k s, session_of_stream c i = Some (k, s) -> SessionR.transport_ok s o) ->
  (otherwise = (c', e) -> inv c' (emits w e)) ->
  with_stream c i (SessionR.step o) otherwise = (c', e) -> inv c' (emits w e).
Proof.
  intros Hop Hret Hsub Hok Hoth He.
  pose proof (with_stream_inv c w i o otherwise (creating w) c' e) as H. rewrite Hsub in H.
  apply H; auto. by apply (nodup_same c).
Qed.

Lemma nothing_inv c' e : (c, []) = (c', e) -> inv c' (emits w e).
Proof. intros [= <- <-]. by rewrite emits_nil. Qed.

End step_inv.

(** Every event but those the transport answers a creation or a CONNECT with. *)
Lemma plain_step_inv c w o c' e :
  inv c w -> transport_ok c w o -> returns o = [] -> connected o = [] ->
  NoDup (submitted w ++ submits o) -> step o c = (c', e) ->
  inv c' (next w (creating w) (connecting w) (names c o) (gone c o) (submits o) e).
Proof.
  intros Hinv Hok Hret Hcon Hnd.
  destruct o; cbn [step returns connected submits names gone] in *; try done; intros He.
  - by eapply (user_session_inv c w Hinv session_id
      (SessionR.OpAccept r headers protocol now) (session_unknown r)).
  - by eapply close_inv.
  - by eapply close_gracefully_inv.
  - by eapply (user_session_inv c w Hinv session_id
      (SessionR.OpClose r error_code reason now) [request_done r]).
  - eapply (peer_stream_inv c w Hinv stream_id (SessionR.OpComplete stream_id));
      [done..|by apply nothing_inv|done].
  - by eapply create_session_inv.
  - by eapply (user_session_inv c w Hinv session_id
      (SessionR.OpCreate r is_unidirectional) (session_unknown r)).
  - injection He as <- <-. by apply answer_only_inv.
  - injection He as <- <-. by apply diagnose_session_inv.
  - injection He as <- <-. by apply diagnose_stream_inv.
  - injection He as <- <-. by apply export_keying_material_inv.
  - by eapply handle_handshake_completed_inv.
  - eapply (peer_stream_inv c w Hinv stream_id (SessionR.OpAcknowledged stream_id));
      [done..| |by apply nothing_inv|done].
    intros k s Hs st Hst. by apply (Hok k s).
  - destruct Hok. eapply handle_stream_opened_inv; try done. left. split; [by left|done].
  - by eapply handle_terminated_inv.
  - by eapply prune_early_events_inv.
  - injection He as <- <-. by apply prune_resources_inv.
  - by eapply (user_session_inv c w Hinv session_id (SessionR.OpReadDatagram r)
      (session_unknown r)).
  - by eapply (user_stream_inv c w Hinv stream_id
      (SessionR.OpReadStream stream_id r max_size) (stream_unknown r)).
  - by eapply (peer_session_inv c w Hinv session_id
      (SessionR.OpCapsule capsule_type capsule_value now)).
  - by eapply (peer_session_inv c w Hinv session_id
      (SessionR.OpConnectClose ERR_APP_NO_ERROR [] now)).
  - by eapply recv_datagram_inv.
  - by eapply recv_goaway_inv.
  - destruct Hok. by eapply recv_headers_inv.
  - by eapply recv_max_streams_inv.
  - by eapply recv_settings_inv.
  - eapply (peer_stream_inv c w Hinv stream_id (SessionR.OpStopSending stream_id error_code));
      [done..| |exact He].
    by apply (peer_session_inv c w Hinv stream_id
      (SessionR.OpAbort error_code (b: "wt_session abort") now)).
  - eapply (peer_stream_inv c w Hinv stream_id (SessionR.OpStreamData stream_id data end_stream now));
      [done..|by apply nothing_inv|done].
  - eapply (peer_stream_inv c w Hinv stream_id (SessionR.OpStreamReset stream_id error_code));
      [done..| |exact He].
    by apply (peer_session_inv c w Hinv stream_id
      (SessionR.OpAbort error_code (b: "wt_session abort") now)).
  - by eapply recv_transport_parameters_inv.
  - by eapply (user_session_inv c w Hinv session_id
      (SessionR.OpReject r headers status_code now) (session_unknown r)).
  - by eapply (user_stream_inv c w Hinv stream_id
      (SessionR.OpResetStream stream_id r error_code) [request_done r]).
  - by eapply (user_session_inv c w Hinv session_id
      (SessionR.OpSendDatagram r data (default 0 (peer_max_datagram_frame_size c)))
      (session_unknown r)).
  - by eapply (user_stream_inv c w Hinv stream_id
      (SessionR.OpStopStream stream_id r error_code) [request_done r]).
  - unfold write_stream in He.
    destruct (bool_decide (data = []) && end_stream).
    + by eapply (user_stream_inv c w Hinv stream_id
        (SessionR.OpWriteStream stream_id r data end_stream) [request_done r]).
    + by eapply (user_stream_inv c w Hinv stream_id
        (SessionR.OpWriteStream stream_id r data end_stream) (stream_unknown r)).
Qed.

Lemma step_inv c w o c' e creating' connecting' :
  inv c w -> transport_ok c w o -> creating w ≡ₚ returns o ++ creating' ->
  connecting w ≡ₚ connected o ++ connecting' -> NoDup (submitted w ++ submits o) ->
  step o c = (c', e) ->
  inv c' (next w creating' connecting' (names c o) (gone c o) (submits o) e).
Proof.
  intros Hinv Hok Hc Hco Hnd He.
  destruct (decide (returns o = [] /\ connected o = [])) as [[Hr Hn]|Hnot].
  { rewrite Hr in Hc. rewrite Hn in Hco.
    by apply (plain_step_inv c (reorder w creating' connecting') o); [apply inv_reorder|..]. }
  destruct o; try (by destruct Hnot); cbn [step returns connected submits names gone app] in *.
  - pose proof (inv_reorder c w creating' (connecting w) Hinv Hc (Permutation_refl _)) as Hinv'.
    destruct Hok. by apply (bind_session_inv c (reorder w creating' (connecting w)) _ r).
  - pose proof (inv_reorder c w (creating w) connecting' Hinv (Permutation_refl _) Hco) as Hinv'.
    destruct Hok.
    by apply (bind_stream_inv c (reorder w (creating w) connecting') session_id stream_id
      r is_unidirectional now).
  - pose proof (inv_reorder c w creating' (connecting w) Hinv Hc (Permutation_refl _)) as Hinv'.
    by apply (defer_session_inv c (reorder w creating' (connecting w)) r).
  - pose proof (inv_reorder c w (creating w) connecting' Hinv (Permutation_refl _) Hco) as Hinv'.
    by apply (with_session_inv c (reorder w (creating w) connecting') session_id
      (SessionR.OpDefer r is_unidirectional) (session_unknown r)).
  - pose proof (inv_reorder c w creating' (connecting w) Hinv Hc (Permutation_refl _)) as Hinv'.
    by apply (fail_session_inv c (reorder w creating' (connecting w)) r error_code reason).
Qed.

(** ** Reachability *)

(** Ranges of the parameters a connection is configured with. *)
Record parameters_ok (p : ConnectionParameters.t) : Prop := {
  ok_initial_max_data : 0 <= ConnectionParameters.initial_max_data p <= QUIC_VARINT_LIMIT;
  ok_initial_bidi : is_u64 (ConnectionParameters.initial_max_streams_bidi p);
  ok_initial_uni : is_u64 (ConnectionParameters.initial_max_streams_uni p);
  ok_window : is_u64 (ConnectionParameters.session_receive_window p);
  ok_buffer : 0 <= ConnectionParameters.max_write_buffer_size p <= ISIZE_MAX;
}.

(** The world at the start: the request that created the connection is the only
    one submitted. *)
Definition start (c : t) : world := World [] [] ∅ ∅ (option_list (request_id c)) [].

(** [reachable c0 c w]: from [c0] the connection came to [c] in the world [w]. *)
Inductive reachable (c0 : t) : t -> world -> Prop :=
| reachable_start : reachable c0 c0 (start c0)
| reachable_step c w o c' e creating' connecting' :
    reachable c0 c w -> transport_ok c w o -> creating w ≡ₚ returns o ++ creating' ->
    connecting w ≡ₚ connected o ++ connecting' -> NoDup (submitted w ++ submits o) ->
    step o c = (c', e) ->
    reachable c0 c' (next w creating' connecting' (names c o) (gone c o) (submits o) e).

Definition fresh (p : ConnectionParameters.t) (c0 : t) : Prop :=
  parameters_ok p /\ exists handle request client, c0 = new handle request client p.

Lemma fresh_inv p c0 : fresh p c0 -> inv c0 (start c0).
Proof.
  intros ([] & handle & request & client & ->). split; try done.
  - split; try done; [apply NoDup_nil_2|]. intros j Hj. by apply not_elem_of_nil in Hj.
  - simpl. destruct request; simpl; [|apply NoDup_nil_2]. apply NoDup_cons.
    split; [apply not_elem_of_nil|apply NoDup_nil_2].
  - unfold held, own. simpl. rewrite map_to_list_empty. simpl. by rewrite !app_nil_r.
  - intros _. split; try done; simpl.
    + apply NoDup_nil_2.
    + intros r Hr. by apply not_elem_of_nil in Hr.
  - intros x Hx. by apply not_elem_of_nil in Hx.
Qed.

Lemma reachable_inv p c0 c w : fresh p c0 -> reachable c0 c w -> inv c w.
Proof.
  intros Hf. induction 1 as [|c w o c' e creating' connecting' _ IH Hok Hc Hco Hnd Hs].
  - by eapply fresh_inv.
  - by eapply step_inv.
Qed.

End ConnS.
