(* ===== verification/ConnectionLimits.v ===== *)
(** * What a connection bounds and what it never takes back

    The limits of a connection: the early events it buffers, the sessions it
    holds, the direction in which its state moves, and the GOAWAY it sent. *)

From S2P Require Import Prelude.
From S2P Require Import Types.
From S2P Require Import Events.
From S2P Require Import Utils.
From S2P Require Import StreamMachine.
From S2P Require Import SessionMachine.
From S2P Require Import ConnectionMachine.
From S2P Require Import ConnectionProps.
From S2P Require Import ConnectionRuns.
From S2P Require Import ConnectionRequests.
From S2P Require Import ConnectionSteps.

Module ConnL.
Import Connection ConnP ConnR ConnQ ConnS.

(** ** The relation every step keeps *)

Definition state_rank (st : ConnectionState.t) : nat :=
  match st with
  | ConnectionState.Idle => 0
  | ConnectionState.Connecting => 1
  | ConnectionState.Connected => 2
  | ConnectionState.Closing => 3
  | ConnectionState.Closed => 4
  end.

Definition rank (c : t) : nat := state_rank (state c).

(** The number of events buffered for sessions that do not exist yet. *)
Definition buffered_events (c : t) : Z := len (collect id (early_event_buffer c)).

Record bounded (c : t) : Prop := {
  bd_count : early_event_count c = buffered_events c;
  bd_range : is_u64 (max_connection_pending_events c);
  bd_total : early_event_count c <= max_connection_pending_events c;
  bd_each : forall k events, early_event_buffer c !! k = Some events ->
    len events <= Z.max 0 (max_session_pending_events c);
  bd_server : is_client c = false -> session_requests c = ∅;
  bd_sessions : 0 < max_sessions c ->
    Z.of_nat (size (sessions c) + size (session_requests c)) <= max_sessions c;
}.

(** A server that said GOAWAY or is closing takes no more sessions. *)
Definition refuses (c : t) : Prop :=
  is_client c = false /\ (local_goaway_sent c = true \/ (3 <= rank c)%nat).

(** What is fixed when the connection is created. *)
Definition constants (c : t) :=
  (handle c, is_client c, early_event_ttl c, max_connection_pending_events c,
   max_session_pending_events c, max_sessions c, max_pending_capsules c, max_pending_datagrams c,
   max_pending_streams c, max_write_buffer_size c, session_receive_window c, initial_max_data c,
   initial_max_streams_bidi c, initial_max_streams_uni c).

Record progress (c c' : t) : Prop := {
  pr_constants : constants c' = constants c;
  pr_rank : (rank c <= rank c')%nat;
  pr_goaway : local_goaway_sent c = true -> local_goaway_sent c' = true;
  pr_refuses : bounded c -> refuses c -> dom (sessions c') ⊆ dom (sessions c);
  pr_bounded : bounded c -> bounded c';
}.

Lemma progress_refl c : progress c c.
Proof. by split. Qed.

Lemma progress_trans c1 c2 c3 : progress c1 c2 -> progress c2 c3 -> progress c1 c3.
Proof.
  intros [Hc1 Hr1 Hg1 Hf1 Hb1] [Hc2 Hr2 Hg2 Hf2 Hb2]. split; auto; [congruence|lia|].
  intros Hb Hf. etrans; [apply Hf2; [auto|]|by apply Hf1]. destruct Hf as [Hcl Hf]. split.
  - unfold constants in Hc1. congruence.
  - destruct Hf; [left; auto|right; lia].
Qed.

(** Everything but the contents of the sessions and the stream map is equal. *)
Lemma progress_frame c c' :
  constants c' = constants c -> state c' = state c ->
  local_goaway_sent c' = local_goaway_sent c -> dom (sessions c') = dom (sessions c) ->
  early_event_buffer c' = early_event_buffer c -> early_event_count c' = early_event_count c ->
  session_requests c' = session_requests c -> progress c c'.
Proof.
  intros Hk Hs Hg Hd Hb Hn Hr.
  assert (Hsize : size (sessions c') = size (sessions c))
    by (rewrite <- !size_dom; by rewrite Hd).
  pose proof Hk as Hk'. unfold constants in Hk'. injection Hk' as _ Hcl _ Hmc Hms Hmx _ _ _ _ _ _ _ _.
  split; [exact Hk|unfold rank; by rewrite Hs|congruence|by rewrite Hd|].
  intros []. split; unfold buffered_events in *; rewrite ?Hb, ?Hn, ?Hr, ?Hsize, ?Hcl, ?Hmc, ?Hms, ?Hmx;
    done.
Qed.

Lemma dom_insert_same {A} (m : gmap Z A) i x y :
  m !! i = Some x -> dom (<[i := y]> m) = dom m.
Proof.
  intros Hi. rewrite dom_insert_L. apply elem_of_dom_2 in Hi. set_solver.
Qed.

Lemma session_progress c i s s' m :
  sessions c !! i = Some s ->
  progress c (c <| sessions := <[i := s']> (sessions c) |> <| stream_map := m |>).
Proof. intros Hi. apply progress_frame; try done. simpl. by eapply dom_insert_same. Qed.

Lemma session_only_progress c i s s' :
  sessions c !! i = Some s -> progress c (c <| sessions := <[i := s']> (sessions c) |>).
Proof. intros Hi. apply progress_frame; try done. simpl. by eapply dom_insert_same. Qed.

Lemma with_session_progress c i f otherwise c' e :
  with_session c i f otherwise = (c', e) -> progress c c'.
Proof.
  unfold with_session. destruct (sessions c !! i) as [s|] eqn:Hi.
  - destruct (f s) as [s' e1]. intros [= <- <-]. by eapply session_only_progress.
  - intros [= <- <-]. apply progress_refl.
Qed.

Lemma with_stream_progress c i f otherwise c' e :
  (otherwise = (c', e) -> progress c c') ->
  with_stream c i f otherwise = (c', e) -> progress c c'.
Proof.
  intros Ho. unfold with_stream, session_of_stream.
  destruct (stream_map c !! i) as [k|]; [simpl|done].
  destruct (sessions c !! k) as [s|] eqn:Hk; [simpl|done].
  destruct (f s) as [s' e1]. intros [= <- <-].
  destruct (Session.has_stream s' i); [by eapply session_only_progress|by eapply session_progress].
Qed.

Lemma all_sessions_progress c f c' e : all_sessions c f = (c', e) -> progress c c'.
Proof.
  intros ->%all_sessions_spec. apply progress_frame; try done. simpl. apply dom_fmap_L.
Qed.

#[export] Hint Resolve progress_refl : wt.

(** ** The buffer of early events *)

Lemma early_progress c buffer count :
  (bounded c -> count = len (collect id buffer) /\ count <= max_connection_pending_events c
     /\ forall k events, buffer !! k = Some events ->
          len events <= Z.max 0 (max_session_pending_events c)) ->
  progress c (c <| early_event_buffer := buffer |> <| early_event_count := count |>).
Proof.
  intros H. split; try done. intros Hb. destruct (H Hb) as (? & ? & ?).
  destruct Hb. by split.
Qed.

Lemma buffered_events_replace c k events :
  len (collect id (<[k := events]> (early_event_buffer c)))
  + len (default [] (early_event_buffer c !! k)) = len events + buffered_events c.
Proof.
  unfold buffered_events. rewrite <- !len_app. unfold len. f_equal. apply Permutation_length.
  etransitivity; [|exact (collect_replace id (early_event_buffer c) k events)].
  by destruct (early_event_buffer c !! k).
Qed.

Lemma buffered_events_delete c k events :
  early_event_buffer c !! k = Some events ->
  len (collect id (delete k (early_event_buffer c))) + len events = buffered_events c.
Proof.
  intros Hk. unfold buffered_events. rewrite <- len_app. unfold len. f_equal.
  apply Permutation_length. rewrite (collect_delete id _ _ _ Hk). unfold id. solve_Permutation.
Qed.

Lemma buffer_early_event_progress c k event now c' stored :
  buffer_early_event c k event now = (c', stored) -> progress c c'.
Proof.
  unfold buffer_early_event. pose proof (buffered_events_replace c k) as Hlen.
  destruct (max_connection_pending_events c <=? early_event_count c) eqn:Hmax;
    [intros [= <- _]; apply progress_refl|].
  destruct (max_session_pending_events c <=? _) eqn:Hses; intros [<- _]%pair_eq; apply Z.leb_gt in Hmax.
  - set (m := <[k := default [] (early_event_buffer c !! k)]> (early_event_buffer c)) in *.
    apply (early_progress c m (early_event_count c)). intros [].
    specialize (Hlen (default [] (early_event_buffer c !! k))). fold m in Hlen.
    split_and!; [lia|done|]. intros k' events. unfold m. rewrite lookup_insert_Some. intros [[<- <-]|[_ Hk]]; [|eauto].
    destruct (early_event_buffer c !! k) eqn:E; simpl; [eauto|]. rewrite len_nil. lia.
  - apply Z.leb_gt in Hses. apply early_progress. intros [].
    specialize (Hlen (default [] (early_event_buffer c !! k) ++ [(now, event)])).
    rewrite len_app, len_cons, len_nil in Hlen. unfold is_u64 in *.
    rewrite u64_add_small; [|pose proof (len_nonneg (collect id (early_event_buffer c)));
      unfold buffered_events in *; lia].
    split_and!; [lia|lia|].
    intros k' events. rewrite lookup_insert_Some. intros [[<- <-]|[_ Hk]]; [|eauto].
    rewrite len_app, len_cons, len_nil. lia.
Qed.

Lemma handle_stream_opened_progress c k i now c' e :
  handle_stream_opened c k i now = (c', e) -> progress c c'.
Proof.
  unfold handle_stream_opened. destruct (sessions c !! k) as [s|] eqn:Hk.
  - destruct (Session.handle_stream_opened s i now) as [s' e1]. intros [= <- <-].
    destruct (Session.has_stream s' i); [by eapply session_progress|by eapply session_only_progress].
  - destruct (buffer_early_event c k _ now) as [c1 stored] eqn:Hb.
    apply buffer_early_event_progress in Hb. by destruct stored; intros [= <- <-].
Qed.

Lemma recv_datagram_progress c k data now c' e :
  recv_datagram c k data now = (c', e) -> progress c c'.
Proof.
  unfold recv_datagram. destruct (sessions c !! k) as [s|] eqn:Hk.
  - destruct (Session.recv_datagram s data) as [s' e1]. intros [= <- <-].
    by eapply session_only_progress.
  - destruct (buffer_early_event c k _ now) as [c1 stored] eqn:Hb.
    apply buffer_early_event_progress in Hb. by intros [= <- <-].
Qed.

Lemma replay_events_progress events : forall c present now c' e,
  replay_events c present events now = (c', e) -> progress c c'.
Proof.
  induction events as [|[at_ event] rest IH]; intros c present now c' e; cbn [replay_events].
  { intros [= <- <-]. apply progress_refl. }
  destruct (replay_event c present event now) as [c1 e1] eqn:H1.
  destruct (replay_events c1 present rest now) as [c2 e2] eqn:H2. intros [= <- <-].
  apply (progress_trans c c1); [|by eapply IH].
  destruct event; simpl in H1; try (injection H1 as <- <-; apply progress_refl);
    destruct present; try (injection H1 as <- <-; apply progress_refl);
    eauto using recv_datagram_progress, handle_stream_opened_progress.
Qed.

Lemma drop_events_count c k events n :
  bounded c -> early_event_buffer c !! k = Some events -> 0 <= n <= len events ->
  u64_sub (early_event_count c) n = early_event_count c - n.
Proof.
  intros [] Hk Hn. apply u64_sub_small. pose proof (buffered_events_delete c k events Hk).
  pose proof (len_nonneg (collect id (delete k (early_event_buffer c)))).
  unfold is_u64 in *. lia.
Qed.

Lemma replay_early_events_progress c k now c' e :
  replay_early_events c k now = (c', e) -> progress c c'.
Proof.
  unfold replay_early_events.
  destruct (early_event_buffer c !! k) as [events|] eqn:Hk; [|intros [= <- <-]; apply progress_refl].
  intros He%replay_events_progress. eapply progress_trans; [|exact He].
  apply early_progress. intros Hb. pose proof (len_nonneg events).
  rewrite (drop_events_count c k events) by (done || lia).
  pose proof (buffered_events_delete c k events Hk). destruct Hb.
  split_and!; [lia|lia|]. intros k' events' [_ Hk']%lookup_delete_Some. eauto.
Qed.

Lemma filter_len_split {A} (P : A -> bool) l :
  len l = len (filter (fun x => P x = true) l) + len (filter (fun x => P x = false) l).
Proof.
  induction l as [|x l IH]; [done|]. rewrite !filter_cons.
  destruct (P x); simpl; rewrite !len_cons; lia.
Qed.

Lemma prune_session_events_progress c k now c' e :
  prune_session_events c k now = (c', e) -> progress c c'.
Proof.
  unfold prune_session_events.
  destruct (early_event_buffer c !! k) as [events|] eqn:Hk; [|intros [= <- <-]; apply progress_refl].
  pose proof (filter_len_split (is_valid_event c now) events) as Hsplit.
  set (valid := filter (fun x => is_valid_event c now x = true) events) in *.
  set (expired := filter (fun x => is_valid_event c now x = false) events) in *.
  intros [= <- <-]. apply early_progress. intros Hb.
  pose proof (len_nonneg valid). pose proof (len_nonneg expired).
  rewrite (drop_events_count c k events) by (done || lia).
  pose proof (buffered_events_delete c k events Hk). destruct Hb. simpl.
  destruct (bool_decide_reflect (valid = [])) as [Hv|_].
  - rewrite Hv, len_nil in Hsplit. split_and!; [lia|lia|].
    intros k' events' [_ Hk']%lookup_delete_Some. eauto.
  - pose proof (buffered_events_replace c k valid) as Hr. rewrite Hk in Hr. simpl in Hr.
    split_and!; [lia|lia|]. intros k' events'. rewrite lookup_insert_Some.
    intros [[<- <-]|[_ Hk']]; [|eauto]. specialize (bd_each0 k events Hk). lia.
Qed.

Lemma prune_early_events_progress c now c' e :
  prune_early_events c now = (c', e) -> progress c c'.
Proof.
  unfold prune_early_events. generalize (merge_sort Z.le (map_to_list (early_event_buffer c)).*1).
  intros ids. revert c c' e. induction ids as [|k ids IH]; intros c c' e; cbn [prune_each].
  { intros [= <- <-]. apply progress_refl. }
  destruct (prune_session_events c k now) as [c1 e1] eqn:H1.
  destruct (prune_each c1 ids now) as [c2 e2] eqn:H2. intros [= <- <-].
  apply (progress_trans c c1); [by eapply prune_session_events_progress|by eapply IH].
Qed.

(** ** Sessions and their requests *)

(** Sessions and requests change, the buffer does not; [n] counts both. *)
Lemma sessions_progress c c' :
  constants c' = constants c -> state c' = state c ->
  local_goaway_sent c' = local_goaway_sent c ->
  early_event_buffer c' = early_event_buffer c -> early_event_count c' = early_event_count c ->
  (bounded c -> refuses c -> dom (sessions c') ⊆ dom (sessions c)) ->
  (bounded c -> (is_client c = false -> session_requests c' = ∅)
     /\ (0 < max_sessions c -> Z.of_nat (size (sessions c') + size (session_requests c'))
                               <= max_sessions c)) ->
  progress c c'.
Proof.
  intros Hk Hs Hg Hb Hn Hd Hreq.
  pose proof Hk as Hk'. unfold constants in Hk'. injection Hk' as _ Hcl _ Hmc Hms Hmx _ _ _ _ _ _ _ _.
  split; [done|unfold rank; by rewrite Hs|congruence|done|].
  intros Hbd. destruct (Hreq Hbd). destruct Hbd.
  split; unfold buffered_events in *; rewrite ?Hb, ?Hn, ?Hcl, ?Hmc, ?Hms, ?Hmx; done.
Qed.

Lemma size_insert_le {A} (m : gmap Z A) i x : (size (<[i := x]> m) <= S (size m))%nat.
Proof.
  destruct (m !! i) as [y|] eqn:E; [rewrite map_size_insert_Some; [lia|by eexists]|].
  by rewrite map_size_insert_None.
Qed.

Lemma size_delete_le {A} (m : gmap Z A) i : (size (delete i m) <= size m)%nat.
Proof.
  destruct (m !! i) as [y|] eqn:E; [|by rewrite delete_id].
  rewrite map_size_delete_Some; [lia|by eexists].
Qed.

Lemma size_move {A B} (m : gmap Z A) (n : gmap Z B) i x r :
  is_Some (n !! r) -> (size (<[i := x]> m) + size (delete r n) <= size m + size n)%nat.
Proof.
  intros [y Hy]. pose proof (size_insert_le m i x). rewrite (map_size_delete_Some r n) by by eexists.
  assert (size n <> 0%nat); [|lia]. intros H0%map_size_empty_inv. by rewrite H0 in Hy.
Qed.

Lemma drop_request_progress c r :
  progress c (c <| session_requests := delete r (session_requests c) |>).
Proof.
  apply sessions_progress; try done. intros []. split; simpl.
  - intros Hcl. by rewrite (bd_server0 Hcl), delete_empty.
  - intros Hm. specialize (bd_sessions0 Hm). pose proof (size_delete_le (session_requests c) r). lia.
Qed.

Lemma create_session_progress c r request c' e :
  create_session c r request = (c', e) -> progress c c'.
Proof.
  unfold create_session. destruct (is_client c) eqn:Hcl; cbn [negb]; [|intros [= <- <-]; auto with wt].
  destruct (negb (is_connected c)); [intros [= <- <-]; auto with wt|].
  destruct (peer_goaway_received c); [intros [= <- <-]; auto with wt|].
  destruct (_ && _) eqn:Hlim; [intros [= <- <-]; auto with wt|].
  destruct (negb _); [intros [= <- <-]; auto with wt|].
  destruct (with_protocols request) as [req|]; [|intros [= <- <-]; auto with wt].
  intros [<- _]%pair_eq. apply sessions_progress; try done. intros []. split; simpl.
  - by rewrite Hcl.
  - intros Hm. pose proof (size_insert_le (session_requests c) r req).
    unfold active_limit in Hlim. apply andb_false_iff in Hlim.
    rewrite Z.ltb_ge, Z.leb_gt in Hlim. destruct (has_flow_control c); lia.
Qed.

(** A request turns into a session. *)
Lemma promote_progress c i s r :
  is_Some (session_requests c !! r) ->
  progress c (c <| session_requests := delete r (session_requests c) |>
                <| sessions := <[i := s]> (sessions c) |>).
Proof.
  intros Hr. apply sessions_progress; try done.
  - intros Hb [Hcl _]. rewrite (bd_server c Hb Hcl) in Hr. by destruct Hr.
  - intros []. split; simpl.
    + intros Hcl. by rewrite (bd_server0 Hcl), delete_empty.
    + intros Hm. specialize (bd_sessions0 Hm).
      pose proof (size_move (sessions c) (session_requests c) i s r Hr). lia.
Qed.

Lemma bind_session_progress c i r c' e : bind_session c i r = (c', e) -> progress c c'.
Proof.
  unfold bind_session. simpl. destruct (session_requests c !! r) as [req|] eqn:Hr.
  - destruct (SessionRequest.optimistic req); intros [<- _]%pair_eq.
    + eapply progress_trans; [apply (promote_progress c i (session_of_request c i req) r); by eexists|].
      by apply progress_frame.
    + by apply progress_frame.
  - intros [<- _]%pair_eq. by apply progress_frame.
Qed.

Lemma establish_session_progress c i r protocol now c' e :
  establish_session c i r protocol now = (c', e) -> progress c c'.
Proof.
  unfold establish_session. destruct (sessions c !! i) as [s|] eqn:Hs.
  - destruct (Session.confirm s protocol now) as [s' e1]. intros [<- _]%pair_eq.
    by eapply session_only_progress.
  - destruct (session_requests c !! r) as [req|] eqn:Hr; [|intros [= <- <-]; auto with wt].
    destruct (Session.confirm _ protocol now) as [s' e1]. intros [<- _]%pair_eq.
    apply (promote_progress c i s' r). by eexists.
Qed.

Lemma recv_response_progress c i headers now c' e :
  recv_response c i headers now = (c', e) -> progress c c'.
Proof.
  unfold recv_response. destruct (pending_session_requests c !! i) as [r|];
    [|intros [= <- <-]; auto with wt].
  set (c0 := c <| pending_session_requests := _ |>).
  assert (H0 : progress c c0) by by apply progress_frame.
  assert (Hdrop : forall code reason c2 e2,
    abandon_session (c0 <| session_requests := delete r (session_requests c0) |>) i r code reason now
      = (c2, e2) -> progress c c2).
  { intros code reason c2 e2 He%with_session_progress.
    apply (progress_trans c c0); [done|]. eapply progress_trans; [apply drop_request_progress|exact He]. }
  destruct (offered_protocols c0 i r) as [offered|]; [|by intros [= <- <-]].
  destruct (bool_decide _).
  - destruct (is_valid_protocol offered _).
    + destruct (establish_session c0 i r _ now) as [c1 e1] eqn:He.
      destruct (replay_early_events c1 i now) as [c2 e2] eqn:Hr. intros [= <- <-].
      apply (progress_trans c c0); [done|]. apply (progress_trans c0 c1);
        [by eapply establish_session_progress|by eapply replay_early_events_progress].
    + destruct (is_session_stream c0 i); [|by apply Hdrop].
      intros He%with_session_progress. by apply (progress_trans c c0).
  - destruct (abandon_session _ i r _ _ now) as [c1 e1] eqn:He.
    destruct (replay_early_events c1 i now) as [c2 e2] eqn:Hr. intros [= <- <-].
    apply (progress_trans c c1); [by eapply Hdrop|by eapply replay_early_events_progress].
Qed.

(** A server takes a session only while it is connected, below its limit and
    before it says GOAWAY. *)
Lemma recv_request_progress c i headers now c' e :
  is_client c = false -> recv_request c i headers now = (c', e) -> progress c c'.
Proof.
  intros Hcl. unfold recv_request.
  destruct (is_session_stream c i); [intros [= <- <-]; auto with wt|].
  destruct (is_connected c) eqn:Hcon; cbn [negb]; [|intros [= <- <-]; auto with wt].
  destruct (local_goaway_sent c) eqn:Hg; [intros [= <- <-]; auto with wt|].
  destruct (_ && _) eqn:Hlim; [intros [= <- <-]; auto with wt|].
  destruct (negb _); [intros [= <- <-]; auto with wt|].
  set (s := Session.new _ _ _ _ _ _ _).
  destruct (replay_early_events _ i now) as [c1 e1] eqn:Hr. intros [= <- <-].
  eapply progress_trans; [|by eapply replay_early_events_progress].
  apply bool_decide_eq_true in Hcon. apply sessions_progress; try done.
  - intros _ [_ [?|Hrank]]; [congruence|]. unfold rank in Hrank. rewrite Hcon in Hrank. simpl in Hrank. lia.
  - intros []. split; [done|]. intros Hm. simpl. rewrite (bd_server0 Hcl), map_size_empty.
    pose proof (size_insert_le (sessions c) i s).
    unfold active_limit in Hlim. apply andb_false_iff in Hlim.
    rewrite Z.ltb_ge, Z.leb_gt in Hlim. destruct (has_flow_control c); lia.
Qed.

Lemma recv_headers_progress c i headers now c' e :
  recv_headers c i headers now = (c', e) -> progress c c'.
Proof.
  unfold recv_headers. destruct (is_client c) eqn:Hcl.
  - apply recv_response_progress.
  - by apply recv_request_progress.
Qed.

Lemma prune_resources_progress c : progress c (prune_resources c).
Proof.
  assert (Hd : filter (fun '(_, s) => Session.is_closed s = false) (sessions c) ⊆ sessions c)
    by apply map_filter_subseteq.
  apply sessions_progress; try done.
  - intros _ _. by apply subseteq_dom.
  - intros []. split; [done|]. intros Hm. specialize (bd_sessions0 Hm).
    apply subseteq_dom in Hd. apply subseteq_size in Hd. rewrite !size_dom in Hd. simpl. lia.
Qed.

(** ** The connection itself *)

(** The state moves on; sessions and requests are untouched. *)
Lemma state_progress c c' :
  constants c' = constants c -> (rank c <= rank c')%nat ->
  (local_goaway_sent c = true -> local_goaway_sent c' = true) ->
  sessions c' = sessions c -> session_requests c' = session_requests c ->
  early_event_buffer c' = early_event_buffer c -> early_event_count c' = early_event_count c ->
  progress c c'.
Proof.
  intros Hk Hr Hg Hs Hreq Hb Hn.
  pose proof Hk as Hk'. unfold constants in Hk'. injection Hk' as _ Hcl _ Hmc Hms Hmx _ _ _ _ _ _ _ _.
  split; [done..|by rewrite Hs|]. intros [].
  split; unfold buffered_events in *; rewrite ?Hb, ?Hn, ?Hcl, ?Hmc, ?Hms, ?Hmx, ?Hs, ?Hreq; done.
Qed.

Lemma open_connection_progress c now c' e :
  (rank c <= 2)%nat -> open c now = (c', e) -> progress c c'.
Proof.
  intros Hr. unfold open. simpl. destruct (request_id c); intros [<- _]%pair_eq; by apply state_progress.
Qed.

Lemma handle_handshake_completed_progress c now c' e :
  handle_handshake_completed c now = (c', e) -> progress c c'.
Proof.
  unfold handle_handshake_completed.
  set (c1 := if bool_decide (state c = ConnectionState.Idle) then _ else _).
  assert (H1 : progress c c1).
  { unfold c1. destruct (bool_decide_reflect (state c = ConnectionState.Idle)) as [E|_];
      [|apply progress_refl]. apply state_progress; try done. unfold rank. rewrite E. simpl. lia. }
  clearbody c1. destruct (bool_decide_reflect (state c1 = ConnectionState.Connecting)) as [E|_];
    cbn [negb]; [|by intros [= <- <-]].
  assert (H2 : progress c (c1 <| handshake_completed := true |>))
    by (apply (progress_trans c c1); [done|by apply state_progress]).
  destruct (_ || _); [|by intros [<- _]%pair_eq].
  destruct (open _ now) as [c2 e2] eqn:Ho. intros [= <- <-].
  eapply progress_trans; [exact H2|]. eapply open_connection_progress; [|exact Ho].
  unfold rank. simpl. rewrite E. simpl. lia.
Qed.

Lemma recv_settings_progress c settings now c' e :
  recv_settings c settings now = (c', e) -> progress c c'.
Proof.
  unfold recv_settings. set (c1 := c <| peer_settings_received := true |> <| peer_initial_max_data := _ |>
               <| peer_initial_max_streams_bidi := _ |> <| peer_initial_max_streams_uni := _ |>).
  assert (H1 : progress c c1) by by apply state_progress.
  destruct (bool_decide_reflect (state c1 = ConnectionState.Connecting)) as [E|_]; cbn [andb];
    [|by intros [= <- <-]].
  destruct (handshake_completed c1); [|by intros [= <- <-]].
  intros Ho. apply (progress_trans c c1); [done|]. eapply open_connection_progress; [|exact Ho].
  unfold rank. rewrite E. simpl. lia.
Qed.

Lemma recv_max_streams_progress c u c' e : recv_max_streams c u = (c', e) -> progress c c'.
Proof.
  unfold recv_max_streams. destruct u; simpl.
  - destruct (all_sessions c _) as [c2 e2] eqn:Hd. intros [= <- <-].
    by eapply all_sessions_progress.
  - destruct (all_sessions _ _) as [c2 e2] eqn:Hd. intros [= <- <-].
    eapply progress_trans; [|by eapply all_sessions_progress]. by apply state_progress.
Qed.

Lemma delete_all_subseteq {A} (m : gmap Z A) rs : foldr (fun r n => delete r n) m rs ⊆ m.
Proof. induction rs as [|r rs IH]; [done|]. simpl. etrans; [apply delete_subseteq|exact IH]. Qed.

Lemma recv_goaway_progress c c' e : recv_goaway c = (c', e) -> progress c c'.
Proof.
  unfold recv_goaway. destruct (all_sessions _ Session.drain) as [c2 e2] eqn:Hd. intros [= <- <-].
  eapply progress_trans; [|by eapply all_sessions_progress].
  pose proof (delete_all_subseteq (session_requests c) (blocked_session_requests c)) as Hm.
  apply sessions_progress; try done. intros []. split; simpl.
  - intros Hcl. rewrite (bd_server0 Hcl) in *.
    apply (anti_symm (⊆)); [exact Hm|apply map_empty_subseteq].
  - intros Hx. specialize (bd_sessions0 Hx). apply subseteq_dom, subseteq_size in Hm.
    rewrite !size_dom in Hm. lia.
Qed.

Lemma close_progress c r code reason now c' e : close c r code reason now = (c', e) -> progress c c'.
Proof.
  unfold close. destruct (state c) eqn:E; intros [<- _]%pair_eq; try apply progress_refl;
    apply state_progress; try done; unfold rank; rewrite E; simpl; lia.
Qed.

Lemma close_gracefully_progress c r c' e : close_gracefully c r = (c', e) -> progress c c'.
Proof.
  unfold close_gracefully. destruct (negb (is_connected c)); [intros [= <- <-]; auto with wt|].
  destruct (negb (local_goaway_sent c));
    destruct (all_sessions _ Session.drain) as [c2 e2] eqn:Hd; intros [= <- <-]; [|by eapply all_sessions_progress].
  eapply progress_trans; [|by eapply all_sessions_progress]. by apply state_progress.
Qed.

Lemma handle_terminated_progress c code reason now c' e :
  handle_terminated c code reason now = (c', e) -> progress c c'.
Proof.
  unfold handle_terminated. destruct (bool_decide (state c = ConnectionState.Closed));
    [intros [= <- <-]; auto with wt|].
  set (c1 := if bool_decide (state c = ConnectionState.Closing) then c else _).
  assert (H1 : progress c c1)
    by (unfold c1; destruct (bool_decide _); [apply progress_refl|by apply state_progress]).
  clearbody c1. destruct (all_sessions _ _) as [c2 e2] eqn:Hd. intros [= <- <-].
  apply (progress_trans c c1); [done|]. eapply progress_trans; [|by eapply all_sessions_progress].
  split; try done; simpl.
  - unfold rank. destruct (state c1); simpl; lia.
  - intros []. split; try done. simpl. rewrite map_size_empty. lia.
Qed.

Lemma bind_stream_progress c k i r u now c' e :
  bind_stream c k i r u now = (c', e) -> progress c c'.
Proof.
  unfold bind_stream. destruct (sessions c !! k) as [s|] eqn:Hk; [|intros [= <- <-]; auto with wt].
  destruct (Session.bind_stream s i r u now) as [s' e1]. intros [<- _]%pair_eq.
  destruct (Session.has_stream s' i); [by eapply session_progress|by eapply session_only_progress].
Qed.

Lemma step_progress c o c' e : step o c = (c', e) -> progress c c'.
Proof.
  destruct o; cbn [step]; try (intros [= <- <-]; apply progress_refl);
    try (apply with_session_progress); try (apply with_stream_progress);
    try (by intros [= <- <-]; apply progress_refl);
    try (apply with_session_progress);
    eauto using bind_session_progress, close_progress, close_gracefully_progress,
      create_session_progress, handle_handshake_completed_progress, handle_stream_opened_progress,
      handle_terminated_progress, prune_early_events_progress, recv_datagram_progress,
      recv_goaway_progress, recv_headers_progress, recv_max_streams_progress,
      recv_settings_progress, bind_stream_progress.
  - intros [<- _]%pair_eq. by apply progress_frame.
  - intros [<- _]%pair_eq. apply drop_request_progress.
  - intros [<- _]%pair_eq. apply prune_resources_progress.
  - intros [<- _]%pair_eq. by apply progress_frame.
  - destruct (_ && _); intros [= <- <-]; apply progress_refl.
Qed.

(** ** What moves the state *)

(** The events that can change the state of the connection. *)
Definition moves (o : op) : bool :=
  match o with
  | OpClose _ _ _ _ | OpHandshakeCompleted _ | OpSettings _ _ | OpTerminated _ _ _ => true
  | _ => false
  end.

Lemma with_session_state c i f otherwise : state (with_session c i f otherwise).1 = state c.
Proof. unfold with_session. destruct (sessions c !! i) as [s|]; [|done]. by destruct (f s). Qed.

Lemma with_stream_state c i f otherwise :
  state otherwise.1 = state c -> state (with_stream c i f otherwise).1 = state c.
Proof.
  intros Ho. unfold with_stream. destruct (session_of_stream c i) as [[k s]|]; [|done].
  destruct (f s) as [s' e]. by destruct (Session.has_stream s' i).
Qed.

Lemma all_sessions_state c f : state (all_sessions c f).1 = state c.
Proof. destruct (all_sessions c f) as [c' e] eqn:Hd. by apply all_sessions_spec in Hd as ->. Qed.

Lemma handle_stream_opened_state c k i now : state (handle_stream_opened c k i now).1 = state c.
Proof.
  unfold handle_stream_opened. destruct (sessions c !! k) as [s|].
  - destruct (Session.handle_stream_opened s i now) as [s' e]. by destruct (Session.has_stream s' i).
  - unfold buffer_early_event. destruct (_ <=? _); [done|]. by destruct (_ <=? _).
Qed.

Lemma recv_datagram_state c k data now : state (recv_datagram c k data now).1 = state c.
Proof.
  unfold recv_datagram. destruct (sessions c !! k) as [s|]; [by destruct (Session.recv_datagram s data)|].
  unfold buffer_early_event. destruct (_ <=? _); [done|]. by destruct (_ <=? _).
Qed.

Lemma replay_early_events_state c k now : state (replay_early_events c k now).1 = state c.
Proof.
  assert (Hr : forall events c present, state (replay_events c present events now).1 = state c).
  { clear. induction events as [|[at_ event] rest IH]; intros c present; [done|]. cbn [replay_events].
    assert (H1 : state (replay_event c present event now).1 = state c).
    { unfold replay_event. destruct event; try done; destruct present; try done;
        [apply recv_datagram_state|apply handle_stream_opened_state]. }
    destruct (replay_event c present event now) as [c1 e1]. specialize (IH c1 present).
    destruct (replay_events c1 _ _ _). cbn in *. congruence. }
  unfold replay_early_events. destruct (early_event_buffer c !! k); [|done]. by rewrite Hr.
Qed.

Lemma prune_early_events_state c now : state (prune_early_events c now).1 = state c.
Proof.
  unfold prune_early_events. generalize (merge_sort Z.le (map_to_list (early_event_buffer c)).*1).
  intros ids. revert c. induction ids as [|k ids IH]; intros c; [done|]. cbn [prune_each].
  assert (H1 : state (prune_session_events c k now).1 = state c)
    by (unfold prune_session_events; by destruct (early_event_buffer c !! k)).
  destruct (prune_session_events c k now) as [c1 e1]. specialize (IH c1).
  destruct (prune_each c1 ids now). cbn in *. congruence.
Qed.

Lemma recv_headers_state c i headers now : state (recv_headers c i headers now).1 = state c.
Proof.
  unfold recv_headers. destruct (is_client c).
  - unfold recv_response. destruct (pending_session_requests c !! i) as [r|]; [|done].
    cbv zeta. set (c1 := c <| pending_session_requests := _ |>).
    change (state c) with (state c1). clearbody c1.
    destruct (offered_protocols c1 i r) as [offered|]; [|done].
    assert (Ha : forall c code reason, state (abandon_session c i r code reason now).1 = state c)
      by (intros; apply with_session_state).
    assert (Hp : forall r : t * list Effect.t, state r.1 = state c1 ->
      state (let '(c, e) := r in
             let '(c, replayed) := replay_early_events c i now in (c, e ++ replayed)).1 = state c1).
    { intros [c2 e2] H1. pose proof (replay_early_events_state c2 i now) as H2.
      destruct (replay_early_events c2 i now). cbn in *. congruence. }
    case_bool_decide; [|apply Hp; by rewrite Ha].
    destruct (is_valid_protocol _ _); [|rewrite Ha; by destruct (is_session_stream c1 i)].
    apply Hp. unfold establish_session.
    destruct (sessions c1 !! i) as [s|]; [by destruct (Session.confirm s _ _)|].
    destruct (session_requests c1 !! r); [|done]. by destruct (Session.confirm _ _ _).
  - unfold recv_request. destruct (is_session_stream c i); [done|].
    destruct (negb (is_connected c)); [done|]. destruct (local_goaway_sent c); [done|].
    destruct (_ && _); [done|]. destruct (negb _); [done|]. cbv zeta.
    match goal with |- context [replay_early_events ?c ?i ?n] =>
      pose proof (replay_early_events_state c i n) as H1; destruct (replay_early_events c i n) end.
    done.
Qed.

Ltac keeps_state :=
  cbv beta iota zeta delta [negb];
  match goal with |- context [all_sessions ?c ?f] =>
    pose proof (all_sessions_state c f); by destruct (all_sessions c f)
  end.

Lemma step_state o c : moves o = false -> state (step o c).1 = state c.
Proof.
  destruct o; cbn [moves step]; intros; try done;
    try (apply with_session_state); try (apply with_stream_state; done);
    auto using handle_stream_opened_state, recv_datagram_state, recv_headers_state,
      prune_early_events_state.
  - unfold bind_session. simpl. destruct (session_requests c !! r) as [q|]; [|done].
    by destruct (SessionRequest.optimistic q).
  - unfold bind_stream. destruct (sessions c !! session_id) as [s|]; [|done].
    destruct (Session.bind_stream s _ _ _ _) as [s' e]. by destruct (Session.has_stream s' _).
  - unfold close_gracefully. destruct (negb (is_connected c)); [done|].
    destruct (negb (local_goaway_sent c)); keeps_state.
  - unfold create_session. destruct (negb _); [done|]. destruct (negb _); [done|].
    destruct (peer_goaway_received c); [done|]. destruct (_ && _); [done|].
    destruct (negb _); [done|]. by destruct (with_protocols request).
  - unfold recv_goaway. keeps_state.
  - unfold recv_max_streams. destruct is_unidirectional; keeps_state.
  - apply with_stream_state, with_session_state.
  - apply with_stream_state, with_session_state.
  - apply with_stream_state. by destruct (_ && _).
Qed.

(** ** Along a run *)

Lemma reachable_progress c0 c w : reachable c0 c w -> progress c0 c.
Proof.
  induction 1 as [|c w o c' e creating' connecting' _ IH _ _ _ _ Hs]; [apply progress_refl|].
  apply (progress_trans c0 c); [done|by eapply step_progress].
Qed.

Lemma new_bounded h r client p :
  is_u64 (ConnectionParameters.max_connection_pending_events p) ->
  0 <= ConnectionParameters.max_sessions p -> bounded (new h r client p).
Proof.
  intros Hp Hm. unfold is_u64 in Hp. split; try done. by simpl; lia.
Qed.

End ConnL.
