(* ===== verification/ConnectionTheorems.v ===== *)
(** * What holds of every connection

    The properties of the connection layer.  The example run at the end drives a
    server connection with two sessions through the executable [drive]. *)

From S2P Require Import Prelude.
From S2P Require Import Types.
From S2P Require Import Events.
From S2P Require Import Utils.
From S2P Require Import StreamMachine.
From S2P Require Import SessionMachine.
From S2P Require Import SessionProps.
From S2P Require Import SessionRuns.
From S2P Require Import SessionTheorems.
From S2P Require Import SessionStreams.
From S2P Require Import ConnectionMachine.
From S2P Require Import ConnectionProps.
From S2P Require Import ConnectionRuns.
From S2P Require Import ConnectionRequests.
From S2P Require Import ConnectionSteps.
From S2P Require Import ConnectionLimits.

Module ConnT.
Import Connection ConnP ConnR ConnQ ConnS ConnL.

Section reached.
Context (p : ConnectionParameters.t) (c0 c : t) (w : world).


(** C9: every session of a reachable connection is in a state the session machine
    reaches on its own, from a fresh session, with exactly the stream creations
    the transport still owes it and on requests submitted to the connection: the
    routing of the connection refines the session machine, so every property of a
    session holds inside a connection. *)
Theorem connection_refines_sessions i s :
  fresh p c0 -> reachable c0 c w -> sessions c !! i = Some s ->
  Session.id s = i /\ Session.is_client s = is_client c
  /\ exists sp s0 creating submitted' effects,
       SessionT.fresh sp s0 /\ SessionR.reachable s0 s creating submitted' effects
       /\ creating ≡ₚ mine i (ConnR.creating w) /\ submitted' ⊆ submitted w.
Proof.
  intros Hp Hr Hi. destruct (inv_routed c w (reachable_inv p c0 c w Hp Hr)).
  destruct (rt_named0 i s Hi) as (? & ? & _). split_and!; [done|done|by apply rt_simulated0].
Qed.

(** The stream map sends every stream a session holds to that session, so a
    stream belongs to one session only and no event of a stream reaches another
    session. *)
Theorem connection_routes_to_owner i j k s st :
  fresh p c0 -> reachable c0 c w -> sessions c !! i = Some s ->
  Session.streams s !! j = Some st ->
  session_of_stream c j = Some (i, s)
  /\ (forall s', sessions c !! k = Some s' -> is_Some (Session.streams s' !! j) -> k = i).
Proof.
  intros Hp Hr Hi Hj. destruct (inv_routed c w (reachable_inv p c0 c w Hp Hr)).
  destruct (rt_streams0 i s j Hi) as (Hm & _ & _); [by eexists|]. split.
  - unfold session_of_stream. rewrite Hm. simpl. by rewrite Hi.
  - intros s' Hk Hs'. destruct (rt_streams0 k s' j Hk Hs') as (Hm' & _ & _). congruence.
Qed.

Lemma closed_sessions_empty :
  fresh p c0 -> reachable c0 c w -> state c = ConnectionState.Closed ->
  forall i s, sessions c !! i = Some s ->
    Session.state s = SessionState.Closed /\ Session.streams s = ∅ /\ SessionP.requests s = [].
Proof.
  intros Hp Hr Hst i s Hi. pose proof (reachable_inv p c0 c w Hp Hr) as Hinv.
  destruct (inv_ended c w Hinv Hst) as [_ _ _ Hse].
  pose proof (rt_simulated _ _ _ _ _ _ _ (inv_routed c w Hinv) i s Hi) as Hs.
  destruct (simulated_wf _ _ _ Hs) as [Hwf _].
  destruct (SessionP.wf_ended s Hwf) as (? & ? & _); [|by split; [eapply Hse|]].
  unfold Session.is_active. by rewrite (Hse i s Hi).
Qed.

Lemma closed_holds_nothing :
  fresh p c0 -> reachable c0 c w -> state c = ConnectionState.Closed -> held c = [].
Proof.
  intros Hp Hr Hst. pose proof (reachable_inv p c0 c w Hp Hr) as Hinv.
  destruct (inv_ended c w Hinv Hst) as [Hsr _ Hid _].
  unfold held, own. rewrite Hsr, Hid, map_to_list_empty. simpl.
  destruct (collect SessionP.requests (sessions c)) as [|x l] eqn:E; [done|].
  assert (Hx : x ∈ collect SessionP.requests (sessions c)) by (rewrite E; by left).
  apply elem_of_collect in Hx as (i & s & Hi & Hx).
  destruct (closed_sessions_empty Hp Hr Hst i s Hi) as (_ & _ & Hq).
  rewrite Hq in Hx. by apply not_elem_of_nil in Hx.
Qed.

(** Once the connection is closed every session it still holds is closed, no
    request is held by the connection or by a session, and every request was
    answered or waits for a stream the transport will not open any more. *)
Theorem connection_end_releases_all :
  fresh p c0 -> reachable c0 c w -> state c = ConnectionState.Closed ->
  (forall i s, sessions c !! i = Some s ->
     Session.state s = SessionState.Closed /\ Session.streams s = ∅)
  /\ session_requests c = ∅ /\ request_id c = None /\ held c = []
  /\ submitted w ≡ₚ answered (emitted w) ++ (requester <$> creating w).
Proof.
  intros Hp Hr Hst. pose proof (reachable_inv p c0 c w Hp Hr) as Hinv.
  destruct (inv_ended c w Hinv Hst) as [Hsr _ Hid _].
  split_and!; try done.
  - intros i s Hi. by destruct (closed_sessions_empty Hp Hr Hst i s Hi) as (? & ? & _).
  - by apply closed_holds_nothing.
  - by rewrite (inv_ledger c w Hinv), closed_holds_nothing.
Qed.

End reached.

(** What a peer can make a connection hold is bounded: the events buffered for
    sessions that do not exist never exceed the limit of the connection, nor
    those of one session the limit per session, and sessions together with
    pending session requests never exceed [max_sessions]. *)
Theorem connection_bounds_memory p c0 c w :
  fresh p c0 -> is_u64 (ConnectionParameters.max_connection_pending_events p) ->
  0 <= ConnectionParameters.max_sessions p -> reachable c0 c w ->
  buffered_events c <= ConnectionParameters.max_connection_pending_events p
  /\ (forall k events, early_event_buffer c !! k = Some events ->
        len events <= Z.max 0 (ConnectionParameters.max_session_pending_events p))
  /\ (0 < ConnectionParameters.max_sessions p ->
      Z.of_nat (size (sessions c) + size (session_requests c))
        <= ConnectionParameters.max_sessions p).
Proof.
  intros (_ & h & r & client & ->) Hu Hm Hr. destruct (reachable_progress _ _ _ Hr).
  destruct (pr_bounded0 (new_bounded h r client p Hu Hm)).
  unfold constants in pr_constants0. injection pr_constants0 as _ _ _ E1 E2 E3 _ _ _ _ _ _ _ _.
  rewrite E1 in *. rewrite E2, E3 in *. split_and!; [congruence|done|done].
Qed.

(** The state of a connection only moves forward, its limits never change, and
    once a server has sent GOAWAY or is closing no event adds a session. *)
Theorem connection_moves_forward p c0 c w o c' e :
  fresh p c0 -> is_u64 (ConnectionParameters.max_connection_pending_events p) ->
  0 <= ConnectionParameters.max_sessions p -> reachable c0 c w -> step o c = (c', e) ->
  (state_rank (state c) <= state_rank (state c'))%nat /\ constants c' = constants c
  /\ (is_client c = false -> local_goaway_sent c = true \/ (3 <= rank c)%nat ->
      dom (sessions c') ⊆ dom (sessions c)).
Proof.
  intros (_ & h & r & client & ->) Hu Hm Hr Hs. destruct (step_progress _ _ _ _ Hs).
  destruct (reachable_progress _ _ _ Hr) as [_ _ _ _ Hb].
  split_and!; [done|done|]. intros Hcl Hg. apply pr_refuses0; [by apply Hb, new_bounded|by split].
Qed.

(** ** Running a list of events *)

Definition settings_okb (settings : H3Settings.t) : bool :=
  let within (limit : Z) (v : option Z) :=
    match v with Some z => (0 <=? z) && (z <=? limit) | None => true end in
  within QUIC_VARINT_LIMIT (H3Settings.wt_initial_max_data settings)
  && within U64_MAX (H3Settings.wt_initial_max_streams_bidi settings)
  && within U64_MAX (H3Settings.wt_initial_max_streams_uni settings).

Definition transport_okb (c : t) (w : world) (o : op) : bool :=
  match o with
  | OpBindStream _ i _ _ _ =>
      bool_decide (i ∉ seen w) && negb (utils.is_peer_initiated_stream i (is_client c))
  | OpStreamOpened _ i _ =>
      bool_decide (i ∉ seen w) && utils.is_peer_initiated_stream i (is_client c)
  | OpBindSession i _ =>
      bool_decide (i ∉ seen w) && bool_decide (state c <> ConnectionState.Closed)
  | OpFailSession _ _ _ | OpGoaway => bool_decide (state c <> ConnectionState.Closed)
  | OpHeaders i _ _ =>
      bool_decide (i ∉ destroyed w)
      && (is_client c || is_session_stream c i || bool_decide (i ∉ seen w))
  | OpAcknowledged i =>
      match session_of_stream c i with
      | Some (_, s) =>
          match Session.streams s !! i with
          | Some st => bool_decide (Stream.pending_write_request st = None)
          | None => true
          end
      | None => true
      end
  | OpWriteStream _ _ data _ | OpStreamData _ data _ _ => len data <=? ISIZE_MAX
  | OpSettings settings _ => settings_okb settings
  | _ => true
  end.

Lemma settings_okb_sound settings : settings_okb settings = true -> settings_ok settings.
Proof.
  unfold settings_okb, settings_ok, is_u64. intros H. bool_to_prop.
  split_and!; intros v E; rewrite E in *; bool_to_prop; lia.
Qed.

Lemma conn_transport_okb_sound c w o : transport_okb c w o = true -> transport_ok c w o.
Proof.
  destruct o; simpl; try done; intros H; try (by bool_to_prop; auto).
  - intros k s st Hs Hst. rewrite Hs, Hst in H. by bool_to_prop.
  - bool_to_prop. split; [done|]. intros Hcl. rewrite Hcl in *. simpl in *.
    apply orb_true_iff in H0 as [H0|H0]; apply bool_decide_eq_true in H0; auto.
  - by apply settings_okb_sound.
Qed.

(** What is left in flight once the transport came back with [xs]. *)
Definition remaining {A} `{EqDecision A} (xs l : list A) : option (list A) :=
  match xs with [] => Some l | x :: _ => SessionR.remove_first x l end.

Lemma remaining_spec {A} `{EqDecision A} (xs l l' : list A) :
  (length xs <= 1)%nat -> remaining xs l = Some l' -> l ≡ₚ xs ++ l'.
Proof.
  destruct xs as [|x [|]]; simpl; [by intros _ [= ->]| |lia].
  intros _. apply SessionR.remove_first_Some.
Qed.

Lemma returns_one o : (length (returns o) <= 1)%nat /\ (length (connected o) <= 1)%nat.
Proof. destruct o; simpl; lia. Qed.

(** One event of a run, if the layers below can produce it. *)
Definition advance (o : op) (cw : t * world) : option (t * world) :=
  let '(c, w) := cw in
  if transport_okb c w o && bool_decide (NoDup (submitted w ++ submits o)) then
    creating' ← remaining (returns o) (creating w);
    connecting' ← remaining (connected o) (connecting w);
    let '(c', e) := step o c in
    Some (c', next w creating' connecting' (names c o) (gone c o) (submits o) e)
  else None.

Fixpoint drive (ops : list op) (cw : t * world) : option (t * world) :=
  match ops with
  | [] => Some cw
  | o :: rest => cw' ← advance o cw; drive rest cw'
  end.

Lemma advance_sound c0 o c w c' w' :
  reachable c0 c w -> advance o (c, w) = Some (c', w') -> reachable c0 c' w'.
Proof.
  intros Hr. unfold advance. destruct (_ && _) eqn:Hg; [|done]. bool_to_prop.
  intros H1. apply bind_Some in H1 as (cr & Hcr & H1). apply bind_Some in H1 as (co & Hco & H1).
  destruct (step o c) as [c1 e] eqn:Hs. injection H1 as <- <-.
  apply (reachable_step c0 c w o c1 e cr co); try done; [by apply conn_transport_okb_sound|..].
  - by apply remaining_spec; [apply returns_one|].
  - by apply remaining_spec; [apply returns_one|].
Qed.

Definition reached (c0 : t) (cw : t * world) : Prop := reachable c0 cw.1 cw.2.

Lemma conn_drive_sound c0 ops cw cw' : reached c0 cw -> drive ops cw = Some cw' -> reached c0 cw'.
Proof.
  revert cw. induction ops as [|o ops IH]; intros [c w] Hr; cbn [drive]; [by intros [= <-]|].
  intros H. apply bind_Some in H as ([c1 w1] & Ha & Hd). apply (IH (c1, w1)); [|done].
  by eapply advance_sound.
Qed.

(** ** An example run

    A server connection: a stream of the second session arrives before the
    session does, the first session opens and writes a stream, the second takes
    its early stream over, the server says GOAWAY and the connection is lost. *)

Definition example_parameters : ConnectionParameters.t := {|
  ConnectionParameters.early_event_ttl := SessionT.zero;
  ConnectionParameters.initial_max_data := 1000;
  ConnectionParameters.initial_max_streams_bidi := 2;
  ConnectionParameters.initial_max_streams_uni := 2;
  ConnectionParameters.max_connection_pending_events := 8;
  ConnectionParameters.max_pending_capsules := 4;
  ConnectionParameters.max_pending_datagrams := 4;
  ConnectionParameters.max_pending_streams := 4;
  ConnectionParameters.max_session_pending_events := 2;
  ConnectionParameters.max_sessions := 2;
  ConnectionParameters.max_write_buffer_size := 65536;
  ConnectionParameters.session_receive_window := 1000;
|}.

Lemma conn_parameters_ok : parameters_ok example_parameters.
Proof. split; vm_compute; split; congruence. Qed.

Definition example_server : t := new 1 None false example_parameters.

Lemma server_fresh : fresh example_parameters example_server.
Proof. split; [apply conn_parameters_ok|]. by repeat eexists. Qed.

Definition example_settings : H3Settings.t := {|
  H3Settings.enable_connect_protocol := Some 1;
  H3Settings.h3_datagram := Some 1;
  H3Settings.max_field_section_size := None;
  H3Settings.qpack_blocked_streams := None;
  H3Settings.qpack_max_table_capacity := None;
  H3Settings.unknown := [];
  H3Settings.wt_enabled := Some 1;
  H3Settings.wt_initial_max_data := Some 100;
  H3Settings.wt_initial_max_streams_bidi := Some 4;
  H3Settings.wt_initial_max_streams_uni := Some 4;
|}.

Definition example_request : Headers :=
  [(b: ":method", b: "CONNECT"); (b: ":protocol", WT_UPGRADE_TOKEN); (b: ":path", b: "/chat")].

Definition example_opening : list op :=
  let now := SessionT.zero in
  [OpHandshakeCompleted now; OpSettings example_settings now; OpStreamOpened 4 2 now;
   OpHeaders 0 example_request now; OpAcceptSession 0 1 [] None now; OpCreateStream 0 2 false;
   OpBindStream 0 1 2 false now; OpWriteStream 1 3 (b: "hello") false; OpComplete 1].

Definition example_ending : list op :=
  let now := SessionT.zero in
  [OpHeaders 4 example_request now; OpAcceptSession 4 5 [] None now; OpReadDatagram 4 6;
   OpCloseGracefully 7; OpCreateStream 4 8 true; OpTerminated 0 (b: "idle") now].

Definition begin (c : t) : t * world := (c, start c).

(** While an event waits for the second session. *)
Definition example_open : t * world :=
  default (begin example_server) (drive example_opening (begin example_server)).
(** After the connection was lost. *)
Definition example_lost : t * world :=
  default (begin example_server) (drive example_ending example_open).

Lemma example_open_reached : reached example_server example_open.
Proof.
  eapply (conn_drive_sound _ example_opening (begin example_server));
    [apply reachable_start|vm_compute; reflexivity].
Qed.

Lemma example_lost_reached : reached example_server example_lost.
Proof.
  eapply (conn_drive_sound _ example_ending example_open);
    [apply example_open_reached|vm_compute; reflexivity].
Qed.

(** ** The properties at work on the example *)


Lemma connection_refines_sessions_witness :
  exists s, sessions example_open.1 !! 0 = Some s /\ Session.id s = 0
  /\ exists sp s0 creating submitted' effects,
       SessionT.fresh sp s0 /\ SessionR.reachable s0 s creating submitted' effects
       /\ creating ≡ₚ mine 0 (ConnR.creating example_open.2)
       /\ submitted' ⊆ submitted example_open.2.
Proof.
  eexists. split; [vm_compute; reflexivity|].
  destruct (connection_refines_sessions example_parameters example_server example_open.1
    example_open.2 0 _ server_fresh example_open_reached ltac:(vm_compute; reflexivity))
    as (H1 & _ & H2). split; [exact H1|exact H2].
Defined.

Lemma connection_routes_to_owner_witness :
  exists s, session_of_stream example_open.1 1 = Some (0, s).
Proof.
  eexists. eapply (connection_routes_to_owner example_parameters example_server example_open.1
    example_open.2 0 1 0); [apply server_fresh|apply example_open_reached
    |vm_compute; reflexivity|vm_compute; reflexivity].
Defined.

Lemma connection_end_releases_all_witness :
  size (sessions example_lost.1) = 2%nat /\ held example_lost.1 = [].
Proof.
  split; [vm_compute; reflexivity|].
  eapply (connection_end_releases_all example_parameters example_server example_lost.1);
    [apply server_fresh|apply example_lost_reached|vm_compute; reflexivity].
Defined.

Lemma connection_bounds_memory_witness :
  buffered_events example_open.1 = 1 /\ buffered_events example_open.1 <= 8.
Proof.
  split; [vm_compute; reflexivity|].
  eapply (connection_bounds_memory example_parameters example_server);
    [apply server_fresh|vm_compute; split; congruence|vm_compute; congruence
    |apply example_open_reached].
Defined.

Lemma connection_moves_forward_witness :
  (state_rank (state example_open.1)
     <= state_rank (state (step (OpCloseGracefully 9) example_open.1).1))%nat.
Proof.
  eapply (connection_moves_forward example_parameters example_server example_open.1 example_open.2
    (OpCloseGracefully 9) _ (step (OpCloseGracefully 9) example_open.1).2);
    [apply server_fresh|vm_compute; split; congruence|vm_compute; congruence
    |apply example_open_reached|apply surjective_pairing].
Defined.

End ConnT.
