(* ===== verification/ConnectionOutcomes.v ===== *)
(** * What single events of a connection do

    GOAWAY spares every session it was sent for, and a session request that waits
    for the response of the peer keeps waiting through every event but the
    response and the end of the connection. *)

From S2P Require Import Prelude.
From S2P Require Import Types.
From S2P Require Import Events.
From S2P Require Import Utils.
From S2P Require Import StreamMachine.
From S2P Require Import SessionMachine.
From S2P Require Import SessionTheorems.
From S2P Require Import ConnectionMachine.
From S2P Require Import ConnectionProps.
From S2P Require Import ConnectionRuns.
From S2P Require Import ConnectionRequests.
From S2P Require Import ConnectionSteps.
From S2P Require Import ConnectionTheorems.

Module ConnO.
Import Connection ConnP ConnR ConnQ ConnS ConnT.

(** ** GOAWAY *)

Lemma sorted_last (l : list Z) m x : StronglySorted Z.le l -> last l = Some m -> x ∈ l -> x <= m.
Proof.
  intros Hs. revert m x. induction Hs as [|y l Hs IH Hall]; intros m x Hl Hx; [done|].
  destruct l as [|z l]; [simpl in Hl; injection Hl as ->; apply list_elem_of_singleton in Hx; lia|].
  rewrite last_cons_cons in Hl. apply elem_of_cons in Hx as [->|Hx]; [|by apply IH].
  rewrite Forall_forall in Hall. etransitivity; [apply (Hall z); by left|]. apply (IH m z); [done|by left].
Qed.

Lemma session_ids_sorted c : StronglySorted Z.le (session_ids c).
Proof. apply (StronglySorted_merge_sort Z.le). Qed.

Lemma goaway_above c i :
  is_client c = false -> is_Some (sessions c !! i) -> 0 <= i -> i + QUIC_STREAM_TYPE_COUNT <= QUIC_VARINT_LIMIT ->
  i < goaway_identifier c.
Proof.
  intros Hcl Hi H0 Hmax. apply session_ids_spec in Hi. unfold goaway_identifier. rewrite Hcl.
  destruct (last (session_ids c)) as [m|] eqn:Hl.
  - pose proof (sorted_last _ _ _ (session_ids_sorted c) Hl Hi).
    unfold saturating_add. assert (QUIC_STREAM_TYPE_COUNT = 4) by done.
    assert (QUIC_VARINT_LIMIT < U64_MAX) by done. lia.
  - apply last_None in Hl. rewrite Hl in Hi. by apply not_elem_of_nil in Hi.
Qed.

(** Closing a server connection gracefully announces GOAWAY once, with a
    varint above the identifier of every session it holds, so none of them is
    disowned; every session is asked to drain, and the request is answered. *)
Theorem connection_goaway_spares_sessions c r c' e :
  is_client c = false -> state c = ConnectionState.Connected -> local_goaway_sent c = false ->
  close_gracefully c r = (c', e) ->
  (exists n drains, e = Effect.SendH3Goaway n :: drains ++ [request_done r]
     /\ n <= QUIC_VARINT_LIMIT
     /\ forall i, is_Some (sessions c !! i) -> 0 <= i ->
          i + QUIC_STREAM_TYPE_COUNT <= QUIC_VARINT_LIMIT -> i < n)
  /\ local_goaway_sent c' = true
  /\ forall i, sessions c' !! i = (fun s => (Session.drain s).1) <$> sessions c !! i.
Proof.
  intros Hcl Hst Hg. unfold close_gracefully, is_connected. rewrite Hst, Hg. simpl.
  destruct (all_sessions _ Session.drain) as [c2 e2] eqn:Hd. intros [= <- <-].
  apply all_sessions_spec in Hd as ->. split_and!; [|done|].
  - exists (goaway_identifier c), e2. split_and!; [done| |].
    + unfold goaway_identifier. rewrite Hcl. apply Z.le_min_r.
    + intros i. by apply goaway_above.
  - intros i. simpl. by rewrite lookup_fmap.
Qed.

Lemma connection_goaway_spares_sessions_witness :
  exists n drains, (close_gracefully example_open.1 9).2
    = Effect.SendH3Goaway n :: drains ++ [request_done 9] /\ 0 < n.
Proof.
  destruct (connection_goaway_spares_sessions example_open.1 9
    (close_gracefully example_open.1 9).1 (close_gracefully example_open.1 9).2)
    as [(n & drains & He & _ & Hn) _];
    [vm_compute; reflexivity|vm_compute; reflexivity|vm_compute; reflexivity
    |apply surjective_pairing|].
  exists n, drains. split; [exact He|]. apply Hn; [vm_compute; by eexists|lia|vm_compute; congruence].
Defined.

(** ** Waiting for a response *)

(** The request [r] waits for the response on the CONNECT stream [i]. *)
Definition awaits (c : t) (i : StreamId) (r : RequestId) : Prop :=
  pending_session_requests c !! i = Some r /\ is_Some (session_requests c !! r).

(** The bookkeeping of session requests is untouched. *)
Definition same_requests (c c' : t) : Prop :=
  session_requests c' = session_requests c
  /\ pending_session_requests c' = pending_session_requests c.

Lemma same_refl c : same_requests c c.
Proof. done. Qed.

Lemma same_trans c1 c2 c3 : same_requests c1 c2 -> same_requests c2 c3 -> same_requests c1 c3.
Proof. intros [] []. split; congruence. Qed.

Lemma same_awaits c c' i r : same_requests c c' -> awaits c i r -> awaits c' i r.
Proof. intros [Hs Hp] [? ?]. split; congruence. Qed.

#[local] Hint Resolve same_refl : wt.

Lemma with_session_same c i f otherwise c' e :
  with_session c i f otherwise = (c', e) -> same_requests c c'.
Proof.
  unfold with_session. destruct (sessions c !! i) as [s|]; [|by intros [= <- <-]].
  destruct (f s). by intros [<- _]%pair_eq.
Qed.

Lemma with_stream_same c i f otherwise c' e :
  (otherwise = (c', e) -> same_requests c c') ->
  with_stream c i f otherwise = (c', e) -> same_requests c c'.
Proof.
  intros Ho. unfold with_stream. destruct (session_of_stream c i) as [[k s]|]; [|done].
  destruct (f s) as [s' e1]. intros [<- _]%pair_eq. by destruct (Session.has_stream s' i).
Qed.

Lemma all_sessions_same c f c' e : all_sessions c f = (c', e) -> same_requests c c'.
Proof. by intros ->%all_sessions_spec. Qed.

Lemma buffer_early_event_same c k event now c' stored :
  buffer_early_event c k event now = (c', stored) -> same_requests c c'.
Proof.
  unfold buffer_early_event. destruct (_ <=? _); [by intros [= <- _]|].
  destruct (max_session_pending_events c <=? _); by intros [<- _]%pair_eq.
Qed.

Lemma handle_stream_opened_same c k i now c' e :
  handle_stream_opened c k i now = (c', e) -> same_requests c c'.
Proof.
  unfold handle_stream_opened. destruct (sessions c !! k) as [s|].
  - destruct (Session.handle_stream_opened s i now) as [s' e1]. intros [<- _]%pair_eq.
    by destruct (Session.has_stream s' i).
  - destruct (buffer_early_event c k _ now) as [c1 stored] eqn:Hb.
    apply buffer_early_event_same in Hb. by destruct stored; intros [= <- <-].
Qed.

Lemma recv_datagram_same c k data now c' e :
  recv_datagram c k data now = (c', e) -> same_requests c c'.
Proof.
  unfold recv_datagram. destruct (sessions c !! k) as [s|].
  - destruct (Session.recv_datagram s data) as [s' e1]. by intros [<- _]%pair_eq.
  - destruct (buffer_early_event c k _ now) as [c1 stored] eqn:Hb.
    apply buffer_early_event_same in Hb. by intros [= <- <-].
Qed.

Lemma replay_early_events_same c k now c' e :
  replay_early_events c k now = (c', e) -> same_requests c c'.
Proof.
  unfold replay_early_events. destruct (early_event_buffer c !! k) as [events|]; [|by intros [= <- <-]].
  set (c0 := c <| early_event_buffer := _ |> <| early_event_count := _ |>).
  intros He. apply (same_trans c c0); [done|]. revert He. generalize (is_session_stream c0 k).
  clearbody c0. clear c. intros present. revert c0 c' e.
  induction events as [|[at_ event] rest IH]; intros c c' e; cbn [replay_events];
    [by intros [= <- <-]|].
  destruct (replay_event c present event now) as [c1 e1] eqn:H1.
  destruct (replay_events c1 present rest now) as [c2 e2] eqn:H2. intros [= <- <-].
  apply (same_trans c c1); [|by eapply IH].
  destruct event; simpl in H1; try (by injection H1 as <- <-);
    destruct present; try (by injection H1 as <- <-);
    eauto using recv_datagram_same, handle_stream_opened_same.
Qed.

Lemma prune_early_events_same c now c' e :
  prune_early_events c now = (c', e) -> same_requests c c'.
Proof.
  unfold prune_early_events. generalize (merge_sort Z.le (map_to_list (early_event_buffer c)).*1).
  intros ids. revert c c' e. induction ids as [|k ids IH]; intros c c' e; cbn [prune_each];
    [by intros [= <- <-]|].
  destruct (prune_session_events c k now) as [c1 e1] eqn:H1.
  destruct (prune_each c1 ids now) as [c2 e2] eqn:H2. intros [= <- <-].
  apply (same_trans c c1); [|by eapply IH]. unfold prune_session_events in H1.
  destruct (early_event_buffer c !! k); [|by injection H1 as <- <-]. by apply pair_eq in H1 as [<- _].
Qed.

(** At most the request [x] leaves the table and the stream [j] the pending ones. *)
Definition settles (c c' : t) (j : StreamId) (x : RequestId) : Prop :=
  (forall r, r <> x -> session_requests c' !! r = session_requests c !! r)
  /\ (forall i, i <> j -> pending_session_requests c' !! i = pending_session_requests c !! i).

Lemma settles_same c c1 c2 j x : settles c c1 j x -> same_requests c1 c2 -> settles c c2 j x.
Proof. intros [Hr Hp] [Hs1 Hs2]. unfold settles. by rewrite Hs1, Hs2. Qed.

Lemma settles_pending c j x :
  settles c (c <| pending_session_requests := delete j (pending_session_requests c) |>) j x.
Proof. split; [done|]. intros i Hi. simpl. by rewrite lookup_delete_ne. Qed.

Lemma settles_drop c c1 j x :
  settles c c1 j x ->
  settles c (c1 <| session_requests := delete x (session_requests c1) |>) j x.
Proof. intros [Hr Hp]. split; [|done]. intros r Hne. simpl. rewrite lookup_delete_ne by done. auto. Qed.

Lemma establish_session_settles c0 c j x protocol now c' e :
  settles c0 c j x -> establish_session c j x protocol now = (c', e) -> settles c0 c' j x.
Proof.
  intros Hs. unfold establish_session. destruct (sessions c !! j) as [s|].
  - destruct (Session.confirm s protocol now). by intros [<- _]%pair_eq.
  - destruct (session_requests c !! x) as [req|]; [|by intros [= <- <-]].
    destruct (Session.confirm _ protocol now). intros [<- _]%pair_eq.
    exact (settles_drop c0 c j x Hs).
Qed.

Lemma recv_response_settles c j headers now c' e x :
  pending_session_requests c !! j = Some x ->
  recv_response c j headers now = (c', e) -> settles c c' j x.
Proof.
  intros Hx. unfold recv_response. rewrite Hx.
  set (c0 := c <| pending_session_requests := _ |>).
  assert (H0 : settles c c0 j x) by apply settles_pending. clearbody c0.
  assert (Hdrop : forall code reason c2 e2,
    abandon_session (c0 <| session_requests := delete x (session_requests c0) |>) j x code reason now
      = (c2, e2) -> settles c c2 j x).
  { intros code reason c2 e2 He%with_session_same.
    eapply settles_same; [apply settles_drop; exact H0|exact He]. }
  destruct (offered_protocols c0 j x) as [offered|]; [|by intros [= <- <-]].
  destruct (bool_decide _).
  - destruct (is_valid_protocol offered _).
    + destruct (establish_session c0 j x _ now) as [c1 e1] eqn:He.
      destruct (replay_early_events c1 j now) as [c2 e2] eqn:Hr. intros [= <- <-].
      eapply settles_same; [by eapply establish_session_settles|by eapply replay_early_events_same].
    + destruct (is_session_stream c0 j); [|by apply Hdrop].
      intros He%with_session_same. by eapply settles_same.
  - destruct (abandon_session _ j x _ _ now) as [c1 e1] eqn:He.
    destruct (replay_early_events c1 j now) as [c2 e2] eqn:Hr. intros [= <- <-].
    eapply settles_same; [by eapply Hdrop|by eapply replay_early_events_same].
Qed.

Lemma recv_request_same c i headers now c' e :
  recv_request c i headers now = (c', e) -> same_requests c c'.
Proof.
  unfold recv_request. destruct (is_session_stream c i); [by intros [= <- <-]|].
  destruct (negb (is_connected c)); [by intros [= <- <-]|].
  destruct (local_goaway_sent c); [by intros [= <- <-]|].
  destruct (_ && _); [by intros [= <- <-]|]. destruct (negb _); [by intros [= <- <-]|].
  destruct (replay_early_events _ i now) as [c1 e1] eqn:Hr. intros [= <- <-].
  eapply same_trans; [|by eapply replay_early_events_same]. done.
Qed.

Lemma settles_awaits c c' w i r j x :
  waiting c w -> awaits c i r -> pending_session_requests c !! j = Some x -> j <> i ->
  settles c c' j x -> awaits c' i r.
Proof.
  intros Hw [Hi Hr] Hj Hne [Hreq Hpen]. split.
  - by rewrite Hpen.
  - rewrite Hreq; [done|]. intros ->. by destruct (wait_injective c w Hw i j x).
Qed.

Lemma recv_headers_awaits c w i r j headers now c' e :
  inv c w -> state c <> ConnectionState.Closed -> awaits c i r -> j <> i ->
  recv_headers c j headers now = (c', e) -> awaits c' i r.
Proof.
  intros Hinv Hst Haw Hne. unfold recv_headers. destruct (is_client c).
  - destruct (pending_session_requests c !! j) as [x|] eqn:Hj.
    + intros He. eapply settles_awaits; [by apply inv_waiting|done|done|done|].
      by eapply recv_response_settles.
    + unfold recv_response. rewrite Hj. by intros [= <- <-].
  - intros He%recv_request_same. by eapply same_awaits.
Qed.

Lemma awaits_open c w i r : inv c w -> awaits c i r -> state c <> ConnectionState.Closed.
Proof.
  intros Hinv [Hi _] Hs. destruct (inv_ended c w Hinv Hs) as [_ Hp _ _]. by rewrite Hp in Hi.
Qed.

Lemma awaits_settled c w i r x :
  inv c w -> awaits c i r -> x ∈ connecting w ++ blocked_session_requests c -> x <> r.
Proof.
  intros Hinv Haw Hx ->. pose proof (inv_waiting c w Hinv (awaits_open c w i r Hinv Haw)) as Hw.
  by destruct (wait_pending c w Hw i r (proj1 Haw)) as (_ & _ & ? & _).
Qed.

Lemma delete_request_awaits c c' i r x :
  awaits c i r -> x <> r -> session_requests c' = delete x (session_requests c) ->
  pending_session_requests c' = pending_session_requests c -> awaits c' i r.
Proof. intros [Hi Hr] Hne Hs Hp. split; [by rewrite Hp|]. by rewrite Hs, lookup_delete_ne. Qed.

Lemma recv_goaway_awaits c w i r c' e :
  inv c w -> awaits c i r -> recv_goaway c = (c', e) -> awaits c' i r.
Proof.
  intros Hinv Haw. unfold recv_goaway.
  destruct (all_sessions _ Session.drain) as [c2 e2] eqn:Hd. intros [= <- <-].
  eapply same_awaits; [by eapply all_sessions_same|].
  assert (Hnot : forall rs, (forall x, x ∈ rs -> x <> r) ->
    is_Some (foldr (fun x m => delete x m) (session_requests c) rs !! r)).
  { induction rs as [|x rs IH]; intros Hrs; [by destruct Haw|]. simpl.
    rewrite lookup_delete_ne by (apply Hrs; by left). apply IH. intros y Hy. apply Hrs. by right. }
  split; [by destruct Haw|]. simpl. apply Hnot. intros x Hx.
  apply (awaits_settled c w i); [done|done|]. apply elem_of_app. by right.
Qed.

Lemma bind_session_awaits c w i r j x c' e :
  inv c w -> awaits c i r -> x ∈ connecting w -> j ∉ seen w ->
  bind_session c j x = (c', e) -> awaits c' i r.
Proof.
  intros Hinv Haw Hx Hj. assert (Hxr : x <> r)
    by (apply (awaits_settled c w i); [done|done|]; apply elem_of_app; by left).
  assert (Hij : j <> i).
  { intros ->. destruct Haw as [Hi Hr].
    pose proof (inv_waiting c w Hinv (awaits_open c w i r Hinv (conj Hi Hr))) as Hw.
    by destruct (wait_pending c w Hw i r Hi) as (? & _). }
  assert (H0 : awaits (c <| pending_session_requests := <[j := x]> (pending_session_requests c) |>) i r).
  { destruct Haw as [Hi Hr]. split; [simpl; by rewrite lookup_insert_ne|done]. }
  unfold bind_session. simpl. destruct (session_requests c !! x) as [req|].
  - destruct (SessionRequest.optimistic req); intros [<- _]%pair_eq; [|done].
    by eapply (delete_request_awaits _ _ i r x H0).
  - by intros [<- _]%pair_eq.
Qed.

Lemma create_session_same c r request c' e :
  create_session c r request = (c', e) ->
  pending_session_requests c' = pending_session_requests c
  /\ (session_requests c' = session_requests c
      \/ exists q, session_requests c' = <[r := q]> (session_requests c)).
Proof.
  unfold create_session. destruct (negb (is_client c)); [intros [= <- <-]; auto|].
  destruct (negb (is_connected c)); [intros [= <- <-]; auto|].
  destruct (peer_goaway_received c); [intros [= <- <-]; auto|].
  destruct (_ && _); [intros [= <- <-]; auto|]. destruct (negb _); [intros [= <- <-]; auto|].
  destruct (with_protocols request) as [q|]; [|intros [= <- <-]; auto].
  intros [<- _]%pair_eq. split; [done|]. right. by exists q.
Qed.

Lemma create_session_awaits c i r x request c' e :
  awaits c i r -> create_session c x request = (c', e) -> awaits c' i r.
Proof.
  intros [Hi Hr] [Hp Hq]%create_session_same. split; [by rewrite Hp|].
  destruct Hq as [->|[q ->]]; [done|]. rewrite lookup_insert_is_Some'. by right.
Qed.

Lemma state_ops_same c :
  (forall r code reason now c' e, close c r code reason now = (c', e) -> same_requests c c')
  /\ (forall r c' e, close_gracefully c r = (c', e) -> same_requests c c')
  /\ (forall now c' e, handle_handshake_completed c now = (c', e) -> same_requests c c')
  /\ (forall settings now c' e, recv_settings c settings now = (c', e) -> same_requests c c')
  /\ (forall u c' e, recv_max_streams c u = (c', e) -> same_requests c c')
  /\ (forall k i r u now c' e, bind_stream c k i r u now = (c', e) -> same_requests c c').
Proof.
  assert (Hopen : forall c now c' e, open c now = (c', e) -> same_requests c c').
  { intros c1 now c' e. unfold open. simpl. by destruct (request_id c1); intros [<- _]%pair_eq. }
  split_and!.
  - intros r code reason now c' e. unfold close. by destruct (state c); intros [<- _]%pair_eq.
  - intros r c' e. unfold close_gracefully. destruct (negb (is_connected c)); [by intros [= <- <-]|].
    destruct (negb (local_goaway_sent c));
      destruct (all_sessions _ Session.drain) as [c2 e2] eqn:Hd; intros [= <- <-];
      by apply all_sessions_same in Hd.
  - intros now c' e. unfold handle_handshake_completed.
    set (c1 := if bool_decide (state c = ConnectionState.Idle) then _ else _).
    assert (H1 : same_requests c c1) by (unfold c1; by destruct (bool_decide _)). clearbody c1.
    destruct (negb _); [by intros [= <- <-]|]. destruct (_ || _); [|by intros [<- _]%pair_eq].
    destruct (open _ now) as [c2 e2] eqn:Ho. intros [= <- <-]. apply Hopen in Ho.
    by apply (same_trans c c1).
  - intros settings now c' e. unfold recv_settings. destruct (_ && _); [|by intros [<- _]%pair_eq].
    intros Ho. by apply Hopen in Ho.
  - intros u c' e. unfold recv_max_streams. destruct u; simpl;
      destruct (all_sessions _ _) as [c2 e2] eqn:Hd; intros [= <- <-]; by apply all_sessions_same in Hd.
  - intros k i r u now c' e. unfold bind_stream. destruct (sessions c !! k) as [s|]; [|by intros [= <- <-]].
    destruct (Session.bind_stream s i r u now) as [s' e1]. intros [<- _]%pair_eq.
    by destruct (Session.has_stream s' i).
Qed.

Lemma step_awaits c w o c' e i r connecting' :
  inv c w -> awaits c i r -> transport_ok c w o -> connecting w ≡ₚ connected o ++ connecting' ->
  (forall headers now, o <> OpHeaders i headers now) ->
  (forall code reason now, o <> OpTerminated code reason now) ->
  step o c = (c', e) -> awaits c' i r.
Proof.
  intros Hinv Haw Hok Hco Hh Ht.
  assert (Hsame : forall c1, same_requests c c1 -> awaits c1 i r)
    by (intros; by eapply same_awaits).
  assert (Hin : forall x, x ∈ connected o -> x ∈ connecting w)
    by (intros x Hx; rewrite Hco, elem_of_app; by left).
  destruct (state_ops_same c) as (Sclose & Sgrace & Shand & Sset & Smax & Sbind).
  destruct o; cbn [step connected] in *; intros He;
    try (by injection He as <- <-);
    try (by apply Hsame; eapply with_session_same);
    try (apply Hsame; eapply with_stream_same; [|exact He];
         first [apply with_session_same | by intros [= <- <-]]);
    try (by apply Hsame; eauto using handle_stream_opened_same, recv_datagram_same,
         prune_early_events_same).
  - destruct Hok. eapply bind_session_awaits; [exact Hinv|exact Haw| |done|exact He].
    apply Hin. by left.
  - by eapply create_session_awaits.
  - apply pair_eq in He as [<- _]. eapply (delete_request_awaits c _ i r r0 Haw); try done.
    apply (awaits_settled c w i); [done|done|]. apply elem_of_app. left. apply Hin. by left.
  - by destruct (Ht error_code reason now).
  - by eapply recv_goaway_awaits.
  - eapply recv_headers_awaits; [done|by eapply awaits_open|done| |done].
    intros ->. by apply (Hh headers now).
  - apply Hsame. eapply with_stream_same; [|exact He]. by destruct (_ && _); intros [= <- <-].
Qed.

(** C34: a client request that waits for the response on its CONNECT stream is
    answered by that response or by the end of the connection and by nothing
    else.  A reset of the CONNECT stream, in particular, leaves it waiting. *)
Theorem connection_request_waits p c0 c w i r o c' e creating' connecting' :
  fresh p c0 -> reachable c0 c w -> awaits c i r -> transport_ok c w o ->
  creating w ≡ₚ returns o ++ creating' -> connecting w ≡ₚ connected o ++ connecting' ->
  NoDup (submitted w ++ submits o) -> step o c = (c', e) ->
  (forall headers now, o <> OpHeaders i headers now) ->
  (forall code reason now, o <> OpTerminated code reason now) ->
  awaits c' i r /\ r ∉ answered e.
Proof.
  intros Hf Hr Haw Hok Hc Hco Hnd Hs Hh Ht. pose proof (reachable_inv p c0 c w Hf Hr) as Hinv.
  pose proof (step_awaits c w o c' e i r connecting' Hinv Haw Hok Hco Hh Ht Hs) as Haw'.
  split; [done|]. intros Hin.
  pose proof (step_inv c w o c' e creating' connecting' Hinv Hok Hc Hco Hnd Hs) as Hinv'.
  destruct Haw' as [_ [q Hq]]. destruct Hinv'. rewrite inv_ledger0 in inv_distinct0. simpl in inv_distinct0.
  rewrite answered_app in inv_distinct0. apply NoDup_app in inv_distinct0 as (_ & Hd & _).
  apply (Hd r); [apply elem_of_app; by right|]. unfold held, own. rewrite !elem_of_app.
  left. left. right. apply list_elem_of_fmap. exists (r, q). split; [done|]. by apply elem_of_map_to_list.
Qed.

(** A client that asks for a session and does not want it before the response. *)
Definition example_client : t := new 1 (Some 1) true example_parameters.

Definition example_session_request : SessionRequest.t := {|
  SessionRequest.authority := b: "example.org";
  SessionRequest.created_at := SessionT.zero;
  SessionRequest.headers := [];
  SessionRequest.optimistic := false;
  SessionRequest.path := b: "/chat";
  SessionRequest.wt_available_protocols := None;
|}.

Definition example_asking : list op :=
  [OpHandshakeCompleted SessionT.zero; OpSettings example_settings SessionT.zero;
   OpCreateSession 2 example_session_request; OpBindSession 0 2].

Definition example_asked : t * world :=
  default (begin example_client) (drive example_asking (begin example_client)).

Lemma example_asked_reached : reached example_client example_asked.
Proof.
  eapply (conn_drive_sound _ example_asking (begin example_client));
    [apply reachable_start|vm_compute; reflexivity].
Qed.

Lemma example_client_fresh : fresh example_parameters example_client.
Proof. split; [apply conn_parameters_ok|]. by repeat eexists. Qed.

Lemma connection_request_waits_witness :
  let reset := OpStreamReset 0 ERR_H3_REQUEST_REJECTED SessionT.zero in
  awaits example_asked.1 0 2 /\ awaits (step reset example_asked.1).1 0 2.
Proof.
  assert (H0 : awaits example_asked.1 0 2).
  { split; [vm_compute; reflexivity|]. vm_compute. by eexists. }
  split; [exact H0|].
  destruct (connection_request_waits example_parameters example_client example_asked.1
    example_asked.2 0 2 (OpStreamReset 0 ERR_H3_REQUEST_REJECTED SessionT.zero)
    (step (OpStreamReset 0 ERR_H3_REQUEST_REJECTED SessionT.zero) example_asked.1).1
    (step (OpStreamReset 0 ERR_H3_REQUEST_REJECTED SessionT.zero) example_asked.1).2
    (ConnR.creating example_asked.2) (ConnR.connecting example_asked.2)
    example_client_fresh example_asked_reached H0 I
    (Permutation_refl _) (Permutation_refl _)) as [H _];
    [apply (bool_decide_unpack _); vm_compute; exact I|apply surjective_pairing|by intros|by intros
    |exact H].
Defined.

End ConnO.
