(* ===== verification/Qpack.v ===== *)
(** * QPACK codec

    [crates/src/protocol/qpack.rs]: the safe wrapper around the C library
    ls-qpack.  The library itself is outside the repository: its entry points are
    the fields of the class [LsQpack], on which the whole development above it is
    parametric.  An entry point that calls back into the wrapper
    ([dhi_prepare_decode], [dhi_process_header], [dhi_unblocked]) is a [calls]
    tree, the calls it makes and what it does with each answer, and the wrapper
    runs the tree with its own callbacks. *)

From S2P Require Import Prelude.
From S2P Require Import Types.

(** ** What crosses the C interface *)

(** [lsxpack_header]: [buf] is the memory the pointer designates, as far as it
    has been written. *)
Module lsxpack_header.
Record t : Set := mk {
  buf : bytes;
  name_len : Z;
  name_offset : Z;
  val_len : Z;
  val_offset : Z;
}.
#[export] Instance eta_lsxpack_header : Eta t := fun h =>
  mk (buf h) (name_len h) (name_offset h) (val_len h) (val_offset h).
#[export] Instance set_buf : Setter buf := ltac:(build_setter).
#[export] Instance set_val_len : Setter val_len := ltac:(build_setter).

Definition zeroed : t := mk [] 0 0 0 0.
End lsxpack_header.
Export (hints) lsxpack_header.

Module lsqpack_read_header_status.
Inductive t : Set :=
| LQRHS_DONE
| LQRHS_BLOCKED
| LQRHS_NEED
| LQRHS_ERROR.
#[export] Instance lsqpack_read_header_status_eq_dec : EqDecision t.
Proof. solve_decision. Defined.
End lsqpack_read_header_status.
Export (hints) lsqpack_read_header_status.

Module lsqpack_enc_status.
Inductive t : Set :=
| LQES_OK
| LQES_NOBUF_ENC
| LQES_NOBUF_HEAD.
#[export] Instance lsqpack_enc_status_eq_dec : EqDecision t.
Proof. solve_decision. Defined.
End lsqpack_enc_status.
Export (hints) lsqpack_enc_status.

(** A run of a library function that calls back: [R] is what it returns. *)
Inductive calls (R : Type) : Type :=
| returns (r : R)
| prepare_decode (header : option lsxpack_header.t) (space : Z)
    (continue : option lsxpack_header.t -> calls R)
| process_header (header : lsxpack_header.t) (continue : Z -> calls R).
Arguments returns {R} r.
Arguments prepare_decode {R} header space continue.
Arguments process_header {R} header continue.

(** What [lsqpack_dec_header_in] and [lsqpack_dec_header_read] leave: the
    decoder, the status, how far the cursor moved, the decoder-stream
    instructions written and their announced length. *)
Module header_read.
Record t (D : Type) : Type := mk {
  decoder : D;
  status : lsqpack_read_header_status.t;
  moved : Z;
  instructions : bytes;
  decoder_len : Z;
}.
Arguments mk {D}.
Arguments decoder {D}.
Arguments status {D}.
Arguments moved {D}.
Arguments instructions {D}.
Arguments decoder_len {D}.
End header_read.

(** The library.  The header-block context pointer, by which it tells the blocks
    in flight apart, is the stream identifier the context holds. *)
Class LsQpack := {
  lsqpack_dec : Type;
  lsqpack_enc : Type;
  lsqpack_dec_init : Z -> Z -> lsqpack_dec;
  lsqpack_dec_header_in : lsqpack_dec -> Z -> bytes -> Z -> calls (header_read.t lsqpack_dec);
  lsqpack_dec_header_read : lsqpack_dec -> Z -> bytes -> Z -> calls (header_read.t lsqpack_dec);
  (** The return code and the bytes of cancellation written. *)
  lsqpack_dec_cancel_stream : lsqpack_dec -> Z -> Z -> lsqpack_dec * Z * bytes;
  (** The return code and the contexts it calls [dhi_unblocked] with. *)
  lsqpack_dec_enc_in : lsqpack_dec -> bytes -> lsqpack_dec * Z * list (option Z);
  lsqpack_enc_init : Z -> Z -> lsqpack_enc * Z;
  (** The return code, the buffer and the length written. *)
  lsqpack_enc_set_max_capacity : lsqpack_enc -> Z -> Z -> lsqpack_enc * Z * bytes * Z;
  lsqpack_enc_start_header : lsqpack_enc -> Z -> lsqpack_enc * Z;
  (** Given the room left on either stream: the status and what was written on
      the encoder stream and in the header block. *)
  lsqpack_enc_encode :
    lsqpack_enc -> Z -> Z -> lsxpack_header.t -> lsqpack_enc * lsqpack_enc_status.t * bytes * bytes;
  lsqpack_enc_header_block_prefix_size : lsqpack_enc -> Z;
  lsqpack_enc_end_header : lsqpack_enc -> Z -> lsqpack_enc * Z * bytes;
  lsqpack_enc_decoder_in : lsqpack_enc -> bytes -> lsqpack_enc * Z;
}.

(** ** A [Vec<u8>] whose capacity the code reads *)

Module ByteVec.
Record t : Set := mk {
  contents : bytes;
  capacity : Z;
}.

(** [Vec::reserve]: amortised growth, by doubling. *)
Definition reserve (v : t) (additional : Z) : t :=
  let required := len (contents v) + additional in
  if required <=? capacity v then v
  else mk (contents v) (Z.max 8 (Z.max (capacity v * 2) required)).

Definition clear (v : t) : t := mk [] (capacity v).

(** [set_len] over bytes the library has just written at [offset]. *)
Definition written (v : t) (bytes_written : bytes) : t :=
  mk (contents v ++ bytes_written) (capacity v).
End ByteVec.

Definition DECODER_INSTRUCTION_BUFFER_SIZE : Z := 1024.
Definition DECODER_PENDING_BLOCK_CAPACITY : Z := 256.
Definition ENCODER_FALLBACK_RETRY : Z := 4.

Module QpackError.
Inductive t : Set :=
| DecoderError
| EncoderError
| HeaderTooLong.
#[export] Instance QpackError_eq_dec : EqDecision t.
Proof. solve_decision. Defined.
End QpackError.
Export (hints) QpackError.

Module DecodeStatus.
Inductive t : Set :=
| Blocked
| Done (headers : Headers).
End DecodeStatus.

(** ** Callbacks *)

Module HeaderBlockContext.
Record t : Set := mk {
  error : option QpackError.t;
  header : lsxpack_header.t;
  header_buffer : bytes;
  headers : Headers;
  stream_id : Z;
}.
#[export] Instance eta_header_block_context : Eta t := fun c =>
  mk (error c) (header c) (header_buffer c) (headers c) (stream_id c).
#[export] Instance set_error : Setter error := ltac:(build_setter).
#[export] Instance set_header : Setter header := ltac:(build_setter).
#[export] Instance set_header_buffer : Setter header_buffer := ltac:(build_setter).
#[export] Instance set_headers : Setter headers := ltac:(build_setter).
End HeaderBlockContext.
Export (hints) HeaderBlockContext.

Module PendingBlock.
Record t : Set := mk {
  context : HeaderBlockContext.t;
  data : bytes;
}.
End PendingBlock.

(** [usize::try_from] on a C [int]. *)
Definition usize_try_from (z : Z) : option Z := if z <? 0 then None else Some z.

Definition dhi_prepare_decode (hblock_ctx : HeaderBlockContext.t)
    (header : option lsxpack_header.t) (space : Z)
    : HeaderBlockContext.t * option lsxpack_header.t :=
  let '(hblock_ctx, used_bytes) :=
    match header with
    | None => (hblock_ctx <| HeaderBlockContext.header := lsxpack_header.zeroed |>, 0)
    | Some header =>
        let name_offset := default 0 (usize_try_from (lsxpack_header.name_offset header)) in
        let val_offset := default 0 (usize_try_from (lsxpack_header.val_offset header)) in
        let name_end := name_offset + lsxpack_header.name_len header in
        let value_end := val_offset + lsxpack_header.val_len header in
        (hblock_ctx <| HeaderBlockContext.header := header |>, Z.max name_end value_end)
    end in
  match u16_try_from space with
  | None =>
      (hblock_ctx <| HeaderBlockContext.error := Some QpackError.HeaderTooLong |>, None)
  | Some val_len =>
      let buffer :=
        take (Z.to_nat used_bytes) (lsxpack_header.buf (HeaderBlockContext.header hblock_ctx)) in
      let prepared := (HeaderBlockContext.header hblock_ctx)
        <| lsxpack_header.buf := buffer |> <| lsxpack_header.val_len := val_len |> in
      (hblock_ctx <| HeaderBlockContext.header_buffer := buffer |>
                  <| HeaderBlockContext.header := prepared |>, Some prepared)
  end.

(** The field a header designates in its buffer. *)
Definition slice (buf : bytes) (offset length : Z) : bytes :=
  take (Z.to_nat length) (drop (Z.to_nat offset) buf).

Definition dhi_process_header (hblock_ctx : HeaderBlockContext.t) (header : lsxpack_header.t)
    : HeaderBlockContext.t * Z :=
  if bool_decide (is_Some (HeaderBlockContext.error hblock_ctx)) then (hblock_ctx, 1)
  else
    match usize_try_from (lsxpack_header.name_offset header) with
    | None => (hblock_ctx, 1)
    | Some name_offset =>
        match usize_try_from (lsxpack_header.val_offset header) with
        | None => (hblock_ctx, 1)
        | Some val_offset =>
            let name := slice (lsxpack_header.buf header) name_offset
                          (lsxpack_header.name_len header) in
            let value := slice (lsxpack_header.buf header) val_offset
                           (lsxpack_header.val_len header) in
            (hblock_ctx <| HeaderBlockContext.headers :=
               HeaderBlockContext.headers hblock_ctx ++ [(name, value)] |>, 0)
        end
    end.

Definition dhi_unblocked (queue : list Z) (hblock_ctx : option Z) : list Z :=
  match hblock_ctx with
  | None => queue
  | Some stream_id => queue ++ [stream_id]
  end.

(** A decoding call of the library: its callbacks write to the context. *)
Fixpoint run {R : Type} (program : calls R) (context : HeaderBlockContext.t)
    : R * HeaderBlockContext.t :=
  match program with
  | returns r => (r, context)
  | prepare_decode header space continue =>
      let '(context, answer) := dhi_prepare_decode context header space in
      run (continue answer) context
  | process_header header continue =>
      let '(context, answer) := dhi_process_header context header in
      run (continue answer) context
  end.

(** ** Decoder *)

Module Decoder.
Section Decoder.
Context `{LsQpack}.

(** [InnerDecoder] and the map of blocked header blocks. *)
Record t : Type := mk {
  decoder : lsqpack_dec;
  decoder_buffer : bytes;
  unblocked_queue : list Z;
  pending_blocks : gmap Z PendingBlock.t;
}.

#[global] Instance eta_decoder : Eta t := fun d =>
  mk (decoder d) (decoder_buffer d) (unblocked_queue d) (pending_blocks d).
#[global] Instance set_decoder : Setter decoder := ltac:(build_setter).
#[global] Instance set_decoder_buffer : Setter decoder_buffer := ltac:(build_setter).
#[global] Instance set_unblocked_queue : Setter unblocked_queue := ltac:(build_setter).
#[global] Instance set_pending_blocks : Setter pending_blocks := ltac:(build_setter).

Definition new (max_table_capacity blocked_streams : Z) : t := {|
  decoder := lsqpack_dec_init max_table_capacity blocked_streams;
  decoder_buffer := [];
  unblocked_queue := [];
  pending_blocks := ∅;
|}.

Definition abandon_header_block (d : t) (stream_id : Z) : t * bytes :=
  match pending_blocks d !! stream_id with
  | None => (d, [])
  | Some _ =>
      let '(decoder', result, cancel_buffer) :=
        lsqpack_dec_cancel_stream (decoder d) stream_id 16 in
      let d := d <| decoder := decoder' |> in
      if result <? 0 then (d, [])
      else
        let d := d <| pending_blocks := delete stream_id (pending_blocks d) |> in
        (d, if result <=? 16 then take (Z.to_nat result) cancel_buffer else [])
  end.

(** The cursor is where the library stopped, from the start of [data]. *)
Definition advance_pending_cursor (pending : PendingBlock.t) (cursor : Z)
    : result PendingBlock.t QpackError.t :=
  if (cursor <? 0) || (len (PendingBlock.data pending) <? cursor)
  then Err QpackError.DecoderError
  else Ok (PendingBlock.mk (PendingBlock.context pending)
             (drop (Z.to_nat cursor) (PendingBlock.data pending))).

Definition evaluate_decode_status (d : t) (stream_id : Z) (pending : PendingBlock.t)
    (status : lsqpack_read_header_status.t) (written : bytes) (decoder_len : Z)
    : t * result (bytes * DecodeStatus.t) QpackError.t :=
  if negb (bool_decide (status = lsqpack_read_header_status.LQRHS_DONE))
     && negb (bool_decide (status = lsqpack_read_header_status.LQRHS_BLOCKED))
  then (d, Err QpackError.DecoderError)
  else if DECODER_INSTRUCTION_BUFFER_SIZE <? decoder_len then (d, Err QpackError.DecoderError)
  else
    let d := d <| decoder_buffer := take (Z.to_nat decoder_len) written |> in
    let decoder_instructions := decoder_buffer d in
    if bool_decide (status = lsqpack_read_header_status.LQRHS_DONE) then
      match HeaderBlockContext.error (PendingBlock.context pending) with
      | Some e => (d, Err e)
      | None =>
          (d, Ok (decoder_instructions,
                  DecodeStatus.Done (HeaderBlockContext.headers (PendingBlock.context pending))))
      end
    else if DECODER_PENDING_BLOCK_CAPACITY <=? Z.of_nat (size (pending_blocks d))
    then (d, Err QpackError.DecoderError)
    else (d <| pending_blocks := <[stream_id := pending]> (pending_blocks d) |>,
          Ok (decoder_instructions, DecodeStatus.Blocked)).

(** The shared text of [execute_decode] and [execute_read]: [call] is the library
    function. *)
Definition execute (call : lsqpack_dec -> Z -> bytes -> Z -> calls (header_read.t lsqpack_dec))
    (d : t) (stream_id : Z) (pending : PendingBlock.t)
    : t * result (bytes * DecodeStatus.t) QpackError.t :=
  let d := d <| decoder_buffer := [] |> in
  let '(r, context) :=
    run (call (decoder d) stream_id (PendingBlock.data pending) DECODER_INSTRUCTION_BUFFER_SIZE)
        (PendingBlock.context pending) in
  let d := d <| decoder := header_read.decoder r |> in
  match advance_pending_cursor (PendingBlock.mk context (PendingBlock.data pending))
          (header_read.moved r) with
  | Err e => (d, Err e)
  | Ok pending =>
      evaluate_decode_status d stream_id pending (header_read.status r)
        (header_read.instructions r) (header_read.decoder_len r)
  end.

Definition execute_decode : t -> Z -> PendingBlock.t -> t * result (bytes * DecodeStatus.t) QpackError.t :=
  execute lsqpack_dec_header_in.

Definition execute_read : t -> Z -> PendingBlock.t -> t * result (bytes * DecodeStatus.t) QpackError.t :=
  execute lsqpack_dec_header_read.

Definition decode_header (d : t) (stream_id : Z) (data : bytes)
    : t * result (bytes * DecodeStatus.t) QpackError.t :=
  let context := {|
    HeaderBlockContext.error := None;
    HeaderBlockContext.header := lsxpack_header.zeroed;
    HeaderBlockContext.header_buffer := [];
    HeaderBlockContext.headers := [];
    HeaderBlockContext.stream_id := stream_id;
  |} in
  execute_decode d stream_id (PendingBlock.mk context data).

Definition feed_encoder (d : t) (data : bytes) : t * result (list Z) QpackError.t :=
  let '(decoder', result, called) := lsqpack_dec_enc_in (decoder d) data in
  let d := d <| decoder := decoder' |>
             <| unblocked_queue := foldl dhi_unblocked (unblocked_queue d) called |> in
  if result =? 0 then (d <| unblocked_queue := [] |>, Ok (unblocked_queue d))
  else (d, Err QpackError.DecoderError).

Definition resume_header (d : t) (stream_id : Z)
    : t * result (bytes * option Headers) QpackError.t :=
  match pending_blocks d !! stream_id with
  | None => (d, Ok ([], None))
  | Some pending =>
      let d := d <| pending_blocks := delete stream_id (pending_blocks d) |> in
      match execute_read d stream_id pending with
      | (d, Ok (instructions, DecodeStatus.Done headers)) => (d, Ok (instructions, Some headers))
      | (d, Ok (instructions, DecodeStatus.Blocked)) => (d, Ok (instructions, None))
      | (d, Err e) => (d, Err e)
      end
  end.

End Decoder.
End Decoder.

(** ** Encoder *)

Module Header.
Record t : Set := mk {
  buffer : bytes;
  name_len : Z;
  value_len : Z;
}.

Definition new (name value : bytes) : result t QpackError.t :=
  match u16_try_from (len name) with
  | None => Err QpackError.HeaderTooLong
  | Some name_len =>
      match u16_try_from (len value) with
      | None => Err QpackError.HeaderTooLong
      | Some value_len => Ok (mk (name ++ value) name_len value_len)
      end
  end.

Definition create_lsxpack_header (h : t) : lsxpack_header.t := {|
  lsxpack_header.buf := buffer h;
  lsxpack_header.name_len := name_len h;
  lsxpack_header.name_offset := 0;
  lsxpack_header.val_len := value_len h;
  lsxpack_header.val_offset := name_len h;
|}.
End Header.

Module Encoder.
Section Encoder.
Context `{LsQpack}.

(** [InnerEncoder]. *)
Record t : Type := mk {
  encoder : lsqpack_enc;
  encoder_buffer : ByteVec.t;
  header_buffer : ByteVec.t;
  initialized : bool;
  max_table_capacity : Z;
}.

#[global] Instance eta_encoder : Eta t := fun e =>
  mk (encoder e) (encoder_buffer e) (header_buffer e) (initialized e) (max_table_capacity e).
#[global] Instance set_encoder : Setter encoder := ltac:(build_setter).
#[global] Instance set_encoder_buffer : Setter encoder_buffer := ltac:(build_setter).
#[global] Instance set_header_buffer : Setter header_buffer := ltac:(build_setter).
#[global] Instance set_initialized : Setter initialized := ltac:(build_setter).

Definition new (max_table_capacity blocked_streams : Z) : t :=
  let '(encoder, result) := lsqpack_enc_init max_table_capacity blocked_streams in
  {| encoder := encoder;
     encoder_buffer := ByteVec.mk [] 0;
     header_buffer := ByteVec.mk [] 0;
     initialized := result =? 0;
     max_table_capacity := max_table_capacity |}.

Definition apply_settings (e : t) (peer_max_table_capacity _blocked_streams : Z)
    : t * result bytes QpackError.t :=
  let requested_capacity := default U32_MAX (u32_try_from peer_max_table_capacity) in
  let capacity := Z.min requested_capacity (max_table_capacity e) in
  let '(encoder', result, buffer, written) :=
    lsqpack_enc_set_max_capacity (encoder e) capacity 64 in
  let e := e <| encoder := encoder' |> in
  if result =? 0 then (e, Ok (if written <=? 64 then take (Z.to_nat written) buffer else []))
  else (e, Err QpackError.EncoderError).

(** The retry loop of [encode_single_header]; [ENCODER_FALLBACK_RETRY] bounds it. *)
Fixpoint encode_retry (fuel : nat) (e : t) (header : lsxpack_header.t) (retries : Z)
    : t * result () QpackError.t :=
  match fuel with
  | O => (e, Err QpackError.EncoderError)
  | S fuel' =>
      let encoder_room :=
        ByteVec.capacity (encoder_buffer e) - len (ByteVec.contents (encoder_buffer e)) in
      let header_room :=
        ByteVec.capacity (header_buffer e) - len (ByteVec.contents (header_buffer e)) in
      let '(encoder', status, on_encoder, on_header) :=
        lsqpack_enc_encode (encoder e) encoder_room header_room header in
      let e := e <| encoder := encoder' |> in
      if bool_decide (status = lsqpack_enc_status.LQES_OK) then
        (e <| encoder_buffer := ByteVec.written (encoder_buffer e) on_encoder |>
           <| header_buffer := ByteVec.written (header_buffer e) on_header |>, Ok ())
      else
        let retries := retries + 1 in
        if ENCODER_FALLBACK_RETRY <? retries then (e, Err QpackError.EncoderError)
        else if bool_decide (status = lsqpack_enc_status.LQES_NOBUF_ENC) then
          encode_retry fuel'
            (e <| encoder_buffer := ByteVec.reserve (encoder_buffer e) 1024 |>) header retries
        else if bool_decide (status = lsqpack_enc_status.LQES_NOBUF_HEAD) then
          encode_retry fuel'
            (e <| header_buffer := ByteVec.reserve (header_buffer e) 1024 |>) header retries
        else (e, Err QpackError.EncoderError)
  end.

(** [if capacity - offset < required { reserve(required) }]. *)
Definition make_room (v : ByteVec.t) (required_space : Z) : ByteVec.t :=
  if ByteVec.capacity v - len (ByteVec.contents v) <? required_space
  then ByteVec.reserve v required_space else v.

Definition encode_single_header (e : t) (header : lsxpack_header.t)
    : t * result () QpackError.t :=
  let required_space :=
    lsxpack_header.name_len header + lsxpack_header.val_len header + 256 in
  let e := e <| encoder_buffer := make_room (encoder_buffer e) required_space |>
             <| header_buffer := make_room (header_buffer e) required_space |> in
  encode_retry 5 e header 0.

Fixpoint encode_all (e : t) (headers : list lsxpack_header.t) : t * result () QpackError.t :=
  match headers with
  | [] => (e, Ok ())
  | header :: rest =>
      match encode_single_header e header with
      | (e, Ok _) => encode_all e rest
      | (e, Err error) => (e, Err error)
      end
  end.

(** The first loop of [encode]: one [Header] per field. *)
Fixpoint prepare_headers (headers : Headers) : result (list Header.t) QpackError.t :=
  match headers with
  | [] => Ok []
  | (key, value) :: rest =>
      let? header := Header.new key value in
      let? tail := prepare_headers rest in
      Ok (header :: tail)
  end.

Definition encode (e : t) (stream_id : Z) (headers : Headers)
    : t * result (bytes * bytes) QpackError.t :=
  match prepare_headers headers with
  | Err error => (e, Err error)
  | Ok qpack_headers =>
      let lsxpack_headers := Header.create_lsxpack_header <$> qpack_headers in
      let '(encoder', started) := lsqpack_enc_start_header (encoder e) stream_id in
      let e := e <| encoder := encoder' |> in
      if negb (started =? 0) then (e, Err QpackError.EncoderError)
      else
        let e := e <| encoder_buffer := ByteVec.reserve (ByteVec.clear (encoder_buffer e)) 1024 |>
                   <| header_buffer := ByteVec.reserve (ByteVec.clear (header_buffer e)) 4096 |> in
        match encode_all e lsxpack_headers with
        | (e, Err error) => (e, Err error)
        | (e, Ok _) =>
            let max_prefix := lsqpack_enc_header_block_prefix_size (encoder e) in
            let '(encoder', result, prefix) := lsqpack_enc_end_header (encoder e) max_prefix in
            let e := e <| encoder := encoder' |> in
            if result <? 0 then (e, Err QpackError.EncoderError)
            else if (result =? 0) && (0 <? max_prefix) then (e, Err QpackError.EncoderError)
            else
              let final_header_block :=
                take (Z.to_nat result) prefix ++ ByteVec.contents (header_buffer e) in
              let encoder_instructions := ByteVec.contents (encoder_buffer e) in
              (e <| encoder_buffer := ByteVec.mk [] 0 |>,
               Ok (final_header_block, encoder_instructions))
        end
  end.

Definition feed_decoder (e : t) (data : bytes) : t * result () QpackError.t :=
  let '(encoder', result) := lsqpack_enc_decoder_in (encoder e) data in
  let e := e <| encoder := encoder' |> in
  if result =? 0 then (e, Ok ()) else (e, Err QpackError.EncoderError).

End Encoder.
End Encoder.
