(* ===== verification/QpackLiteral.v ===== *)
(** * A library behind the QPACK interface

    An instance of [LsQpack] to run the examples with: a field section is a
    two-byte prefix and its lines, each a name and a value as length-prefixed
    literals, and nothing ever goes to the encoder or decoder streams. *)

From S2P Require Import Prelude.
From S2P Require Import Types.
From S2P Require Import Qpack.

Module Literal.

Definition failed : calls (header_read.t ()) :=
  returns (header_read.mk () lsqpack_read_header_status.LQRHS_ERROR 0 [] 0).

(** The lines of a section of [total] bytes, one [dhi_process_header] each. *)
Fixpoint lines (fuel : nat) (total : Z) (b : bytes) : calls (header_read.t ()) :=
  match fuel with
  | O => failed
  | S fuel' =>
      match b with
      | [] => returns (header_read.mk () lsqpack_read_header_status.LQRHS_DONE total [] 0)
      | l :: b =>
          let name := take (Z.to_nat (byte_val l)) b in
          match drop (Z.to_nat (byte_val l)) b with
          | [] => failed
          | m :: b =>
              let value := take (Z.to_nat (byte_val m)) b in
              prepare_decode None (len name + len value) (fun answer =>
                match answer with
                | None => failed
                | Some _ =>
                    process_header
                      (lsxpack_header.mk (name ++ value) (len name) 0 (len value) (len name))
                      (fun code => if code =? 0
                                   then lines fuel' total (drop (Z.to_nat (byte_val m)) b)
                                   else failed)
                end)
          end
      end
  end.

Definition decode (data : bytes) : calls (header_read.t ()) :=
  lines (S (length data)) (len data) (drop 2 data).

Definition line (h : lsxpack_header.t) : bytes :=
  let name := slice (lsxpack_header.buf h) (lsxpack_header.name_offset h) (lsxpack_header.name_len h) in
  let value := slice (lsxpack_header.buf h) (lsxpack_header.val_offset h) (lsxpack_header.val_len h) in
  byte_of (len name) :: name ++ byte_of (len value) :: value.

#[export] Instance literal : LsQpack := {|
  lsqpack_dec := ();
  lsqpack_enc := ();
  lsqpack_dec_init := fun _ _ => ();
  lsqpack_dec_header_in := fun _ _ data _ => decode data;
  lsqpack_dec_header_read := fun _ _ data _ => decode data;
  lsqpack_dec_cancel_stream := fun d _ _ => (d, 0, []);
  lsqpack_dec_enc_in := fun d _ => (d, 0, []);
  lsqpack_enc_init := fun _ _ => ((), 0);
  lsqpack_enc_set_max_capacity := fun e _ _ => (e, 0, [], 0);
  lsqpack_enc_start_header := fun e _ => (e, 0);
  lsqpack_enc_encode := fun e _ header_room h =>
    if len (line h) <=? header_room
    then (e, lsqpack_enc_status.LQES_OK, [], line h)
    else (e, lsqpack_enc_status.LQES_NOBUF_HEAD, [], []);
  lsqpack_enc_header_block_prefix_size := fun _ => 2;
  lsqpack_enc_end_header := fun e _ => (e, 2, [x00; x00]);
  lsqpack_enc_decoder_in := fun e _ => (e, 0);
|}.

(** It never blocks a header block. *)
Lemma lines_status fuel total b context :
  header_read.status (run (lines fuel total b) context).1 <> lsqpack_read_header_status.LQRHS_BLOCKED.
Proof.
  revert b context. induction fuel as [|fuel IH]; intros b context; [done|].
  destruct b as [|l b]; [done|]. cbn [lines]. destruct (drop _ b) as [|m b']; [done|].
  cbn [run]. destruct (dhi_prepare_decode _ _ _) as [context' [answer|]]; [|done].
  cbn [run]. destruct (dhi_process_header _ _) as [context'' code].
  destruct (code =? 0); [apply IH|done].
Qed.

Lemma literal_never_blocks (d : Decoder.t) i data d' instructions :
  Decoder.decode_header d i data <> (d', Ok (instructions, DecodeStatus.Blocked)).
Proof.
  unfold Decoder.decode_header, Decoder.execute_decode, Decoder.execute. cbv zeta.
  match goal with |- context [run (lsqpack_dec_header_in ?d ?j ?x ?n) ?c] =>
    assert (Hs : header_read.status (run (lsqpack_dec_header_in d j x n) c).1
                 <> lsqpack_read_header_status.LQRHS_BLOCKED) by apply lines_status;
    destruct (run (lsqpack_dec_header_in d j x n) c) as [r context] end.
  cbn [fst] in Hs. destruct (Decoder.advance_pending_cursor _ _) as [pending|e]; [|done].
  unfold Decoder.evaluate_decode_status.
  destruct (header_read.status r) eqn:E; try done; cbn.
  destruct (_ <? _); [done|]. by destruct (HeaderBlockContext.error _).
Qed.

End Literal.
