(* ===== verification/H3Machine.v ===== *)
(** * HTTP/3

    [crates/src/protocol/h3.rs]: the HTTP/3 layer between QUIC streams and the
    connection.  It frames what the engine sends (frames, capsules, SETTINGS,
    stream headers, datagrams) and parses what the peer sends, incrementally, one
    [H3Stream] per QUIC stream that is not a WebTransport stream yet.

    A method on [&mut self] that can fail returns the new state beside its
    [Result]; a stream taken out of the map is passed and returned explicitly, and
    is dropped on an error, as in the code. *)

From S2P Require Import Prelude.
From S2P Require Import Types.
From S2P Require Import Events.
From S2P Require Import Utils.
From S2P Require Import Qpack.
From S2P Require Import SessionMachine.
From S2P Require Import ConnectionMachine.

(** The [?] operator of a method: the state goes on, an error leaves. *)
Notation "'try?' s , x ':=' c 'in' k" :=
  (match c with (s, Ok x) => k | (s, Err e) => (s, Err e) end)
  (at level 200, s name, x pattern, c at level 100, k at level 200).

Definition CONTROL_FRAME_SIZE_LIMIT : Z := 4096.
Definition QPACK_DECODER_BLOCKED_STREAM_CAPACITY : Z := 0.
Definition QPACK_DECODER_TABLE_CAPACITY : Z := 0.
Definition QPACK_ENCODER_BLOCKED_STREAM_CAPACITY : Z := 0.
Definition QPACK_ENCODER_TABLE_CAPACITY : Z := 0.
Definition SETTINGS_ENTRIES_LIMIT : Z := 64.

Module H3Parameters.
Record t : Set := mk {
  initial_max_data : Z;
  initial_max_streams_bidi : Z;
  initial_max_streams_uni : Z;
  max_capsule_size : Z;
  max_field_section_size : Z;
}.
End H3Parameters.

Module H3Stream.
Record t : Set := mk {
  blocked : bool;
  blocked_frame_size : option Z;
  buffer : bytes;
  capsule_buffer : bytes;
  ended : bool;
  frame_size : option Z;
  frame_type : option Z;
  headers_processed : bool;
  is_connect_stream : bool;
  is_request_stream : bool;
  stream_type : option Z;
}.
#[export] Instance eta_h3_stream : Eta t := fun s =>
  mk (blocked s) (blocked_frame_size s) (buffer s) (capsule_buffer s) (ended s) (frame_size s)
     (frame_type s) (headers_processed s) (is_connect_stream s) (is_request_stream s)
     (stream_type s).
#[export] Instance set_blocked : Setter blocked := ltac:(build_setter).
#[export] Instance set_blocked_frame_size : Setter blocked_frame_size := ltac:(build_setter).
#[export] Instance set_buffer : Setter buffer := ltac:(build_setter).
#[export] Instance set_capsule_buffer : Setter capsule_buffer := ltac:(build_setter).
#[export] Instance set_ended : Setter ended := ltac:(build_setter).
#[export] Instance set_frame_size : Setter frame_size := ltac:(build_setter).
#[export] Instance set_frame_type : Setter frame_type := ltac:(build_setter).
#[export] Instance set_headers_processed : Setter headers_processed := ltac:(build_setter).
#[export] Instance set_is_connect_stream : Setter is_connect_stream := ltac:(build_setter).
#[export] Instance set_is_request_stream : Setter is_request_stream := ltac:(build_setter).
#[export] Instance set_stream_type : Setter stream_type := ltac:(build_setter).

Definition default_stream : t := mk false None [] [] false None None false false false None.
End H3Stream.
Export (hints) H3Stream.

Module HeaderDecodeStatus.
Inductive t : Set :=
| Blocked
| Done (headers : Headers) (effects : list Effect.t).
End HeaderDecodeStatus.

(** ** Free functions *)

Module h3.

Definition Protocol (code : ErrorCode) (reason : str) : WebTransportError.t :=
  WebTransportError.Protocol (Some code) reason.

(** [utils::write_varint(..).map_err(..)?] *)
Definition put_varint (buffer : bytes) (value : Z) : result bytes WebTransportError.t :=
  match utils.write_varint buffer value with
  | Ok buffer => Ok buffer
  | Err _ => Err (Protocol ERR_LIB_INTERNAL_ERROR (b: "varint encode failed"))
  end.

Definition encode_frame_header (frame_type payload_length : Z)
    : result bytes WebTransportError.t :=
  let? buffer := put_varint [] frame_type in
  put_varint buffer payload_length.

(** One entry of a SETTINGS frame. *)
Definition put_setting (buffer : bytes) (identifier value : Z)
    : result bytes WebTransportError.t :=
  let? buffer := put_varint buffer identifier in
  put_varint buffer value.

Definition known_settings (settings : H3Settings.t) : list (Z * option Z) :=
  [(SETTINGS_QPACK_MAX_TABLE_CAPACITY, H3Settings.qpack_max_table_capacity settings);
   (SETTINGS_MAX_FIELD_SECTION_SIZE, H3Settings.max_field_section_size settings);
   (SETTINGS_QPACK_BLOCKED_STREAMS, H3Settings.qpack_blocked_streams settings);
   (SETTINGS_ENABLE_CONNECT_PROTOCOL, H3Settings.enable_connect_protocol settings);
   (SETTINGS_H3_DATAGRAM, H3Settings.h3_datagram settings);
   (SETTINGS_WT_INITIAL_MAX_DATA, H3Settings.wt_initial_max_data settings);
   (SETTINGS_WT_INITIAL_MAX_STREAMS_UNI, H3Settings.wt_initial_max_streams_uni settings);
   (SETTINGS_WT_INITIAL_MAX_STREAMS_BIDI, H3Settings.wt_initial_max_streams_bidi settings);
   (SETTINGS_WT_ENABLED, H3Settings.wt_enabled settings)].

Fixpoint encode_known (known : list (Z * option Z)) (buffer : bytes)
    : result bytes WebTransportError.t :=
  match known with
  | [] => Ok buffer
  | (_, None) :: rest => encode_known rest buffer
  | (identifier, Some value) :: rest =>
      let? buffer := put_setting buffer identifier value in
      encode_known rest buffer
  end.

Fixpoint encode_unknown (unknown : list (Z * Z)) (buffer : bytes)
    : result bytes WebTransportError.t :=
  match unknown with
  | [] => Ok buffer
  | (identifier, value) :: rest =>
      let? buffer := put_setting buffer identifier value in
      encode_unknown rest buffer
  end.

Definition encode_settings (settings : H3Settings.t) : result bytes WebTransportError.t :=
  let? buffer := encode_known (known_settings settings) [] in
  encode_unknown (H3Settings.unknown settings) buffer.

Definition parse_push_id (data : bytes) : result Z WebTransportError.t :=
  match utils.read_varint data with
  | Err _ => Err (Protocol ERR_H3_FRAME_ERROR (b: "varint decode invalid"))
  | Ok (push_id, cursor) =>
      if negb (bool_decide (cursor = []))
      then Err (Protocol ERR_H3_FRAME_ERROR (b: "h3_frame validate invalid"))
      else Ok push_id
  end.

Definition is_reserved_setting (identifier : Z) : bool :=
  (identifier =? SETTINGS_RESERVED_ENABLE_PUSH)
  || (identifier =? SETTINGS_RESERVED_INITIAL_WINDOW_SIZE)
  || (identifier =? SETTINGS_RESERVED_MAX_CONCURRENT_STREAMS)
  || (identifier =? SETTINGS_RESERVED_MAX_FRAME_SIZE).

(** [H3Settings::default()]. *)
Definition default_settings : H3Settings.t :=
  H3Settings.mk None None None None None [] None None None None.

(** The slot an identifier names, with its content and how to fill it. *)
Definition slot (s : H3Settings.t) (identifier : Z) : option (option Z * (Z -> H3Settings.t)) :=
  let 'H3Settings.mk ecp dg mfs qbs qtc un wt wmd wsb wsu := s in
  if identifier =? SETTINGS_ENABLE_CONNECT_PROTOCOL then
    Some (ecp, fun v => H3Settings.mk (Some v) dg mfs qbs qtc un wt wmd wsb wsu)
  else if identifier =? SETTINGS_H3_DATAGRAM then
    Some (dg, fun v => H3Settings.mk ecp (Some v) mfs qbs qtc un wt wmd wsb wsu)
  else if identifier =? SETTINGS_MAX_FIELD_SECTION_SIZE then
    Some (mfs, fun v => H3Settings.mk ecp dg (Some v) qbs qtc un wt wmd wsb wsu)
  else if identifier =? SETTINGS_QPACK_BLOCKED_STREAMS then
    Some (qbs, fun v => H3Settings.mk ecp dg mfs (Some v) qtc un wt wmd wsb wsu)
  else if identifier =? SETTINGS_QPACK_MAX_TABLE_CAPACITY then
    Some (qtc, fun v => H3Settings.mk ecp dg mfs qbs (Some v) un wt wmd wsb wsu)
  else if identifier =? SETTINGS_WT_ENABLED then
    Some (wt, fun v => H3Settings.mk ecp dg mfs qbs qtc un (Some v) wmd wsb wsu)
  else if identifier =? SETTINGS_WT_INITIAL_MAX_DATA then
    Some (wmd, fun v => H3Settings.mk ecp dg mfs qbs qtc un wt (Some v) wsb wsu)
  else if identifier =? SETTINGS_WT_INITIAL_MAX_STREAMS_BIDI then
    Some (wsb, fun v => H3Settings.mk ecp dg mfs qbs qtc un wt wmd (Some v) wsu)
  else if identifier =? SETTINGS_WT_INITIAL_MAX_STREAMS_UNI then
    Some (wsu, fun v => H3Settings.mk ecp dg mfs qbs qtc un wt wmd wsb (Some v))
  else None.

(** The body of the loop past the two varints. *)
Definition add_setting (settings : H3Settings.t) (identifier value : Z)
    : result H3Settings.t WebTransportError.t :=
  if is_reserved_setting identifier
  then Err (Protocol ERR_H3_SETTINGS_ERROR (b: "h3_settings validate invalid"))
  else match slot settings identifier with
  | Some (Some _, _) => Err (Protocol ERR_H3_SETTINGS_ERROR (b: "h3_settings validate invalid"))
  | Some (None, fill) => Ok (fill value)
  | None =>
      if existsb (fun '(unknown_identifier, _) => unknown_identifier =? identifier)
                 (H3Settings.unknown settings)
      then Err (Protocol ERR_H3_SETTINGS_ERROR (b: "h3_settings validate invalid"))
      else
        let 'H3Settings.mk ecp dg mfs qbs qtc un wt wmd wsb wsu := settings in
        Ok (H3Settings.mk ecp dg mfs qbs qtc (un ++ [(identifier, value)]) wt wmd wsb wsu)
  end.

(** The [while] loop.  It stops with an error once [count] reaches the limit, so
    one more than the limit is enough fuel. *)
Fixpoint parse_settings_loop (fuel : nat) (cursor : bytes) (settings : H3Settings.t) (count : Z)
    : result H3Settings.t WebTransportError.t :=
  match fuel with
  | O => Err (Protocol ERR_H3_SETTINGS_ERROR (b: "h3_settings validate exceeded"))
  | S fuel' =>
      if bool_decide (cursor = []) then Ok settings
      else if SETTINGS_ENTRIES_LIMIT <=? count
      then Err (Protocol ERR_H3_SETTINGS_ERROR (b: "h3_settings validate exceeded"))
      else match utils.read_varint cursor with
      | Err _ => Err (Protocol ERR_H3_FRAME_ERROR (b: "varint decode invalid"))
      | Ok (identifier, cursor) =>
          match utils.read_varint cursor with
          | Err _ => Err (Protocol ERR_H3_FRAME_ERROR (b: "varint decode invalid"))
          | Ok (value, cursor) =>
              let? settings := add_setting settings identifier value in
              parse_settings_loop fuel' cursor settings (count + 1)
          end
      end
  end.

Definition parse_settings (data : bytes) : result H3Settings.t WebTransportError.t :=
  parse_settings_loop (S (Z.to_nat SETTINGS_ENTRIES_LIMIT)) data default_settings 0.

(** *** Field sections *)

Definition invalid_headers (stream_id : StreamId) : WebTransportError.t :=
  WebTransportError.Stream stream_id (Some ERR_H3_MESSAGE_ERROR) (b: "h3_headers validate invalid").

(** The local variables of [validate_request_headers]. *)
Record request_fields : Set := RequestFields {
  after_pseudo : bool;
  method : option bytes;
  scheme : option bytes;
  authority : option bytes;
  path : option bytes;
  protocol : option bytes;
  hosts : list bytes;
}.

Definition no_fields : request_fields := RequestFields false None None None None None [].

(** The pseudo-header a name selects, and the fields with it replaced. *)
Definition pseudo_header (f : request_fields) (key : bytes)
    : option (option bytes * (bytes -> request_fields)) :=
  let 'RequestFields after m s a p pr hs := f in
  if bool_decide (key = b: ":method") then
    Some (m, fun v => RequestFields after (Some v) s a p pr hs)
  else if bool_decide (key = b: ":scheme") then
    Some (s, fun v => RequestFields after m (Some v) a p pr hs)
  else if bool_decide (key = b: ":authority") then
    Some (a, fun v => RequestFields after m s (Some v) p pr hs)
  else if bool_decide (key = b: ":path") then
    Some (p, fun v => RequestFields after m s a (Some v) pr hs)
  else if bool_decide (key = b: ":protocol") then
    Some (pr, fun v => RequestFields after m s a p (Some v) hs)
  else None.

(** One field of the loop; [None] is the early return with the error. *)
Definition request_field (f : request_fields) (key value : bytes) : option request_fields :=
  if negb (utils.is_valid_header key value)
     || utils.is_connection_specific_header key value true then None
  else if utils.starts_with_colon key then
    match pseudo_header f key with
    | None => None
    | Some (previous, replace) =>
        if after_pseudo f || bool_decide (is_Some previous) then None else Some (replace value)
    end
  else
    let 'RequestFields _ m s a p pr hs := f in
    Some (RequestFields true m s a p pr
            (if bool_decide (key = b: "host") then hs ++ [value] else hs)).

Fixpoint request_fields_of (f : request_fields) (headers : Headers) : option request_fields :=
  match headers with
  | [] => Some f
  | (key, value) :: rest =>
      f ← request_field f key value;
      request_fields_of f rest
  end.

Definition is_valid_pseudo (f : request_fields) : bool :=
  match method f, protocol f with
  | Some m, None =>
      if bool_decide (m = b: "CONNECT") then
        match authority f with Some a => negb (bool_decide (a = [])) | None => false end
        && negb (bool_decide (is_Some (scheme f))) && negb (bool_decide (is_Some (path f)))
      else bool_decide (is_Some (scheme f)) && bool_decide (is_Some (path f))
  | Some m, Some _ =>
      if bool_decide (m = b: "CONNECT")
      then bool_decide (is_Some (scheme f)) && bool_decide (is_Some (path f))
      else false
  | None, _ => false
  end.

Definition is_valid_path (f : request_fields) : bool :=
  match path f with None => true | Some path => forallb is_ascii_graphic path end.

Definition is_valid_authority (f : request_fields) : bool :=
  match authority f, hosts f with
  | Some authority, [] => negb (bool_decide (authority = []))
  | Some authority, [host] => negb (bool_decide (authority = [])) && bool_decide (host = authority)
  | None, _ :: _ => forallb (fun host => negb (bool_decide (host = []))) (hosts f)
  | _, _ => false
  end.

(** [matches!((path, method), ([b'/', ..], _) | (b"*", Some(b"OPTIONS")))]. *)
Definition is_origin_path (f : request_fields) : bool :=
  match path f with
  | None => false
  | Some path =>
      match path with byte :: _ => bool_decide (byte = x2f) | [] => false end
      || bool_decide (path = b: "*") && bool_decide (method f = Some (b: "OPTIONS"))
  end.

Definition validate_request_headers (stream_id : StreamId) (headers : Headers)
    : result () WebTransportError.t :=
  match request_fields_of no_fields headers with
  | None => Err (invalid_headers stream_id)
  | Some f =>
      if negb (is_valid_pseudo f) || negb (is_valid_path f) then Err (invalid_headers stream_id)
      else if bool_decide (scheme f = Some (b: "http")) || bool_decide (scheme f = Some (b: "https"))
      then
        if negb (is_valid_authority f) || negb (is_origin_path f)
        then Err (invalid_headers stream_id) else Ok ()
      else Ok ()
  end.

(** The loop of [validate_response_headers], over [after_pseudo] and [status]. *)
Fixpoint response_status (after_pseudo : bool) (status : option bytes) (headers : Headers)
    : option (option bytes) :=
  match headers with
  | [] => Some status
  | (key, value) :: rest =>
      if negb (utils.is_valid_header key value)
         || utils.is_connection_specific_header key value false then None
      else if utils.starts_with_colon key then
        if after_pseudo || negb (bool_decide (key = b: ":status")) || bool_decide (is_Some status)
        then None else response_status after_pseudo (Some value) rest
      else response_status true status rest
  end.

Definition validate_response_headers (stream_id : StreamId) (headers : Headers)
    : result () WebTransportError.t :=
  match response_status false None headers with
  | Some (Some _) => Ok ()
  | _ => Err (invalid_headers stream_id)
  end.

Definition validate_settings (settings : H3Settings.t) (connection : Connection.t)
    : result () WebTransportError.t :=
  let invalid := Protocol ERR_H3_SETTINGS_ERROR (b: "h3_settings validate invalid") in
  let quic_supports_datagrams :=
    0 <? default 0 (Connection.peer_max_datagram_frame_size connection) in
  if match H3Settings.enable_connect_protocol settings with
     | Some value => negb (value =? 1) | None => false end
  then Err invalid
  else if negb quic_supports_datagrams && bool_decide (H3Settings.h3_datagram settings = Some 1)
  then Err invalid
  else if Connection.is_client connection
          && match H3Settings.wt_enabled settings with
             | Some value => 1 <? value | None => false end
  then Err invalid
  else if default 0 (H3Settings.wt_enabled settings) =? 0
  then Err (Protocol ERR_WT_REQUIREMENTS_NOT_MET (b: "h3_settings validate invalid"))
  else Ok ().

End h3.

(** ** The HTTP/3 state machine *)

Module H3.
Section H3.
Context `{LsQpack}.
Import h3.

Record t : Type := mk {
  blocked_streams : Z;
  decoder : Decoder.t;
  encoder : Encoder.t;
  initial_max_data : Z;
  initial_max_streams_bidi : Z;
  initial_max_streams_uni : Z;
  is_client : bool;
  local_control_stream_id : option StreamId;
  local_decoder_stream_id : option StreamId;
  local_encoder_stream_id : option StreamId;
  max_capsule_size : Z;
  max_field_section_size : Z;
  max_table_capacity : Z;
  peer_control_stream_id : option StreamId;
  peer_decoder_stream_id : option StreamId;
  peer_encoder_stream_id : option StreamId;
  peer_max_push_id : option Z;
  settings_received : bool;
  streams : gmap StreamId H3Stream.t;
}.

#[global] Instance eta_h3 : Eta t := fun h =>
  mk (blocked_streams h) (decoder h) (encoder h) (initial_max_data h)
     (initial_max_streams_bidi h) (initial_max_streams_uni h) (is_client h)
     (local_control_stream_id h) (local_decoder_stream_id h) (local_encoder_stream_id h)
     (max_capsule_size h) (max_field_section_size h) (max_table_capacity h)
     (peer_control_stream_id h) (peer_decoder_stream_id h) (peer_encoder_stream_id h)
     (peer_max_push_id h) (settings_received h) (streams h).
#[global] Instance set_h3_decoder : Setter decoder := ltac:(build_setter).
#[global] Instance set_h3_encoder : Setter encoder := ltac:(build_setter).
#[global] Instance set_local_control_stream_id : Setter local_control_stream_id := ltac:(build_setter).
#[global] Instance set_local_decoder_stream_id : Setter local_decoder_stream_id := ltac:(build_setter).
#[global] Instance set_local_encoder_stream_id : Setter local_encoder_stream_id := ltac:(build_setter).
#[global] Instance set_peer_control_stream_id : Setter peer_control_stream_id := ltac:(build_setter).
#[global] Instance set_peer_decoder_stream_id : Setter peer_decoder_stream_id := ltac:(build_setter).
#[global] Instance set_peer_encoder_stream_id : Setter peer_encoder_stream_id := ltac:(build_setter).
#[global] Instance set_peer_max_push_id : Setter peer_max_push_id := ltac:(build_setter).
#[global] Instance set_settings_received : Setter settings_received := ltac:(build_setter).
#[global] Instance set_h3_streams : Setter streams := ltac:(build_setter).

Definition new (is_client : bool) (parameters : H3Parameters.t) : t := {|
  blocked_streams := QPACK_DECODER_BLOCKED_STREAM_CAPACITY;
  decoder := Decoder.new QPACK_DECODER_TABLE_CAPACITY QPACK_DECODER_BLOCKED_STREAM_CAPACITY;
  encoder := Encoder.new QPACK_ENCODER_TABLE_CAPACITY QPACK_ENCODER_BLOCKED_STREAM_CAPACITY;
  initial_max_data := H3Parameters.initial_max_data parameters;
  initial_max_streams_bidi := H3Parameters.initial_max_streams_bidi parameters;
  initial_max_streams_uni := H3Parameters.initial_max_streams_uni parameters;
  is_client := is_client;
  local_control_stream_id := None;
  local_decoder_stream_id := None;
  local_encoder_stream_id := None;
  max_capsule_size := H3Parameters.max_capsule_size parameters;
  max_field_section_size := H3Parameters.max_field_section_size parameters;
  max_table_capacity := QPACK_DECODER_TABLE_CAPACITY;
  peer_control_stream_id := None;
  peer_decoder_stream_id := None;
  peer_encoder_stream_id := None;
  peer_max_push_id := None;
  settings_received := false;
  streams := ∅;
|}.

(** *** Sending *)

Definition bind_connect_stream (h : t) (stream_id : StreamId) : t * list Effect.t :=
  let stream := H3Stream.default_stream <| H3Stream.is_connect_stream := true |>
                                        <| H3Stream.is_request_stream := true |> in
  (h <| streams := <[stream_id := stream]> (streams h) |>,
   [Effect.ReceiveQuicData stream_id U64_MAX]).

Definition set_local_stream_ids (h : t)
    (control_stream_id encoder_stream_id decoder_stream_id : StreamId)
    : t * result () WebTransportError.t :=
  if negb (utils.is_unidirectional_stream control_stream_id)
  then (h, Err (Protocol ERR_H3_ID_ERROR (b: "h3_control_stream validate invalid")))
  else if negb (utils.is_unidirectional_stream encoder_stream_id)
  then (h, Err (Protocol ERR_H3_ID_ERROR (b: "qpack_encoder_stream validate invalid")))
  else if negb (utils.is_unidirectional_stream decoder_stream_id)
  then (h, Err (Protocol ERR_H3_ID_ERROR (b: "qpack_decoder_stream validate invalid")))
  else if (control_stream_id =? encoder_stream_id) || (control_stream_id =? decoder_stream_id)
          || (encoder_stream_id =? decoder_stream_id)
  then (h, Err (Protocol ERR_LIB_INTERNAL_ERROR (b: "h3_stream validate invalid")))
  else if bool_decide (is_Some (local_control_stream_id h))
          || bool_decide (is_Some (local_encoder_stream_id h))
          || bool_decide (is_Some (local_decoder_stream_id h))
  then (h, Err (Protocol ERR_LIB_INTERNAL_ERROR (b: "h3_stream validate failed")))
  else (h <| local_control_stream_id := Some control_stream_id |>
          <| local_encoder_stream_id := Some encoder_stream_id |>
          <| local_decoder_stream_id := Some decoder_stream_id |>, Ok ()).

Definition initialize_local_streams (h : t)
    (control_stream_id encoder_stream_id decoder_stream_id : StreamId) (settings_frame : bytes)
    : t * result (bytes * bytes * bytes) WebTransportError.t :=
  try? h, _ := set_local_stream_ids h control_stream_id encoder_stream_id decoder_stream_id in
  (h,
   let? control_data := put_varint [] H3_STREAM_TYPE_CONTROL in
   let? encoder_data := put_varint [] H3_STREAM_TYPE_QPACK_ENCODER in
   let? decoder_data := put_varint [] H3_STREAM_TYPE_QPACK_DECODER in
   Ok (control_data ++ settings_frame, encoder_data, decoder_data)).

Definition local_settings (h : t) : H3Settings.t := {|
  H3Settings.enable_connect_protocol := Some 1;
  H3Settings.h3_datagram := Some 1;
  H3Settings.max_field_section_size := Some (max_field_section_size h);
  H3Settings.qpack_blocked_streams := Some (blocked_streams h);
  H3Settings.qpack_max_table_capacity := Some (max_table_capacity h);
  H3Settings.unknown := [];
  H3Settings.wt_enabled := Some 1;
  H3Settings.wt_initial_max_data := Some (initial_max_data h);
  H3Settings.wt_initial_max_streams_bidi := Some (initial_max_streams_bidi h);
  H3Settings.wt_initial_max_streams_uni := Some (initial_max_streams_uni h);
|}.

Definition initialize_settings (h : t) : result bytes WebTransportError.t :=
  let? payload := encode_settings (local_settings h) in
  let? header := encode_frame_header H3_FRAME_TYPE_SETTINGS (len payload) in
  Ok (header ++ payload).

Definition bind_local_streams (h : t)
    (control_stream_id encoder_stream_id decoder_stream_id : StreamId) : t * list Effect.t :=
  match initialize_settings h with
  | Err _ =>
      (h, [Effect.CloseQuicConnection ERR_H3_INTERNAL_ERROR
             (Some (b: "h3_settings encode failed"))])
  | Ok settings_frame =>
      match initialize_local_streams h control_stream_id encoder_stream_id decoder_stream_id
              settings_frame with
      | (h, Err _) =>
          (h, [Effect.CloseQuicConnection ERR_H3_INTERNAL_ERROR
                 (Some (b: "h3_stream encode failed"))])
      | (h, Ok (control_data, encoder_data, decoder_data)) =>
          (h, [Effect.SendQuicData control_stream_id control_data false;
               Effect.SendQuicData encoder_stream_id encoder_data false;
               Effect.SendQuicData decoder_stream_id decoder_data false])
      end
  end.

(** Instructions for the peer's codec, on one of the local QPACK streams. *)
Definition send_instructions (stream_id : option StreamId) (instructions : bytes)
    : list Effect.t :=
  match instructions, stream_id with
  | _ :: _, Some stream_id => [Effect.SendQuicData stream_id instructions false]
  | _, _ => []
  end.

Definition cleanup_stream (h : t) (stream_id : StreamId) : t * list Effect.t :=
  let '(decoder', cancel_instructions) := Decoder.abandon_header_block (decoder h) stream_id in
  let h := h <| decoder := decoder' |> in
  let effects := send_instructions (local_decoder_stream_id h) cancel_instructions in
  (h <| streams := delete stream_id (streams h) |>, effects).

Definition encode_capsule (stream_id : StreamId) (capsule_type : Z) (capsule_value : bytes)
    : result (list bytes) WebTransportError.t :=
  if negb (utils.is_valid_session_id stream_id)
  then Err (Protocol ERR_H3_STREAM_CREATION_ERROR (b: "h3_stream validate invalid"))
  else
    let? capsule_header := put_varint [] capsule_type in
    let? capsule_header := put_varint capsule_header (len capsule_value) in
    let payload_len := len capsule_header + len capsule_value in
    let? frame_header := encode_frame_header H3_FRAME_TYPE_DATA payload_len in
    Ok [frame_header; capsule_header; capsule_value].

Definition encode_headers (h : t) (stream_id : StreamId) (headers : Headers) (end_stream : bool)
    : t * result (list Effect.t) WebTransportError.t :=
  match Encoder.encode (encoder h) stream_id headers with
  | (encoder', Err _) =>
      (h <| encoder := encoder' |>,
       Err (Protocol ERR_QPACK_ENCODER_STREAM_ERROR (b: "qpack_encoder encode failed")))
  | (encoder', Ok (frame_payload, encoder_instructions)) =>
      let h := h <| encoder := encoder' |> in
      let effects := send_instructions (local_encoder_stream_id h) encoder_instructions in
      (h,
       let? frame_header := encode_frame_header H3_FRAME_TYPE_HEADERS (len frame_payload) in
       Ok (effects ++ [Effect.SendQuicData stream_id frame_header false;
                       Effect.SendQuicData stream_id frame_payload end_stream]))
  end.

Definition encode_connect_request (h : t) (stream_id : StreamId) (authority path : str)
    (headers : Headers) : t * result (list Effect.t) WebTransportError.t :=
  let request_headers : Headers :=
    [(b: ":method", b: "CONNECT"); (b: ":scheme", b: "https"); (b: ":authority", authority);
     (b: ":path", path); (b: ":protocol", WT_UPGRADE_TOKEN)] in
  encode_headers h stream_id (request_headers ++ headers) false.

Definition encode_datagram (session_id : SessionId) (data : bytes)
    : result (list bytes) WebTransportError.t :=
  if negb (utils.is_valid_session_id session_id)
  then Err (Protocol ERR_H3_STREAM_CREATION_ERROR (b: "wt_session validate invalid"))
  else
    let? header := put_varint [] (session_id / 4) in
    Ok [header; data].

Definition encode_goaway (identifier : Z) : result bytes WebTransportError.t :=
  let? payload := put_varint [] identifier in
  let? header := encode_frame_header H3_FRAME_TYPE_GOAWAY (len payload) in
  Ok (header ++ payload).

Definition encode_stream_header (stream_id : StreamId) (session_id : SessionId)
    (is_unidirectional : bool) : list Effect.t :=
  let stream_type :=
    if is_unidirectional then H3_STREAM_TYPE_WEBTRANSPORT else H3_FRAME_TYPE_WT_STREAM in
  match utils.write_varint [] stream_type with
  | Err _ => []
  | Ok buffer =>
      match utils.write_varint buffer session_id with
      | Err _ => []
      | Ok buffer => [Effect.SendQuicData stream_id buffer false]
      end
  end.

Definition fail_local_streams : list Effect.t :=
  [Effect.CloseQuicConnection ERR_H3_GENERAL_PROTOCOL_ERROR (Some (b: "h3_stream create failed"))].

Definition resume_request_stream (h : t) (stream_id : StreamId) : list Effect.t :=
  match streams h !! stream_id with
  | None => []
  | Some stream =>
      if H3Stream.blocked stream || H3Stream.ended stream then []
      else [Effect.ReceiveQuicData stream_id U64_MAX]
  end.

Definition stop_request_stream (h : t) (stream_id : StreamId) : t * list Effect.t :=
  match streams h !! stream_id with
  | None => (h, [])
  | Some _ =>
      let effects := [Effect.StopQuicStream stream_id ERR_WT_SESSION_GONE] in
      let '(h, more) := cleanup_stream h stream_id in
      (h, effects ++ more)
  end.

(** *** Receiving: field sections and frames *)

Definition decode_headers (h : t) (stream_id : StreamId) (frame_data : option bytes)
    : t * result HeaderDecodeStatus.t WebTransportError.t :=
  let '(decoder', decoded) :=
    match frame_data with
    | Some frame_data => Decoder.decode_header (decoder h) stream_id frame_data
    | None =>
        match Decoder.resume_header (decoder h) stream_id with
        | (d, Ok (instructions, Some headers)) =>
            (d, Ok (instructions, DecodeStatus.Done headers))
        | (d, Ok (instructions, None)) => (d, Ok (instructions, DecodeStatus.Blocked))
        | (d, Err e) => (d, Err e)
        end
    end in
  let h := h <| decoder := decoder' |> in
  match decoded with
  | Err _ =>
      (h, Err (Protocol ERR_QPACK_DECOMPRESSION_FAILED (b: "h3_headers decode invalid")))
  | Ok (decoder_instructions, status) =>
      let effects := send_instructions (local_decoder_stream_id h) decoder_instructions in
      match status with
      | DecodeStatus.Done headers => (h, Ok (HeaderDecodeStatus.Done headers effects))
      | DecodeStatus.Blocked => (h, Ok HeaderDecodeStatus.Blocked)
      end
  end.

Definition is_reserved_frame (frame_type : Z) : bool :=
  (frame_type =? H3_FRAME_TYPE_RESERVED_CONTINUATION)
  || (frame_type =? H3_FRAME_TYPE_RESERVED_PING)
  || (frame_type =? H3_FRAME_TYPE_RESERVED_PRIORITY)
  || (frame_type =? H3_FRAME_TYPE_RESERVED_WINDOW_UPDATE).

(** [Option<u64>]'s order puts [None] first. *)
Definition exceeds (previous : option Z) (value : Z) : bool :=
  match previous with None => false | Some p => value <? p end.

Definition handle_control_frame (h : t) (frame_type : Z) (frame_data : bytes)
    (connection : Connection.t)
    : t * result (list ProtocolEvent.t * list Effect.t) WebTransportError.t :=
  if negb (frame_type =? H3_FRAME_TYPE_SETTINGS) && negb (settings_received h)
  then (h, Err (Protocol ERR_H3_MISSING_SETTINGS (b: "h3_settings validate invalid")))
  else if frame_type =? H3_FRAME_TYPE_CANCEL_PUSH then
    match parse_push_id frame_data with
    | Err e => (h, Err e)
    | Ok _ => (h, Err (Protocol ERR_H3_ID_ERROR (b: "h3_cancel_push validate invalid")))
    end
  else if (frame_type =? H3_FRAME_TYPE_DATA) || (frame_type =? H3_FRAME_TYPE_HEADERS)
          || (frame_type =? H3_FRAME_TYPE_PUSH_PROMISE) || is_reserved_frame frame_type
  then (h, Err (Protocol ERR_H3_FRAME_UNEXPECTED (b: "h3_control_stream validate invalid")))
  else if frame_type =? H3_FRAME_TYPE_GOAWAY then (h, Ok ([ProtocolEvent.H3GoawayReceived], []))
  else if frame_type =? H3_FRAME_TYPE_MAX_PUSH_ID then
    if is_client h
    then (h, Err (Protocol ERR_H3_FRAME_UNEXPECTED (b: "h3_max_push_id validate invalid")))
    else match parse_push_id frame_data with
    | Err e => (h, Err e)
    | Ok push_id =>
        if exceeds (peer_max_push_id h) push_id
        then (h, Err (Protocol ERR_H3_ID_ERROR (b: "h3_max_push_id validate invalid")))
        else (h <| peer_max_push_id := Some push_id |>, Ok ([], []))
    end
  else if frame_type =? H3_FRAME_TYPE_SETTINGS then
    if settings_received h
    then (h, Err (Protocol ERR_H3_FRAME_UNEXPECTED (b: "h3_settings validate invalid")))
    else match parse_settings frame_data with
    | Err e => (h, Err e)
    | Ok settings =>
        match validate_settings settings connection with
        | Err e => (h, Err e)
        | Ok _ =>
            match Encoder.apply_settings (encoder h)
                    (default 0 (H3Settings.qpack_max_table_capacity settings))
                    (default 0 (H3Settings.qpack_blocked_streams settings)) with
            | (encoder', Err _) =>
                (h <| encoder := encoder' |>,
                 Err (Protocol ERR_H3_INTERNAL_ERROR (b: "qpack_encoder validate failed")))
            | (encoder', Ok encoder_instructions) =>
                let h := h <| encoder := encoder' |> <| settings_received := true |> in
                (h, Ok ([ProtocolEvent.H3SettingsReceived settings],
                        send_instructions (local_encoder_stream_id h) encoder_instructions))
            end
        end
    end
  else if frame_type =? H3_FRAME_TYPE_WT_STREAM
  then (h, Err (Protocol ERR_H3_FRAME_ERROR (b: "h3_control_stream validate invalid")))
  else (h, Ok ([], [])).

(** The loop of [parse_capsules] over the capsule buffer; every capsule has a
    header, so the length of the buffer bounds their number. *)
Fixpoint parse_capsules_loop (fuel : nat) (max_capsule_size : Z) (stream_id : StreamId)
    (capsule_buffer : bytes) (events : list ProtocolEvent.t)
    : result (bytes * list ProtocolEvent.t) WebTransportError.t :=
  match fuel with
  | O => Ok (capsule_buffer, events)
  | S fuel' =>
      if bool_decide (capsule_buffer = []) then Ok (capsule_buffer, events)
      else match utils.read_varint capsule_buffer with
      | Err _ => Ok (capsule_buffer, events)
      | Ok (capsule_type, cursor) =>
          match utils.read_varint cursor with
          | Err _ => Ok (capsule_buffer, events)
          | Ok (capsule_length, cursor) =>
              if max_capsule_size <? capsule_length then
                Err (WebTransportError.Stream stream_id (Some ERR_H3_MESSAGE_ERROR)
                       (b: "wt_capsule validate exceeded"))
              else
                let header_len := len capsule_buffer - len cursor in
                if len capsule_buffer <? header_len + capsule_length
                then Ok (capsule_buffer, events)
                else
                  let capsule_value := take (Z.to_nat capsule_length) cursor in
                  parse_capsules_loop fuel' max_capsule_size stream_id
                    (drop (Z.to_nat capsule_length) cursor)
                    (events ++ [ProtocolEvent.H3CapsuleReceived stream_id capsule_type
                                  capsule_value])
          end
      end
  end.

Definition parse_capsules (h : t) (stream_id : StreamId) (stream : H3Stream.t)
    : result (H3Stream.t * list ProtocolEvent.t) WebTransportError.t :=
  let? (rest, events) :=
    parse_capsules_loop (S (length (H3Stream.capsule_buffer stream))) (max_capsule_size h)
      stream_id (H3Stream.capsule_buffer stream) [] in
  Ok (stream <| H3Stream.capsule_buffer := rest |>, events).

Definition handle_request_frame (h : t) (stream_id : StreamId) (stream : H3Stream.t)
    (frame_type : Z) (frame_data : option bytes)
    : t * result (H3Stream.t * list ProtocolEvent.t * list Effect.t) WebTransportError.t :=
  if (frame_type =? H3_FRAME_TYPE_CANCEL_PUSH) || (frame_type =? H3_FRAME_TYPE_GOAWAY)
     || (frame_type =? H3_FRAME_TYPE_MAX_PUSH_ID) || is_reserved_frame frame_type
     || (frame_type =? H3_FRAME_TYPE_SETTINGS)
  then (h, Err (Protocol ERR_H3_FRAME_UNEXPECTED (b: "h3_stream validate invalid")))
  else if frame_type =? H3_FRAME_TYPE_DATA then
    let payload := default [] frame_data in
    if H3Stream.is_connect_stream stream && H3Stream.headers_processed stream then
      let stream := stream <| H3Stream.capsule_buffer :=
                      H3Stream.capsule_buffer stream ++ payload |> in
      if bool_decide (H3Stream.capsule_buffer stream = []) then (h, Ok (stream, [], []))
      else match parse_capsules h stream_id stream with
      | Err e => (h, Err e)
      | Ok (stream, events) => (h, Ok (stream, events, []))
      end
    else (h, Ok (stream, [], []))
  else if frame_type =? H3_FRAME_TYPE_HEADERS then
    if H3Stream.headers_processed stream
    then (h, Err (WebTransportError.Stream stream_id (Some ERR_H3_FRAME_UNEXPECTED)
                    (b: "h3_headers validate failed")))
    else
      try? h, status := decode_headers h stream_id frame_data in
      match status with
      | HeaderDecodeStatus.Blocked =>
          (h, Ok (stream <| H3Stream.blocked := true |>
                         <| H3Stream.frame_type := Some H3_FRAME_TYPE_HEADERS |>, [], []))
      | HeaderDecodeStatus.Done headers decoder_effects =>
          match (if is_client h then validate_response_headers stream_id headers
                 else validate_request_headers stream_id headers) with
          | Err e => (h, Err e)
          | Ok _ =>
              let is_webtransport_upgrade :=
                bool_decide (utils.find_header headers (b: ":protocol") = Some WT_UPGRADE_TOKEN) in
              let stream := if is_webtransport_upgrade
                            then stream <| H3Stream.is_connect_stream := true |> else stream in
              let stream := stream <| H3Stream.blocked := false |>
                                   <| H3Stream.headers_processed := true |> in
              let stream := match frame_data with
                            | Some _ => stream
                            | None => stream <| H3Stream.blocked_frame_size := None |>
                            end in
              (h, Ok (stream, [ProtocolEvent.H3HeadersReceived stream_id headers],
                      decoder_effects))
          end
      end
  else if frame_type =? H3_FRAME_TYPE_PUSH_PROMISE
  then (h, Err (Protocol ERR_H3_FRAME_UNEXPECTED (b: "h3_push_promise validate invalid")))
  else if frame_type =? H3_FRAME_TYPE_WT_STREAM
  then (h, Err (Protocol ERR_H3_FRAME_ERROR (b: "h3_stream validate invalid")))
  else (h, Ok (stream, [], [])).

Definition handle_stream_opened (h : t) (stream_id : StreamId) : t * list Effect.t :=
  (h <| streams := <[stream_id := H3Stream.default_stream]> (streams h) |>,
   [Effect.ReceiveQuicData stream_id 1]).

(** *** Receiving: the incremental frame parser *)

(** Reads the header of the next frame; [None] when it is not complete. *)
Definition parse_frame_header (h : t) (stream_id : StreamId) (stream : H3Stream.t)
    : result (option H3Stream.t) WebTransportError.t :=
  match utils.read_varint (H3Stream.buffer stream) with
  | Err _ => Ok None
  | Ok (frame_type, cursor) =>
      match utils.read_varint cursor with
      | Err _ => Ok None
      | Ok (frame_size, cursor) =>
          if (frame_type =? H3_FRAME_TYPE_HEADERS) && (max_field_section_size h <? frame_size)
          then Err (WebTransportError.Stream stream_id (Some ERR_H3_MESSAGE_ERROR)
                      (b: "h3_field_section validate exceeded"))
          else if negb (frame_type =? H3_FRAME_TYPE_DATA)
                  && negb (frame_type =? H3_FRAME_TYPE_HEADERS)
                  && (CONTROL_FRAME_SIZE_LIMIT <? frame_size)
          then Err (Protocol ERR_H3_FRAME_ERROR (b: "h3_frame validate exceeded"))
          else
            let stream := stream <| H3Stream.frame_type := Some frame_type |>
                                 <| H3Stream.frame_size := Some frame_size |> in
            let stream := if frame_type =? H3_FRAME_TYPE_HEADERS
                          then stream <| H3Stream.blocked_frame_size := Some frame_size |>
                          else stream in
            Ok (Some (stream <| H3Stream.buffer := cursor |>))
      end
  end.

(** How an iteration of the loop of [parse_stream_data] ends. *)
Inductive iteration : Type :=
| Break (h : t) (stream : H3Stream.t) (events : list ProtocolEvent.t) (effects : list Effect.t)
| Continue (h : t) (stream : H3Stream.t) (events : list ProtocolEvent.t)
    (effects : list Effect.t)
| Return (h : t) (e : WebTransportError.t).

(** The part of an iteration past the frame header. *)
Definition parse_frame_chunk (h : t) (stream_id : StreamId) (stream : H3Stream.t)
    (stream_ended : bool) : iteration :=
  match H3Stream.frame_type stream, H3Stream.frame_size stream with
  | Some current_type, Some current_size =>
      let remaining_in_buffer := len (H3Stream.buffer stream) in
      let chunk_size := Z.min current_size remaining_in_buffer in
      if negb (current_type =? H3_FRAME_TYPE_DATA) && (chunk_size <? current_size)
      then Break h stream [] []
      else
        let frame_data := take (Z.to_nat chunk_size) (H3Stream.buffer stream) in
        let is_last_chunk := chunk_size =? current_size in
        let stream :=
          stream <| H3Stream.buffer := drop (Z.to_nat chunk_size) (H3Stream.buffer stream) |>
                 <| H3Stream.frame_size := Some (current_size - chunk_size) |> in
        let data_to_process := if is_last_chunk then Some frame_data else None in
        let final_data :=
          if current_type =? H3_FRAME_TYPE_DATA then Some frame_data else data_to_process in
        match match final_data with
              | Some _ => handle_request_frame h stream_id stream current_type final_data
              | None => (h, Ok (stream, [], []))
              end with
        | (h, Err e) => Return h e
        | (h, Ok (stream, events, effects)) =>
            let stream :=
              if is_last_chunk then
                let stream := stream <| H3Stream.frame_type := None |>
                                     <| H3Stream.frame_size := None |> in
                if (current_type =? H3_FRAME_TYPE_HEADERS) && negb (H3Stream.blocked stream)
                then stream <| H3Stream.blocked_frame_size := None |> else stream
              else stream in
            if (chunk_size =? 0) && negb stream_ended then Break h stream events effects
            else Continue h stream events effects
        end
  | _, _ => Break h stream [] []
  end.

(** One iteration. *)
Definition parse_frame (h : t) (stream_id : StreamId) (stream : H3Stream.t)
    (stream_ended : bool) : iteration :=
  if H3Stream.blocked stream then Break h stream [] []
  else if bool_decide (H3Stream.buffer stream = []) && negb stream_ended
  then Break h stream [] []
  else match H3Stream.frame_type stream with
  | Some _ => parse_frame_chunk h stream_id stream stream_ended
  | None =>
      match parse_frame_header h stream_id stream with
      | Err e => Return h e
      | Ok None => Break h stream [] []
      | Ok (Some stream) => parse_frame_chunk h stream_id stream stream_ended
      end
  end.

(** What a parser of stream data returns; [None] is a run that does not end. *)
Notation parsed A := (option (t * result A WebTransportError.t)).

Fixpoint parse_frames (fuel : nat) (h : t) (stream_id : StreamId) (stream : H3Stream.t)
    (stream_ended : bool) (h3_events : list ProtocolEvent.t) (effects : list Effect.t)
    : parsed (H3Stream.t * list ProtocolEvent.t * list Effect.t) :=
  match fuel with
  | O => None
  | S fuel' =>
      match parse_frame h stream_id stream stream_ended with
      | Return h e => Some (h, Err e)
      | Break h stream new_events new_effects =>
          Some (h, Ok (stream, h3_events ++ new_events, effects ++ new_effects))
      | Continue h stream new_events new_effects =>
          parse_frames fuel' h stream_id stream stream_ended
            (h3_events ++ new_events) (effects ++ new_effects)
      end
  end.

(** Every iteration of a run that ends but the last consumes a byte. *)
Definition parse_fuel (stream : H3Stream.t) : nat := S (length (H3Stream.buffer stream)).

Definition parse_stream_data (h : t) (stream_id : StreamId) (stream : H3Stream.t)
    (stream_ended : bool) : parsed (H3Stream.t * list ProtocolEvent.t * list Effect.t) :=
  if H3Stream.blocked stream then
    match decode_headers h stream_id None with
    | (h, Ok (HeaderDecodeStatus.Done _ _)) =>
        let stream := stream <| H3Stream.blocked := false |> in
        parse_frames (parse_fuel stream) h stream_id stream stream_ended [] []
    | (h, _) => Some (h, Ok (stream, [], []))
    end
  else parse_frames (parse_fuel stream) h stream_id stream stream_ended [] [].

(** *** Receiving: streams *)

Definition parse_stream_header (h : t) (stream_id : StreamId) (stream : H3Stream.t)
    : t * result (list ProtocolEvent.t * list Effect.t) WebTransportError.t :=
  match utils.read_varint (H3Stream.buffer stream) with
  | Err _ =>
      if H3Stream.ended stream then
        let '(h, effects) := cleanup_stream h stream_id in (h, Ok ([], effects))
      else
        (h <| streams := <[stream_id := stream]> (streams h) |>,
         Ok ([], [Effect.ReceiveQuicData stream_id 1]))
  | Ok (session_id, _) =>
      if negb (utils.is_valid_session_id session_id)
      then (h, Err (Protocol ERR_H3_ID_ERROR (b: "wt_session validate invalid")))
      else (h, Ok ([ProtocolEvent.H3WebTransportStreamOpened session_id stream_id], []))
  end.

Definition recv_datagram (data : bytes) : result (list ProtocolEvent.t) WebTransportError.t :=
  match utils.read_varint data with
  | Err _ => Err (Protocol ERR_H3_DATAGRAM_ERROR (b: "varint decode invalid"))
  | Ok (quarter_stream_id, data) =>
      let session_id := u64_mul quarter_stream_id 4 in
      if QUIC_VARINT_LIMIT <? session_id
      then Err (Protocol ERR_H3_DATAGRAM_ERROR (b: "wt_datagram validate exceeded"))
      else Ok [ProtocolEvent.H3DatagramReceived session_id data]
  end.

(** [self.streams.remove(..).unwrap_or_default()], with the data appended. *)
Definition take_stream (h : t) (stream_id : StreamId) (data : bytes) (stream_ended : bool)
    : t * H3Stream.t :=
  let stream := default H3Stream.default_stream (streams h !! stream_id) in
  let stream := stream <| H3Stream.buffer := H3Stream.buffer stream ++ data |> in
  (h <| streams := delete stream_id (streams h) |>,
   if stream_ended then stream <| H3Stream.ended := true |> else stream).

(** [recv_request_data] past the detection of the stream's kind. *)
Definition recv_request_frames (h : t) (stream_id : StreamId) (stream : H3Stream.t)
    : parsed (list ProtocolEvent.t * list Effect.t) :=
  let was_headers_processed := H3Stream.headers_processed stream in
  match parse_stream_data h stream_id stream (H3Stream.ended stream) with
  | None => None
  | Some (h, Err e) => Some (h, Err e)
  | Some (h, Ok (stream, events, effects)) =>
      if H3Stream.ended stream && bool_decide (H3Stream.buffer stream = []) then
        let events := if H3Stream.is_connect_stream stream
                      then events ++ [ProtocolEvent.H3ConnectStreamClosed stream_id]
                      else events in
        let '(h, more) := cleanup_stream h stream_id in
        Some (h, Ok (events, effects ++ more))
      else
        let is_headers_received :=
          negb was_headers_processed && H3Stream.headers_processed stream in
        let effects :=
          if negb (H3Stream.blocked stream) && negb (H3Stream.ended stream)
             && negb is_headers_received
          then effects ++ [Effect.ReceiveQuicData stream_id U64_MAX] else effects in
        Some (h <| streams := <[stream_id := stream]> (streams h) |>, Ok (events, effects))
  end.

Definition recv_request_data (h : t) (stream_id : StreamId) (data : bytes)
    (stream_ended : bool) : parsed (list ProtocolEvent.t * list Effect.t) :=
  let '(h, stream) := take_stream h stream_id data stream_ended in
  if negb (H3Stream.is_request_stream stream)
     && bool_decide (H3Stream.stream_type stream = None) then
    match utils.read_varint (H3Stream.buffer stream) with
    | Ok (frame_type, _) =>
        if frame_type =? H3_FRAME_TYPE_WT_STREAM then
          Some (parse_stream_header h stream_id
                  (stream <| H3Stream.buffer := [] |>
                          <| H3Stream.stream_type := Some H3_STREAM_TYPE_WEBTRANSPORT |>))
        else if is_client h
        then Some (h, Err (Protocol ERR_H3_STREAM_CREATION_ERROR (b: "h3_stream validate invalid")))
        else recv_request_frames h stream_id (stream <| H3Stream.is_request_stream := true |>)
    | Err _ =>
        if H3Stream.ended stream then
          let '(h, effects) := cleanup_stream h stream_id in Some (h, Ok ([], effects))
        else
          Some (h <| streams := <[stream_id := stream]> (streams h) |>,
                Ok ([], [Effect.ReceiveQuicData stream_id 1]))
    end
  else if bool_decide (H3Stream.stream_type stream = Some H3_STREAM_TYPE_WEBTRANSPORT)
  then Some (parse_stream_header h stream_id stream)
  else recv_request_frames h stream_id stream.

Definition recv_stop_sending (h : t) (stream_id : StreamId)
    : result (list ProtocolEvent.t * list Effect.t) WebTransportError.t :=
  let is_critical_stream :=
    bool_decide (Some stream_id ∈ [local_control_stream_id h; local_decoder_stream_id h;
                                   local_encoder_stream_id h]) in
  if is_critical_stream
  then Err (Protocol ERR_H3_CLOSED_CRITICAL_STREAM (b: "h3_control_stream validate invalid"))
  else Ok ([], []).

Definition recv_stream_reset (h : t) (stream_id : StreamId)
    : t * result (list ProtocolEvent.t * list Effect.t) WebTransportError.t :=
  let is_critical_stream :=
    bool_decide (Some stream_id ∈ [peer_control_stream_id h; peer_decoder_stream_id h;
                                   peer_encoder_stream_id h]) in
  if is_critical_stream
  then (h, Err (Protocol ERR_H3_CLOSED_CRITICAL_STREAM (b: "h3_control_stream validate invalid")))
  else let '(h, effects) := cleanup_stream h stream_id in (h, Ok ([], effects)).

Definition register_peer_infrastructure_stream (h : t) (stream_id : StreamId) (stream_type : Z)
    : t * result () WebTransportError.t :=
  let is_id_clash :=
    bool_decide (Some stream_id ∈ [peer_control_stream_id h; peer_decoder_stream_id h;
                                   peer_encoder_stream_id h]) in
  if is_id_clash
  then (h, Err (Protocol ERR_H3_STREAM_CREATION_ERROR (b: "h3_stream validate failed")))
  else
    let role_occupied :=
      if stream_type =? H3_STREAM_TYPE_CONTROL then bool_decide (is_Some (peer_control_stream_id h))
      else if stream_type =? H3_STREAM_TYPE_QPACK_DECODER
      then bool_decide (is_Some (peer_decoder_stream_id h))
      else if stream_type =? H3_STREAM_TYPE_QPACK_ENCODER
      then bool_decide (is_Some (peer_encoder_stream_id h))
      else false in
    if role_occupied
    then (h, Err (Protocol ERR_H3_STREAM_CREATION_ERROR (b: "h3_stream validate failed")))
    else if stream_type =? H3_STREAM_TYPE_CONTROL
    then (h <| peer_control_stream_id := Some stream_id |>, Ok ())
    else if stream_type =? H3_STREAM_TYPE_QPACK_DECODER
    then (h <| peer_decoder_stream_id := Some stream_id |>, Ok ())
    else if stream_type =? H3_STREAM_TYPE_QPACK_ENCODER
    then (h <| peer_encoder_stream_id := Some stream_id |>, Ok ())
    else (h, Ok ()).

(** The loop over the frames of the control stream; every frame has a header, so
    the length of the buffer bounds their number. *)
Fixpoint parse_control_frames (fuel : nat) (h : t) (buffer : bytes) (connection : Connection.t)
    (events : list ProtocolEvent.t) (effects : list Effect.t)
    : t * result (bytes * list ProtocolEvent.t * list Effect.t) WebTransportError.t :=
  match fuel with
  | O => (h, Ok (buffer, events, effects))
  | S fuel' =>
      if bool_decide (buffer = []) then (h, Ok (buffer, events, effects))
      else match utils.read_varint buffer with
      | Err _ => (h, Ok (buffer, events, effects))
      | Ok (frame_type, cursor) =>
          match utils.read_varint cursor with
          | Err _ => (h, Ok (buffer, events, effects))
          | Ok (needed, cursor) =>
              if frame_type =? H3_FRAME_TYPE_DATA
              then (h, Err (Protocol ERR_H3_FRAME_UNEXPECTED
                              (b: "h3_control_stream validate invalid")))
              else if negb (frame_type =? H3_FRAME_TYPE_HEADERS)
                      && (CONTROL_FRAME_SIZE_LIMIT <? needed)
              then (h, Err (Protocol ERR_H3_FRAME_ERROR (b: "h3_frame validate exceeded")))
              else
                let header_len := len buffer - len cursor in
                if len buffer <? header_len + needed then (h, Ok (buffer, events, effects))
                else
                  let frame_data := take (Z.to_nat needed) cursor in
                  try? h, (new_events, new_effects) :=
                    handle_control_frame h frame_type frame_data connection in
                  parse_control_frames fuel' h (drop (Z.to_nat needed) cursor) connection
                    (events ++ new_events) (effects ++ new_effects)
          end
      end
  end.

(** The loop over the streams an encoder instruction unblocked. *)
Fixpoint resume_unblocked (h : t) (unblocked : list StreamId) (events : list ProtocolEvent.t)
    (effects : list Effect.t) : parsed (list ProtocolEvent.t * list Effect.t) :=
  match unblocked with
  | [] => Some (h, Ok (events, effects))
  | unblocked_stream_id :: rest =>
      match streams h !! unblocked_stream_id with
      | Some unblocked_stream =>
          if H3Stream.blocked unblocked_stream then
            let h := h <| streams :=
              <[unblocked_stream_id := unblocked_stream <| H3Stream.blocked := false |>]>
                (streams h) |> in
            match recv_request_data h unblocked_stream_id [] (H3Stream.ended unblocked_stream) with
            | None => None
            | Some (h, Err e) => Some (h, Err e)
            | Some (h, Ok (new_events, new_effects)) =>
                resume_unblocked h rest (events ++ new_events) (effects ++ new_effects)
            end
          else resume_unblocked h rest events effects
      | None => resume_unblocked h rest events effects
      end
  end.

(** What the header of a unidirectional stream decides. *)
Inductive uni_header : Type :=
| Typed (h : t) (stream : H3Stream.t) (stream_type : Z)
| Settled (h : t) (r : result (list ProtocolEvent.t * list Effect.t) WebTransportError.t).

Definition parse_stream_type (h : t) (stream_id : StreamId) (stream : H3Stream.t) : uni_header :=
  match H3Stream.stream_type stream with
  | Some stream_type => Typed h stream stream_type
  | None =>
      match utils.read_varint (H3Stream.buffer stream) with
      | Err _ =>
          if H3Stream.ended stream then
            let '(h, effects) := cleanup_stream h stream_id in Settled h (Ok ([], effects))
          else
            Settled (h <| streams := <[stream_id := stream]> (streams h) |>)
                    (Ok ([], [Effect.ReceiveQuicData stream_id 1]))
      | Ok (stream_type, _) =>
          let typed := stream <| H3Stream.buffer := [] |>
                              <| H3Stream.stream_type := Some stream_type |> in
          if (stream_type =? H3_STREAM_TYPE_CONTROL)
             || (stream_type =? H3_STREAM_TYPE_QPACK_DECODER)
             || (stream_type =? H3_STREAM_TYPE_QPACK_ENCODER)
          then match register_peer_infrastructure_stream h stream_id stream_type with
               | (h, Err e) => Settled h (Err e)
               | (h, Ok _) => Typed h typed stream_type
               end
          else if stream_type =? H3_STREAM_TYPE_PUSH
          then
            let error_code :=
              if is_client h then ERR_H3_ID_ERROR else ERR_H3_STREAM_CREATION_ERROR in
            Settled h (Err (Protocol error_code (b: "h3_push_stream validate invalid")))
          else if stream_type =? H3_STREAM_TYPE_WEBTRANSPORT then Typed h typed stream_type
          else Settled h (Ok ([], [Effect.StopQuicStream stream_id ERR_H3_STREAM_CREATION_ERROR]))
      end
  end.

(** The end of [recv_unidirectional_stream_data] for a control or QPACK stream. *)
Definition keep_critical_stream (h : t) (stream_id : StreamId) (stream : H3Stream.t)
    (events : list ProtocolEvent.t) (effects : list Effect.t)
    : t * result (list ProtocolEvent.t * list Effect.t) WebTransportError.t :=
  if H3Stream.ended stream
  then (h, Err (Protocol ERR_H3_CLOSED_CRITICAL_STREAM (b: "h3_control_stream validate invalid")))
  else (h <| streams := <[stream_id := stream]> (streams h) |>,
        Ok (events, effects ++ [Effect.ReceiveQuicData stream_id U64_MAX])).

Definition recv_unidirectional_stream_data (h : t) (stream_id : StreamId) (data : bytes)
    (stream_ended : bool) (connection : Connection.t)
    : parsed (list ProtocolEvent.t * list Effect.t) :=
  let '(h, stream) := take_stream h stream_id data stream_ended in
  match parse_stream_type h stream_id stream with
  | Settled h r => Some (h, r)
  | Typed h stream stream_type =>
      let buffer := H3Stream.buffer stream in
      let drained := stream <| H3Stream.buffer := [] |> in
      if stream_type =? H3_STREAM_TYPE_CONTROL then
        if H3Stream.ended stream
        then Some (h, Err (Protocol ERR_H3_CLOSED_CRITICAL_STREAM
                             (b: "h3_control_stream validate invalid")))
        else match parse_control_frames (S (length buffer)) h buffer connection [] [] with
        | (h, Err e) => Some (h, Err e)
        | (h, Ok (rest, events, effects)) =>
            Some (keep_critical_stream h stream_id (stream <| H3Stream.buffer := rest |>)
                    events effects)
        end
      else if stream_type =? H3_STREAM_TYPE_QPACK_DECODER then
        if bool_decide (buffer = []) then Some (keep_critical_stream h stream_id stream [] [])
        else match Encoder.feed_decoder (encoder h) buffer with
        | (encoder', Err _) =>
            Some (h <| encoder := encoder' |>,
                  Err (Protocol ERR_QPACK_DECODER_STREAM_ERROR
                         (b: "qpack_decoder_stream decode invalid")))
        | (encoder', Ok _) =>
            Some (keep_critical_stream (h <| encoder := encoder' |>) stream_id drained [] [])
        end
      else if stream_type =? H3_STREAM_TYPE_QPACK_ENCODER then
        if bool_decide (buffer = []) then Some (keep_critical_stream h stream_id stream [] [])
        else match Decoder.feed_encoder (decoder h) buffer with
        | (decoder', Err _) =>
            Some (h <| decoder := decoder' |>,
                  Err (Protocol ERR_QPACK_ENCODER_STREAM_ERROR
                         (b: "qpack_encoder_stream decode invalid")))
        | (decoder', Ok unblocked) =>
            match resume_unblocked (h <| decoder := decoder' |>) unblocked [] [] with
            | None => None
            | Some (h, Err e) => Some (h, Err e)
            | Some (h, Ok (events, effects)) =>
                Some (keep_critical_stream h stream_id drained events effects)
            end
        end
      else if stream_type =? H3_STREAM_TYPE_WEBTRANSPORT
      then Some (parse_stream_header h stream_id stream)
      else Some (keep_critical_stream h stream_id stream [] [])
  end.

(** *** Dispatch *)

Definition dispatch (h : t) (event : ProtocolEvent.t) (connection : Connection.t)
    : parsed (list ProtocolEvent.t * list Effect.t) :=
  match event with
  | ProtocolEvent.TransportDatagramReceived data =>
      Some (h, let? events := recv_datagram data in Ok (events, []))
  | ProtocolEvent.TransportResetStreamReceived stream_id _ =>
      Some (recv_stream_reset h stream_id)
  | ProtocolEvent.TransportStopSendingReceived stream_id _ =>
      Some (h, recv_stop_sending h stream_id)
  | ProtocolEvent.TransportStreamDataReceived stream_id data end_stream =>
      if utils.is_unidirectional_stream stream_id
      then recv_unidirectional_stream_data h stream_id data end_stream connection
      else recv_request_data h stream_id data end_stream
  | ProtocolEvent.TransportStreamOpened stream_id =>
      let '(h, effects) := handle_stream_opened h stream_id in Some (h, Ok ([], effects))
  | _ => Some (h, Ok ([], []))
  end.

Definition handle_transport_event (h : t) (event : ProtocolEvent.t) (connection : Connection.t)
    : option (t * list ProtocolEvent.t * list Effect.t) :=
  '(h, result) ← dispatch h event connection;
  match result with
  | Ok (new_events, new_effects) => Some (h, new_events, new_effects)
  | Err (WebTransportError.Stream stream_id error_code _) =>
      let error_code := default ERR_H3_INTERNAL_ERROR error_code in
      let '(h, more) := cleanup_stream h stream_id in
      Some (h, [], [Effect.ResetQuicStream stream_id error_code;
                    Effect.StopQuicStream stream_id error_code] ++ more)
  | Err (WebTransportError.Configuration error_code reason)
  | Err (WebTransportError.Protocol error_code reason)
  | Err (WebTransportError.Unknown error_code reason) =>
      let error_code := default ERR_H3_INTERNAL_ERROR error_code in
      Some (h, [], [Effect.CloseQuicConnection error_code (Some reason)])
  end.

End H3.
End H3.
