(* ===== verification/H3Props.v ===== *)
(** * Properties of the HTTP/3 layer: the incremental parser

    What one iteration of the frame parser of a request stream does to the
    stream, when the parser ends and when it does not, and how the bytes of a
    stream may be cut into reads. *)

From S2P Require Import Prelude.
From S2P Require Import Types.
From S2P Require Import Events.
From S2P Require Import Utils.
From S2P Require Import UtilsProps.
From S2P Require Import Qpack.
From S2P Require Import SessionMachine.
From S2P Require Import ConnectionMachine.
From S2P Require Import H3Machine.
Import utils.

(** ** Varints at the head of a buffer *)

Lemma read_varint_app l v rest more :
  read_varint l = Ok (v, rest) -> read_varint (l ++ more) = Ok (v, rest ++ more).
Proof.
  intros Hr. destruct (read_varint_spec _ _ _ Hr) as (_ & enc & -> & _ & Hall).
  by rewrite <- app_assoc, Hall.
Qed.

Lemma read_varint_length l v rest :
  read_varint l = Ok (v, rest) -> (length rest < length l)%nat.
Proof.
  intros Hr. destruct (read_varint_spec _ _ _ Hr) as (_ & enc & -> & Hl & _).
  unfold len in Hl. rewrite length_app. lia.
Qed.

Lemma read_varint_range l v rest : read_varint l = Ok (v, rest) -> 0 <= v <= QUIC_VARINT_LIMIT.
Proof. intros Hr. by destruct (read_varint_spec _ _ _ Hr) as [? _]. Qed.

#[export] Hint Resolve read_varint_app read_varint_length read_varint_range : wt.

Module H3P.
Section H3P.
Context `{LsQpack}.
Import H3.

(** ** Streams between two reads *)

(** A frame in progress has bytes left to come. *)
Definition framed (s : H3Stream.t) : Prop :=
  match H3Stream.frame_type s, H3Stream.frame_size s with
  | Some _, Some n => 0 < n
  | None, None => True
  | _, _ => False
  end.

(** A DATA frame is cut short: bytes are missing and none are left. *)
Definition truncated (s : H3Stream.t) : Prop :=
  H3Stream.blocked s = false /\ H3Stream.buffer s = []
  /\ H3Stream.frame_type s = Some H3_FRAME_TYPE_DATA
  /\ exists n, H3Stream.frame_size s = Some n /\ 0 < n.

(** What a frame leaves of the stream it arrives on. *)
Lemma parse_capsules_frame h i s s' ev :
  parse_capsules h i s = Ok (s', ev) ->
  exists rest, s' = s <| H3Stream.capsule_buffer := rest |>.
Proof.
  unfold parse_capsules. destruct (parse_capsules_loop _ _ _ _ _) as [[rest ev']|e]; [|done].
  intros [= <- <-]. by exists rest.
Qed.

Lemma handle_request_frame_kept h i s ty d h' s' ev ef :
  handle_request_frame h i s ty d = (h', Ok (s', ev, ef)) ->
  H3Stream.buffer s' = H3Stream.buffer s /\ H3Stream.frame_size s' = H3Stream.frame_size s
  /\ H3Stream.ended s' = H3Stream.ended s
  /\ H3Stream.is_request_stream s' = H3Stream.is_request_stream s
  /\ H3Stream.stream_type s' = H3Stream.stream_type s
  /\ (ty = H3_FRAME_TYPE_DATA ->
      H3Stream.frame_type s' = H3Stream.frame_type s /\ H3Stream.blocked s' = H3Stream.blocked s).
Proof.
  unfold handle_request_frame. destruct (_ || _); [done|].
  destruct (ty =? H3_FRAME_TYPE_DATA) eqn:Hd.
  { bool_to_prop. destruct (_ && _).
    - case_bool_decide; [by intros [= <- <- <- <-]|].
      destruct (parse_capsules _ _ _) as [[s1 ev1]|e] eqn:Hp; [|done].
      intros [= <- <- <- <-]. by apply parse_capsules_frame in Hp as [rest ->].
    - by intros [= <- <- <- <-]. }
  bool_to_prop. destruct (ty =? H3_FRAME_TYPE_HEADERS).
  - destruct (H3Stream.headers_processed s); [done|].
    destruct (decode_headers h i d) as [h1 [[|headers effects]|e]]; [| |done].
    + by intros [= <- <- <- <-].
    + destruct (if is_client h1 then _ else _); [|done].
      intros [= <- <- <- <-]. split_and!; by case_bool_decide; destruct d.
  - destruct (_ =? _); [done|]. destruct (_ =? _); [done|]. by intros [= <- <- <- <-].
Qed.

(** The header of a frame consumes its bytes and announces the rest. *)
Lemma parse_frame_header_inv h i s s' :
  parse_frame_header h i s = Ok (Some s') ->
  exists ty size rest1 rest,
    read_varint (H3Stream.buffer s) = Ok (ty, rest1) /\ read_varint rest1 = Ok (size, rest)
    /\ H3Stream.buffer s' = rest /\ H3Stream.frame_type s' = Some ty
    /\ H3Stream.frame_size s' = Some size /\ H3Stream.blocked s' = H3Stream.blocked s.
Proof.
  unfold parse_frame_header.
  destruct (read_varint _) as [[ty rest1]|] eqn:H1; [|done].
  destruct (read_varint rest1) as [[size rest]|] eqn:H2; [|done].
  destruct (_ && _); [done|]. destruct (_ && _); [done|].
  intros [= <-]. exists ty, size, rest1, rest. by destruct (_ =? _).
Qed.

(** The ways the part of an iteration past the frame header goes. *)
Lemma parse_frame_chunk_cases h i s ended ty n :
  H3Stream.frame_type s = Some ty -> H3Stream.frame_size s = Some n ->
  let k := Z.min n (len (H3Stream.buffer s)) in
  (ty <> H3_FRAME_TYPE_DATA /\ len (H3Stream.buffer s) < n
   /\ parse_frame_chunk h i s ended = Break h s [] [])
  \/ (exists h' e, parse_frame_chunk h i s ended = Return h' e)
  \/ (exists h' s' ev ef,
       parse_frame_chunk h i s ended =
         (if (k =? 0) && negb ended then Break else Continue) h' s' ev ef
       /\ H3Stream.buffer s' = drop (Z.to_nat k) (H3Stream.buffer s)
       /\ (k = n /\ H3Stream.frame_type s' = None /\ H3Stream.frame_size s' = None
           \/ k < n /\ ty = H3_FRAME_TYPE_DATA /\ H3Stream.frame_type s' = Some ty
              /\ H3Stream.frame_size s' = Some (n - k))).
Proof.
  intros Hty Hn k. unfold parse_frame_chunk. rewrite Hty, Hn. cbv zeta. fold k.
  destruct (negb (ty =? H3_FRAME_TYPE_DATA) && (k <? n)) eqn:Hbr.
  { left. bool_to_prop. split_and!; [done|lia|done]. }
  right. clear Hn.
  match goal with |- context [match ?r with _ => _ end] =>
    destruct r as [h1 [[[s1 ev1] ef1]|e]] eqn:Hr end; [|left; by exists h1, e].
  right. exists h1. eexists _, ev1, ef1. split; [by destruct (_ && negb ended)|].
  assert (Hs1 : H3Stream.buffer s1 = drop (Z.to_nat k) (H3Stream.buffer s)
    /\ H3Stream.frame_size s1 = Some (n - k)
    /\ (ty = H3_FRAME_TYPE_DATA -> H3Stream.frame_type s1 = H3Stream.frame_type s)).
  { destruct (if ty =? _ then _ else _).
    - apply handle_request_frame_kept in Hr as (? & ? & _ & _ & _ & Hdata).
      split_and!; [done..|]. intros Hd. by apply Hdata.
    - by injection Hr as <- <- <- <-. }
  destruct Hs1 as (Hb & Hsz & Hdata). clear Hr. destruct (k =? n) eqn:Hlast; bool_to_prop.
  - clear Hbr. split; [by destruct (_ && _)|]. left. by destruct (_ && _).
  - split; [done|]. right. apply andb_false_iff in Hbr as [Hbr|Hbr]; bool_to_prop; [|lia].
    split_and!; [lia|done| |done]. rewrite <- Hty. by apply Hdata.
Qed.

(** The state and, unless it fails, the stream after an iteration. *)
Definition after_state (it : iteration) : t :=
  match it with Return h _ | Break h _ _ _ | Continue h _ _ _ => h end.

Definition after_stream (it : iteration) : option H3Stream.t :=
  match it with Return _ _ => None | Break _ s _ _ | Continue _ s _ _ => Some s end.

(** A frame header is followed by at least as many bytes as are consumed. *)
Lemma parse_frame_chunk_framed h i s ended ty n s' :
  H3Stream.frame_type s = Some ty -> H3Stream.frame_size s = Some n -> 0 <= n ->
  after_stream (parse_frame_chunk h i s ended) = Some s' -> framed s'.
Proof.
  intros Hty Hn Hpos Hs'. unfold framed.
  destruct (parse_frame_chunk_cases h i s ended ty n Hty Hn) as
    [(Hd & Hlt & Hc)|[(h1 & e & Hc)|(h1 & s1 & ev1 & ef1 & Hc & Hb & Hcase)]];
    rewrite Hc in Hs'; [|done|].
  - injection Hs' as <-. rewrite Hty, Hn. pose proof (len_nonneg (H3Stream.buffer s)). lia.
  - assert (s1 = s') as -> by (destruct (_ && _); by injection Hs').
    destruct Hcase as [(_ & -> & ->)|(Hlt & _ & -> & ->)]; [done|lia].
Qed.

Lemma parse_frame_framed h i s ended s' :
  framed s -> after_stream (parse_frame h i s ended) = Some s' -> framed s'.
Proof.
  unfold parse_frame. intros Hf.
  destruct (H3Stream.blocked s); [by intros [= <-]|]. destruct (_ && _); [by intros [= <-]|].
  destruct (H3Stream.frame_type s) as [ty|] eqn:Hty.
  - unfold framed in Hf. rewrite Hty in Hf. destruct (H3Stream.frame_size s) as [n|] eqn:Hn; [|done].
    by apply (parse_frame_chunk_framed h i s ended ty n); [| |lia].
  - destruct (parse_frame_header h i s) as [[s1|]|] eqn:Hh; [|by intros [= <-]|done].
    apply parse_frame_header_inv in Hh as (ty & size & r1 & r & H1 & H2 & Hb & Hty1 & Hs & _).
    apply read_varint_range in H2. by apply (parse_frame_chunk_framed h i s1 ended ty size); [| |lia].
Qed.

(** An iteration that goes on consumes a byte, unless the frame was empty or no
    byte was left. *)
Lemma parse_frame_chunk_continue h i s ended ty n h' s' ev ef :
  H3Stream.frame_type s = Some ty -> H3Stream.frame_size s = Some n -> 0 <= n ->
  parse_frame_chunk h i s ended = Continue h' s' ev ef ->
  (length (H3Stream.buffer s') <= length (H3Stream.buffer s))%nat
  /\ (length (H3Stream.buffer s') = length (H3Stream.buffer s) -> n = 0
      \/ H3Stream.buffer s = [] /\ H3Stream.frame_type s = Some H3_FRAME_TYPE_DATA).
Proof.
  intros Hty Hn Hpos Hs'.
  destruct (parse_frame_chunk_cases h i s ended ty n Hty Hn) as
    [(Hd & Hlt & Hc)|[(h1 & e & Hc)|(h1 & s1 & ev1 & ef1 & Hc & Hb & Hcase)]];
    rewrite Hc in Hs'; [done..|].
  assert (s1 = s') as -> by (destruct (_ && _); [done|by injection Hs']). rewrite Hb, length_drop.
  unfold len in *. split; [lia|]. intros Heq.
  destruct Hcase as [(Hk & _)|(Hlt & -> & _)]; [|right; split; [apply nil_length_inv; lia|done]].
  left. lia.
Qed.


(** ** Capsules *)

(** Nothing more can be parsed: every run of the loop leaves the buffer alone. *)
Definition starved_capsules (max : Z) (b : bytes) : Prop :=
  forall fuel i ev, parse_capsules_loop fuel max i b ev = Ok (b, ev).

Lemma starved_nil max : starved_capsules max [].
Proof. intros [|fuel] i ev; done. Qed.

(** The cases of one iteration of the capsule loop. *)
Lemma capsule_cases max (b : bytes) :
  starved_capsules max b
  \/ (exists ty size rest1 rest, b <> [] /\ read_varint b = Ok (ty, rest1)
      /\ read_varint rest1 = Ok (size, rest)
      /\ (max < size \/ (size <= max /\ size <= len rest))).
Proof.
  destruct (decide (b = [])) as [->|Hne]; [left; apply starved_nil|].
  destruct (read_varint b) as [[ty rest1]|] eqn:H1;
    [|left; intros [|fuel] i ev; [done|]; cbn; by rewrite bool_decide_false, H1].
  destruct (read_varint rest1) as [[size rest]|] eqn:H2;
    [|left; intros [|fuel] i ev; [done|]; cbn; by rewrite bool_decide_false, H1, H2].
  destruct (max <? size) eqn:H3; bool_to_prop.
  { right. exists ty, size, rest1, rest. split_and!; auto. }
  destruct (len rest <? size) eqn:H4.
  - left. intros [|fuel] i ev; [done|]. cbn [parse_capsules_loop].
    rewrite bool_decide_false, H1, H2 by done.
    destruct (max <? size) eqn:E; bool_to_prop; [lia|].
    destruct (len b <? _) eqn:E'; bool_to_prop; [done|lia].
  - bool_to_prop. right. exists ty, size, rest1, rest. split_and!; auto.
Qed.

(** One iteration that consumes a capsule, or refuses its length. *)
Lemma capsule_step fuel max i b ev ty size rest1 rest :
  b <> [] -> read_varint b = Ok (ty, rest1) -> read_varint rest1 = Ok (size, rest) ->
  size <= max -> size <= len rest ->
  parse_capsules_loop (S fuel) max i b ev =
    parse_capsules_loop fuel max i (drop (Z.to_nat size) rest)
      (ev ++ [ProtocolEvent.H3CapsuleReceived i ty (take (Z.to_nat size) rest)]).
Proof.
  intros Hne H1 H2 H3 H4. cbn [parse_capsules_loop].
  rewrite bool_decide_false, H1, H2 by done.
  destruct (max <? size) eqn:E; bool_to_prop; [lia|].
  destruct (len b <? _) eqn:E'; bool_to_prop; [lia|done].
Qed.

Lemma capsule_refused fuel max i b ev ty size rest1 rest :
  b <> [] -> read_varint b = Ok (ty, rest1) -> read_varint rest1 = Ok (size, rest) ->
  max < size ->
  parse_capsules_loop (S fuel) max i b ev =
    Err (WebTransportError.Stream i (Some ERR_H3_MESSAGE_ERROR) (b: "wt_capsule validate exceeded")).
Proof.
  intros Hne H1 H2 H3. cbn [parse_capsules_loop]. rewrite bool_decide_false, H1, H2 by done.
  destruct (max <? size) eqn:E; bool_to_prop; [done|lia].
Qed.

(** The fuel [parse_capsules] gives is enough. *)
Lemma parse_capsules_fuel f1 f2 max i b ev :
  (length b < f1)%nat -> (length b < f2)%nat ->
  parse_capsules_loop f1 max i b ev = parse_capsules_loop f2 max i b ev.
Proof.
  revert f2 b ev. induction f1 as [|f1 IH]; intros f2 b ev Hl1 Hl2; [lia|].
  destruct f2 as [|f2]; [lia|].
  destruct (capsule_cases max b) as [Hs|(ty & size & r1 & r & Hne & H1 & H2 & H3)];
    [by rewrite !Hs|].
  destruct H3 as [H3|[H3 H4]]; [by rewrite !(capsule_refused _ _ _ _ _ ty size r1 r)|].
  rewrite !(capsule_step _ _ _ _ _ ty size r1 r) by done.
  pose proof (read_varint_length _ _ _ H1). pose proof (read_varint_length _ _ _ H2).
  apply IH; rewrite length_drop; lia.
Qed.

Definition capsules (max : Z) (i : StreamId) (b : bytes) (ev : list ProtocolEvent.t)
    : result (bytes * list ProtocolEvent.t) WebTransportError.t :=
  parse_capsules_loop (S (length b)) max i b ev.

Lemma capsules_step max i b ev ty size rest1 rest :
  b <> [] -> read_varint b = Ok (ty, rest1) -> read_varint rest1 = Ok (size, rest) ->
  size <= max -> size <= len rest ->
  capsules max i b ev = capsules max i (drop (Z.to_nat size) rest)
    (ev ++ [ProtocolEvent.H3CapsuleReceived i ty (take (Z.to_nat size) rest)]).
Proof.
  intros Hne H1 H2 H3 H4. unfold capsules. erewrite capsule_step by done.
  pose proof (read_varint_length _ _ _ H1). pose proof (read_varint_length _ _ _ H2).
  apply parse_capsules_fuel; rewrite length_drop; lia.
Qed.

(** Induction along the capsules of a buffer. *)
Lemma capsules_ind max (P : bytes -> Prop) :
  (forall b, starved_capsules max b -> P b) ->
  (forall b ty size rest1 rest, b <> [] -> read_varint b = Ok (ty, rest1) ->
     read_varint rest1 = Ok (size, rest) -> max < size -> P b) ->
  (forall b ty size rest1 rest, b <> [] -> read_varint b = Ok (ty, rest1) ->
     read_varint rest1 = Ok (size, rest) -> 0 <= size <= max -> size <= len rest ->
     P (drop (Z.to_nat size) rest) -> P b) ->
  forall b, P b.
Proof.
  intros Hs Hr Hstep b. induction b as [b IH] using (well_founded_ind (Wf_nat.well_founded_ltof _ (@length byte))).
  destruct (capsule_cases max b) as [?|(ty & size & r1 & r & Hne & H1 & H2 & H3)]; [auto|].
  destruct H3 as [H3|[H3 H4]]; [by eapply Hr|].
  pose proof (read_varint_range _ _ _ H2).
  eapply Hstep; [done..|lia|done|]. apply IH. unfold Wf_nat.ltof.
  pose proof (read_varint_length _ _ _ H1). pose proof (read_varint_length _ _ _ H2).
  rewrite length_drop. lia.
Qed.

(** The loop stops for lack of bytes only. *)
Lemma capsules_starved max i b ev rest ev' :
  capsules max i b ev = Ok (rest, ev') -> starved_capsules max rest.
Proof.
  revert ev. induction b as [b Hs|b ty size r1 r Hne H1 H2 H3|b ty size r1 r Hne H1 H2 H3 H4 IH]
    using (capsules_ind max); intros ev.
  - unfold capsules. rewrite Hs. by intros [= <- <-].
  - unfold capsules. by erewrite capsule_refused by done.
  - erewrite capsules_step by (done || lia). apply IH.
Qed.

(** Bytes that arrive later do not change what was parsed before. *)
Lemma capsules_app max i b more ev :
  capsules max i (b ++ more) ev =
    (let? (rest, ev') := capsules max i b ev in capsules max i (rest ++ more) ev').
Proof.
  revert ev. induction b as [b Hs|b ty size r1 r Hne H1 H2 H3|b ty size r1 r Hne H1 H2 H3 H4 IH]
    using (capsules_ind max); intros ev.
  - unfold capsules at 2. by rewrite Hs.
  - unfold capsules at 1 2. erewrite !capsule_refused; eauto with wt. by destruct b.
  - erewrite (capsules_step _ _ b) by (done || lia). rewrite <- IH.
    unfold len in H4. assert (Hn : (Z.to_nat size <= length r)%nat) by lia.
    rewrite (capsules_step max i (b ++ more) ev ty size (r1 ++ more) (r ++ more));
      [|by destruct b|by apply read_varint_app|by apply read_varint_app|lia
       |unfold len; rewrite length_app; lia].
    by rewrite drop_app_le, take_app_le.
Qed.

(** The events parsed do not depend on those before them. *)
Lemma capsules_events max i b ev0 ev :
  capsules max i b (ev0 ++ ev) =
    (let? (rest, ev') := capsules max i b ev in Ok (rest, ev0 ++ ev')).
Proof.
  revert ev. induction b as [b Hs|b ty size r1 r Hne H1 H2 H3|b ty size r1 r Hne H1 H2 H3 H4 IH]
    using (capsules_ind max); intros ev.
  - unfold capsules. by rewrite !Hs.
  - unfold capsules. by erewrite !capsule_refused by done.
  - erewrite !(capsules_step _ _ b) by (done || lia). by rewrite <- app_assoc, IH.
Qed.

(** ** When the frame parser ends *)

Lemma parse_frame_continue h i s ended h' s' ev ef :
  framed s -> parse_frame h i s ended = Continue h' s' ev ef ->
  framed s' /\ ((length (H3Stream.buffer s') < length (H3Stream.buffer s))%nat
               \/ ended = true /\ truncated s).
Proof.
  intros Hf Hp. split; [by eapply parse_frame_framed; [|by rewrite Hp]|]. revert Hp.
  unfold parse_frame. unfold framed in Hf. destruct (H3Stream.blocked s) eqn:Hbl; [done|].
  destruct (bool_decide _ && _) eqn:Hempty; [done|].
  destruct (H3Stream.frame_type s) as [ty|] eqn:Hty.
  - destruct (H3Stream.frame_size s) as [n|] eqn:Hn; [|done]. intros Hc.
    apply (parse_frame_chunk_continue h i s ended ty n) in Hc as (Hle & Heq); [|done..|lia].
    destruct (decide (length (H3Stream.buffer s') = length (H3Stream.buffer s)));
      [|left; lia].
    right. destruct (Heq e) as [?|[Hb Hd]]; [lia|].
    rewrite Hb in Hempty. cbn in Hempty. bool_to_prop.
    split; [by destruct ended|]. split_and!; try congruence. by exists n.
  - destruct (parse_frame_header h i s) as [[s1|]|] eqn:Hh; [|done..]. intros Hc.
    apply parse_frame_header_inv in Hh as (ty & size & r1 & r & H1 & H2 & Hb & Hty1 & Hs & _).
    pose proof (read_varint_range _ _ _ H2).
    apply (parse_frame_chunk_continue h i s1 ended ty size) in Hc as (Hle & _); [|done..|lia].
    left. rewrite Hb in Hle.
    pose proof (read_varint_length _ _ _ H1). pose proof (read_varint_length _ _ _ H2). lia.
Qed.

(** A DATA frame: its payload extends the capsules of a CONNECT stream. *)
Definition carries_capsules (s : H3Stream.t) : bool :=
  H3Stream.is_connect_stream s && H3Stream.headers_processed s.

Lemma handle_data h i s payload :
  handle_request_frame h i s H3_FRAME_TYPE_DATA (Some payload) =
    if carries_capsules s then
      match capsules (max_capsule_size h) i (H3Stream.capsule_buffer s ++ payload) [] with
      | Err e => (h, Err e)
      | Ok (rest, ev) => (h, Ok (s <| H3Stream.capsule_buffer := rest |>, ev, []))
      end
    else (h, Ok (s, [], [])).
Proof.
  unfold handle_request_frame, carries_capsules. cbn -[parse_capsules app capsules].
  destruct (_ && _); [|done]. case_bool_decide as Hcb; cbn in Hcb.
  - by rewrite Hcb.
  - unfold parse_capsules, capsules. cbn -[parse_capsules_loop app].
    by destruct (parse_capsules_loop _ _ _ _ _) as [[rest ev]|].
Qed.

(** The capsules of a stream are parsed as far as they go. *)
Definition settled (h : t) (s : H3Stream.t) : Prop :=
  carries_capsules s = true ->
  starved_capsules (max_capsule_size h) (H3Stream.capsule_buffer s).

(** An iteration on a stream whose DATA frame is cut short. *)
Lemma truncated_iteration h i s :
  truncated s -> exists n, 0 < n /\
  parse_frame h i s true =
    (let s1 := s <| H3Stream.buffer := [] |> <| H3Stream.frame_size := Some n |> in
     if carries_capsules s then
       match capsules (max_capsule_size h) i (H3Stream.capsule_buffer s) [] with
       | Err e => Return h e
       | Ok (rest, ev) => Continue h (s1 <| H3Stream.capsule_buffer := rest |>) ev []
       end
     else Continue h s1 [] []).
Proof.
  intros (Hbl & Hb & Hty & n & Hn & Hpos). exists n. split; [done|]. unfold parse_frame.
  rewrite Hbl, Hb, Hty. unfold parse_frame_chunk. rewrite Hty, Hn, Hb.
  change (len []) with 0. rewrite (Z.min_r n 0), Z.sub_0_r by lia.
  change (negb (H3_FRAME_TYPE_DATA =? H3_FRAME_TYPE_DATA)) with false.
  change (H3_FRAME_TYPE_DATA =? H3_FRAME_TYPE_DATA) with true. cbn [andb negb].
  destruct (0 =? n) eqn:E; bool_to_prop; [lia|]. cbn -[handle_request_frame capsules carries_capsules H3_FRAME_TYPE_DATA].
  rewrite handle_data. cbn -[capsules carries_capsules app].
  rewrite app_nil_r. unfold carries_capsules. cbn -[capsules].
  destruct (_ && _); [|done]. by destruct (capsules _ _ _ _) as [[rest ev]|].
Qed.

Lemma truncated_settles h i s h' s' ev ef :
  truncated s -> parse_frame h i s true = Continue h' s' ev ef -> truncated s' /\ settled h' s'.
Proof.
  intros Ht. destruct (truncated_iteration h i s Ht) as (n & Hn & ->). cbv zeta.
  destruct Ht as (Hbl & Hb & Hty & _). destruct (carries_capsules s) eqn:Hcc.
  - destruct (capsules _ _ _ _) as [[rest ev']|] eqn:Hc; [|done]. intros [= <- <- <- <-].
    split; [split_and!; try done; by exists n|]. intros _. by eapply capsules_starved.
  - intros [= <- <- <- <-]. split; [split_and!; try done; by exists n|].
    intros Hcc'. unfold carries_capsules in *. cbn in Hcc'. congruence.
Qed.

(** It is in the same situation after every iteration. *)
Lemma truncated_diverges fuel h i s ev ef :
  truncated s -> settled h s -> parse_frames fuel h i s true ev ef = None.
Proof.
  revert h s ev ef. induction fuel as [|fuel IH]; intros h s ev ef Ht Hs; [done|].
  cbn [parse_frames]. destruct (parse_frame h i s true) as [|h' s' ev' ef'|] eqn:Hp.
  - destruct (truncated_iteration h i s Ht) as (n & Hn & Hp'). cbv zeta in Hp'.
    rewrite Hp in Hp'. destruct (carries_capsules s); [|done].
    by destruct (capsules _ _ _ _) as [[? ?]|].
  - destruct (truncated_settles _ _ _ _ _ _ _ Ht Hp). by apply IH.
  - destruct (truncated_iteration h i s Ht) as (n & Hn & Hp'). cbv zeta in Hp'.
    rewrite Hp in Hp'. destruct (carries_capsules s) eqn:Hcc; [|done].
    unfold capsules in Hp'. by rewrite (Hs Hcc) in Hp'.
Qed.

(** More fuel changes nothing. *)
Lemma parse_frames_more fuel more h i s ended ev ef r :
  parse_frames fuel h i s ended ev ef = Some r -> (fuel <= more)%nat ->
  parse_frames more h i s ended ev ef = Some r.
Proof.
  revert more h s ev ef. induction fuel as [|fuel IH]; intros more h s ev ef; [done|].
  destruct more as [|more]; [lia|]. cbn [parse_frames]. intros Hp Hle.
  destruct (parse_frame h i s ended); [done| |done]. apply IH; [done|lia].
Qed.

(** Past one iteration per byte, a run goes on because a DATA frame is cut short. *)
Lemma parse_frames_exhausted fuel h i s ended ev ef :
  (length (H3Stream.buffer s) < fuel)%nat -> framed s ->
  parse_frames fuel h i s ended ev ef = None ->
  ended = true /\ forall fuel', parse_frames fuel' h i s ended ev ef = None.
Proof.
  revert h s ev ef. induction fuel as [|fuel IH]; intros h s ev ef Hl Hf; [lia|].
  cbn [parse_frames]. destruct (parse_frame h i s ended) as [|h' s' ev' ef'|] eqn:Hp; [done| |done].
  intros Hnone. destruct (parse_frame_continue _ _ _ _ _ _ _ _ Hf Hp) as [Hf' [Hlt|[-> Ht]]].
  - destruct (IH h' s' (ev ++ ev') (ef ++ ef')) as [He Hall]; [lia|done|done|].
    split; [done|]. intros [|fuel']; [done|]. cbn [parse_frames]. rewrite Hp. apply Hall.
  - split; [done|]. intros [|fuel']; [done|]. cbn [parse_frames]. rewrite Hp.
    destruct (truncated_settles _ _ _ _ _ _ _ Ht Hp). by apply truncated_diverges.
Qed.

(** Without a FIN the parser always ends, in at most one iteration per byte. *)
Lemma parse_frames_total fuel h i s ev ef :
  (length (H3Stream.buffer s) < fuel)%nat -> framed s ->
  is_Some (parse_frames fuel h i s false ev ef).
Proof.
  intros Hl Hf. destruct (parse_frames fuel h i s false ev ef) eqn:Hp; [by eexists|].
  by destruct (parse_frames_exhausted _ _ _ _ _ _ _ Hl Hf Hp).
Qed.

Lemma parse_frames_enough f1 f2 h i s ev ef :
  (length (H3Stream.buffer s) < f1)%nat -> (length (H3Stream.buffer s) < f2)%nat -> framed s ->
  parse_frames f1 h i s false ev ef = parse_frames f2 h i s false ev ef.
Proof.
  intros H1 H2 Hf. destruct (parse_frames_total _ h i s ev ef H1 Hf) as [r1 Hr1].
  destruct (parse_frames_total _ h i s ev ef H2 Hf) as [r2 Hr2]. rewrite Hr1, Hr2.
  apply (parse_frames_more _ (Nat.max f1 f2)) in Hr1; [|lia].
  apply (parse_frames_more _ (Nat.max f1 f2)) in Hr2; [|lia]. congruence.
Qed.

(** ** How the bytes are cut does not matter *)

(** The parser on a stream that has not ended. *)
Definition parse (h : t) (i : StreamId) (s : H3Stream.t) (ev : list ProtocolEvent.t)
    (ef : list Effect.t)
    : option (t * result (H3Stream.t * list ProtocolEvent.t * list Effect.t) WebTransportError.t) :=
  parse_frames (parse_fuel s) h i s false ev ef.

(** What is left to do after an iteration. *)
Definition after (i : StreamId) (it : iteration) (ev : list ProtocolEvent.t) (ef : list Effect.t)
    : option (t * result (H3Stream.t * list ProtocolEvent.t * list Effect.t) WebTransportError.t) :=
  match it with
  | Return h e => Some (h, Err e)
  | Break h s ev' ef' => Some (h, Ok (s, ev ++ ev', ef ++ ef'))
  | Continue h s ev' ef' => parse h i s (ev ++ ev') (ef ++ ef')
  end.

Lemma parse_unfold h i s ev ef :
  framed s -> parse h i s ev ef = after i (parse_frame h i s false) ev ef.
Proof.
  intros Hf. unfold parse, parse_fuel. cbn [parse_frames].
  destruct (parse_frame h i s false) as [|h' s' ev' ef'|] eqn:Hp; [done| |done].
  destruct (parse_frame_continue _ _ _ _ _ _ _ _ Hf Hp) as [Hf' [Hlt|[? _]]]; [|done].
  cbn [after]. unfold parse, parse_fuel. apply parse_frames_enough; [lia|lia|done].
Qed.

(** More bytes behind those in the buffer. *)
Definition extend (s : H3Stream.t) (more : bytes) : H3Stream.t :=
  s <| H3Stream.buffer := H3Stream.buffer s ++ more |>.

Lemma extend_nil s : extend s [] = s.
Proof. destruct s. unfold extend. cbn. by rewrite app_nil_r. Qed.

Lemma extend_framed s more : framed (extend s more) = framed s.
Proof. done. Qed.

(** A stream parsed so far, then given more bytes. *)
Definition resume (i : StreamId) (more : bytes)
    (r : option (t * result (H3Stream.t * list ProtocolEvent.t * list Effect.t) WebTransportError.t))
    : option (t * result (H3Stream.t * list ProtocolEvent.t * list Effect.t) WebTransportError.t) :=
  match r with
  | Some (h, Ok (s, ev, ef)) => parse h i (extend s more) ev ef
  | _ => r
  end.

Lemma handle_request_frame_extend h i s ty d more :
  handle_request_frame h i (extend s more) ty d =
    match handle_request_frame h i s ty d with
    | (h, Ok (s, ev, ef)) => (h, Ok (extend s more, ev, ef))
    | (h, Err e) => (h, Err e)
    end.
Proof.
  unfold handle_request_frame, extend. cbn -[parse_capsules app decode_headers].
  destruct (_ || _); [done|]. destruct (ty =? H3_FRAME_TYPE_DATA).
  { destruct (_ && _); [|done]. case_bool_decide; [done|].
    unfold parse_capsules. cbn -[parse_capsules_loop app].
    by destruct (parse_capsules_loop _ _ _ _ _) as [[rest ev]|]. }
  destruct (ty =? H3_FRAME_TYPE_HEADERS).
  - destruct (H3Stream.headers_processed s); [done|].
    destruct (decode_headers h i d) as [h1 [[|headers effects]|e]]; [done| |done].
    destruct (if is_client h1 then _ else _); [|done]. by case_bool_decide; destruct d.
  - destruct (ty =? _); [done|]. by destruct (ty =? _).
Qed.

(** What a chunk of a DATA frame leaves of the stream. *)
Definition advance (s : H3Stream.t) (n k : Z) (capsule_rest : bytes) : H3Stream.t :=
  let s := s <| H3Stream.buffer := drop (Z.to_nat k) (H3Stream.buffer s) |>
             <| H3Stream.capsule_buffer := capsule_rest |> in
  if k =? n then s <| H3Stream.frame_type := None |> <| H3Stream.frame_size := None |>
  else s <| H3Stream.frame_size := Some (n - k) |>.

(** The capsules a payload completes. *)
Definition data_capsules (h : t) (i : StreamId) (s : H3Stream.t) (payload : bytes)
    : result (bytes * list ProtocolEvent.t) WebTransportError.t :=
  if carries_capsules s
  then capsules (max_capsule_size h) i (H3Stream.capsule_buffer s ++ payload) []
  else Ok (H3Stream.capsule_buffer s, []).

Lemma chunk_data h i s n ended :
  H3Stream.frame_type s = Some H3_FRAME_TYPE_DATA -> H3Stream.frame_size s = Some n ->
  parse_frame_chunk h i s ended =
    (let k := Z.min n (len (H3Stream.buffer s)) in
     match data_capsules h i s (take (Z.to_nat k) (H3Stream.buffer s)) with
     | Err e => Return h e
     | Ok (rest, ev) =>
         if (k =? 0) && negb ended then Break h (advance s n k rest) ev []
         else Continue h (advance s n k rest) ev []
     end).
Proof.
  intros Hty Hn. unfold parse_frame_chunk. rewrite Hty, Hn. cbv zeta.
  set (k := Z.min n _). change (negb (H3_FRAME_TYPE_DATA =? H3_FRAME_TYPE_DATA)) with false.
  change (H3_FRAME_TYPE_DATA =? H3_FRAME_TYPE_DATA) with true.
  cbn -[handle_request_frame data_capsules advance H3_FRAME_TYPE_DATA].
  rewrite handle_data. unfold data_capsules, carries_capsules.
  cbn -[capsules app advance].
  destruct (H3Stream.is_connect_stream s && H3Stream.headers_processed s).
  - destruct (capsules _ _ _ _) as [[rest ev]|]; [|done].
    unfold advance. by destruct (k =? n), (k =? 0), ended.
  - unfold advance. destruct s; cbn in *. by destruct (k =? n), (k =? 0), ended.
Qed.

(** A frame that is all there. *)
Lemma chunk_complete h i s ty n more :
  H3Stream.frame_type s = Some ty -> H3Stream.frame_size s = Some n ->
  0 < n <= len (H3Stream.buffer s) ->
  (exists h' e, parse_frame_chunk h i s false = Return h' e
     /\ parse_frame_chunk h i (extend s more) false = Return h' e)
  \/ (exists h' s' ev ef, parse_frame_chunk h i s false = Continue h' s' ev ef
     /\ parse_frame_chunk h i (extend s more) false = Continue h' (extend s' more) ev ef
     /\ H3Stream.buffer s' = drop (Z.to_nat n) (H3Stream.buffer s)
     /\ H3Stream.frame_type s' = None /\ H3Stream.frame_size s' = None).
Proof.
  intros Hty Hn Hlen. unfold parse_frame_chunk. cbn [H3Stream.frame_type H3Stream.frame_size extend].
  change (H3Stream.frame_type (extend s more)) with (H3Stream.frame_type s).
  change (H3Stream.frame_size (extend s more)) with (H3Stream.frame_size s).
  change (H3Stream.buffer (extend s more)) with (H3Stream.buffer s ++ more).
  rewrite Hty, Hn. pose proof (len_nonneg more).
  rewrite (Z.min_l n), (Z.min_l n) by (rewrite ?len_app; lia). cbv zeta.
  rewrite Z.ltb_irrefl, andb_false_r, Z.eqb_refl.
  replace (n =? 0) with false by lia. cbn [andb].
  unfold len in Hlen. rewrite take_app_le, drop_app_le by lia.
  set (s1 := s <| H3Stream.buffer := drop (Z.to_nat n) (H3Stream.buffer s) |>
               <| H3Stream.frame_size := Some (n - n) |>).
  change (set_field _ (set_field _ (extend s more))) with (extend s1 more).
  set (d := if ty =? H3_FRAME_TYPE_DATA then _ else _).
  replace d with (Some (take (Z.to_nat n) (H3Stream.buffer s))) by (subst d; by destruct (_ =? _)).
  rewrite handle_request_frame_extend.
  destruct (handle_request_frame h i s1 ty _) as [h' [[[s' ev] ef]|e]] eqn:Hh.
  - right. apply handle_request_frame_kept in Hh as (Hb & _).
    eexists h', _, ev, ef. split; [done|]. destruct (ty =? H3_FRAME_TYPE_HEADERS); cbn [andb];
      [|by split_and!].
    change (H3Stream.blocked _) with (H3Stream.blocked s') at 2.
    change (H3Stream.blocked _) with (H3Stream.blocked s').
    by destruct (H3Stream.blocked s').
  - left. by exists h', e.
Qed.

Lemma data_capsules_app h i s s' p1 p2 rest :
  H3Stream.capsule_buffer s' = rest -> carries_capsules s' = carries_capsules s ->
  forall ev1, data_capsules h i s p1 = Ok (rest, ev1) ->
  data_capsules h i s (p1 ++ p2) =
    (let? (rest', ev2) := data_capsules h i s' p2 in Ok (rest', ev1 ++ ev2)).
Proof.
  intros Hb Hc ev1. unfold data_capsules. rewrite Hc, Hb. destruct (carries_capsules s).
  - intros H1. rewrite app_assoc, capsules_app, H1.
    rewrite <- (app_nil_r ev1) at 1. apply capsules_events.
  - by intros [= <- <-].
Qed.

Lemma data_capsules_app_err h i s p1 p2 e :
  data_capsules h i s p1 = Err e -> data_capsules h i s (p1 ++ p2) = Err e.
Proof.
  unfold data_capsules. destruct (carries_capsules s); [|done].
  intros H1. by rewrite app_assoc, capsules_app, H1.
Qed.

(** A DATA frame whose bytes arrive in two reads. *)
Lemma chunk_data_split h i s n more :
  H3Stream.frame_type s = Some H3_FRAME_TYPE_DATA -> H3Stream.frame_size s = Some n ->
  len (H3Stream.buffer s) < n -> more <> [] ->
  parse_frame_chunk h i (extend s more) false =
    match data_capsules h i s (H3Stream.buffer s) with
    | Err e => Return h e
    | Ok (rest, ev1) =>
        match parse_frame_chunk h i
                (extend (advance s n (len (H3Stream.buffer s)) rest) more) false with
        | Continue h' s' ev2 ef => Continue h' s' (ev1 ++ ev2) ef
        | Break h' s' ev2 ef => Break h' s' (ev1 ++ ev2) ef
        | Return h' e => Return h' e
        end
    end.
Proof.
  intros Hty Hn Hlt Hne. set (b := H3Stream.buffer s) in *.
  assert (Hm : 0 < len more) by (unfold len; destruct more; [done|simpl; lia]).
  pose proof (len_nonneg b). rewrite (chunk_data h i (extend s more) n) by done. cbv zeta. cbn [negb].
  change (H3Stream.buffer (extend s more)) with (b ++ more).
  set (k' := Z.min (n - len b) (len more)).
  replace (Z.min n (len (b ++ more))) with (len b + k') by (rewrite len_app; lia).
  assert (Ht : take (Z.to_nat (len b + k')) (b ++ more) = b ++ take (Z.to_nat k') more).
  { unfold len. rewrite Z2Nat.inj_add, Nat2Z.id by lia. apply take_app_add. }
  assert (Hd : drop (Z.to_nat (len b + k')) (b ++ more) = drop (Z.to_nat k') more).
  { unfold len. rewrite Z2Nat.inj_add, Nat2Z.id by lia. apply drop_app_add. }
  rewrite Ht. change (data_capsules h i (extend s more)) with (data_capsules h i s).
  replace (len b + k' =? 0) with false by lia. cbn [andb].
  destruct (data_capsules h i s b) as [[rest ev1]|e] eqn:H1;
    [|by rewrite (data_capsules_app_err _ _ _ _ _ _ H1)].
  set (s1 := extend (advance s n (len b) rest) more).
  assert (Hs1 : H3Stream.buffer s1 = more /\ H3Stream.frame_type s1 = Some H3_FRAME_TYPE_DATA
    /\ H3Stream.frame_size s1 = Some (n - len b) /\ H3Stream.capsule_buffer s1 = rest
    /\ carries_capsules s1 = carries_capsules s).
  { subst s1. unfold advance. replace (len b =? n) with false by lia. cbn. fold b.
    unfold len. rewrite Nat2Z.id, drop_all. by split_and!. }
  destruct Hs1 as (Hb1 & Hty1 & Hn1 & Hcb1 & Hcc1).
  rewrite (chunk_data h i s1 (n - len b)) by done. cbv zeta. cbn [negb]. rewrite Hb1. fold k'.
  rewrite (data_capsules_app h i s s1 b _ rest Hcb1 Hcc1 ev1 H1).
  destruct (data_capsules h i s1 _) as [[rest' ev2]|]; [|done].
  replace (k' =? 0) with false by lia. cbn [andb]. f_equal. subst s1. unfold advance.
  change (H3Stream.buffer (extend s more)) with (b ++ more). rewrite Hd.
  replace (len b =? n) with false by lia.
  replace (k' =? n - len b) with (len b + k' =? n) by lia.
  replace (n - len b - k') with (n - (len b + k')) by lia. fold b.
  unfold len. rewrite Nat2Z.id, drop_all. by destruct (_ =? n).
Qed.

(** No frame whose header is in the bytes is empty; [skip] is what is left of the
    frame in progress. *)
Fixpoint nonempty_frames (fuel : nat) (skip : Z) (b : bytes) : bool :=
  match fuel with
  | O => true
  | S fuel' =>
      match read_varint (drop (Z.to_nat skip) b) with
      | Err _ => true
      | Ok (_, cursor) =>
          match read_varint cursor with
          | Err _ => true
          | Ok (size, cursor) => negb (size =? 0) && nonempty_frames fuel' size cursor
          end
      end
  end.

Definition nonempty (s : H3Stream.t) : Prop :=
  forall fuel,
    nonempty_frames fuel (default 0 (H3Stream.frame_size s)) (H3Stream.buffer s) = true.

Lemma nonempty_short s :
  len (H3Stream.buffer s) <= default 0 (H3Stream.frame_size s) -> nonempty s.
Proof.
  unfold len. intros Hl [|fuel]; [done|]. cbn [nonempty_frames].
  by rewrite drop_ge by lia.
Qed.

(** A stream that is waiting for bytes. *)
Lemma parse_empty h i s ev ef :
  framed s -> H3Stream.buffer s = [] -> parse h i s ev ef = Some (h, Ok (s, ev, ef)).
Proof.
  intros Hf Hb. rewrite parse_unfold by done. unfold parse_frame. rewrite Hb.
  destruct (H3Stream.blocked s); cbn; by rewrite !app_nil_r.
Qed.

Lemma parse_framed h i s ty ev ef :
  framed s -> H3Stream.blocked s = false -> H3Stream.frame_type s = Some ty ->
  H3Stream.buffer s <> [] ->
  parse h i s ev ef = after i (parse_frame_chunk h i s false) ev ef.
Proof.
  intros Hf Hbl Hty Hb. rewrite parse_unfold by done. unfold parse_frame.
  by rewrite Hbl, Hty, bool_decide_false.
Qed.

Section chunk_extend.
Context (i : StreamId) (more : bytes) (N : nat).
Context (IH : forall h s ev ef, (length (H3Stream.buffer s) < N)%nat -> framed s -> nonempty s ->
  parse h i (extend s more) ev ef = resume i more (parse h i s ev ef)).

Lemma chunk_extend_data h s n ev ef :
  H3Stream.frame_type s = Some H3_FRAME_TYPE_DATA -> H3Stream.frame_size s = Some n ->
  H3Stream.blocked s = false -> len (H3Stream.buffer s) < n ->
  after i (parse_frame_chunk h i (extend s more) false) ev ef
    = resume i more (after i (parse_frame_chunk h i s false) ev ef).
Proof.
  intros Hty Hn Hbl Hlt. rewrite (chunk_data h i s n) by done. cbv zeta. rewrite andb_true_r.
  rewrite (Z.min_r n) by lia.
  replace (take _ _) with (H3Stream.buffer s) by (unfold len; by rewrite Nat2Z.id, firstn_all).
  set (b := H3Stream.buffer s) in *.
  assert (Hs' : forall rest, framed (advance s n (len b) rest)
    /\ H3Stream.buffer (advance s n (len b) rest) = []
    /\ H3Stream.frame_type (advance s n (len b) rest) = Some H3_FRAME_TYPE_DATA
    /\ H3Stream.blocked (advance s n (len b) rest) = false).
  { intros rest. unfold advance. replace (len b =? n) with false by lia. fold b.
    unfold framed. cbn. rewrite Hty. unfold len in *. rewrite Nat2Z.id, drop_all. split_and!; auto; lia. }
  destruct (decide (more = [])) as [->|Hne].
  { rewrite extend_nil, (chunk_data h i s n) by done. cbv zeta. rewrite andb_true_r. fold b. rewrite (Z.min_r n) by lia.
    replace (take _ _) with b by (unfold len; by rewrite Nat2Z.id, firstn_all).
    destruct (data_capsules h i s b) as [[rest ev1]|]; [|done].
    destruct (Hs' rest) as (Hf & Hb & _).
    destruct (len b =? 0); cbn [after resume]; rewrite ?(parse_empty h i (advance _ _ _ _)) by done;
      cbn [resume]; by rewrite extend_nil, parse_empty. }
  rewrite (chunk_data_split h i s n) by done. fold b.
  destruct (data_capsules h i s b) as [[rest ev1]|]; [|done].
  destruct (Hs' rest) as (Hf & Hb & Hty' & Hbl').
  assert (resume i more (after i (if len b =? 0 then Break h (advance s n (len b) rest) ev1 []
      else Continue h (advance s n (len b) rest) ev1 []) ev ef)
    = parse h i (extend (advance s n (len b) rest) more) (ev ++ ev1) ef) as ->.
  { destruct (len b =? 0); cbn [after]; rewrite ?(parse_empty h i (advance _ _ _ _)) by done;
      cbn [resume]; by rewrite app_nil_r. }
  rewrite (parse_framed h i (extend _ more) H3_FRAME_TYPE_DATA);
    [|done|done|done|by cbn; rewrite Hb].
  destruct (parse_frame_chunk h i _ false); cbn [after]; by rewrite ?app_assoc.
Qed.

Lemma chunk_extend h s ty n ev ef :
  H3Stream.frame_type s = Some ty -> H3Stream.frame_size s = Some n -> 0 < n ->
  H3Stream.blocked s = false -> nonempty s -> (length (H3Stream.buffer s) <= N)%nat ->
  after i (parse_frame_chunk h i (extend s more) false) ev ef
    = resume i more (after i (parse_frame_chunk h i s false) ev ef).
Proof.
  intros Hty Hn Hpos Hbl Hne HN.
  destruct (decide (n <= len (H3Stream.buffer s))) as [Hle|Hlt].
  - destruct (chunk_complete h i s ty n more Hty Hn) as
      [(h' & e & -> & ->)|(h' & s' & ev' & ef' & -> & -> & Hb & Hty' & Hn')]; [lia|done|].
    cbn [after]. unfold len in Hle. apply IH.
    + rewrite Hb, length_drop. lia.
    + unfold framed. by rewrite Hty', Hn'.
    + intros fuel. rewrite Hb, Hn'. specialize (Hne fuel). rewrite Hn in Hne.
      destruct fuel; [done|]. cbn [nonempty_frames default] in *. by rewrite drop_0.
  - destruct (decide (ty = H3_FRAME_TYPE_DATA)) as [->|Hd].
    { eapply chunk_extend_data; (done || lia). }
    assert (Hbreak : forall s', H3Stream.frame_type s' = Some ty -> H3Stream.frame_size s' = Some n ->
      len (H3Stream.buffer s') < n -> parse_frame_chunk h i s' false = Break h s' [] []).
    { intros s' Hty' Hn' Hl. unfold parse_frame_chunk. rewrite Hty', Hn'. cbv zeta.
      rewrite (Z.min_r n) by lia.
      destruct (negb (ty =? H3_FRAME_TYPE_DATA) && _) eqn:E; [done|].
      apply andb_false_iff in E as [E|E]; bool_to_prop; lia. }
    rewrite (Hbreak s) by (done || lia). cbn [after resume]. rewrite !app_nil_r.
    destruct (decide (H3Stream.buffer (extend s more) = [])) as [He|He].
    + rewrite (Hbreak (extend s more)), parse_empty; try done.
      * cbn. by rewrite !app_nil_r.
      * unfold framed. cbn. by rewrite Hty, Hn.
      * rewrite He. done.
    + rewrite (parse_framed h i (extend s more) ty); try done.
      unfold framed. cbn. by rewrite Hty, Hn.
Qed.

End chunk_extend.

Lemma parse_frame_header_extend h i s more :
  match parse_frame_header h i s with
  | Err e => parse_frame_header h i (extend s more) = Err e
  | Ok (Some s1) => parse_frame_header h i (extend s more) = Ok (Some (extend s1 more))
  | Ok None => True
  end.
Proof.
  unfold parse_frame_header. change (H3Stream.buffer (extend s more)) with (H3Stream.buffer s ++ more).
  destruct (read_varint (H3Stream.buffer s)) as [[ty rest1]|] eqn:H1; [|done].
  rewrite (read_varint_app _ _ _ more H1).
  destruct (read_varint rest1) as [[size rest]|] eqn:H2; [|done].
  rewrite (read_varint_app _ _ _ more H2).
  destruct (_ && _); [done|]. destruct (_ && _); [done|]. by destruct (_ =? _).
Qed.

(** Parsing what is there and then what comes is parsing all of it at once. *)
Lemma parse_extend h i s more ev ef :
  framed s -> nonempty s ->
  parse h i (extend s more) ev ef = resume i more (parse h i s ev ef).
Proof.
  remember (length (H3Stream.buffer s)) as N eqn:HN. revert h s ev ef HN.
  induction N as [N IH] using lt_wf_ind. intros h s ev ef -> Hf Hne.
  assert (IH' : forall h s' ev ef, (length (H3Stream.buffer s') < length (H3Stream.buffer s))%nat ->
    framed s' -> nonempty s' ->
    parse h i (extend s' more) ev ef = resume i more (parse h i s' ev ef)) by eauto.
  rewrite (parse_unfold h i s) by done. unfold parse_frame.
  destruct (H3Stream.blocked s) eqn:Hbl; [cbn; by rewrite !app_nil_r|].
  destruct (decide (H3Stream.buffer s = [])) as [Hb|Hb].
  { rewrite Hb. cbn. by rewrite !app_nil_r. }
  rewrite bool_decide_false by done. cbn [andb].
  assert (Hb' : H3Stream.buffer s ++ more <> []) by (by destruct (H3Stream.buffer s)).
  destruct (H3Stream.frame_type s) as [ty|] eqn:Hty.
  - rewrite (parse_framed h i (extend s more) ty) by done.
    pose proof Hf as Hf'. unfold framed in Hf'. rewrite Hty in Hf'.
    destruct (H3Stream.frame_size s) as [n|] eqn:Hn; [|done].
    by apply (chunk_extend i more _ IH' h s ty n).
  - pose proof (parse_frame_header_extend h i s more) as Hh.
    destruct (parse_frame_header h i s) as [[s1|]|e] eqn:Hh1.
    + rewrite parse_unfold by done. unfold parse_frame.
      change (H3Stream.blocked (extend s more)) with (H3Stream.blocked s).
      change (H3Stream.frame_type (extend s more)) with (H3Stream.frame_type s).
      change (H3Stream.buffer (extend s more)) with (H3Stream.buffer s ++ more).
      rewrite Hbl, Hty, bool_decide_false, Hh by done. cbn [andb].
      apply parse_frame_header_inv in Hh1 as (ty & size & r1 & r & H1 & H2 & Hb1 & Hty1 & Hn1 & Hbl1).
      assert (Hnext : forall fuel, size <> 0 /\ nonempty_frames fuel size r = true).
      { intros fuel. specialize (Hne (S fuel)). unfold framed in Hf. rewrite Hty in Hf.
        destruct (H3Stream.frame_size s); [done|]. cbn [nonempty_frames default] in Hne.
        rewrite drop_0, H1, H2 in Hne. by bool_to_prop. }
      pose proof (read_varint_range _ _ _ H2).
      apply (chunk_extend i more _ IH' h s1 ty size); try congruence.
      * destruct (Hnext O). lia.
      * intros fuel. rewrite Hb1, Hn1. apply Hnext.
      * rewrite Hb1. pose proof (read_varint_length _ _ _ H1).
        pose proof (read_varint_length _ _ _ H2). lia.
    + cbn. by rewrite !app_nil_r.
    + rewrite parse_unfold by done. unfold parse_frame.
      change (H3Stream.blocked (extend s more)) with (H3Stream.blocked s).
      change (H3Stream.frame_type (extend s more)) with (H3Stream.frame_type s).
      change (H3Stream.buffer (extend s more)) with (H3Stream.buffer s ++ more).
      by rewrite Hbl, Hty, bool_decide_false, Hh by done.
Qed.

Lemma nonempty_frames_prefix fuel skip b more :
  nonempty_frames fuel skip (b ++ more) = true -> nonempty_frames fuel skip b = true.
Proof.
  revert skip b. induction fuel as [|fuel IH]; intros skip b; [done|]. cbn [nonempty_frames].
  destruct (decide (Z.to_nat skip <= length b)%nat) as [Hle|Hgt]; [|by rewrite (drop_ge b) by lia].
  rewrite drop_app_le by done.
  destruct (read_varint (drop _ b)) as [[ty rest1]|] eqn:H1; [|done].
  rewrite (read_varint_app _ _ _ more H1).
  destruct (read_varint rest1) as [[size rest]|] eqn:H2; [|done].
  rewrite (read_varint_app _ _ _ more H2). intros Hne. bool_to_prop.
  apply andb_true_iff. split; [by apply negb_true_iff, Z.eqb_neq|by apply IH].
Qed.

End H3P.
End H3P.
