(* ===== verification/H3Reads.v ===== *)
(** * Reads of a request stream

    [recv_request_data] around the frame parser: which parts of the HTTP/3 state
    a read touches, the invariant of the streams in the map, and sequences of
    reads. *)

From S2P Require Import Prelude.
From S2P Require Import Types.
From S2P Require Import Events.
From S2P Require Import Utils.
From S2P Require Import UtilsProps.
From S2P Require Import Qpack.
From S2P Require Import SessionMachine.
From S2P Require Import ConnectionMachine.
From S2P Require Import H3Machine.
From S2P Require Import H3Props.
Import utils.

Module H3R.
Section H3R.
Context `{LsQpack}.
Import H3 H3P.

(** ** What parsing touches *)

(** Of the shared state, frames reach the QPACK decoder only. *)
Definition only_decoder (h h' : t) : Prop := exists d, h' = h <| decoder := d |>.

Lemma only_decoder_refl h : only_decoder h h.
Proof. exists (decoder h). by destruct h. Qed.

Lemma only_decoder_trans h1 h2 h3 :
  only_decoder h1 h2 -> only_decoder h2 h3 -> only_decoder h1 h3.
Proof. intros [d ->] [d' ->]. by exists d'. Qed.

Hint Resolve only_decoder_refl : wt.

(** What the parser keeps of a stream. *)
Definition kept (s s' : H3Stream.t) : Prop :=
  H3Stream.ended s' = H3Stream.ended s
  /\ H3Stream.is_request_stream s' = H3Stream.is_request_stream s
  /\ H3Stream.stream_type s' = H3Stream.stream_type s.

Lemma kept_refl s : kept s s.
Proof. done. Qed.

Lemma kept_trans s1 s2 s3 : kept s1 s2 -> kept s2 s3 -> kept s1 s3.
Proof. unfold kept. intuition congruence. Qed.

Lemma decode_headers_decoder h i d h' r :
  decode_headers h i d = (h', r) -> only_decoder h h'.
Proof.
  unfold decode_headers.
  match goal with |- context [let '(_, _) := ?x in _] => destruct x as [dec [[ins [|hs]]|e]] end;
    intros [= <- <-]; by eexists.
Qed.

Lemma handle_request_frame_decoder h i s ty d h' r :
  handle_request_frame h i s ty d = (h', r) -> only_decoder h h'.
Proof.
  unfold handle_request_frame. destruct (_ || _); [intros [= <- <-]; auto with wt|].
  destruct (ty =? H3_FRAME_TYPE_DATA).
  { destruct (_ && _); [|intros [= <- <-]; auto with wt].
    case_bool_decide; [intros [= <- <-]; auto with wt|].
    destruct (parse_capsules _ _ _) as [[? ?]|]; intros [= <- <-]; auto with wt. }
  destruct (ty =? H3_FRAME_TYPE_HEADERS).
  - destruct (H3Stream.headers_processed s); [intros [= <- <-]; auto with wt|].
    destruct (decode_headers h i d) as [h1 r1] eqn:Hd. apply decode_headers_decoder in Hd.
    destruct r1 as [[|headers effects]|e]; [by intros [= <- <-]| |by intros [= <- <-]].
    destruct (if is_client h1 then _ else _); by intros [= <- <-].
  - destruct (ty =? _); [intros [= <- <-]; auto with wt|].
    destruct (ty =? _); intros [= <- <-]; auto with wt.
Qed.

Lemma parse_frame_chunk_keeps h i s ended :
  only_decoder h (after_state (parse_frame_chunk h i s ended))
  /\ (forall s', after_stream (parse_frame_chunk h i s ended) = Some s' -> kept s s').
Proof.
  unfold parse_frame_chunk.
  destruct (H3Stream.frame_type s) as [ty|]; [|split; [auto with wt|by intros ? [= <-]]].
  destruct (H3Stream.frame_size s) as [n|]; [|split; [auto with wt|by intros ? [= <-]]].
  cbv zeta. destruct (_ && _); [split; [auto with wt|by intros ? [= <-]]|].
  match goal with |- context [match ?r with _ => _ end] =>
    destruct r as [h1 [[[s1 ev1] ef1]|e]] eqn:Hr end.
  - assert (Hk : only_decoder h h1 /\ kept s s1).
    { destruct (if ty =? _ then _ else _).
      - pose proof (handle_request_frame_decoder _ _ _ _ _ _ _ Hr).
        apply handle_request_frame_kept in Hr as (_ & _ & ? & ? & ? & _). by split.
      - injection Hr as <- <- <- <-. split; [auto with wt|done]. }
    destruct Hk as [Hd Hk].
    split; [by destruct (_ && negb ended)|].
    intros s' Hs'. assert (kept s1 s') as Hk'; [|by eapply kept_trans].
    destruct (_ && negb ended); injection Hs' as <-;
      destruct (_ =? n); try done; by destruct (_ && negb _).
  - cbn. split; [|done]. destruct (if ty =? _ then _ else _); [|done].
    by eapply handle_request_frame_decoder.
Qed.

Lemma parse_frame_keeps h i s ended :
  only_decoder h (after_state (parse_frame h i s ended))
  /\ (forall s', after_stream (parse_frame h i s ended) = Some s' -> kept s s').
Proof.
  unfold parse_frame. destruct (H3Stream.blocked s); [split; [auto with wt|by intros ? [= <-]]|].
  destruct (_ && _); [split; [auto with wt|by intros ? [= <-]]|].
  destruct (H3Stream.frame_type s); [apply parse_frame_chunk_keeps|].
  destruct (parse_frame_header h i s) as [[s1|]|e] eqn:Hh;
    [|split; [auto with wt|by intros ? [= <-]]|split; [auto with wt|done]].
  assert (kept s s1).
  { revert Hh. unfold parse_frame_header. destruct (read_varint _) as [[ty r1]|]; [|done].
    destruct (read_varint r1) as [[size r]|]; [|done].
    destruct (_ && _); [done|]. destruct (_ && _); [done|]. intros [= <-]. by destruct (_ =? _). }
  destruct (parse_frame_chunk_keeps h i s1 ended) as [Hd Hk]. split; [done|].
  intros s' Hs'. eapply kept_trans; [done|by apply Hk].
Qed.

Lemma parse_frames_keeps fuel h i s ended ev ef h' r :
  parse_frames fuel h i s ended ev ef = Some (h', r) ->
  only_decoder h h'
  /\ (forall s' ev' ef', r = Ok (s', ev', ef') -> kept s s').
Proof.
  revert h s ev ef. induction fuel as [|fuel IH]; intros h s ev ef; [done|]. cbn [parse_frames].
  destruct (parse_frame_keeps h i s ended) as [Hd Hk].
  destruct (parse_frame h i s ended) as [h1 s1 ev1 ef1|h1 s1 ev1 ef1|h1 e]; cbn in *.
  - intros [= <- <-]. split; [done|]. intros ? ? ? [= <- <- <-]. auto.
  - intros Hp. destruct (IH _ _ _ _ Hp) as [Hd' Hk']. split; [by eapply only_decoder_trans|].
    intros. eapply kept_trans; [by apply Hk|by eapply Hk'].
  - intros [= <- <-]. by split.
Qed.

(** The accumulated events and effects are only carried along. *)
Lemma parse_frames_acc fuel h i s ended ev0 ef0 ev ef :
  parse_frames fuel h i s ended (ev0 ++ ev) (ef0 ++ ef) =
    match parse_frames fuel h i s ended ev ef with
    | Some (h', Ok (s', ev', ef')) => Some (h', Ok (s', ev0 ++ ev', ef0 ++ ef'))
    | r => r
    end.
Proof.
  revert h s ev ef. induction fuel as [|fuel IH]; intros h s ev ef; [done|]. cbn [parse_frames].
  destruct (parse_frame h i s ended); [by rewrite !app_assoc| |done].
  by rewrite <- !app_assoc, IH.
Qed.

Lemma parse_frames_framed fuel h i s ended ev ef h' s' ev' ef' :
  framed s -> parse_frames fuel h i s ended ev ef = Some (h', Ok (s', ev', ef')) -> framed s'.
Proof.
  revert h s ev ef. induction fuel as [|fuel IH]; intros h s ev ef Hf; [done|]. cbn [parse_frames].
  destruct (parse_frame h i s ended) as [h1 s1 ev1 ef1|h1 s1 ev1 ef1|h1 e] eqn:Hp.
  - intros [= <- <- <- <-]. by eapply parse_frame_framed; [|by rewrite Hp].
  - apply IH. by eapply parse_frame_framed; [|by rewrite Hp].
  - done.
Qed.

(** ** A decoder that never blocks

    The decoder is created for zero blocked streams, so that the library has no
    reason to block a header block. *)
Section never_blocks.
Context (never_blocks : forall d i data d' instructions,
  Decoder.decode_header d i data <> (d', Ok (instructions, DecodeStatus.Blocked))).

Lemma handle_request_frame_unblocked h i s ty data h' s' ev ef :
  H3Stream.blocked s = false ->
  handle_request_frame h i s ty (Some data) = (h', Ok (s', ev, ef)) ->
  H3Stream.blocked s' = false.
Proof.
  intros Hbl Hh. destruct (decide (ty = H3_FRAME_TYPE_DATA)) as [->|Hd].
  { apply handle_request_frame_kept in Hh as (_ & _ & _ & _ & _ & Hk).
    destruct (Hk eq_refl). congruence. }
  revert Hh. unfold handle_request_frame. destruct (_ || _); [done|].
  destruct (ty =? H3_FRAME_TYPE_DATA) eqn:E; bool_to_prop; [done|].
  destruct (ty =? H3_FRAME_TYPE_HEADERS).
  - destruct (H3Stream.headers_processed s); [done|]. unfold decode_headers.
    destruct (Decoder.decode_header (decoder h) i data) as [d [[ins [|hs]]|e]] eqn:Hdec; [| |done].
    + by destruct (never_blocks _ _ _ _ _ Hdec).
    + cbv zeta. destruct (if is_client _ then _ else _); [|done]. intros [= <- <- <- <-].
      by case_bool_decide.
  - destruct (ty =? _); [done|]. destruct (ty =? _); [done|]. by intros [= <- <- <- <-].
Qed.

Lemma parse_frame_chunk_unblocked h i s ended s' :
  H3Stream.blocked s = false -> after_stream (parse_frame_chunk h i s ended) = Some s' ->
  H3Stream.blocked s' = false.
Proof.
  intros Hbl. unfold parse_frame_chunk.
  destruct (H3Stream.frame_type s) as [ty|]; [|by intros [= <-]].
  destruct (H3Stream.frame_size s) as [n|]; [|by intros [= <-]].
  cbv zeta. destruct (_ && _); [by intros [= <-]|].
  match goal with |- context [match ?r with _ => _ end] =>
    destruct r as [h1 [[[s1 ev1] ef1]|e]] eqn:Hr end; [|done].
  assert (Hs1 : H3Stream.blocked s1 = false).
  { destruct (if ty =? _ then _ else _); [by apply handle_request_frame_unblocked in Hr|].
    by injection Hr as <- <- <- <-. }
  intros Hs'. destruct (_ && negb ended); injection Hs' as <-;
    destruct (_ =? n); try done; by destruct (_ && negb _).
Qed.

Lemma parse_frames_unblocked fuel h i s ended ev ef h' s' ev' ef' :
  H3Stream.blocked s = false ->
  parse_frames fuel h i s ended ev ef = Some (h', Ok (s', ev', ef')) ->
  H3Stream.blocked s' = false.
Proof.
  revert h s ev ef. induction fuel as [|fuel IH]; intros h s ev ef Hbl; [done|]. cbn [parse_frames].
  assert (Hs : forall s1, after_stream (parse_frame h i s ended) = Some s1 ->
    H3Stream.blocked s1 = false).
  { intros s1. unfold parse_frame. rewrite Hbl. destruct (_ && _); [by intros [= <-]|].
    destruct (H3Stream.frame_type s); [by apply parse_frame_chunk_unblocked|].
    destruct (parse_frame_header h i s) as [[s2|]|] eqn:Hh; [|by intros [= <-]|done].
    apply parse_frame_header_inv in Hh as (? & ? & ? & ? & _ & _ & _ & _ & _ & Hb).
    apply parse_frame_chunk_unblocked. congruence. }
  destruct (parse_frame h i s ended) as [h1 s1 ev1 ef1|h1 s1 ev1 ef1|h1 e]; cbn in Hs.
  - intros [= <- <- <- <-]. auto.
  - apply IH. auto.
  - done.
Qed.

(** ** Reads *)

(** A request stream between two reads. *)
Definition reading (h : t) (i : StreamId) (s : H3Stream.t) : Prop :=
  streams h !! i = Some s /\ H3Stream.is_request_stream s = true
  /\ H3Stream.stream_type s = None /\ H3Stream.ended s = false
  /\ H3Stream.blocked s = false /\ framed s.

(** The effects that are not requests for more data. *)
Definition acts (effects : list Effect.t) : list Effect.t :=
  omap (fun e => match e with Effect.ReceiveQuicData _ _ => None | _ => Some e end) effects.

Lemma acts_app e1 e2 : acts (e1 ++ e2) = acts e1 ++ acts e2.
Proof. apply omap_app. Qed.

(** The state without the stream being read. *)
Definition without (h : t) (i : StreamId) : t := h <| streams := delete i (streams h) |>.

(** The stream as the parser gets it. *)
Definition read_stream (s : H3Stream.t) (data : bytes) (fin : bool) : H3Stream.t :=
  if fin then (extend s data) <| H3Stream.ended := true |> else extend s data.

Lemma recv_reading h i s data fin :
  reading h i s ->
  recv_request_data h i data fin = recv_request_frames (without h i) i (read_stream s data fin).
Proof.
  intros (Hs & Hreq & Hst & Hend & Hbl & Hf). unfold recv_request_data, take_stream.
  rewrite Hs. change (default H3Stream.default_stream (Some s)) with s. cbv beta iota zeta.
  fold (without h i). fold (extend s data). fold (read_stream s data fin).
  replace (H3Stream.is_request_stream (read_stream s data fin)) with true by (by destruct fin).
  replace (H3Stream.stream_type (read_stream s data fin)) with (@None Z) by (by destruct fin).
  cbn [negb andb]. by rewrite bool_decide_false.
Qed.

Lemma recv_known h i s data :
  reading h i s ->
  exists reads, (acts reads = []) /\
  recv_request_data h i data false =
    match parse (without h i) i (extend s data) [] [] with
    | Some (h', Ok (s', ev, ef)) =>
        Some (h' <| streams := <[i := s']> (streams h') |>, Ok (ev, ef ++ reads))
    | Some (h', Err e) => Some (h', Err e)
    | None => None
    end.
Proof.
  intros Hr. rewrite (recv_reading h i s) by done. destruct Hr as (Hs & Hreq & Hst & Hend & Hbl & Hf).
  unfold recv_request_frames, parse_stream_data, read_stream.
  change (H3Stream.blocked (extend s data)) with (H3Stream.blocked s).
  change (H3Stream.ended (extend s data)) with (H3Stream.ended s).
  rewrite Hbl, Hend. fold (parse (without h i) i (extend s data) [] []).
  destruct (parse (without h i) i (extend s data) [] []) as [[h' [[[s' ev] ef]|e]]|] eqn:Hp;
    [|by exists []..].
  apply parse_frames_keeps in Hp as [_ Hk]. destruct (Hk _ _ _ eq_refl) as (He & _).
  change (H3Stream.ended (extend s data)) with (H3Stream.ended s) in He. rewrite He, Hend.
  cbn [andb]. destruct (negb (H3Stream.blocked s') && _ && _).
  - by exists [Effect.ReceiveQuicData i U64_MAX].
  - exists []. by rewrite app_nil_r.
Qed.

(** Reads one after the other, up to the first error. *)
Definition read_more (i : StreamId)
    (r : option (t * result (list ProtocolEvent.t * list Effect.t) WebTransportError.t))
    (data : bytes)
    : option (t * result (list ProtocolEvent.t * list Effect.t) WebTransportError.t) :=
  match r with
  | Some (h, Ok (ev, ef)) =>
      match recv_request_data h i data false with
      | Some (h', Ok (ev', ef')) => Some (h', Ok (ev ++ ev', ef ++ ef'))
      | r' => r'
      end
  | _ => r
  end.

Definition reads (h : t) (i : StreamId) (chunks : list bytes)
    : option (t * result (list ProtocolEvent.t * list Effect.t) WebTransportError.t) :=
  foldl (read_more i) (Some (h, Ok ([], []))) chunks.

(** The same outcome but for the requests for more data. *)
Definition same_outcome
    (r1 r2 : option (t * result (list ProtocolEvent.t * list Effect.t) WebTransportError.t)) : Prop :=
  match r1, r2 with
  | Some (h1, Ok (ev1, ef1)), Some (h2, Ok (ev2, ef2)) =>
      h1 = h2 /\ ev1 = ev2 /\ acts ef1 = acts ef2
  | Some (h1, Err e1), Some (h2, Err e2) => h1 = h2 /\ e1 = e2
  | _, _ => False
  end.

(** One more read after a read. *)
Lemma read_again h i s d1 d2 :
  reading h i s -> nonempty (extend s d1) ->
  same_outcome (read_more i (recv_request_data h i d1 false) d2)
    (recv_request_data h i (d1 ++ d2) false).
Proof.
  intros Hr Hne. pose proof Hr as (Hs & Hreq & Hst & Hend & Hbl & Hf).
  destruct (recv_known h i s d1 Hr) as (reads1 & Ha1 & ->).
  destruct (recv_known h i s (d1 ++ d2) Hr) as (reads3 & Ha3 & ->).
  replace (extend s (d1 ++ d2)) with (extend (extend s d1) d2)
    by (unfold extend; cbn; by rewrite <- app_assoc).
  rewrite (parse_extend (without h i) i (extend s d1)) by done.
  destruct (parse_frames_total (parse_fuel (extend s d1)) (without h i) i (extend s d1) [] [])
    as [[h1 r1] Hp]; [unfold parse_fuel; lia|done|].
  fold (parse (without h i) i (extend s d1) [] []) in Hp. rewrite Hp.
  destruct r1 as [[[s1 ev1] ef1]|e1]; [|done]. cbn [resume].
  pose proof (parse_frames_keeps _ _ _ _ _ _ _ _ _ Hp) as [[d Hd] Hk].
  destruct (Hk _ _ _ eq_refl) as (He1 & Hq1 & Ht1). cbn in He1, Hq1, Ht1.
  assert (Hst1 : streams h1 = delete i (streams h)) by (by rewrite Hd).
  set (h1' := h1 <| streams := <[i := s1]> (streams h1) |>).
  assert (Hr1 : reading h1' i s1).
  { split_and!; [by cbn; rewrite lookup_insert_eq|congruence..| |].
    - by eapply (parse_frames_unblocked _ _ _ (extend s d1)).
    - by eapply (parse_frames_framed _ _ _ (extend s d1)). }
  cbn [read_more]. destruct (recv_known h1' i s1 d2 Hr1) as (reads2 & Ha2 & ->).
  assert (without h1' i = h1) as ->.
  { unfold without. subst h1'. cbn. rewrite delete_insert_id by (rewrite Hst1; apply lookup_delete_eq).
    by destruct h1. }
  assert (Hacc : parse h1 i (extend s1 d2) ev1 ef1 =
    match parse h1 i (extend s1 d2) [] [] with
    | Some (h', Ok (s', ev', ef')) => Some (h', Ok (s', ev1 ++ ev', ef1 ++ ef'))
    | r => r
    end).
  { unfold parse. rewrite <- parse_frames_acc. by rewrite !app_nil_r. }
  rewrite Hacc.
  destruct (parse_frames_total (parse_fuel (extend s1 d2)) h1 i (extend s1 d2) [] [])
    as [[h2 r2] Hp2]; [unfold parse_fuel; lia|apply Hr1|].
  unfold parse. rewrite Hp2. destruct r2 as [[[s2 ev2] ef2]|e2]; [|done].
  split_and!; [done..|]. rewrite !acts_app, Ha1, Ha2, Ha3. by rewrite !app_nil_r.
Qed.

(** Any number of reads is one read. *)
Lemma reads_cut h i s chunk chunks :
  reading h i s ->
  (forall fuel, nonempty_frames fuel (default 0 (H3Stream.frame_size s))
     (H3Stream.buffer s ++ chunk ++ concat chunks) = true) ->
  same_outcome (reads h i (chunk :: chunks))
    (recv_request_data h i (chunk ++ concat chunks) false).
Proof.
  intros Hr. unfold reads. cbn [foldl]. induction chunks as [|last chunks IH] using rev_ind; intros Hne.
  - cbn [foldl concat]. rewrite app_nil_r. unfold read_more.
    destruct (recv_known h i s chunk Hr) as (more & _ & ->).
    destruct Hr as (_ & _ & _ & _ & _ & Hf).
    destruct (parse_frames_total (parse_fuel (extend s chunk)) (without h i) i (extend s chunk) [] [])
      as [[h1 [[[s1 ev1] ef1]|e]] Hp]; [unfold parse_fuel; lia|done|..];
      fold (parse (without h i) i (extend s chunk) [] []) in Hp; by rewrite Hp.
  - rewrite concat_app in *. cbn [concat] in *. rewrite !app_nil_r in *.
    rewrite foldl_app. cbn [foldl].
    assert (Hne' : nonempty (extend s (chunk ++ concat chunks))).
    { intros fuel. specialize (Hne fuel). rewrite !app_assoc in Hne.
      apply nonempty_frames_prefix in Hne. by rewrite <- app_assoc in Hne. }
    specialize (IH (fun fuel => Hne' fuel)).
    pose proof (read_again h i s (chunk ++ concat chunks) last Hr Hne') as Hagain.
    rewrite <- app_assoc in Hagain.
    set (r1 := foldl _ _ chunks) in *. set (r2 := recv_request_data h i (chunk ++ concat chunks) false) in *.
    destruct r1 as [[h1 [[ev1 ef1]|e1]]|], r2 as [[h2 [[ev2 ef2]|e2]]|]; try done.
    + destruct IH as (<- & <- & Hacts). cbn [read_more] in *.
      destruct (recv_request_data h1 i last false) as [[h3 [[ev3 ef3]|e3]]|]; [|done..].
      destruct (recv_request_data h i _ false) as [[h4 [[ev4 ef4]|e4]]|]; [|done..].
      destruct Hagain as (<- & <- & Hacts'). split_and!; [done..|].
      rewrite acts_app, Hacts, <- acts_app. exact Hacts'.
    + destruct IH as [<- <-]. exact Hagain.
Qed.

End never_blocks.
End H3R.
End H3R.
