(* ===== verification/H3Wire.v ===== *)
(** * What HTTP/3 writes and reads

    Every encoder of the HTTP/3 layer against the parser of the peer: SETTINGS,
    capsules in DATA frames, datagrams and the headers of WebTransport streams. *)

From S2P Require Import Prelude.
From S2P Require Import Types.
From S2P Require Import Events.
From S2P Require Import Utils.
From S2P Require Import UtilsProps.
From S2P Require Import Qpack.
From S2P Require Import SessionMachine.
From S2P Require Import ConnectionMachine.
From S2P Require Import H3Machine.
From S2P Require Import H3Props.
Import utils h3.

(** ** Varints *)

Definition is_varint (v : Z) : Prop := 0 <= v <= QUIC_VARINT_LIMIT.

(** The encoding of a varint, as [put_varint] appends it. *)
Definition varint (v : Z) : bytes :=
  match write_varint [] v with Ok enc => enc | Err _ => [] end.

Lemma varint_spec v :
  is_varint v ->
  len (varint v) = varint_size v
  /\ (forall buffer, put_varint buffer v = Ok (buffer ++ varint v))
  /\ (forall rest, read_varint (varint v ++ rest) = Ok (v, rest)).
Proof.
  intros Hv. unfold varint, put_varint.
  destruct (write_read_app [] v [] Hv) as (enc & Hw & Hl & Hr). rewrite Hw. cbn [app].
  split_and!; [done| |].
  - intros buffer. destruct (write_read_app buffer v [] Hv) as (enc' & Hw' & Hl' & Hr').
    rewrite Hw'. do 2 f_equal. revert Hw Hw'. unfold write_varint.
    repeat case_match; intros; simplify_eq; try done;
      repeat match goal with H : _ ++ _ = _ ++ _ |- _ => apply app_inv_head in H end; congruence.
  - intros rest. destruct (read_varint_spec _ _ _ Hr) as (_ & enc' & Heq & _ & Hall).
    rewrite !app_nil_r in Heq. subst enc'. apply Hall.
Qed.

Lemma put_varint_ok buffer v : is_varint v -> put_varint buffer v = Ok (buffer ++ varint v).
Proof. intros Hv. by apply varint_spec. Qed.

Lemma read_varint_ok v rest : is_varint v -> read_varint (varint v ++ rest) = Ok (v, rest).
Proof. intros Hv. by apply varint_spec. Qed.

Lemma varint_len_pos v : is_varint v -> 1 <= len (varint v) <= 8.
Proof.
  intros Hv. destruct (varint_spec v Hv) as (-> & _). unfold varint_size.
  repeat case_match; lia.
Qed.

Lemma varint_nonempty v rest : is_varint v -> varint v ++ rest <> [].
Proof.
  intros Hv. pose proof (varint_len_pos v Hv). destruct (varint v); [|done].
  unfold len in *. simpl in *. lia.
Qed.

Lemma encode_frame_header_ok ty n :
  is_varint ty -> is_varint n -> encode_frame_header ty n = Ok (varint ty ++ varint n).
Proof.
  intros Ht Hn. unfold encode_frame_header. rewrite (put_varint_ok [] ty Ht). cbn [app].
  by apply put_varint_ok.
Qed.

(** ** SETTINGS *)

(** The entries of a frame, in the order they are written. *)
Definition entries (s : H3Settings.t) : list (Z * Z) :=
  omap (fun '(id, value) => (fun v => (id, v)) <$> value) (known_settings s)
  ++ H3Settings.unknown s.

Definition entry_bytes (e : Z * Z) : bytes := varint e.1 ++ varint e.2.

(** The settings a peer may send: values are varints, identifiers it does not
    know are neither known nor reserved, and distinct. *)
Definition is_known (id : Z) : bool :=
  match slot default_settings id with Some _ => true | None => false end.

Record settings_wf (s : H3Settings.t) : Prop := {
  wf_varints : Forall (fun e => is_varint e.1 /\ is_varint e.2) (entries s);
  wf_unknown : Forall (fun e => is_known e.1 = false /\ is_reserved_setting e.1 = false)
                 (H3Settings.unknown s);
  wf_distinct : NoDup (H3Settings.unknown s).*1;
  wf_count : len (entries s) <= SETTINGS_ENTRIES_LIMIT;
}.

Lemma encode_known_entries known buffer :
  Forall (fun e => is_varint e.1 /\ is_varint e.2)
    (omap (fun '(id, value) => (fun v => (id, v)) <$> value) known) ->
  encode_known known buffer =
    Ok (buffer ++ concat (entry_bytes <$>
          omap (fun '(id, value) => (fun v => (id, v)) <$> value) known)).
Proof.
  revert buffer. induction known as [|[id [v|]] known IH]; intros buffer; cbn.
  - intros _. by rewrite app_nil_r.
  - intros [[Hi Hv] Hrest]%Forall_cons. unfold put_setting.
    rewrite put_varint_ok by done. rewrite put_varint_ok by done. rewrite IH by done.
    unfold entry_bytes. cbn. by rewrite !app_assoc.
  - intros Hrest. by apply IH.
Qed.

Lemma encode_unknown_entries unknown buffer :
  Forall (fun e => is_varint e.1 /\ is_varint e.2) unknown ->
  encode_unknown unknown buffer = Ok (buffer ++ concat (entry_bytes <$> unknown)).
Proof.
  revert buffer. induction unknown as [|[id v] unknown IH]; intros buffer; cbn.
  - intros _. by rewrite app_nil_r.
  - intros [[Hi Hv] Hrest]%Forall_cons. unfold put_setting.
    rewrite put_varint_ok by done. rewrite put_varint_ok by done. rewrite IH by done.
    unfold entry_bytes. cbn. by rewrite !app_assoc.
Qed.

Lemma encode_settings_entries s :
  settings_wf s -> encode_settings s = Ok (concat (entry_bytes <$> entries s)).
Proof.
  intros [Hv _ _ _]. unfold entries in *. apply Forall_app in Hv as [Hk Hu].
  unfold encode_settings. rewrite encode_known_entries by done. cbn [app].
  rewrite encode_unknown_entries by done. by rewrite fmap_app, concat_app.
Qed.

(** The parser takes the entries one by one. *)
Fixpoint add_settings (settings : H3Settings.t) (es : list (Z * Z))
    : result H3Settings.t WebTransportError.t :=
  match es with
  | [] => Ok settings
  | (id, v) :: rest =>
      let? settings := add_setting settings id v in add_settings settings rest
  end.

Lemma parse_entries fuel settings es count :
  Forall (fun e => is_varint e.1 /\ is_varint e.2) es ->
  count + len es <= SETTINGS_ENTRIES_LIMIT -> (length es < fuel)%nat ->
  parse_settings_loop fuel (concat (entry_bytes <$> es)) settings count = add_settings settings es.
Proof.
  revert fuel settings count.
  induction es as [|[id v] es IH]; intros fuel settings count Hv Hc Hf; (destruct fuel as [|fuel]; [lia|]).
  - done.
  - apply Forall_cons in Hv as [[Hi Hvv] Hrest]. rewrite len_cons in Hc.
    pose proof (len_nonneg es). cbn [fmap list_fmap concat parse_settings_loop].
    change (entry_bytes (id, v)) with (varint id ++ varint v). rewrite <- app_assoc.
    rewrite bool_decide_false by (by apply varint_nonempty).
    destruct (SETTINGS_ENTRIES_LIMIT <=? count) eqn:E; bool_to_prop; [lia|].
    rewrite read_varint_ok, read_varint_ok by done. cbn [add_settings].
    destruct (add_setting settings id v) as [settings'|e]; [|done].
    simpl in Hf. apply IH; [done|lia|lia].
Qed.

Lemma add_settings_app settings es1 es2 :
  add_settings settings (es1 ++ es2) =
    (let? settings := add_settings settings es1 in add_settings settings es2).
Proof.
  revert settings. induction es1 as [|[id v] es1 IH]; intros settings; [done|]. cbn.
  destruct (add_setting settings id v); [apply IH|done].
Qed.

(** The known entries fill their slots. *)
Definition with_unknown (s : H3Settings.t) (unknown : list (Z * Z)) : H3Settings.t :=
  let 'H3Settings.mk ecp dg mfs qbs qtc _ wt wmd wsb wsu := s in
  H3Settings.mk ecp dg mfs qbs qtc unknown wt wmd wsb wsu.

Lemma add_known_settings s :
  add_settings default_settings
    (omap (fun '(id, value) => (fun v => (id, v)) <$> value) (known_settings s))
  = Ok (with_unknown s []).
Proof.
  destruct s as [[ecp|] [dg|] [mfs|] [qbs|] [qtc|] un [wt|] [wmd|] [wsb|] [wsu|]]; reflexivity.
Qed.

Lemma is_known_slot s id : is_known id = false -> slot s id = None.
Proof.
  unfold is_known, slot, default_settings. destruct s.
  repeat match goal with |- context [if ?b then Some _ else _] => destruct b; [done|] end. done.
Qed.

Lemma add_unknown_settings s before after :
  Forall (fun e => is_known e.1 = false /\ is_reserved_setting e.1 = false) after ->
  NoDup (before ++ after).*1 ->
  add_settings (with_unknown s before) after = Ok (with_unknown s (before ++ after)).
Proof.
  revert before. induction after as [|[id v] after IH]; intros before Hk Hnd.
  { by rewrite app_nil_r. }
  apply Forall_cons in Hk as [[Hknown Hres] Hk]. cbn [fst] in *. cbn [add_settings].
  unfold add_setting. rewrite Hres, (is_known_slot _ _ Hknown).
  assert (H3Settings.unknown (with_unknown s before) = before) as -> by (by destruct s).
  destruct (existsb _ before) eqn:E.
  { apply existsb_exists in E as ([id' v'] & Hin & Heq). bool_to_prop. subst id'.
    rewrite fmap_app in Hnd. apply NoDup_app in Hnd as (_ & Hdis & _). exfalso.
    apply (Hdis id); [|cbn; left]. apply list_elem_of_fmap. exists (id, v'). split; [done|].
    by apply list_elem_of_In. }
  replace (let 'H3Settings.mk ecp dg mfs qbs qtc un wt wmd wsb wsu := with_unknown s before in
    Ok (H3Settings.mk ecp dg mfs qbs qtc (un ++ [(id, v)]) wt wmd wsb wsu))
    with (Ok (E := WebTransportError.t) (with_unknown s (before ++ [(id, v)]))) by (by destruct s).
  rewrite IH; [by rewrite <- app_assoc|done|by rewrite <- app_assoc].
Qed.

Lemma parse_encoded_settings s :
  settings_wf s -> parse_settings (concat (entry_bytes <$> entries s)) = Ok s.
Proof.
  intros [Hv Hu Hd Hc]. unfold parse_settings.
  rewrite parse_entries; [|done|lia|unfold len in Hc; lia].
  unfold entries. rewrite add_settings_app, add_known_settings.
  rewrite (add_unknown_settings s []) by done. cbn [app]. by destruct s.
Qed.

Lemma entries_size es :
  Forall (fun e => is_varint e.1 /\ is_varint e.2) es ->
  len (concat (entry_bytes <$> es)) <= 16 * len es.
Proof.
  induction 1 as [|[id v] es [Hi Hv] _ IH]; [done|]. cbn [fmap list_fmap concat].
  rewrite !len_app, len_cons. pose proof (varint_len_pos _ Hi). pose proof (varint_len_pos _ Hv).
  cbn [fst snd] in *. unfold entry_bytes at 1. rewrite len_app. cbn [fst snd]. lia.
Qed.

Module H3W.
Section H3W.
Context `{LsQpack}.
Import H3 H3P.

(** ** A SETTINGS frame on the control stream *)

(** The limits an endpoint announces fit in varints. *)
Record announces (h : t) : Prop := {
  an_field_section : is_varint (max_field_section_size h);
  an_blocked : is_varint (blocked_streams h);
  an_table : is_varint (max_table_capacity h);
  an_data : is_varint (initial_max_data h);
  an_bidi : is_varint (initial_max_streams_bidi h);
  an_uni : is_varint (initial_max_streams_uni h);
}.

Lemma local_settings_wf h : announces h -> settings_wf (local_settings h).
Proof.
  intros []. split; try done.
  - unfold entries, local_settings. cbn. repeat (apply Forall_cons; split); try done.
  - by apply NoDup_nil.
Qed.

Definition settings_payload (h : t) : bytes := concat (entry_bytes <$> entries (local_settings h)).

Definition settings_frame (h : t) : bytes :=
  varint H3_FRAME_TYPE_SETTINGS ++ varint (len (settings_payload h)) ++ settings_payload h.

Lemma settings_payload_size h :
  announces h -> 0 <= len (settings_payload h) <= CONTROL_FRAME_SIZE_LIMIT.
Proof.
  intros Ha. split; [auto|]. unfold settings_payload.
  pose proof (entries_size _ (wf_varints _ (local_settings_wf h Ha))).
  assert (len (entries (local_settings h)) = 9) by done. unfold CONTROL_FRAME_SIZE_LIMIT. lia.
Qed.

Lemma initialize_settings_ok h : announces h -> initialize_settings h = Ok (settings_frame h).
Proof.
  intros Ha. unfold initialize_settings. rewrite encode_settings_entries by (by apply local_settings_wf).
  fold (settings_payload h). pose proof (settings_payload_size h Ha).
  rewrite encode_frame_header_ok; [by rewrite <- app_assoc|done|].
  unfold is_varint, QUIC_VARINT_LIMIT, CONTROL_FRAME_SIZE_LIMIT in *. lia.
Qed.

(** The frame alone in the buffer of the control stream. *)
Lemma parse_control_settings h settings payload c h' ev ef :
  len payload <= CONTROL_FRAME_SIZE_LIMIT ->
  handle_control_frame h H3_FRAME_TYPE_SETTINGS payload c = (h', Ok (ev, ef)) ->
  settings = varint H3_FRAME_TYPE_SETTINGS ++ varint (len payload) ++ payload ->
  parse_control_frames (S (length settings)) h settings c [] [] = (h', Ok ([], ev, ef)).
Proof.
  intros Hl Hh ->. set (frame := _ ++ _ ++ payload).
  assert (Hp : is_varint (len payload))
    by (unfold is_varint, QUIC_VARINT_LIMIT, CONTROL_FRAME_SIZE_LIMIT in *; pose proof (len_nonneg payload); lia).
  assert (Hne : frame <> []) by (by apply varint_nonempty).
  cbn [parse_control_frames]. rewrite bool_decide_false by done.
  unfold frame at 1. rewrite read_varint_ok by done. cbv iota. rewrite read_varint_ok by done.
  cbv iota. change (H3_FRAME_TYPE_SETTINGS =? H3_FRAME_TYPE_DATA) with false.
  change (H3_FRAME_TYPE_SETTINGS =? H3_FRAME_TYPE_HEADERS) with false. cbn [negb andb].
  destruct (CONTROL_FRAME_SIZE_LIMIT <? len payload) eqn:E; bool_to_prop; [lia|].
  destruct (len frame <? _) eqn:E2; bool_to_prop; [lia|].
  unfold len. rewrite Nat2Z.id, firstn_all, skipn_all, Hh.
  destruct (length frame) eqn:El; [by destruct frame|]. done.
Qed.

(** What the receiver of a SETTINGS frame requires of it. *)
Lemma handle_settings h c s :
  (forall e capacity size, (lsqpack_enc_set_max_capacity e capacity size).1.1.2 = 0) ->
  settings_received h = false -> validate_settings s c = Ok () -> settings_wf s ->
  exists encoder' ef,
  handle_control_frame h H3_FRAME_TYPE_SETTINGS (concat (entry_bytes <$> entries s)) c =
    (h <| encoder := encoder' |> <| settings_received := true |>,
     Ok ([ProtocolEvent.H3SettingsReceived s], ef)).
Proof.
  intros Hlib Hrec Hval Hwf. unfold handle_control_frame. rewrite Hrec.
  cbn -[parse_settings entry_bytes entries Encoder.apply_settings].
  rewrite parse_encoded_settings, Hval by done.
  unfold Encoder.apply_settings.
  specialize (Hlib (Encoder.encoder (encoder h))
    (Z.min (default U32_MAX (u32_try_from (default 0 (H3Settings.qpack_max_table_capacity s))))
       (Encoder.max_table_capacity (encoder h))) 64).
  destruct (lsqpack_enc_set_max_capacity _ _ 64) as [[[e' code] out] n]. cbn in Hlib. subst code.
  cbn. by eexists _, _.
Qed.

(** ** Capsules *)

Definition capsule_bytes (ty : Z) (value : bytes) : bytes :=
  varint ty ++ varint (len value) ++ value.

Lemma encode_capsule_ok i ty value chunks :
  encode_capsule i ty value = Ok chunks -> 0 <= ty ->
  is_varint ty /\ is_varint (len value) /\ is_varint (len (capsule_bytes ty value))
  /\ concat chunks =
       varint H3_FRAME_TYPE_DATA ++ varint (len (capsule_bytes ty value)) ++ capsule_bytes ty value.
Proof.
  unfold encode_capsule. destruct (negb _); [done|]. intros Hc Hpos.
  assert (Hput : forall b v b', put_varint b v = Ok b' -> 0 <= v -> is_varint v).
  { intros b v b' Hw Hv. split; [done|]. revert Hw. unfold put_varint.
    destruct (write_varint b v) eqn:Hw; [|done]. intros _. by eapply write_varint_limit. }
  destruct (put_varint [] ty) as [b1|] eqn:H1; [|done].
  pose proof (Hput _ _ _ H1 Hpos) as Ht. rewrite put_varint_ok in H1 by done. injection H1 as <-.
  destruct (put_varint _ (len value)) as [b2|] eqn:H2; [|done].
  pose proof (Hput _ _ _ H2 (len_nonneg value)) as Hv.
  rewrite put_varint_ok in H2 by done. injection H2 as <-. cbn [app] in Hc.
  assert (Hlen : len (varint ty ++ varint (len value)) + len value = len (capsule_bytes ty value))
    by (unfold capsule_bytes; rewrite !len_app; lia).
  rewrite Hlen in Hc. revert Hc. unfold encode_frame_header.
  rewrite put_varint_ok by done. cbn [app].
  destruct (put_varint (varint H3_FRAME_TYPE_DATA) _) as [b3|] eqn:H3; [|done].
  pose proof (Hput _ _ _ H3 (len_nonneg _)) as Hn. rewrite put_varint_ok in H3 by done.
  injection H3 as <-. intros [= <-]. split_and!; [done..|].
  cbn [concat]. unfold capsule_bytes. by rewrite !app_nil_r, <- !app_assoc.
Qed.

(** The header of a DATA frame at the head of the buffer. *)
Definition in_data (s : H3Stream.t) (n : Z) (rest : bytes) : H3Stream.t :=
  s <| H3Stream.frame_type := Some H3_FRAME_TYPE_DATA |> <| H3Stream.frame_size := Some n |>
    <| H3Stream.buffer := rest |>.

Lemma parse_frame_data h i s n rest ended :
  H3Stream.blocked s = false -> H3Stream.frame_type s = None ->
  H3Stream.buffer s = varint H3_FRAME_TYPE_DATA ++ varint n ++ rest -> is_varint n ->
  parse_frame h i s ended = parse_frame_chunk h i (in_data s n rest) ended.
Proof.
  intros Hbl Hty Hb Hn. unfold parse_frame. rewrite Hbl, Hty, Hb.
  rewrite bool_decide_false by (by apply varint_nonempty). cbn [andb].
  unfold parse_frame_header. rewrite Hb. rewrite read_varint_ok by done. cbv iota.
  by rewrite read_varint_ok by done.
Qed.

(** A capsule the receiver has room for is parsed back. *)
Lemma capsules_encoded max i ty value rest ev :
  is_varint ty -> is_varint (len value) -> len value <= max ->
  capsules max i (capsule_bytes ty value ++ rest) ev =
    capsules max i rest (ev ++ [ProtocolEvent.H3CapsuleReceived i ty value]).
Proof.
  intros Ht Hv Hm. unfold capsule_bytes. rewrite <- !app_assoc.
  rewrite (capsules_step max i _ ev ty (len value) (varint (len value) ++ value ++ rest) (value ++ rest)).
  - unfold len. by rewrite Nat2Z.id, drop_app_length, take_app_length.
  - by apply varint_nonempty.
  - by apply read_varint_ok.
  - by apply read_varint_ok.
  - done.
  - rewrite len_app. pose proof (len_nonneg rest). lia.
Qed.

End H3W.
End H3W.
