(* ===== verification/EngineMachine.v ===== *)
(** * The engine

    [crates/src/protocol/engine.rs]: the orchestrator.  [handle_event] works off a
    queue: an event goes to the connection or to the HTTP/3 layer, what HTTP/3
    parses goes back to the front of the queue, and the requests a client made
    before its connection was established wait in [pending_user_events]. *)

From S2P Require Import Prelude.
From S2P Require Import Types.
From S2P Require Import Events.
From S2P Require Import Utils.
From S2P Require Import Qpack.
From S2P Require Import SessionMachine.
From S2P Require Import ConnectionMachine.
From S2P Require Import H3Machine.

Module EngineParameters.
Record t : Set := mk {
  early_event_ttl : f64;
  initial_max_data : Z;
  initial_max_streams_bidi : Z;
  initial_max_streams_uni : Z;
  max_capsule_size : Z;
  max_connection_pending_events : Z;
  max_field_section_size : Z;
  max_pending_capsules : Z;
  max_pending_datagrams : Z;
  max_pending_streams : Z;
  max_session_pending_events : Z;
  max_sessions : Z;
  max_write_buffer_size : Z;
  session_receive_window : Z;
}.

(** The parts [WebTransportEngine::new] hands to its two components. *)
Definition connection_parameters (p : t) : ConnectionParameters.t := {|
  ConnectionParameters.early_event_ttl := early_event_ttl p;
  ConnectionParameters.initial_max_data := initial_max_data p;
  ConnectionParameters.initial_max_streams_bidi := initial_max_streams_bidi p;
  ConnectionParameters.initial_max_streams_uni := initial_max_streams_uni p;
  ConnectionParameters.max_connection_pending_events := max_connection_pending_events p;
  ConnectionParameters.max_pending_capsules := max_pending_capsules p;
  ConnectionParameters.max_pending_datagrams := max_pending_datagrams p;
  ConnectionParameters.max_pending_streams := max_pending_streams p;
  ConnectionParameters.max_session_pending_events := max_session_pending_events p;
  ConnectionParameters.max_sessions := max_sessions p;
  ConnectionParameters.max_write_buffer_size := max_write_buffer_size p;
  ConnectionParameters.session_receive_window := session_receive_window p;
|}.

Definition h3_parameters (p : t) : H3Parameters.t := {|
  H3Parameters.initial_max_data := initial_max_data p;
  H3Parameters.initial_max_streams_bidi := initial_max_streams_bidi p;
  H3Parameters.initial_max_streams_uni := initial_max_streams_uni p;
  H3Parameters.max_capsule_size := max_capsule_size p;
  H3Parameters.max_field_section_size := max_field_section_size p;
|}.
End EngineParameters.

Module WebTransportEngine.
Section WebTransportEngine.
Context `{LsQpack}.

Record t : Type := mk {
  connection : Connection.t;
  h3 : H3.t;
  pending_user_events : list ProtocolEvent.t;
}.

#[global] Instance eta_engine : Eta t := fun e =>
  mk (connection e) (h3 e) (pending_user_events e).
#[global] Instance set_connection : Setter connection := ltac:(build_setter).
#[global] Instance set_h3 : Setter h3 := ltac:(build_setter).
#[global] Instance set_pending_user_events : Setter pending_user_events := ltac:(build_setter).

Definition new (handle : ConnectionHandle) (request_id : option RequestId) (is_client : bool)
    (parameters : EngineParameters.t) : t := {|
  connection := Connection.new handle request_id is_client
                  (EngineParameters.connection_parameters parameters);
  h3 := H3.new is_client (EngineParameters.h3_parameters parameters);
  pending_user_events := [];
|}.

(** ** Encoding on behalf of the driver *)

(** The last chunk carries the FIN. *)
Fixpoint send_chunks (stream_id : StreamId) (chunks : list bytes) (end_stream : bool)
    : list Effect.t :=
  match chunks with
  | [] => []
  | chunk :: rest =>
      Effect.SendQuicData stream_id chunk (end_stream && bool_decide (rest = []))
      :: send_chunks stream_id rest end_stream
  end.

Definition encode_capsule (stream_id : StreamId) (capsule_type : Z) (capsule_value : bytes)
    (end_stream : bool) : result (list Effect.t) WebTransportError.t :=
  let? chunks := H3.encode_capsule stream_id capsule_type capsule_value in
  Ok (send_chunks stream_id chunks end_stream).

Definition encode_connect_request (e : t) (stream_id : StreamId) (authority path : str)
    (headers : Headers) : t * result (list Effect.t) WebTransportError.t :=
  let '(h, r) := H3.encode_connect_request (h3 e) stream_id authority path headers in
  (e <| h3 := h |>, r).

Definition encode_datagram (session_id : SessionId) (data : bytes)
    : result (list Effect.t) WebTransportError.t :=
  let? parts := H3.encode_datagram session_id data in
  let header := default [] (parts !! 0%nat) in
  let payload := default [] (parts !! 1%nat) in
  Ok [Effect.SendQuicDatagram header payload].

Definition encode_goaway (e : t) (identifier : Z) : list Effect.t :=
  match H3.local_control_stream_id (h3 e) with
  | Some stream_id =>
      match H3.encode_goaway identifier with
      | Ok data => [Effect.SendQuicData stream_id data false]
      | Err _ => []
      end
  | None => []
  end.

Definition encode_headers (e : t) (stream_id : StreamId) (headers : Headers) (end_stream : bool)
    : t * result (list Effect.t) WebTransportError.t :=
  let '(h, r) := H3.encode_headers (h3 e) stream_id headers end_stream in
  (e <| h3 := h |>, r).

Definition encode_stream_header (stream_id : StreamId) (session_id : SessionId)
    (is_unidirectional : bool) : list Effect.t :=
  H3.encode_stream_header stream_id session_id is_unidirectional.

(** ** Events *)

(** The request of a user event that waits for the connection. *)
Definition pending_request (event : ProtocolEvent.t) : option RequestId :=
  match event with
  | ProtocolEvent.UserCreateSession request_id _ _ _ _
  | ProtocolEvent.UserCreateSessionOptimistic request_id _ _ _ _
  | ProtocolEvent.UserCreateStream request_id _ _ => Some request_id
  | _ => None
  end.

Definition fail_pending_user_events (e : t) (error_code : option ErrorCode) (reason : str)
    : t * list Effect.t :=
  (e <| pending_user_events := [] |>,
   (fun request_id =>
      Effect.NotifyRequestFailed request_id ErrorSource.Connection error_code reason)
   <$> omap pending_request (pending_user_events e)).

(** What one turn of the loop leaves: the engine, the effects, and the events
    put at the front of the queue, in the order they will be taken. *)
Notation turn := (t * list Effect.t * list ProtocolEvent.t)%type.

(** [new_effects.extend(self.connection.op(..))]. *)
Definition on_connection (e : t) (r : Connection.t * list Effect.t) : t * list Effect.t :=
  (e <| connection := r.1 |>, r.2).

Definition on_h3 (e : t) (r : H3.t * list Effect.t) : t * list Effect.t :=
  (e <| h3 := r.1 |>, r.2).

Definition no_events (r : t * list Effect.t) : option turn := Some (r.1, r.2, []).

(** [replay_pending_user_events] is set and the turn ends: the pending events, in
    their order, come first. *)
Definition replay_if_connected (r : t * list Effect.t) : option turn :=
  let e := r.1 in
  if Connection.is_client (connection e) && Connection.is_connected (connection e)
  then Some (e <| pending_user_events := [] |>, r.2, pending_user_events e)
  else Some (e, r.2, []).

(** A client that is not connected yet keeps the event for later. *)
Definition when_connected (e : t) (event : ProtocolEvent.t)
    (operation : Connection.t * list Effect.t) : option turn :=
  if Connection.is_client (connection e) && Connection.is_pre_connected (connection e)
  then Some (e <| pending_user_events := pending_user_events e ++ [event] |>, [], [])
  else no_events (on_connection e operation).

Definition to_h3 (e : t) (event : ProtocolEvent.t) : option turn :=
  '(h, events, effects) ← H3.handle_transport_event (h3 e) event (connection e);
  Some (e <| h3 := h |>, effects, events).

(** The body of the [while] loop is a [match] on the current event, in four parts by
    the source of the event; the last three are only used on their events. *)
Definition process_user_io (e : t) (event : ProtocolEvent.t) (now : f64) : option turn :=
  let c := connection e in
  match event with
  | ProtocolEvent.UserDiagnoseConnection request_id =>
      Some (e, Connection.diagnose c request_id, [])
  | ProtocolEvent.UserDiagnoseSession request_id session_id =>
      Some (e, Connection.diagnose_session c session_id request_id, [])
  | ProtocolEvent.UserDiagnoseStream request_id stream_id =>
      Some (e, Connection.diagnose_stream c stream_id request_id, [])
  | ProtocolEvent.UserExportKeyingMaterial request_id session_id label context length =>
      Some (e, Connection.export_keying_material c session_id request_id label context length, [])
  | ProtocolEvent.UserReadDatagram request_id session_id =>
      no_events (on_connection e (Connection.read_datagram c session_id request_id))
  | ProtocolEvent.UserReadStream request_id stream_id max_size =>
      no_events (on_connection e (Connection.read_stream c stream_id request_id max_size))
  | ProtocolEvent.UserRejectSession request_id session_id headers status_code =>
      no_events (on_connection e (Connection.reject_session c session_id request_id headers
                                    status_code now))
  | ProtocolEvent.UserResetStream request_id stream_id error_code =>
      no_events (on_connection e (Connection.reset_stream c stream_id request_id error_code))
  | ProtocolEvent.UserSendDatagram request_id session_id data =>
      no_events (on_connection e (Connection.send_datagram c session_id request_id data))
  | ProtocolEvent.UserStopSending request_id stream_id error_code =>
      no_events (on_connection e (Connection.stop_stream c stream_id request_id error_code))
  | ProtocolEvent.UserWriteStream request_id stream_id data end_stream =>
      no_events (on_connection e (Connection.write_stream c stream_id request_id data end_stream))
  | _ => Some (e, [], [])
  end.

Definition process_user (e : t) (event : ProtocolEvent.t) (now : f64) : option turn :=
  let c := connection e in
  match event with
  | ProtocolEvent.UserAcceptSession request_id session_id headers wt_protocol =>
      no_events (on_connection e (Connection.accept_session c session_id request_id headers
                                    wt_protocol now))
  | ProtocolEvent.UserCloseConnection request_id error_code reason =>
      let '(e, effects) :=
        on_connection e (Connection.close c (Some request_id) error_code reason now) in
      let '(e, more) := fail_pending_user_events e (Some ERR_LIB_CONNECTION_STATE_ERROR)
                          (b: "wt_connection close") in
      Some (e, effects ++ more, [])
  | ProtocolEvent.UserCloseConnectionGracefully request_id =>
      no_events (on_connection e (Connection.close_gracefully c request_id))
  | ProtocolEvent.UserCloseSession request_id session_id error_code reason =>
      no_events (on_connection e (Connection.close_session c session_id request_id error_code
                                    reason now))
  | ProtocolEvent.UserCreateSession request_id authority path headers wt_available_protocols =>
      when_connected e event
        (Connection.create_session c request_id
           (SessionRequest.mk authority now headers false path wt_available_protocols))
  | ProtocolEvent.UserCreateSessionOptimistic request_id authority path headers
      wt_available_protocols =>
      when_connected e event
        (Connection.create_session c request_id
           (SessionRequest.mk authority now headers true path wt_available_protocols))
  | ProtocolEvent.UserCreateStream request_id session_id is_unidirectional =>
      when_connected e event
        (Connection.create_stream c session_id request_id is_unidirectional)
  | _ => process_user_io e event now
  end.

Definition process_transport (e : t) (event : ProtocolEvent.t) (now : f64) : option turn :=
  let c := connection e in
  match event with
  | ProtocolEvent.TransportConnectionTerminated error_code reason =>
      let '(e, effects) :=
        on_connection e (Connection.handle_terminated c error_code reason now) in
      let '(e, more) := fail_pending_user_events e (Some ERR_LIB_CONNECTION_STATE_ERROR)
                          (b: "wt_connection abort") in
      Some (e, effects ++ more, [])
  | ProtocolEvent.TransportHandshakeCompleted =>
      replay_if_connected (on_connection e (Connection.handle_handshake_completed c now))
  | ProtocolEvent.TransportMaxStreamsReceived is_unidirectional =>
      no_events (on_connection e (Connection.recv_max_streams c is_unidirectional))
  | ProtocolEvent.TransportQuicParametersReceived peer_max_datagram_frame_size =>
      no_events (on_connection e
        (Connection.recv_transport_parameters c peer_max_datagram_frame_size))
  | ProtocolEvent.TransportResetStreamReceived stream_id error_code =>
      if Connection.has_stream c stream_id then
        no_events (on_connection e (Connection.recv_stream_reset c stream_id error_code now))
      else if Connection.is_session_stream c stream_id then
        let '(e, effects) := on_h3 e (H3.cleanup_stream (h3 e) stream_id) in
        let '(e, more) :=
          on_connection e (Connection.recv_stream_reset c stream_id error_code now) in
        Some (e, effects ++ more, [])
      else to_h3 e event
  | ProtocolEvent.TransportStopSendingReceived stream_id error_code =>
      if Connection.has_stream c stream_id || Connection.is_session_stream c stream_id
      then no_events (on_connection e (Connection.recv_stop_sending c stream_id error_code now))
      else to_h3 e event
  | ProtocolEvent.TransportStreamDataAcknowledged stream_id =>
      no_events (on_connection e (Connection.handle_stream_data_acknowledged c stream_id))
  | ProtocolEvent.TransportStreamDataReceived stream_id data end_stream =>
      if Connection.has_stream c stream_id
      then no_events (on_connection e
             (Connection.recv_stream_data c stream_id data end_stream now))
      else to_h3 e event
  | ProtocolEvent.TransportDatagramReceived _ | ProtocolEvent.TransportStreamOpened _ =>
      to_h3 e event
  | _ => process_user e event now
  end.

Definition process (e : t) (event : ProtocolEvent.t) (now : f64) : option turn :=
  let c := connection e in
  match event with
  | ProtocolEvent.H3CapsuleReceived stream_id capsule_type capsule_value =>
      let '(e, effects) :=
        on_connection e (Connection.recv_capsule c stream_id capsule_type capsule_value now) in
      if Connection.is_session_closed (connection e) stream_id then
        let '(e, more) := on_h3 e (H3.stop_request_stream (h3 e) stream_id) in
        Some (e, effects ++ more, [])
      else Some (e, effects, [])
  | ProtocolEvent.H3ConnectStreamClosed stream_id =>
      no_events (on_connection e (Connection.recv_connect_close c stream_id now))
  | ProtocolEvent.H3DatagramReceived session_id data =>
      no_events (on_connection e (Connection.recv_datagram c session_id data now))
  | ProtocolEvent.H3GoawayReceived => no_events (on_connection e (Connection.recv_goaway c))
  | ProtocolEvent.H3HeadersReceived stream_id headers =>
      let '(e, effects) :=
        on_connection e (Connection.recv_headers c stream_id headers now) in
      if Connection.is_session_stream (connection e) stream_id
      then Some (e, effects ++ H3.resume_request_stream (h3 e) stream_id, [])
      else
        let '(e, more) := on_h3 e (H3.cleanup_stream (h3 e) stream_id) in
        Some (e, effects ++ more, [])
  | ProtocolEvent.H3SettingsReceived settings =>
      replay_if_connected (on_connection e (Connection.recv_settings c settings now))
  | ProtocolEvent.H3WebTransportStreamOpened session_id stream_id =>
      no_events (on_connection e (Connection.handle_stream_opened c session_id stream_id now))
  | ProtocolEvent.InternalBindH3ConnectStream request_id stream_id =>
      let '(e, effects) := on_connection e (Connection.bind_session c stream_id request_id) in
      let '(e, more) := on_h3 e (H3.bind_connect_stream (h3 e) stream_id) in
      Some (e, effects ++ more, [])
  | ProtocolEvent.InternalBindH3LocalStreams control_stream_id encoder_stream_id
      decoder_stream_id =>
      no_events (on_h3 e (H3.bind_local_streams (h3 e) control_stream_id encoder_stream_id
                            decoder_stream_id))
  | ProtocolEvent.InternalBindQuicStream request_id stream_id session_id is_unidirectional =>
      no_events (on_connection e (Connection.bind_stream c session_id stream_id request_id
                                    is_unidirectional now))
  | ProtocolEvent.InternalCleanupEarlyEvents =>
      no_events (on_connection e (Connection.prune_early_events c now))
  | ProtocolEvent.InternalCleanupResources =>
      no_events (on_connection e (Connection.prune_resources c, []))
  | ProtocolEvent.InternalCloseConnection =>
      let '(e, effects) := on_connection e (Connection.close c None ERR_H3_NO_ERROR None now) in
      let '(e, more) := fail_pending_user_events e (Some ERR_LIB_CONNECTION_STATE_ERROR)
                          (b: "wt_connection close") in
      Some (e, effects ++ more, [])
  | ProtocolEvent.InternalCompleteQuicData stream_id =>
      no_events (on_connection e (Connection.complete_stream_write c stream_id))
  | ProtocolEvent.InternalDeferH3ConnectStream request_id =>
      no_events (on_connection e (Connection.defer_session c request_id))
  | ProtocolEvent.InternalDeferQuicStream request_id session_id is_unidirectional =>
      no_events (on_connection e (Connection.defer_stream c session_id request_id
                                    is_unidirectional))
  | ProtocolEvent.InternalFailH3ConnectStream request_id error_code reason =>
      no_events (on_connection e (Connection.fail_session c request_id error_code reason))
  | ProtocolEvent.InternalFailH3LocalStreams => Some (e, H3.fail_local_streams, [])
  | _ => process_transport e event now
  end.

(** The [while] loop over [events_to_process]; [None] is a run that does not end
    within the fuel.  The theorems about the engine give the fuel. *)
Fixpoint run_events (fuel : nat) (e : t) (events_to_process : list ProtocolEvent.t) (now : f64)
    (all_effects : list Effect.t) : option (t * list Effect.t) :=
  match events_to_process with
  | [] => Some (e, all_effects)
  | current_event :: rest =>
      match fuel with
      | O => None
      | S fuel' =>
          '(e, new_effects, front) ← process e current_event now;
          run_events fuel' e (front ++ rest) now (all_effects ++ new_effects)
      end
  end.

Definition handle_event (fuel : nat) (e : t) (event : ProtocolEvent.t) (now : f64)
    : option (t * list Effect.t) :=
  run_events fuel e [event] now [].

End WebTransportEngine.
End WebTransportEngine.
