(* ===== verification/H3Theorems.v ===== *)
(** * Theorems about the HTTP/3 layer

    The parser of request streams: when it ends, when it does not, when it stops
    early, and that the way bytes are cut into reads does not matter otherwise. *)

From S2P Require Import Prelude.
From S2P Require Import Types.
From S2P Require Import Events.
From S2P Require Import Utils.
From S2P Require Import UtilsProps.
From S2P Require Import Qpack.
From S2P Require Import QpackLiteral.
From S2P Require Import SessionMachine.
From S2P Require Import ConnectionMachine.
From S2P Require Import H3Machine.
From S2P Require Import H3Props.
From S2P Require Import H3Reads.
From S2P Require Import H3Wire.
From S2P Require Import EngineMachine.
Import utils.

Module H3T.
Section H3T.
Context `{LsQpack}.
Import H3 H3P H3R H3W.

(** C22: the frame parser of a request stream ends on every stream that has not
    ended, within one iteration per buffered byte and one more; on a stream that
    has ended, that many iterations are enough whenever any number is, so that
    running past them means running forever. *)
Theorem h3_parser_terminates h i s ended ev ef :
  framed s ->
  is_Some (parse_stream_data h i s false)
  /\ (forall fuel r, parse_frames fuel h i s ended ev ef = Some r ->
      parse_frames (parse_fuel s) h i s ended ev ef = Some r).
Proof.
  intros Hf. assert (Hfuel : forall s', framed s' -> (length (H3Stream.buffer s') < parse_fuel s')%nat)
    by (unfold parse_fuel; lia).
  split.
  - unfold parse_stream_data. destruct (H3Stream.blocked s); [|apply parse_frames_total; auto].
    destruct (decode_headers h i None) as [h' [[|headers effects]|e]]; [by eexists| |by eexists].
    apply parse_frames_total; [apply Hfuel|]; done.
  - intros fuel r Hr. destruct (parse_frames (parse_fuel s) h i s ended ev ef) as [r'|] eqn:Hp.
    + apply (parse_frames_more _ (Nat.max fuel (parse_fuel s))) in Hr; [|lia].
      apply (parse_frames_more _ (Nat.max fuel (parse_fuel s))) in Hp; [|lia]. congruence.
    + destruct (parse_frames_exhausted _ h i s ended ev ef (Hfuel s Hf) Hf Hp) as [_ Hnone].
      by rewrite Hnone in Hr.
Qed.

Lemma data_frame_truncated h i s n payload fuel ev ef :
  H3Stream.blocked s = false -> H3Stream.frame_type s = None -> carries_capsules s = false ->
  H3Stream.buffer s = varint H3_FRAME_TYPE_DATA ++ varint n ++ payload ->
  is_varint n -> len payload < n -> parse_frames fuel h i s true ev ef = None.
Proof.
  intros Hbl Hty Hcc Hb Hn Hlt. destruct fuel as [|fuel]; [done|]. cbn [parse_frames].
  rewrite (parse_frame_data h i s n payload) by done. set (s1 := in_data s n payload).
  assert (Hcc1 : carries_capsules s1 = false) by done.
  rewrite (chunk_data h i s1 n) by done. cbv zeta. rewrite andb_false_r.
  change (H3Stream.buffer s1) with payload. rewrite Z.min_r by lia.
  unfold data_capsules. rewrite Hcc1. apply truncated_diverges.
  - unfold advance. replace (len payload =? n) with false by lia. split_and!; try done.
    + cbn. unfold len. by rewrite Nat2Z.id, drop_all.
    + exists (n - len payload). split; [done|lia].
  - unfold settled, advance. replace (len payload =? n) with false by lia.
    intros Hc. assert (carries_capsules s1 = true) by exact Hc. congruence.
Qed.

(** C36: a DATA frame cut short by the end of a request stream hangs the engine: the
    parser runs forever, whatever number of iterations it is given, and with it
    the handling of the event.  Any peer can send such a frame. *)
Theorem h3_truncated_data_hangs (e : WebTransportEngine.t) h i s data n payload now :
  WebTransportEngine.h3 e = h -> Connection.has_stream (WebTransportEngine.connection e) i = false ->
  is_unidirectional_stream i = false ->
  reading h i s -> H3Stream.frame_type s = None -> carries_capsules s = false ->
  H3Stream.buffer s ++ data = varint H3_FRAME_TYPE_DATA ++ varint n ++ payload ->
  is_varint n -> len payload < n ->
  (forall fuel, parse_frames fuel (without h i) i (read_stream s data true) true [] [] = None)
  /\ (forall fuel, WebTransportEngine.handle_event fuel e
        (ProtocolEvent.TransportStreamDataReceived i data true) now = None).
Proof.
  intros <- Hhs Huni Hr Hty Hcc Hb Hn Hlt.
  assert (Hnone : forall fuel, parse_frames fuel (without (WebTransportEngine.h3 e) i) i
    (read_stream s data true) true [] [] = None).
  { intros fuel. by eapply data_frame_truncated; [apply Hr|..]. }
  split; [done|]. intros [|fuel]; [done|].
  unfold WebTransportEngine.handle_event. cbn [WebTransportEngine.run_events].
  cbn [WebTransportEngine.process WebTransportEngine.process_transport]. rewrite Hhs. unfold WebTransportEngine.to_h3, handle_transport_event, dispatch.
  rewrite Huni, (recv_reading _ i s) by done. unfold recv_request_frames, parse_stream_data.
  replace (H3Stream.blocked (read_stream s data true)) with false by (symmetry; apply Hr).
  change (H3Stream.ended (read_stream s data true)) with true. by rewrite Hnone.
Qed.

(** C39: a frame without payload stops the parser: whatever follows it in the same
    read stays in the buffer, unparsed, until the peer sends something else.  A
    CONNECT request or a capsule behind such a frame is not seen. *)
Theorem h3_empty_frame_stalls h i s rest :
  reading h i s -> H3Stream.frame_type s = None -> H3Stream.buffer s = [] -> settled h s ->
  exists h' s',
    recv_request_data h i (varint H3_FRAME_TYPE_DATA ++ varint 0 ++ rest) false
      = Some (h', Ok ([], [Effect.ReceiveQuicData i U64_MAX]))
    /\ streams h' !! i = Some s' /\ H3Stream.buffer s' = rest.
Proof.
  intros Hr Hty Hb Hset. rewrite (recv_reading h i s) by done.
  destruct Hr as (Hs & Hreq & Hst & Hend & Hbl & Hf). set (data := _ ++ _ ++ rest).
  unfold recv_request_frames, parse_stream_data, read_stream.
  change (H3Stream.blocked (extend s data)) with (H3Stream.blocked s).
  change (H3Stream.ended (extend s data)) with (H3Stream.ended s). rewrite Hbl, Hend.
  unfold parse_fuel. cbn [parse_frames].
  rewrite (parse_frame_data (without h i) i (extend s data) 0 rest);
    [|done|done|by cbn; rewrite Hb|done].
  set (s1 := in_data _ 0 rest). rewrite (chunk_data (without h i) i s1 0) by done. cbv zeta.
  change (H3Stream.buffer s1) with rest. rewrite Z.min_l by auto.
  change (take (Z.to_nat 0) rest) with (@nil byte).
  assert (Hd : data_capsules (without h i) i s1 [] = Ok (H3Stream.capsule_buffer s, [])).
  { unfold data_capsules. change (carries_capsules s1) with (carries_capsules s).
    change (H3Stream.capsule_buffer s1) with (H3Stream.capsule_buffer s). rewrite app_nil_r.
    destruct (carries_capsules s) eqn:Hcc; [|done]. apply (Hset Hcc). }
  rewrite Hd. cbn [andb negb Z.eqb]. unfold advance. rewrite Z.eqb_refl.
  set (s2 := _ <| H3Stream.frame_size := None |>).
  change (H3Stream.ended s2) with (H3Stream.ended s). rewrite Hend.
  change (H3Stream.blocked s2) with (H3Stream.blocked s). rewrite Hbl.
  change (H3Stream.headers_processed s2) with (H3Stream.headers_processed s).
  change (H3Stream.headers_processed (extend s data)) with (H3Stream.headers_processed s).
  destruct (H3Stream.headers_processed s);
    (eexists _, s2; split_and!; [done|apply lookup_insert_eq|done]).
Qed.

(** C19: how the transport cuts the bytes of a request stream into reads does not
    matter: reading them one chunk after the other leaves the same state, reports
    the same events and takes the same actions (requests for more data aside), or
    fails with the same error, as reading them at once.  It holds as long as no
    frame is empty, and of a QPACK decoder that never blocks, which zero blocked
    streams ask for. *)
Theorem h3_reads_can_be_cut
    (never_blocks : forall d i data d' instructions,
      Decoder.decode_header d i data <> (d', Ok (instructions, DecodeStatus.Blocked)))
    h i s chunk chunks :
  reading h i s ->
  (forall fuel, nonempty_frames fuel (default 0 (H3Stream.frame_size s))
     (H3Stream.buffer s ++ chunk ++ concat chunks) = true) ->
  same_outcome (reads h i (chunk :: chunks))
    (recv_request_data h i (chunk ++ concat chunks) false).
Proof.
  by apply reads_cut.
Qed.

End H3T.

(** ** Examples, over the literal codec *)

Import Literal.

Definition example_parameters : EngineParameters.t := {|
  EngineParameters.early_event_ttl := S754_zero false;
  EngineParameters.initial_max_data := 1048576;
  EngineParameters.initial_max_streams_bidi := 16;
  EngineParameters.initial_max_streams_uni := 16;
  EngineParameters.max_capsule_size := 65536;
  EngineParameters.max_connection_pending_events := 16;
  EngineParameters.max_field_section_size := 65536;
  EngineParameters.max_pending_capsules := 16;
  EngineParameters.max_pending_datagrams := 16;
  EngineParameters.max_pending_streams := 16;
  EngineParameters.max_session_pending_events := 16;
  EngineParameters.max_sessions := 4;
  EngineParameters.max_write_buffer_size := 1048576;
  EngineParameters.session_receive_window := 1048576;
|}.

Definition example_server : WebTransportEngine.t :=
  WebTransportEngine.new 1 None false example_parameters.

(** A server after a peer opened stream 0 and sent the first byte of a DATA frame:
    the transport reads one byte to tell the kind of the stream. *)
Definition example_opened : WebTransportEngine.t :=
  match WebTransportEngine.handle_event 2 example_server
          (ProtocolEvent.TransportStreamOpened 0) (S754_zero false) with
  | Some (e, _) =>
      match WebTransportEngine.handle_event 2 e
              (ProtocolEvent.TransportStreamDataReceived 0 [x00] false) (S754_zero false) with
      | Some (e, _) => e
      | None => e
      end
  | None => example_server
  end.

Definition example_stream : H3Stream.t :=
  H3Stream.default_stream <| H3Stream.buffer := [x00] |> <| H3Stream.is_request_stream := true |>.

Lemma example_reading : H3R.reading (WebTransportEngine.h3 example_opened) 0 example_stream.
Proof. vm_compute. split_and!; done. Qed.

(** A CONNECT stream whose headers have been processed. *)
Definition example_connect : H3Stream.t :=
  H3Stream.default_stream <| H3Stream.is_request_stream := true |>
    <| H3Stream.is_connect_stream := true |> <| H3Stream.headers_processed := true |>.

Definition example_session : H3.t :=
  let h := H3.new false (EngineParameters.h3_parameters example_parameters) in
  h <| H3.streams := {[ 0 := example_connect ]} |>.

Lemma example_session_reading : H3R.reading example_session 0 example_connect.
Proof. vm_compute. split_and!; done. Qed.

Lemma h3_parser_terminates_witness :
  is_Some (H3.parse_stream_data example_session 0 example_stream false).
Proof. exact (proj1 (h3_parser_terminates example_session 0 example_stream true [] [] I)). Defined.

Lemma h3_truncated_data_hangs_witness :
  (forall fuel, H3.parse_frames fuel (H3R.without (WebTransportEngine.h3 example_opened) 0) 0
     (H3R.read_stream example_stream [x05; xaa] true) true [] [] = None)
  /\ (forall fuel, WebTransportEngine.handle_event fuel example_opened
     (ProtocolEvent.TransportStreamDataReceived 0 [x05; xaa] true) (S754_zero false) = None).
Proof.
  exact (h3_truncated_data_hangs example_opened _ 0 example_stream [x05; xaa] 5 [xaa]
    (S754_zero false) eq_refl eq_refl eq_refl example_reading eq_refl eq_refl eq_refl
    ltac:(unfold is_varint, QUIC_VARINT_LIMIT; lia) eq_refl).
Defined.

Lemma h3_empty_frame_stalls_witness : exists h' s',
  H3.recv_request_data example_session 0 (varint 0 ++ varint 0 ++ [x00; x02; x28; x43]) false
    = Some (h', Ok ([], [Effect.ReceiveQuicData 0 U64_MAX]))
  /\ H3.streams h' !! 0 = Some s' /\ H3Stream.buffer s' = [x00; x02; x28; x43].
Proof.
  exact (h3_empty_frame_stalls example_session 0 example_connect [x00; x02; x28; x43]
    example_session_reading eq_refl eq_refl (fun _ => H3P.starved_nil _)).
Defined.

(** A capsule of type 0x21 and value 0xff, cut after its first and third byte. *)
Lemma h3_reads_can_be_cut_witness :
  H3R.same_outcome (H3R.reads example_session 0 [[x00]; [x03; x21]; [x01; xff]])
    (H3.recv_request_data example_session 0 [x00; x03; x21; x01; xff] false).
Proof.
  apply (h3_reads_can_be_cut literal_never_blocks example_session 0 example_connect [x00]
    [[x03; x21]; [x01; xff]] example_session_reading).
  intros [|[|fuel]]; reflexivity.
Defined.

End H3T.
