(* ===== verification/H3Codec.v ===== *)
(** * Theorems about what two HTTP/3 endpoints exchange

    What one endpoint encodes, the other decodes: SETTINGS on the control stream,
    capsules on a CONNECT stream, datagrams, and the headers of WebTransport
    streams read byte by byte. *)

From S2P Require Import Prelude.
From S2P Require Import Types.
From S2P Require Import Events.
From S2P Require Import Utils.
From S2P Require Import UtilsProps.
From S2P Require Import Qpack.
From S2P Require Import QpackLiteral.
From S2P Require Import SessionMachine.
From S2P Require Import ConnectionMachine.
From S2P Require Import H3Machine.
From S2P Require Import H3Props.
From S2P Require Import H3Reads.
From S2P Require Import H3Wire.
From S2P Require Import EngineMachine.
From S2P Require Import H3Theorems.
Import utils.

Module H3C.
Section H3C.
Context `{LsQpack}.
Import H3 H3P H3R H3W h3.

(** ** SETTINGS *)

Lemma local_settings_valid h c :
  0 < default 0 (Connection.peer_max_datagram_frame_size c) ->
  validate_settings (local_settings h) c = Ok ().
Proof.
  intros Hd. unfold validate_settings. cbn -[default].
  destruct (0 <? default 0 _) eqn:E; bool_to_prop; [|lia]. by destruct (Connection.is_client c).
Qed.

(** A receiver that has not seen a control stream yet. *)
Definition awaits_control (h : t) (i : StreamId) : Prop :=
  streams h !! i = Some H3Stream.default_stream /\ peer_control_stream_id h = None
  /\ peer_decoder_stream_id h <> Some i /\ peer_encoder_stream_id h <> Some i
  /\ settings_received h = false.

(** The state after the type of the control stream, and the stream. *)
Definition control_stream : H3Stream.t :=
  H3Stream.default_stream <| H3Stream.stream_type := Some H3_STREAM_TYPE_CONTROL |>.

Definition knows_control (h : t) (i : StreamId) : t :=
  (h <| streams := <[i := control_stream]> (delete i (streams h)) |>)
    <| peer_control_stream_id := Some i |>.

Lemma recv_control_type h i c :
  awaits_control h i -> is_unidirectional_stream i = true ->
  handle_transport_event h (ProtocolEvent.TransportStreamDataReceived i [x00] false) c
    = Some (knows_control h i, [], [Effect.ReceiveQuicData i U64_MAX]).
Proof.
  intros (Hs & Hc & Hd & He & _) Hu.
  unfold handle_transport_event, dispatch. rewrite Hu.
  unfold recv_unidirectional_stream_data, take_stream. rewrite Hs.
  change (default _ (Some ?s)) with s. cbn -[parse_stream_type].
  unfold parse_stream_type. cbn -[register_peer_infrastructure_stream].
  unfold register_peer_infrastructure_stream. cbn. rewrite Hc.
  rewrite bool_decide_false; [done|].
  rewrite !elem_of_cons, elem_of_nil. intros Hin. destruct_or! Hin; congruence.
Qed.

Lemma recv_control_settings h i c payload h' ev ef :
  is_unidirectional_stream i = true -> settings_received h = false ->
  len payload <= CONTROL_FRAME_SIZE_LIMIT -> streams h !! i = Some control_stream ->
  handle_control_frame (without h i) H3_FRAME_TYPE_SETTINGS payload c = (h', Ok (ev, ef)) ->
  exists h'' ef', settings_received h'' = settings_received h'
  /\ handle_transport_event h (ProtocolEvent.TransportStreamDataReceived i
       (varint H3_FRAME_TYPE_SETTINGS ++ varint (len payload) ++ payload) false) c
    = Some (h'', ev, ef').
Proof.
  intros Hu Hset Hl Hs Hh. set (frame := _ ++ _ ++ payload).
  unfold handle_transport_event, dispatch. rewrite Hu.
  unfold recv_unidirectional_stream_data, take_stream. rewrite Hs.
  change (default _ (Some ?s)) with s. cbv beta iota zeta. fold (without h i).
  set (s := _ <| H3Stream.buffer := _ |>).
  unfold parse_stream_type. change (H3Stream.stream_type s) with (Some H3_STREAM_TYPE_CONTROL).
  cbv beta iota zeta. change (H3_STREAM_TYPE_CONTROL =? H3_STREAM_TYPE_CONTROL) with true.
  change (H3Stream.ended s) with false. change (H3Stream.buffer s) with frame. cbv iota.
  rewrite (parse_control_settings (without h i) frame payload c h' ev ef) by done.
  cbv iota. unfold keep_critical_stream. change (H3Stream.ended _) with false.
  eexists _, _. split; [|reflexivity]. done.
Qed.

Lemma bind_local_streams_ok a control_id encoder_id decoder_id :
  announces a -> local_control_stream_id a = None -> local_encoder_stream_id a = None ->
  local_decoder_stream_id a = None ->
  Forall (fun i => is_unidirectional_stream i = true) [control_id; encoder_id; decoder_id] ->
  NoDup [control_id; encoder_id; decoder_id] ->
  exists a', bind_local_streams a control_id encoder_id decoder_id =
    (a', [Effect.SendQuicData control_id (x00 :: settings_frame a) false;
          Effect.SendQuicData encoder_id [x02] false;
          Effect.SendQuicData decoder_id [x03] false]).
Proof.
  rewrite !Forall_cons, !NoDup_cons, !elem_of_cons, !elem_of_nil.
  intros Ha Hlc Hle Hld (Hu1 & Hu2 & Hu3 & _) (Hn1 & Hn2 & _).
  unfold bind_local_streams. rewrite initialize_settings_ok by done.
  unfold initialize_local_streams, set_local_stream_ids. rewrite Hu1, Hu2, Hu3, Hlc, Hle, Hld.
  cbn [negb]. replace (control_id =? encoder_id) with false by lia.
  replace (control_id =? decoder_id) with false by lia.
  replace (encoder_id =? decoder_id) with false by lia. cbn. by eexists.
Qed.

(** Two endpoints learn each other's limits: the bytes an endpoint sends on its
    control stream when its local streams are bound, read by the other as the
    transport delivers them (the type first, then the rest), are accepted and
    reported as exactly the settings the first announces, and its connection
    takes the announced limits from them. *)
Theorem h3_settings_exchange
    (set_capacity_succeeds : forall e capacity size,
      (lsqpack_enc_set_max_capacity e capacity size).1.1.2 = 0)
    a b c control_id encoder_id decoder_id now :
  announces a -> local_control_stream_id a = None -> local_encoder_stream_id a = None ->
  local_decoder_stream_id a = None ->
  Forall (fun i => is_unidirectional_stream i = true) [control_id; encoder_id; decoder_id] ->
  NoDup [control_id; encoder_id; decoder_id] ->
  awaits_control b control_id -> 0 < default 0 (Connection.peer_max_datagram_frame_size c) ->
  exists a' frame b1 b2 ef,
    bind_local_streams a control_id encoder_id decoder_id =
      (a', [Effect.SendQuicData control_id (x00 :: frame) false;
            Effect.SendQuicData encoder_id [x02] false;
            Effect.SendQuicData decoder_id [x03] false])
    /\ handle_transport_event b (ProtocolEvent.TransportStreamDataReceived control_id [x00] false) c
       = Some (b1, [], [Effect.ReceiveQuicData control_id U64_MAX])
    /\ handle_transport_event b1 (ProtocolEvent.TransportStreamDataReceived control_id frame false) c
       = Some (b2, [ProtocolEvent.H3SettingsReceived (local_settings a)], ef)
    /\ settings_received b2 = true
    /\ let c' := (Connection.recv_settings c (local_settings a) now).1 in
       Connection.peer_initial_max_data c' = initial_max_data a
       /\ Connection.peer_initial_max_streams_bidi c' = initial_max_streams_bidi a
       /\ Connection.peer_initial_max_streams_uni c' = initial_max_streams_uni a.
Proof.
  intros Ha Hlc Hle Hld Hu Hnd Hb Hdg. pose proof Hu as [Hu1 _]%Forall_cons.
  destruct (bind_local_streams_ok a control_id encoder_id decoder_id) as [a' Hbind]; [done..|].
  pose proof Hb as (_ & _ & _ & _ & Hset).
  destruct (handle_settings (without (knows_control b control_id) control_id) c (local_settings a)
    set_capacity_succeeds Hset (local_settings_valid a c Hdg) (local_settings_wf a Ha))
    as (encoder' & ef & Hh).
  edestruct (recv_control_settings (knows_control b control_id) control_id c (settings_payload a))
    as (b2 & ef' & Hset2 & Hev);
    [exact Hu1|exact Hset|by apply settings_payload_size|apply lookup_insert_eq|exact Hh|].
  exists a', (settings_frame a), (knows_control b control_id), b2, ef'.
  split_and!; [done|by apply recv_control_type|done|done|..];
    unfold Connection.recv_settings; cbn [H3Settings.wt_initial_max_data local_settings];
    destruct (_ && _); try done; unfold Connection.open; by destruct (Connection.request_id _).
Qed.

(** ** Capsules *)

(** A CONNECT stream with nothing in progress. *)
Definition at_rest (s : H3Stream.t) : Prop :=
  H3Stream.frame_type s = None /\ H3Stream.buffer s = [] /\ H3Stream.capsule_buffer s = []
  /\ carries_capsules s = true.

Lemma capsule_bytes_length ty value :
  is_varint ty -> is_varint (len value) -> 0 < len (capsule_bytes ty value).
Proof.
  intros Ht Hv. unfold capsule_bytes. rewrite !len_app.
  pose proof (varint_len_pos _ Ht). pose proof (varint_len_pos _ Hv). pose proof (len_nonneg value). lia.
Qed.

(** The frame of a capsule, read at once. *)
Lemma recv_capsule_frame h i s ty value :
  reading h i s -> at_rest s -> is_varint ty -> is_varint (len value) ->
  is_varint (len (capsule_bytes ty value)) -> len value <= max_capsule_size h ->
  parse (without h i) i (extend s (varint H3_FRAME_TYPE_DATA ++ varint (len (capsule_bytes ty value))
      ++ capsule_bytes ty value)) [] []
    = Some (without h i, Ok (s, [ProtocolEvent.H3CapsuleReceived i ty value], [])).
Proof.
  intros (Hs & Hreq & Hst & Hend & Hbl & Hf) (Hty & Hb & Hcb & Hcc) Ht Hv Hn Hm.
  set (data := _ ++ _ ++ _). set (n := len (capsule_bytes ty value)) in *.
  pose proof (capsule_bytes_length ty value Ht Hv) as Hpos. fold n in Hpos.
  rewrite parse_unfold by done.
  rewrite (parse_frame_data _ i (extend s data) n (capsule_bytes ty value));
    [|done|done|by cbn; rewrite Hb|done].
  rewrite (chunk_data _ i _ n) by done. cbv zeta. set (s1 := in_data _ _ _).
  change (H3Stream.buffer s1) with (capsule_bytes ty value). rewrite Z.min_l by lia.
  unfold data_capsules. change (carries_capsules s1) with (carries_capsules s).
  change (H3Stream.capsule_buffer s1) with (H3Stream.capsule_buffer s). rewrite Hcc, Hcb. cbn [app].
  replace (take _ _) with (capsule_bytes ty value ++ [])
    by (unfold n, len; by rewrite Nat2Z.id, firstn_all, app_nil_r).
  rewrite capsules_encoded by done. cbn [capsules parse_capsules_loop length bool_decide app].
  rewrite bool_decide_true by done. replace (n =? 0) with false by lia. cbn [andb after app].
  unfold advance. rewrite Z.eqb_refl.
  replace (drop (Z.to_nat n) (H3Stream.buffer s1)) with (@nil byte)
    by (unfold n, len; by rewrite Nat2Z.id, skipn_all).
  set (s2 := _ <| H3Stream.frame_size := None |>).
  assert (s2 = s) as ->.
  { subst s2 s1. unfold framed in Hf. rewrite Hty in Hf.
    destruct (H3Stream.frame_size s) eqn:Hsz; [done|]. destruct s; cbn in *; by subst. }
  by apply parse_empty.
Qed.

(** A capsule arrives: the three chunks an endpoint sends for a capsule, cut by the
    transport into whatever reads, are parsed by the peer, whose limit allows it,
    into that capsule and nothing else, and leave its state as it was. *)
Theorem h3_capsule_roundtrip
    (never_blocks : forall d i data d' instructions,
      Decoder.decode_header d i data <> (d', Ok (instructions, DecodeStatus.Blocked)))
    h i s ty value chunks first rest :
  encode_capsule i ty value = Ok chunks -> 0 <= ty -> first ++ concat rest = concat chunks ->
  reading h i s -> at_rest s -> len value <= max_capsule_size h ->
  exists ef, reads h i (first :: rest)
      = Some (h, Ok ([ProtocolEvent.H3CapsuleReceived i ty value], ef))
    /\ acts ef = [].
Proof.
  intros Henc Hty Hcut Hr Hrest Hm.
  destruct (encode_capsule_ok i ty value chunks Henc Hty) as (Ht & Hv & Hn & Hchunks).
  rewrite Hchunks in Hcut.
  assert (Hone : exists ef, recv_request_data h i (first ++ concat rest) false
      = Some (h, Ok ([ProtocolEvent.H3CapsuleReceived i ty value], ef)) /\ acts ef = []).
  { rewrite Hcut. destruct (recv_known h i s (varint H3_FRAME_TYPE_DATA
      ++ varint (len (capsule_bytes ty value)) ++ capsule_bytes ty value) Hr) as (more & Hacts & ->).
    rewrite recv_capsule_frame by done. exists more. split; [|done]. cbn [app]. repeat f_equal.
    unfold without. cbn. rewrite insert_delete_eq, insert_id by apply Hr. by destruct h. }
  destruct Hone as (ef & Hone & Hacts).
  assert (Hsame : same_outcome (reads h i (first :: rest))
    (recv_request_data h i (first ++ concat rest) false)).
  { apply (reads_cut never_blocks h i s); [done|]. destruct Hrest as (Hft & Hb & _).
    destruct Hr as (_ & _ & _ & _ & _ & Hf). unfold framed in Hf. rewrite Hft in Hf.
    destruct (H3Stream.frame_size s); [done|]. rewrite Hb, Hcut. cbn [default app].
    intros [|[|fuel]]; cbn [nonempty_frames]; [done|..]; rewrite drop_0, read_varint_ok by done;
      cbv iota; rewrite read_varint_ok by done; cbv iota;
      pose proof (capsule_bytes_length ty value Ht Hv);
      (replace (len _ =? 0) with false by lia); cbn [negb andb]; [done|].
    cbn [nonempty_frames]. unfold len at 1. by rewrite Nat2Z.id, skipn_all. }
  rewrite Hone in Hsame. destruct (reads h i (first :: rest)) as [[h' [[ev' ef']|]]|]; [|done..].
  destruct Hsame as (-> & -> & Hacts'). exists ef'. split; [done|]. by rewrite Hacts'.
Qed.

(** ** Datagrams and stream headers *)

(** Reads of one byte each, as the layer asks for them until it knows the stream. *)
Fixpoint bytewise (h : t) (i : StreamId) (c : Connection.t) (data : bytes)
    : option (t * list ProtocolEvent.t * list Effect.t) :=
  match data with
  | [] => Some (h, [], [])
  | byte :: rest =>
      '(h, ev, ef) ← handle_transport_event h
                       (ProtocolEvent.TransportStreamDataReceived i [byte] false) c;
      '(h, ev', ef') ← bytewise h i c rest;
      Some (h, ev ++ ev', ef ++ ef')
  end.

(** A stream known to be a WebTransport stream, with a part of its session id. *)
Definition wt_stream (part : bytes) : H3Stream.t :=
  H3Stream.default_stream <| H3Stream.buffer := part |>
    <| H3Stream.stream_type := Some H3_STREAM_TYPE_WEBTRANSPORT |>.

Definition with_stream_state (h : t) (i : StreamId) (s : H3Stream.t) : t :=
  h <| streams := <[i := s]> (delete i (streams h)) |>.

Lemma with_stream_state_again h i s s' :
  with_stream_state (with_stream_state h i s) i s' = with_stream_state h i s'.
Proof.
  unfold with_stream_state. cbn. rewrite delete_insert_id by apply lookup_delete_eq. by destruct h.
Qed.

(** One more byte of the session id. *)
Lemma recv_header_byte h i c part byte :
  handle_transport_event (with_stream_state h i (wt_stream part))
    (ProtocolEvent.TransportStreamDataReceived i [byte] false) c =
  match read_varint (part ++ [byte]) with
  | Err _ => Some (with_stream_state h i (wt_stream (part ++ [byte])), [],
                   [Effect.ReceiveQuicData i 1])
  | Ok (session_id, _) =>
      if is_valid_session_id session_id
      then Some (without h i, [ProtocolEvent.H3WebTransportStreamOpened session_id i], [])
      else Some (without h i, [], [Effect.CloseQuicConnection ERR_H3_ID_ERROR
                                     (Some (b: "wt_session validate invalid"))])
  end.
Proof.
  assert (Hw : without (with_stream_state h i (wt_stream part)) i = without h i).
  { unfold without, with_stream_state. cbn. rewrite delete_insert_id by apply lookup_delete_eq.
    by destruct h. }
  assert (Hl : streams (with_stream_state h i (wt_stream part)) !! i = Some (wt_stream part))
    by apply lookup_insert_eq.
  unfold handle_transport_event, dispatch.
  destruct (is_unidirectional_stream i).
  - unfold recv_unidirectional_stream_data, take_stream. rewrite Hl.
    change (default _ (Some ?s)) with s. cbv beta iota zeta.
    fold (without (with_stream_state h i (wt_stream part)) i). rewrite Hw.
    unfold parse_stream_type. change (H3Stream.stream_type _) with (Some H3_STREAM_TYPE_WEBTRANSPORT).
    cbv beta iota zeta. cbn [Z.eqb Pos.eqb H3_STREAM_TYPE_WEBTRANSPORT H3_STREAM_TYPE_CONTROL
      H3_STREAM_TYPE_QPACK_DECODER H3_STREAM_TYPE_QPACK_ENCODER].
    unfold parse_stream_header. change (H3Stream.buffer _) with (part ++ [byte]) at 1.
    destruct (read_varint (part ++ [byte])) as [[sid rest]|e]; [|done].
    by destruct (is_valid_session_id sid).
  - unfold recv_request_data, take_stream. rewrite Hl.
    change (default _ (Some ?s)) with s. cbv beta iota zeta.
    fold (without (with_stream_state h i (wt_stream part)) i). rewrite Hw.
    rewrite bool_decide_false, andb_false_r by done. rewrite bool_decide_true by done.
    unfold parse_stream_header. change (H3Stream.buffer _) with (part ++ [byte]) at 1.
    destruct (read_varint (part ++ [byte])) as [[sid rest]|e]; [|done].
    by destruct (is_valid_session_id sid).
Qed.

(** The session id, byte by byte. *)
Lemma recv_session_id h i c part rest session_id :
  part ++ rest = varint session_id -> rest <> [] ->
  is_varint session_id -> is_valid_session_id session_id = true ->
  exists n, bytewise (with_stream_state h i (wt_stream part)) i c rest
    = Some (without h i, [ProtocolEvent.H3WebTransportStreamOpened session_id i],
            replicate n (Effect.ReceiveQuicData i 1)).
Proof.
  intros Heq Hne Hv Hok. revert part Heq. induction rest as [|byte rest IH]; [done|].
  intros part Heq. cbn [bytewise]. rewrite recv_header_byte.
  destruct (varint_spec session_id Hv) as (_ & _ & Hread).
  destruct (decide (rest = [])) as [->|Hrest].
  - rewrite Heq, <- (app_nil_r (varint session_id)), Hread, Hok. by exists 0%nat.
  - assert (Herr : exists e, read_varint (part ++ [byte]) = Err e).
    { pose proof (Hread []) as Hr. destruct (read_varint_inv _ _ _ Hr) as (b & enc & He & Hb & Hlen).
      rewrite !app_nil_r in He. subst enc. eexists. apply (read_varint_short b (varint session_id)); try done.
      - exists rest. by rewrite <- Heq, <- app_assoc.
      - intros Hsame. rewrite <- Hsame in Heq. apply app_inv_head in Heq.
        by injection Heq as ->. }
    destruct Herr as [e ->]. destruct (IH Hrest (part ++ [byte])) as [n Hn]; [by rewrite <- app_assoc|].
    cbn [mbind option_bind]. rewrite Hn. by exists (S n).
Qed.

(** The type of a WebTransport stream is two bytes, of a unidirectional or a
    bidirectional stream. *)
Lemma recv_stream_type h i c :
  streams h !! i = Some H3Stream.default_stream ->
  bytewise h i c (varint (if is_unidirectional_stream i then H3_STREAM_TYPE_WEBTRANSPORT
                          else H3_FRAME_TYPE_WT_STREAM))
    = Some (with_stream_state h i (wt_stream []), [],
            [Effect.ReceiveQuicData i 1; Effect.ReceiveQuicData i 1]).
Proof.
  intros Hs. set (s1 := H3Stream.default_stream <| H3Stream.buffer := [x40] |>).
  assert (Hw : without (with_stream_state h i s1) i = without h i).
  { unfold without, with_stream_state. cbn. rewrite delete_insert_id by apply lookup_delete_eq.
    by destruct h. }
  assert (Hl : streams (with_stream_state h i s1) !! i = Some s1) by apply lookup_insert_eq.
  assert (H1 : handle_transport_event h (ProtocolEvent.TransportStreamDataReceived i [x40] false) c
    = Some (with_stream_state h i s1, [], [Effect.ReceiveQuicData i 1])).
  { unfold handle_transport_event, dispatch, recv_unidirectional_stream_data, recv_request_data,
      take_stream. rewrite Hs. by destruct (is_unidirectional_stream i). }
  assert (H2 : forall byte, byte = (if is_unidirectional_stream i then x54 else x41) ->
    handle_transport_event (with_stream_state h i s1)
      (ProtocolEvent.TransportStreamDataReceived i [byte] false) c
    = Some (with_stream_state h i (wt_stream []), [], [Effect.ReceiveQuicData i 1])).
  { intros byte ->. unfold handle_transport_event, dispatch, recv_unidirectional_stream_data,
      recv_request_data, take_stream. rewrite Hl. change (default _ (Some ?s)) with s.
    cbv beta iota zeta. fold (without (with_stream_state h i s1) i). rewrite Hw.
    by destruct (is_unidirectional_stream i). }
  destruct (is_unidirectional_stream i) eqn:Hu.
  - change (varint H3_STREAM_TYPE_WEBTRANSPORT) with [x40; x54]. cbn [bytewise]. rewrite H1.
    cbn [mbind option_bind]. by rewrite H2.
  - change (varint H3_FRAME_TYPE_WT_STREAM) with [x40; x41]. cbn [bytewise]. rewrite H1.
    cbn [mbind option_bind]. by rewrite H2.
Qed.

Lemma bytewise_app h i c d1 d2 :
  bytewise h i c (d1 ++ d2) =
    ('(h1, ev1, ef1) ← bytewise h i c d1;
     '(h2, ev2, ef2) ← bytewise h1 i c d2;
     Some (h2, ev1 ++ ev2, ef1 ++ ef2)).
Proof.
  revert h. induction d1 as [|byte d1 IH]; intros h; cbn [app bytewise].
  - cbn. by destruct (bytewise h i c d2) as [[[? ?] ?]|].
  - destruct (handle_transport_event _ _ _) as [[[h1 ev1] ef1]|]; [|done]. cbn. rewrite IH.
    destruct (bytewise h1 i c d1) as [[[h2 ev2] ef2]|]; [|done]. cbn.
    destruct (bytewise h2 i c d2) as [[[h3 ev3] ef3]|]; [|done]. cbn. by rewrite !app_assoc.
Qed.

(** The session a stream or a datagram belongs to survives the wire: the header
    written at the start of a stream, read byte by byte as the layer asks, opens
    exactly that stream of that session and takes not one byte of the payload; a
    datagram is delivered to its session with its payload.  And no datagram is
    ever delivered to an identifier that cannot name a session. *)
Theorem h3_session_id_roundtrip h i c session_id data :
  streams h !! i = Some H3Stream.default_stream -> is_varint session_id ->
  is_valid_session_id session_id = true ->
  (exists header n,
     encode_stream_header i session_id (is_unidirectional_stream i)
       = [Effect.SendQuicData i header false]
     /\ bytewise h i c header
        = Some (without h i, [ProtocolEvent.H3WebTransportStreamOpened session_id i],
                replicate n (Effect.ReceiveQuicData i 1)))
  /\ (exists header, encode_datagram session_id data = Ok [header; data]
      /\ recv_datagram (header ++ data) = Ok [ProtocolEvent.H3DatagramReceived session_id data])
  /\ (forall wire events, recv_datagram wire = Ok events ->
      exists id payload, events = [ProtocolEvent.H3DatagramReceived id payload]
        /\ is_valid_session_id id = true /\ is_varint id).
Proof.
  intros Hs Hv Hok. split_and!.
  - set (ty := if is_unidirectional_stream i then H3_STREAM_TYPE_WEBTRANSPORT
               else H3_FRAME_TYPE_WT_STREAM).
    destruct (recv_session_id h i c [] (varint session_id) session_id) as [n Hn]; try done.
    { intros E. pose proof (varint_len_pos _ Hv). rewrite E in *. unfold len in *. simpl in *. lia. }
    exists (varint ty ++ varint session_id), (2 + n)%nat. split.
    + unfold encode_stream_header. fold ty.
      assert (Ht : is_varint ty) by (subst ty; by destruct (is_unidirectional_stream i)).
      pose proof (put_varint_ok [] ty Ht) as H1.
      pose proof (put_varint_ok (varint ty) session_id Hv) as H2. unfold put_varint in H1, H2.
      destruct (write_varint [] ty); [|done]. injection H1 as ->. cbn [app].
      destruct (write_varint (varint ty) session_id); [|done]. by injection H2 as ->.
    + rewrite bytewise_app. unfold ty. rewrite recv_stream_type by done. cbn [mbind option_bind].
      by rewrite Hn.
  - exists (varint (session_id / 4)). pose proof Hok as Hm. apply is_valid_session_id_spec in Hm.
    assert (Hq : is_varint (session_id / 4))
      by (unfold is_varint, QUIC_VARINT_LIMIT in *; split; divlia).
    unfold encode_datagram. rewrite Hok. cbn [negb]. rewrite put_varint_ok by done.
    split; [done|]. unfold recv_datagram. rewrite read_varint_ok by done.
    assert (Hmul : u64_mul (session_id / 4) 4 = session_id).
    { rewrite u64_mul_small; [divlia|]. unfold is_varint, QUIC_VARINT_LIMIT, U64_MAX in *. divlia. }
    rewrite Hmul. destruct (QUIC_VARINT_LIMIT <? session_id) eqn:E; [|done].
    bool_to_prop. unfold is_varint in Hv. lia.
  - intros wire events. unfold recv_datagram.
    destruct (read_varint wire) as [[q rest]|] eqn:Hr; [|done].
    apply read_varint_range in Hr.
    assert (Hmul : u64_mul q 4 = q * 4)
      by (apply u64_mul_small; unfold QUIC_VARINT_LIMIT, U64_MAX in *; lia).
    rewrite Hmul. destruct (QUIC_VARINT_LIMIT <? q * 4) eqn:E; [done|]. bool_to_prop.
    intros [= <-]. exists (q * 4), rest. split_and!; [done| |unfold is_varint; lia].
    apply is_valid_session_id_spec. by apply Z.mod_mul.
Qed.

End H3C.

(** ** Examples *)

Import Literal H3T.

Definition example_connection : Connection.t :=
  (Connection.recv_transport_parameters (WebTransportEngine.connection example_server) 1200).1.

(** A client before its local streams are bound, a server with stream 2 open. *)
Definition example_client : H3.t :=
  H3.new true (EngineParameters.h3_parameters example_parameters).

Definition example_waiting : H3.t :=
  let h := WebTransportEngine.h3 example_server in
  h <| H3.streams := {[ 2 := H3Stream.default_stream ]} |>.

Lemma h3_settings_exchange_witness : exists frame b1 b2 ef,
  H3.handle_transport_event example_waiting
    (ProtocolEvent.TransportStreamDataReceived 2 [x00] false) example_connection
    = Some (b1, [], [Effect.ReceiveQuicData 2 U64_MAX])
  /\ H3.handle_transport_event b1
       (ProtocolEvent.TransportStreamDataReceived 2 frame false) example_connection
    = Some (b2, [ProtocolEvent.H3SettingsReceived (H3.local_settings example_client)], ef).
Proof.
  destruct (@h3_settings_exchange literal (fun _ _ _ => eq_refl) example_client example_waiting
    example_connection 2 6 10 (S754_zero false)) as (a' & frame & b1 & b2 & ef & _ & H1 & H2 & _).
  - split; cbv; split; congruence.
  - reflexivity.
  - reflexivity.
  - reflexivity.
  - repeat constructor.
  - rewrite !NoDup_cons, !elem_of_cons, !elem_of_nil. split_and!; [lia|lia|tauto|by apply NoDup_nil].
  - split_and!; done.
  - reflexivity.
  - exists frame, b1, b2, ef. split; [exact H1|exact H2].
Defined.

(** A DRAIN capsule, cut in the middle of its header. *)
Lemma h3_capsule_roundtrip_witness : exists ef,
  H3R.reads example_session 0 [[x00; x05; x80]; [x00; x78; xae; x00]]
    = Some (example_session,
            Ok ([ProtocolEvent.H3CapsuleReceived 0 WT_CAPSULE_TYPE_DRAIN_SESSION []], ef))
  /\ H3R.acts ef = [].
Proof.
  apply (h3_capsule_roundtrip literal_never_blocks example_session 0 example_connect
    WT_CAPSULE_TYPE_DRAIN_SESSION [] [[x00; x05]; [x80; x00; x78; xae; x00]; []]
    [x00; x05; x80] [[x00; x78; xae; x00]]).
  - reflexivity.
  - unfold WT_CAPSULE_TYPE_DRAIN_SESSION. lia.
  - reflexivity.
  - exact example_session_reading.
  - split_and!; reflexivity.
  - discriminate.
Defined.

Lemma h3_session_id_roundtrip_witness : exists header n,
  H3.encode_stream_header 2 64 true = [Effect.SendQuicData 2 header false]
  /\ H3C.bytewise example_waiting 2 example_connection header
    = Some (H3R.without example_waiting 2, [ProtocolEvent.H3WebTransportStreamOpened 64 2],
            replicate n (Effect.ReceiveQuicData 2 1)).
Proof.
  exact (proj1 (h3_session_id_roundtrip example_waiting 2 example_connection 64 [] eq_refl
    ltac:(unfold is_varint, QUIC_VARINT_LIMIT; lia) eq_refl)).
Defined.

End H3C.
