(* ===== verification/H3Headers.v ===== *)
(** * Field sections

    The validation of request headers against what HTTP/3 (RFC 9114, sections 4.2
    and 4.3.1) and extended CONNECT (RFC 9220) ask of a request. *)

From S2P Require Import Prelude.
From S2P Require Import Types.
From S2P Require Import Events.
From S2P Require Import Utils.
From S2P Require Import UtilsProps.
From S2P Require Import Qpack.
From S2P Require Import SessionMachine.
From S2P Require Import ConnectionMachine.
From S2P Require Import H3Machine.
Import utils h3.

Module H3H.

Definition pseudo_names : list bytes :=
  [b: ":method"; b: ":scheme"; b: ":authority"; b: ":path"; b: ":protocol"].

(** The values of the [host] fields. *)
Definition hosts_of (hs : Headers) : list bytes :=
  snd <$> filter (fun h => h.1 = b: "host") hs.

(** A field of its own: well formed and not about the connection. *)
Definition field_ok (h : bytes * bytes) : Prop :=
  is_valid_header h.1 h.2 = true /\ is_connection_specific_header h.1 h.2 true = false.

(** Pseudo-headers come first, each at most once, and only those of a request. *)
Definition ordered (hs : Headers) : Prop :=
  exists pseudo regular, hs = pseudo ++ regular
    /\ Forall (fun h => h.1 ∈ pseudo_names) pseudo /\ NoDup pseudo.*1
    /\ Forall (fun h => starts_with_colon h.1 = false) regular.

(** The pseudo-headers of a CONNECT request name an authority only; any other
    request has a method, a scheme and a path, and a protocol (extended CONNECT)
    goes with the method CONNECT. *)
Definition pseudo_ok (hs : Headers) : Prop :=
  let get := find_header hs in
  (get (b: ":method") = Some (b: "CONNECT") /\ get (b: ":protocol") = None
   /\ (exists a, get (b: ":authority") = Some a /\ a <> [])
   /\ get (b: ":scheme") = None /\ get (b: ":path") = None)
  \/ (is_Some (get (b: ":method")) /\ is_Some (get (b: ":scheme")) /\ is_Some (get (b: ":path"))
      /\ (is_Some (get (b: ":protocol")) <-> get (b: ":method") = Some (b: "CONNECT"))).

(** The path is made of visible characters. *)
Definition path_ok (hs : Headers) : Prop :=
  forall path, find_header hs (b: ":path") = Some path ->
  Forall (fun byte => is_ascii_graphic byte = true) path.

(** With an http or https scheme, the authority is there and not empty, in
    [:authority] (with which [host] agrees) or in [host], and the path is absolute,
    or the asterisk of OPTIONS. *)
Definition origin_ok (hs : Headers) : Prop :=
  let get := find_header hs in
  get (b: ":scheme") = Some (b: "http") \/ get (b: ":scheme") = Some (b: "https") ->
  ((exists a, get (b: ":authority") = Some a /\ a <> [] /\ (hosts_of hs = [] \/ hosts_of hs = [a]))
   \/ get (b: ":authority") = None /\ hosts_of hs <> [] /\ Forall (fun host => host <> []) (hosts_of hs))
  /\ exists path, get (b: ":path") = Some path
     /\ (head path = Some x2f
         \/ path = b: "*" /\ get (b: ":method") = Some (b: "OPTIONS")).

Record valid_request (hs : Headers) : Prop := {
  vr_fields : Forall field_ok hs;
  vr_ordered : ordered hs;
  vr_pseudo : pseudo_ok hs;
  vr_path : path_ok hs;
  vr_origin : origin_ok hs;
}.

(** ** The variables of the loop *)

(** The value collected for a pseudo-header. *)
Definition get (f : request_fields) (key : bytes) : option bytes :=
  match pseudo_header f key with Some (value, _) => value | None => None end.

Lemma pseudo_header_names f key :
  is_Some (pseudo_header f key) <-> key ∈ pseudo_names.
Proof.
  unfold pseudo_names. rewrite !elem_of_cons, elem_of_nil. unfold pseudo_header. destruct f.
  repeat (case_bool_decide; [split; [by tauto|by eexists]|]).
  split; [by intros [? ?]|tauto].
Qed.

Lemma pseudo_header_replace f key previous replace value :
  pseudo_header f key = Some (previous, replace) ->
  get f key = previous /\ get (replace value) key = Some value
  /\ (forall k, k <> key -> get (replace value) k = get f k)
  /\ after_pseudo (replace value) = after_pseudo f /\ hosts (replace value) = hosts f.
Proof.
  intros Hp. unfold get. rewrite Hp. split; [done|]. revert Hp. unfold pseudo_header. destruct f.
  repeat (case_bool_decide; [intros [= <- <-]; subst key; split_and!; try done;
    intros k Hk; repeat case_bool_decide; congruence|]). done.
Qed.

Lemma get_fields f :
  get f (b: ":method") = method f /\ get f (b: ":scheme") = scheme f
  /\ get f (b: ":authority") = authority f /\ get f (b: ":path") = path f
  /\ get f (b: ":protocol") = protocol f.
Proof. by destruct f. Qed.

Lemma pseudo_name_colon key : key ∈ pseudo_names -> starts_with_colon key = true.
Proof.
  unfold pseudo_names. rewrite !elem_of_cons, elem_of_nil. intros Hk.
  destruct_or! Hk; try subst key; done.
Qed.

(** A field that is not a pseudo-header. *)
Definition add_regular (f : request_fields) (h : bytes * bytes) : request_fields :=
  let 'RequestFields _ m s a p pr hs := f in
  RequestFields true m s a p pr (if bool_decide (h.1 = b: "host") then hs ++ [h.2] else hs).

Lemma request_field_cases f key value :
  request_field f key value =
    if bool_decide (field_ok (key, value)) then
      if starts_with_colon key then
        match pseudo_header f key with
        | Some (None, replace) => if after_pseudo f then None else Some (replace value)
        | _ => None
        end
      else Some (add_regular f (key, value))
    else None.
Proof.
  unfold request_field. destruct (is_valid_header key value) eqn:Hv; cbn [negb orb].
  - destruct (is_connection_specific_header key value true) eqn:Hc.
    + rewrite bool_decide_false; [done|]. intros [_ Hc']. cbn in Hc'. congruence.
    + rewrite (bool_decide_true (field_ok (key, value))) by (by split). destruct (starts_with_colon key); [|by destruct f].
      destruct (pseudo_header f key) as [[[prev|] replace]|]; try done.
      * by rewrite orb_true_r.
      * by rewrite orb_false_r.
  - rewrite bool_decide_false; [done|]. intros [Hv' _]. cbn in Hv'. congruence.
Qed.

Lemma add_regular_spec f h :
  (forall k, get (add_regular f h) k = get f k) /\ after_pseudo (add_regular f h) = true
  /\ hosts (add_regular f h) = hosts f ++ hosts_of [h].
Proof.
  destruct f, h as [key value]. split_and!; [|done|].
  - intros k. unfold get, pseudo_header. cbn. by repeat case_bool_decide.
  - unfold hosts_of. cbn [hosts add_regular fst snd]. case_bool_decide as E.
    + by rewrite filter_cons_True.
    + rewrite filter_cons_False by done. cbn. by rewrite app_nil_r.
Qed.

Lemma hosts_of_cons h hs : hosts_of (h :: hs) = hosts_of [h] ++ hosts_of hs.
Proof. unfold hosts_of. change (h :: hs) with ([h] ++ hs). by rewrite filter_app, fmap_app. Qed.

Lemma pseudo_not_host h : h.1 ∈ pseudo_names -> hosts_of [h] = [].
Proof.
  intros Hp%pseudo_name_colon. unfold hosts_of. rewrite filter_cons_False; [done|].
  intros E. rewrite E in Hp. done.
Qed.

(** What a run of the loop collects, and what it accepts. *)
Definition collects (f : request_fields) (hs : Headers) (f' : request_fields) : Prop :=
  (forall k, k ∈ pseudo_names ->
     get f' k = match get f k with Some v => Some v | None => find_header hs k end)
  /\ hosts f' = hosts f ++ hosts_of hs.

Definition accepted (f : request_fields) (hs : Headers) : Prop :=
  Forall field_ok hs
  /\ exists pseudo regular, hs = pseudo ++ regular
    /\ Forall (fun h => h.1 ∈ pseudo_names) pseudo /\ NoDup pseudo.*1
    /\ (forall k, k ∈ pseudo.*1 -> get f k = None)
    /\ (after_pseudo f = true -> pseudo = [])
    /\ Forall (fun h => starts_with_colon h.1 = false) regular.

Lemma request_fields_sound f hs f' :
  request_fields_of f hs = Some f' -> accepted f hs /\ collects f hs f'.
Proof.
  revert f. induction hs as [|[key value] hs IH]; intros f.
  { intros [= <-]. split.
    - split; [done|]. exists [], []. split_and!; try done; [by apply NoDup_nil|].
      intros k Hk. by apply not_elem_of_nil in Hk.
    - split; [intros k _; by destruct (get f k)|]. by rewrite app_nil_r. }
  cbn [request_fields_of]. rewrite request_field_cases. case_bool_decide as Hok; [|done].
  destruct (starts_with_colon key) eqn:Hcolon.
  - destruct (pseudo_header f key) as [[[prev|] replace]|] eqn:Hp; [done| |done].
    destruct (after_pseudo f) eqn:Haf; [done|]. cbn [mbind option_bind]. intros Hrun.
    destruct (pseudo_header_replace _ _ _ _ value Hp) as (Hget & Hset & Hother & Hafter & Hhosts).
    assert (Hname : key ∈ pseudo_names) by (apply (pseudo_header_names f); by eexists).
    destruct (IH _ Hrun) as [[Hall (ps & rs & -> & Hps & Hnd & Hnone & Hap & Hrs)] [Hcol Hho]].
    split; [split; [by apply Forall_cons|]|split].
    + exists ((key, value) :: ps), rs. split_and!; try done.
      * by apply Forall_cons.
      * cbn. apply NoDup_cons. split; [|done]. intros Hin%Hnone. congruence.
      * cbn. intros k [->|Hin]%elem_of_cons; [done|].
        destruct (decide (k = key)) as [->|Hne]; [done|]. rewrite <- Hother by done. by apply Hnone.
      * congruence.
    + intros k Hk. rewrite (Hcol k Hk). cbn [find_header]. case_bool_decide as E.
      * subst k. by rewrite Hset, Hget.
      * by rewrite Hother by congruence.
    + rewrite Hho, Hhosts, hosts_of_cons, pseudo_not_host by done. done.
  - cbn [mbind option_bind]. intros Hrun.
    destruct (add_regular_spec f (key, value)) as (Hget & Hafter & Hhosts).
    destruct (IH _ Hrun) as [[Hall (ps & rs & -> & Hps & Hnd & Hnone & Hap & Hrs)] [Hcol Hho]].
    rewrite (Hap Hafter) in *. split; [split; [by apply Forall_cons|]|split].
    + exists [], ((key, value) :: rs). split_and!; try done; [|by apply Forall_cons].
      intros k Hk. by apply not_elem_of_nil in Hk.
    + intros k Hk. rewrite (Hcol k Hk), Hget. cbn [find_header app].
      rewrite bool_decide_false; [done|]. intros ->. apply pseudo_name_colon in Hk. congruence.
    + rewrite Hho, Hhosts, (hosts_of_cons _ rs), <- app_assoc. done.
Qed.

Lemma request_fields_complete f hs : accepted f hs -> is_Some (request_fields_of f hs).
Proof.
  intros [Hall (ps & rs & -> & Hps & Hnd & Hnone & Hap & Hrs)].
  revert f Hnone Hap. induction ps as [|[key value] ps IH]; intros f Hnone Hap; cbn [app] in *.
  - clear Hap. revert f Hnone. induction rs as [|[key value] rs IHr]; intros f Hnone; [by eexists|].
    apply Forall_cons in Hall as [Hok Hall]. apply Forall_cons in Hrs as [Hcolon Hrs]. cbn in Hcolon.
    cbn [request_fields_of]. rewrite request_field_cases, bool_decide_true, Hcolon by done.
    cbn [mbind option_bind]. apply IHr; [done|done|]. intros k Hk. by apply not_elem_of_nil in Hk.
  - apply Forall_cons in Hall as [Hok Hall]. apply Forall_cons in Hps as [Hname Hps]. cbn in Hname, Hnd.
    apply NoDup_cons in Hnd as [Hfresh Hnd].
    cbn [request_fields_of]. rewrite request_field_cases, bool_decide_true by done.
    rewrite (pseudo_name_colon key) by done.
    destruct (after_pseudo f) eqn:Haf; [by specialize (Hap eq_refl)|].
    destruct (proj2 (pseudo_header_names f key) Hname) as [[prev replace] Hp].
    destruct (pseudo_header_replace _ _ _ _ value Hp) as (Hget & Hset & Hother & Hafter & Hhosts).
    rewrite (Hnone key) in Hget by (cbn; left). subst prev. rewrite Hp. cbn [mbind option_bind].
    apply IH; [done..| |].
    + intros k Hk. rewrite Hother by (intros ->; done). apply Hnone. cbn. by right.
    + congruence.
Qed.

(** ** The checks after the loop *)

Section checks.
Context (hs : Headers) (f : request_fields) (Hcol : collects no_fields hs f).

Lemma collected :
  method f = find_header hs (b: ":method") /\ scheme f = find_header hs (b: ":scheme")
  /\ authority f = find_header hs (b: ":authority") /\ path f = find_header hs (b: ":path")
  /\ protocol f = find_header hs (b: ":protocol") /\ hosts f = hosts_of hs.
Proof.
  destruct Hcol as [Hget Hhosts]. destruct (get_fields f) as (<- & <- & <- & <- & <-).
  split_and!; [..|done]; apply Hget; unfold pseudo_names; rewrite !elem_of_cons; tauto.
Qed.

Lemma is_valid_pseudo_spec : is_valid_pseudo f = true <-> pseudo_ok hs.
Proof.
  destruct collected as (Hm & Hs & Ha & Hp & Hpr & _).
  unfold is_valid_pseudo, pseudo_ok. rewrite Hm, Hs, Ha, Hp, Hpr.
  generalize (find_header hs (b: ":method")) (find_header hs (b: ":scheme"))
    (find_header hs (b: ":authority")) (find_header hs (b: ":path"))
    (find_header hs (b: ":protocol")). intros m s a p pr.
  destruct m as [m|]; [|split; [done|intros [[? _]|[[? ?] _]]; done]].
  destruct pr as [pr|], (decide (m = b: "CONNECT")) as [->|Hne].
  - rewrite bool_decide_true by done. rewrite andb_true_iff, !bool_decide_eq_true.
    split; [intros [? ?]; right; split_and!; done|naive_solver].
  - rewrite bool_decide_false by done. split; [done|]. intros [(_ & ? & _)|(_ & _ & _ & [E _])]; [done|].
    assert (Some m = Some (b: "CONNECT")) by (apply E; by eexists). congruence.
  - rewrite bool_decide_true by done. rewrite !andb_true_iff, !negb_true_iff, !bool_decide_eq_false.
    rewrite <- !eq_None_not_Some. split.
    + intros [[Hau ?] ?]. left. split_and!; try done. destruct a as [a|]; [|done].
      exists a. split; [done|]. by apply negb_true_iff, bool_decide_eq_false in Hau.
    + intros [(_ & _ & (au & -> & Hau) & -> & ->)|(_ & _ & _ & [_ E])].
      * split; [split; [|done]|done]. by apply negb_true_iff, bool_decide_eq_false.
      * destruct (E eq_refl). done.
  - rewrite bool_decide_false by done. rewrite andb_true_iff, !bool_decide_eq_true. split.
    + intros [? ?]. right. split_and!; [by eexists|done|done|]. split; [by intros [? ?]|congruence].
    + intros [(? & _)|(_ & ? & ? & _)]; [congruence|done].
Qed.

Lemma is_valid_path_spec : is_valid_path f = true <-> path_ok hs.
Proof.
  destruct collected as (_ & _ & _ & Hp & _). unfold is_valid_path, path_ok. rewrite Hp.
  destruct (find_header hs (b: ":path")) as [p|]; [|done]. rewrite forallb_forall. split.
  - intros Hall ? [= <-]. apply Forall_forall. intros x Hx. by apply Hall, list_elem_of_In.
  - intros Hall x Hx. specialize (Hall p eq_refl). rewrite Forall_forall in Hall.
    by apply Hall, list_elem_of_In.
Qed.

Lemma is_valid_authority_spec :
  is_valid_authority f = true <->
  (exists a, find_header hs (b: ":authority") = Some a /\ a <> [] /\ (hosts_of hs = [] \/ hosts_of hs = [a]))
  \/ find_header hs (b: ":authority") = None /\ hosts_of hs <> []
     /\ Forall (fun host => host <> []) (hosts_of hs).
Proof.
  destruct collected as (_ & _ & Ha & _ & _ & Hh). unfold is_valid_authority. rewrite Ha, Hh.
  destruct (find_header hs (b: ":authority")) as [a|].
  - destruct (hosts_of hs) as [|host [|h2 hosts']].
    + rewrite negb_true_iff, bool_decide_eq_false. naive_solver.
    + rewrite andb_true_iff, negb_true_iff, bool_decide_eq_false, bool_decide_eq_true. naive_solver.
    + split; [done|]. intros [(? & _ & _ & [?|?])|(? & _)]; done.
  - destruct (hosts_of hs) as [|host hosts'].
    + split; [done|]. intros [(? & ? & _)|(_ & ? & _)]; done.
    + rewrite forallb_forall, Forall_forall. split.
      * intros Hall. right. split_and!; [done..|]. intros x Hx. apply list_elem_of_In in Hx.
        by apply Hall, negb_true_iff, bool_decide_eq_false in Hx.
      * intros [(? & ? & _)|(_ & _ & Hall)]; [done|]. intros x Hx.
        by apply negb_true_iff, bool_decide_eq_false, Hall, list_elem_of_In.
Qed.

Lemma is_origin_path_spec :
  is_origin_path f = true <->
  exists path, find_header hs (b: ":path") = Some path
     /\ (head path = Some x2f
         \/ path = b: "*" /\ find_header hs (b: ":method") = Some (b: "OPTIONS")).
Proof.
  destruct collected as (Hm & _ & _ & Hp & _). unfold is_origin_path. rewrite Hp, Hm.
  destruct (find_header hs (b: ":path")) as [p|]; [|split; [done|by intros (? & ? & _)]].
  rewrite orb_true_iff, andb_true_iff, !bool_decide_eq_true.
  assert (Hhead : match p with [] => false | byte :: _ => bool_decide (byte = x2f) end = true
    <-> head p = Some x2f).
  { destruct p as [|byte p]; [done|]. rewrite bool_decide_eq_true. cbn. naive_solver. }
  rewrite Hhead. naive_solver.
Qed.

Definition checks : bool :=
  is_valid_pseudo f && is_valid_path f
  && (negb (bool_decide (scheme f = Some (b: "http")) || bool_decide (scheme f = Some (b: "https")))
      || is_valid_authority f && is_origin_path f).

Lemma checks_spec : checks = true <-> pseudo_ok hs /\ path_ok hs /\ origin_ok hs.
Proof.
  unfold checks. rewrite !andb_true_iff, is_valid_pseudo_spec, is_valid_path_spec.
  destruct collected as (_ & Hsc & _). rewrite Hsc.
  rewrite orb_true_iff, negb_true_iff, orb_false_iff, !bool_decide_eq_false, andb_true_iff.
  rewrite is_valid_authority_spec, is_origin_path_spec. unfold origin_ok.
  destruct (decide (find_header hs (b: ":scheme") = Some (b: "http"))),
    (decide (find_header hs (b: ":scheme") = Some (b: "https"))); tauto.
Qed.

End checks.

(** The headers of a request are accepted exactly when they make a well-formed
    request: every field valid and none about the connection, the pseudo-headers
    first, known and not repeated, the right ones for the method (CONNECT, extended
    CONNECT or another), a visible path, and for http and https an authority and an
    absolute path.  Anything else is a message error of that stream. *)
Theorem h3_request_headers_validated i hs :
  (validate_request_headers i hs = Ok () <-> valid_request hs)
  /\ (~ valid_request hs ->
      validate_request_headers i hs =
        Err (WebTransportError.Stream i (Some ERR_H3_MESSAGE_ERROR) (b: "h3_headers validate invalid"))).
Proof.
  assert (Hnone : forall k, get no_fields k = None).
  { intros k. unfold get, pseudo_header, no_fields. by repeat case_bool_decide. }
  assert (Hacc : accepted no_fields hs <-> Forall field_ok hs /\ ordered hs).
  { unfold accepted, ordered. split.
    - intros [Ha (ps & rs & ? & ? & ? & _ & _ & ?)]. split; [done|]. by exists ps, rs.
    - intros [Ha (ps & rs & ? & ? & ? & ?)]. split; [done|]. exists ps, rs. by split_and!. }
  assert (Hcases : validate_request_headers i hs = Ok () /\ valid_request hs
    \/ validate_request_headers i hs = Err (invalid_headers i) /\ ~ valid_request hs).
  { destruct (request_fields_of no_fields hs) as [f|] eqn:Hf.
    - destruct (request_fields_sound _ _ _ Hf) as [[Hfo Hor]%Hacc Hcol].
      assert (Hrun : validate_request_headers i hs = if checks f then Ok () else Err (invalid_headers i)).
      { unfold validate_request_headers, checks. rewrite Hf.
        set (http := bool_decide (scheme f = Some (b: "http")) || bool_decide (scheme f = Some (b: "https"))).
        by destruct (is_valid_pseudo f), (is_valid_path f), http, (is_valid_authority f),
          (is_origin_path f). }
      rewrite Hrun. pose proof (checks_spec hs f Hcol) as Hch. destruct (checks f).
      + left. destruct (proj1 Hch eq_refl) as (? & ? & ?). by split.
      + right. split; [done|]. intros [_ _ ? ? ?]. by assert (false = true) by (by apply Hch).
    - right. split; [unfold validate_request_headers; by rewrite Hf|]. intros [Hfo Hor _ _ _].
      destruct (request_fields_complete no_fields hs) as [f Hf']; [by apply Hacc|]. congruence. }
  destruct Hcases as [[-> Hv]|[-> Hv]]; split; try done; by intros [].
Qed.

End H3H.
