(* ===== verification/H3Invariant.v ===== *)
(** * The streams of the HTTP/3 layer between two events

    An invariant of the streams [H3] keeps, and what it gives: every transport
    event is handled in finitely many steps, but for the end of a request stream. *)

From S2P Require Import Prelude.
From S2P Require Import Types.
From S2P Require Import Events.
From S2P Require Import Utils.
From S2P Require Import UtilsProps.
From S2P Require Import Qpack.
From S2P Require Import SessionMachine.
From S2P Require Import ConnectionMachine.
From S2P Require Import H3Machine.
From S2P Require Import H3Props.
From S2P Require Import H3Reads.
Import utils.

Module H3I.
Section H3I.
Context `{LsQpack}.
Import H3 H3P H3R.

(** A stream is between two frames or inside one with bytes to come, and waits
    for no QPACK instruction. *)
Definition at_ease (s : H3Stream.t) : Prop := framed s /\ H3Stream.blocked s = false.

Definition wf (h : t) : Prop := map_Forall (fun _ => at_ease) (streams h).

Lemma wf_frame h h' : streams h' = streams h -> wf h -> wf h'.
Proof. unfold wf. by intros ->. Qed.

Lemma wf_insert h h' i s :
  streams h' = <[i := s]> (streams h) -> at_ease s -> wf h -> wf h'.
Proof. unfold wf. intros -> ? ?. by apply map_Forall_insert_2. Qed.

Lemma wf_delete h h' i : streams h' = delete i (streams h) -> wf h -> wf h'.
Proof. unfold wf. intros -> ?. by apply map_Forall_delete. Qed.

Lemma wf_decoder h h' : only_decoder h h' -> wf h -> wf h'.
Proof. intros [d ->]. by apply wf_frame. Qed.

Lemma cleanup_stream_wf h i h' ef : wf h -> cleanup_stream h i = (h', ef) -> wf h'.
Proof.
  intros Hw. unfold cleanup_stream. destruct (Decoder.abandon_header_block _ _).
  intros [= <- <-]. by eapply wf_delete.
Qed.

Lemma stop_request_stream_wf h i h' ef : wf h -> stop_request_stream h i = (h', ef) -> wf h'.
Proof.
  intros Hw. unfold stop_request_stream. destruct (streams h !! i); [|by intros [= <- <-]].
  destruct (cleanup_stream h i) as [h1 more] eqn:Hc. intros [= <- <-]. by eapply cleanup_stream_wf.
Qed.

Lemma bind_connect_stream_wf h i : wf h -> wf (bind_connect_stream h i).1.
Proof. intros Hw. eapply wf_insert; [done|by split|done]. Qed.

Lemma bind_local_streams_wf h c e d : wf h -> wf (bind_local_streams h c e d).1.
Proof.
  intros Hw. unfold bind_local_streams, initialize_local_streams, set_local_stream_ids.
  destruct (initialize_settings h); [|done].
  destruct (negb _); [done|]. destruct (negb _); [done|]. destruct (negb _); [done|].
  destruct (_ || _); [done|]. destruct (_ || _); [done|].
  match goal with |- context [(_, ?r)] => destruct r as [[[? ?] ?]|] end; by eapply wf_frame.
Qed.

Lemma take_stream_wf h i data fin h' s :
  wf h -> take_stream h i data fin = (h', s) -> wf h' /\ at_ease s.
Proof.
  intros Hw. unfold take_stream. intros [= <- <-]. split; [by eapply wf_delete|].
  assert (at_ease (default H3Stream.default_stream (streams h !! i))).
  { destruct (streams h !! i) eqn:Hi; [by apply (Hw i)|by split]. }
  by destruct fin.
Qed.

Section never_blocks.
Context (never_blocks : forall d i data d' instructions,
  Decoder.decode_header d i data <> (d', Ok (instructions, DecodeStatus.Blocked))).

(** The invariant after a handler that ends. *)
Definition leaves_wf {A} (r : option (t * A)) : Prop := forall h' x, r = Some (h', x) -> wf h'.

Lemma parse_stream_header_wf h i s : wf h -> at_ease s -> wf (parse_stream_header h i s).1.
Proof.
  intros Hw Hs. unfold parse_stream_header. destruct (read_varint _) as [[k r]|].
  - by destruct (negb _).
  - destruct (H3Stream.ended s); [|by eapply wf_insert].
    destruct (cleanup_stream h i) eqn:Hc. by eapply cleanup_stream_wf.
Qed.

Lemma recv_request_frames_wf h i s :
  wf h -> at_ease s -> leaves_wf (recv_request_frames h i s).
Proof.
  intros Hw [Hf Hb] h' x. unfold recv_request_frames, parse_stream_data. rewrite Hb.
  destruct (parse_frames _ _ _ _ _ _ _) as [[h1 [[[s1 ev] ef]|e]]|] eqn:Hp; [| |done].
  - pose proof (parse_frames_framed _ _ _ _ _ _ _ _ _ _ _ Hf Hp) as Hf1.
    pose proof (parse_frames_unblocked never_blocks _ _ _ _ _ _ _ _ _ _ _ Hb Hp) as Hb1.
    apply parse_frames_keeps in Hp as [Hd _]. apply wf_decoder in Hd; [|done].
    destruct (_ && bool_decide _).
    + destruct (cleanup_stream h1 i) as [h2 more] eqn:Hc. intros [= <- <-].
      by eapply cleanup_stream_wf.
    + intros [= <- <-]. by eapply wf_insert.
  - apply parse_frames_keeps in Hp as [Hd _]. intros [= <- <-]. by eapply wf_decoder.
Qed.

Lemma recv_request_frames_total h i s :
  at_ease s -> H3Stream.ended s = false -> is_Some (recv_request_frames h i s).
Proof.
  intros [Hf Hb] He. unfold recv_request_frames, parse_stream_data. rewrite Hb, He.
  destruct (parse_frames_total (parse_fuel s) h i s [] []) as [[h1 r] Hr];
    [unfold parse_fuel; lia|done|]. rewrite Hr. destruct r as [[[s1 ev] ef]|]; [|by eexists].
  destruct (_ && bool_decide _); [|by eexists]. destruct (cleanup_stream h1 i). by eexists.
Qed.

Lemma recv_request_data_wf h i data fin : wf h -> leaves_wf (recv_request_data h i data fin).
Proof.
  intros Hw h' x. unfold recv_request_data. destruct (take_stream h i data fin) as [h1 s] eqn:Ht.
  apply take_stream_wf in Ht as [Hw1 Hs]; [|done].
  assert (Hh : forall s, at_ease s -> Some (parse_stream_header h1 i s) = Some (h', x) -> wf h').
  { intros s1 Hs1 [= Hp]. pose proof (parse_stream_header_wf h1 i s1 Hw1 Hs1). by rewrite Hp in *. }
  destruct (negb _ && _).
  - destruct (read_varint _) as [[ty rest]|].
    + destruct (ty =? _); [by apply Hh|]. destruct (is_client h1); [by intros [= <- <-]|].
      by apply recv_request_frames_wf.
    + destruct (H3Stream.ended s); [|intros [= <- <-]; by eapply wf_insert].
      destruct (cleanup_stream h1 i) eqn:Hc. intros [= <- <-]. by eapply cleanup_stream_wf.
  - case_bool_decide; [by apply Hh|]. by apply recv_request_frames_wf.
Qed.

(** No data follows the end of a stream. *)
Definition open_ended (h : t) (i : StreamId) : Prop :=
  forall s, streams h !! i = Some s -> H3Stream.ended s = false.

Lemma recv_request_data_total h i data :
  wf h -> open_ended h i -> is_Some (recv_request_data h i data false).
Proof.
  intros Hw He. unfold recv_request_data. destruct (take_stream h i data false) as [h1 s] eqn:Ht.
  assert (Hend : H3Stream.ended s = false).
  { unfold take_stream in Ht. injection Ht as _ <-. destruct (streams h !! i) eqn:Hi; [|done].
    exact (He _ Hi). }
  apply take_stream_wf in Ht as [Hw1 Hs]; [|done].
  destruct (negb _ && _).
  - destruct (read_varint _) as [[ty rest]|].
    + destruct (ty =? _); [by eexists|]. destruct (is_client h1); [by eexists|].
      by apply recv_request_frames_total.
    + rewrite Hend. by eexists.
  - case_bool_decide; [by eexists|]. by apply recv_request_frames_total.
Qed.

Lemma handle_control_frame_streams h ty data c :
  streams (handle_control_frame h ty data c).1 = streams h.
Proof.
  unfold handle_control_frame.
  destruct (negb _ && _); [done|]. destruct (ty =? _); [by destruct (h3.parse_push_id data)|].
  destruct (_ || _); [done|]. destruct (ty =? _); [done|].
  destruct (ty =? _).
  { destruct (is_client h); [done|]. destruct (h3.parse_push_id data); [|done].
    by destruct (exceeds _ _). }
  destruct (ty =? _); [|by destruct (ty =? _)].
  destruct (settings_received h); [done|]. destruct (h3.parse_settings data) as [s|]; [|done].
  destruct (h3.validate_settings s c); [|done].
  by destruct (Encoder.apply_settings _ _ _) as [enc [ins|]].
Qed.

Lemma parse_control_frames_streams fuel h b c ev ef :
  streams (parse_control_frames fuel h b c ev ef).1 = streams h.
Proof.
  revert h b ev ef. induction fuel as [|fuel IH]; intros h b ev ef; [done|].
  cbn [parse_control_frames]. case_bool_decide; [done|].
  destruct (read_varint b) as [[ty c1]|]; [|done]. destruct (read_varint c1) as [[n c2]|]; [|done].
  destruct (ty =? _); [done|]. destruct (negb _ && _); [done|]. cbv zeta. destruct (_ <? _); [done|].
  pose proof (handle_control_frame_streams h ty (take (Z.to_nat n) c2) c) as Hc.
  destruct (handle_control_frame _ _ _ _) as [h1 [[ev1 ef1]|]]; [|done]. by rewrite IH.
Qed.

(** Nothing is blocked, so no instruction of the peer's encoder resumes a stream. *)
Lemma resume_unblocked_idle ids h ev ef :
  wf h -> resume_unblocked h ids ev ef = Some (h, Ok (ev, ef)).
Proof.
  intros Hw. induction ids as [|i ids IH]; [done|]. cbn [resume_unblocked].
  destruct (streams h !! i) as [s|] eqn:Hi; [|done]. by rewrite (proj2 (Hw i s Hi)).
Qed.

Lemma keep_critical_stream_wf h i s ev ef :
  wf h -> at_ease s -> wf (keep_critical_stream h i s ev ef).1.
Proof.
  intros. unfold keep_critical_stream. destruct (H3Stream.ended s); [done|]. by eapply wf_insert.
Qed.

Lemma parse_stream_type_wf h i s :
  wf h -> at_ease s ->
  match parse_stream_type h i s with
  | Typed h' s' _ => wf h' /\ at_ease s'
  | Settled h' _ => wf h'
  end.
Proof.
  intros Hw Hs. unfold parse_stream_type. destruct (H3Stream.stream_type s); [done|].
  destruct (read_varint _) as [[ty rest]|].
  - assert (Hr : streams (register_peer_infrastructure_stream h i ty).1 = streams h).
    { unfold register_peer_infrastructure_stream. case_bool_decide; [done|].
      by repeat destruct (ty =? _); cbn; try case_bool_decide. }
    destruct (_ || _).
    { destruct (register_peer_infrastructure_stream _ _ _) as [h1 [|]];
        [split; [|done]|]; by eapply wf_frame. }
    destruct (ty =? _); [done|]. by destruct (ty =? _).
  - destruct (H3Stream.ended s); [|by eapply wf_insert].
    destruct (cleanup_stream h i) eqn:Hc. by eapply cleanup_stream_wf.
Qed.

(** A unidirectional stream is always read in finitely many steps. *)
Lemma recv_unidirectional_wf h i data fin c :
  wf h -> exists h' x, recv_unidirectional_stream_data h i data fin c = Some (h', x) /\ wf h'.
Proof.
  intros Hw. unfold recv_unidirectional_stream_data.
  destruct (take_stream h i data fin) as [h0 s0] eqn:Ht.
  apply take_stream_wf in Ht as [Hw0 Hs0]; [|done].
  pose proof (parse_stream_type_wf h0 i s0 Hw0 Hs0) as Hty.
  destruct (parse_stream_type h0 i s0) as [h1 s ty|h1 r1]; [|by eauto]. destruct Hty as [Hw1 Hs1].
  assert (Hk : forall h s ev ef, wf h -> at_ease s -> exists h' x,
    Some (keep_critical_stream h i s ev ef) = Some (h', x) /\ wf h').
  { intros h2 s2 ev ef H2 Hs2. pose proof (keep_critical_stream_wf h2 i s2 ev ef H2 Hs2).
    destruct (keep_critical_stream _ _ _ _ _). by eauto. }
  destruct (ty =? _).
  { destruct (H3Stream.ended s); [by eauto|].
    match goal with |- context [parse_control_frames ?f ?h ?b ?c [] []] =>
      pose proof (parse_control_frames_streams f h b c [] []) as Hc;
      destruct (parse_control_frames f h b c [] []) as [h2 [[[rest ev] ef]|]] end;
      apply wf_frame in Hc; try done; [by apply Hk|by eauto]. }
  destruct (ty =? _).
  { case_bool_decide; [by apply Hk|].
    destruct (Encoder.feed_decoder _ _) as [enc [u|]]; [by apply Hk; [eapply wf_frame|]|].
    eexists _, _. split; [done|by eapply wf_frame]. }
  destruct (ty =? _).
  { case_bool_decide; [by apply Hk|].
    destruct (Decoder.feed_encoder _ _) as [dec [u|]].
    - rewrite resume_unblocked_idle by by eapply wf_frame. by apply Hk; [eapply wf_frame|].
    - eexists _, _. split; [done|by eapply wf_frame]. }
  destruct (ty =? _); [|by apply Hk].
  pose proof (parse_stream_header_wf h1 i s Hw1 Hs1). destruct (parse_stream_header _ _ _). by eauto.
Qed.

(** The end of a request stream is read; it may be the end of a truncated frame. *)
Definition reads_end (h : t) (event : ProtocolEvent.t) : Prop :=
  match event with
  | ProtocolEvent.TransportStreamDataReceived i data true =>
      is_unidirectional_stream i = false -> is_Some (recv_request_data h i data true)
  | ProtocolEvent.TransportStreamDataReceived i data false => open_ended h i
  | _ => True
  end.

Lemma dispatch_wf h event c :
  wf h -> reads_end h event -> exists h' x, dispatch h event c = Some (h', x) /\ wf h'.
Proof.
  intros Hw Hre. unfold dispatch. destruct event; try (by eauto).
  - unfold recv_stream_reset. case_bool_decide; [by eauto|].
    destruct (cleanup_stream h stream_id) eqn:Hc. eexists _, _.
    split; [done|by eapply cleanup_stream_wf].
  - destruct (is_unidirectional_stream stream_id) eqn:Hu; [by apply recv_unidirectional_wf|].
    assert (Hd : is_Some (recv_request_data h stream_id data end_stream)).
    { destruct end_stream; [by apply Hre|by apply recv_request_data_total]. }
    destruct Hd as [[h' x] Hd]. exists h', x. split; [done|by eapply recv_request_data_wf].
  - eexists _, _. split; [done|]. eapply wf_insert; [done|by split|done].
Qed.

(** Every transport event is handled and keeps the invariant. *)
Lemma handle_transport_event_wf h event c :
  wf h -> reads_end h event ->
  exists h' ev ef, handle_transport_event h event c = Some (h', ev, ef) /\ wf h'.
Proof.
  intros Hw Hre. destruct (dispatch_wf h event c Hw Hre) as (h1 & x & Hd & Hw1).
  unfold handle_transport_event. rewrite Hd. cbn.
  destruct x as [[ev ef]|[code reason|code reason|i code reason|code reason]]; try (by eauto 6).
  destruct (cleanup_stream h1 i) eqn:Hc. eexists _, _, _. split; [done|by eapply cleanup_stream_wf].
Qed.

End never_blocks.
End H3I.
End H3I.
