(* ===== verification/EngineProps.v ===== *)
(** * The engine over its two components

    What the HTTP/3 layer contributes to a turn of the engine: events of its own
    kind only, with settings in range, and effects no request hangs on. *)

From S2P Require Import Prelude.
From S2P Require Import Types.
From S2P Require Import Events.
From S2P Require Import Utils.
From S2P Require Import UtilsProps.
From S2P Require Import Qpack.
From S2P Require Import SessionMachine.
From S2P Require Import ConnectionMachine.
From S2P Require Import ConnectionProps.
From S2P Require Import ConnectionRuns.
From S2P Require Import ConnectionSteps.
From S2P Require Import H3Machine.
From S2P Require Import H3Props.
From S2P Require Import H3Reads.
From S2P Require Import H3Wire.
From S2P Require Import EngineMachine.
Import utils.

(** An effect on the QUIC connection. *)
Definition wire_effect (e : Effect.t) : Prop :=
  match e with
  | Effect.SendQuicData _ _ _ | Effect.ReceiveQuicData _ _ | Effect.ResetQuicStream _ _
  | Effect.StopQuicStream _ _ | Effect.CloseQuicConnection _ _ => True
  | _ => False
  end.

(** Effects that answer no request and ask the transport for no stream. *)
Definition silent (effects : list Effect.t) : Prop :=
  answered effects = [] /\ ConnP.asked effects = [] /\ ConnR.connects effects = [].

Lemma wire_silent effects : Forall wire_effect effects -> silent effects.
Proof.
  unfold silent, answered, ConnP.asked, ConnR.connects.
  induction 1 as [|e effects He _ IH]; [done|]. by destruct e.
Qed.

(** An event of the HTTP/3 layer. *)
Definition h3_event (event : ProtocolEvent.t) : Prop :=
  match event with
  | ProtocolEvent.H3CapsuleReceived _ _ _ | ProtocolEvent.H3ConnectStreamClosed _
  | ProtocolEvent.H3DatagramReceived _ _ | ProtocolEvent.H3GoawayReceived
  | ProtocolEvent.H3HeadersReceived _ _ | ProtocolEvent.H3WebTransportStreamOpened _ _ => True
  | ProtocolEvent.H3SettingsReceived settings => ConnS.settings_ok settings
  | _ => False
  end.

Definition speaks (events : list ProtocolEvent.t) (effects : list Effect.t) : Prop :=
  Forall h3_event events /\ Forall wire_effect effects.

Lemma speaks_nil : speaks [] [].
Proof. by split. Qed.

Lemma speaks_app ev1 ev2 ef1 ef2 :
  speaks ev1 ef1 -> speaks ev2 ef2 -> speaks (ev1 ++ ev2) (ef1 ++ ef2).
Proof. intros [] []. split; by apply Forall_app. Qed.

Lemma speaks_events ev ef more : speaks ev ef -> Forall h3_event more -> speaks (ev ++ more) ef.
Proof. intros [] ?. split; [by apply Forall_app|done]. Qed.

Lemma speaks_effects ev ef more : speaks ev ef -> Forall wire_effect more -> speaks ev (ef ++ more).
Proof. intros [] ?. split; [done|by apply Forall_app]. Qed.

Create HintDb speaks.
#[export] Hint Resolve speaks_nil speaks_app speaks_events speaks_effects : speaks.

(** ** Settings *)

Definition settings_in_range (s : H3Settings.t) : Prop :=
  (forall id v f, h3.slot s id = Some (Some v, f) -> is_varint v).

Lemma add_setting_range s id v s' :
  settings_in_range s -> is_varint v -> h3.add_setting s id v = Ok s' -> settings_in_range s'.
Proof.
  intros Hs Hv. unfold h3.add_setting. destruct (h3.is_reserved_setting id); [done|].
  destruct (h3.slot s id) as [[[old|] fill]|] eqn:Hslot; [done| |].
  - intros [= <-] id' v' f' Hslot'. specialize (Hs id' v'). revert Hslot Hslot' Hs.
    unfold h3.slot. destruct s.
    repeat match goal with |- context [?x =? ?y] => destruct (x =? y) eqn:? end; try done;
      intros; simplify_eq; try done; eauto.
  - destruct (existsb _ _); [done|]. destruct s. intros [= <-] id' v' f' Hslot'.
    specialize (Hs id' v'). revert Hslot' Hs. unfold h3.slot.
    repeat match goal with |- context [?x =? ?y] => destruct (x =? y) eqn:? end; try done;
      intros; simplify_eq; eauto.
Qed.

Lemma parse_settings_range fuel cursor s count s' :
  settings_in_range s -> h3.parse_settings_loop fuel cursor s count = Ok s' ->
  settings_in_range s'.
Proof.
  revert cursor s count. induction fuel as [|fuel IH]; intros cursor s count Hs; cbn.
  { done. }
  case_bool_decide; [by intros [= <-]|].
  destruct (_ <=? _); [done|].
  destruct (read_varint cursor) as [[id c1]|]; [|done].
  destruct (read_varint c1) as [[v c2]|] eqn:Hv; [|done].
  destruct (h3.add_setting s id v) as [s1|] eqn:Ha; [|done].
  apply IH. eapply add_setting_range; [done| |done]. by apply read_varint_range in Hv.
Qed.

Lemma settings_range_ok s : settings_in_range s -> ConnS.settings_ok s.
Proof.
  unfold settings_in_range, h3.slot. intros Hs. destruct s. unfold ConnS.settings_ok; cbn in *.
  assert (forall v, is_varint v -> is_u64 v) as Hu.
  { unfold is_varint, is_u64, QUIC_VARINT_LIMIT, U64_MAX. lia. }
  split_and!; intros v ->.
  - by eapply (Hs SETTINGS_WT_INITIAL_MAX_DATA).
  - apply Hu. by eapply (Hs SETTINGS_WT_INITIAL_MAX_STREAMS_BIDI).
  - apply Hu. by eapply (Hs SETTINGS_WT_INITIAL_MAX_STREAMS_UNI).
Qed.

Lemma parsed_settings_ok data s : h3.parse_settings data = Ok s -> ConnS.settings_ok s.
Proof.
  intros Hp. apply settings_range_ok. eapply parse_settings_range, Hp. intros id v f.
  unfold h3.slot. by repeat destruct (_ =? _).
Qed.

Module EngineP.
Section EngineP.
Context `{LsQpack}.
Import H3 H3P.

(** ** What the HTTP/3 layer says *)

Lemma send_instructions_wire i data : Forall wire_effect (send_instructions i data).
Proof. destruct data, i; repeat constructor. Qed.
Hint Resolve send_instructions_wire : speaks.

Lemma cleanup_stream_wire h i : Forall wire_effect (cleanup_stream h i).2.
Proof. unfold cleanup_stream. destruct (Decoder.abandon_header_block _ _). apply send_instructions_wire. Qed.

Lemma cleanup_stream_eq h i h' ef : cleanup_stream h i = (h', ef) -> Forall wire_effect ef.
Proof. pose proof (cleanup_stream_wire h i) as Hw. intros E. by rewrite E in Hw. Qed.

Lemma stop_request_stream_wire h i : Forall wire_effect (stop_request_stream h i).2.
Proof.
  unfold stop_request_stream. destruct (streams h !! i); [|constructor].
  destruct (cleanup_stream h i) eqn:Hc. constructor; [done|by eapply cleanup_stream_eq].
Qed.

Lemma bind_local_streams_wire h c e d : Forall wire_effect (bind_local_streams h c e d).2.
Proof.
  unfold bind_local_streams. destruct (initialize_settings h); [|by repeat constructor].
  destruct (initialize_local_streams _ _ _ _ _) as [h' [[[? ?] ?]|]]; by repeat constructor.
Qed.

Lemma resume_request_stream_wire h i : Forall wire_effect (resume_request_stream h i).
Proof.
  unfold resume_request_stream. destruct (streams h !! i); [|constructor].
  destruct (_ || _); by repeat constructor.
Qed.

Lemma decode_headers_wire h i d h' headers ef :
  decode_headers h i d = (h', Ok (HeaderDecodeStatus.Done headers ef)) -> Forall wire_effect ef.
Proof.
  unfold decode_headers.
  match goal with |- context [let '(_, _) := ?x in _] => destruct x as [dec [[ins [|hs]]|e]] end;
    intros [= <- <- <-]; apply send_instructions_wire.
Qed.

Lemma parse_capsules_events fuel max i b ev rest ev' :
  Forall h3_event ev -> parse_capsules_loop fuel max i b ev = Ok (rest, ev') ->
  Forall h3_event ev'.
Proof.
  revert b ev. induction fuel as [|fuel IH]; intros b ev Hev; cbn; [by intros [= <- <-]|].
  case_bool_decide; [by intros [= <- <-]|].
  destruct (read_varint b) as [[ty c1]|]; [|by intros [= <- <-]].
  destruct (read_varint c1) as [[n c2]|]; [|by intros [= <- <-]].
  destruct (_ <? _); [done|]. destruct (_ <? _); [by intros [= <- <-]|].
  apply IH. apply Forall_app. by repeat constructor.
Qed.

Lemma handle_request_frame_speaks h i s ty d h' s' ev ef :
  handle_request_frame h i s ty d = (h', Ok (s', ev, ef)) -> speaks ev ef.
Proof.
  unfold handle_request_frame. destruct (_ || _); [done|].
  destruct (ty =? H3_FRAME_TYPE_DATA).
  { destruct (_ && _); [|intros [= <- <- <- <-]; auto with speaks].
    case_bool_decide; [intros [= <- <- <- <-]; auto with speaks|].
    unfold parse_capsules. destruct (parse_capsules_loop _ _ _ _ _) as [[rest ev1]|] eqn:Hp; [|done].
    intros [= <- <- <- <-]. split; [|done]. by eapply parse_capsules_events, Hp. }
  destruct (ty =? H3_FRAME_TYPE_HEADERS).
  - destruct (H3Stream.headers_processed s); [done|].
    destruct (decode_headers h i d) as [h1 [[|headers effects]|e]] eqn:Hd; cbn; [by intros [= <- <- <- <-]| |done].
    apply decode_headers_wire in Hd. destruct (if is_client h1 then _ else _); [|done].
    intros [= <- <- <- <-]. split; [by repeat constructor|done].
  - destruct (ty =? _); [done|]. destruct (ty =? _); [done|]. by intros [= <- <- <- <-].
Qed.

Definition says (it : iteration) : Prop :=
  match it with Break _ _ ev ef | Continue _ _ ev ef => speaks ev ef | Return _ _ => True end.

Lemma parse_frame_says h i s ended : says (parse_frame h i s ended).
Proof.
  assert (Hc : forall s, says (parse_frame_chunk h i s ended)).
  { clear s. intros s. unfold parse_frame_chunk.
    destruct (H3Stream.frame_type s) as [ty|]; [|apply speaks_nil].
    destruct (H3Stream.frame_size s) as [n|]; [|apply speaks_nil].
    cbv zeta. destruct (_ && _); [apply speaks_nil|].
    match goal with |- context [match ?r with _ => _ end] =>
      destruct r as [h1 [[[s1 ev1] ef1]|e]] eqn:Hr end; [|done].
    assert (speaks ev1 ef1).
    { destruct (if ty =? _ then _ else _); [by eapply handle_request_frame_speaks|].
      injection Hr as <- <- <- <-. apply speaks_nil. }
    by destruct (_ && negb ended). }
  unfold parse_frame. destruct (H3Stream.blocked s); [apply speaks_nil|].
  destruct (_ && _); [apply speaks_nil|]. destruct (H3Stream.frame_type s); [apply Hc|].
  destruct (parse_frame_header h i s) as [[s1|]|]; [apply Hc|apply speaks_nil|done].
Qed.

Lemma parse_frames_speaks fuel h i s ended ev ef h' s' ev' ef' :
  speaks ev ef -> parse_frames fuel h i s ended ev ef = Some (h', Ok (s', ev', ef')) ->
  speaks ev' ef'.
Proof.
  revert h s ev ef. induction fuel as [|fuel IH]; intros h s ev ef Hsp; [done|]. cbn [parse_frames].
  pose proof (parse_frame_says h i s ended) as Hit.
  destruct (parse_frame h i s ended) as [h1 s1 ev1 ef1|h1 s1 ev1 ef1|]; [| |done].
  - intros [= <- <- <- <-]. by apply speaks_app.
  - apply IH. by apply speaks_app.
Qed.

Lemma parse_stream_data_speaks h i s ended h' s' ev ef :
  parse_stream_data h i s ended = Some (h', Ok (s', ev, ef)) -> speaks ev ef.
Proof.
  unfold parse_stream_data. destruct (H3Stream.blocked s).
  - destruct (decode_headers h i None) as [h1 [[|]|]];
      [by intros [= <- <- <- <-]| |by intros [= <- <- <- <-]].
    by apply parse_frames_speaks.
  - by apply parse_frames_speaks.
Qed.

(** Whatever a reader of transport events gives back. *)
Definition answers (r : t * result (list ProtocolEvent.t * list Effect.t) WebTransportError.t)
    : Prop :=
  match r with (_, Ok (ev, ef)) => speaks ev ef | (_, Err _) => True end.

Lemma parse_stream_header_speaks h i s : answers (parse_stream_header h i s).
Proof.
  unfold parse_stream_header. destruct (read_varint _) as [[k r]|].
  - destruct (negb _); [done|]. by split; [repeat constructor|].
  - destruct (H3Stream.ended s); [|by split; [|repeat constructor]].
    destruct (cleanup_stream h i) eqn:Hc. split; [done|by eapply cleanup_stream_eq].
Qed.

Lemma recv_request_frames_speaks h i s r : recv_request_frames h i s = Some r -> answers r.
Proof.
  unfold recv_request_frames.
  destruct (parse_stream_data _ _ _ _) as [[h1 [[[s1 ev] ef]|e]]|] eqn:Hp; [| |done].
  2: by intros [= <-].
  apply parse_stream_data_speaks in Hp. destruct (_ && _).
  - destruct (cleanup_stream h1 i) as [h2 more] eqn:Hc. intros [= <-]. apply cleanup_stream_eq in Hc.
    apply speaks_effects; [|done]. destruct (H3Stream.is_connect_stream s1); [|done].
    apply speaks_events; [done|]. by repeat constructor.
  - intros [= <-]. cbn. destruct (_ && _); [|done]. apply speaks_effects; [done|]. by repeat constructor.
Qed.

Lemma recv_request_data_speaks h i data fin r :
  recv_request_data h i data fin = Some r -> answers r.
Proof.
  unfold recv_request_data. destruct (take_stream h i data fin) as [h1 s].
  destruct (negb _ && _).
  - destruct (read_varint _) as [[ty rest]|].
    + destruct (ty =? _); [intros [= <-]; apply parse_stream_header_speaks|].
      destruct (is_client h1); [by intros [= <-]|]. apply recv_request_frames_speaks.
    + destruct (H3Stream.ended s); [|intros [= <-]; by split; [|repeat constructor]].
      destruct (cleanup_stream h1 i) eqn:Hc. intros [= <-].
      split; [done|by eapply cleanup_stream_eq].
  - case_bool_decide; [intros [= <-]; apply parse_stream_header_speaks|].
    apply recv_request_frames_speaks.
Qed.

Lemma handle_control_frame_speaks h ty data c : answers (handle_control_frame h ty data c).
Proof.
  unfold handle_control_frame.
  destruct (negb _ && _); [done|]. destruct (ty =? _); [by destruct (h3.parse_push_id data)|].
  destruct (_ || _); [done|]. destruct (ty =? _); [by split; [repeat constructor|]|].
  destruct (ty =? _).
  { destruct (is_client h); [done|]. destruct (h3.parse_push_id data); [|done].
    by destruct (exceeds _ _). }
  destruct (ty =? _); [|by destruct (ty =? _)].
  destruct (settings_received h); [done|].
  destruct (h3.parse_settings data) as [s|] eqn:Hp; [|done]. apply parsed_settings_ok in Hp.
  destruct (h3.validate_settings s c); [|done].
  destruct (Encoder.apply_settings _ _ _) as [enc [ins|]]; [|done].
  split; [by apply Forall_singleton|apply send_instructions_wire].
Qed.

Lemma parse_control_frames_speaks fuel h b c ev ef h' rest ev' ef' :
  speaks ev ef -> parse_control_frames fuel h b c ev ef = (h', Ok (rest, ev', ef')) ->
  speaks ev' ef'.
Proof.
  revert h b ev ef. induction fuel as [|fuel IH]; intros h b ev ef Hsp; cbn.
  { by intros [= <- <- <- <-]. }
  case_bool_decide; [by intros [= <- <- <- <-]|].
  destruct (read_varint b) as [[ty c1]|]; [|by intros [= <- <- <- <-]].
  destruct (read_varint c1) as [[n c2]|]; [|by intros [= <- <- <- <-]].
  destruct (ty =? _); [done|]. destruct (negb _ && _); [done|].
  destruct (_ <? _); [by intros [= <- <- <- <-]|].
  pose proof (handle_control_frame_speaks h ty (take (Z.to_nat n) c2) c) as Hc.
  destruct (handle_control_frame _ _ _ _) as [h1 [[ev1 ef1]|]]; [|done].
  apply IH. by apply speaks_app.
Qed.

Lemma resume_unblocked_speaks ids h ev ef r :
  speaks ev ef -> resume_unblocked h ids ev ef = Some r -> answers r.
Proof.
  revert h ev ef. induction ids as [|i ids IH]; intros h ev ef Hsp; cbn [resume_unblocked]; [by intros [= <-]|].
  destruct (streams h !! i) as [s|]; [|by apply IH].
  destruct (H3Stream.blocked s); [|by apply IH].
  destruct (recv_request_data _ _ _ _) as [[h1 [[ev1 ef1]|]]|] eqn:Hr; [| |done].
  - apply recv_request_data_speaks in Hr. apply IH. by apply speaks_app.
  - by intros [= <-].
Qed.

Lemma keep_critical_stream_speaks h i s ev ef :
  speaks ev ef -> answers (keep_critical_stream h i s ev ef).
Proof.
  intros. unfold keep_critical_stream. destruct (H3Stream.ended s); [done|].
  apply speaks_effects; [done|]. by repeat constructor.
Qed.

Lemma recv_unidirectional_speaks h i data fin c r :
  recv_unidirectional_stream_data h i data fin c = Some r -> answers r.
Proof.
  unfold recv_unidirectional_stream_data. destruct (take_stream h i data fin) as [h0 s0].
  assert (Ht : match parse_stream_type h0 i s0 with Settled h r => answers (h, r) | _ => True end).
  { unfold parse_stream_type. destruct (H3Stream.stream_type s0); [done|].
    destruct (read_varint _) as [[ty rest]|].
    - destruct (_ || _); [by destruct (register_peer_infrastructure_stream _ _ _) as [? [|]]|].
      destruct (ty =? _); [done|]. destruct (ty =? _); [done|].
      by split; [|repeat constructor].
    - destruct (H3Stream.ended s0); [|by split; [|repeat constructor]].
      destruct (cleanup_stream h0 i) eqn:Hc. split; [done|by eapply cleanup_stream_eq]. }
  destruct (parse_stream_type h0 i s0) as [h1 s ty|h1 r1]; [clear Ht|by intros [= <-]].
  destruct (ty =? _).
  { destruct (H3Stream.ended s); [by intros [= <-]|].
    destruct (parse_control_frames _ _ _ _ _ _) as [h2 [[[rest ev] ef]|]] eqn:Hp;
      intros [= <-]; [|done].
    apply keep_critical_stream_speaks. by eapply parse_control_frames_speaks, Hp. }
  destruct (ty =? _).
  { case_bool_decide; [intros [= <-]; by apply keep_critical_stream_speaks|].
    destruct (Encoder.feed_decoder _ _) as [enc [u|]]; intros [= <-]; [|done].
    by apply keep_critical_stream_speaks. }
  destruct (ty =? _).
  { case_bool_decide; [intros [= <-]; by apply keep_critical_stream_speaks|].
    destruct (Decoder.feed_encoder _ _) as [dec [u|]]; [|by intros [= <-]].
    destruct (resume_unblocked _ _ _ _) as [[h2 [[ev ef]|]]|] eqn:Hr; [| |done];
      intros [= <-]; [|done].
    apply keep_critical_stream_speaks. by eapply resume_unblocked_speaks in Hr. }
  destruct (ty =? _); intros [= <-]; [apply parse_stream_header_speaks|].
  by apply keep_critical_stream_speaks.
Qed.

(** The HTTP/3 layer raises its own events only, with settings in range, and
    emits no effect that answers a request or asks the transport for a stream. *)
Lemma handle_transport_event_speaks h event c h' ev ef :
  handle_transport_event h event c = Some (h', ev, ef) -> speaks ev ef.
Proof.
  assert (Hd : forall r, dispatch h event c = Some r -> answers r).
  { intros r. unfold dispatch. destruct event; try (intros [= <-]; apply speaks_nil).
    - intros [= <-]. unfold recv_datagram. destruct (read_varint data) as [[q rest]|]; [|done].
      destruct (_ <? _); [done|]. by split; [repeat constructor|].
    - intros [= <-]. unfold recv_stream_reset. case_bool_decide; [done|].
      destruct (cleanup_stream _ _) eqn:Hc. split; [done|by eapply cleanup_stream_eq].
    - intros [= <-]. unfold recv_stop_sending. by case_bool_decide.
    - destruct (utils.is_unidirectional_stream _);
        [apply recv_unidirectional_speaks|apply recv_request_data_speaks].
    - intros [= <-]. by split; [|repeat constructor]. }
  unfold handle_transport_event. destruct (dispatch h event c) as [[h1 r]|]; [cbn|done].
  specialize (Hd _ eq_refl). destruct r as [[ev1 ef1]|[code reason|code reason|i code reason|code reason]].
  - by intros [= <- <- <-].
  - intros [= <- <- <-]. by split; [|repeat constructor].
  - intros [= <- <- <-]. by split; [|repeat constructor].
  - destruct (cleanup_stream h1 i) eqn:Hc. intros [= <- <- <-]. apply cleanup_stream_eq in Hc.
    split; [done|by repeat constructor].
  - intros [= <- <- <-]. by split; [|repeat constructor].
Qed.

End EngineP.
End EngineP.
