(* ===== verification/EngineRuns.v ===== *)
(** * Turns of the engine

    What one turn of the event loop does to the connection, to the requests of the
    user and to the events that wait for the connection. *)

From S2P Require Import Prelude.
From S2P Require Import Types.
From S2P Require Import Events.
From S2P Require Import Utils.
From S2P Require Import Qpack.
From S2P Require Import SessionMachine.
From S2P Require Import ConnectionMachine.
From S2P Require Import ConnectionProps.
From S2P Require Import ConnectionRuns.
From S2P Require Import ConnectionSteps.
From S2P Require Import ConnectionLimits.
From S2P Require Import H3Machine.
From S2P Require Import H3Reads.
From S2P Require Import H3Invariant.
From S2P Require Import EngineMachine.
From S2P Require Import EngineProps.

Module EngineR.
Section EngineR.
Context `{LsQpack}.
Import WebTransportEngine ConnS.

(** The request an event of the user carries. *)
Definition asks (event : ProtocolEvent.t) : list RequestId :=
  match event with
  | ProtocolEvent.UserAcceptSession r _ _ _ | ProtocolEvent.UserCloseConnection r _ _
  | ProtocolEvent.UserCloseConnectionGracefully r | ProtocolEvent.UserCloseSession r _ _ _
  | ProtocolEvent.UserCreateSession r _ _ _ _ | ProtocolEvent.UserCreateSessionOptimistic r _ _ _ _
  | ProtocolEvent.UserCreateStream r _ _ | ProtocolEvent.UserDiagnoseConnection r
  | ProtocolEvent.UserDiagnoseSession r _ | ProtocolEvent.UserDiagnoseStream r _
  | ProtocolEvent.UserExportKeyingMaterial r _ _ _ _ | ProtocolEvent.UserReadDatagram r _
  | ProtocolEvent.UserReadStream r _ _ | ProtocolEvent.UserRejectSession r _ _ _
  | ProtocolEvent.UserResetStream r _ _ | ProtocolEvent.UserSendDatagram r _ _
  | ProtocolEvent.UserStopSending r _ _ | ProtocolEvent.UserWriteStream r _ _ _ => [r]
  | _ => []
  end.

(** The operation of the connection an event stands for. *)
Definition names_op (event : ProtocolEvent.t) (now : f64) : option op :=
  match event with
  | ProtocolEvent.H3CapsuleReceived i ty value => Some (OpCapsule i ty value now)
  | ProtocolEvent.H3ConnectStreamClosed i => Some (OpConnectClose i now)
  | ProtocolEvent.H3DatagramReceived k data => Some (OpDatagram k data now)
  | ProtocolEvent.H3GoawayReceived => Some OpGoaway
  | ProtocolEvent.H3HeadersReceived i headers => Some (OpHeaders i headers now)
  | ProtocolEvent.H3SettingsReceived settings => Some (OpSettings settings now)
  | ProtocolEvent.H3WebTransportStreamOpened k i => Some (OpStreamOpened k i now)
  | ProtocolEvent.InternalBindH3ConnectStream r i => Some (OpBindSession i r)
  | ProtocolEvent.InternalBindH3LocalStreams _ _ _ | ProtocolEvent.InternalFailH3LocalStreams => None
  | ProtocolEvent.InternalBindQuicStream r i k u => Some (OpBindStream k i r u now)
  | ProtocolEvent.InternalCleanupEarlyEvents => Some (OpPruneEvents now)
  | ProtocolEvent.InternalCleanupResources => Some OpPruneResources
  | ProtocolEvent.InternalCloseConnection => Some (OpClose None ERR_H3_NO_ERROR None now)
  | ProtocolEvent.InternalCompleteQuicData i => Some (OpComplete i)
  | ProtocolEvent.InternalDeferH3ConnectStream r => Some (OpDeferSession r)
  | ProtocolEvent.InternalDeferQuicStream r k u => Some (OpDeferStream k r u)
  | ProtocolEvent.InternalFailH3ConnectStream r code reason => Some (OpFailSession r code reason)
  | ProtocolEvent.TransportConnectionTerminated code reason => Some (OpTerminated code reason now)
  | ProtocolEvent.TransportHandshakeCompleted => Some (OpHandshakeCompleted now)
  | ProtocolEvent.TransportMaxStreamsReceived u => Some (OpMaxStreams u)
  | ProtocolEvent.TransportQuicParametersReceived size => Some (OpTransportParameters size)
  | ProtocolEvent.TransportResetStreamReceived i code => Some (OpStreamReset i code now)
  | ProtocolEvent.TransportStopSendingReceived i code => Some (OpStopSending i code now)
  | ProtocolEvent.TransportStreamDataAcknowledged i => Some (OpAcknowledged i)
  | ProtocolEvent.TransportStreamDataReceived i data fin => Some (OpStreamData i data fin now)
  | ProtocolEvent.TransportDatagramReceived _ | ProtocolEvent.TransportStreamOpened _ => None
  | ProtocolEvent.UserAcceptSession r k headers protocol =>
      Some (OpAcceptSession k r headers protocol now)
  | ProtocolEvent.UserCloseConnection r code reason => Some (OpClose (Some r) code reason now)
  | ProtocolEvent.UserCloseConnectionGracefully r => Some (OpCloseGracefully r)
  | ProtocolEvent.UserCloseSession r k code reason => Some (OpCloseSession k r code reason now)
  | ProtocolEvent.UserCreateSession r authority path headers protocols =>
      Some (OpCreateSession r (SessionRequest.mk authority now headers false path protocols))
  | ProtocolEvent.UserCreateSessionOptimistic r authority path headers protocols =>
      Some (OpCreateSession r (SessionRequest.mk authority now headers true path protocols))
  | ProtocolEvent.UserCreateStream r k u => Some (OpCreateStream k r u)
  | ProtocolEvent.UserDiagnoseConnection r => Some (OpDiagnose r)
  | ProtocolEvent.UserDiagnoseSession r k => Some (OpDiagnoseSession k r)
  | ProtocolEvent.UserDiagnoseStream r i => Some (OpDiagnoseStream i r)
  | ProtocolEvent.UserExportKeyingMaterial r k label context length =>
      Some (OpExport k r label context length)
  | ProtocolEvent.UserReadDatagram r k => Some (OpReadDatagram k r)
  | ProtocolEvent.UserReadStream r i max_size => Some (OpReadStream i r max_size)
  | ProtocolEvent.UserRejectSession r k headers status => Some (OpRejectSession k r headers status now)
  | ProtocolEvent.UserResetStream r i code => Some (OpResetStream i r code)
  | ProtocolEvent.UserSendDatagram r k data => Some (OpSendDatagram k r data)
  | ProtocolEvent.UserStopSending r i code => Some (OpStopStream i r code)
  | ProtocolEvent.UserWriteStream r i data fin => Some (OpWriteStream i r data fin)
  end.

(** Whether the connection takes the event: data, resets and STOP_SENDING only
    for the streams it owns, and requests of a client only once it is connected. *)
Definition takes (c : Connection.t) (event : ProtocolEvent.t) : bool :=
  match event with
  | ProtocolEvent.TransportResetStreamReceived i _ | ProtocolEvent.TransportStopSendingReceived i _ =>
      Connection.has_stream c i || Connection.is_session_stream c i
  | ProtocolEvent.TransportStreamDataReceived i _ _ => Connection.has_stream c i
  | ProtocolEvent.UserCreateSession _ _ _ _ _ | ProtocolEvent.UserCreateSessionOptimistic _ _ _ _ _
  | ProtocolEvent.UserCreateStream _ _ _ =>
      negb (Connection.is_client c && Connection.is_pre_connected c)
  | _ => true
  end.

Definition performs (c : Connection.t) (event : ProtocolEvent.t) (now : f64) : option op :=
  if takes c event then names_op event now else None.

Definition perform (o : option op) (c : Connection.t) : Connection.t * list Effect.t :=
  match o with Some o => step o c | None => (c, []) end.

Definition submits_opt (o : option op) : list RequestId :=
  match o with Some o => submits o | None => [] end.

(** The events that wait for a client to be connected. *)
Definition waits (event : ProtocolEvent.t) : Prop := is_Some (pending_request event).

Record pending_ok (e : t) : Prop := {
  pending_waits : Forall waits (pending_user_events e);
  pending_before : pending_user_events e <> [] ->
    Connection.is_client (connection e) = true
    /\ Connection.is_pre_connected (connection e) = true;
}.

Definition pending (e : t) : list RequestId := pending_user_events e ≫= asks.

Lemma asks_pending events :
  Forall waits events -> omap pending_request events = events ≫= asks.
Proof.
  induction 1 as [|event events [r Hr] _ IH]; [done|]. cbn. rewrite Hr, IH.
  destruct event; try done; by injection Hr as ->.
Qed.

Lemma h3_asks events : Forall h3_event events -> events ≫= asks = [].
Proof. induction 1 as [|event events He _ IH]; [done|]. cbn. rewrite IH. by destruct event. Qed.

(** Effects that add failures of requests to others, and nothing else but what goes
    to the QUIC connection. *)
Record adds (effects base : list Effect.t) (failed : list RequestId) : Prop := {
  adds_answered : answered effects = answered base ++ failed;
  adds_asked : ConnP.asked effects = ConnP.asked base;
  adds_connects : ConnR.connects effects = ConnR.connects base;
}.

Lemma adds_silent before base more :
  silent before -> silent more -> adds (before ++ base ++ more) base [].
Proof.
  intros (Ha & Hb & Hc) (Ha' & Hb' & Hc').
  split; rewrite ?answered_app, ?ConnP.asked_app, ?ConnR.connects_app, ?Ha, ?Ha', ?Hb, ?Hb', ?Hc, ?Hc';
    by rewrite ?app_nil_r.
Qed.

Lemma silent_nil : silent [].
Proof. done. Qed.

(** One turn: the connection performs its operation, and the requests of the event
    and of the pending events are submitted to the connection, failed, kept, or
    back in the queue. *)
Record turns (e : t) (event : ProtocolEvent.t) (now : f64) (e' : t) (effects : list Effect.t)
    (front : list ProtocolEvent.t) (failed : list RequestId) : Prop := {
  turn_connection : connection e' = (perform (performs (connection e) event now) (connection e)).1;
  turn_effects :
    adds effects (perform (performs (connection e) event now) (connection e)).2 failed;
  turn_requests : asks event ++ pending e
    ≡ₚ submits_opt (performs (connection e) event now) ++ failed ++ pending e' ++ (front ≫= asks);
  turn_front : Forall (fun event => h3_event event \/ waits event) front;
}.

Lemma failures_adds (f : RequestId -> Effect.t) base rs :
  (forall r, answered [f r] = [r] /\ ConnP.asked [f r] = [] /\ ConnR.connects [f r] = []) ->
  adds (base ++ (f <$> rs)) base rs.
Proof.
  intros Hf. assert (Hall : answered (f <$> rs) = rs /\ ConnP.asked (f <$> rs) = []
    /\ ConnR.connects (f <$> rs) = []).
  { induction rs as [|r rs (IH1 & IH2 & IH3)]; [done|]. destruct (Hf r) as (H1 & H2 & H3).
    rewrite fmap_cons. change (f r :: (f <$> rs)) with ([f r] ++ (f <$> rs)).
    by rewrite answered_app, ConnP.asked_app, ConnR.connects_app, H1, H2, H3, IH1, IH2, IH3. }
  destruct Hall as (H1 & H2 & H3).
  split; rewrite ?answered_app, ?ConnP.asked_app, ?ConnR.connects_app, ?H1, ?H2, ?H3;
    by rewrite ?app_nil_r.
Qed.

(** A turn in which the pending events stay where they are. *)
Lemma turns_plain e event now e' before more :
  connection e' = (perform (performs (connection e) event now) (connection e)).1 ->
  pending_user_events e' = pending_user_events e -> silent before -> silent more ->
  asks event = submits_opt (performs (connection e) event now) ->
  forall effects, effects
      = before ++ (perform (performs (connection e) event now) (connection e)).2 ++ more ->
  turns e event now e' effects [] [].
Proof.
  intros Hc Hp Hb Hm Ha effects ->. split; [done|by apply adds_silent| |done].
  unfold pending. rewrite Hp, Ha. cbn. by rewrite app_nil_r.
Qed.

(** A turn of the connection with an event it takes. *)
Lemma taken_turns e event now e' before o effects :
  names_op event now = Some o -> takes (connection e) event = true -> asks event = submits o ->
  connection e' = (step o (connection e)).1 -> pending_user_events e' = pending_user_events e ->
  effects = before ++ (step o (connection e)).2 -> silent before ->
  turns e event now e' effects [] [].
Proof.
  intros Ho Ht Ha Hc Hp -> Hb.
  assert (Hop : performs (connection e) event now = Some o) by (unfold performs; by rewrite Ht).
  apply (turns_plain _ _ _ _ before []); rewrite ?Hop; try done. by rewrite app_nil_r.
Qed.

(** A turn of the HTTP/3 layer alone. *)
Lemma to_h3_turns e event now e' effects front :
  performs (connection e) event now = None -> asks event = [] ->
  to_h3 e event = Some (e', effects, front) -> turns e event now e' effects front [].
Proof.
  intros Ho Ha. unfold to_h3.
  destruct (H3.handle_transport_event _ _ _) as [[[h ev] ef]|] eqn:Hh; [|done].
  intros [= <- <- <-]. apply EngineP.handle_transport_event_speaks in Hh as [Hev Hef]. split.
  - by rewrite Ho.
  - rewrite Ho. destruct (wire_silent ef Hef) as (? & ? & ?). by split.
  - rewrite Ho, Ha, (h3_asks ev Hev). cbn. by rewrite app_nil_r.
  - eapply Forall_impl; [exact Hev|]. by left.
Qed.

(** A turn that fails the pending events. *)
Lemma fail_pending_turns e event now r code reason :
  Forall waits (pending_user_events e) ->
  perform (performs (connection e) event now) (connection e) = r ->
  asks event = submits_opt (performs (connection e) event now) ->
  let '(e1, effects) := on_connection e r in
  let '(e2, more) := fail_pending_user_events e1 code reason in
  turns e event now e2 (effects ++ more) [] (pending e).
Proof.
  intros Hw Hr Ha. cbn. split.
  - by rewrite Hr.
  - rewrite Hr, asks_pending by done. by apply failures_adds.
  - rewrite Ha. cbn. by rewrite !app_nil_r.
  - done.
Qed.

Lemma replay_turns e event now r e' effects front :
  Forall waits (pending_user_events e) ->
  perform (performs (connection e) event now) (connection e) = r ->
  asks event = submits_opt (performs (connection e) event now) ->
  replay_if_connected (on_connection e r) = Some (e', effects, front) ->
  turns e event now e' effects front [].
Proof.
  intros Hw Hr Ha. unfold replay_if_connected.
  assert (Hadds : adds r.2 r.2 []) by (split; by rewrite ?app_nil_r).
  cbn. destruct (_ && _); intros [= <- <- <-]; split;
    rewrite ?Hr, ?Ha, ?app_nil_r; try done.
  eapply Forall_impl; [exact Hw|]. by right.
Qed.

Lemma when_connected_turns e event now o e' effects front :
  names_op event now = Some o ->
  takes (connection e) event
    = negb (Connection.is_client (connection e) && Connection.is_pre_connected (connection e)) ->
  asks event = submits o ->
  when_connected e event (step o (connection e)) = Some (e', effects, front) ->
  turns e event now e' effects front [].
Proof.
  intros Ho Ht Ha. unfold when_connected. destruct (_ && _) eqn:E.
  - assert (Hp : performs (connection e) event now = None) by (unfold performs; by rewrite Ht).
    intros [= <- <- <-]. split; rewrite ?Hp; try done. unfold pending. cbn.
    rewrite bind_app, app_nil_r. cbn. rewrite app_nil_r. apply Permutation_app_comm.
  - intros [= <- <- <-]. eapply (taken_turns _ _ _ _ []); by rewrite ?Ht.
Qed.

(** Most turns call one operation of the connection, and perhaps the HTTP/3 layer. *)
Ltac plain_turn more :=
  intros [= <- <- <-]; exists []; apply (turns_plain _ _ _ _ [] more); try done; cbn;
  rewrite ?app_nil_r; try done.

Lemma process_turns e event now e' effects front :
  Forall waits (pending_user_events e) -> process e event now = Some (e', effects, front) ->
  exists failed, turns e event now e' effects front failed.
Proof.
  intros Hw. destruct event; cbn [process process_transport process_user process_user_io]; try (by plain_turn (@nil Effect.t)).
  - cbv beta iota zeta delta [on_connection]. destruct (Connection.is_session_closed _ _);
      [|by plain_turn (@nil Effect.t)].
    plain_turn (H3.stop_request_stream (h3 e) stream_id).2.
    apply wire_silent, EngineP.stop_request_stream_wire.
  - cbv beta iota zeta delta [on_connection]. destruct (Connection.is_session_stream _ _).
    + plain_turn (H3.resume_request_stream (h3 e) stream_id).
      apply wire_silent, EngineP.resume_request_stream_wire.
    + plain_turn (H3.cleanup_stream (h3 e) stream_id).2.
      apply wire_silent, EngineP.cleanup_stream_wire.
  - intros Hr. exists []. by eapply replay_turns, Hr.
  - plain_turn [Effect.ReceiveQuicData stream_id U64_MAX].
  - match goal with |- context [H3.bind_local_streams ?h ?c ?e ?d] =>
      plain_turn (H3.bind_local_streams h c e d).2 end.
    apply wire_silent, EngineP.bind_local_streams_wire.
  - intros [= <- <- <-]. eexists. by eapply (fail_pending_turns e ProtocolEvent.InternalCloseConnection).
  - plain_turn H3.fail_local_streams.
  - intros [= <- <- <-]. eexists.
    by eapply (fail_pending_turns e (ProtocolEvent.TransportConnectionTerminated error_code reason)).
  - intros Hr. exists []. by apply (to_h3_turns _ _ now) in Hr.
  - intros Hr. exists []. by eapply replay_turns, Hr.
  - match goal with |- _ -> exists _, turns _ ?event _ _ _ _ _ => set (ev := event) end.
    destruct (Connection.has_stream _ _) eqn:Hs; [|destruct (Connection.is_session_stream _ _) eqn:Hk].
    + intros [= <- <- <-]. exists []. eapply (taken_turns e ev now _ []); try done. cbn. by rewrite Hs.
    + intros [= <- <- <-]. exists []. eapply (taken_turns e ev now); try done.
      * cbn. by rewrite Hs, Hk.
      * apply wire_silent, EngineP.cleanup_stream_wire.
    + intros Hr. exists []. apply (to_h3_turns _ _ now) in Hr; try done.
      unfold performs. cbn. by rewrite Hs, Hk.
  - match goal with |- _ -> exists _, turns _ ?event _ _ _ _ _ => set (ev := event) end.
    destruct (_ || _) eqn:Hs; intros Hr; exists [].
    + injection Hr as <- <- <-. by eapply (taken_turns e ev now _ []).
    + apply (to_h3_turns _ _ now) in Hr; try done. unfold performs. cbn. by rewrite Hs.
  - match goal with |- _ -> exists _, turns _ ?event _ _ _ _ _ => set (ev := event) end.
    destruct (Connection.has_stream _ _) eqn:Hs; intros Hr; exists [].
    + injection Hr as <- <- <-. by eapply (taken_turns e ev now _ []).
    + apply (to_h3_turns _ _ now) in Hr; try done. unfold performs. cbn. by rewrite Hs.
  - intros Hr. exists []. by apply (to_h3_turns _ _ now) in Hr.
  - intros [= <- <- <-]. eexists.
    by eapply (fail_pending_turns e (ProtocolEvent.UserCloseConnection request_id error_code reason)).
  - intros Hr. exists []. by eapply when_connected_turns; [done..|exact Hr].
  - intros Hr. exists []. by eapply when_connected_turns; [done..|exact Hr].
  - intros Hr. exists []. by eapply when_connected_turns; [done..|exact Hr].
Qed.

(** ** The events that wait *)

(** The state of the connection stays, or it opens. *)
Definition opens (c c' : Connection.t) : Prop :=
  Connection.is_pre_connected c = true ->
  Connection.is_pre_connected c' = true \/ Connection.is_connected c' = true.

Lemma step_opens o c :
  match o with OpClose _ _ _ _ | OpTerminated _ _ _ => false | _ => true end = true ->
  opens c (step o c).1.
Proof.
  intros Ho. destruct (ConnL.moves o) eqn:Hm.
  - destruct o; try done; cbn [step]; intros Hpre.
    + unfold Connection.handle_handshake_completed.
      destruct (bool_decide (Connection.state c = ConnectionState.Idle));
        (destruct (negb (bool_decide _)); [by left|]); (destruct (_ || _); [|by left]);
        right; unfold Connection.open; cbn; by destruct (Connection.request_id c).
    + unfold Connection.recv_settings. cbv zeta. destruct (_ && _); [|by left].
      right. unfold Connection.open. cbn. by destruct (Connection.request_id c).
  - intros Hpre. left. unfold Connection.is_pre_connected in *. by rewrite ConnL.step_state.
Qed.

Lemma step_client o c : Connection.is_client (step o c).1 = Connection.is_client c.
Proof.
  destruct (step o c) as [c' ef] eqn:Hs. apply ConnL.step_progress in Hs as [Hc].
  unfold ConnL.constants in Hc. cbn. congruence.
Qed.

(** What a turn does to the waiting events. *)
Inductive pends (e : t) (event : ProtocolEvent.t) (now : f64) (e' : t) : Prop :=
| pends_none : pending_user_events e' = [] -> pends e event now e'
| pends_same :
    pending_user_events e' = pending_user_events e ->
    (ConnL.moves <$> performs (connection e) event now <> Some true
     \/ Connection.is_client (connection e') && Connection.is_connected (connection e') = false
        /\ opens (connection e) (connection e')) ->
    pends e event now e'
| pends_more :
    pending_user_events e' = pending_user_events e ++ [event] -> waits event ->
    connection e' = connection e ->
    Connection.is_client (connection e) && Connection.is_pre_connected (connection e) = true ->
    pends e event now e'.

Lemma still_event event now c :
  ConnL.moves <$> names_op event now <> Some true ->
  ConnL.moves <$> performs c event now <> Some true.
Proof. unfold performs. by destruct (takes c event). Qed.

Lemma to_h3_pends e event now e' effects front :
  ConnL.moves <$> names_op event now <> Some true ->
  to_h3 e event = Some (e', effects, front) -> pends e event now e'.
Proof.
  intros Ho. unfold to_h3. destruct (H3.handle_transport_event _ _ _) as [[[h ev] ef]|]; [|done].
  intros [= <- <- <-]. apply pends_same; [done|]. left. by apply still_event.
Qed.

Lemma replay_pends e event now o e' effects front :
  names_op event now = Some o -> takes (connection e) event = true ->
  match o with OpClose _ _ _ _ | OpTerminated _ _ _ => false | _ => true end = true ->
  replay_if_connected (on_connection e (step o (connection e))) = Some (e', effects, front) ->
  pends e event now e'.
Proof.
  intros Ho Ht Hn. unfold replay_if_connected. destruct (_ && _) eqn:E; intros [= <- <- <-].
  - by apply pends_none.
  - apply pends_same; [done|]. right. split; [done|]. by apply step_opens.
Qed.

Lemma when_connected_pends e event now r e' effects front :
  ConnL.moves <$> names_op event now <> Some true -> waits event ->
  when_connected e event r = Some (e', effects, front) -> pends e event now e'.
Proof.
  intros Ho Hw. unfold when_connected. destruct (_ && _) eqn:E; intros [= <- <- <-].
  - by apply pends_more.
  - apply pends_same; [done|]. left. by apply still_event.
Qed.

Lemma process_pends e event now e' effects front :
  process e event now = Some (e', effects, front) -> pends e event now e'.
Proof.
  destruct event; cbn [process process_transport process_user process_user_io];
    try (by intros [= <- <- <-]; apply pends_same; [done|left]);
    try (by intros [= <- <- <-]; apply pends_none);
    try (by apply to_h3_pends); try (by apply when_connected_pends; [|eexists]).
  - cbv beta iota zeta delta [on_connection]. destruct (Connection.is_session_closed _ _);
      intros [= <- <- <-]; (apply pends_same; [done|by left]).
  - cbv beta iota zeta delta [on_connection]. destruct (Connection.is_session_stream _ _);
      intros [= <- <- <-]; (apply pends_same; [done|by left]).
  - intros Hr. by eapply replay_pends; [done..|exact Hr].
  - intros Hr. by eapply replay_pends; [done..|exact Hr].
  - destruct (Connection.has_stream _ _); [|destruct (Connection.is_session_stream _ _)].
    3: by apply to_h3_pends.
    all: intros [= <- <- <-]; apply pends_same; [done|left]; by apply still_event.
  - destruct (_ || _); [|by apply to_h3_pends].
    intros [= <- <- <-]; apply pends_same; [done|left]; by apply still_event.
  - destruct (Connection.has_stream _ _); [|by apply to_h3_pends].
    intros [= <- <- <-]; apply pends_same; [done|left]; by apply still_event.
Qed.

Lemma new_pending_ok handle request client p : pending_ok (new handle request client p).
Proof. split; [constructor|done]. Qed.

Lemma process_pending_ok e event now e' effects front :
  pending_ok e -> process e event now = Some (e', effects, front) -> pending_ok e'.
Proof.
  intros [Hw Hb] Hp. destruct (process_turns e event now e' effects front Hw Hp) as [failed Ht].
  pose proof (turn_connection _ _ _ _ _ _ _ Ht) as Hc.
  destruct (process_pends _ _ _ _ _ _ Hp) as [Hn|Hs Hm|Hmo Hwe Hc' Hpre].
  - split; by rewrite Hn.
  - split; rewrite Hs; [done|]. intros Hne. destruct (Hb Hne) as [Hcl Hpre].
    assert (Hcl' : Connection.is_client (connection e') = true).
    { rewrite Hc. unfold perform. destruct (performs _ _ _); [by rewrite step_client|done]. }
    split; [done|]. destruct Hm as [Hm|[Hcon Ho]].
    + rewrite Hc. unfold perform. destruct (performs _ _ _) as [o|]; [|done].
      unfold Connection.is_pre_connected in *. rewrite ConnL.step_state; [done|].
      cbn in Hm. by destruct (ConnL.moves o).
    + rewrite Hcl' in Hcon. destruct (Ho Hpre) as [|Hco]; [done|]. by rewrite Hco in Hcon.
  - apply andb_prop in Hpre as [? ?]. split; rewrite Hmo, ?Hc'; [|done].
    apply Forall_app. by repeat constructor.
Qed.

(** ** The event loop ends *)

Section never_blocks.
Context (never_blocks : forall d i data d' instructions,
  Decoder.decode_header d i data <> (d', Ok (instructions, DecodeStatus.Blocked))).

Record engine_ok (e : t) : Prop := {
  ok_pending : pending_ok e;
  ok_streams : H3I.wf (h3 e);
}.

(** The transport sends no data past the end of a stream, and the end of a request
    stream is not the end of a truncated frame. *)
Definition reads_ok (e : t) (event : ProtocolEvent.t) : Prop :=
  match event with
  | ProtocolEvent.TransportStreamDataReceived i _ _ =>
      Connection.has_stream (connection e) i = false -> H3I.reads_end (h3 e) event
  | _ => True
  end.

(** A turn that ends, with the invariant of the streams kept. *)
Definition ends (r : option (t * list Effect.t * list ProtocolEvent.t)) : Prop :=
  exists e' effects front, r = Some (e', effects, front) /\ H3I.wf (h3 e').

Lemma ends_same e (r : option (t * list Effect.t * list ProtocolEvent.t)) e' effects front :
  H3I.wf (h3 e) -> r = Some (e', effects, front) -> h3 e' = h3 e -> ends r.
Proof. intros Hw -> He. exists e', effects, front. by rewrite He. Qed.

Lemma to_h3_ends e event :
  H3I.wf (h3 e) -> H3I.reads_end (h3 e) event -> ends (to_h3 e event).
Proof.
  intros Hw Hr. unfold to_h3.
  destruct (H3I.handle_transport_event_wf never_blocks (h3 e) event (connection e) Hw Hr)
    as (h & ev & ef & -> & Hw'). by eexists _, _, _.
Qed.

Lemma replay_ends e r : H3I.wf (h3 e) -> ends (replay_if_connected (on_connection e r)).
Proof. intros Hw. unfold replay_if_connected. destruct (_ && _); by eapply ends_same. Qed.

Lemma when_connected_ends e event r : H3I.wf (h3 e) -> ends (when_connected e event r).
Proof. intros Hw. unfold when_connected. destruct (_ && _); by eapply ends_same. Qed.

Lemma process_ends e event now :
  H3I.wf (h3 e) -> reads_ok e event -> ends (process e event now).
Proof.
  intros Hw Hr. destruct event; cbn [process process_transport process_user process_user_io];
    try (by eapply ends_same); try (by apply replay_ends); try (by apply when_connected_ends);
    try (by apply to_h3_ends).
  - cbv beta iota zeta delta [on_connection]. destruct (Connection.is_session_closed _ _);
      [|by eapply ends_same].
    eexists _, _, _. split; [done|]. by eapply H3I.stop_request_stream_wf, surjective_pairing.
  - cbv beta iota zeta delta [on_connection]. destruct (Connection.is_session_stream _ _);
      [by eapply ends_same|].
    eexists _, _, _. split; [done|]. by eapply H3I.cleanup_stream_wf, surjective_pairing.
  - eexists _, _, _. split; [done|]. by apply H3I.bind_connect_stream_wf.
  - eexists _, _, _. split; [done|]. by apply H3I.bind_local_streams_wf.
  - destruct (Connection.has_stream _ _); [by eapply ends_same|].
    destruct (Connection.is_session_stream _ _); [|by apply to_h3_ends].
    eexists _, _, _. split; [done|]. by eapply H3I.cleanup_stream_wf, surjective_pairing.
  - destruct (_ || _); [by eapply ends_same|by apply to_h3_ends].
  - destruct (Connection.has_stream _ _) eqn:Hs; [by eapply ends_same|].
    apply to_h3_ends; [done|]. by apply Hr.
Qed.

(** An event of the HTTP/3 layer or a waiting event takes the loop no further than
    the waiting events. *)
Definition direct (event : ProtocolEvent.t) : Prop := h3_event event \/ waits event.

Lemma direct_reads e event : direct event -> reads_ok e event.
Proof. destruct event; intros [Hd|[r Hr]]; done. Qed.

Lemma direct_front e event now e' effects front :
  direct event -> process e event now = Some (e', effects, front) ->
  front = [] \/ front = pending_user_events e /\ ~ waits event.
Proof.
  destruct event; intros [Hd|[r Hr]]; try done; cbn [process process_transport process_user process_user_io];
    cbv beta iota zeta delta [on_connection on_h3 no_events when_connected replay_if_connected fst snd];
    repeat match goal with |- context [if ?b then _ else _] => destruct b end;
    intros [= <- <- <-]; auto.
  right. split; [done|]. by intros [? ?].
Qed.

(** Enough fuel for a queue. *)
Definition settles (e : t) (queue : list ProtocolEvent.t) (now : f64) : Prop :=
  forall effects, exists n e' effects', engine_ok e'
    /\ forall m, (n <= m)%nat -> run_events m e queue now effects = Some (e', effects').

Lemma settles_turn e event rest now :
  engine_ok e -> reads_ok e event ->
  (forall e' effects front, engine_ok e' -> process e event now = Some (e', effects, front) ->
     settles e' (front ++ rest) now) ->
  settles e (event :: rest) now.
Proof.
  intros [Hp Hw] Hr Hnext effects.
  destruct (process_ends e event now Hw Hr) as (e1 & ef & front & He & Hw1).
  pose proof (process_pending_ok _ _ _ _ _ _ Hp He) as Hp1.
  destruct (Hnext e1 ef front) with (effects := effects ++ ef) as (n & e2 & ef2 & Hok & Hn); [done..|].
  exists (S n), e2, ef2. split; [done|]. intros [|m] Hm; [lia|]. cbn [run_events].
  rewrite He. cbn. apply Hn. lia.
Qed.

Lemma settles_direct q0 q1 e now :
  engine_ok e -> Forall waits q0 -> Forall direct q1 -> settles e (q0 ++ q1) now.
Proof.
  intros Hok H0 H1. revert q0 e Hok H0. induction H1 as [|event q1 Hd _ IH1]; intros q0 e Hok H0;
    revert e Hok; induction H0 as [|ev q0 Hw _ IH0]; intros e Hok.
  - intros effects. exists 0%nat, e, effects. split; [done|]. by intros [|m].
  - cbn. apply settles_turn; [done|by apply direct_reads; right|].
    intros e' ef front Hok' Hp.
    apply direct_front in Hp as [->|[_ Hn]]; [by apply IH0|by destruct Hn|by right].
  - cbn. apply settles_turn; [done|by apply direct_reads|].
    intros e' ef front Hok' Hp. apply IH1; [done|].
    apply direct_front in Hp as [->|[-> _]]; [constructor| |done]. apply Hok.
  - cbn. apply settles_turn; [done|by apply direct_reads; right|].
    intros e' ef front Hok' Hp.
    apply direct_front in Hp as [->|[_ Hn]]; [by apply IH0|by destruct Hn|by right].
Qed.

(** Every event is handled in finitely many turns. *)
Lemma settles_event e event now : engine_ok e -> reads_ok e event -> settles e [event] now.
Proof.
  intros Hok Hr. apply settles_turn; [done|done|]. intros e' ef front Hok' Hp. rewrite app_nil_r.
  apply (settles_direct []); [done|done|].
  destruct (process_turns e event now e' ef front) as [failed Ht]; [apply Hok|done|].
  apply (turn_front _ _ _ _ _ _ _ Ht).
Qed.

Lemma new_ok handle request client p : engine_ok (new handle request client p).
Proof. split; [by split|]. apply map_Forall_empty. Qed.

End never_blocks.

End EngineR.
End EngineR.
