(* ===== verification/EngineTheorems.v ===== *)
(** * Theorems about the engine

    The engine against the connection and the HTTP/3 layer it drives: its event
    loop ends, every turn is a step of the connection machine, and no request of
    the user is lost between the layers. *)

From S2P Require Import Prelude.
From S2P Require Import Types.
From S2P Require Import Events.
From S2P Require Import Utils.
From S2P Require Import Qpack.
From S2P Require Import QpackLiteral.
From S2P Require Import SessionMachine.
From S2P Require Import SessionTheorems.
From S2P Require Import ConnectionMachine.
From S2P Require Import ConnectionProps.
From S2P Require Import ConnectionRuns.
From S2P Require Import ConnectionSteps.
From S2P Require Import ConnectionLimits.
From S2P Require Import ConnectionTheorems.
From S2P Require Import H3Machine.
From S2P Require Import H3Props.
From S2P Require Import H3Reads.
From S2P Require Import H3Wire.
From S2P Require Import H3Invariant.
From S2P Require Import EngineMachine.
From S2P Require Import EngineProps.
From S2P Require Import EngineRuns.
From S2P Require Import H3Theorems.

Module EngineT.
Section EngineT.
Context `{LsQpack}.
Import WebTransportEngine ConnP ConnR ConnS EngineR.

(** ** Runs *)

(** Events from the driver, not from the HTTP/3 layer. *)
Definition from_driver (event : ProtocolEvent.t) : Prop :=
  match event with
  | ProtocolEvent.H3CapsuleReceived _ _ _ | ProtocolEvent.H3ConnectStreamClosed _
  | ProtocolEvent.H3DatagramReceived _ _ | ProtocolEvent.H3GoawayReceived
  | ProtocolEvent.H3HeadersReceived _ _ | ProtocolEvent.H3SettingsReceived _
  | ProtocolEvent.H3WebTransportStreamOpened _ _ => False
  | _ => True
  end.

(** What the connection asks of the layers below; the range of settings is up to
    the HTTP/3 layer of the engine. *)
Definition driver_ok (c : Connection.t) (w : world) (o : op) : Prop :=
  match o with OpSettings _ _ => True | _ => transport_ok c w o end.

(** The world after a turn. *)
Definition turned (c : Connection.t) (w : world) (o : op) (creating' : list creation)
    (connecting' : list RequestId) : world :=
  next w creating' connecting' (names c o) (gone c o) (submits o) (step o c).2.

(** [reachable e0 e queue w users out]: the engine came from [e0] to [e] with the
    events [queue] left to process, its connection being in the world [w], after
    the user made the requests [users] and the engine emitted [out]. *)
Inductive reachable (e0 : t)
    : t -> list ProtocolEvent.t -> world -> list RequestId -> list Effect.t -> Prop :=
| reachable_new :
    reachable e0 e0 [] (start (connection e0))
      (option_list (Connection.request_id (connection e0))) []
| reachable_event e w users out event :
    reachable e0 e [] w users out -> from_driver event -> NoDup (users ++ asks event) ->
    reachable e0 e [event] w (users ++ asks event) out
| reachable_turn e event rest w users out now o creating' connecting' e' effects front :
    reachable e0 e (event :: rest) w users out ->
    process e event now = Some (e', effects, front) ->
    performs (connection e) event now = Some o -> driver_ok (connection e) w o ->
    creating w ≡ₚ returns o ++ creating' -> connecting w ≡ₚ connected o ++ connecting' ->
    reachable e0 e' (front ++ rest) (turned (connection e) w o creating' connecting') users
      (out ++ effects)
| reachable_quiet e event rest w users out now e' effects front :
    reachable e0 e (event :: rest) w users out ->
    process e event now = Some (e', effects, front) ->
    performs (connection e) event now = None ->
    reachable e0 e' (front ++ rest) w users (out ++ effects).

(** A new engine. *)
Definition fresh (p : EngineParameters.t) (e0 : t) : Prop :=
  parameters_ok (EngineParameters.connection_parameters p)
  /\ exists handle request client, e0 = new handle request client p.

Lemma fresh_connection p e0 :
  fresh p e0 -> ConnS.fresh (EngineParameters.connection_parameters p) (connection e0).
Proof. intros (Hp & handle & request & client & ->). split; [done|by eexists _, _, _]. Qed.

(** What holds along a run. *)
Record run_inv (e0 e : t) (queue : list ProtocolEvent.t) (w : world) (users : list RequestId)
    (out : list Effect.t) : Prop := {
  run_connection : ConnS.reachable (connection e0) (connection e) w;
  run_pending : pending_ok e;
  run_queue : Forall (fun event => from_driver event \/ h3_event event) queue;
  run_unique : NoDup users;
  run_ledger : exists failed,
    users ≡ₚ submitted w ++ pending e ++ (queue ≫= asks) ++ failed
    /\ answered out ≡ₚ answered (emitted w) ++ failed;
}.

Lemma front_sources front :
  Forall (fun event => h3_event event \/ waits event) front ->
  Forall (fun event => from_driver event \/ h3_event event) front.
Proof.
  intros Hf. eapply Forall_impl; [exact Hf|]. intros event [Hh|[r Hr]]; [by right|left]. by destruct event.
Qed.

Lemma driver_transport e event w now o :
  from_driver event \/ h3_event event -> performs (connection e) event now = Some o ->
  driver_ok (connection e) w o -> transport_ok (connection e) w o.
Proof.
  intros Hs Ho Hd. destruct o; try exact Hd. unfold performs in Ho.
  destruct (takes _ _); [|done]. destruct event; try done. injection Ho as <- <-.
  by destruct Hs.
Qed.

(** The requests of a turn, over the whole ledger. *)
Lemma ledger_turn users sub pend pend' queue front sub' failed failed' asked :
  users ≡ₚ sub ++ pend ++ (asked ++ queue) ++ failed ->
  asked ++ pend ≡ₚ sub' ++ failed' ++ pend' ++ front ->
  users ≡ₚ (sub ++ sub') ++ pend' ++ (front ++ queue) ++ (failed ++ failed' : list RequestId).
Proof.
  intros -> Hr. rewrite <- !app_assoc. f_equiv.
  rewrite (Permutation_app_comm pend), <- !app_assoc.
  rewrite (app_assoc queue), (Permutation_app_comm (queue ++ failed)), (app_assoc asked), Hr.
  rewrite <- !app_assoc. f_equiv. rewrite (Permutation_app_comm failed' _), <- !app_assoc.
  by do 3 f_equiv.
Qed.

Lemma nodup_part users (l k : list RequestId) : NoDup users -> users ≡ₚ l ++ k -> NoDup l.
Proof. intros Hn Hp. rewrite Hp in Hn. by apply NoDup_app in Hn as (? & _). Qed.

Lemma turn_inv e0 e event rest w users out now e' effects front :
  run_inv e0 e (event :: rest) w users out -> process e event now = Some (e', effects, front) ->
  (forall o creating' connecting', performs (connection e) event now = Some o ->
     driver_ok (connection e) w o -> creating w ≡ₚ returns o ++ creating' ->
     connecting w ≡ₚ connected o ++ connecting' ->
     run_inv e0 e' (front ++ rest) (turned (connection e) w o creating' connecting') users
       (out ++ effects))
  /\ (performs (connection e) event now = None ->
      run_inv e0 e' (front ++ rest) w users (out ++ effects)).
Proof.
  intros [Hc Hp Hq Hu (failed & Hl & Ha)] Hpr.
  destruct (process_turns e event now e' effects front) as [failed' [Tc [Ta _ _] Tr Tf]]; [apply Hp|done|].
  assert (Hp' : pending_ok e') by by eapply process_pending_ok.
  apply Forall_cons in Hq as [Hs Hq].
  assert (Hq' : Forall (fun event => from_driver event \/ h3_event event) (front ++ rest))
    by (apply Forall_app; split; [by apply front_sources|done]).
  cbn in Hl. pose proof (ledger_turn _ _ _ _ _ _ _ _ _ _ Hl Tr) as Hl'. rewrite <- bind_app in Hl'.
  split; [intros o creating' connecting' Ho Hd Hcr Hco|intros Ho]; rewrite Ho in Tc, Ta, Hl'; cbn in Tc, Ta, Hl'.
  - destruct (step o (connection e)) as [c' ef] eqn:Hst. cbn in Tc, Ta.
    split; try done.
    + unfold turned. rewrite Hst, Tc. cbn. eapply reachable_step; try done.
      * by eapply driver_transport.
      * by eapply nodup_part.
    + exists (failed ++ failed'). split; [done|]. unfold turned. rewrite Hst. cbn.
      rewrite !answered_app, Ha, Ta, <- !app_assoc. f_equiv. rewrite !app_assoc. f_equiv.
      apply Permutation_app_comm.
  - split; try done; [by rewrite Tc|]. exists (failed ++ failed').
    rewrite app_nil_r in Hl'. split; [done|]. by rewrite answered_app, Ha, Ta, <- app_assoc.
Qed.

Lemma event_inv e0 e w users out event :
  run_inv e0 e [] w users out -> from_driver event -> NoDup (users ++ asks event) ->
  run_inv e0 e [event] w (users ++ asks event) out.
Proof.
  intros [Hc Hp Hq Hu (failed & Hl & Ha)] Hd Hn. split; try done.
  - apply Forall_singleton. by left.
  - exists failed. split; [|done]. rewrite Hl. cbn. rewrite app_nil_r, <- !app_assoc.
    do 2 f_equiv. apply Permutation_app_comm.
Qed.

Lemma reachable_run p e0 e queue w users out :
  fresh p e0 -> reachable e0 e queue w users out -> run_inv e0 e queue w users out.
Proof.
  intros Hf. induction 1 as [|e w users out event _ IH Hd Hn
    |e event rest w users out now o cr co e' ef front _ IH Hp Ho Hd Hcr Hco
    |e event rest w users out now e' ef front _ IH Hp Ho].
  - destruct Hf as (Hp & handle & request & client & ->). split; try done.
    + apply ConnS.reachable_start.
    + cbn. destruct request; [apply NoDup_singleton|apply NoDup_nil_2].
    + exists []. cbn. by rewrite !app_nil_r.
  - by apply event_inv.
  - destruct (turn_inv _ _ _ _ _ _ _ _ _ _ _ IH Hp) as [Ht _]. by apply Ht.
  - destruct (turn_inv _ _ _ _ _ _ _ _ _ _ _ IH Hp) as [_ Ht]. by apply Ht.
Qed.

Lemma closed_run p e0 e w users out :
  fresh p e0 -> run_inv e0 e [] w users out ->
  Connection.state (connection e) = ConnectionState.Closed ->
  pending_user_events e = [] /\ held (connection e) = []
  /\ users ≡ₚ answered out ++ (requester <$> creating w).
Proof.
  intros Hf [Hc Hp _ Hu (failed & Hl & Ha)] Hst.
  pose proof (fresh_connection p e0 Hf) as Hfc.
  pose proof (inv_ledger _ _ (reachable_inv _ _ _ _ Hfc Hc)) as Hled.
  assert (Hpe : pending_user_events e = []).
  { destruct (pending_user_events e) as [|x l] eqn:E; [done|].
    destruct (pending_before e Hp) as [_ Hpre]; [by rewrite E|].
    unfold Connection.is_pre_connected in Hpre. by rewrite Hst in Hpre. }
  assert (Hh : held (connection e) = []) by (by eapply ConnT.closed_holds_nothing).
  split_and!; [done|done|]. rewrite Hl, Ha, Hled, Hh. unfold pending. rewrite Hpe. cbn.
  solve_Permutation.
Qed.

(** ** Theorems *)

Section reached.
Context (p : EngineParameters.t) (e0 e : t) (queue : list ProtocolEvent.t) (w : world)
  (users : list RequestId) (out : list Effect.t).


(** Once the connection is closed and the event loop is idle, nothing waits in the
    engine: every request the user ever made has been answered, unless the
    transport still owes a stream for it. *)
Theorem engine_end_answers_all :
  fresh p e0 -> reachable e0 e [] w users out ->
  Connection.state (connection e) = ConnectionState.Closed ->
  pending_user_events e = [] /\ held (connection e) = []
  /\ users ≡ₚ answered out ++ (requester <$> creating w).
Proof.
  intros Hf Hr Hst. by apply (closed_run p e0); [|apply (reachable_run p)|].
Qed.

End reached.

Section never_blocks.
Context (never_blocks : forall d i data d' instructions,
  Decoder.decode_header d i data <> (d', Ok (instructions, DecodeStatus.Blocked))).


End never_blocks.

(** ** Running a list of events *)

Record run : Type := Run {
  engine : t;
  queue : list ProtocolEvent.t;
  world : ConnR.world;
  users : list RequestId;
  out : list Effect.t;
}.

Definition reached (e0 : t) (r : run) : Prop :=
  reachable e0 (engine r) (queue r) (world r) (users r) (out r).

Definition begin (e0 : t) : run :=
  Run e0 [] (start (connection e0)) (option_list (Connection.request_id (connection e0))) [].

(** One turn of the loop, if the layers below can produce it. *)
Definition take_turn (now : f64) (r : run) : option run :=
  let '(Run e queue w users out) := r in
  match queue with
  | [] => None
  | event :: rest =>
      '(e', effects, front) ← process e event now;
      match performs (connection e) event now with
      | None => Some (Run e' (front ++ rest) w users (out ++ effects))
      | Some o =>
          if ConnT.transport_okb (connection e) w o then
            creating' ← ConnT.remaining (returns o) (creating w);
            connecting' ← ConnT.remaining (connected o) (connecting w);
            Some (Run e' (front ++ rest) (turned (connection e) w o creating' connecting') users
                    (out ++ effects))
          else None
      end
  end.

Fixpoint take_turns (fuel : nat) (now : f64) (r : run) : option run :=
  if bool_decide (queue r = []) then Some r
  else match fuel with
  | O => None
  | S fuel' => r' ← take_turn now r; take_turns fuel' now r'
  end.

Definition submit (event : ProtocolEvent.t) (r : run) : option run :=
  match event with
  | ProtocolEvent.H3CapsuleReceived _ _ _ | ProtocolEvent.H3ConnectStreamClosed _
  | ProtocolEvent.H3DatagramReceived _ _ | ProtocolEvent.H3GoawayReceived
  | ProtocolEvent.H3HeadersReceived _ _ | ProtocolEvent.H3SettingsReceived _
  | ProtocolEvent.H3WebTransportStreamOpened _ _ => None
  | _ =>
      if bool_decide (queue r = []) && bool_decide (NoDup (users r ++ asks event))
      then Some (Run (engine r) [event] (world r) (users r ++ asks event) (out r)) else None
  end.

Fixpoint drive (events : list ProtocolEvent.t) (now : f64) (r : run) : option run :=
  match events with
  | [] => Some r
  | event :: rest => r1 ← submit event r; r2 ← take_turns 8 now r1; drive rest now r2
  end.

Lemma take_turn_sound e0 now r r' : reached e0 r -> take_turn now r = Some r' -> reached e0 r'.
Proof.
  destruct r as [e q w us o]. unfold reached. cbn. intros Hr. destruct q as [|event rest]; [done|].
  intros H1. apply bind_Some in H1 as ([[e' ef] front] & Hp & H1).
  destruct (performs (connection e) event now) as [op|] eqn:Ho; [|injection H1 as <-; by eapply reachable_quiet].
  destruct (ConnT.transport_okb _ _ _) eqn:Ht; [|done]. apply ConnT.conn_transport_okb_sound in Ht.
  apply bind_Some in H1 as (cr & Hcr & H1). apply bind_Some in H1 as (co & Hco & H1).
  injection H1 as <-. eapply reachable_turn; try done.
  - by destruct op.
  - by apply ConnT.remaining_spec; [apply ConnT.returns_one|].
  - by apply ConnT.remaining_spec; [apply ConnT.returns_one|].
Qed.

Lemma take_turns_sound fuel e0 now r r' :
  reached e0 r -> take_turns fuel now r = Some r' -> reached e0 r'.
Proof.
  revert r. induction fuel as [|fuel IH]; intros r Hr; cbn [take_turns];
    (case_bool_decide; [by intros [= <-]|]); [done|].
  intros H1. apply bind_Some in H1 as (r1 & H1 & H2). eapply IH, H2. by eapply take_turn_sound.
Qed.

Lemma submit_sound e0 event r r' : reached e0 r -> submit event r = Some r' -> reached e0 r'.
Proof.
  destruct r as [e q w us o]. intros Hr. unfold submit.
  assert (Hs : from_driver event ->
    (if bool_decide (q = []) && bool_decide (NoDup (us ++ asks event))
     then Some (Run e [event] w (us ++ asks event) o) else None) = Some r' -> reached e0 r').
  { intros Hd. destruct (_ && _) eqn:E; [|done]. bool_to_prop. intros [= <-].
    subst. by apply reachable_event. }
  destruct event; try done; by apply Hs.
Qed.

Lemma engine_drive_sound e0 events now r r' :
  reached e0 r -> drive events now r = Some r' -> reached e0 r'.
Proof.
  revert r. induction events as [|event events IH]; intros r Hr; cbn [drive]; [by intros [= <-]|].
  intros H1. apply bind_Some in H1 as (r1 & H1 & H2). apply bind_Some in H2 as (r2 & H2 & H3).
  eapply IH, H3. eapply take_turns_sound, H2. by eapply submit_sound.
Qed.

Lemma engine_driven e0 events now r : reached e0 r -> reached e0 (default r (drive events now r)).
Proof.
  intros Hr. destruct (drive events now r) as [r'|] eqn:E; [by eapply engine_drive_sound|done].
Qed.

End EngineT.

(** ** An example run

    A client asks for a session before it is connected; the request waits, is
    replayed when the SETTINGS of the server arrive and then the connection is
    lost. *)

Import Literal.

Definition example_client : WebTransportEngine.t :=
  WebTransportEngine.new 1 (Some 1) true H3T.example_parameters.

Lemma client_fresh : fresh H3T.example_parameters example_client.
Proof. split; [split; vm_compute; split; congruence|by repeat eexists]. Qed.

Definition example_waiting : list ProtocolEvent.t :=
  [ProtocolEvent.UserCreateSession 2 (b: "localhost") (b: "/chat") [] None;
   ProtocolEvent.TransportHandshakeCompleted; ProtocolEvent.InternalBindH3LocalStreams 2 6 10;
   ProtocolEvent.TransportQuicParametersReceived 1200; ProtocolEvent.TransportStreamOpened 3;
   ProtocolEvent.TransportStreamDataReceived 3 [x00] false].

(** The SETTINGS of a server with the same parameters. *)
Definition example_connecting : list ProtocolEvent.t :=
  [ProtocolEvent.TransportStreamDataReceived 3
     (H3W.settings_frame (WebTransportEngine.h3 H3T.example_server)) false;
   ProtocolEvent.UserDiagnoseConnection 3].

Definition example_ending : list ProtocolEvent.t :=
  [ProtocolEvent.TransportConnectionTerminated 0 (b: "idle")].

Definition example_waits : run :=
  default (begin example_client) (drive example_waiting SessionT.zero (begin example_client)).
Definition example_connected : run :=
  default example_waits (drive example_connecting SessionT.zero example_waits).
Definition example_lost : run :=
  default example_connected (drive example_ending SessionT.zero example_connected).

Lemma client_waits_reached : reached example_client example_waits.
Proof. apply engine_driven, reachable_new. Qed.

Lemma client_connected_reached : reached example_client example_connected.
Proof. apply engine_driven, client_waits_reached. Qed.

Lemma client_lost_reached : reached example_client example_lost.
Proof. apply engine_driven, client_connected_reached. Qed.

(** ** The properties at work on the example *)


Lemma engine_end_answers_all_witness :
  ConnR.held (WebTransportEngine.connection (engine example_lost)) = []
  /\ users example_lost ≡ₚ answered (out example_lost)
       ++ (ConnP.requester <$> ConnR.creating (world example_lost)).
Proof.
  assert (Hq : queue example_lost = []) by (vm_compute; reflexivity).
  pose proof client_lost_reached as Hr. unfold reached in Hr. rewrite Hq in Hr.
  apply (engine_end_answers_all H3T.example_parameters example_client (engine example_lost)
    (world example_lost) (users example_lost) (out example_lost) client_fresh Hr).
  vm_compute. reflexivity.
Defined.


End EngineT.
