(* ===== verification/Quinn.v ===== *)
(** * The QUIC library

    quinn-proto, the sans-I/O QUIC implementation the transport drives, is outside
    the repository: the entry points the code calls are the fields of the classes
    [Quinn] and [QuinnEndpoint], and the transport is parametric on them.  What the
    theorems rely on is stated as laws of the library, from its documentation. *)

From S2P Require Import Prelude.
From S2P Require Import Types.

(** [std::time::Instant] and [Duration], in nanoseconds. *)
Notation Instant := Z (only parsing).
Notation Duration := Z (only parsing).

Module QuicDir.
Inductive t : Set :=
| Bi
| Uni.
#[export] Instance QuicDir_eq_dec : EqDecision t.
Proof. solve_decision. Defined.
End QuicDir.
Export (hints) QuicDir.

Module QuicConnectionError.
Inductive t : Set :=
| ApplicationClosed (error_code : Z)
| CidsExhausted
| ConnectionClosed (error_code : Z)
| LocallyClosed
| Reset
| TimedOut
| TransportError (code : Z)
| VersionMismatch.
End QuicConnectionError.

(** [Event] with its [StreamEvent]s; [Other] is every event the code ignores. *)
Module QuicEvent.
Inductive t : Set :=
| Connected
| ConnectionLost (reason : QuicConnectionError.t)
| DatagramReceived
| StreamAvailable (dir : QuicDir.t)
| StreamFinished (id : StreamId)
| StreamOpened (dir : QuicDir.t)
| StreamReadable (id : StreamId)
| StreamStopped (id : StreamId) (error_code : Z)
| StreamWritable (id : StreamId)
| Other.
End QuicEvent.

(** The result of [SendStream::write]. *)
Module QuicWrite.
Inductive t : Set :=
| Written (written : Z)
| Blocked
| Stopped (error_code : Z)
| ClosedStream.
End QuicWrite.

(** The result of [Chunks::next]. *)
Module QuicRead.
Inductive t : Set :=
| Chunk (data : bytes)
| Finished
| Reset (error_code : Z)
| Blocked.
End QuicRead.

(** [std::net::SocketAddr] and [IpAddr]. *)
Module IpAddr.
Inductive t : Set :=
| V4 (ip : Z)
| V6 (ip : Z).
End IpAddr.

Module SocketAddr.
Inductive t : Set :=
| V4 (ip port : Z)
| V6 (ip port flowinfo scope_id : Z).

Definition is_ipv4 (address : t) : bool := match address with V4 _ _ => true | V6 _ _ _ _ => false end.

Definition ip (address : t) : IpAddr.t :=
  match address with V4 ip _ => IpAddr.V4 ip | V6 ip _ _ _ => IpAddr.V6 ip end.
End SocketAddr.

(** What the code reads of a [Transmit]: the workspace holds its bytes. *)
Module QuicTransmit.
Record t : Set := mk {
  destination : SocketAddr.t;
  size : Z;
  segment_size : option Z;
}.
End QuicTransmit.

Class Quinn := {
  QuicConnection : Type;
  QuicConnectionEvent : Type;
  QuicEndpointEvent : Type;
  quic_poll : QuicConnection -> QuicConnection * option QuicEvent.t;
  quic_handle_event : QuicConnection -> QuicConnectionEvent -> QuicConnection;
  quic_handle_timeout : QuicConnection -> Instant -> QuicConnection;
  quic_poll_timeout : QuicConnection -> option Instant;
  quic_poll_endpoint_events : QuicConnection -> QuicConnection * option QuicEndpointEvent;
  (** The workspace in and out. *)
  quic_poll_transmit : QuicConnection -> Instant -> Z -> bytes ->
    QuicConnection * bytes * option QuicTransmit.t;
  quic_is_closed : QuicConnection -> bool;
  quic_close : QuicConnection -> Instant -> Z -> bytes -> QuicConnection;
  quic_open : QuicConnection -> QuicDir.t -> QuicConnection * option StreamId;
  quic_accept : QuicConnection -> QuicDir.t -> QuicConnection * option StreamId;
  quic_write : QuicConnection -> StreamId -> bytes -> QuicConnection * QuicWrite.t;
  quic_finish : QuicConnection -> StreamId -> QuicConnection;
  quic_reset : QuicConnection -> StreamId -> Z -> QuicConnection;
  quic_stop : QuicConnection -> StreamId -> Z -> QuicConnection;
  (** [RecvStream::read], whether the stream can be read, and its [Chunks]. *)
  quic_read : QuicConnection -> StreamId -> QuicConnection * bool;
  quic_next : QuicConnection -> StreamId -> Z -> QuicConnection * QuicRead.t;
  quic_finalize : QuicConnection -> StreamId -> QuicConnection;
  quic_datagram_recv : QuicConnection -> QuicConnection * option bytes;
  quic_datagram_send : QuicConnection -> bytes -> QuicConnection;
  quic_datagram_max_size : QuicConnection -> option Z;
  quic_export_keying_material : QuicConnection -> Z -> bytes -> bytes -> option bytes;
  quic_remote_address : QuicConnection -> SocketAddr.t;
  quic_is_drained : QuicEndpointEvent -> bool;
  (** The [Display] text of an error. *)
  quic_error_text : QuicConnectionError.t -> str;
}.

(** [ConnectionHandle], an index. *)
Notation QuicConnectionHandle := Z (only parsing).

Module QuicDatagramEvent.
Inductive t `{Quinn} (Incoming : Type) : Type :=
| ConnectionEvent (handle : QuicConnectionHandle) (event : QuicConnectionEvent)
| NewConnection (incoming : Incoming)
| Response (transmit : QuicTransmit.t).
#[global] Arguments ConnectionEvent {_ _}.
#[global] Arguments NewConnection {_ _}.
#[global] Arguments Response {_ _}.
End QuicDatagramEvent.

(** [Endpoint]; where it takes the workspace it returns it. *)
Class QuinnEndpoint `{Quinn} := {
  QuicEndpoint : Type;
  QuicClientConfig : Type;
  QuicIncoming : Type;
  quic_connect : QuicEndpoint -> Instant -> QuicClientConfig -> SocketAddr.t -> str ->
    QuicEndpoint * option (QuicConnectionHandle * QuicConnection);
  quic_handle : QuicEndpoint -> Instant -> SocketAddr.t -> option IpAddr.t -> bytes -> bytes ->
    QuicEndpoint * bytes * option (QuicDatagramEvent.t QuicIncoming);
  (** The event it may return is dropped by the code. *)
  quic_endpoint_handle_event : QuicEndpoint -> QuicConnectionHandle -> QuicEndpointEvent ->
    QuicEndpoint * option QuicConnectionEvent;
  quic_refuse : QuicEndpoint -> QuicIncoming -> bytes -> QuicEndpoint * bytes * QuicTransmit.t;
  quic_endpoint_accept : QuicEndpoint -> QuicIncoming -> Instant -> bytes ->
    QuicEndpoint * bytes * option (QuicConnectionHandle * QuicConnection);
}.

(** What the documentation promises of streams: [SendStream::write] takes a prefix of
    the data, never an empty one of data that is not empty; [SendStream::finish] adds
    no data; [Chunks::next] returns what arrived in order, at most as much as it is
    asked for, and reports the end once all of it has been read. *)
Class QuinnStreams `{Quinn} := {
  quic_written : QuicConnection -> StreamId -> bytes;
  quic_finished : QuicConnection -> StreamId -> bool;
  quic_unread : QuicConnection -> StreamId -> bytes;
  quic_write_law c i data c' r : data <> [] -> quic_write c i data = (c', r) ->
    (forall j, quic_finished c' j = quic_finished c j)
    /\ (forall j, j <> i -> quic_written c' j = quic_written c j)
    /\ match r with
       | QuicWrite.Written n => 0 < n <= len data
           /\ quic_written c' i = quic_written c i ++ take (Z.to_nat n) data
       | _ => quic_written c' i = quic_written c i
       end;
  quic_finish_law c i :
    (forall j, quic_written (quic_finish c i) j = quic_written c j)
    /\ quic_finished (quic_finish c i) i = true
    /\ (forall j, j <> i -> quic_finished (quic_finish c i) j = quic_finished c j);
  quic_read_law c i c' readable : quic_read c i = (c', readable) -> quic_unread c' i = quic_unread c i;
  quic_next_law c i limit c' r : 0 < limit -> quic_next c i limit = (c', r) ->
    match r with
    | QuicRead.Chunk data => 0 < len data <= limit /\ quic_unread c i = data ++ quic_unread c' i
    | QuicRead.Finished => quic_unread c i = [] /\ quic_unread c' i = []
    | QuicRead.Reset _ => True
    | QuicRead.Blocked => quic_unread c i = [] /\ quic_unread c' i = []
    end;
  quic_finalize_law c i : quic_unread (quic_finalize c i) i = quic_unread c i;
}.
