(* ===== verification/QuinnPipe.v ===== *)
(** * A library behind the QUIC interface

    Instances of [Quinn], [QuinnStreams] and [QuinnEndpoint] to run the examples with:
    a connection opens a limited number of streams, takes a limited number of bytes,
    and hands out the data and events it was set up with; an endpoint numbers its
    connections. *)

From S2P Require Import Prelude.
From S2P Require Import Types.
From S2P Require Import Quinn.

Module Pipe.

Record t : Type := mk {
  next_bi : StreamId;
  next_uni : StreamId;
  (** How many more streams it opens, and how many more bytes it takes. *)
  streams : nat;
  credit : nat;
  written : gmap StreamId bytes;
  ended : gset StreamId;
  unread : gmap StreamId bytes;
  events : list QuicEvent.t;
  outgoing : list bytes;
  closed : bool;
  drained : bool;
}.

#[export] Instance eta_pipe : Eta t := fun p =>
  mk (next_bi p) (next_uni p) (streams p) (credit p) (written p) (ended p) (unread p) (events p)
     (outgoing p) (closed p) (drained p).
#[export] Instance set_next_bi : Setter next_bi := ltac:(build_setter).
#[export] Instance set_next_uni : Setter next_uni := ltac:(build_setter).
#[export] Instance set_pipe_streams : Setter streams := ltac:(build_setter).
#[export] Instance set_credit : Setter credit := ltac:(build_setter).
#[export] Instance set_written : Setter written := ltac:(build_setter).
#[export] Instance set_ended : Setter ended := ltac:(build_setter).
#[export] Instance set_unread : Setter unread := ltac:(build_setter).
#[export] Instance set_events : Setter events := ltac:(build_setter).
#[export] Instance set_outgoing : Setter outgoing := ltac:(build_setter).
#[export] Instance set_closed : Setter closed := ltac:(build_setter).
#[export] Instance set_drained : Setter drained := ltac:(build_setter).

(** A new connection of a client or a server. *)
Definition new (is_client : bool) : t :=
  let role := if is_client then 0 else 1 in
  mk role (role + 2) 8 1000 ∅ ∅ ∅ [] [] false false.

Definition content (m : gmap StreamId bytes) (i : StreamId) : bytes := default [] (m !! i).

Definition open (p : t) (dir : QuicDir.t) : t * option StreamId :=
  match streams p with
  | O => (p, None)
  | S streams' =>
      let p := p <| streams := streams' |> in
      match dir with
      | QuicDir.Bi => (p <| next_bi := next_bi p + 4 |>, Some (next_bi p))
      | QuicDir.Uni => (p <| next_uni := next_uni p + 4 |>, Some (next_uni p))
      end
  end.

Definition write (p : t) (i : StreamId) (data : bytes) : t * QuicWrite.t :=
  let n := Nat.min (credit p) (length data) in
  if Nat.eqb n 0 then (p, QuicWrite.Blocked)
  else (p <| credit := (credit p - n)%nat |>
          <| written := <[i := content (written p) i ++ take n data]> (written p) |>,
        QuicWrite.Written (Z.of_nat n)).

Definition read (p : t) (i : StreamId) (limit : Z) : t * QuicRead.t :=
  match content (unread p) i with
  | [] => (p, QuicRead.Blocked)
  | data =>
      (p <| unread := <[i := drop (Z.to_nat limit) data]> (unread p) |>,
       QuicRead.Chunk (take (Z.to_nat limit) data))
  end.

Definition poll (p : t) : t * option QuicEvent.t :=
  match events p with
  | [] => (p, None)
  | event :: rest => (p <| events := rest |>, Some event)
  end.

Definition transmit (p : t) (workspace : bytes) : t * bytes * option QuicTransmit.t :=
  match outgoing p with
  | [] => (p, workspace, None)
  | data :: rest =>
      let workspace := workspace ++ data in
      (p <| outgoing := rest |>, workspace,
       Some (QuicTransmit.mk (SocketAddr.V4 1 443) (len workspace) None))
  end.

(** A connection event is what arrives on a stream; the only endpoint event reports
    that the connection is over. *)
#[export] Instance pipe : Quinn := {|
  QuicConnection := t;
  QuicConnectionEvent := StreamId * bytes;
  QuicEndpointEvent := ();
  quic_poll := poll;
  quic_handle_event := fun p '(i, data) =>
    p <| unread := <[i := content (unread p) i ++ data]> (unread p) |>
      <| events := events p ++ [QuicEvent.StreamReadable i] |>;
  quic_handle_timeout := fun p _ => p;
  quic_poll_timeout := fun _ => None;
  quic_poll_endpoint_events := fun p =>
    if drained p then (p <| drained := false |>, Some ()) else (p, None);
  quic_poll_transmit := fun p _ _ workspace => transmit p workspace;
  quic_is_closed := closed;
  quic_close := fun p _ _ _ => p <| closed := true |> <| drained := true |>;
  quic_open := open;
  quic_accept := fun p _ => (p, None);
  quic_write := write;
  quic_finish := fun p i => p <| ended := {[ i ]} ∪ ended p |>;
  quic_reset := fun p _ _ => p;
  quic_stop := fun p _ _ => p;
  quic_read := fun p _ => (p, true);
  quic_next := read;
  quic_finalize := fun p _ => p;
  quic_datagram_recv := fun p => (p, None);
  quic_datagram_send := fun p _ => p;
  quic_datagram_max_size := fun _ => Some 1200;
  quic_export_keying_material := fun _ length _ _ => Some (replicate (Z.to_nat length) x00);
  quic_remote_address := fun _ => SocketAddr.V4 1 443;
  quic_is_drained := fun _ => true;
  quic_error_text := fun _ => [];
|}.

(** ** It keeps the promises of the library *)

Lemma write_law p i data p' r :
  data <> [] -> write p i data = (p', r) ->
  (forall j, bool_decide (j ∈ ended p') = bool_decide (j ∈ ended p))
  /\ (forall j, j <> i -> content (written p') j = content (written p) j)
  /\ match r with
     | QuicWrite.Written n => 0 < n <= len data
         /\ content (written p') i = content (written p) i ++ take (Z.to_nat n) data
     | _ => content (written p') i = content (written p) i
     end.
Proof.
  intros Hd. unfold write. destruct (Nat.eqb _ 0) eqn:Hn; intros [= <- <-]; [done|].
  apply Nat.eqb_neq in Hn. cbn. unfold content. split_and!.
  - done.
  - intros j Hj. by rewrite lookup_insert_ne.
  - lia.
  - unfold len. lia.
  - rewrite lookup_insert_eq. cbn. by rewrite Nat2Z.id.
Qed.

Lemma read_law p i limit p' r :
  0 < limit -> read p i limit = (p', r) ->
  match r with
  | QuicRead.Chunk data =>
      0 < len data <= limit /\ content (unread p) i = data ++ content (unread p') i
  | QuicRead.Finished => content (unread p) i = [] /\ content (unread p') i = []
  | QuicRead.Reset _ => True
  | QuicRead.Blocked => content (unread p) i = [] /\ content (unread p') i = []
  end.
Proof.
  intros Hl. unfold read. destruct (content (unread p) i) as [|x data] eqn:E; intros [= <- <-]; [done|].
  split.
  - unfold len. rewrite length_take. cbn [length]. lia.
  - unfold content. cbn. rewrite lookup_insert_eq. symmetry. apply (take_drop (Z.to_nat limit) (x :: data)).
Qed.

Lemma finish_law p i :
  (forall j, content (written (quic_finish p i)) j = content (written p) j)
  /\ bool_decide (i ∈ ended (quic_finish p i)) = true
  /\ (forall j, j <> i -> bool_decide (j ∈ ended (quic_finish p i)) = bool_decide (j ∈ ended p)).
Proof.
  cbn. split_and!; [done|by apply bool_decide_eq_true; set_solver|].
  intros j Hj. apply bool_decide_ext. set_solver.
Qed.

#[export] Instance pipe_streams : QuinnStreams := {|
  quic_written := fun p => content (written p);
  quic_finished := fun p i => bool_decide (i ∈ ended p);
  quic_unread := fun p => content (unread p);
  quic_write_law := write_law;
  quic_finish_law := finish_law;
  quic_read_law := fun p i p' readable H => f_equal (fun r => content (unread r.1) i) (eq_sym H);
  quic_next_law := read_law;
  quic_finalize_law := fun p i => eq_refl;
|}.

(** ** An endpoint *)

(** It gives every datagram to the connection its first byte names, once that is
    known, and answers every other one. *)
#[export] Instance pipe_endpoint : QuinnEndpoint := {|
  QuicEndpoint := Z * list Z;
  QuicClientConfig := ();
  QuicIncoming := ();
  quic_connect := fun '(next, handles) _ _ _ name =>
    if bool_decide (name = []) then ((next, handles), None)
    else ((next + 1, handles ++ [next]), Some (next, new true));
  quic_handle := fun '(next, handles) _ _ _ data workspace =>
    match data with
    | x00 :: _ => ((next, handles), workspace, Some (QuicDatagramEvent.NewConnection ()))
    | h :: i :: payload =>
        if bool_decide (byte_val h ∈ handles)
        then ((next, handles), workspace,
              Some (QuicDatagramEvent.ConnectionEvent (byte_val h) (byte_val i, payload)))
        else ((next, handles), workspace ++ data,
              Some (QuicDatagramEvent.Response
                      (QuicTransmit.mk (SocketAddr.V4 1 443) (len (workspace ++ data)) None)))
    | _ => ((next, handles), workspace, None)
    end;
  quic_endpoint_handle_event := fun '(next, handles) handle _ =>
    ((next, filter (fun h => h <> handle) handles), None);
  quic_refuse := fun e _ workspace =>
    (e, workspace ++ [x01],
     QuicTransmit.mk (SocketAddr.V4 1 443) (len (workspace ++ [x01])) None);
  quic_endpoint_accept := fun '(next, handles) _ _ workspace =>
    ((next + 1, handles ++ [next]), workspace, Some (next, new false));
|}.

End Pipe.
