(* ===== verification/TransportMachine.v ===== *)
(** * QUIC connection coordinator

    [crates/src/transport/connection.rs]: [TransportConnection] carries out the
    effects of the engine on a QUIC connection and turns what happens there into
    events of the engine.  An effect may queue events, which the engine answers
    with more effects; a run that has not ended within its fuel is [None]. *)

From S2P Require Import Prelude.
From S2P Require Import Types.
From S2P Require Import Events.
From S2P Require Import Qpack.
From S2P Require Import H3Machine.
From S2P Require Import EngineMachine.
From S2P Require Import Quinn.

Module SendBuffer.
Record t : Set := mk {
  chunks : list bytes;
  finished : bool;
}.
#[export] Instance eta_send_buffer : Eta t := fun b => mk (chunks b) (finished b).
#[export] Instance set_chunks : Setter chunks := ltac:(build_setter).
#[export] Instance set_finished : Setter finished := ltac:(build_setter).

Definition default_buffer : t := mk [] false.
End SendBuffer.
Export (hints) SendBuffer.

Module TransportConnection.
Section TransportConnection.
Context `{LsQpack, Quinn}.

Record t : Type := mk {
  connection : QuicConnection;
  early_event_ttl : option Duration;
  engine : WebTransportEngine.t;
  next_early_event_time : option Instant;
  next_resource_cleanup_time : option Instant;
  pending_effects : list Effect.t;
  pending_receives : gmap StreamId Z;
  resource_cleanup_interval : option Duration;
  send_buffers : gmap StreamId SendBuffer.t;
}.

#[global] Instance eta_transport : Eta t := fun c =>
  mk (connection c) (early_event_ttl c) (engine c) (next_early_event_time c)
     (next_resource_cleanup_time c) (pending_effects c) (pending_receives c)
     (resource_cleanup_interval c) (send_buffers c).
#[global] Instance set_quic_connection : Setter connection := ltac:(build_setter).
#[global] Instance set_engine : Setter engine := ltac:(build_setter).
#[global] Instance set_next_early_event_time : Setter next_early_event_time := ltac:(build_setter).
#[global] Instance set_next_resource_cleanup_time : Setter next_resource_cleanup_time :=
  ltac:(build_setter).
#[global] Instance set_pending_effects : Setter pending_effects := ltac:(build_setter).
#[global] Instance set_pending_receives : Setter pending_receives := ltac:(build_setter).
#[global] Instance set_send_buffers : Setter send_buffers := ltac:(build_setter).

Definition new (connection : QuicConnection) (engine : WebTransportEngine.t)
    (resource_cleanup_interval early_event_ttl : option Duration) (now_instant : Instant) : t := {|
  connection := connection;
  early_event_ttl := early_event_ttl;
  engine := engine;
  next_early_event_time := (fun interval => now_instant + interval) <$> early_event_ttl;
  next_resource_cleanup_time :=
    (fun interval => now_instant + interval) <$> resource_cleanup_interval;
  pending_effects := [];
  pending_receives := ∅;
  resource_cleanup_interval := resource_cleanup_interval;
  send_buffers := ∅;
|}.

(** ** Polling *)

Definition poll_effects (c : t) : t * option Effect.t :=
  match pending_effects c with
  | [] => (c, None)
  | effect :: rest => (c <| pending_effects := rest |>, Some effect)
  end.

Definition poll_endpoint_events (c : t) : t * option QuicEndpointEvent :=
  let '(connection', event) := quic_poll_endpoint_events (connection c) in
  (c <| connection := connection' |>, event).

(** The earlier of a deadline and the deadlines so far. *)
Definition earliest (so_far deadline : option Instant) : option Instant :=
  match deadline with
  | None => so_far
  | Some deadline => Some (from_option (fun so_far => Z.min so_far deadline) deadline so_far)
  end.

Definition poll_timeout (c : t) : option Instant :=
  earliest (earliest (quic_poll_timeout (connection c)) (next_resource_cleanup_time c))
           (next_early_event_time c).

Definition poll_transmit (c : t) (workspace : bytes) (now_instant : Instant)
    : t * bytes * option QuicTransmit.t :=
  let '(connection', workspace, transmit) :=
    quic_poll_transmit (connection c) now_instant UDP_TRANSMIT_BATCH_CAPACITY workspace in
  (c <| connection := connection' |>, workspace, transmit).

(** ** Stream data *)

(** How far the loop of [flush_stream] comes. *)
Inductive flushed : Type :=
| Drained
| StillBlocked (chunks : list bytes)
| Gone.

Fixpoint write_chunks (fuel : nat) (connection : QuicConnection) (stream_id : StreamId)
    (chunks : list bytes) : option (QuicConnection * flushed) :=
  match chunks with
  | [] => Some (connection, Drained)
  | chunk :: rest =>
      match fuel with
      | O => None
      | S fuel' =>
          match quic_write connection stream_id chunk with
          | (connection, QuicWrite.Written written) =>
              if written =? len chunk then write_chunks fuel' connection stream_id rest
              else write_chunks fuel' connection stream_id (drop (Z.to_nat written) chunk :: rest)
          | (connection, QuicWrite.Blocked) => Some (connection, StillBlocked chunks)
          | (connection, QuicWrite.Stopped _) | (connection, QuicWrite.ClosedStream) =>
              Some (connection, Gone)
          end
      end
  end.

Definition flush_stream (fuel : nat) (c : t) (stream_id : StreamId)
    : option (t * option ProtocolEvent.t) :=
  match send_buffers c !! stream_id with
  | None => Some (c, None)
  | Some buffer =>
      '(connection', outcome) ←
        write_chunks fuel (connection c) stream_id (SendBuffer.chunks buffer);
      let c := c <| connection := connection' |> in
      match outcome with
      | StillBlocked chunks =>
          Some (c <| send_buffers :=
                       <[stream_id := buffer <| SendBuffer.chunks := chunks |>]> (send_buffers c) |>,
                None)
      | Gone => Some (c <| send_buffers := delete stream_id (send_buffers c) |>, None)
      | Drained =>
          let c := if SendBuffer.finished buffer
                   then c <| connection := quic_finish (connection c) stream_id |> else c in
          Some (c <| send_buffers := delete stream_id (send_buffers c) |>,
                Some (ProtocolEvent.InternalCompleteQuicData stream_id))
      end
  end.

(** How the loop of [recv_stream_data] ends, with the data read so far. *)
Inductive received : Type :=
| ReadMore (data : bytes)
| ReadFinished (data : bytes)
| ReadReset (error_code : Z).

Fixpoint read_chunks (fuel : nat) (connection : QuicConnection) (stream_id : StreamId)
    (limit : Z) (data : bytes) : option (QuicConnection * received) :=
  if limit <=? len data then Some (connection, ReadMore data)
  else match fuel with
  | O => None
  | S fuel' =>
      match quic_next connection stream_id (limit - len data) with
      | (connection, QuicRead.Chunk chunk) =>
          read_chunks fuel' connection stream_id limit (data ++ chunk)
      | (connection, QuicRead.Finished) => Some (connection, ReadFinished data)
      | (connection, QuicRead.Reset error_code) => Some (connection, ReadReset error_code)
      | (connection, QuicRead.Blocked) => Some (connection, ReadMore data)
      end
  end.

(** [usize::try_from(max_size)] never fails on the 64-bit targets. *)
Definition recv_stream_data (fuel : nat) (c : t) (stream_id : StreamId)
    : option (t * option ProtocolEvent.t) :=
  match pending_receives c !! stream_id with
  | None => Some (c, None)
  | Some limit =>
      let forget c := c <| pending_receives := delete stream_id (pending_receives c) |> in
      match quic_read (connection c) stream_id with
      | (connection', false) => Some (forget (c <| connection := connection' |>), None)
      | (connection', true) =>
          '(connection', outcome) ← read_chunks fuel connection' stream_id limit [];
          let c := c <| connection := quic_finalize connection' stream_id |> in
          match outcome with
          | ReadReset error_code =>
              Some (forget c,
                    Some (ProtocolEvent.TransportResetStreamReceived stream_id error_code))
          | ReadMore data =>
              if bool_decide (data = []) then Some (c, None)
              else Some (forget c,
                         Some (ProtocolEvent.TransportStreamDataReceived stream_id data false))
          | ReadFinished data =>
              Some (forget c,
                    Some (ProtocolEvent.TransportStreamDataReceived stream_id data true))
          end
      end
  end.

(** ** Effects *)

(** [QuicVarInt::try_from] on an identifier or a code. *)
Definition varint_try_from (z : Z) : option Z :=
  if z <=? QUIC_VARINT_LIMIT then Some z else None.

(** The queue of events an effect adds to, next to the connection. *)
Notation queue := (list ProtocolEvent.t).

Definition push (r : option (t * option ProtocolEvent.t)) (event_queue : queue)
    : option (t * queue) :=
  '(c, event) ← r;
  Some (c, event_queue ++ option_list event).

(** Three unidirectional streams, all of them opened whether or not each is granted. *)
Definition open_local_streams (connection : QuicConnection)
    : QuicConnection * option (StreamId * StreamId * StreamId) :=
  let '(connection, control) := quic_open connection QuicDir.Uni in
  let '(connection, encoder) := quic_open connection QuicDir.Uni in
  let '(connection, decoder) := quic_open connection QuicDir.Uni in
  (connection,
   match control, encoder, decoder with
   | Some control, Some encoder, Some decoder => Some (control, encoder, decoder)
   | _, _, _ => None
   end).

Definition send_data (fuel : nat) (c : t) (event_queue : queue) (stream_id : StreamId)
    (data : bytes) (end_stream : bool) : option (t * queue) :=
  match varint_try_from stream_id with
  | None => Some (c, event_queue)
  | Some stream_id =>
      let buffer := default SendBuffer.default_buffer (send_buffers c !! stream_id) in
      let buffer := if bool_decide (data = []) then buffer
                    else buffer <| SendBuffer.chunks := SendBuffer.chunks buffer ++ [data] |> in
      let buffer := if end_stream then buffer <| SendBuffer.finished := true |> else buffer in
      let c := c <| send_buffers := <[stream_id := buffer]> (send_buffers c) |> in
      push (flush_stream fuel c stream_id) event_queue
  end.

(** The answer to an export of keying material. *)
Definition keying_material (connection : QuicConnection) (request_id : RequestId) (label : str)
    (context : bytes) (length : Z) : Effect.t :=
  match quic_export_keying_material connection length label context with
  | Some material =>
      Effect.NotifyRequestDone request_id (RequestResult.KeyingMaterial material)
  | None =>
      Effect.NotifyRequestFailed request_id ErrorSource.Session (Some ERR_LIB_INTERNAL_ERROR)
        (b: "tls_keying_material resolve failed")
  end.

Section effects.
Context (fuel : nat) (now_instant : Instant).

(** [process_effects] calls itself on the effects an encoder of the engine
    returns; [nested] is that call. *)
Context (nested : t -> queue -> list Effect.t -> option (t * queue)).

Definition process_close (c : t) (event_queue : queue) (error_code : ErrorCode)
    (reason : option str) : option (t * queue) :=
  if quic_is_closed (connection c) then Some (c, event_queue)
  else
    let connection' := quic_close (connection c) now_instant
      (default 0 (varint_try_from error_code)) (default [] reason) in
    Some (c <| connection := connection' |>,
          event_queue ++ [ProtocolEvent.TransportConnectionTerminated error_code
                            (default [] reason)]).

Definition create_connect_stream (c : t) (event_queue : queue) (request_id : RequestId)
    (authority path : str) (headers : Headers) : option (t * queue) :=
  match quic_open (connection c) QuicDir.Bi with
  | (connection', Some stream_id) =>
      let c := c <| connection := connection' |> in
      let '(engine', encoded) :=
        WebTransportEngine.encode_connect_request (engine c) stream_id authority path headers in
      let c := c <| engine := engine' |> in
      match encoded with
      | Ok effects =>
          '(c, event_queue) ← nested c event_queue effects;
          Some (c, event_queue
                   ++ [ProtocolEvent.InternalBindH3ConnectStream request_id stream_id])
      | Err _ =>
          Some (c, event_queue ++ [ProtocolEvent.InternalFailH3ConnectStream request_id None
                                     (b: "wt_session encode failed")])
      end
  | (connection', None) =>
      Some (c <| connection := connection' |>,
            event_queue ++ [ProtocolEvent.InternalDeferH3ConnectStream request_id])
  end.

Definition create_local_streams (c : t) (event_queue : queue) : option (t * queue) :=
  let '(connection', ids) := open_local_streams (connection c) in
  let event :=
    match ids with
    | Some (control, encoder, decoder) =>
        ProtocolEvent.InternalBindH3LocalStreams control encoder decoder
    | None => ProtocolEvent.InternalFailH3LocalStreams
    end in
  Some (c <| connection := connection' |>, event_queue ++ [event]).

Definition create_quic_stream (c : t) (event_queue : queue) (request_id : RequestId)
    (session_id : SessionId) (is_unidirectional : bool) : option (t * queue) :=
  let direction := if is_unidirectional then QuicDir.Uni else QuicDir.Bi in
  match quic_open (connection c) direction with
  | (connection', Some stream_id) =>
      let c := c <| connection := connection' |> in
      let effects :=
        WebTransportEngine.encode_stream_header stream_id session_id is_unidirectional in
      '(c, event_queue) ← nested c event_queue effects;
      Some (c, event_queue ++ [ProtocolEvent.InternalBindQuicStream request_id stream_id
                                 session_id is_unidirectional])
  | (connection', None) =>
      Some (c <| connection := connection' |>,
            event_queue ++ [ProtocolEvent.InternalDeferQuicStream request_id session_id
                              is_unidirectional])
  end.

(** The effects of an encoder, or none when it fails. *)
Definition send_encoded (c : t) (event_queue : queue)
    (encoded : result (list Effect.t) WebTransportError.t) : option (t * queue) :=
  match encoded with
  | Ok effects => nested c event_queue effects
  | Err _ => Some (c, event_queue)
  end.

(** The body of the loop of [process_effects]. *)
Definition process_effect (c : t) (event_queue : queue) (effect : Effect.t)
    : option (t * queue) :=
  match effect with
  | Effect.CloseQuicConnection error_code reason => process_close c event_queue error_code reason
  | Effect.CreateH3ConnectStream request_id authority path headers =>
      create_connect_stream c event_queue request_id authority path headers
  | Effect.CreateH3LocalStreams => create_local_streams c event_queue
  | Effect.CreateQuicStream request_id session_id is_unidirectional =>
      create_quic_stream c event_queue request_id session_id is_unidirectional
  | Effect.ExportTlsKeyingMaterial request_id label context length =>
      let answer := keying_material (connection c) request_id label context length in
      Some (c <| pending_effects := pending_effects c ++ [answer] |>, event_queue)
  | Effect.ReceiveQuicData stream_id max_size =>
      match varint_try_from stream_id with
      | None => Some (c, event_queue)
      | Some stream_id =>
          let c := c <| pending_receives := <[stream_id := max_size]> (pending_receives c) |> in
          push (recv_stream_data fuel c stream_id) event_queue
      end
  | Effect.ResetQuicStream stream_id error_code =>
      match varint_try_from stream_id with
      | None => Some (c, event_queue)
      | Some stream_id =>
          let connection' := quic_reset (connection c) stream_id
            (default 0 (varint_try_from error_code)) in
          Some (c <| connection := connection' |>
                  <| send_buffers := delete stream_id (send_buffers c) |>, event_queue)
      end
  | Effect.SendH3Capsule stream_id capsule_type capsule_value end_stream =>
      send_encoded c event_queue
        (WebTransportEngine.encode_capsule stream_id capsule_type capsule_value end_stream)
  | Effect.SendH3Datagram session_id data =>
      send_encoded c event_queue (WebTransportEngine.encode_datagram session_id data)
  | Effect.SendH3Goaway identifier =>
      nested c event_queue (WebTransportEngine.encode_goaway (engine c) identifier)
  | Effect.SendH3Headers stream_id headers end_stream =>
      let '(engine', encoded) :=
        WebTransportEngine.encode_headers (engine c) stream_id headers end_stream in
      send_encoded (c <| engine := engine' |>) event_queue encoded
  | Effect.SendQuicData stream_id data end_stream =>
      send_data fuel c event_queue stream_id data end_stream
  | Effect.SendQuicDatagram header payload =>
      Some (c <| connection := quic_datagram_send (connection c) (header ++ payload) |>,
            event_queue)
  | Effect.StopQuicStream stream_id error_code =>
      match varint_try_from stream_id with
      | None => Some (c, event_queue)
      | Some stream_id =>
          let connection' := quic_stop (connection c) stream_id
            (default 0 (varint_try_from error_code)) in
          Some (c <| pending_receives := delete stream_id (pending_receives c) |>
                  <| connection := connection' |>, event_queue)
      end
  | effect => Some (c <| pending_effects := pending_effects c ++ [effect] |>, event_queue)
  end.

Fixpoint process_each (c : t) (event_queue : queue) (effects : list Effect.t)
    : option (t * queue) :=
  match effects with
  | [] => Some (c, event_queue)
  | effect :: rest =>
      '(c, event_queue) ← process_effect c event_queue effect;
      process_each c event_queue rest
  end.

End effects.

Section loops.
Context (fuel : nat).

(** The encoders of the engine return effects on stream data and datagrams only, so
    the calls of [process_effects] nest twice at most. *)
Fixpoint process_nested (depth : nat) (now_instant : Instant) (c : t) (event_queue : queue)
    (effects : list Effect.t) : option (t * queue) :=
  match depth with
  | O => None
  | S depth' =>
      process_each fuel now_instant (process_nested depth' now_instant) c event_queue effects
  end.

Definition process_effects (c : t) (effects : list Effect.t) (event_queue : queue)
    (now_instant : Instant) : option (t * queue) :=
  process_nested 2 now_instant c event_queue effects.

(** The loop of [dispatch_effects] over the queued events. *)
Fixpoint dispatch_queue (turns : nat) (c : t) (event_queue : queue) (now : f64)
    (now_instant : Instant) : option t :=
  match event_queue with
  | [] => Some c
  | event :: rest =>
      match turns with
      | O => None
      | S turns' =>
          '(engine', effects) ← WebTransportEngine.handle_event fuel (engine c) event now;
          '(c, event_queue) ← process_effects (c <| engine := engine' |>) effects rest now_instant;
          dispatch_queue turns' c event_queue now now_instant
      end
  end.

Definition dispatch_effects (c : t) (initial_effects : list Effect.t) (now : f64)
    (now_instant : Instant) : option t :=
  '(c, event_queue) ← process_effects c initial_effects [] now_instant;
  dispatch_queue fuel c event_queue now now_instant.

Definition dispatch_protocol_event (c : t) (event : ProtocolEvent.t) (now : f64)
    (now_instant : Instant) : option t :=
  '(engine', effects) ← WebTransportEngine.handle_event fuel (engine c) event now;
  dispatch_effects (c <| engine := engine' |>) effects now now_instant.

(** ** QUIC events *)

Definition connection_error_code (reason : QuicConnectionError.t) : ErrorCode :=
  match reason with
  | QuicConnectionError.ApplicationClosed error_code => error_code
  | QuicConnectionError.CidsExhausted | QuicConnectionError.LocallyClosed
  | QuicConnectionError.Reset | QuicConnectionError.TimedOut
  | QuicConnectionError.VersionMismatch => ERR_LIB_CONNECTION_STATE_ERROR
  | QuicConnectionError.ConnectionClosed error_code => error_code
  | QuicConnectionError.TransportError code => code
  end.

Fixpoint collect_datagrams (turns : nat) (connection : QuicConnection) (datagrams : list bytes)
    : option (QuicConnection * list bytes) :=
  match turns with
  | O => None
  | S turns' =>
      match quic_datagram_recv connection with
      | (connection, Some datagram) =>
          collect_datagrams turns' connection (datagrams ++ [datagram])
      | (connection, None) => Some (connection, datagrams)
      end
  end.

Fixpoint dispatch_datagrams (c : t) (datagrams : list bytes) (now : f64) (now_instant : Instant)
    : option t :=
  match datagrams with
  | [] => Some c
  | data :: rest =>
      c ← dispatch_protocol_event c (ProtocolEvent.TransportDatagramReceived data) now now_instant;
      dispatch_datagrams c rest now now_instant
  end.

Definition recv_datagrams (c : t) (now : f64) (now_instant : Instant) : option t :=
  '(connection', datagrams) ← collect_datagrams fuel (connection c) [];
  dispatch_datagrams (c <| connection := connection' |>) datagrams now now_instant.

(** The loop that accepts the streams the peer opened. *)
Fixpoint accept_streams (turns : nat) (c : t) (direction : QuicDir.t) (now : f64)
    (now_instant : Instant) : option t :=
  match turns with
  | O => None
  | S turns' =>
      match quic_accept (connection c) direction with
      | (connection', Some stream_id) =>
          c ← dispatch_protocol_event (c <| connection := connection' |>)
                (ProtocolEvent.TransportStreamOpened stream_id) now now_instant;
          accept_streams turns' c direction now now_instant
      | (connection', None) => Some (c <| connection := connection' |>)
      end
  end.

(** An event, if there is one, goes to the engine. *)
Definition dispatch_some (r : option (t * option ProtocolEvent.t)) (now : f64)
    (now_instant : Instant) : option t :=
  '(c, event) ← r;
  match event with
  | Some event => dispatch_protocol_event c event now now_instant
  | None => Some c
  end.

(** The [match] of [process_quic_events]. *)
Definition process_quic_event (c : t) (event : QuicEvent.t) (now : f64) (now_instant : Instant)
    : option t :=
  match event with
  | QuicEvent.Connected =>
      c ← dispatch_protocol_event c ProtocolEvent.TransportHandshakeCompleted now now_instant;
      match quic_datagram_max_size (connection c) with
      | Some max_size =>
          dispatch_protocol_event c (ProtocolEvent.TransportQuicParametersReceived max_size) now
            now_instant
      | None => Some c
      end
  | QuicEvent.ConnectionLost reason =>
      dispatch_protocol_event c
        (ProtocolEvent.TransportConnectionTerminated (connection_error_code reason)
           (quic_error_text reason)) now now_instant
  | QuicEvent.DatagramReceived => recv_datagrams c now now_instant
  | QuicEvent.StreamAvailable direction =>
      dispatch_protocol_event c
        (ProtocolEvent.TransportMaxStreamsReceived (bool_decide (direction = QuicDir.Uni))) now
        now_instant
  | QuicEvent.StreamFinished stream_id =>
      dispatch_protocol_event c (ProtocolEvent.TransportStreamDataAcknowledged stream_id) now
        now_instant
  | QuicEvent.StreamOpened direction => accept_streams fuel c direction now now_instant
  | QuicEvent.StreamReadable stream_id =>
      dispatch_some (recv_stream_data fuel c stream_id) now now_instant
  | QuicEvent.StreamStopped stream_id error_code =>
      let c := c <| send_buffers := delete stream_id (send_buffers c) |> in
      dispatch_protocol_event c (ProtocolEvent.TransportStopSendingReceived stream_id error_code)
        now now_instant
  | QuicEvent.StreamWritable stream_id =>
      dispatch_some (flush_stream fuel c stream_id) now now_instant
  | QuicEvent.Other => Some c
  end.

Fixpoint process_quic_loop (turns : nat) (c : t) (now : f64) (now_instant : Instant)
    : option t :=
  match turns with
  | O => None
  | S turns' =>
      match quic_poll (connection c) with
      | (connection', Some event) =>
          c ← process_quic_event (c <| connection := connection' |>) event now now_instant;
          process_quic_loop turns' c now now_instant
      | (connection', None) => Some (c <| connection := connection' |>)
      end
  end.

Definition process_quic_events (c : t) (now : f64) (now_instant : Instant) : option t :=
  process_quic_loop fuel c now now_instant.

(** ** The calls of the endpoint *)

Definition handle_protocol_event (c : t) (event : ProtocolEvent.t) (now : f64)
    (now_instant : Instant) : option t :=
  c ← dispatch_protocol_event c event now now_instant;
  process_quic_events c now now_instant.

Definition handle_quic_connection_event (c : t) (event : QuicConnectionEvent) (now : f64)
    (now_instant : Instant) : option t :=
  process_quic_events (c <| connection := quic_handle_event (connection c) event |>) now
    now_instant.

(** Whether a deadline has passed. *)
Definition is_due (deadline : option Instant) (now_instant : Instant) : bool :=
  from_option (fun deadline => deadline <=? now_instant) false deadline.

Definition cleanup_resources (c : t) (now : f64) (now_instant : Instant) : option t :=
  if is_due (next_resource_cleanup_time c) now_instant then
    c ← dispatch_protocol_event c ProtocolEvent.InternalCleanupResources now now_instant;
    Some (c <| next_resource_cleanup_time :=
                 (fun interval => now_instant + interval) <$> resource_cleanup_interval c |>)
  else Some c.

Definition cleanup_early_events (c : t) (now : f64) (now_instant : Instant) : option t :=
  if is_due (next_early_event_time c) now_instant then
    c ← dispatch_protocol_event c ProtocolEvent.InternalCleanupEarlyEvents now now_instant;
    Some (c <| next_early_event_time :=
                 (fun interval => now_instant + interval) <$> early_event_ttl c |>)
  else Some c.

Definition handle_timeout (c : t) (now : f64) (now_instant : Instant) : option t :=
  c ← cleanup_resources c now now_instant;
  c ← cleanup_early_events c now now_instant;
  process_quic_events (c <| connection := quic_handle_timeout (connection c) now_instant |>) now
    now_instant.

End loops.
End TransportConnection.
End TransportConnection.
