(* ===== verification/TransportProps.v ===== *)
(** * Carrying out effects

    The contract of [process_effects]: every stream the engine asks for comes back
    as exactly one event, every answer to a request is handed to the user exactly
    once, both in the order of the effects, and the engine is left alone but for
    its QPACK encoder. *)

From S2P Require Import Prelude.
From S2P Require Import Types.
From S2P Require Import Events.
From S2P Require Import Utils.
From S2P Require Import Qpack.
From S2P Require Import SessionMachine.
From S2P Require Import ConnectionMachine.
From S2P Require Import ConnectionProps.
From S2P Require Import ConnectionRuns.
From S2P Require Import ConnectionSteps.
From S2P Require Import H3Machine.
From S2P Require Import EngineMachine.
From S2P Require Import EngineProps.
From S2P Require Import EngineRuns.
From S2P Require Import EngineTheorems.
From S2P Require Import Quinn.
From S2P Require Import TransportMachine.

Module TransportP.
Section TransportP.
Context `{LsQpack, Quinn}.
Import TransportConnection.

(** ** What an event brings back *)

Definition returns_of (event : ProtocolEvent.t) : list ConnP.creation :=
  match event with
  | ProtocolEvent.InternalBindQuicStream r _ k u | ProtocolEvent.InternalDeferQuicStream r k u =>
      [(k, r, u)]
  | _ => []
  end.

Definition connected_of (event : ProtocolEvent.t) : list RequestId :=
  match event with
  | ProtocolEvent.InternalBindH3ConnectStream r _ | ProtocolEvent.InternalDeferH3ConnectStream r
  | ProtocolEvent.InternalFailH3ConnectStream r _ _ => [r]
  | _ => []
  end.

(** They are what the operation of the connection takes from the transport. *)
Lemma op_returns event now o :
  EngineR.names_op event now = Some o ->
  ConnS.returns o = returns_of event /\ ConnS.connected o = connected_of event.
Proof. destruct event; try done; by intros [= <-]. Qed.

Lemma quiet_returns event now :
  EngineR.names_op event now = None -> returns_of event = [] /\ connected_of event = [].
Proof. by destruct event. Qed.

(** Events of the transport's own. *)
Definition from_transport (event : ProtocolEvent.t) : Prop :=
  EngineT.from_driver event /\ EngineR.asks event = [].

(** ** The contract *)

(** The engine but for its QPACK encoder. *)
Record same_engine (e e' : WebTransportEngine.t) : Prop := {
  same_connection : WebTransportEngine.connection e' = WebTransportEngine.connection e;
  same_pending : WebTransportEngine.pending_user_events e' = WebTransportEngine.pending_user_events e;
  same_streams : H3.streams (WebTransportEngine.h3 e') = H3.streams (WebTransportEngine.h3 e);
}.

Record carried (c : t) (q : list ProtocolEvent.t) (effects : list Effect.t) (c' : t)
    (q' : list ProtocolEvent.t) : Prop := {
  carried_events : exists events, q' = q ++ events
    /\ events ≫= returns_of = ConnP.asked effects
    /\ events ≫= connected_of = ConnR.connects effects /\ Forall from_transport events;
  carried_answers : completed (pending_effects c')
    = completed (pending_effects c) ++ answered effects;
  carried_engine : same_engine (engine c) (engine c');
}.

Lemma same_engine_refl e : same_engine e e.
Proof. done. Qed.

Lemma same_engine_trans e1 e2 e3 : same_engine e1 e2 -> same_engine e2 e3 -> same_engine e1 e3.
Proof. intros [] []. split; congruence. Qed.

Lemma carried_nil c q : carried c q [] c q.
Proof. split; [|by rewrite app_nil_r|done]. exists []. by rewrite app_nil_r. Qed.

Lemma carried_app c1 q1 ef1 c2 q2 ef2 c3 q3 :
  carried c1 q1 ef1 c2 q2 -> carried c2 q2 ef2 c3 q3 -> carried c1 q1 (ef1 ++ ef2) c3 q3.
Proof.
  intros [(ev1 & -> & Hr1 & Hc1 & Hf1) Ha1 He1] [(ev2 & -> & Hr2 & Hc2 & Hf2) Ha2 He2]. split.
  - exists (ev1 ++ ev2). rewrite !bind_app, ConnP.asked_app, ConnR.connects_app, app_assoc, Hr1, Hr2, Hc1, Hc2.
    split_and!; try done. by apply Forall_app.
  - by rewrite Ha2, Ha1, answered_app, app_assoc.
  - by eapply same_engine_trans.
Qed.

(** What counts of the effects is what the observers see. *)
Lemma carried_same c q ef1 ef2 c' q' :
  answered ef1 = answered ef2 -> ConnP.asked ef1 = ConnP.asked ef2 ->
  ConnR.connects ef1 = ConnR.connects ef2 -> carried c q ef1 c' q' -> carried c q ef2 c' q'.
Proof.
  intros H1 H2 H3 [(ev & Hq & Hr & Hc & Hf) Ha He]. split; [|by rewrite <- H1|done].
  exists ev. by rewrite <- H2, <- H3.
Qed.

Lemma carried_silent c q ef1 ef2 c' q' :
  silent ef1 -> silent ef2 -> carried c q ef1 c' q' -> carried c q ef2 c' q'.
Proof. intros (H1 & H2 & H3) (? & ? & ?). apply carried_same; congruence. Qed.

(** A step that only touches the QUIC connection and its buffers. *)
Lemma carried_io c q effect c' event :
  silent [effect] -> engine c' = engine c -> pending_effects c' = pending_effects c ->
  (forall ev, event = Some ev -> from_transport ev /\ returns_of ev = [] /\ connected_of ev = []) ->
  carried c q [effect] c' (q ++ option_list event).
Proof.
  intros (H1 & H2 & H3) He Hp Hev. split.
  - exists (option_list event). rewrite H2, H3. split; [done|].
    destruct event as [ev|]; [|done]. destruct (Hev ev eq_refl) as (? & Hr & Hc).
    cbn. rewrite Hr, Hc. split_and!; [done|done|by apply Forall_singleton].
  - by rewrite Hp, H1, app_nil_r.
  - by rewrite He.
Qed.

(** ** Stream data *)

Lemma flush_stream_io fuel c i c' event :
  flush_stream fuel c i = Some (c', event) ->
  engine c' = engine c /\ pending_effects c' = pending_effects c
  /\ pending_receives c' = pending_receives c
  /\ (event = None \/ event = Some (ProtocolEvent.InternalCompleteQuicData i)).
Proof.
  unfold flush_stream. destruct (send_buffers c !! i) as [buffer|]; [|intros [= <- <-]; auto].
  destruct (write_chunks _ _ _ _) as [[conn [|chunks|]]|]; cbn; [| | |done];
    [|intros [= <- <-]; auto..].
  destruct (SendBuffer.finished buffer); intros [= <- <-]; auto.
Qed.

Lemma recv_stream_data_io fuel c i c' event :
  recv_stream_data fuel c i = Some (c', event) ->
  engine c' = engine c /\ pending_effects c' = pending_effects c
  /\ send_buffers c' = send_buffers c
  /\ (event = None
      \/ (exists code, event = Some (ProtocolEvent.TransportResetStreamReceived i code))
      \/ exists data fin, event = Some (ProtocolEvent.TransportStreamDataReceived i data fin)).
Proof.
  unfold recv_stream_data. destruct (pending_receives c !! i) as [limit|]; [|intros [= <- <-]; auto].
  destruct (quic_read _ _) as [conn []]; [|intros [= <- <-]; auto].
  destruct (read_chunks _ _ _ _ _) as [[conn' [data|data|code]]|]; cbn; [| | |done].
  - case_bool_decide; intros [= <- <-]; eauto 8.
  - intros [= <- <-]; eauto 8.
  - intros [= <- <-]; eauto 8.
Qed.

Lemma send_data_carried fuel c q i data fin c' q' :
  send_data fuel c q i data fin = Some (c', q') ->
  carried c q [Effect.SendQuicData i data fin] c' q'.
Proof.
  unfold send_data. destruct (varint_try_from i) as [j|].
  - unfold push. intros Hp. apply bind_Some in Hp as ([c1 event] & Hf & [= <- <-]).
    apply flush_stream_io in Hf as (He & Hpe & _ & Hev).
    apply carried_io; [done|by rewrite He|by rewrite Hpe|]. intros ev ->.
    destruct Hev as [Hev|[= ->]]; [done|by split_and!].
  - intros [= <- <-]. rewrite <- (app_nil_r q) at 2. by apply (carried_io _ _ _ _ None).
Qed.

(** ** One effect *)

Section nested.
Context (fuel : nat) (now_instant : Instant)
  (nested : t -> list ProtocolEvent.t -> list Effect.t -> option (t * list ProtocolEvent.t)).
Context (nested_carried : forall c q effects c' q',
  nested c q effects = Some (c', q') -> carried c q effects c' q').

(** The state of the transport with an engine that encoded something. *)
Lemma carried_encoded c e' q effects c' q' :
  same_engine (engine c) e' -> carried (c <| engine := e' |>) q effects c' q' ->
  carried c q effects c' q'.
Proof. intros He [Hev Ha He']. split; [done|done|]. by eapply same_engine_trans. Qed.

Lemma carried_quic c conn q effects c' q' :
  carried (c <| connection := conn |>) q effects c' q' -> carried c q effects c' q'.
Proof. by intros []. Qed.

(** Events queued by hand. *)
Lemma carried_event c q effects c' q' ef event :
  carried c q effects c' q' -> silent effects -> from_transport event ->
  returns_of event = ConnP.asked [ef] -> connected_of event = ConnR.connects [ef] ->
  answered [ef] = [] -> carried c q [ef] c' (q' ++ [event]).
Proof.
  intros [(ev & -> & Hr & Hc & Hf) Ha He] (S1 & S2 & S3) Hfe Hre Hce Hae. split; [| |done].
  - exists (ev ++ [event]). rewrite !bind_app, Hr, Hc, S2, S3, app_assoc. cbn.
    rewrite !app_nil_r, Hre, Hce. split_and!; try done. by rewrite Forall_app, Forall_singleton.
  - by rewrite Ha, S1, Hae.
Qed.

Lemma process_close_carried c q code reason c' q' :
  process_close now_instant c q code reason = Some (c', q') ->
  carried c q [Effect.CloseQuicConnection code reason] c' q'.
Proof.
  unfold process_close. destruct (quic_is_closed _); intros [= <- <-].
  - eapply carried_silent; [| |apply carried_nil]; done.
  - eapply carried_event; [eapply carried_quic, carried_nil|done..].
Qed.

(** The encoders of the engine. *)
Definition encodes (e : WebTransportEngine.t)
    (r : WebTransportEngine.t * result (list Effect.t) WebTransportError.t) : Prop :=
  same_engine e r.1 /\ forall effects, r.2 = Ok effects -> Forall wire_effect effects.

Lemma encode_headers_encodes e i headers fin :
  encodes e (WebTransportEngine.encode_headers e i headers fin).
Proof.
  unfold WebTransportEngine.encode_headers, H3.encode_headers.
  destruct (Encoder.encode _ _ _) as [enc [[payload instructions]|]]; [|by split].
  cbv zeta. destruct (h3.encode_frame_header _ _) as [header|]; [|by split].
  split; [by split|]. intros effects [= <-].
  rewrite Forall_app. split; [apply EngineP.send_instructions_wire|by repeat constructor].
Qed.

Lemma encode_connect_request_encodes e i authority path headers :
  encodes e (WebTransportEngine.encode_connect_request e i authority path headers).
Proof.
  unfold WebTransportEngine.encode_connect_request, H3.encode_connect_request.
  apply encode_headers_encodes.
Qed.

Lemma encode_capsule_wire i ty value fin effects :
  WebTransportEngine.encode_capsule i ty value fin = Ok effects -> Forall wire_effect effects.
Proof.
  unfold WebTransportEngine.encode_capsule. destruct (H3.encode_capsule i ty value) as [chunks|]; [|done].
  intros [= <-]. by induction chunks as [|chunk chunks IH]; constructor.
Qed.

Lemma encode_goaway_wire e n : Forall wire_effect (WebTransportEngine.encode_goaway e n).
Proof.
  unfold WebTransportEngine.encode_goaway. destruct (H3.local_control_stream_id _); [|constructor].
  destruct (H3.encode_goaway n); by repeat constructor.
Qed.

Lemma encode_stream_header_wire i k u :
  Forall wire_effect (WebTransportEngine.encode_stream_header i k u).
Proof.
  unfold WebTransportEngine.encode_stream_header, H3.encode_stream_header.
  destruct (utils.write_varint [] _); [|constructor]. destruct (utils.write_varint _ _); by repeat constructor.
Qed.

Lemma create_connect_stream_carried c q r authority path headers c' q' :
  create_connect_stream nested c q r authority path headers = Some (c', q') ->
  carried c q [Effect.CreateH3ConnectStream r authority path headers] c' q'.
Proof.
  unfold create_connect_stream. destruct (quic_open _ _) as [conn [i|]].
  - pose proof (encode_connect_request_encodes (engine c) i authority path headers) as [He Hw].
    change (engine (c <| connection := conn |>)) with (engine c).
    destruct (WebTransportEngine.encode_connect_request _ _ _ _ _) as [e' [effects|err]]; cbn in He, Hw.
    + intros Hn. apply bind_Some in Hn as ([c1 q1] & Hn & [= <- <-]).
      apply nested_carried in Hn. eapply carried_event; [|apply wire_silent, Hw| ..]; try done.
      by eapply carried_quic, carried_encoded.
    + intros [= <- <-].
      eapply carried_event; [eapply carried_quic, carried_encoded; [exact He|apply carried_nil]|done..].
  - intros [= <- <-]. eapply carried_event; [eapply carried_quic, carried_nil|done..].
Qed.

Lemma create_local_streams_carried c q c' q' :
  create_local_streams c q = Some (c', q') -> carried c q [Effect.CreateH3LocalStreams] c' q'.
Proof.
  unfold create_local_streams. destruct (open_local_streams _) as [conn [[[? ?] ?]|]];
    intros [= <- <-]; (eapply carried_event; [eapply carried_quic, carried_nil|done..]).
Qed.

Lemma create_quic_stream_carried c q r k u c' q' :
  create_quic_stream nested c q r k u = Some (c', q') ->
  carried c q [Effect.CreateQuicStream r k u] c' q'.
Proof.
  unfold create_quic_stream. destruct (quic_open _ _) as [conn [i|]].
  - intros Hn. apply bind_Some in Hn as ([c1 q1] & Hn & [= <- <-]). apply nested_carried in Hn.
    eapply carried_event; [by eapply carried_quic| |done..].
    apply wire_silent, encode_stream_header_wire.
  - intros [= <- <-]. eapply carried_event; [eapply carried_quic, carried_nil|done..].
Qed.

Lemma send_encoded_carried c q encoded effect c' q' :
  silent [effect] -> (forall effects, encoded = Ok effects -> silent effects) ->
  send_encoded nested c q encoded = Some (c', q') -> carried c q [effect] c' q'.
Proof.
  intros Hs He. unfold send_encoded. destruct encoded as [effects|].
  - intros Hn. apply nested_carried in Hn. eapply carried_silent; [by apply He|done|done].
  - intros [= <- <-]. by eapply carried_silent; [| |apply carried_nil].
Qed.

Lemma carried_still c q effect c' :
  silent [effect] -> engine c' = engine c -> pending_effects c' = pending_effects c ->
  carried c q [effect] c' q.
Proof.
  intros Hs He Hp. rewrite <- (app_nil_r q) at 2. by apply (carried_io _ _ _ _ None).
Qed.

Lemma process_effect_carried c q effect c' q' :
  process_effect fuel now_instant nested c q effect = Some (c', q') ->
  carried c q [effect] c' q'.
Proof.
  destruct effect; cbn [process_effect].
  all: try (by intros [= <- <-]; apply carried_still).
  all: try (intros [= <- <-]; split; cbn; [by exists []; rewrite app_nil_r|by rewrite completed_app|done]).
  - apply process_close_carried.
  - apply create_connect_stream_carried.
  - apply create_local_streams_carried.
  - apply create_quic_stream_carried.
  - intros [= <- <-]. split; [by exists []; rewrite app_nil_r| |done].
    cbn. rewrite completed_app. f_equal. unfold keying_material.
    by destruct (quic_export_keying_material _ _ _ _).
  - destruct (varint_try_from stream_id) as [i|]; [|by intros [= <- <-]; apply carried_still].
    unfold push. intros Hp. apply bind_Some in Hp as ([c1 event] & Hr & [= <- <-]).
    apply recv_stream_data_io in Hr as (He & Hpe & _ & Hev).
    apply carried_io; [done|by rewrite He|by rewrite Hpe|]. intros ev ->.
    by destruct Hev as [|[[code [= ->]]|(data & fin & [= ->])]].
  - destruct (varint_try_from stream_id); intros [= <- <-]; by apply carried_still.
  - apply send_encoded_carried; [done|]. intros effects He. by eapply wire_silent, encode_capsule_wire.
  - apply send_encoded_carried; [done|]. intros effects. unfold WebTransportEngine.encode_datagram.
    destruct (H3.encode_datagram _ _); [|done]. by intros [= <-].
  - intros Hn. apply nested_carried in Hn. eapply carried_silent; [|done|done].
    apply wire_silent, encode_goaway_wire.
  - pose proof (encode_headers_encodes (engine c) stream_id headers end_stream) as [He Hw].
    destruct (WebTransportEngine.encode_headers _ _ _ _) as [e' encoded]. cbn in He, Hw.
    intros Hs. apply carried_encoded with e'; [done|].
    eapply send_encoded_carried; [done| |done]. intros effects Hok. by apply wire_silent, Hw.
  - apply send_data_carried.
  - destruct (varint_try_from stream_id); intros [= <- <-]; by apply carried_still.
Qed.

Lemma process_each_carried effects c q c' q' :
  process_each fuel now_instant nested c q effects = Some (c', q') -> carried c q effects c' q'.
Proof.
  revert c q. induction effects as [|effect effects IH]; intros c q; cbn [process_each].
  { intros [= <- <-]. apply carried_nil. }
  intros Hp. apply bind_Some in Hp as ([c1 q1] & Hp & Hr). apply process_effect_carried in Hp.
  apply (carried_app _ _ [effect] _ _ effects _ _ Hp). by apply IH.
Qed.

End nested.

(** The contract of [process_effects]. *)
Lemma process_effects_carried fuel c effects q now_instant c' q' :
  process_effects fuel c effects q now_instant = Some (c', q') -> carried c q effects c' q'.
Proof.
  assert (Hn : forall depth c q effects c' q',
    process_nested fuel depth now_instant c q effects = Some (c', q') -> carried c q effects c' q').
  { clear. intros depth. induction depth as [|depth IH]; intros c q effects c' q'; [done|].
    apply process_each_carried, IH. }
  apply Hn.
Qed.

(** ** How deep the calls nest *)

(** Effects [process_effects] carries out without calling itself. *)
Definition is_leaf (effect : Effect.t) : Prop :=
  match effect with
  | Effect.CreateH3ConnectStream _ _ _ _ | Effect.CreateQuicStream _ _ _
  | Effect.SendH3Capsule _ _ _ _ | Effect.SendH3Datagram _ _ | Effect.SendH3Goaway _
  | Effect.SendH3Headers _ _ _ => False
  | _ => True
  end.

Lemma wire_leaf effects : Forall wire_effect effects -> Forall is_leaf effects.
Proof. intros Hw. eapply Forall_impl; [exact Hw|]. by intros []. Qed.

Lemma leaf_flat fuel now_instant n1 n2 effects c q :
  Forall is_leaf effects ->
  process_each fuel now_instant n1 c q effects = process_each fuel now_instant n2 c q effects.
Proof.
  intros Hl. revert c q. induction Hl as [|effect effects Hle _ IH]; intros c q; [done|].
  cbn [process_each].
  assert (He : process_effect fuel now_instant n1 c q effect
               = process_effect fuel now_instant n2 c q effect) by by destruct effect.
  rewrite He. destruct (process_effect _ _ n2 c q effect) as [[c1 q1]|]; [|done]. apply IH.
Qed.

(** Two levels are as many as the code needs: more change nothing. *)
Lemma nesting_enough fuel depth now_instant c effects q :
  process_nested fuel (S (S depth)) now_instant c q effects
  = process_effects fuel c effects q now_instant.
Proof.
  unfold process_effects. cbn [process_nested].
  set (n1 := fun c q effects => process_each fuel now_instant (process_nested fuel depth now_instant) c q effects).
  set (n2 := fun c q effects => process_each fuel now_instant (fun _ _ _ => None) c q effects).
  assert (Hn : forall c q effects, Forall is_leaf effects -> n1 c q effects = n2 c q effects)
    by (intros; by apply leaf_flat).
  revert c q. induction effects as [|effect effects IH]; intros c q; [done|]. cbn [process_each].
  assert (He : process_effect fuel now_instant n1 c q effect = process_effect fuel now_instant n2 c q effect).
  { destruct effect; cbn [process_effect]; try done.
    - unfold create_connect_stream. destruct (quic_open _ _) as [conn [i|]]; [|done].
      pose proof (encode_connect_request_encodes (engine (c <| connection := conn |>)) i authority path headers)
        as [_ Hw].
      destruct (WebTransportEngine.encode_connect_request _ _ _ _ _) as [e' [ef|err]]; [|done].
      by rewrite Hn by by apply wire_leaf, Hw.
    - unfold create_quic_stream. destruct (quic_open _ _) as [conn [i|]]; [|done].
      by rewrite Hn by apply wire_leaf, encode_stream_header_wire.
    - unfold send_encoded. destruct (WebTransportEngine.encode_capsule _ _ _ _) eqn:E; [|done].
      by rewrite Hn by by eapply wire_leaf, encode_capsule_wire.
    - unfold send_encoded. destruct (WebTransportEngine.encode_datagram _ _) eqn:E; [|done].
      apply Hn. revert E. unfold WebTransportEngine.encode_datagram.
      destruct (H3.encode_datagram _ _); [|done]. intros [= <-]. by repeat constructor.
    - apply Hn, wire_leaf, encode_goaway_wire.
    - pose proof (encode_headers_encodes (engine c) stream_id headers end_stream) as [_ Hw].
      destruct (WebTransportEngine.encode_headers _ _ _ _) as [e' [ef|err]]; [|done].
      by apply Hn, wire_leaf, Hw. }
  change (process_effect fuel now_instant (fun c q effects => n1 c q effects) c q effect)
    with (process_effect fuel now_instant n1 c q effect) in *.
  fold n1 n2 in IH |- *. rewrite He.
  destruct (process_effect _ _ n2 c q effect) as [[c1 q1]|]; [|done]. apply IH.
Qed.

End TransportP.
End TransportP.
