(* ===== verification/TransportRuns.v ===== *)
(** * Runs of the coordinator

    The engine, the connection machine and the QUIC transport together.  What the
    connection machine asks of the layer below it, that every stream it asked for
    comes back exactly once, is no longer assumed here: the coordinator's queue
    holds what is in flight. *)

From S2P Require Import Prelude.
From S2P Require Import Types.
From S2P Require Import Events.
From S2P Require Import Utils.
From S2P Require Import Qpack.
From S2P Require Import SessionMachine.
From S2P Require Import SessionRuns.
From S2P Require Import ConnectionMachine.
From S2P Require Import ConnectionProps.
From S2P Require Import ConnectionRuns.
From S2P Require Import ConnectionSteps.
From S2P Require Import ConnectionTheorems.
From S2P Require Import H3Machine.
From S2P Require Import EngineMachine.
From S2P Require Import EngineProps.
From S2P Require Import EngineRuns.
From S2P Require Import EngineTheorems.
From S2P Require Import Quinn.
From S2P Require Import TransportMachine.
From S2P Require Import TransportProps.

Module TransportR.
Section TransportR.
Context `{LsQpack, Quinn}.
Import TransportConnection TransportP.
Local Notation wire e := (WebTransportEngine.connection e).

(** ** The world along the loop of the engine *)

(** The world after a turn of the engine: what the event brought back is no longer
    in flight. *)
Definition settled (c : Connection.t) (w : ConnR.world) (o : ConnS.op) : ConnR.world :=
  EngineT.turned c w o
    (default (ConnR.creating w) (ConnT.remaining (ConnS.returns o) (ConnR.creating w)))
    (default (ConnR.connecting w) (ConnT.remaining (ConnS.connected o) (ConnR.connecting w))).

Definition advance (e : WebTransportEngine.t) (event : ProtocolEvent.t) (now : f64)
    (w : ConnR.world) : ConnR.world :=
  match EngineR.performs (wire e) event now with
  | Some o => settled (wire e) w o
  | None => w
  end.

(** What the layers below promise for a turn. *)
Definition lawful_turn (e : WebTransportEngine.t) (event : ProtocolEvent.t) (now : f64)
    (w : ConnR.world) : Prop :=
  match EngineR.performs (wire e) event now with
  | Some o => EngineT.driver_ok (wire e) w o
  | None => True
  end.

(** [follows now e queue w e' w' effects]: the loop of [handle_event] takes the engine from [e]
    to [e'] and its world from [w] to [w']. *)
Inductive follows (now : f64) : WebTransportEngine.t -> list ProtocolEvent.t -> ConnR.world ->
    WebTransportEngine.t -> ConnR.world -> list Effect.t -> Prop :=
| follows_done e w : follows now e [] w e w []
| follows_turn e event rest w e1 effects front e' w' effects' :
    WebTransportEngine.process e event now = Some (e1, effects, front) ->
    lawful_turn e event now w ->
    follows now e1 (front ++ rest) (advance e event now w) e' w' effects' ->
    follows now e (event :: rest) w e' w' (effects ++ effects').

Lemma follows_events now e queue w e' w' effects :
  follows now e queue w e' w' effects ->
  exists n, forall m all, (n <= m)%nat ->
    WebTransportEngine.run_events m e queue now all = Some (e', all ++ effects).
Proof.
  induction 1 as [e w|e event rest w e1 ef front e' w' ef' Hp _ _ (n & IH)].
  { exists 0%nat. intros [|m] all _; cbn; by rewrite app_nil_r. }
  exists (S n). intros [|m] all Hm; [lia|]. cbn [WebTransportEngine.run_events]. rewrite Hp. cbn.
  rewrite IH by lia. by rewrite app_assoc.
Qed.

(** ** Runs of the coordinator *)

(** [driven c0 c queue w users delivered]: the coordinator came from [c0] to [c] with
    the events [queue] left to process, after the user made the requests [users]
    and was handed the effects [delivered].  An event comes from the user or from
    QUIC; the engine processes the first event of the queue, and the coordinator
    carries out its effects; the user polls an effect; and the QUIC connection
    moves on, which touches neither the engine nor the effects. *)
Inductive driven (c0 : t) : t -> list ProtocolEvent.t -> ConnR.world -> list RequestId ->
    list Effect.t -> Prop :=
| driven_new :
    driven c0 c0 [] (ConnS.start (wire (engine c0)))
      (option_list (Connection.request_id (wire (engine c0)))) []
| driven_event c w users delivered event :
    driven c0 c [] w users delivered -> EngineT.from_driver event ->
    returns_of event = [] -> connected_of event = [] -> NoDup (users ++ EngineR.asks event) ->
    driven c0 c [event] w (users ++ EngineR.asks event) delivered
| driven_turn c event rest w users delivered fuel now now_instant e' w' effects c' queue' :
    driven c0 c (event :: rest) w users delivered ->
    follows now (engine c) [event] w e' w' effects ->
    process_effects fuel (c <| engine := e' |>) effects rest now_instant = Some (c', queue') ->
    driven c0 c' queue' w' users delivered
| driven_poll c queue w users delivered c' effect :
    driven c0 c queue w users delivered -> poll_effects c = (c', Some effect) ->
    driven c0 c' queue w users (delivered ++ [effect])
| driven_io c queue w users delivered c' :
    driven c0 c queue w users delivered -> engine c' = engine c ->
    pending_effects c' = pending_effects c -> driven c0 c' queue w users delivered.

(** ** What is in flight is in the queue *)

Record in_flight (w : ConnR.world) (creations : list ConnP.creation) (connects : list RequestId)
    : Prop := {
  flight_creating : ConnR.creating w ≡ₚ creations;
  flight_connecting : ConnR.connecting w ≡ₚ connects;
}.

(** Taking the only element of [xs] away succeeds where it is there. *)
Lemma remaining_all {A} `{EqDecision A} (xs l rest : list A) :
  (length xs <= 1)%nat -> l ≡ₚ xs ++ rest ->
  l ≡ₚ xs ++ default l (ConnT.remaining xs l) /\ default l (ConnT.remaining xs l) ≡ₚ rest.
Proof.
  intros Hlen Hl. destruct (ConnT.remaining xs l) as [l'|] eqn:E.
  { apply ConnT.remaining_spec in E; [|done]. cbn. split; [done|].
    rewrite Hl in E. by apply Permutation_app_inv_l in E. }
  exfalso. destruct xs as [|x [|]]; cbn in *; [done| |lia].
  assert (Hx : x ∈ l) by (rewrite Hl; by left). revert E. clear Hl Hlen. induction l as [|y l IH].
  - by apply not_elem_of_nil in Hx.
  - cbn. case_bool_decide; [done|]. apply elem_of_cons in Hx as [->|Hx]; [done|].
    by destruct (SessionR.remove_first x l); [|specialize (IH Hx eq_refl)].
Qed.

Lemma performs_returns c event now o :
  EngineR.performs c event now = Some o ->
  ConnS.returns o = returns_of event /\ ConnS.connected o = connected_of event.
Proof. unfold EngineR.performs. destruct (EngineR.takes c event); [apply op_returns|done]. Qed.

Lemma unperformed_returns c event now :
  EngineR.performs c event now = None -> returns_of event = [] /\ connected_of event = [].
Proof.
  unfold EngineR.performs. destruct (EngineR.takes c event) eqn:E; [apply quiet_returns|].
  by destruct event.
Qed.

Lemma front_returns front :
  Forall (fun event => h3_event event \/ EngineR.waits event) front ->
  front ≫= returns_of = [] /\ front ≫= connected_of = [].
Proof.
  induction 1 as [|event front Hs _ [IH1 IH2]]; [done|]. cbn. rewrite IH1, IH2.
  destruct Hs as [Hs|[r Hs]]; by destruct event.
Qed.

Section turn.
Context (p : EngineParameters.t) (e0 : WebTransportEngine.t).

(** A turn of the engine, with the creations and CONNECTs of the events behind. *)
Lemma turn_flight e event now e1 effects front w users out rest creations connects :
  EngineT.run_inv e0 e (event :: rest) w users out ->
  WebTransportEngine.process e event now = Some (e1, effects, front) ->
  lawful_turn e event now w ->
  in_flight w (returns_of event ++ creations) (connected_of event ++ connects) ->
  EngineT.run_inv e0 e1 (front ++ rest) (advance e event now w) users (out ++ effects)
  /\ in_flight (advance e event now w) (creations ++ ConnP.asked effects)
       (connects ++ ConnR.connects effects)
  /\ front ≫= returns_of = [] /\ front ≫= connected_of = [].
Proof.
  intros Hrun Hp Hl [Hcr Hco].
  destruct (EngineR.process_turns e event now e1 effects front) as [failed [_ [_ Hask Hcon] _ Hfr]];
    [apply (EngineT.run_pending _ _ _ _ _ _ Hrun)|done|].
  destruct (EngineT.turn_inv _ _ _ _ _ _ _ _ _ _ _ Hrun Hp) as [Ht1 Ht2].
  unfold advance, lawful_turn in *. rewrite Hask, Hcon.
  destruct (EngineR.performs (wire e) event now) as [o|] eqn:Ho.
  - destruct (performs_returns _ _ _ _ Ho) as [Hr1 Hr2]. rewrite <- Hr1 in Hcr. rewrite <- Hr2 in Hco.
    destruct (ConnT.returns_one o) as [Hn1 Hn2].
    destruct (remaining_all _ _ _ Hn1 Hcr) as [Hcr1 Hcr2].
    destruct (remaining_all _ _ _ Hn2 Hco) as [Hco1 Hco2].
    split_and!; [by apply Ht1| |by apply front_returns..].
    split; cbn; by f_equiv.
  - destruct (unperformed_returns _ _ _ Ho) as [Hr1 Hr2]. rewrite Hr1 in Hcr. rewrite Hr2 in Hco.
    split_and!; [by apply Ht2| |by apply front_returns..].
    split; cbn; by rewrite app_nil_r.
Qed.

Lemma follows_flight now e queue w e' w' effects rest users out creations connects :
  follows now e queue w e' w' effects -> EngineT.run_inv e0 e (queue ++ rest) w users out ->
  in_flight w ((queue ≫= returns_of) ++ creations) ((queue ≫= connected_of) ++ connects) ->
  EngineT.run_inv e0 e' rest w' users (out ++ effects)
  /\ in_flight w' (creations ++ ConnP.asked effects) (connects ++ ConnR.connects effects).
Proof.
  intros Hf. revert out creations connects.
  induction Hf as [e w|e event q w e1 ef front e' w' ef' Hp Hl _ IH]; intros out creations connects Hrun Hfl.
  { cbn in *. by rewrite !app_nil_r. }
  cbn in Hfl. rewrite <- !app_assoc in Hfl.
  destruct (turn_flight _ _ _ _ _ _ _ _ _ _ _ _ Hrun Hp Hl Hfl) as (Hrun1 & Hfl1 & Hfr1 & Hfr2).
  rewrite app_assoc, ConnP.asked_app, ConnR.connects_app, !app_assoc. apply IH.
  - by rewrite <- app_assoc.
  - rewrite !bind_app, Hfr1, Hfr2. cbn. rewrite <- !app_assoc in Hfl1. exact Hfl1.
Qed.

End turn.

(** ** The invariant *)

(** The invariant of the engine reads its connection and its pending events only. *)
Lemma run_inv_same e0 e e' queue w users out :
  same_engine e e' -> EngineT.run_inv e0 e queue w users out -> EngineT.run_inv e0 e' queue w users out.
Proof.
  intros [Hc Hpe _] [H1 [Hw Hb] H3 H4 H5]. unfold EngineR.pending in *. split; rewrite ?Hc; try done.
  - split; by rewrite ?Hc, Hpe.
  - unfold EngineR.pending. by rewrite Hpe.
Qed.

Lemma run_inv_push e0 e queue events w users out :
  Forall from_transport events -> EngineT.run_inv e0 e queue w users out ->
  EngineT.run_inv e0 e (queue ++ events) w users out.
Proof.
  intros Hev [H1 H2 H3 H4 H5]. split; try done.
  - apply Forall_app. split; [done|]. eapply Forall_impl; [exact Hev|]. intros event [? _]. by left.
  - assert (Hn : events ≫= EngineR.asks = []).
    { induction Hev as [|event events [_ Ha] _ IH]; [done|]. cbn. by rewrite Ha. }
    by rewrite bind_app, Hn, app_nil_r.
Qed.

Record coordinated (c0 c : t) (queue : list ProtocolEvent.t) (w : ConnR.world)
    (users : list RequestId) (delivered : list Effect.t) : Prop := {
  coordinated_engine : exists out,
    EngineT.run_inv (engine c0) (engine c) queue w users out
    /\ answered out = completed (delivered ++ pending_effects c);
  coordinated_flight : in_flight w (queue ≫= returns_of) (queue ≫= connected_of);
}.

Lemma turn_coordinated c0 c event rest w users delivered fuel now now_instant e' w' effects c' queue' :
  coordinated c0 c (event :: rest) w users delivered ->
  follows now (engine c) [event] w e' w' effects ->
  process_effects fuel (c <| engine := e' |>) effects rest now_instant = Some (c', queue') ->
  coordinated c0 c' queue' w' users delivered.
Proof.
  intros [(out & Hrun & Hout) Hfl] Hf Hp.
  destruct (follows_flight (engine c0) now _ [event] w e' w' effects rest users out
    (rest ≫= returns_of) (rest ≫= connected_of) Hf) as [Hrun' Hfl']; [done| |].
  { cbn in Hfl |- *. by rewrite !app_nil_r. }
  apply process_effects_carried in Hp as [(events & -> & Hr & Hc & Hev) Ha He]. cbn in Ha, He. split.
  - exists (out ++ effects). split.
    + by apply run_inv_push, (run_inv_same _ e').
    + by rewrite answered_app, Hout, !completed_app, Ha, app_assoc.
  - by rewrite !bind_app, Hr, Hc.
Qed.

Lemma driven_coordinated p c0 c queue w users delivered :
  EngineT.fresh p (engine c0) -> pending_effects c0 = [] ->
  driven c0 c queue w users delivered -> coordinated c0 c queue w users delivered.
Proof.
  intros Hf He0. induction 1 as [|c w users d event _ [(out & Hrun & Hout) Hfl] Hd Hr1 Hr2 Hn
    |c event rest w users d fuel now ni e' w' ef c' q' _ IH Hfo Hp
    |c q w users d c' effect _ [(out & Hrun & Hout) Hfl] Hp
    |c q w users d c' _ [(out & Hrun & Hout) Hfl] Hee Hpe].
  - split; [|split; constructor]. exists []. rewrite He0. split; [|done].
    apply (EngineT.reachable_run p); [done|apply EngineT.reachable_new].
  - split; [|by cbn; rewrite Hr1, Hr2]. exists out. split; [|done]. by apply EngineT.event_inv.
  - by eapply turn_coordinated.
  - unfold poll_effects in Hp. destruct (pending_effects c) as [|x l] eqn:E; [done|].
    injection Hp as <- <-. split; [|done]. exists out. split; [done|].
    rewrite Hout. cbn. by rewrite <- app_assoc.
  - split; [|done]. exists out. by rewrite Hee, Hpe.
Qed.

End TransportR.
End TransportR.
