(* ===== verification/TransportStreams.v ===== *)
(** * Stream data through the coordinator

    No byte is lost, repeated or reordered between the engine and QUIC, and the
    loops that move them end.  A byte that QUIC does not take at once waits in the
    send buffer of its stream. *)

From S2P Require Import Prelude.
From S2P Require Import Types.
From S2P Require Import Events.
From S2P Require Import Qpack.
From S2P Require Import EngineMachine.
From S2P Require Import Quinn.
From S2P Require Import TransportMachine.

Module TransportS.
Section TransportS.
Context `{LsQpack, QuinnStreams}.
Import TransportConnection.

(** ** Writing *)

(** The bytes that wait in the send buffer of a stream. *)
Definition buffered (c : t) (i : StreamId) : bytes :=
  from_option (fun buffer => concat (SendBuffer.chunks buffer)) [] (send_buffers c !! i).

(** Everything the engine sent on a stream so far: what QUIC took and what waits. *)
Definition outgoing (c : t) (i : StreamId) : bytes :=
  quic_written (connection c) i ++ buffered c i.

(** Buffers hold no empty chunk. *)
Definition buffers_ok (c : t) : Prop :=
  forall i buffer, send_buffers c !! i = Some buffer ->
    Forall (fun chunk => chunk <> []) (SendBuffer.chunks buffer).

(** What is left to write when the loop stops. *)
Definition left_over (outcome : flushed) : option (list bytes) :=
  match outcome with Drained => Some [] | StillBlocked chunks => Some chunks | Gone => None end.

(** How a loop over [chunks] on stream [i] may end. *)
Record wrote (conn : QuicConnection) (i : StreamId) (chunks : list bytes) (conn' : QuicConnection)
    (outcome : flushed) : Prop := {
  wrote_prefix : exists written, quic_written conn' i = quic_written conn i ++ written
    /\ (forall rest, left_over outcome = Some rest -> concat chunks = written ++ concat rest)
    /\ written `prefix_of` concat chunks;
  wrote_rest : forall rest, left_over outcome = Some rest -> Forall (fun chunk => chunk <> []) rest;
  wrote_blocked : outcome <> StillBlocked [];
  wrote_others : forall j, j <> i -> quic_written conn' j = quic_written conn j;
  wrote_finished : forall j, quic_finished conn' j = quic_finished conn j;
}.

Lemma wrote_stop conn i chunks conn' outcome :
  Forall (fun chunk => chunk <> []) chunks -> quic_written conn' i = quic_written conn i ->
  (forall j, j <> i -> quic_written conn' j = quic_written conn j) ->
  (forall j, quic_finished conn' j = quic_finished conn j) ->
  (forall rest, left_over outcome = Some rest -> rest = chunks) -> outcome <> StillBlocked [] ->
  wrote conn i chunks conn' outcome.
Proof.
  intros Hc Hw Ho Hf Hl Hb. split; try done.
  - exists []. rewrite app_nil_r. split_and!; [done| |apply prefix_nil]. by intros rest ->%Hl.
  - by intros rest ->%Hl.
Qed.

Lemma wrote_more conn i data chunk rest conn1 conn' outcome :
  quic_written conn1 i = quic_written conn i ++ data ->
  (forall j, j <> i -> quic_written conn1 j = quic_written conn j) ->
  (forall j, quic_finished conn1 j = quic_finished conn j) ->
  forall chunks, concat (chunk :: rest) = data ++ concat chunks ->
  wrote conn1 i chunks conn' outcome -> wrote conn i (chunk :: rest) conn' outcome.
Proof.
  intros Hw Ho Hf chunks Hc [(written & Hw' & Hl & Hp) Hr Hb Ho' Hf']. split; try done.
  - exists (data ++ written). rewrite Hw', Hw, app_assoc. split_and!; [done| |].
    + intros r Hr'. by rewrite Hc, (Hl r Hr'), app_assoc.
    + rewrite Hc. by apply prefix_app.
  - intros j Hj. by rewrite Ho', Ho.
  - intros j. by rewrite Hf', Hf.
Qed.

Lemma write_chunks_ends i n : forall conn chunks,
  (length (concat chunks) <= n)%nat -> Forall (fun chunk => chunk <> []) chunks ->
  exists conn' outcome, wrote conn i chunks conn' outcome
    /\ forall m, (n <= m)%nat -> write_chunks m conn i chunks = Some (conn', outcome).
Proof.
  induction n as [|n IH]; intros conn chunks Hn Hc; destruct chunks as [|chunk rest].
  1,3: exists conn, Drained; split; [by apply wrote_stop; try done; intros rest [= <-]
                                    |by intros [|m]].
  { apply Forall_cons in Hc as [Hc _]. cbn in Hn. rewrite length_app in Hn. destruct chunk; [done|cbn in Hn; lia]. }
  apply Forall_cons in Hc as [Hne Hc].
  destruct (quic_write conn i chunk) as [conn1 r] eqn:Hq.
  destruct (quic_write_law _ _ _ _ _ Hne Hq) as (Hf & Ho & Hr).
  assert (Hstop : forall outcome, left_over outcome = None \/ outcome = StillBlocked (chunk :: rest) ->
    quic_written conn1 i = quic_written conn i -> wrote conn i (chunk :: rest) conn1 outcome).
  { intros outcome Hl Hw. apply wrote_stop; try done; [by constructor|..].
    - intros r' Hr'. destruct Hl as [Hl| ->]; [by rewrite Hl in Hr'|by injection Hr' as <-].
    - by destruct Hl as [Hl| ->]; [destruct outcome|]. }
  destruct r as [k| | |];
    [|exists conn1, (StillBlocked (chunk :: rest))|exists conn1, Gone|exists conn1, Gone].
  2-4: split; [apply Hstop; [first [by left|by right]|done]
              |intros [|m] Hm; [lia|]; cbn [write_chunks]; by rewrite Hq].
  destruct Hr as [Hk Hw]. cbn in Hn. rewrite length_app in Hn. unfold len in Hk.
  destruct (k =? len chunk) eqn:Hall; bool_to_prop.
  - destruct (IH conn1 rest) as (conn' & outcome & Hwr & Hm); [lia|done|].
    exists conn', outcome. split.
    + eapply wrote_more; [exact Hw|done..| |exact Hwr]. cbn. f_equal.
      rewrite take_ge; [done|]. unfold len in Hall. lia.
    + intros [|m] Hle; [lia|]. cbn [write_chunks]. rewrite Hq, (proj2 (Z.eqb_eq _ _) Hall). apply Hm. lia.
  - destruct (IH conn1 (drop (Z.to_nat k) chunk :: rest)) as (conn' & outcome & Hwr & Hm).
    + cbn. rewrite length_app, length_drop. lia.
    + constructor; [|done]. intros Hd. apply (f_equal length) in Hd. rewrite length_drop in Hd.
      unfold len in Hall. cbn in Hd. lia.
    + exists conn', outcome. split.
      * eapply wrote_more; [exact Hw|done..| |exact Hwr]. cbn. by rewrite app_assoc, take_drop.
      * intros [|m] Hle; [lia|]. cbn [write_chunks]. rewrite Hq, (proj2 (Z.eqb_neq _ _) Hall). apply Hm. lia.
Qed.

(** What [flush_stream] leaves of a stream that has [total] to send; [event] tells
    whether QUIC took the last of it. *)
Record flushes (c : t) (i : StreamId) (total : bytes) (fin : bool) (c' : t)
    (event : option ProtocolEvent.t) : Prop := {
  flushes_prefix : quic_written (connection c') i `prefix_of` total;
  flushes_all : event = Some (ProtocolEvent.InternalCompleteQuicData i) ->
    quic_written (connection c') i = total /\ send_buffers c' !! i = None
    /\ (fin = true -> quic_finished (connection c') i = true);
  flushes_waits : is_Some (send_buffers c' !! i) ->
    outgoing c' i = total /\ event = None;
  flushes_fin : quic_finished (connection c') i = true ->
    quic_finished (connection c) i = true
    \/ event = Some (ProtocolEvent.InternalCompleteQuicData i);
  flushes_others : forall j, j <> i -> outgoing c' j = outgoing c j;
  flushes_ok : buffers_ok c';
}.

Lemma buffered_other c i b conn j :
  j <> i -> quic_written conn j = quic_written (connection c) j ->
  outgoing (c <| connection := conn |> <| send_buffers := <[i := b]> (send_buffers c) |>) j
  = outgoing c j.
Proof. intros Hj Hw. unfold outgoing, buffered. cbn. by rewrite Hw, lookup_insert_ne. Qed.

Lemma deleted_other c i conn j :
  j <> i -> quic_written conn j = quic_written (connection c) j ->
  outgoing (c <| connection := conn |> <| send_buffers := delete i (send_buffers c) |>) j
  = outgoing c j.
Proof. intros Hj Hw. unfold outgoing, buffered. cbn. by rewrite Hw, lookup_delete_ne. Qed.

Lemma buffers_ok_delete c i conn :
  buffers_ok c ->
  buffers_ok (c <| connection := conn |> <| send_buffers := delete i (send_buffers c) |>).
Proof. intros Hok j b. cbn. intros [_ Hj]%lookup_delete_Some. by apply (Hok j). Qed.

(** The three ways the loop ends, from what [write_chunks] wrote. *)
Section flush.
Context (c : t) (i : StreamId) (buffer : SendBuffer.t).
Context (Hok : buffers_ok c) (Hb : send_buffers c !! i = Some buffer).

Lemma outgoing_buffer :
  outgoing c i = quic_written (connection c) i ++ concat (SendBuffer.chunks buffer).
Proof. unfold outgoing, buffered. by rewrite Hb. Qed.

Lemma flushes_drained conn :
  wrote (connection c) i (SendBuffer.chunks buffer) conn Drained ->
  flushes c i (outgoing c i) (SendBuffer.finished buffer)
    (c <| connection := if SendBuffer.finished buffer then quic_finish conn i else conn |>
       <| send_buffers := delete i (send_buffers c) |>)
    (Some (ProtocolEvent.InternalCompleteQuicData i)).
Proof.
  intros [(written & Hw & Hl & _) _ _ Ho Hf]. specialize (Hl [] eq_refl).
  cbn in Hl. rewrite app_nil_r in Hl.
  set (conn' := if SendBuffer.finished buffer then quic_finish conn i else conn).
  destruct (quic_finish_law conn i) as (Fw & Fi & Fo).
  assert (Hw' : forall j, quic_written conn' j = quic_written conn j)
    by (intros j; unfold conn'; by destruct (SendBuffer.finished buffer)).
  split; cbn; rewrite ?Hw', ?Hw, ?outgoing_buffer, ?Hl; try done.
  - intros _. split_and!; [done|apply lookup_delete_eq|]. unfold conn'. by intros ->.
  - rewrite lookup_delete_eq. by intros [].
  - by right.
  - intros j Hj. apply deleted_other; [done|]. by rewrite Hw', Ho.
  - by apply buffers_ok_delete.
Qed.

Lemma flushes_blocked conn chunks :
  wrote (connection c) i (SendBuffer.chunks buffer) conn (StillBlocked chunks) ->
  flushes c i (outgoing c i) (SendBuffer.finished buffer)
    (c <| connection := conn |>
       <| send_buffers := <[i := buffer <| SendBuffer.chunks := chunks |>]> (send_buffers c) |>)
    None.
Proof.
  intros [(written & Hw & Hl & _) Hr _ Ho Hf]. specialize (Hl chunks eq_refl).
  split; cbn; rewrite ?Hw, ?outgoing_buffer, ?Hl; try done.
  - rewrite app_assoc. by eexists.
  - intros _. split; [|done]. unfold outgoing, buffered. cbn.
    by rewrite lookup_insert_eq, Hw, <- app_assoc.
  - rewrite Hf. by left.
  - intros j Hj. apply buffered_other; [done|by rewrite Ho].
  - intros j b. cbn. intros [[_ <-]|[_ Hj]]%lookup_insert_Some; [by apply Hr|by apply (Hok j)].
Qed.

Lemma flushes_gone conn :
  wrote (connection c) i (SendBuffer.chunks buffer) conn Gone ->
  flushes c i (outgoing c i) (SendBuffer.finished buffer)
    (c <| connection := conn |> <| send_buffers := delete i (send_buffers c) |>) None.
Proof.
  intros [(written & Hw & _ & Hp) _ _ Ho Hf].
  split; cbn; rewrite ?Hw, ?outgoing_buffer; try done.
  - by apply prefix_app.
  - rewrite lookup_delete_eq. by intros [].
  - rewrite Hf. by left.
  - intros j Hj. apply deleted_other; [done|by rewrite Ho].
  - by apply buffers_ok_delete.
Qed.

Lemma flush_stream_ends :
  exists n c' event, flushes c i (outgoing c i) (SendBuffer.finished buffer) c' event
    /\ forall m, (n <= m)%nat -> flush_stream m c i = Some (c', event).
Proof.
  destruct (write_chunks_ends i _ (connection c) (SendBuffer.chunks buffer) (le_n _) (Hok i buffer Hb))
    as (conn & [|chunks|] & Hwr & Hm).
  all: eexists _, _, _; split;
    [first [by apply flushes_drained|by apply flushes_blocked|by apply flushes_gone]|].
  all: intros m Hle; unfold flush_stream; rewrite Hb, Hm by exact Hle; cbn; try done.
  by destruct (SendBuffer.finished buffer).
Qed.

End flush.

Lemma varint_id i : i <= QUIC_VARINT_LIMIT -> varint_try_from i = Some i.
Proof. unfold varint_try_from. intros Hi. by rewrite (proj2 (Z.leb_le _ _) Hi). Qed.

(** [send_data] flushes what waited and the new data. *)
Lemma send_data_ends c queue i data fin :
  buffers_ok c -> i <= QUIC_VARINT_LIMIT ->
  exists n c' event fin', (fin = true -> fin' = true)
    /\ flushes c i (outgoing c i ++ data) fin' c' event
    /\ forall m, (n <= m)%nat ->
         send_data m c queue i data fin = Some (c', queue ++ option_list event).
Proof.
  intros Hok Hi. set (b0 := default SendBuffer.default_buffer (send_buffers c !! i)).
  set (b1 := if bool_decide (data = []) then b0
             else b0 <| SendBuffer.chunks := SendBuffer.chunks b0 ++ [data] |>).
  set (b2 := if fin then b1 <| SendBuffer.finished := true |> else b1).
  assert (Hch : SendBuffer.chunks b2 = SendBuffer.chunks b1) by (unfold b2; by destruct fin).
  assert (Hz : Forall (fun chunk => chunk <> []) (SendBuffer.chunks b0)
               /\ concat (SendBuffer.chunks b0) = buffered c i).
  { unfold b0, buffered. destruct (send_buffers c !! i) as [b|] eqn:E; [|by split; [constructor|]].
    split; [by apply (Hok i)|done]. }
  destruct Hz as [Hne Hc0].
  assert (Hy : Forall (fun chunk => chunk <> []) (SendBuffer.chunks b1)
               /\ concat (SendBuffer.chunks b1) = buffered c i ++ data).
  { unfold b1. case_bool_decide as Hd; [rewrite Hd, app_nil_r; done|]. cbn.
    rewrite concat_app, Hc0. cbn. rewrite app_nil_r. split; [|done].
    apply Forall_app. split; [done|]. by apply Forall_singleton. }
  destruct Hy as [Hne1 Hc1]. set (c1 := c <| send_buffers := <[i := b2]> (send_buffers c) |>).
  assert (Hok1 : buffers_ok c1).
  { intros j b. cbn. intros [[_ <-]|[_ Hj]]%lookup_insert_Some; [by rewrite Hch|by apply (Hok j)]. }
  assert (Hout : outgoing c1 i = outgoing c i ++ data).
  { unfold outgoing at 1, buffered. cbn. rewrite lookup_insert_eq. cbn. rewrite Hch, Hc1.
    unfold outgoing. by rewrite app_assoc. }
  destruct (flush_stream_ends c1 i b2 Hok1) as (n & c' & event & Hfl & Hm); [apply lookup_insert_eq|].
  exists n, c', event, (SendBuffer.finished b2). split; [unfold b2; by intros ->|]. split.
  - rewrite Hout in Hfl. destruct Hfl as [? ? ? ? Ho ?]. split; try done.
    intros j Hj. rewrite Ho by done. unfold outgoing, buffered, c1. cbn. by rewrite lookup_insert_ne.
  - intros m Hle. unfold send_data. rewrite varint_id by done. unfold push.
    fold b0. fold b1. fold b2. fold c1. by rewrite Hm.
Qed.

(** ** Reading *)

(** How the loop ends once it has read [data] more of stream [i]. *)
Definition reads (conn : QuicConnection) (i : StreamId) (limit : Z) (so_far : bytes)
    (conn' : QuicConnection) (outcome : received) : Prop :=
  match outcome with
  | ReadReset _ => True
  | ReadMore all => exists data, all = so_far ++ data /\ len all <= limit
      /\ quic_unread conn i = data ++ quic_unread conn' i
      /\ (quic_unread conn' i = [] \/ len all = limit)
  | ReadFinished all => exists data, all = so_far ++ data /\ len all <= limit
      /\ quic_unread conn i = data /\ quic_unread conn' i = []
  end.

Lemma read_chunks_ends i limit n : forall conn so_far,
  limit - len so_far <= Z.of_nat n -> len so_far <= limit ->
  exists conn' outcome, reads conn i limit so_far conn' outcome
    /\ forall m, (n <= m)%nat -> read_chunks m conn i limit so_far = Some (conn', outcome).
Proof.
  induction n as [|n IH]; intros conn so_far Hn Hlim;
    (destruct (limit <=? len so_far) eqn:Hfull; bool_to_prop;
      [exists conn, (ReadMore so_far); split;
       [exists []; rewrite app_nil_r; split_and!; [done|lia|done|right; lia]
       |intros [|m] _; cbn [read_chunks]; by rewrite (proj2 (Z.leb_le _ _) Hfull)]|]); [lia|].
  destruct (quic_next conn i (limit - len so_far)) as [conn1 r] eqn:Hq.
  assert (Hlaw := quic_next_law conn i (limit - len so_far) conn1 r ltac:(lia) Hq).
  assert (Hstep : forall m, (S n <= m)%nat -> read_chunks m conn i limit so_far
    = match r with
      | QuicRead.Chunk chunk => read_chunks (pred m) conn1 i limit (so_far ++ chunk)
      | QuicRead.Finished => Some (conn1, ReadFinished so_far)
      | QuicRead.Reset code => Some (conn1, ReadReset code)
      | QuicRead.Blocked => Some (conn1, ReadMore so_far)
      end).
  { intros [|m] Hm; [lia|]. cbn [read_chunks]. rewrite (proj2 (Z.leb_gt _ _) Hfull), Hq. by destruct r. }
  destruct r as [chunk| |code|].
  - destruct Hlaw as [Hch Hun].
    destruct (IH conn1 (so_far ++ chunk)) as (conn' & outcome & Hr & Hm); [rewrite len_app; lia..|].
    exists conn', outcome. split; [|intros m Hle; rewrite Hstep by done; apply Hm; lia].
    destruct outcome as [all|all|]; [| |done].
    + destruct Hr as (data & -> & Hl & Hu & He). exists (chunk ++ data). rewrite Hun, Hu, !app_assoc. done.
    + destruct Hr as (data & -> & Hl & Hu & He). exists (chunk ++ data). rewrite Hun, Hu, !app_assoc. done.
  - exists conn1, (ReadFinished so_far). split; [|apply Hstep]. destruct Hlaw. exists [].
    by rewrite app_nil_r; split_and!; try done; lia.
  - exists conn1, (ReadReset code). split; [done|apply Hstep].
  - exists conn1, (ReadMore so_far). split; [|apply Hstep]. destruct Hlaw as [Hu Hu']. exists [].
    rewrite app_nil_r, Hu, Hu'. split_and!; [done|lia|done|by left].
Qed.

(** What a read hands to the engine. *)
Record hands (c : t) (i : StreamId) (limit : Z) (c' : t) (event : option ProtocolEvent.t) : Prop := {
  hands_data data fin :
    event = Some (ProtocolEvent.TransportStreamDataReceived i data fin) ->
    len data <= limit /\ quic_unread (connection c) i = data ++ quic_unread (connection c') i
    /\ (fin = false -> data <> []) /\ (fin = true -> quic_unread (connection c') i = []);
  hands_kind : match event with
    | Some (ProtocolEvent.TransportStreamDataReceived j _ _)
    | Some (ProtocolEvent.TransportResetStreamReceived j _) => j = i
    | Some _ => False
    | None => True
    end;
  (** The request for data stands while there is nothing to hand over. *)
  hands_once : event <> None -> pending_receives c' = delete i (pending_receives c);
  hands_waits : event = None -> (quic_read (connection c) i).2 = true ->
    pending_receives c' = pending_receives c /\ quic_unread (connection c) i = [];
}.

Lemma recv_stream_data_ends c i limit :
  pending_receives c !! i = Some limit -> 0 < limit ->
  exists n c' event, hands c i limit c' event
    /\ forall m, (n <= m)%nat -> recv_stream_data m c i = Some (c', event).
Proof.
  intros Hp Hlim. destruct (quic_read (connection c) i) as [conn readable] eqn:Hq.
  pose proof (quic_read_law _ _ _ _ Hq) as Hun. destruct readable.
  2: { eexists 0%nat, _, None. split; [|intros m _; unfold recv_stream_data; by rewrite Hp, Hq].
       split; try done. by rewrite Hq. }
  destruct (read_chunks_ends i limit (Z.to_nat limit) conn []) as (conn' & outcome & Hr & Hm);
    [rewrite len_nil; lia..|].
  assert (Heq : forall m, (Z.to_nat limit <= m)%nat -> recv_stream_data m c i
    = let c' := c <| connection := quic_finalize conn' i |> in
      let forget := c' <| pending_receives := delete i (pending_receives c') |> in
      match outcome with
      | ReadReset code => Some (forget, Some (ProtocolEvent.TransportResetStreamReceived i code))
      | ReadMore data => if bool_decide (data = []) then Some (c', None)
          else Some (forget, Some (ProtocolEvent.TransportStreamDataReceived i data false))
      | ReadFinished data =>
          Some (forget, Some (ProtocolEvent.TransportStreamDataReceived i data true))
      end).
  { intros m Hle. unfold recv_stream_data. rewrite Hp, Hq, Hm by done. by destruct outcome. }
  pose proof (quic_finalize_law conn' i) as Hfin.
  destruct outcome as [all|all|code]; cbv zeta in Heq; cbn in Hr.
  - destruct Hr as (data & -> & Hl & Hu & He). rewrite Hun in Hu. cbn in Heq.
    case_bool_decide as Hd; eexists _, _, _; (split; [|exact Heq]); split; try done; cbn.
    + intros _ _. split; [done|]. subst data. destruct He as [He|He]; [by rewrite Hu, He|].
      unfold len in He. cbn in He. lia.
    + intros data' fin [= <- <-]. rewrite Hfin. done.
  - destruct Hr as (data & -> & Hl & Hu & He). rewrite Hun in Hu. cbn in Heq.
    eexists _, _, _. split; [|exact Heq]. split; try done; cbn.
    intros data' fin [= <- <-]. rewrite Hfin, He, app_nil_r. done.
  - eexists _, _, _. split; [|exact Heq]. split; done.
Qed.

End TransportS.
End TransportS.
