(* ===== verification/TransportSteps.v ===== *)
(** * The steps a coordinator is made of

    Every call of the coordinator is a sequence of steps of three kinds: it touches
    the QUIC connection, its buffers or the pending effects; it lets the engine
    encode; it lets the engine process an event.  A relation that holds across each
    of them, and is reflexive and transitive, holds across every call. *)

From S2P Require Import Prelude.
From S2P Require Import Types.
From S2P Require Import Events.
From S2P Require Import Qpack.
From S2P Require Import EngineMachine.
From S2P Require Import EngineProps.
From S2P Require Import Quinn.
From S2P Require Import TransportMachine.
From S2P Require Import TransportProps.

Module TransportSteps.
Section TransportSteps.
Context `{LsQpack, Quinn}.
Import TransportConnection.

(** The engine and the timers are those of before, and only effects for the user are
    added to the pending ones. *)
Record io (c c' : t) : Prop := {
  io_engine : engine c' = engine c;
  io_early : next_early_event_time c' = next_early_event_time c;
  io_resource : next_resource_cleanup_time c' = next_resource_cleanup_time c;
  io_ttl : early_event_ttl c' = early_event_ttl c;
  io_interval : resource_cleanup_interval c' = resource_cleanup_interval c;
  io_pending : forallb user_effect (pending_effects c) = true ->
    forallb user_effect (pending_effects c') = true;
}.

Section relation.
Context (R : t -> t -> Prop) {R_pre : PreOrder R} (fuel : nat).
Context (R_io : forall c c', io c c' -> R c c').
Context (R_encode : forall c e', TransportP.same_engine (engine c) e' -> R c (c <| engine := e' |>)).
Context (R_event : forall c event now e' effects,
  WebTransportEngine.handle_event fuel (engine c) event now = Some (e', effects) ->
  R c (c <| engine := e' |>)).

(** Whatever [r] returns, the coordinator [f] finds there is related to [c]. *)
Definition ends {A} (c : t) (r : option A) (f : A -> t) : Prop :=
  forall a, r = Some a -> R c (f a).

Lemma ends_bind {A B} c (r : option A) (f : A -> t) (k : A -> option B) (g : B -> t) :
  ends c r f -> (forall a, ends (f a) (k a) g) -> ends c (r ≫= k) g.
Proof using R_pre.
  intros Hr Hk bb Hb. apply bind_Some in Hb as (a & Ha & Hka).
  transitivity (f a); [by apply Hr|by eapply Hk].
Qed.

Lemma ends_from {A} c c1 (r : option A) f : R c c1 -> ends c1 r f -> ends c r f.
Proof using R_pre. intros Hs Hr a Ha. transitivity c1; [done|by apply Hr]. Qed.

Lemma ends_some {A} c (a : A) f : R c (f a) -> ends c (Some a) f.
Proof. by intros Hs a' [= <-]. Qed.

Lemma ends_io {A} c (a : A) f : io c (f a) -> ends c (Some a) f.
Proof using R_io. intros Hs. by apply ends_some, R_io. Qed.

Lemma pending_app (effects added : list Effect.t) :
  forallb user_effect added = true -> forallb user_effect effects = true ->
  forallb user_effect (effects ++ added) = true.
Proof. rewrite forallb_app. by intros -> ->. Qed.

Lemma keying_material_user conn request_id label context length :
  forallb user_effect [keying_material conn request_id label context length] = true.
Proof. unfold keying_material. by destruct (quic_export_keying_material _ _ _ _). Qed.

Local Ltac io_step :=
  by apply ends_io; split; try done; cbn; apply pending_app; first [done | apply keying_material_user].

Lemma flush_stream_keeps c i : ends c (flush_stream fuel c i) fst.
Proof using R_io.
  unfold flush_stream. destruct (send_buffers c !! i) as [b|]; [|io_step].
  destruct (write_chunks _ _ _ _) as [[conn [|chunks|]]|]; cbn; [|io_step..|done].
  destruct (SendBuffer.finished b); io_step.
Qed.

Lemma recv_stream_data_keeps c i : ends c (recv_stream_data fuel c i) fst.
Proof using R_io.
  unfold recv_stream_data. destruct (pending_receives c !! i) as [limit|]; [|io_step].
  destruct (quic_read _ _) as [conn [|]]; [|io_step].
  destruct (read_chunks _ _ _ _ _) as [[conn' [data|data|code]]|]; cbn; [|io_step..|done].
  case_bool_decide; io_step.
Qed.

Lemma push_keeps c r q : ends c r fst -> ends c (push r q) fst.
Proof using R_pre.
  intros Hr. apply (ends_bind _ _ fst); [done|]. intros [c1 event]. by apply ends_some.
Qed.

Section nested.
Context (now_instant : Instant)
  (nested : t -> list ProtocolEvent.t -> list Effect.t -> option (t * list ProtocolEvent.t)).
Context (nested_keeps : forall c q effects, ends c (nested c q effects) fst).

Lemma nested_then c c1 q effects event :
  R c c1 -> ends c ('(c, q) ← nested c1 q effects; Some (c, q ++ [event])) fst.
Proof using R_pre nested_keeps.
  intros Hs. apply (ends_bind _ _ fst); [by eapply ends_from, nested_keeps|].
  intros [c2 q2]. by apply ends_some.
Qed.

Lemma send_encoded_keeps c c1 q encoded :
  R c c1 -> ends c (send_encoded nested c1 q encoded) fst.
Proof using R_pre nested_keeps.
  intros Hs. destruct encoded; [by eapply ends_from, nested_keeps|by apply ends_some].
Qed.

Lemma create_connect_stream_keeps c q request_id authority path headers :
  ends c (create_connect_stream nested c q request_id authority path headers) fst.
Proof using R_pre R_io R_encode nested_keeps.
  unfold create_connect_stream. destruct (quic_open _ _) as [conn [i|]]; [|io_step].
  apply ends_from with (c <| connection := conn |>); [by apply R_io|].
  pose proof (TransportP.encode_connect_request_encodes (engine (c <| connection := conn |>)) i authority
    path headers) as [He _].
  destruct (WebTransportEngine.encode_connect_request _ _ _ _ _) as [e' [ef|err]].
  - apply nested_then. by apply R_encode.
  - apply ends_some. by apply R_encode.
Qed.

Lemma process_effect_keeps c q effect :
  ends c (process_effect fuel now_instant nested c q effect) fst.
Proof using R_pre R_io R_encode nested_keeps.
  destruct effect; cbn [process_effect]; try io_step.
  - unfold process_close. destruct (quic_is_closed _); io_step.
  - apply create_connect_stream_keeps.
  - unfold create_local_streams. destruct (open_local_streams _) as [conn ids]. io_step.
  - unfold create_quic_stream. destruct (quic_open _ _) as [conn [i|]]; [|io_step].
    apply nested_then. by apply R_io.
  - destruct (varint_try_from stream_id) as [i|]; [|io_step].
    apply push_keeps. eapply ends_from; [|apply recv_stream_data_keeps]. by apply R_io.
  - destruct (varint_try_from stream_id); io_step.
  - by apply send_encoded_keeps.
  - by apply send_encoded_keeps.
  - apply nested_keeps.
  - pose proof (TransportP.encode_headers_encodes (engine c) stream_id headers end_stream) as [He _].
    destruct (WebTransportEngine.encode_headers _ _ _ _) as [e' encoded].
    apply send_encoded_keeps. by apply R_encode.
  - unfold send_data. destruct (varint_try_from stream_id) as [i|]; [|io_step].
    apply push_keeps. eapply ends_from; [|apply flush_stream_keeps]. by apply R_io.
  - destruct (varint_try_from stream_id); io_step.
Qed.

Lemma process_each_keeps effects c q :
  ends c (process_each fuel now_instant nested c q effects) fst.
Proof using R_pre R_io R_encode nested_keeps.
  revert c q. induction effects as [|effect effects IH]; intros c q; [io_step|].
  apply (ends_bind _ _ fst); [apply process_effect_keeps|]. intros [c1 q1]. apply IH.
Qed.

End nested.

Lemma process_effects_keeps c effects q now_instant :
  ends c (process_effects fuel c effects q now_instant) fst.
Proof using R_pre R_io R_encode. do 2 (apply process_each_keeps; intros). done. Qed.

(** The engine processes an event, and its effects are carried out. *)
Lemma event_keeps {A} c event now now_instant q (k : t -> list ProtocolEvent.t -> option A) f :
  (forall c q, ends c (k c q) f) ->
  ends c ('(e', effects) ← WebTransportEngine.handle_event fuel (engine c) event now;
          '(c, q) ← process_effects fuel (c <| engine := e' |>) effects q now_instant;
          k c q) f.
Proof using R_pre R_io R_encode R_event.
  intros Hk a Ha. apply bind_Some in Ha as ([e' ef] & He & Ha).
  transitivity (c <| engine := e' |>); [by eapply R_event|].
  apply bind_Some in Ha as ([c1 q1] & Hp & Ha). transitivity c1; [|by eapply Hk].
  apply (process_effects_keeps _ _ _ _ _ Hp).
Qed.

Lemma dispatch_queue_keeps turns c q now now_instant :
  ends c (dispatch_queue fuel turns c q now now_instant) id.
Proof using R_pre R_io R_encode R_event.
  revert c q. induction turns as [|turns IH]; intros c [|event q]; cbn [dispatch_queue];
    [by apply ends_some|done|by apply ends_some|]. by apply event_keeps.
Qed.

Lemma dispatch_protocol_event_keeps c event now now_instant :
  ends c (dispatch_protocol_event fuel c event now now_instant) id.
Proof using R_pre R_io R_encode R_event.
  apply (event_keeps c event now now_instant [] (fun c q => dispatch_queue fuel fuel c q now now_instant)).
  intros. apply dispatch_queue_keeps.
Qed.

Lemma dispatch_from c c1 event now now_instant :
  io c c1 -> ends c (dispatch_protocol_event fuel c1 event now now_instant) id.
Proof using R_pre R_io R_encode R_event.
  intros Hio. eapply ends_from; [by apply R_io|]. apply dispatch_protocol_event_keeps.
Qed.

Lemma dispatch_datagrams_keeps c datagrams now now_instant :
  ends c (dispatch_datagrams fuel c datagrams now now_instant) id.
Proof using R_pre R_io R_encode R_event.
  revert c. induction datagrams as [|data datagrams IH]; intros c; [by apply ends_some|].
  apply (ends_bind _ _ id); [apply dispatch_protocol_event_keeps|apply IH].
Qed.

Lemma accept_streams_keeps turns c direction now now_instant :
  ends c (accept_streams fuel turns c direction now now_instant) id.
Proof using R_pre R_io R_encode R_event.
  revert c. induction turns as [|turns IH]; intros c; [done|]. cbn [accept_streams].
  destruct (quic_accept _ _) as [conn [i|]]; [|io_step].
  apply (ends_bind _ _ id); [by apply dispatch_from|apply IH].
Qed.

Lemma dispatch_some_keeps c r now now_instant :
  ends c r fst -> ends c (dispatch_some fuel r now now_instant) id.
Proof using R_pre R_io R_encode R_event.
  intros Hr. apply (ends_bind _ _ fst); [done|]. intros [c1 [event|]]; [|by apply ends_some].
  apply dispatch_protocol_event_keeps.
Qed.

Lemma process_quic_event_keeps c event now now_instant :
  ends c (process_quic_event fuel c event now now_instant) id.
Proof using R_pre R_io R_encode R_event.
  destruct event; cbn [process_quic_event]; try apply dispatch_protocol_event_keeps.
  - apply (ends_bind _ _ id); [apply dispatch_protocol_event_keeps|]. intros c1.
    destruct (quic_datagram_max_size _); [apply dispatch_protocol_event_keeps|by apply ends_some].
  - apply (ends_bind _ _ (fun _ => c)); [intros a _; reflexivity|]. intros [conn datagrams].
    eapply ends_from; [|apply dispatch_datagrams_keeps]. by apply R_io.
  - apply accept_streams_keeps.
  - apply dispatch_some_keeps, recv_stream_data_keeps.
  - by apply dispatch_from.
  - apply dispatch_some_keeps, flush_stream_keeps.
  - by apply ends_some.
Qed.

Lemma process_quic_events_keeps c now now_instant :
  ends c (process_quic_events fuel c now now_instant) id.
Proof using R_pre R_io R_encode R_event.
  unfold process_quic_events. generalize fuel at 2 as turns. intros turns. revert c.
  induction turns as [|turns IH]; intros c; [done|]. cbn [process_quic_loop].
  destruct (quic_poll _) as [conn [event|]]; [|io_step].
  apply (ends_bind _ _ id); [|apply IH]. eapply ends_from; [|apply process_quic_event_keeps]. by apply R_io.
Qed.

Lemma handle_protocol_event_keeps c event now now_instant :
  ends c (handle_protocol_event fuel c event now now_instant) id.
Proof using R_pre R_io R_encode R_event.
  apply (ends_bind _ _ id); [apply dispatch_protocol_event_keeps|intros c1].
  apply process_quic_events_keeps.
Qed.

Lemma handle_quic_connection_event_keeps c event now now_instant :
  ends c (handle_quic_connection_event fuel c event now now_instant) id.
Proof using R_pre R_io R_encode R_event.
  eapply ends_from; [|apply process_quic_events_keeps]. by apply R_io.
Qed.

End relation.
End TransportSteps.
End TransportSteps.
