(* ===== verification/TransportTimers.v ===== *)
(** * The timers of the coordinator

    Only [handle_timeout] moves a deadline, and it moves it past the present. *)

From S2P Require Import Prelude.
From S2P Require Import Types.
From S2P Require Import Events.
From S2P Require Import Qpack.
From S2P Require Import EngineMachine.
From S2P Require Import Quinn.
From S2P Require Import TransportMachine.
From S2P Require Import TransportProps.
From S2P Require Import TransportSteps.

Module TransportTimers.
Section TransportTimers.
Context `{LsQpack, Quinn}.
Import TransportConnection.

Record same_timers (c c' : t) : Prop := {
  same_early : next_early_event_time c' = next_early_event_time c;
  same_resource : next_resource_cleanup_time c' = next_resource_cleanup_time c;
  same_ttl : early_event_ttl c' = early_event_ttl c;
  same_interval : resource_cleanup_interval c' = resource_cleanup_interval c;
}.

#[local] Instance same_timers_pre : PreOrder same_timers.
Proof. split; [done|]. intros c1 c2 c3 [] []. split; congruence. Qed.

(** The relation holds across every step, so across every call. *)
Lemma io_timers c c' : TransportSteps.io c c' -> same_timers c c'.
Proof. by intros []. Qed.

Lemma encode_timers c e' :
  TransportP.same_engine (engine c) e' -> same_timers c (c <| engine := e' |>).
Proof. done. Qed.

Section calls.
Context (fuel : nat) (now : f64) (now_instant : Instant).

Lemma event_timers c event now1 e' effects :
  WebTransportEngine.handle_event fuel (engine c) event now1 = Some (e', effects) ->
  same_timers c (c <| engine := e' |>).
Proof. done. Qed.

Lemma dispatch_protocol_event_timers c event c' :
  dispatch_protocol_event fuel c event now now_instant = Some c' -> same_timers c c'.
Proof. exact (TransportSteps.dispatch_protocol_event_keeps _ _ io_timers encode_timers event_timers _ _ _ _ _). Qed.

Lemma process_quic_events_timers c c' :
  process_quic_events fuel c now now_instant = Some c' -> same_timers c c'.
Proof. exact (TransportSteps.process_quic_events_keeps _ _ io_timers encode_timers event_timers _ _ _ _). Qed.

Lemma handle_protocol_event_timers c event c' :
  handle_protocol_event fuel c event now now_instant = Some c' -> same_timers c c'.
Proof. exact (TransportSteps.handle_protocol_event_keeps _ _ io_timers encode_timers event_timers _ _ _ _ _). Qed.

Lemma handle_quic_connection_event_timers c event c' :
  handle_quic_connection_event fuel c event now now_instant = Some c' -> same_timers c c'.
Proof.
  exact (TransportSteps.handle_quic_connection_event_keeps _ _ io_timers encode_timers event_timers _ _ _ _ _).
Qed.

End calls.

(** ** Deadlines *)

(** A timer is armed exactly when it has an interval, which is positive. *)
Record armed (c : t) : Prop := {
  armed_resource : next_resource_cleanup_time c = None <-> resource_cleanup_interval c = None;
  armed_early : next_early_event_time c = None <-> early_event_ttl c = None;
  interval_positive : forall d, resource_cleanup_interval c = Some d -> 0 < d;
  ttl_positive : forall d, early_event_ttl c = Some d -> 0 < d;
}.

Lemma armed_same c c' : same_timers c c' -> armed c -> armed c'.
Proof. intros [H1 H2 H3 H4] []. split; by rewrite ?H1, ?H2, ?H3, ?H4. Qed.

(** What handling a due timer does. *)
Lemma rearmed (deadline interval : option Z) now :
  (deadline = None <-> interval = None) -> (forall d, interval = Some d -> 0 < d) ->
  let deadline' := if is_due deadline now then (fun d => now + d) <$> interval else deadline in
  (deadline' = None <-> interval = None) /\ (forall d, deadline' = Some d -> now < d).
Proof.
  intros Hn Hp. unfold is_due. destruct deadline as [d|]; cbn; [|split; [done|discriminate]].
  destruct (d <=? now) eqn:E; bool_to_prop; [|by split; [|intros d' [= <-]]].
  destruct interval as [k|]; cbn; [|by split].
  split; [done|]. intros d' [= <-]. specialize (Hp k eq_refl). lia.
Qed.

Lemma cleanup_resources_timers fuel c now now_instant c' :
  cleanup_resources fuel c now now_instant = Some c' ->
  next_resource_cleanup_time c'
    = (if is_due (next_resource_cleanup_time c) now_instant
       then (fun d => now_instant + d) <$> resource_cleanup_interval c
       else next_resource_cleanup_time c)
  /\ next_early_event_time c' = next_early_event_time c
  /\ resource_cleanup_interval c' = resource_cleanup_interval c
  /\ early_event_ttl c' = early_event_ttl c.
Proof.
  unfold cleanup_resources. destruct (is_due _ _); [|by intros [= <-]].
  intros Hb. apply bind_Some in Hb as (c1 & Hd & [= <-]).
  apply dispatch_protocol_event_timers in Hd as [H1 H2 H3 H4]. cbn in *. by rewrite H1, H3, H4.
Qed.

Lemma cleanup_early_events_timers fuel c now now_instant c' :
  cleanup_early_events fuel c now now_instant = Some c' ->
  next_early_event_time c'
    = (if is_due (next_early_event_time c) now_instant
       then (fun d => now_instant + d) <$> early_event_ttl c
       else next_early_event_time c)
  /\ next_resource_cleanup_time c' = next_resource_cleanup_time c
  /\ resource_cleanup_interval c' = resource_cleanup_interval c
  /\ early_event_ttl c' = early_event_ttl c.
Proof.
  unfold cleanup_early_events. destruct (is_due _ _); [|by intros [= <-]].
  intros Hb. apply bind_Some in Hb as (c1 & Hd & [= <-]).
  apply dispatch_protocol_event_timers in Hd as [H1 H2 H3 H4]. cbn in *. by rewrite H2, H3, H4.
Qed.

Lemma handle_timeout_timers fuel c now now_instant c' :
  armed c -> handle_timeout fuel c now now_instant = Some c' ->
  armed c' /\ (forall d, next_resource_cleanup_time c' = Some d -> now_instant < d)
  /\ (forall d, next_early_event_time c' = Some d -> now_instant < d).
Proof.
  intros [A1 A2 A3 A4] Hh. apply bind_Some in Hh as (c1 & H1 & Hh). apply bind_Some in Hh as (c2 & H2 & Hh).
  apply cleanup_resources_timers in H1 as (R1 & R2 & R3 & R4).
  apply cleanup_early_events_timers in H2 as (E1 & E2 & E3 & E4).
  apply process_quic_events_timers in Hh as [P1 P2 P3 P4]. cbn in P1, P2, P3, P4.
  rewrite R2, R4 in E1. rewrite R1 in E2. rewrite R3 in E3. rewrite R4 in E4.
  rewrite E1 in P1. rewrite E2 in P2. rewrite E3 in P4. rewrite E4 in P3.
  destruct (rearmed _ _ now_instant A1 A3) as [Q1 Q2]. destruct (rearmed _ _ now_instant A2 A4) as [Q3 Q4].
  cbv zeta in Q1, Q2, Q3, Q4. split_and!; [split|..]; by rewrite ?P1, ?P2, ?P3, ?P4.
Qed.

(** The deadline the reactor sleeps until is the earliest there is. *)
Lemma earliest_spec so_far deadline d :
  earliest so_far deadline = Some d ->
  (so_far = Some d \/ deadline = Some d)
  /\ (forall x, so_far = Some x -> d <= x) /\ (forall x, deadline = Some x -> d <= x).
Proof.
  destruct so_far as [x|], deadline as [y|]; cbn; intros [= <-]; split_and!; intros; simplify_eq; auto; try lia.
  destruct (Z.min_spec x y) as [[? ->]|[? ->]]; auto.
Qed.

Lemma connection_timeout_spec c d :
  poll_timeout c = Some d ->
  (quic_poll_timeout (connection c) = Some d \/ next_resource_cleanup_time c = Some d
   \/ next_early_event_time c = Some d)
  /\ (forall x, quic_poll_timeout (connection c) = Some x \/ next_resource_cleanup_time c = Some x
      \/ next_early_event_time c = Some x -> d <= x).
Proof.
  unfold poll_timeout. intros H1. apply earliest_spec in H1 as (H1 & H2 & H3).
  destruct (earliest (quic_poll_timeout _) _) as [y|] eqn:E.
  - apply earliest_spec in E as (E1 & E2 & E3). specialize (H2 y eq_refl). split.
    + destruct H1 as [[= <-]|H1]; [destruct E1; auto|auto].
    + intros x [Hx|[Hx|Hx]]; [specialize (E2 x Hx)|specialize (E3 x Hx)|specialize (H3 x Hx)]; lia.
  - destruct H1 as [|H1]; [done|]. split; [auto|].
    destruct (quic_poll_timeout _), (next_resource_cleanup_time c); try done.
    intros x [|[|Hx]]; try done. by apply H3.
Qed.

Lemma poll_timeout_none c :
  poll_timeout c = None ->
  quic_poll_timeout (connection c) = None /\ next_resource_cleanup_time c = None
  /\ next_early_event_time c = None.
Proof.
  unfold poll_timeout. by destruct (quic_poll_timeout _), (next_resource_cleanup_time c),
    (next_early_event_time c).
Qed.

End TransportTimers.
End TransportTimers.
