(* ===== verification/TransportClose.v ===== *)
(** * Closing a connection

    No call of the coordinator takes the connection machine back to an earlier state;
    and a close that the driver asks for is complete when the call returns. *)

From S2P Require Import Prelude.
From S2P Require Import Types.
From S2P Require Import Events.
From S2P Require Import Utils.
From S2P Require Import Qpack.
From S2P Require Import SessionMachine.
From S2P Require Import ConnectionMachine.
From S2P Require Import ConnectionSteps.
From S2P Require Import ConnectionLimits.
From S2P Require Import H3Machine.
From S2P Require Import EngineMachine.
From S2P Require Import EngineProps.
From S2P Require Import EngineRuns.
From S2P Require Import Quinn.
From S2P Require Import TransportMachine.
From S2P Require Import TransportProps.
From S2P Require Import TransportSteps.

Module TransportClose.
Section TransportClose.
Context `{LsQpack, Quinn}.
Import TransportConnection.
Local Notation wire e := (WebTransportEngine.connection e).

(** ** The engine moves forward *)

Definition forward (e e' : WebTransportEngine.t) : Prop :=
  EngineR.pending_ok e ->
  EngineR.pending_ok e' /\ (ConnL.rank (wire e) <= ConnL.rank (wire e'))%nat.

#[local] Instance forward_pre : PreOrder forward.
Proof.
  split; [by intros e He|]. intros e1 e2 e3 H1 H2 Hp. destruct (H1 Hp) as [Hp2 Hr].
  destruct (H2 Hp2). split; [done|lia].
Qed.

Lemma process_forward e event now e' effects front :
  WebTransportEngine.process e event now = Some (e', effects, front) -> forward e e'.
Proof.
  intros Hp Hok. split; [by eapply EngineR.process_pending_ok|].
  destruct (EngineR.process_turns e event now e' effects front) as [failed [Hc _ _ _]];
    [apply Hok|done|].
  rewrite Hc. destruct (EngineR.performs (wire e) event now) as [o|]; [|done]. cbn.
  destruct (ConnS.step o (wire e)) as [c' ef] eqn:Hs. apply ConnL.step_progress in Hs. by destruct Hs.
Qed.

Lemma run_events_forward fuel e queue now all e' effects :
  WebTransportEngine.run_events fuel e queue now all = Some (e', effects) -> forward e e'.
Proof.
  revert e queue all. induction fuel as [|fuel IH]; intros e [|event queue] all;
    cbn [WebTransportEngine.run_events]; try done; try by intros [= <- _].
  intros Hb. apply bind_Some in Hb as ([[e1 ef] front] & Hp & Hb).
  transitivity e1; [by eapply process_forward|by eapply IH].
Qed.

Definition forwards (c c' : t) : Prop := forward (engine c) (engine c').

#[local] Instance forwards_pre : PreOrder forwards.
Proof.
  split; [intros c; unfold forwards; reflexivity|]. intros c1 c2 c3. unfold forwards. apply transitivity.
Qed.

Lemma io_forwards c c' : TransportSteps.io c c' -> forwards c c'.
Proof. intros []. unfold forwards. by rewrite io_engine. Qed.

Lemma same_forward e e' : TransportP.same_engine e e' -> forward e e'.
Proof.
  intros [Hc Hp _] [Hw Hb]. unfold ConnL.rank. rewrite Hc. split; [|done]. split; by rewrite ?Hc, Hp.
Qed.

Lemma encode_forwards c e' :
  TransportP.same_engine (engine c) e' -> forwards c (c <| engine := e' |>).
Proof. apply same_forward. Qed.

Section calls.
Context (fuel : nat) (now : f64) (now_instant : Instant).

Lemma event_forwards c event now1 e' effects :
  WebTransportEngine.handle_event fuel (engine c) event now1 = Some (e', effects) ->
  forwards c (c <| engine := e' |>).
Proof. apply run_events_forward. Qed.

Lemma dispatch_queue_forwards turns c queue c' :
  dispatch_queue fuel turns c queue now now_instant = Some c' -> forwards c c'.
Proof.
  exact (TransportSteps.dispatch_queue_keeps _ _ io_forwards encode_forwards event_forwards _ _ _ _ _ _).
Qed.

Lemma dispatch_protocol_event_forwards c event c' :
  dispatch_protocol_event fuel c event now now_instant = Some c' -> forwards c c'.
Proof.
  exact (TransportSteps.dispatch_protocol_event_keeps _ _ io_forwards encode_forwards event_forwards _ _ _ _ _).
Qed.

Lemma process_quic_events_forwards c c' :
  process_quic_events fuel c now now_instant = Some c' -> forwards c c'.
Proof.
  exact (TransportSteps.process_quic_events_keeps _ _ io_forwards encode_forwards event_forwards _ _ _ _).
Qed.

Lemma handle_protocol_event_forwards c event c' :
  handle_protocol_event fuel c event now now_instant = Some c' -> forwards c c'.
Proof.
  exact (TransportSteps.handle_protocol_event_keeps _ _ io_forwards encode_forwards event_forwards _ _ _ _ _).
Qed.

Lemma handle_quic_connection_event_forwards c event c' :
  handle_quic_connection_event fuel c event now now_instant = Some c' -> forwards c c'.
Proof.
  exact (TransportSteps.handle_quic_connection_event_keeps _ _ io_forwards encode_forwards event_forwards
    _ _ _ _ _).
Qed.

Lemma handle_timeout_forwards c c' :
  handle_timeout fuel c now now_instant = Some c' -> forwards c c'.
Proof.
  intros Hh. apply bind_Some in Hh as (c1 & H1 & Hh). apply bind_Some in Hh as (c2 & H2 & Hh).
  apply process_quic_events_forwards in Hh. transitivity c1; [|transitivity c2; [|exact Hh]].
  - revert H1. unfold cleanup_resources. destruct (is_due _ _); [|by intros [= <-]].
    intros Hb. apply bind_Some in Hb as (c3 & Hd & [= <-]). by apply dispatch_protocol_event_forwards in Hd.
  - revert H2. unfold cleanup_early_events. destruct (is_due _ _); [|by intros [= <-]].
    intros Hb. apply bind_Some in Hb as (c3 & Hd & [= <-]). by apply dispatch_protocol_event_forwards in Hd.
Qed.

(** ** A close completes *)

Definition is_closed (c : t) : Prop := Connection.state (wire (engine c)) = ConnectionState.Closed.

Lemma closed_rank c : (4 <= ConnL.rank c)%nat <-> Connection.state c = ConnectionState.Closed.
Proof. unfold ConnL.rank. destruct (Connection.state c); cbn; split; intros; (done || lia). Qed.

Lemma coordinator_closed_stays c c' :
  EngineR.pending_ok (engine c) -> is_closed c -> forwards c c' -> is_closed c'.
Proof.
  unfold is_closed. intros Hp Hc Hf. destruct (Hf Hp) as [_ Hr]. apply closed_rank.
  apply closed_rank in Hc. lia.
Qed.

Lemma handle_terminated_closes c code reason :
  Connection.state (Connection.handle_terminated c code reason now).1 = ConnectionState.Closed.
Proof.
  unfold Connection.handle_terminated. case_bool_decide; [done|]. cbv zeta.
  match goal with |- context [Connection.all_sessions ?c ?f] =>
    pose proof (ConnL.all_sessions_state c f) as Hs; destruct (Connection.all_sessions c f) end.
  exact Hs.
Qed.

(** The report of QUIC's end closes the connection. *)
Lemma terminated_closes e code reason e' effects :
  WebTransportEngine.handle_event fuel e
    (ProtocolEvent.TransportConnectionTerminated code reason) now = Some (e', effects) ->
  Connection.state (wire e') = ConnectionState.Closed.
Proof.
  unfold WebTransportEngine.handle_event. destruct fuel as [|fuel']; [done|].
  cbn [WebTransportEngine.run_events WebTransportEngine.process WebTransportEngine.process_transport].
  unfold WebTransportEngine.on_connection.
  pose proof (handle_terminated_closes (wire e) code reason) as Hc.
  destruct (Connection.handle_terminated _ _ _ _) as [c' ef]. cbn in Hc.
  unfold WebTransportEngine.fail_pending_user_events. cbn. destruct fuel'; by intros [= <- _].
Qed.

Lemma queued_termination_closes turns c code reason rest c' :
  EngineR.pending_ok (engine c) ->
  dispatch_queue fuel turns c (ProtocolEvent.TransportConnectionTerminated code reason :: rest)
    now now_instant = Some c' -> is_closed c'.
Proof.
  intros Hp. destruct turns as [|turns]; [done|]. cbn [dispatch_queue]. intros Hb.
  apply bind_Some in Hb as ([e1 ef] & He & Hb). apply bind_Some in Hb as ([c1 q1] & Hpe & Hb).
  pose proof (terminated_closes _ _ _ _ _ He) as Hcl.
  destruct (run_events_forward _ _ _ _ _ _ _ He Hp) as [Hp1 _].
  apply TransportP.process_effects_carried in Hpe as [_ _ Hs]. cbn in Hs.
  destruct (same_forward _ _ Hs Hp1) as [Hp2 Hr]. apply dispatch_queue_forwards in Hb.
  eapply coordinator_closed_stays; [exact Hp2| |exact Hb]. unfold is_closed. apply closed_rank in Hcl.
  apply closed_rank. lia.
Qed.

(** Closed, or open on both sides. *)
Definition closable (c : t) : Prop :=
  is_closed c \/ (ConnL.rank (wire (engine c)) < 3)%nat /\ quic_is_closed (connection c) = false.

Lemma close_event c e' effects :
  (ConnL.rank (wire (engine c)) < 3)%nat ->
  WebTransportEngine.handle_event fuel (engine c) ProtocolEvent.InternalCloseConnection now
    = Some (e', effects) ->
  exists rest, effects = Effect.CloseQuicConnection ERR_H3_NO_ERROR None :: rest.
Proof.
  intros Hr. unfold WebTransportEngine.handle_event. destruct fuel as [|fuel']; [done|].
  cbn [WebTransportEngine.run_events WebTransportEngine.process].
  unfold WebTransportEngine.on_connection, Connection.close. unfold ConnL.rank in Hr.
  destruct (Connection.state (wire (engine c))) eqn:E; cbn in Hr; try lia; cbn.
  all: destruct fuel'; intros [= _ <-]; by eexists.
Qed.

Lemma close_completes c c' :
  EngineR.pending_ok (engine c) -> closable c ->
  handle_protocol_event fuel c ProtocolEvent.InternalCloseConnection now now_instant = Some c' ->
  is_closed c'.
Proof.
  intros Hp [Hc|[Hr Hq]] Hh.
  { eapply coordinator_closed_stays; [exact Hp|exact Hc|]. by eapply handle_protocol_event_forwards. }
  apply bind_Some in Hh as (c1 & Hd & Hq1).
  assert (Hc1 : is_closed c1 /\ EngineR.pending_ok (engine c1)).
  { split; [|by apply (dispatch_protocol_event_forwards _ _ _ Hd)].
    apply bind_Some in Hd as ([e1 ef] & He & Hd). destruct (close_event c e1 ef Hr He) as [rest ->].
    destruct (run_events_forward _ _ _ _ _ _ _ He Hp) as [Hp1 _].
    apply bind_Some in Hd as ([c2 q2] & Hpe & Hd).
    pose proof (TransportP.process_effects_carried _ _ _ _ _ _ _ Hpe) as [_ _ Hs]. cbn in Hs.
    destruct (same_forward _ _ Hs Hp1) as [Hp2 _].
    unfold process_effects in Hpe. cbn [process_nested process_each process_effect] in Hpe.
    unfold process_close in Hpe. cbn [set_field set_engine connection] in Hpe. rewrite Hq in Hpe.
    cbn [mbind option_bind] in Hpe.
    apply TransportP.process_each_carried in Hpe as [(events & -> & _) _ _];
      [eapply queued_termination_closes; [exact Hp2|exact Hd]|].
    intros c3 q3 ef3 c4 q4 H1. by apply TransportP.process_each_carried in H1. }
  destruct Hc1 as [Hc1 Hp1]. eapply coordinator_closed_stays; [exact Hp1|exact Hc1|].
  by eapply process_quic_events_forwards.
Qed.

End calls.
End TransportClose.
End TransportClose.
