(* ===== verification/TransportTheorems.v ===== *)
(** * Theorems about the coordinator

    The QUIC coordinator below the engine: the layers together answer every
    request, stream data crosses the coordinator whole and in order, and its
    timers never fire twice for the same deadline. *)

From S2P Require Import Prelude.
From S2P Require Import Types.
From S2P Require Import Events.
From S2P Require Import Utils.
From S2P Require Import Qpack.
From S2P Require Import QpackLiteral.
From S2P Require Import SessionMachine.
From S2P Require Import SessionTheorems.
From S2P Require Import ConnectionMachine.
From S2P Require Import ConnectionProps.
From S2P Require Import ConnectionRuns.
From S2P Require Import ConnectionSteps.
From S2P Require Import ConnectionTheorems.
From S2P Require Import H3Machine.
From S2P Require Import H3Theorems.
From S2P Require Import EngineMachine.
From S2P Require Import EngineRuns.
From S2P Require Import EngineTheorems.
From S2P Require Import Quinn.
From S2P Require Import QuinnPipe.
From S2P Require Import TransportMachine.
From S2P Require Import TransportProps.
From S2P Require Import TransportRuns.
From S2P Require Import TransportStreams.
From S2P Require Import TransportTimers.

Module TransportT.
Section TransportT.
Context `{LsQpack, Quinn}.
Import TransportConnection TransportP TransportR.
Local Notation wire e := (WebTransportEngine.connection e).

(** A coordinator just made around a new engine. *)
Definition fresh (p : EngineParameters.t) (c0 : t) : Prop :=
  EngineT.fresh p (engine c0)
  /\ exists conn interval ttl now, c0 = new conn (engine c0) interval ttl now.

(** ** Requests *)

(** Once the connection is closed and the coordinator idle, every request has been
    completed. *)
Lemma closed_answers_all p c0 c w users delivered :
  fresh p c0 -> driven c0 c [] w users delivered ->
  Connection.state (wire (engine c)) = ConnectionState.Closed ->
  users ≡ₚ completed (delivered ++ pending_effects c) /\ NoDup users.
Proof.
  intros (Hf & conn & interval & ttl & now & Hc0) Hd Hst.
  assert (He0 : pending_effects c0 = []) by by rewrite Hc0.
  destruct (driven_coordinated p c0 c [] w users delivered Hf He0 Hd)
    as [(out & Hrun & Hout) [Hcr _]].
  destruct (EngineT.closed_run p _ _ _ _ _ Hf Hrun Hst) as (_ & _ & Hall).
  apply Permutation_nil_r in Hcr. rewrite Hcr, Hout in Hall. cbn in Hall.
  rewrite app_nil_r in Hall. split; [done|]. apply (EngineT.run_unique _ _ _ _ _ _ Hrun).
Qed.

Section driven.
Context (p : EngineParameters.t) (c0 c : t) (queue : list ProtocolEvent.t) (w : ConnR.world)
  (users : list RequestId) (delivered : list Effect.t).


End driven.

(** ** Timers *)

(** Handling a timeout re-arms the timers of the coordinator: afterwards the only
    deadline that can still be at or before the present is one of QUIC itself, so
    the reactor does not spin on the coordinator's own timers, and no armed timer
    is lost. *)
Theorem transport_timers_rearm fuel c now now_instant c' :
  TransportTimers.armed c -> handle_timeout fuel c now now_instant = Some c' ->
  TransportTimers.armed c'
  /\ forall deadline, poll_timeout c' = Some deadline ->
       (forall x, quic_poll_timeout (connection c') = Some x -> deadline <= x)
       /\ (deadline <= now_instant -> quic_poll_timeout (connection c') = Some deadline).
Proof.
  intros Ha Hh. destruct (TransportTimers.handle_timeout_timers _ _ _ _ _ Ha Hh) as (Ha' & Hr & He).
  split; [done|]. intros d Hd. apply TransportTimers.connection_timeout_spec in Hd as [Hd Hmin].
  split; [auto|]. intros Hle. destruct Hd as [|[Hd|Hd]]; [done|specialize (Hr d Hd)|specialize (He d Hd)]; lia.
Qed.

End TransportT.

(** ** Stream data *)

Section streams.
Context `{LsQpack, QuinnStreams}.
Import TransportConnection TransportS.

(** C17: no byte is lost, repeated or reordered on its way to QUIC.  Sending data ends,
    and leaves on the stream what had been sent before followed by the new data:
    QUIC took a prefix of it, the rest waits in the buffer unless QUIC gave the
    stream up, the write is reported complete only when QUIC took all of it, and
    a stream is finished only then; other streams are not touched. *)
Theorem transport_sends_in_order c queue i data fin :
  buffers_ok c -> i <= QUIC_VARINT_LIMIT ->
  exists n c' event, (forall m, (n <= m)%nat ->
      send_data m c queue i data fin = Some (c', queue ++ option_list event))
    /\ quic_written (connection c') i `prefix_of` outgoing c i ++ data
    /\ (event = Some (ProtocolEvent.InternalCompleteQuicData i) ->
        quic_written (connection c') i = outgoing c i ++ data
        /\ (fin = true -> quic_finished (connection c') i = true))
    /\ (is_Some (send_buffers c' !! i) -> outgoing c' i = outgoing c i ++ data /\ event = None)
    /\ (quic_finished (connection c') i = true -> quic_finished (connection c) i = true
        \/ event = Some (ProtocolEvent.InternalCompleteQuicData i))
    /\ (forall j, j <> i -> outgoing c' j = outgoing c j) /\ buffers_ok c'.
Proof.
  intros Hok Hi. destruct (send_data_ends c queue i data fin Hok Hi)
    as (n & c' & event & fin' & Hfin & [Hp Hall Hw Hf Ho Hb] & Hm).
  exists n, c', event. split_and!; try done. intros He. destruct (Hall He) as (? & _ & ?). auto.
Qed.

(** C18: data is handed to the engine in the order it arrived, no more at once than the
    engine asked for, and once per request: a read ends, hands over a prefix of what
    had not been read, never an empty one unless the stream is over, and keeps the
    request while nothing has arrived. *)
Theorem transport_reads_in_order c i limit :
  pending_receives c !! i = Some limit -> 0 < limit ->
  exists n c' event, (forall m, (n <= m)%nat -> recv_stream_data m c i = Some (c', event))
    /\ (forall data fin, event = Some (ProtocolEvent.TransportStreamDataReceived i data fin) ->
        len data <= limit
        /\ quic_unread (connection c) i = data ++ quic_unread (connection c') i
        /\ (fin = false -> data <> []) /\ (fin = true -> quic_unread (connection c') i = []))
    /\ (event <> None -> pending_receives c' = delete i (pending_receives c))
    /\ (event = None -> (quic_read (connection c) i).2 = true ->
        pending_receives c' = pending_receives c /\ quic_unread (connection c) i = []).
Proof.
  intros Hp Hl. destruct (recv_stream_data_ends c i limit Hp Hl) as (n & c' & event & [Hd _ Ho Hw] & Hm).
  exists n, c', event. by split_and!.
Qed.

End streams.

(** ** Running a list of events *)

Section runs.
Context `{LsQpack, Quinn}.
Import TransportConnection TransportP TransportR.

Definition turn_okb (e : WebTransportEngine.t) (event : ProtocolEvent.t) (now : f64)
    (w : ConnR.world) : bool :=
  match EngineR.performs (WebTransportEngine.connection e) event now with
  | Some o => ConnT.transport_okb (WebTransportEngine.connection e) w o
  | None => true
  end.

(** The loop of the engine and its world, if the layers below can produce it. *)
Fixpoint follow (fuel : nat) (now : f64) (e : WebTransportEngine.t)
    (queue : list ProtocolEvent.t) (w : ConnR.world)
    : option (WebTransportEngine.t * ConnR.world * list Effect.t) :=
  match queue with
  | [] => Some (e, w, [])
  | event :: rest =>
      match fuel with
      | O => None
      | S fuel' =>
          if turn_okb e event now w then
            '(e1, effects, front) ← WebTransportEngine.process e event now;
            '(e', w', effects') ← follow fuel' now e1 (front ++ rest) (advance e event now w);
            Some (e', w', effects ++ effects')
          else None
      end
  end.

Record run : Type := Run {
  coordinator : t;
  queue : list ProtocolEvent.t;
  world : ConnR.world;
  users : list RequestId;
  delivered : list Effect.t;
}.

Definition driven_run (c0 : t) (r : run) : Prop :=
  driven c0 (coordinator r) (queue r) (world r) (users r) (delivered r).

Definition begin (c0 : t) : run :=
  let conn := WebTransportEngine.connection (engine c0) in
  Run c0 [] (ConnS.start conn) (option_list (Connection.request_id conn)) [].

Fixpoint settle (fuel : nat) (now : f64) (r : run) : option run :=
  match queue r with
  | [] => Some r
  | event :: rest =>
      match fuel with
      | O => None
      | S fuel' =>
          '(e', w', effects) ← follow 16 now (engine (coordinator r)) [event] (world r);
          '(c', queue') ← process_effects 16 ((coordinator r) <| engine := e' |>) effects rest 0;
          settle fuel' now (Run c' queue' w' (users r) (delivered r))
      end
  end.

(** An event of the driver that brings nothing back. *)
Definition outer (event : ProtocolEvent.t) : bool :=
  match event with
  | ProtocolEvent.H3CapsuleReceived _ _ _ | ProtocolEvent.H3ConnectStreamClosed _
  | ProtocolEvent.H3DatagramReceived _ _ | ProtocolEvent.H3GoawayReceived
  | ProtocolEvent.H3HeadersReceived _ _ | ProtocolEvent.H3SettingsReceived _
  | ProtocolEvent.H3WebTransportStreamOpened _ _ => false
  | event => bool_decide (returns_of event = []) && bool_decide (connected_of event = [])
  end.

(** An event comes in, the coordinator settles, and the user polls one effect. *)
Definition exchange (event : ProtocolEvent.t) (now : f64) (r : run) : option run :=
  if outer event && bool_decide (queue r = [])
     && bool_decide (NoDup (users r ++ EngineR.asks event)) then
    r ← settle 16 now (Run (coordinator r) [event] (world r) (users r ++ EngineR.asks event)
                         (delivered r));
    Some match poll_effects (coordinator r) with
         | (c, Some effect) => Run c (queue r) (world r) (users r) (delivered r ++ [effect])
         | (_, None) => r
         end
  else None.

Fixpoint exchanges (events : list ProtocolEvent.t) (now : f64) (r : run) : option run :=
  match events with
  | [] => Some r
  | event :: rest => r' ← exchange event now r; exchanges rest now r'
  end.

Lemma turn_okb_sound e event now w : turn_okb e event now w = true -> lawful_turn e event now w.
Proof.
  unfold turn_okb, lawful_turn. destruct (EngineR.performs _ _ _) as [o|]; [|done].
  intros Ht. apply ConnT.conn_transport_okb_sound in Ht. by destruct o.
Qed.

Lemma follow_sound fuel now e q w e' w' effects :
  follow fuel now e q w = Some (e', w', effects) -> follows now e q w e' w' effects.
Proof.
  revert e q w effects. induction fuel as [|fuel IH]; intros e [|event rest] w effects; cbn [follow];
    try done; try (intros [= <- <- <-]; constructor).
  destruct (turn_okb e event now w) eqn:Ht; [|done]. intros Hb.
  apply bind_Some in Hb as ([[e1 ef] front] & Hp & Hb).
  apply bind_Some in Hb as ([[e2 w2] ef2] & Hf & [= <- <- <-]).
  eapply follows_turn; [done|by apply turn_okb_sound|by apply IH].
Qed.

Lemma settle_sound fuel c0 now r r' :
  driven_run c0 r -> settle fuel now r = Some r' -> driven_run c0 r'.
Proof.
  revert r. induction fuel as [|fuel IH]; intros [c q w us d] Hr; unfold driven_run in Hr;
    cbn [settle queue coordinator world users delivered] in *;
    (destruct q as [|event rest]; [by intros [= <-]|]); [done|]. intros Hb.
  apply bind_Some in Hb as ([[e' w'] ef] & Hf & Hb). apply bind_Some in Hb as ([c' q'] & Hp & Hb).
  eapply IH, Hb. eapply driven_turn; [exact Hr|by eapply follow_sound|exact Hp].
Qed.

Lemma outer_sound event :
  outer event = true ->
  EngineT.from_driver event /\ returns_of event = [] /\ connected_of event = [].
Proof. by destruct event. Qed.

Lemma exchange_sound c0 event now r r' :
  driven_run c0 r -> exchange event now r = Some r' -> driven_run c0 r'.
Proof.
  destruct r as [c q w us d]. intros Hr. unfold exchange. cbn [queue users coordinator world delivered].
  destruct (outer event) eqn:Ho; [|done]. case_bool_decide as Hq; [|done]. case_bool_decide as Hn; [|done].
  subst q.
  destruct (outer_sound _ Ho) as (Hd & Hr1 & Hr2). intros Hb. apply bind_Some in Hb as (r1 & Hs & [= <-]).
  assert (Hd1 : driven_run c0 r1).
  { eapply settle_sound, Hs. by apply (driven_event c0 c w us d event). }
  clear Hs Hr. destruct r1 as [c1 q1 w1 us1 d1]. unfold driven_run in *.
  cbn [queue users coordinator world delivered] in *.
  destruct (poll_effects c1) as [c2 [effect|]] eqn:Hp; [by eapply driven_poll|done].
Qed.

Lemma exchanges_sound c0 events now r r' :
  driven_run c0 r -> exchanges events now r = Some r' -> driven_run c0 r'.
Proof.
  revert r. induction events as [|event events IH]; intros r Hr; cbn [exchanges]; [by intros [= <-]|].
  intros Hb. apply bind_Some in Hb as (r1 & He & Hb). eapply IH, Hb. by eapply exchange_sound.
Qed.

Lemma exchanged c0 events now r :
  driven_run c0 r -> driven_run c0 (default r (exchanges events now r)).
Proof.
  intros Hr. destruct (exchanges events now r) as [r'|] eqn:E; [by eapply exchanges_sound|done].
Qed.

End runs.

(** ** An example run

    The client of the engine's example over a QUIC connection: its streams are opened
    by the coordinator this time. *)

Import Literal Pipe.

Definition example_client : TransportConnection.t :=
  TransportConnection.new (Pipe.new true) EngineT.example_client (Some 10) (Some 5) 0.

Lemma coordinator_fresh : fresh H3T.example_parameters example_client.
Proof. split; [apply EngineT.client_fresh|]. by eexists _, _, _, _. Qed.

Definition example_session : list ProtocolEvent.t :=
  [ProtocolEvent.UserCreateSession 2 (b: "localhost") (b: "/chat") [] None;
   ProtocolEvent.TransportHandshakeCompleted;
   ProtocolEvent.TransportQuicParametersReceived 1200; ProtocolEvent.TransportStreamOpened 3;
   ProtocolEvent.TransportStreamDataReceived 3 [x00] false] ++ EngineT.example_connecting.

Definition example_connected : run :=
  default (begin example_client) (exchanges example_session SessionT.zero (begin example_client)).
Definition example_lost : run :=
  default example_connected
    (exchanges EngineT.example_ending SessionT.zero example_connected).

Lemma example_connected_driven : driven_run example_client example_connected.
Proof. apply exchanged, TransportR.driven_new. Qed.

Lemma example_lost_driven : driven_run example_client example_lost.
Proof. apply exchanged, example_connected_driven. Qed.

(** A connection that takes three bytes more, and has some to read. *)
Definition example_narrow : TransportConnection.t :=
  example_client <| TransportConnection.connection :=
    (Pipe.new true) <| Pipe.credit := 3%nat |> <| Pipe.unread := {[ 3 := b: "hello" ]} |> |>
  <| TransportConnection.pending_receives := {[ 3 := 4 ]} |>.

(** ** The properties at work on the example *)


Lemma transport_sends_in_order_witness : exists n c' event,
  (forall m, (n <= m)%nat ->
     TransportConnection.send_data m example_narrow [] 2 (b: "frame") true
     = Some (c', [] ++ option_list event))
  /\ quic_written (TransportConnection.connection c') 2 `prefix_of` b: "frame".
Proof.
  destruct (transport_sends_in_order example_narrow [] 2 (b: "frame") true)
    as (n & c' & event & Hm & Hp & _); [by intros i buffer|vm_compute; congruence|].
  exists n, c', event. split; [exact Hm|exact Hp].
Defined.

Lemma transport_reads_in_order_witness : exists n c' event,
  (forall m, (n <= m)%nat -> TransportConnection.recv_stream_data m example_narrow 3 = Some (c', event))
  /\ (forall data fin, event = Some (ProtocolEvent.TransportStreamDataReceived 3 data fin) ->
      len data <= 4 /\ b: "hello" = data ++ quic_unread (TransportConnection.connection c') 3).
Proof.
  destruct (transport_reads_in_order example_narrow 3 4) as (n & c' & event & Hm & Hd & _);
    [reflexivity|lia|].
  exists n, c', event. split; [exact Hm|]. intros data fin He.
  destruct (Hd data fin He) as (Hl & Hu & _). split; [exact Hl|exact Hu].
Defined.

(** At 12 both timers of the example, set for 10 and 5, are due. *)
Lemma transport_timers_rearm_witness : exists c',
  TransportConnection.handle_timeout 16 example_client SessionT.zero 12 = Some c'
  /\ TransportTimers.armed c'.
Proof.
  destruct (succeeds_some (TransportConnection.handle_timeout 16 example_client SessionT.zero 12))
    as [c' Hh]; [vm_compute; reflexivity|].
  exists c'. split; [exact Hh|].
  apply (transport_timers_rearm 16 example_client SessionT.zero 12 c'); [|exact Hh].
  by split; cbn; try intros d [= <-].
Defined.

End TransportT.
