(* ===== verification/EndpointMachine.v ===== *)
(** * QUIC endpoint

    [crates/src/transport/endpoint.rs] and the configuration of
    [crates/src/common/config.rs]: [TransportEndpoint] owns the connections, routes
    datagrams, timeouts and events of the user to them and hands their effects to
    the runtime.  As in the coordinator, a call that has not ended within its fuel
    is [None]. *)

From S2P Require Import Prelude.
From S2P Require Import Types.
From S2P Require Import Events.
From S2P Require Import Qpack.
From S2P Require Import EngineMachine.
From S2P Require Import Quinn.
From S2P Require Import TransportMachine.

(** ** Configuration *)

Module RustBaseConfig.
Record t : Set := mk {
  congestion_control_algorithm : str;
  connection_receive_window : Z;
  connection_send_window : Z;
  initial_max_data : Z;
  initial_max_streams_bidi : Z;
  initial_max_streams_uni : Z;
  keep_alive_interval : option Duration;
  max_capsule_size : Z;
  max_connection_pending_events : Z;
  max_connections : Z;
  max_datagram_size : Z;
  max_field_section_size : Z;
  max_idle_timeout : Duration;
  max_pending_capsules : Z;
  max_pending_datagrams : Z;
  max_pending_streams : Z;
  max_session_pending_events : Z;
  max_sessions : Z;
  max_streams_bidi : Z;
  max_streams_uni : Z;
  max_udp_payload_size : Z;
  max_write_buffer_size : Z;
  pending_event_ttl : Duration;
  resource_cleanup_interval : Duration;
  session_receive_window : Z;
  stream_receive_window : Z;
}.
End RustBaseConfig.

Module RustServerConfig.
Record t : Set := mk {
  base : RustBaseConfig.t;
  bind_host : str;
  bind_port : Z;
  ca_certs : option str;
  certfile : str;
  keyfile : str;
  require_client_auth : bool;
}.
End RustServerConfig.

Module TransportEvent.
Inductive t : Type :=
| CommandFailed (request_id : RequestId) (error_code : option ErrorCode) (reason : str)
| ConnectionEffects (handle : QuicConnectionHandle) (effects : list Effect.t)
| ConnectionSpawned (handle : QuicConnectionHandle) (remote_address : SocketAddr.t)
    (effects : list Effect.t)
| Consumed
| Transmit (transmit : QuicTransmit.t).
End TransportEvent.

Module TransportEndpoint.
Section TransportEndpoint.
Context `{LsQpack, QuinnEndpoint}.

Record t : Type := mk {
  base_config : RustBaseConfig.t;
  client_config : option QuicClientConfig;
  connections : gmap QuicConnectionHandle TransportConnection.t;
  endpoint : QuicEndpoint;
  handles_workspace : list QuicConnectionHandle;
  server_config : option RustServerConfig.t;
  transmit_workspace : bytes;
}.

#[global] Instance eta_endpoint : Eta t := fun e =>
  mk (base_config e) (client_config e) (connections e) (endpoint e) (handles_workspace e)
     (server_config e) (transmit_workspace e).
#[global] Instance set_connections : Setter connections := ltac:(build_setter).
#[global] Instance set_endpoint : Setter endpoint := ltac:(build_setter).
#[global] Instance set_handles_workspace : Setter handles_workspace := ltac:(build_setter).
#[global] Instance set_transmit_workspace : Setter transmit_workspace := ltac:(build_setter).

(** [usize::try_from(QUIC_UDP_PAYLOAD_SIZE_LIMIT)] never fails, and the capacity
    reserved for the workspace is no part of its value. *)
Definition new_client (endpoint : QuicEndpoint) (base_config : RustBaseConfig.t)
    (client_config : QuicClientConfig) : result t WebTransportError.t :=
  Ok {| base_config := base_config; client_config := Some client_config; connections := ∅;
        endpoint := endpoint; handles_workspace := []; server_config := None;
        transmit_workspace := [] |}.

Definition new_server (endpoint : QuicEndpoint) (base_config : RustBaseConfig.t)
    (server_config : RustServerConfig.t) : result t WebTransportError.t :=
  Ok {| base_config := base_config; client_config := None; connections := ∅;
        endpoint := endpoint; handles_workspace := []; server_config := Some server_config;
        transmit_workspace := [] |}.

(** ** Parts the operations share *)

Definition build_engine_parameters (config : RustBaseConfig.t) : EngineParameters.t := {|
  EngineParameters.early_event_ttl := as_secs_f64 (RustBaseConfig.pending_event_ttl config);
  EngineParameters.initial_max_data := RustBaseConfig.initial_max_data config;
  EngineParameters.initial_max_streams_bidi := RustBaseConfig.initial_max_streams_bidi config;
  EngineParameters.initial_max_streams_uni := RustBaseConfig.initial_max_streams_uni config;
  EngineParameters.max_capsule_size := RustBaseConfig.max_capsule_size config;
  EngineParameters.max_connection_pending_events :=
    RustBaseConfig.max_connection_pending_events config;
  EngineParameters.max_field_section_size := RustBaseConfig.max_field_section_size config;
  EngineParameters.max_pending_capsules := RustBaseConfig.max_pending_capsules config;
  EngineParameters.max_pending_datagrams := RustBaseConfig.max_pending_datagrams config;
  EngineParameters.max_pending_streams := RustBaseConfig.max_pending_streams config;
  EngineParameters.max_session_pending_events := RustBaseConfig.max_session_pending_events config;
  EngineParameters.max_sessions := RustBaseConfig.max_sessions config;
  EngineParameters.max_write_buffer_size := RustBaseConfig.max_write_buffer_size config;
  EngineParameters.session_receive_window := RustBaseConfig.session_receive_window config;
|}.

(** The loop polls at most as often as there are effects. *)
Fixpoint collect_loop (n : nat) (c : TransportConnection.t) (effects : list Effect.t)
    : TransportConnection.t * list Effect.t :=
  match n, TransportConnection.poll_effects c with
  | S n', (c, Some effect) => collect_loop n' c (effects ++ [effect])
  | _, (c', None) => (c', effects)
  | O, (_, Some _) => (c, effects)
  end.

Definition collect_effects (c : TransportConnection.t) : TransportConnection.t * list Effect.t :=
  collect_loop (length (TransportConnection.pending_effects c)) c [].

(** Every endpoint event of a connection goes to the QUIC endpoint, whose answer is
    dropped; the events themselves are returned for [is_drained]. *)
Fixpoint forward_events (fuel : nat) (e : QuicEndpoint) (handle : QuicConnectionHandle)
    (c : TransportConnection.t) (events : list QuicEndpointEvent)
    : option (QuicEndpoint * TransportConnection.t * list QuicEndpointEvent) :=
  match fuel with
  | O => None
  | S fuel' =>
      match TransportConnection.poll_endpoint_events c with
      | (c, None) => Some (e, c, events)
      | (c, Some event) =>
          forward_events fuel' (quic_endpoint_handle_event e handle event).1 handle c
            (events ++ [event])
      end
  end.

Definition is_zero (d : Duration) : bool := d =? 0.

(** The handles in ascending order. *)
Definition sorted_handles (e : t) : list QuicConnectionHandle :=
  merge_sort Z.le (map_to_list (connections e)).*1.

Definition with_handles (e : t) : t := e <| handles_workspace := sorted_handles e |>.

(** ** Operations *)

Section operations.
Context (fuel : nat).

Definition spawn_connection (e : t) (handle : QuicConnectionHandle)
    (quic_connection : QuicConnection) (request_id : option RequestId) (is_client : bool)
    (now_instant : Instant) : option (t * TransportEvent.t) :=
  let remote_address := quic_remote_address quic_connection in
  let engine := WebTransportEngine.new handle request_id is_client
                  (build_engine_parameters (base_config e)) in
  let interval := RustBaseConfig.resource_cleanup_interval (base_config e) in
  let resource_cleanup_interval := if is_zero interval then None else Some interval in
  let ttl := RustBaseConfig.pending_event_ttl (base_config e) in
  let early_event_ttl := if is_zero ttl then None else Some ttl in
  let transport_connection := TransportConnection.new quic_connection engine
    resource_cleanup_interval early_event_ttl now_instant in
  '(endpoint', transport_connection, _) ←
    forward_events fuel (endpoint e) handle transport_connection [];
  let '(transport_connection, effects) := collect_effects transport_connection in
  Some (e <| endpoint := endpoint' |>
          <| connections := <[handle := transport_connection]> (connections e) |>,
        TransportEvent.ConnectionSpawned handle remote_address effects).

(** Whether another connection would be one too many. *)
Definition is_full (e : t) : bool :=
  RustBaseConfig.max_connections (base_config e) <=? Z.of_nat (size (connections e)).

Definition connect (e : t) (request_id : RequestId) (remote_address : SocketAddr.t)
    (server_name : str) (now_instant : Instant) : option (t * TransportEvent.t) :=
  match client_config e with
  | None =>
      Some (e, TransportEvent.CommandFailed request_id (Some ERR_LIB_INTERNAL_ERROR)
                 (b: "quic_endpoint validate failed"))
  | Some config =>
      if is_full e then
        Some (e, TransportEvent.CommandFailed request_id (Some ERR_LIB_CONNECTION_LIMIT_EXCEEDED)
                   (b: "quic_connection validate exceeded"))
      else
        match quic_connect (endpoint e) now_instant config remote_address server_name with
        | (endpoint', Some (handle, quic_connection)) =>
            spawn_connection (e <| endpoint := endpoint' |>) handle quic_connection
              (Some request_id) true now_instant
        | (endpoint', None) =>
            Some (e <| endpoint := endpoint' |>,
                  TransportEvent.CommandFailed request_id (Some ERR_LIB_CONNECTION_STATE_ERROR)
                    (b: "quic_connection create failed"))
        end
  end.

(** What follows a call into the connection [handle]: endpoint events are forwarded,
    effects collected, and a drained connection is removed. *)
Definition finish_call (e : t) (handle : QuicConnectionHandle) (c : TransportConnection.t)
    : option (t * TransportEvent.t) :=
  '(endpoint', c, events) ← forward_events fuel (endpoint e) handle c [];
  let '(c, effects) := collect_effects c in
  let e := e <| endpoint := endpoint' |> <| connections := <[handle := c]> (connections e) |> in
  let e := if existsb quic_is_drained events
           then e <| connections := delete handle (connections e) |> else e in
  Some (e, TransportEvent.ConnectionEffects handle effects).

Definition handle_incoming (e : t) (incoming : QuicIncoming) (now_instant : Instant)
    : option (t * TransportEvent.t) :=
  let refuse :=
    let '(endpoint', workspace, transmit) :=
      quic_refuse (endpoint e) incoming (transmit_workspace e) in
    Some (e <| endpoint := endpoint' |> <| transmit_workspace := workspace |>,
          TransportEvent.Transmit transmit) in
  match server_config e with
  | None => refuse
  | Some _ =>
      if is_full e then refuse
      else
        let '(endpoint', workspace, accepted) :=
          quic_endpoint_accept (endpoint e) incoming now_instant (transmit_workspace e) in
        let e := e <| endpoint := endpoint' |> <| transmit_workspace := workspace |> in
        match accepted with
        | Some (handle, quic_connection) =>
            spawn_connection e handle quic_connection None false now_instant
        | None => Some (e, TransportEvent.Consumed)
        end
  end.

Definition handle_datagram (e : t) (remote_address : SocketAddr.t)
    (local_address : option SocketAddr.t) (data : bytes) (now : f64) (now_instant : Instant)
    : option (t * TransportEvent.t) :=
  let '(endpoint', workspace, event) :=
    quic_handle (endpoint e) now_instant remote_address (SocketAddr.ip <$> local_address) data
      (transmit_workspace e) in
  let e := e <| endpoint := endpoint' |> <| transmit_workspace := workspace |> in
  match event with
  | Some (QuicDatagramEvent.ConnectionEvent handle event) =>
      match connections e !! handle with
      | None => Some (e, TransportEvent.Consumed)
      | Some c =>
          c ← TransportConnection.handle_quic_connection_event fuel c event now now_instant;
          finish_call e handle c
      end
  | Some (QuicDatagramEvent.NewConnection incoming) => handle_incoming e incoming now_instant
  | Some (QuicDatagramEvent.Response transmit) => Some (e, TransportEvent.Transmit transmit)
  | None => Some (e, TransportEvent.Consumed)
  end.

Definition handle_protocol_event (e : t) (handle : QuicConnectionHandle) (request_id : RequestId)
    (event : ProtocolEvent.t) (now : f64) (now_instant : Instant)
    : option (t * TransportEvent.t) :=
  match connections e !! handle with
  | None =>
      Some (e, TransportEvent.CommandFailed request_id (Some ERR_LIB_CONNECTION_STATE_ERROR)
                 (b: "quic_connection resolve failed"))
  | Some c =>
      c ← TransportConnection.handle_protocol_event fuel c event now now_instant;
      finish_call e handle c
  end.

(** The loop [handle_timeout] and [shutdown] share over the handles: [visit] is the
    call into a connection, and the effects it returns, if any, are results. *)
Section each.
Context (visit : TransportConnection.t -> option (TransportConnection.t * list Effect.t)).

Fixpoint visit_each (e : t) (handles : list QuicConnectionHandle)
    (results : list (QuicConnectionHandle * list Effect.t))
    (drained_handles : list QuicConnectionHandle)
    : option (t * list (QuicConnectionHandle * list Effect.t) * list QuicConnectionHandle) :=
  match handles with
  | [] => Some (e, results, drained_handles)
  | handle :: rest =>
      match connections e !! handle with
      | None => visit_each e rest results drained_handles
      | Some c =>
          '(c, effects) ← visit c;
          let results := if bool_decide (effects = []) then results
                         else results ++ [(handle, effects)] in
          '(endpoint', c, events) ← forward_events fuel (endpoint e) handle c [];
          let drained_handles :=
            drained_handles ++ ((fun _ => handle) <$> List.filter quic_is_drained events) in
          visit_each (e <| endpoint := endpoint' |>
                        <| connections := <[handle := c]> (connections e) |>)
            rest results drained_handles
      end
  end.

Definition visit_all (e : t) : option (t * list (QuicConnectionHandle * list Effect.t)) :=
  let e := with_handles e in
  '(e, results, drained_handles) ← visit_each e (handles_workspace e) [] [];
  Some (e <| connections := foldl (fun m handle => delete handle m) (connections e)
                              drained_handles |>, results).
End each.

Definition visit_due (now : f64) (now_instant : Instant) (c : TransportConnection.t)
    : option (TransportConnection.t * list Effect.t) :=
  if from_option (fun timeout => timeout <=? now_instant) false
       (TransportConnection.poll_timeout c) then
    c ← TransportConnection.handle_timeout fuel c now now_instant;
    Some (collect_effects c)
  else Some (c, []).

Definition handle_timeout (e : t) (now : f64) (now_instant : Instant)
    : option (t * list (QuicConnectionHandle * list Effect.t)) :=
  visit_all (visit_due now now_instant) e.

Definition visit_closing (now : f64) (now_instant : Instant) (c : TransportConnection.t)
    : option (TransportConnection.t * list Effect.t) :=
  c ← TransportConnection.handle_protocol_event fuel c ProtocolEvent.InternalCloseConnection now
        now_instant;
  Some (collect_effects c).

Definition shutdown (e : t) (now : f64) (now_instant : Instant)
    : option (t * list (QuicConnectionHandle * list Effect.t)) :=
  visit_all (visit_closing now now_instant) e.

End operations.

(** ** Polling *)

Fixpoint earliest_timeout (connections : gmap QuicConnectionHandle TransportConnection.t)
    (handles : list QuicConnectionHandle) (earliest : option Instant) : option Instant :=
  match handles with
  | [] => earliest
  | handle :: rest =>
      let timeout := connections !! handle ≫= TransportConnection.poll_timeout in
      earliest_timeout connections rest (TransportConnection.earliest earliest timeout)
  end.

Definition poll_timeout (e : t) : t * option Instant :=
  let e := with_handles e in
  (e, earliest_timeout (connections e) (handles_workspace e) None).

Fixpoint transmit_first (e : t) (handles : list QuicConnectionHandle) (now_instant : Instant)
    : t * option QuicTransmit.t :=
  match handles with
  | [] => (e, None)
  | handle :: rest =>
      match connections e !! handle with
      | None => transmit_first e rest now_instant
      | Some c =>
          let '(c, workspace, transmit) :=
            TransportConnection.poll_transmit c (transmit_workspace e) now_instant in
          let e := e <| connections := <[handle := c]> (connections e) |>
                     <| transmit_workspace := workspace |> in
          match transmit with
          | Some transmit => (e, Some transmit)
          | None => transmit_first e rest now_instant
          end
      end
  end.

Definition poll_transmit (e : t) (now_instant : Instant) : t * option QuicTransmit.t :=
  let e := with_handles (e <| transmit_workspace := [] |>) in
  transmit_first e (handles_workspace e) now_instant.

End TransportEndpoint.
End TransportEndpoint.
