(* ===== verification/EndpointProps.v ===== *)
(** * The connections of an endpoint

    What holds of an endpoint between two calls: it has no more connections than it
    may have, their timers are armed, and no effect is left behind in them. *)

From S2P Require Import Prelude.
From S2P Require Import Types.
From S2P Require Import Events.
From S2P Require Import Qpack.
From S2P Require Import ConnectionMachine.
From S2P Require Import EngineMachine.
From S2P Require Import EngineRuns.
From S2P Require Import Quinn.
From S2P Require Import TransportMachine.
From S2P Require Import TransportTimers.
From S2P Require Import TransportClose.
From S2P Require Import EndpointMachine.

Module EndpointP.
Section EndpointP.
Context `{LsQpack, QuinnEndpoint}.
Import TransportEndpoint.
Local Notation pending := TransportConnection.pending_effects.

(** ** The shared parts *)

Lemma no_effects_left (c : TransportConnection.t) :
  pending c = [] -> c <| TransportConnection.pending_effects := [] |> = c.
Proof. destruct c; cbn. by intros ->. Qed.

Lemma collect_loop_all c acc :
  collect_loop (length (pending c)) c acc
  = (c <| TransportConnection.pending_effects := [] |>, acc ++ pending c).
Proof.
  remember (pending c) as l eqn:Hl. symmetry in Hl. revert c acc Hl.
  induction l as [|effect l IH]; intros c acc Hl; cbn [collect_loop length];
    unfold TransportConnection.poll_effects; rewrite Hl.
  - by rewrite no_effects_left, app_nil_r.
  - cbn [collect_loop]. rewrite IH by done. by rewrite <- app_assoc.
Qed.

Lemma collect_effects_all c :
  collect_effects c = (c <| TransportConnection.pending_effects := [] |>, pending c).
Proof. apply collect_loop_all. Qed.

(** Forwarding touches nothing but the QUIC connection. *)
Lemma forward_events_only fuel e handle c events e' c' events' :
  forward_events fuel e handle c events = Some (e', c', events') ->
  exists conn, c' = c <| TransportConnection.connection := conn |>.
Proof.
  revert e c events. induction fuel as [|fuel IH]; intros e c events; [done|]. cbn [forward_events].
  unfold TransportConnection.poll_endpoint_events.
  destruct (quic_poll_endpoint_events _) as [conn [event|]].
  - intros Hf. apply IH in Hf as [conn' ->]. by exists conn'.
  - intros [= <- <- <-]. by exists conn.
Qed.

(** ** What holds of a connection between two calls *)

(** Its timers are armed, and its engine keeps only events that wait for a client to
    be connected. *)
Record sound (c : TransportConnection.t) : Prop := {
  sound_armed : TransportTimers.armed c;
  sound_pending : EngineR.pending_ok (TransportConnection.engine c);
}.

Record settled (c : TransportConnection.t) : Prop := {
  settled_effects : pending c = [];
  settled_sound : sound c;
}.

Lemma sound_connection c conn : sound c -> sound (c <| TransportConnection.connection := conn |>).
Proof. by intros [[] ?]. Qed.

Lemma settled_connection c conn :
  settled c -> settled (c <| TransportConnection.connection := conn |>).
Proof. intros [? Hs]. split; [done|by apply sound_connection]. Qed.

Lemma settled_forward fuel e handle c events e' c' events' :
  forward_events fuel e handle c events = Some (e', c', events') -> settled c -> settled c'.
Proof. intros Hf. apply forward_events_only in Hf as [conn ->]. apply settled_connection. Qed.

Lemma settled_collect c : sound c -> settled (collect_effects c).1.
Proof. rewrite collect_effects_all. by intros [[] ?]. Qed.

(** The calls keep it. *)
Lemma sound_call c c' :
  TransportTimers.same_timers c c' -> TransportClose.forwards c c' -> sound c -> sound c'.
Proof. intros Ht Hf [Ha Hp]. split; [by eapply TransportTimers.armed_same|by apply Hf]. Qed.

Lemma sound_event fuel c event now now_instant c' :
  TransportConnection.handle_protocol_event fuel c event now now_instant = Some c' ->
  sound c -> sound c'.
Proof.
  intros Hc. apply sound_call; [by eapply TransportTimers.handle_protocol_event_timers
                               |by eapply TransportClose.handle_protocol_event_forwards].
Qed.

(** ** What holds of an endpoint *)

(** No [Duration] is negative. *)
Definition durations_ok (config : RustBaseConfig.t) : Prop :=
  0 <= RustBaseConfig.resource_cleanup_interval config
  /\ 0 <= RustBaseConfig.pending_event_ttl config.

Record wf (config : RustBaseConfig.t) (e : t) : Prop := {
  wf_config : base_config e = config;
  wf_bounded : Z.of_nat (size (connections e)) <= Z.max 0 (RustBaseConfig.max_connections config);
  wf_settled : map_Forall (fun _ c => settled c) (connections e);
}.

Lemma wf_update config e handle c c' endpoint' :
  wf config e -> connections e !! handle = Some c -> settled c' ->
  wf config (e <| endpoint := endpoint' |> <| connections := <[handle := c']> (connections e) |>).
Proof.
  intros [Hc Hb Hs] Hl Hc'. split; [done| |]; cbn.
  - by rewrite map_size_insert_Some.
  - by apply map_Forall_insert_2.
Qed.

Lemma wf_removed config e handle :
  wf config e -> wf config (e <| connections := delete handle (connections e) |>).
Proof.
  intros [Hc Hb Hs]. split; [done| |]; cbn.
  - etransitivity; [|exact Hb]. rewrite map_size_delete. destruct (connections e !! handle); unfold id; lia.
  - by apply map_Forall_delete.
Qed.

Lemma wf_new_connection config e handle c endpoint' :
  wf config e -> is_full e = false -> settled c ->
  wf config (e <| endpoint := endpoint' |> <| connections := <[handle := c]> (connections e) |>).
Proof.
  intros [Hc Hb Hs] Hf Hset. unfold is_full in Hf. bool_to_prop. rewrite Hc in Hf. split; [done| |]; cbn.
  - rewrite map_size_insert. destruct (connections e !! handle); unfold id; lia.
  - by apply map_Forall_insert_2.
Qed.

Lemma wf_io config e endpoint' workspace handles :
  wf config e ->
  wf config (e <| endpoint := endpoint' |> <| transmit_workspace := workspace |>
               <| handles_workspace := handles |>).
Proof. by intros []. Qed.

(** ** Every operation keeps it *)

Section operations.
Context (config : RustBaseConfig.t) (Hdur : durations_ok config) (fuel : nat).

Lemma new_settled conn engine interval ttl now :
  EngineR.pending_ok engine -> 0 <= interval -> 0 <= ttl ->
  settled (TransportConnection.new conn engine (if is_zero interval then None else Some interval)
             (if is_zero ttl then None else Some ttl) now).
Proof.
  intros Hp Hi Ht. unfold is_zero. split; [done|].
  destruct (interval =? 0) eqn:E1, (ttl =? 0) eqn:E2; bool_to_prop;
    (split; [split; cbn; try done; intros d [= <-]; lia|apply Hp]).
Qed.

Lemma spawn_connection_wf e handle conn request_id is_client now e' event :
  wf config e -> is_full e = false ->
  spawn_connection fuel e handle conn request_id is_client now = Some (e', event) -> wf config e'.
Proof using Hdur.
  intros Hwf Hf Hs. unfold spawn_connection in Hs. apply bind_Some in Hs as ([[en c] evs] & Hfw & Hs).
  rewrite collect_effects_all in Hs. injection Hs as <- <-. apply wf_new_connection; [done|done|].
  eapply settled_forward in Hfw; [|rewrite (wf_config _ _ Hwf); apply new_settled; [apply EngineR.new_pending_ok|apply Hdur..]].
  destruct Hfw as [He Hs]. split; [done|]. by destruct Hs as [[] ?].
Qed.

Lemma connect_wf e request_id address name now e' event :
  wf config e -> connect fuel e request_id address name now = Some (e', event) -> wf config e'.
Proof using Hdur.
  intros Hwf. unfold connect. destruct (client_config e) as [cfg|]; [|by intros [= <- _]].
  destruct (is_full e) eqn:Hf; [by intros [= <- _]|].
  destruct (quic_connect _ _ _ _ _) as [en [[handle conn]|]].
  - apply spawn_connection_wf; [by destruct Hwf|done].
  - intros [= <- _]. by destruct Hwf.
Qed.

(** How a command to connect is answered. *)
Lemma connect_event e request_id address name now e' event :
  connect fuel e request_id address name now = Some (e', event) ->
  (exists code reason, event = TransportEvent.CommandFailed request_id code reason)
  \/ exists handle remote, event = TransportEvent.ConnectionSpawned handle remote []
       /\ exists c, connections e' !! handle = Some c
           /\ Connection.request_id (WebTransportEngine.connection (TransportConnection.engine c))
              = Some request_id.
Proof.
  unfold connect. destruct (client_config e) as [cfg|]; [|intros [= _ <-]; left; by eexists _, _].
  destruct (is_full e); [intros [= _ <-]; left; by eexists _, _|].
  destruct (quic_connect _ _ _ _ _) as [en [[handle conn]|]]; [|intros [= _ <-]; left; by eexists _, _].
  intros Hs. right. apply bind_Some in Hs as ([[en' c] evs] & Hf & Hs).
  apply forward_events_only in Hf as [conn' ->]. rewrite collect_effects_all in Hs. injection Hs as <- <-.
  eexists _, _. split; [done|]. eexists. split; [apply lookup_insert_eq|done].
Qed.

Lemma finish_call_wf e handle c c0 e' event :
  wf config e -> connections e !! handle = Some c0 -> sound c ->
  finish_call fuel e handle c = Some (e', event) -> wf config e'.
Proof.
  intros Hwf Hl Ha Hc. unfold finish_call in Hc. apply bind_Some in Hc as ([[en c1] evs] & Hfw & Hc).
  apply forward_events_only in Hfw as [conn ->].
  pose proof (settled_collect _ (sound_connection _ conn Ha)) as Hs.
  destruct (collect_effects _) as [c2 effects]. injection Hc as <- <-. cbn in Hs.
  pose proof (wf_update _ _ _ _ _ en Hwf Hl Hs) as Hu.
  destruct (existsb _ _); [by apply wf_removed|done].
Qed.

Lemma finish_call_event e handle c e' event :
  finish_call fuel e handle c = Some (e', event) ->
  exists effects, event = TransportEvent.ConnectionEffects handle effects.
Proof.
  intros Hc. apply bind_Some in Hc as ([[en c1] evs] & _ & Hc). rewrite collect_effects_all in Hc.
  injection Hc as _ <-. by eexists.
Qed.

Lemma handle_incoming_wf e incoming now e' event :
  wf config e -> handle_incoming fuel e incoming now = Some (e', event) -> wf config e'.
Proof using Hdur.
  intros Hwf. unfold handle_incoming.
  destruct (quic_refuse _ _ _) as [[en ws] tr].
  destruct (server_config e); [|intros [= <- _]; by destruct Hwf].
  destruct (is_full e) eqn:Hf; [intros [= <- _]; by destruct Hwf|].
  destruct (quic_endpoint_accept _ _ _ _) as [[en' ws'] [[handle conn]|]].
  - apply spawn_connection_wf; [by destruct Hwf|done].
  - intros [= <- _]. by destruct Hwf.
Qed.

Lemma handle_datagram_wf e remote local data now now_instant e' event :
  wf config e -> handle_datagram fuel e remote local data now now_instant = Some (e', event) ->
  wf config e'.
Proof using Hdur.
  intros Hwf. unfold handle_datagram. destruct (quic_handle _ _ _ _ _ _) as [[en ws] ev].
  assert (Hwf1 : wf config (e <| endpoint := en |> <| transmit_workspace := ws |>)) by by destruct Hwf.
  revert Hwf1. generalize (e <| endpoint := en |> <| transmit_workspace := ws |>) as e1. intros e1 Hwf1.
  destruct ev as [[handle cev|incoming|tr]|]; [|by apply handle_incoming_wf|by intros [= <- _]..].
  destruct (connections e1 !! handle) as [c|] eqn:Hl; [|by intros [= <- _]].
  intros Hb. apply bind_Some in Hb as (c1 & Hc & Hb). eapply finish_call_wf; [done|done| |done].
  eapply sound_call; [by eapply TransportTimers.handle_quic_connection_event_timers
                     |by eapply TransportClose.handle_quic_connection_event_forwards|].
  apply (wf_settled _ _ Hwf1 _ _ Hl).
Qed.

Lemma handle_protocol_event_wf e handle request_id pe now now_instant e' event :
  wf config e ->
  handle_protocol_event fuel e handle request_id pe now now_instant = Some (e', event) -> wf config e'.
Proof.
  intros Hwf. unfold handle_protocol_event.
  destruct (connections e !! handle) as [c|] eqn:Hl; [|by intros [= <- _]].
  intros Hb. apply bind_Some in Hb as (c1 & Hc & Hb). eapply finish_call_wf; [done|done| |done].
  eapply sound_event; [exact Hc|]. apply (wf_settled _ _ Hwf _ _ Hl).
Qed.

(** *** Calls into every connection *)

Lemma remove_all_lookup {A} (drained : list QuicConnectionHandle) (m : gmap QuicConnectionHandle A)
    handle c :
  foldl (fun m handle => delete handle m) m drained !! handle = Some c -> m !! handle = Some c.
Proof.
  revert m. induction drained as [|h drained IH]; intros m; [done|]. cbn. intros Hl.
  apply IH in Hl. by apply lookup_delete_Some in Hl as [_ Hl].
Qed.

Section visits.
Context (visit : TransportConnection.t -> option (TransportConnection.t * list Effect.t)).
Context (visit_settled : forall c c' effects, settled c -> visit c = Some (c', effects) -> settled c').

Lemma visit_each_wf handles e results drained e' results' drained' :
  wf config e -> visit_each fuel visit e handles results drained = Some (e', results', drained') ->
  wf config e'.
Proof.
  revert e results drained. induction handles as [|handle handles IH]; intros e results drained Hwf;
    cbn [visit_each]; [by intros [= <- _ _]|].
  destruct (connections e !! handle) as [c|] eqn:Hl; [|by apply IH].
  intros Hb. apply bind_Some in Hb as ([c1 ef] & Hv & Hb).
  apply bind_Some in Hb as ([[en c2] evs] & Hf & Hb). apply (IH _ _ _) in Hb; [done|].
  eapply wf_update; [done|done|]. eapply settled_forward; [done|]. eapply visit_settled; [|done].
  apply (wf_settled _ _ Hwf _ _ Hl).
Qed.

(** Every connection on the list is visited, the others are left alone. *)
Lemma visit_each_all (P Q : TransportConnection.t -> Prop) handles e results drained e' results' drained' :
  (forall c conn, P c -> P (c <| TransportConnection.connection := conn |>)) ->
  (forall c c' effects, settled c -> Q c -> visit c = Some (c', effects) -> P c') -> NoDup handles ->
  wf config e ->
  (forall handle c, handle ∈ handles -> connections e !! handle = Some c -> Q c) -> visit_each fuel visit e handles results drained = Some (e', results', drained') ->
  forall handle c, connections e' !! handle = Some c ->
    (handle ∈ handles -> P c) /\ (handle ∉ handles -> connections e !! handle = Some c).
Proof.
  intros Hio Hvis. revert e results drained.
  induction handles as [|h handles IH]; intros e results drained Hnd Hwf HQ;
    cbn [visit_each].
  { intros [= <- _ _] handle c Hc. split; [by intros []%not_elem_of_nil|done]. }
  apply NoDup_cons in Hnd as [Hh Hnd].
  destruct (connections e !! h) as [c1|] eqn:Hl.
  - intros Hb handle c Hc. apply bind_Some in Hb as ([c2 ef] & Hv & Hb).
    apply bind_Some in Hb as ([[en c3] evs] & Hf & Hb).
    pose proof (wf_settled _ _ Hwf _ _ Hl) as Hs1.
    assert (Hs3 : settled c3) by (eapply settled_forward, visit_settled, Hv; done).
    destruct (fun HQ => IH _ _ _ Hnd (wf_update _ _ _ _ _ en Hwf Hl Hs3) HQ Hb handle c Hc) as [IH1 IH2].
    { cbn. intros h' c' Hin. rewrite lookup_insert_ne by (by intros ->). apply HQ. by right. }
    cbn in IH2. apply forward_events_only in Hf as [conn ->]. split.
    + intros [->|Hin]%elem_of_cons; [|by apply IH1]. specialize (IH2 Hh).
      rewrite lookup_insert_eq in IH2. injection IH2 as <-. exact (Hio _ conn (Hvis _ _ _ Hs1 (HQ _ _ ltac:(by left) Hl) Hv)).
    + intros [Hne Hin]%not_elem_of_cons. specialize (IH2 Hin). by rewrite lookup_insert_ne in IH2.
  - intros Hb handle c Hc. destruct (fun HQ => IH _ _ _ Hnd Hwf HQ Hb handle c Hc) as [IH1 IH2].
    { intros h' c' Hin. apply HQ. by right. }
    split.
    + intros [->|Hin]%elem_of_cons; [|by apply IH1]. specialize (IH2 Hh). congruence.
    + intros [Hne Hin]%not_elem_of_cons. by apply IH2.
Qed.

Lemma sorted_handles_keys e handle c : connections e !! handle = Some c -> handle ∈ sorted_handles e.
Proof.
  intros Hc. unfold sorted_handles. rewrite merge_sort_Permutation. apply list_elem_of_fmap.
  exists (handle, c). split; [done|]. by apply elem_of_map_to_list.
Qed.

Lemma visit_all_all (P Q : TransportConnection.t -> Prop) e e' results :
  (forall c conn, P c -> P (c <| TransportConnection.connection := conn |>)) ->
  (forall c c' effects, settled c -> Q c -> visit c = Some (c', effects) -> P c') ->
  wf config e -> map_Forall (fun _ c => Q c) (connections e) -> visit_all fuel visit e = Some (e', results) ->
  map_Forall (fun _ c => P c) (connections e').
Proof.
  intros Hio Hvis Hwf HQ Hv. unfold visit_all in Hv.
  apply bind_Some in Hv as ([[e1 rs] drained] & Hv & [= <- <-]). cbn in Hv |- *.
  intros handle c Hc. apply remove_all_lookup in Hc.
  destruct (visit_each_all P Q (sorted_handles e) (with_handles e) [] [] e1 rs drained Hio Hvis) with handle c
    as [Hv1 Hv2]; [..|done|done|]; [|by destruct Hwf|intros ? ? _; apply HQ|].
  - unfold sorted_handles. rewrite merge_sort_Permutation. apply NoDup_fst_map_to_list.
  - destruct (decide (handle ∈ sorted_handles e)) as [Hin|Hin]; [by apply Hv1|].
    exfalso. by eapply Hin, sorted_handles_keys, Hv2.
Qed.

Lemma visit_all_wf e e' results :
  wf config e -> visit_all fuel visit e = Some (e', results) -> wf config e'.
Proof.
  intros Hwf Hv. unfold visit_all in Hv. apply bind_Some in Hv as ([[e1 rs] drained] & Hv & [= <- <-]).
  apply visit_each_wf in Hv; [|by destruct Hwf]. clear Hwf. revert e1 Hv.
  induction drained as [|handle drained IH]; intros e1 Hwf; cbn [foldl]; [by destruct Hwf|].
  exact (IH _ (wf_removed _ _ handle Hwf)).
Qed.

End visits.

Lemma visit_due_settled now now_instant c c' effects :
  settled c -> visit_due fuel now now_instant c = Some (c', effects) -> settled c'.
Proof.
  intros Hs. unfold visit_due.
  destruct (from_option _ _ _); [|by intros [= <- _]]. intros Hb. apply bind_Some in Hb as (c1 & Hh & Hb).
  assert (Ha : sound c1).
  { destruct Hs as [_ [Ha Hp]]. split; [by apply (TransportTimers.handle_timeout_timers _ _ _ _ _ Ha Hh)|].
    by apply (TransportClose.handle_timeout_forwards _ _ _ _ _ Hh). }
  pose proof (settled_collect _ Ha) as Hc. destruct (collect_effects c1). by injection Hb as <- <-.
Qed.

Lemma handle_timeout_wf e now now_instant e' results :
  wf config e -> handle_timeout fuel e now now_instant = Some (e', results) -> wf config e'.
Proof. intros Hwf. apply visit_all_wf; [apply visit_due_settled|done]. Qed.

(** The deadlines of the coordinator's own timers. *)
Definition own_deadlines_after (now_instant : Instant) (c : TransportConnection.t) : Prop :=
  (forall d, TransportConnection.next_resource_cleanup_time c = Some d -> now_instant < d)
  /\ (forall d, TransportConnection.next_early_event_time c = Some d -> now_instant < d).

Lemma visit_due_deadlines now now_instant c c' effects :
  settled c -> visit_due fuel now now_instant c = Some (c', effects) ->
  own_deadlines_after now_instant c'.
Proof.
  intros Hs. unfold visit_due. destruct (from_option _ _ _) eqn:Hdue.
  - intros Hb. apply bind_Some in Hb as (c1 & Hh & Hb).
    apply TransportTimers.handle_timeout_timers in Hh as (_ & Hd); [|apply Hs].
    rewrite collect_effects_all in Hb. by injection Hb as <- <-.
  - intros [= <- <-]. destruct (TransportConnection.poll_timeout c) as [d|] eqn:Hp.
    + cbn in Hdue. bool_to_prop. apply TransportTimers.connection_timeout_spec in Hp as [_ Hmin].
      split; intros d' Hd'; (enough (d <= d') by lia); apply Hmin; auto.
    + apply TransportTimers.poll_timeout_none in Hp as (_ & Hr & He).
      split; intros d Hd; congruence.
Qed.

Lemma handle_timeout_deadlines e now now_instant e' results :
  wf config e -> handle_timeout fuel e now now_instant = Some (e', results) ->
  map_Forall (fun _ c => own_deadlines_after now_instant c) (connections e').
Proof.
  intros Hwf Hh.
  apply (visit_all_all _ (visit_due_settled now now_instant) _ (fun _ => True) e e' results); try done.
  intros c c' effects Hs _. by apply visit_due_deadlines.
Qed.

Lemma visit_closing_settled now now_instant c c' effects :
  settled c -> visit_closing fuel now now_instant c = Some (c', effects) -> settled c'.
Proof.
  intros Hs Hb. apply bind_Some in Hb as (c1 & Hh & Hb).
  pose proof (settled_collect _ (sound_event _ _ _ _ _ _ Hh (settled_sound _ Hs))) as Hc.
  destruct (collect_effects c1). by injection Hb as <- <-.
Qed.

Lemma shutdown_wf e now now_instant e' results :
  wf config e -> shutdown fuel e now now_instant = Some (e', results) -> wf config e'.
Proof. intros Hwf. apply visit_all_wf; [apply visit_closing_settled|done]. Qed.

Lemma shutdown_closes e now now_instant e' results :
  wf config e -> map_Forall (fun _ c => TransportClose.closable c) (connections e) ->
  shutdown fuel e now now_instant = Some (e', results) ->
  map_Forall (fun _ c => TransportClose.is_closed c) (connections e').
Proof.
  intros Hwf Hc Hs. apply (visit_all_all _ (visit_closing_settled now now_instant) _
    TransportClose.closable e e' results); try done.
  intros c c' effects [_ [_ Hp]] Hcl Hb. apply bind_Some in Hb as (c1 & Hh & Hb).
  rewrite collect_effects_all in Hb. injection Hb as <- <-.
  exact (TransportClose.close_completes _ _ _ _ _ Hp Hcl Hh).
Qed.

End operations.

(** *** Polling *)

Lemma poll_timeout_wf config e : wf config e -> wf config (poll_timeout e).1.
Proof. by intros []. Qed.

(** The earliest deadline of the handles. *)
Lemma earliest_timeout_spec m handles : forall so_far d,
  earliest_timeout m handles so_far = Some d ->
  (so_far = Some d \/ exists handle c, handle ∈ handles /\ m !! handle = Some c
                        /\ TransportConnection.poll_timeout c = Some d)
  /\ (forall x, so_far = Some x -> d <= x)
  /\ (forall handle c x, handle ∈ handles -> m !! handle = Some c ->
        TransportConnection.poll_timeout c = Some x -> d <= x).
Proof.
  induction handles as [|h handles IH]; intros so_far d; cbn [earliest_timeout].
  { intros ->. split_and!; [by left|by intros x [= <-]|]. by intros handle c x []%not_elem_of_nil. }
  intros Hd. apply IH in Hd as (Hd & Hs & Ha).
  destruct (TransportConnection.earliest so_far _) as [y|] eqn:E.
  - apply TransportTimers.earliest_spec in E as (E1 & E2 & E3). specialize (Hs y eq_refl). split_and!.
    + destruct Hd as [[= <-]|(h' & c & Hin & Hc)]; [|right; exists h', c; split; [by right|done]].
      destruct E1 as [E1|E1]; [by left|right]. apply bind_Some in E1 as (c & Hc & E1).
      exists h, c. split; [by left|done].
    + intros x Hx. specialize (E2 x Hx). lia.
    + intros h' c x [->|Hin]%elem_of_cons Hc Hx; [|by eapply Ha]. rewrite Hc in E3. specialize (E3 x Hx). lia.
  - destruct Hd as [|(h' & c & Hin & Hc)]; [done|]. split_and!.
    + right. exists h', c. split; [by right|done].
    + intros x ->. by destruct (m !! h ≫= _).
    + intros h'' c' x [->|Hin']%elem_of_cons Hc' Hx; [|by eapply Ha].
      rewrite Hc' in E. cbn in E. rewrite Hx in E. by destruct so_far.
Qed.

Lemma poll_timeout_spec e d :
  (poll_timeout e).2 = Some d ->
  (exists handle c, connections e !! handle = Some c /\ TransportConnection.poll_timeout c = Some d)
  /\ (forall handle c x, connections e !! handle = Some c ->
        TransportConnection.poll_timeout c = Some x -> d <= x).
Proof.
  intros Hd. apply earliest_timeout_spec in Hd as ([|(h & c & _ & Hc)] & _ & Ha); [done|].
  split; [by exists h, c|]. intros handle c' x Hc'. apply (Ha handle c' x); [|done].
  by eapply sorted_handles_keys.
Qed.

Lemma transmit_first_wf config handles now : forall e,
  wf config e -> wf config (transmit_first e handles now).1.
Proof.
  induction handles as [|handle handles IH]; intros e Hwf; [done|]. cbn [transmit_first].
  destruct (connections e !! handle) as [c|] eqn:Hl; [|by apply IH].
  unfold TransportConnection.poll_transmit. destruct (quic_poll_transmit _ _ _ _) as [[conn ws] tr].
  assert (Hu : wf config (e <| connections := <[handle := c <| TransportConnection.connection := conn |>]>
    (connections e) |> <| transmit_workspace := ws |>)).
  { destruct (wf_update config e handle c (c <| TransportConnection.connection := conn |>) (endpoint e))
      as [? ? ?]; [done|done|by apply settled_connection, (wf_settled _ _ Hwf _ _ Hl)|].
    by split. }
  destruct tr; [done|by apply IH].
Qed.

Lemma poll_transmit_wf config e now : wf config e -> wf config (poll_transmit e now).1.
Proof. intros Hwf. apply transmit_first_wf. by destruct Hwf. Qed.

End EndpointP.
End EndpointP.
