(* ===== verification/EndpointTheorems.v ===== *)
(** * Theorems about the endpoint

    Limits, deliveries and deadlines over all the connections of an endpoint. *)

From S2P Require Import Prelude.
From S2P Require Import Types.
From S2P Require Import Events.
From S2P Require Import Utils.
From S2P Require Import Qpack.
From S2P Require Import QpackLiteral.
From S2P Require Import SessionMachine.
From S2P Require Import SessionTheorems.
From S2P Require Import ConnectionMachine.
From S2P Require Import ConnectionRuns.
From S2P Require Import ConnectionLimits.
From S2P Require Import H3Theorems.
From S2P Require Import EngineMachine.
From S2P Require Import EngineRuns.
From S2P Require Import EngineTheorems.
From S2P Require Import Quinn.
From S2P Require Import QuinnPipe.
From S2P Require Import TransportMachine.
From S2P Require Import TransportRuns.
From S2P Require Import TransportTimers.
From S2P Require Import TransportClose.
From S2P Require Import TransportTheorems.
From S2P Require Import EndpointMachine.
From S2P Require Import EndpointProps.

Module EndpointT.
Section EndpointT.
Context `{LsQpack, QuinnEndpoint}.
Import TransportEndpoint EndpointP.

(** ** Calls of the runtime *)

Inductive call : Type :=
| CallConnect (request_id : RequestId) (remote_address : SocketAddr.t) (server_name : str)
| CallDatagram (remote_address : SocketAddr.t) (local_address : option SocketAddr.t) (data : bytes)
| CallEvent (handle : QuicConnectionHandle) (request_id : RequestId) (event : ProtocolEvent.t)
| CallTimeout
| CallShutdown
| CallPollTimeout
| CallPollTransmit.

Definition perform (fuel : nat) (now : f64) (now_instant : Instant) (k : call) (e : t) : option t :=
  match k with
  | CallConnect r address name => fst <$> connect fuel e r address name now_instant
  | CallDatagram remote local data => fst <$> handle_datagram fuel e remote local data now now_instant
  | CallEvent handle r event => fst <$> handle_protocol_event fuel e handle r event now now_instant
  | CallTimeout => fst <$> handle_timeout fuel e now now_instant
  | CallShutdown => fst <$> shutdown fuel e now now_instant
  | CallPollTimeout => Some (poll_timeout e).1
  | CallPollTransmit => Some (poll_transmit e now_instant).1
  end.

(** Endpoints a client or server can come to. *)
Inductive reachable (config : RustBaseConfig.t) : t -> Prop :=
| reachable_client endpoint client e :
    new_client endpoint config client = Ok e -> reachable config e
| reachable_server endpoint server e :
    new_server endpoint config server = Ok e -> reachable config e
| reachable_call e k fuel now now_instant e' :
    reachable config e -> perform fuel now now_instant k e = Some e' -> reachable config e'.

Lemma perform_wf config fuel now now_instant k e e' :
  durations_ok config -> wf config e -> perform fuel now now_instant k e = Some e' -> wf config e'.
Proof.
  intros Hd Hwf. destruct k; cbn [perform]; rewrite ?fmap_Some.
  - intros ([e1 ev] & Hc & ->). by eapply connect_wf.
  - intros ([e1 ev] & Hc & ->). by eapply handle_datagram_wf.
  - intros ([e1 ev] & Hc & ->). by eapply handle_protocol_event_wf.
  - intros ([e1 ev] & Hc & ->). by eapply handle_timeout_wf.
  - intros ([e1 ev] & Hc & ->). by eapply shutdown_wf.
  - intros [= <-]. by apply poll_timeout_wf.
  - intros [= <-]. by apply poll_transmit_wf.
Qed.

Lemma reachable_wf config e : durations_ok config -> reachable config e -> wf config e.
Proof.
  intros Hd. induction 1 as [en client e Hn|en server e Hn|]; [..|by eapply perform_wf].
  all: injection Hn as <-; split; cbn; try done.
  all: rewrite map_size_empty; lia.
Qed.

(** C23: whatever the network, the user and the clock do, an endpoint never holds more
    connections than its configuration allows, every connection has its timers
    armed, and no effect is left in a connection between two calls. *)
Theorem endpoint_stays_within_limits config e :
  durations_ok config -> reachable config e ->
  Z.of_nat (size (connections e)) <= Z.max 0 (RustBaseConfig.max_connections config)
  /\ forall handle c, connections e !! handle = Some c ->
       TransportConnection.pending_effects c = [] /\ TransportTimers.armed c
       /\ EngineR.pending_ok (TransportConnection.engine c).
Proof.
  intros Hd Hr. destruct (reachable_wf config e Hd Hr) as [_ Hb Hs]. split; [done|].
  intros handle c Hc. by destruct (Hs handle c Hc) as [? []].
Qed.

(** ** Effects reach the user *)

(** Collecting the effects of a coordinator hands all of them over. *)
Lemma collect_driven c0 c queue w users delivered :
  TransportR.driven c0 c queue w users delivered ->
  TransportR.driven c0 (collect_effects c).1 queue w users (delivered ++ (collect_effects c).2).
Proof.
  rewrite collect_effects_all. cbn. remember (TransportConnection.pending_effects c) as l eqn:Hl.
  symmetry in Hl. revert c delivered Hl. induction l as [|effect l IH]; intros c delivered Hl Hd.
  - by rewrite no_effects_left, app_nil_r.
  - specialize (IH (c <| TransportConnection.pending_effects := l |>) (delivered ++ [effect]) eq_refl).
    rewrite <- app_assoc in IH. apply IH. eapply TransportR.driven_poll; [exact Hd|].
    unfold TransportConnection.poll_effects. by rewrite Hl.
Qed.


(** ** Deadlines *)

(** The endpoint wakes up in time and does not spin.  The deadline it asks to be
    woken at is the earliest of all its connections; and right after the timeouts
    were handled, it is still due only if it is a timer of QUIC itself. *)
Theorem endpoint_timeout_advances config fuel e now now_instant e' results deadline :
  durations_ok config -> reachable config e ->
  handle_timeout fuel e now now_instant = Some (e', results) ->
  (poll_timeout e').2 = Some deadline ->
  (forall handle c x, connections e' !! handle = Some c ->
     TransportConnection.poll_timeout c = Some x -> deadline <= x)
  /\ (deadline <= now_instant -> exists handle c, connections e' !! handle = Some c
        /\ quic_poll_timeout (TransportConnection.connection c) = Some deadline).
Proof.
  intros Hd Hr Hh Hp. pose proof (reachable_wf config e Hd Hr) as Hwf.
  pose proof (handle_timeout_deadlines config fuel e now now_instant e' results Hwf Hh) as Hown.
  apply poll_timeout_spec in Hp as [(handle & c & Hc & Hx) Hmin]. split; [done|].
  intros Hle. exists handle, c. split; [done|]. destruct (Hown handle c Hc) as [Ho1 Ho2].
  apply TransportTimers.connection_timeout_spec in Hx as [[|[Hx|Hx]] _]; [done|specialize (Ho1 _ Hx)|specialize (Ho2 _ Hx)];
    lia.
Qed.

(** Shutting down closes every connection before it returns.  A connection that was
    open, or closed already, is closed afterwards, unless it is gone altogether. *)
Theorem endpoint_shutdown_closes config fuel e now now_instant e' results :
  durations_ok config -> reachable config e ->
  (forall handle c, connections e !! handle = Some c -> TransportClose.closable c) ->
  shutdown fuel e now now_instant = Some (e', results) ->
  forall handle c, connections e' !! handle = Some c ->
    Connection.state (WebTransportEngine.connection (TransportConnection.engine c))
    = ConnectionState.Closed.
Proof.
  intros Hd Hr Hc Hs. exact (shutdown_closes config fuel e now now_instant e' results
    (reachable_wf config e Hd Hr) Hc Hs).
Qed.

End EndpointT.

(** ** An example

    A client with room for one connection asks for two. *)

Import Literal Pipe.

Definition example_config : RustBaseConfig.t := {|
  RustBaseConfig.congestion_control_algorithm := b: "cubic";
  RustBaseConfig.connection_receive_window := 65536;
  RustBaseConfig.connection_send_window := 65536;
  RustBaseConfig.initial_max_data := 4096;
  RustBaseConfig.initial_max_streams_bidi := 4;
  RustBaseConfig.initial_max_streams_uni := 4;
  RustBaseConfig.keep_alive_interval := None;
  RustBaseConfig.max_capsule_size := 1024;
  RustBaseConfig.max_connection_pending_events := 16;
  RustBaseConfig.max_connections := 1;
  RustBaseConfig.max_datagram_size := 1200;
  RustBaseConfig.max_field_section_size := 4096;
  RustBaseConfig.max_idle_timeout := 30000000000;
  RustBaseConfig.max_pending_capsules := 4;
  RustBaseConfig.max_pending_datagrams := 4;
  RustBaseConfig.max_pending_streams := 4;
  RustBaseConfig.max_session_pending_events := 4;
  RustBaseConfig.max_sessions := 2;
  RustBaseConfig.max_streams_bidi := 4;
  RustBaseConfig.max_streams_uni := 4;
  RustBaseConfig.max_udp_payload_size := 1472;
  RustBaseConfig.max_write_buffer_size := 4096;
  RustBaseConfig.pending_event_ttl := 5;
  RustBaseConfig.resource_cleanup_interval := 10;
  RustBaseConfig.session_receive_window := 4096;
  RustBaseConfig.stream_receive_window := 4096;
|}.

Lemma example_durations : EndpointP.durations_ok example_config.
Proof. split; vm_compute; congruence. Qed.

(** An endpoint before a call, and what the call makes of it. *)
Definition example_new : TransportEndpoint.t :=
  TransportEndpoint.mk example_config (Some ()) ∅ (1, []) [] None [].
Definition after (k : call) (now_instant : Instant) (e : TransportEndpoint.t) : TransportEndpoint.t :=
  default e (perform 16 SessionT.zero now_instant k e).

Lemma after_reachable k now_instant e :
  reachable example_config e -> reachable example_config (after k now_instant e).
Proof.
  intros Hr. unfold after. destruct (perform _ _ _ _ _) as [e'|] eqn:E; [|done].
  by eapply reachable_call.
Qed.

Definition example_connect (request_id : RequestId) : call :=
  CallConnect request_id (SocketAddr.V4 1 443) (b: "localhost").
Definition example_one : TransportEndpoint.t := after (example_connect 1) 0 example_new.
Definition example_two : TransportEndpoint.t := after (example_connect 2) 1 example_one.

Lemma example_one_reachable : reachable example_config example_one.
Proof. apply after_reachable. by eapply (@reachable_client _ _ pipe_endpoint _ (1, []) ()). Qed.

Lemma example_two_reachable : reachable example_config example_two.
Proof. apply after_reachable, example_one_reachable. Qed.

(** ** The properties at work on the example *)

Lemma endpoint_stays_within_limits_witness :
  size (TransportEndpoint.connections example_one) = 1%nat
  /\ Z.of_nat (size (TransportEndpoint.connections example_two)) <= 1.
Proof.
  split; [vm_compute; reflexivity|].
  apply (endpoint_stays_within_limits example_config example_two example_durations
           example_two_reachable).
Defined.

(** The client of the coordinator's example, as connection 1 of an endpoint. *)
Definition example_ended : TransportEndpoint.t :=
  example_new <| TransportEndpoint.connections :=
    {[ 1 := TransportT.coordinator TransportT.example_lost ]} |>.


(** Both timers of the connection are due at 12. *)
Definition example_woken : TransportEndpoint.t := after CallTimeout 12 example_one.

Lemma endpoint_timeout_advances_witness :
  (TransportEndpoint.poll_timeout example_woken).2 = Some 17
  /\ (17 <= 12 -> exists handle c, TransportEndpoint.connections example_woken !! handle = Some c
        /\ quic_poll_timeout (TransportConnection.connection c) = Some 17).
Proof.
  assert (Hp : (TransportEndpoint.poll_timeout example_woken).2 = Some 17) by (vm_compute; reflexivity).
  split; [exact Hp|].
  destruct (succeeds_some (TransportEndpoint.handle_timeout 16 example_one SessionT.zero 12))
    as [[e' results] Hh]; [vm_compute; reflexivity|].
  assert (He : example_woken = e') by (unfold example_woken, after; cbn [perform]; rewrite Hh; reflexivity).
  rewrite He in Hp |- *.
  apply (endpoint_timeout_advances example_config 16 example_one SessionT.zero 12 e' results 17
           example_durations example_one_reachable Hh Hp).
Defined.

Lemma endpoint_shutdown_closes_witness : exists e' results,
  TransportEndpoint.shutdown 16 example_one SessionT.zero 3 = Some (e', results)
  /\ forall handle c, TransportEndpoint.connections e' !! handle = Some c ->
       Connection.state (WebTransportEngine.connection (TransportConnection.engine c))
       = ConnectionState.Closed.
Proof.
  destruct (succeeds_some (TransportEndpoint.shutdown 16 example_one SessionT.zero 3))
    as [[e' results] Hs]; [vm_compute; reflexivity|].
  exists e', results. split; [exact Hs|].
  apply (endpoint_shutdown_closes example_config 16 example_one SessionT.zero 3 e' results
           example_durations example_one_reachable); [|exact Hs].
  intros handle c Hc. apply elem_of_map_to_list in Hc.
  assert (Hl : (fun p : Z * TransportConnection.t =>
      (ConnL.rank (WebTransportEngine.connection (TransportConnection.engine p.2)),
       quic_is_closed (TransportConnection.connection p.2)))
      <$> map_to_list (TransportEndpoint.connections example_one) = [(0%nat, false)])
    by (vm_compute; reflexivity).
  apply (list_elem_of_fmap_2 (fun p : Z * TransportConnection.t =>
      (ConnL.rank (WebTransportEngine.connection (TransportConnection.engine p.2)),
       quic_is_closed (TransportConnection.connection p.2)))) in Hc.
  rewrite Hl in Hc. apply list_elem_of_singleton in Hc. injection Hc as Hr Hq.
  right. split; [rewrite Hr; lia|exact Hq].
Defined.

End EndpointT.
