(* ===== verification/ReactorMachine.v ===== *)
(** * Runtime reactor

    [crates/src/runtime/reactor.rs] and [crates/src/runtime/channel.rs]: the loop that
    feeds the endpoint with commands, datagrams and timeouts, sends what it has to
    transmit, and queues events for the user.  The channels and sockets are the
    environment: a step takes what arrived, with the readings of the clock, and the
    state records what was sent and how often the user was woken. *)

From S2P Require Import Prelude.
From S2P Require Import Types.
From S2P Require Import Events.
From S2P Require Import Qpack.
From S2P Require Import Quinn.
From S2P Require Import TransportMachine.
From S2P Require Import EndpointMachine.

(** ** Channels *)

Definition RUNTIME_CHANNEL_CAPACITY : Z := 65536.

Module RuntimeCommand.
Inductive t : Type :=
| CreateConnection (request_id : RequestId) (remote_address : SocketAddr.t) (server_name : str)
| ProtocolEvent (request_id : RequestId) (handle : QuicConnectionHandle) (event : ProtocolEvent.t)
| ShutdownReactor.
End RuntimeCommand.

Module RuntimeEvent.
Inductive t : Type :=
| CommandFailed (request_id : RequestId) (error_code : option ErrorCode) (reason : str)
| ConnectionEffects (handle : QuicConnectionHandle) (effects : list Effect.t)
| ConnectionSpawned (handle : QuicConnectionHandle) (remote_address : SocketAddr.t)
    (effects : list Effect.t)
| ReactorShutdown.
End RuntimeEvent.

(** [ArrayQueue::push]: a full queue gives the event back. *)
Definition array_push (queue : list RuntimeEvent.t) (event : RuntimeEvent.t)
    : list RuntimeEvent.t * bool :=
  if len queue <? RUNTIME_CHANNEL_CAPACITY then (queue ++ [event], true) else (queue, false).

(** ** The reactor *)

Definition UDP_POLL_DATAGRAMS : nat := 64.

Module BoundSocket.
Record t : Set := mk {
  is_ipv4 : bool;
  socket : Z;
}.
End BoundSocket.

(** A datagram handed to a socket. *)
Notation sent_datagram := (Z * SocketAddr.t * bytes)%type.

(** A datagram from a socket, with the clock when it is handled. *)
Module Received.
Record t : Set := mk {
  remote_address : SocketAddr.t;
  local_address : option SocketAddr.t;
  data : bytes;
  received_at : Instant;
}.
End Received.

Module Reactor.
Section Reactor.
Context `{LsQpack, QuinnEndpoint}.

Record t : Type := mk {
  endpoint : TransportEndpoint.t;
  event_tx : list RuntimeEvent.t;
  events_emitted : bool;
  sockets : list BoundSocket.t;
  start_instant : Instant;
  (** What the reactor has done to its environment. *)
  sent : list sent_datagram;
  wakes : nat;
}.

#[global] Instance eta_reactor : Eta t := fun r =>
  mk (endpoint r) (event_tx r) (events_emitted r) (sockets r) (start_instant r) (sent r) (wakes r).
#[global] Instance set_reactor_endpoint : Setter endpoint := ltac:(build_setter).
#[global] Instance set_event_tx : Setter event_tx := ltac:(build_setter).
#[global] Instance set_events_emitted : Setter events_emitted := ltac:(build_setter).
#[global] Instance set_sent : Setter sent := ltac:(build_setter).
#[global] Instance set_wakes : Setter wakes := ltac:(build_setter).

Definition new (endpoint : TransportEndpoint.t) (event_tx : list RuntimeEvent.t)
    (sockets : list BoundSocket.t) (start_instant : Instant) : t := {|
  endpoint := endpoint;
  event_tx := event_tx;
  events_emitted := false;
  sockets := sockets;
  start_instant := start_instant;
  sent := [];
  wakes := 0;
|}.

Definition now_context (r : t) (now_instant : Instant) : f64 :=
  as_secs_f64 (now_instant - start_instant r).

(** ** Events for the user *)

(** Push an event; only one that fits is announced. *)
Definition emit (r : t) (event : RuntimeEvent.t) : t :=
  match array_push (event_tx r) event with
  | (queue, true) => r <| event_tx := queue |> <| events_emitted := true |>
  | (queue, false) => r <| event_tx := queue |>
  end.

(** The loop over the results of a timeout or a shutdown. *)
Fixpoint emit_results (r : t) (results : list (QuicConnectionHandle * list Effect.t)) : t :=
  match results with
  | [] => r
  | (handle, effects) :: rest =>
      let r := if bool_decide (effects = []) then r
               else emit r (RuntimeEvent.ConnectionEffects handle effects) in
      emit_results r rest
  end.

Definition call_waker (r : t) : t := r <| wakes := S (wakes r) |>.

(** What [run] does with [events_emitted] after every step. *)
Definition wake_if_emitted (r : t) : t :=
  if events_emitted r then (call_waker r) <| events_emitted := false |> else r.

Definition notify_shutdown (r : t) : t :=
  call_waker (r <| event_tx := (array_push (event_tx r) RuntimeEvent.ReactorShutdown).1 |>).

(** ** Sending *)

(** The socket of the address family, or the first one. *)
Definition target_socket (r : t) (address : SocketAddr.t) : option Z :=
  match List.find (fun bound => Bool.eqb (BoundSocket.is_ipv4 bound) (SocketAddr.is_ipv4 address))
          (sockets r) with
  | Some bound => Some (BoundSocket.socket bound)
  | None => BoundSocket.socket <$> head (sockets r)
  end.

(** The loop over the segments of a transmit of [size] bytes: [data] is what is left
    from [offset] on. *)
Fixpoint send_segments (fuel : nat) (socket : Z) (address : SocketAddr.t) (segment_size : Z)
    (data : bytes) (sent : list sent_datagram) : option (list sent_datagram) :=
  match data with
  | [] => Some sent
  | _ =>
      match fuel with
      | O => None
      | S fuel' =>
          let chunk_len := Z.to_nat (Z.min segment_size (len data)) in
          send_segments fuel' socket address segment_size (drop chunk_len data)
            (sent ++ [(socket, address, take chunk_len data)])
      end
  end.

(** A send that fails is only logged, so [sent] holds what was handed to a socket. *)
Definition send_transmit (fuel : nat) (r : t) (transmit : QuicTransmit.t) : option t :=
  let size := QuicTransmit.size transmit in
  let segment_size := default size (QuicTransmit.segment_size transmit) in
  let workspace := TransportEndpoint.transmit_workspace (endpoint r) in
  if size <=? len workspace then
    match target_socket r (QuicTransmit.destination transmit) with
    | Some socket =>
        sent' ← send_segments fuel socket (QuicTransmit.destination transmit) segment_size
                  (take (Z.to_nat size) workspace) (sent r);
        Some (r <| sent := sent' |>)
    | None => Some r
    end
  else Some r.

Fixpoint flush_loop (turns fuel : nat) (r : t) (now_instant : Instant) : option t :=
  match turns with
  | O => None
  | S turns' =>
      match TransportEndpoint.poll_transmit (endpoint r) now_instant with
      | (endpoint', Some transmit) =>
          r ← send_transmit fuel (r <| endpoint := endpoint' |>) transmit;
          flush_loop turns' fuel r now_instant
      | (endpoint', None) => Some (r <| endpoint := endpoint' |>)
      end
  end.

Definition flush_transmits (fuel : nat) (r : t) (now_instant : Instant) : option t :=
  flush_loop fuel fuel r now_instant.

(** ** Inputs *)

Section inputs.
Context (fuel : nat).

Definition process_transport_event (r : t) (event : TransportEvent.t) : option t :=
  match event with
  | TransportEvent.CommandFailed request_id error_code reason =>
      Some (emit r (RuntimeEvent.CommandFailed request_id error_code reason))
  | TransportEvent.ConnectionEffects handle effects =>
      Some (if bool_decide (effects = []) then r
            else emit r (RuntimeEvent.ConnectionEffects handle effects))
  | TransportEvent.ConnectionSpawned handle remote_address effects =>
      Some (emit r (RuntimeEvent.ConnectionSpawned handle remote_address effects))
  | TransportEvent.Consumed => Some r
  | TransportEvent.Transmit transmit => send_transmit fuel r transmit
  end.

(** [false] ends the loop of [run]. *)
Definition handle_command (r : t) (command : RuntimeCommand.t) (now_instant : Instant)
    : option (t * bool) :=
  let now := now_context r now_instant in
  match command with
  | RuntimeCommand.CreateConnection request_id remote_address server_name =>
      '(endpoint', event) ←
        TransportEndpoint.connect fuel (endpoint r) request_id remote_address server_name
          now_instant;
      r ← process_transport_event (r <| endpoint := endpoint' |>) event;
      Some (r, true)
  | RuntimeCommand.ProtocolEvent request_id handle event =>
      '(endpoint', event) ←
        TransportEndpoint.handle_protocol_event fuel (endpoint r) handle request_id event now
          now_instant;
      r ← process_transport_event (r <| endpoint := endpoint' |>) event;
      Some (r, true)
  | RuntimeCommand.ShutdownReactor =>
      '(endpoint', results) ← TransportEndpoint.shutdown fuel (endpoint r) now now_instant;
      Some (emit_results (r <| endpoint := endpoint' |>) results, false)
  end.

Definition handle_datagram (r : t) (d : Received.t) : option t :=
  let now_instant := Received.received_at d in
  '(endpoint', event) ←
    TransportEndpoint.handle_datagram fuel (endpoint r) (Received.remote_address d)
      (Received.local_address d) (Received.data d) (now_context r now_instant) now_instant;
  process_transport_event (r <| endpoint := endpoint' |>) event.

Definition handle_timeout (r : t) (now_instant : Instant) : option t :=
  '(endpoint', results) ←
    TransportEndpoint.handle_timeout fuel (endpoint r) (now_context r now_instant) now_instant;
  Some (emit_results (r <| endpoint := endpoint' |>) results).

Fixpoint handle_datagrams (r : t) (datagrams : list Received.t) : option t :=
  match datagrams with
  | [] => Some r
  | d :: rest => r ← handle_datagram r d; handle_datagrams r rest
  end.

(** ** The loop *)

(** What the [select] of [run] returned; a closed channel is [None].  A datagram
    comes with those that wait behind it, of which [run] takes 63 more. *)
Inductive wake_up : Type :=
| Command (command : option RuntimeCommand.t)
| Datagrams (first : option Received.t) (waiting : list Received.t)
| Slept.

(** One turn of the loop, up to the [break]. *)
Definition select_turn (r : t) (w : wake_up) (now_instant : Instant) : option (t * bool) :=
  let '(endpoint', _) := TransportEndpoint.poll_timeout (endpoint r) in
  let r := r <| endpoint := endpoint' |> in
  match w with
  | Command None | Datagrams None _ => Some (r, false)
  | Command (Some command) => handle_command r command now_instant
  | Datagrams (Some first) waiting =>
      r ← handle_datagrams r (first :: take (UDP_POLL_DATAGRAMS - 1) waiting);
      Some (r, true)
  | Slept => r ← handle_timeout r now_instant; Some (r, true)
  end.

(** After the turn the transmits are flushed and the user is woken; the end of the
    loop does the same and tells the user. *)
Definition turn (r : t) (w : wake_up) (now_instant flushed_at : Instant) : option (t * bool) :=
  '(r, continues) ← select_turn r w now_instant;
  r ← flush_transmits fuel r flushed_at;
  let r := if continues : bool then wake_if_emitted r
           else notify_shutdown (if events_emitted r then call_waker r else r) in
  Some (r, continues).

(** A whole run over what arrives; [None] also when the inputs end before the loop. *)
Fixpoint run (r : t) (inputs : list (wake_up * Instant * Instant)) : option t :=
  match inputs with
  | [] => None
  | (w, now_instant, flushed_at) :: rest =>
      '(r, continues) ← turn r w now_instant flushed_at;
      if continues : bool then run r rest else Some r
  end.

End inputs.
End Reactor.
End Reactor.
