(* ===== verification/ReactorEvents.v ===== *)
(** * What the reactor queues for the user

    The transport carries out every effect that is not meant for the user, so those
    that wait in a coordinator, those the endpoint returns and those in the queue of
    the reactor are effects for the user. *)

From S2P Require Import Prelude.
From S2P Require Import Types.
From S2P Require Import Events.
From S2P Require Import Qpack.
From S2P Require Import EngineMachine.
From S2P Require Import Quinn.
From S2P Require Import TransportMachine.
From S2P Require Import TransportProps.
From S2P Require Import TransportSteps.
From S2P Require Import EndpointMachine.
From S2P Require Import EndpointProps.
From S2P Require Import EndpointTheorems.
From S2P Require Import ReactorMachine.

(** A list of effects for the user. *)
Notation user effects := (forallb user_effect effects = true) (only parsing).

(** The effects an event carries. *)
Definition event_effects (event : RuntimeEvent.t) : list Effect.t :=
  match event with
  | RuntimeEvent.ConnectionEffects _ effects | RuntimeEvent.ConnectionSpawned _ _ effects => effects
  | _ => []
  end.

Module ReactorE.
Section ReactorE.
Context `{LsQpack, QuinnEndpoint}.

(** ** The coordinator *)

Section coordinator.
Import TransportConnection.

Definition grows (c c' : t) : Prop := user (pending_effects c) -> user (pending_effects c').

#[local] Instance grows_pre : PreOrder grows.
Proof. unfold grows. split; [by intros c Hc|]. intros c1 c2 c3. auto. Qed.

Lemma io_grows c c' : TransportSteps.io c c' -> grows c c'.
Proof. intros []. exact io_pending. Qed.

Lemma encode_grows c e' : TransportP.same_engine (engine c) e' -> grows c (c <| engine := e' |>).
Proof. intros _ Hc. exact Hc. Qed.

Section calls.
Context (fuel : nat) (now : f64) (now_instant : Instant).

Lemma event_grows c event now1 e' effects :
  WebTransportEngine.handle_event fuel (engine c) event now1 = Some (e', effects) ->
  grows c (c <| engine := e' |>).
Proof. intros _ Hc. exact Hc. Qed.

Lemma handle_protocol_event_grows c event c' :
  handle_protocol_event fuel c event now now_instant = Some c' -> grows c c'.
Proof.
  exact (TransportSteps.handle_protocol_event_keeps _ _ io_grows encode_grows event_grows _ _ _ _ _).
Qed.

Lemma handle_quic_connection_event_grows c event c' :
  handle_quic_connection_event fuel c event now now_instant = Some c' -> grows c c'.
Proof.
  exact (TransportSteps.handle_quic_connection_event_keeps _ _ io_grows encode_grows event_grows
    _ _ _ _ _).
Qed.

Lemma dispatch_grows c event c' :
  dispatch_protocol_event fuel c event now now_instant = Some c' -> grows c c'.
Proof.
  exact (TransportSteps.dispatch_protocol_event_keeps _ _ io_grows encode_grows event_grows _ _ _ _ _).
Qed.

Lemma handle_timeout_grows c c' :
  handle_timeout fuel c now now_instant = Some c' -> grows c c'.
Proof.
  intros Hh. apply bind_Some in Hh as (c1 & Hr & Hh). apply bind_Some in Hh as (c2 & He & Hh).
  apply (TransportSteps.process_quic_events_keeps _ _ io_grows encode_grows event_grows) in Hh.
  transitivity c1; [|transitivity c2; [|exact Hh]].
  - revert Hr. unfold cleanup_resources. destruct (is_due _ _); [|by intros [= <-]].
    intros Hb. apply bind_Some in Hb as (c3 & Hd & [= <-]). by apply dispatch_grows in Hd.
  - revert He. unfold cleanup_early_events. destruct (is_due _ _); [|by intros [= <-]].
    intros Hb. apply bind_Some in Hb as (c3 & Hd & [= <-]). by apply dispatch_grows in Hd.
Qed.

End calls.
End coordinator.

(** ** The endpoint *)

Section endpoint.
Import TransportEndpoint EndpointP.
Context (config : RustBaseConfig.t) (fuel : nat).

(** The effects a call returns are for the user. *)
Definition announced (event : TransportEvent.t) : Prop :=
  match event with
  | TransportEvent.ConnectionEffects _ effects | TransportEvent.ConnectionSpawned _ _ effects =>
      user effects
  | _ => True
  end.

Lemma settled_user c : settled c -> user (TransportConnection.pending_effects c).
Proof. by intros [-> _]. Qed.

Lemma spawn_announced e handle conn request_id is_client now e' event :
  spawn_connection fuel e handle conn request_id is_client now = Some (e', event) -> announced event.
Proof.
  intros Hs. apply bind_Some in Hs as ([[en c] evs] & Hf & Hs).
  apply forward_events_only in Hf as [conn' ->]. rewrite collect_effects_all in Hs.
  by injection Hs as <- <-.
Qed.

Lemma connect_announced e request_id address name now e' event :
  connect fuel e request_id address name now = Some (e', event) -> announced event.
Proof. by intros [(code & reason & ->)|(handle & addr & -> & _)]%connect_event. Qed.

Lemma finish_call_announced e handle c e' event :
  user (TransportConnection.pending_effects c) ->
  finish_call fuel e handle c = Some (e', event) -> announced event.
Proof.
  intros Hu Hc. apply bind_Some in Hc as ([[en c1] evs] & Hf & Hc).
  apply forward_events_only in Hf as [conn ->]. rewrite collect_effects_all in Hc.
  by injection Hc as <- <-.
Qed.

Lemma handle_incoming_announced e incoming now e' event :
  handle_incoming fuel e incoming now = Some (e', event) -> announced event.
Proof.
  unfold handle_incoming. destruct (quic_refuse _ _ _) as [[en ws] tr].
  destruct (server_config e); [|by intros [= _ <-]].
  destruct (is_full e); [by intros [= _ <-]|].
  destruct (quic_endpoint_accept _ _ _ _) as [[en' ws'] [[handle conn]|]]; [|by intros [= _ <-]].
  apply spawn_announced.
Qed.

Lemma handle_datagram_announced e remote local data now now_instant e' event :
  wf config e -> handle_datagram fuel e remote local data now now_instant = Some (e', event) ->
  announced event.
Proof.
  intros Hwf. unfold handle_datagram. destruct (quic_handle _ _ _ _ _ _) as [[en ws] ev].
  destruct ev as [[handle cev|incoming|tr]|];
    [|by apply handle_incoming_announced|by intros [= _ <-]..].
  destruct (connections _ !! handle) as [c|] eqn:Hl; [|by intros [= _ <-]].
  intros Hb. apply bind_Some in Hb as (c1 & Hc & Hb). eapply finish_call_announced; [|done].
  eapply handle_quic_connection_event_grows; [done|]. apply settled_user, (wf_settled _ _ Hwf _ _ Hl).
Qed.

Lemma handle_protocol_event_announced e handle request_id pe now now_instant e' event :
  wf config e ->
  handle_protocol_event fuel e handle request_id pe now now_instant = Some (e', event) ->
  announced event.
Proof.
  intros Hwf. unfold handle_protocol_event.
  destruct (connections e !! handle) as [c|] eqn:Hl; [|by intros [= _ <-]].
  intros Hb. apply bind_Some in Hb as (c1 & Hc & Hb). eapply finish_call_announced; [|done].
  eapply handle_protocol_event_grows; [done|]. apply settled_user, (wf_settled _ _ Hwf _ _ Hl).
Qed.

(** The results of a call into every connection. *)
Definition all_user (results : list (QuicConnectionHandle * list Effect.t)) : Prop :=
  Forall (fun result => user result.2) results.

Section visits.
Context (visit : TransportConnection.t -> option (TransportConnection.t * list Effect.t)).
Context (visit_settled : forall c c' effects, settled c -> visit c = Some (c', effects) -> settled c').
Context (visit_user : forall c c' effects, settled c -> visit c = Some (c', effects) -> user effects).

Lemma visit_each_user handles e results drained e' results' drained' :
  wf config e -> all_user results ->
  visit_each fuel visit e handles results drained = Some (e', results', drained') ->
  all_user results'.
Proof using visit_settled visit_user.
  revert e results drained. induction handles as [|handle handles IH]; intros e results drained Hwf Hu;
    cbn [visit_each]; [by intros [= _ <- _]|].
  destruct (connections e !! handle) as [c|] eqn:Hl; [|by apply IH].
  intros Hb. apply bind_Some in Hb as ([c1 ef] & Hv & Hb).
  apply bind_Some in Hb as ([[en c2] evs] & Hf & Hb).
  pose proof (wf_settled _ _ Hwf _ _ Hl) as Hs. eapply IH in Hb; [done| |].
  - eapply wf_update; [done|done|]. exact (settled_forward _ _ _ _ _ _ _ _ Hf (visit_settled _ _ _ Hs Hv)).
  - case_bool_decide; [done|]. apply Forall_app. split; [done|].
    apply Forall_singleton. exact (visit_user _ _ _ Hs Hv).
Qed.

Lemma visit_all_user e e' results :
  wf config e -> visit_all fuel visit e = Some (e', results) -> all_user results.
Proof using visit_settled visit_user.
  intros Hwf Hv. apply bind_Some in Hv as ([[e1 rs] drained] & Hv & [= _ <-]).
  eapply visit_each_user; [|by constructor|exact Hv]. by destruct Hwf.
Qed.
End visits.

Lemma handle_timeout_user e now now_instant e' results :
  wf config e -> handle_timeout fuel e now now_instant = Some (e', results) -> all_user results.
Proof.
  apply visit_all_user; [apply visit_due_settled|]. intros c c' effects Hs. unfold visit_due.
  destruct (from_option _ _ _); [|by intros [= _ <-]].
  intros Hb. apply bind_Some in Hb as (c1 & Hh & Hb). rewrite collect_effects_all in Hb.
  injection Hb as _ <-. eapply handle_timeout_grows; [done|by apply settled_user].
Qed.

Lemma shutdown_user e now now_instant e' results :
  wf config e -> shutdown fuel e now now_instant = Some (e', results) -> all_user results.
Proof.
  apply visit_all_user; [apply visit_closing_settled|]. intros c c' effects Hs Hb.
  apply bind_Some in Hb as (c1 & Hh & Hb). rewrite collect_effects_all in Hb.
  injection Hb as _ <-. eapply handle_protocol_event_grows; [done|by apply settled_user].
Qed.

End endpoint.

(** ** The reactor *)

Section reactor.
Import Reactor EndpointP.
Context (config : RustBaseConfig.t) (Hdur : durations_ok config) (fuel : nat).

(** From a sound endpoint, to a sound endpoint and more events for the user. *)
Definition queues (r r' : t) : Prop :=
  wf config (endpoint r) -> wf config (endpoint r')
  /\ exists events, event_tx r' = event_tx r ++ events
       /\ Forall (fun event => user (event_effects event)) events.

#[local] Instance queues_pre : PreOrder queues.
Proof.
  split.
  - intros r Hwf. split; [done|]. exists []. by rewrite app_nil_r.
  - intros r1 r2 r3 H12 H23 Hwf. destruct (H12 Hwf) as (Hwf2 & ev1 & Hq1 & Hu1).
    destruct (H23 Hwf2) as (Hwf3 & ev2 & Hq2 & Hu2). split; [done|].
    exists (ev1 ++ ev2). rewrite Hq2, Hq1, app_assoc. split; [done|]. by apply Forall_app.
Qed.

Lemma quiet_queues r r' :
  (wf config (endpoint r) -> wf config (endpoint r')) -> event_tx r' = event_tx r -> queues r r'.
Proof. intros He Hq Hwf. split; [auto|]. exists []. by rewrite Hq, app_nil_r. Qed.

Lemma emit_queues r event : user (event_effects event) -> queues r (emit r event).
Proof.
  intros Hu. unfold emit, array_push. destruct (_ <? _); [|by apply quiet_queues].
  intros Hwf. split; [done|]. exists [event]. by split; [|apply Forall_singleton].
Qed.

Lemma emit_results_queues results r : all_user results -> queues r (emit_results r results).
Proof.
  revert r. induction results as [|[handle effects] results IH]; intros r Hu; [reflexivity|].
  apply Forall_cons in Hu as [Hu Hus]. cbn [emit_results]. case_bool_decide; [by apply IH|].
  transitivity (emit r (RuntimeEvent.ConnectionEffects handle effects)); [by apply emit_queues|by apply IH].
Qed.

Lemma send_transmit_queues r transmit r' : send_transmit fuel r transmit = Some r' -> queues r r'.
Proof.
  unfold send_transmit. destruct (_ <=? _); [|by intros [= <-]].
  destruct (target_socket _ _); [|by intros [= <-]].
  intros Hb. apply bind_Some in Hb as (sent' & _ & [= <-]). by apply quiet_queues.
Qed.

Lemma process_transport_event_queues r event r' :
  announced event -> process_transport_event fuel r event = Some r' -> queues r r'.
Proof.
  intros Ha. destruct event; cbn [process_transport_event].
  - intros [= <-]. by apply emit_queues.
  - intros [= <-]. case_bool_decide; [reflexivity|by apply emit_queues].
  - intros [= <-]. by apply emit_queues.
  - by intros [= <-].
  - apply send_transmit_queues.
Qed.

(** A call into the endpoint, then something of [k]. *)
Lemma endpoint_queues r e' r' :
  (wf config (endpoint r) -> wf config e' /\ queues (r <| endpoint := e' |>) r') -> queues r r'.
Proof. intros Hk Hwf. destruct (Hk Hwf) as [Hwf' Hq]. exact (Hq Hwf'). Qed.

Lemma flush_transmits_queues r now_instant r' :
  flush_transmits fuel r now_instant = Some r' -> queues r r'.
Proof.
  unfold flush_transmits. generalize fuel at 1 as turns. intros turns. revert r.
  induction turns as [|turns IH]; intros r; [done|]. cbn [flush_loop].
  pose proof (poll_transmit_wf config (endpoint r) now_instant) as Hpw.
  destruct (TransportEndpoint.poll_transmit (endpoint r) now_instant) as [en [tr|]].
  - intros Hb. apply bind_Some in Hb as (r1 & Hx & Hb). apply (endpoint_queues _ en). intros Hwf.
    split; [by apply Hpw|]. transitivity r1; [by apply send_transmit_queues in Hx|by apply IH].
  - intros [= <-]. by apply quiet_queues.
Qed.

Lemma handle_command_queues r command now_instant r' continues :
  handle_command fuel r command now_instant = Some (r', continues) -> queues r r'.
Proof using Hdur.
  destruct command as [request address name|request handle event|]; cbn [handle_command]; intros Hb;
    apply bind_Some in Hb as ([en ev] & Hc & Hb); apply (endpoint_queues _ en); intros Hwf.
  - apply bind_Some in Hb as (r1 & Hx & [= <- <-]). split; [by eapply connect_wf|].
    eapply process_transport_event_queues; [by eapply connect_announced|done].
  - apply bind_Some in Hb as (r1 & Hx & [= <- <-]). split; [by eapply handle_protocol_event_wf|].
    eapply process_transport_event_queues; [by eapply handle_protocol_event_announced|done].
  - injection Hb as <- <-. split; [by eapply shutdown_wf|].
    apply emit_results_queues. by eapply shutdown_user.
Qed.

Lemma handle_datagrams_queues datagrams r r' :
  handle_datagrams fuel r datagrams = Some r' -> queues r r'.
Proof using Hdur.
  revert r. induction datagrams as [|d datagrams IH]; intros r; cbn [handle_datagrams]; [by intros [= <-]|].
  intros Hb. apply bind_Some in Hb as (r1 & Hx & Hb). transitivity r1; [|by apply IH].
  apply bind_Some in Hx as ([en ev] & Hc & Hx). apply (endpoint_queues _ en). intros Hwf.
  split; [by eapply handle_datagram_wf|].
  eapply process_transport_event_queues; [by eapply handle_datagram_announced|done].
Qed.

Lemma handle_timeout_queues r now_instant r' :
  handle_timeout fuel r now_instant = Some r' -> queues r r'.
Proof.
  intros Hb. apply bind_Some in Hb as ([en results] & Hc & [= <-]). apply (endpoint_queues _ en).
  intros Hwf. split; [by eapply handle_timeout_wf|]. apply emit_results_queues.
  by eapply handle_timeout_user.
Qed.

Lemma select_turn_queues r w now_instant r' continues :
  select_turn fuel r w now_instant = Some (r', continues) -> queues r r'.
Proof using Hdur.
  unfold select_turn. pose proof (poll_timeout_wf config (endpoint r)) as Hpw.
  destruct (TransportEndpoint.poll_timeout (endpoint r)) as [en deadline].
  intros Ht. apply (endpoint_queues _ en). intros Hwf. split; [by apply Hpw|]. revert Ht.
  destruct w as [[command|]|[first|] waiting|]; [|by intros [= <- _]| |by intros [= <- _]|].
  - apply handle_command_queues.
  - intros Hb. apply bind_Some in Hb as (r1 & Hx & [= <- _]). by eapply handle_datagrams_queues.
  - intros Hb. apply bind_Some in Hb as (r1 & Hx & [= <- _]). by eapply handle_timeout_queues.
Qed.

Lemma turn_queues r w now_instant flushed_at r' continues :
  turn fuel r w now_instant flushed_at = Some (r', continues) -> queues r r'.
Proof using Hdur.
  intros Hb. apply bind_Some in Hb as ([r1 go] & Hs & Hb). apply bind_Some in Hb as (r2 & Hf & [= <- <-]).
  transitivity r1; [by eapply select_turn_queues|]. transitivity r2; [by eapply flush_transmits_queues|].
  unfold wake_if_emitted, notify_shutdown, array_push.
  destruct go; [destruct (events_emitted r2); by apply quiet_queues|].
  set (r3 := if events_emitted r2 then _ else _).
  assert (H3 : endpoint r3 = endpoint r2 /\ event_tx r3 = event_tx r2) by (unfold r3; by destruct (events_emitted r2)).
  destruct H3 as [He3 Hq3].
  destruct (_ <? _); [|by apply quiet_queues; cbn; rewrite ?He3, ?Hq3].
  intros Hwf. cbn. rewrite He3, Hq3. split; [done|]. exists [RuntimeEvent.ReactorShutdown].
  split; [done|by apply Forall_singleton].
Qed.

End reactor.
End ReactorE.
End ReactorE.
