(* ===== verification/ReactorTheorems.v ===== *)
(** * Theorems about the reactor

    The loop around the endpoint: what it tells the user and when it wakes them, what
    it sends, and that all it does to the endpoint are the calls the theorems about
    the endpoint are about. *)

From S2P Require Import Prelude.
From S2P Require Import Types.
From S2P Require Import Events.
From S2P Require Import Qpack.
From S2P Require Import QpackLiteral.
From S2P Require Import SessionTheorems.
From S2P Require Import ConnectionMachine.
From S2P Require Import EngineMachine.
From S2P Require Import Quinn.
From S2P Require Import QuinnPipe.
From S2P Require Import TransportMachine.
From S2P Require Import EndpointMachine.
From S2P Require Import EndpointProps.
From S2P Require Import EndpointTheorems.
From S2P Require Import ReactorMachine.

Module ReactorT.
Section ReactorT.
Context `{LsQpack, QuinnEndpoint}.
Import Reactor.

(** ** What a part of a turn may do *)

Record served (r r' : t) : Prop := {
  served_events : exists events, event_tx r' = event_tx r ++ events
    /\ events_emitted r' = events_emitted r || bool_decide (events <> []);
  served_room : len (event_tx r) <= RUNTIME_CHANNEL_CAPACITY ->
    len (event_tx r') <= RUNTIME_CHANNEL_CAPACITY;
  served_wakes : wakes r' = wakes r;
  served_endpoint : forall config, EndpointT.reachable config (endpoint r) ->
    EndpointT.reachable config (endpoint r');
}.

#[local] Instance served_pre : PreOrder served.
Proof.
  split.
  - intros r. split; try done. exists []. rewrite app_nil_r. split; [done|]. by destruct (events_emitted r).
  - intros r1 r2 r3 [(ev1 & Hq1 & He1) Hr1 Hw1 Hen1] [(ev2 & Hq2 & He2) Hr2 Hw2 Hen2].
    split; [|auto|congruence|auto]. exists (ev1 ++ ev2). rewrite Hq2, Hq1, He2, He1, app_assoc.
    split; [done|]. by destruct (events_emitted r1), ev1, ev2.
Qed.

Lemma emit_served r event : served r (emit r event).
Proof.
  unfold emit, array_push. destruct (len (event_tx r) <? _) eqn:E; bool_to_prop.
  - split; try done.
    + exists [event]. cbn. by rewrite orb_true_r.
    + cbn. intros _. rewrite len_app. unfold len at 2. cbn. lia.
  - split; try done. exists []. cbn. rewrite app_nil_r. by destruct (events_emitted r).
Qed.

Lemma emit_results_served results r : served r (emit_results r results).
Proof.
  revert r. induction results as [|[handle effects] results IH]; intros r; [reflexivity|].
  cbn [emit_results]. case_bool_decide; [apply IH|].
  transitivity (emit r (RuntimeEvent.ConnectionEffects handle effects)); [apply emit_served|apply IH].
Qed.

(** A call into the endpoint. *)
Lemma endpoint_served r fuel now now_instant k endpoint' :
  EndpointT.perform fuel now now_instant k (endpoint r) = Some endpoint' ->
  served r (r <| endpoint := endpoint' |>).
Proof.
  intros Hp. split; try done.
  - exists []. rewrite app_nil_r. split; [done|]. cbn. by destruct (events_emitted r).
  - intros config Hr. by eapply EndpointT.reachable_call.
Qed.

Lemma send_transmit_served fuel r transmit r' :
  send_transmit fuel r transmit = Some r' -> served r r' /\ endpoint r' = endpoint r.
Proof.
  unfold send_transmit. destruct (_ <=? _); [|by intros [= <-]].
  destruct (target_socket _ _); [|by intros [= <-]].
  intros Hb. apply bind_Some in Hb as (sent' & _ & [= <-]). split; [|done]. split; try done.
  exists []. rewrite app_nil_r. cbn. by destruct (events_emitted r).
Qed.

Lemma flush_transmits_served fuel r now_instant r' :
  flush_transmits fuel r now_instant = Some r' -> served r r'.
Proof.
  unfold flush_transmits. generalize fuel at 1 as turns. intros turns. revert r.
  induction turns as [|turns IH]; intros r; [done|]. cbn [flush_loop].
  destruct (TransportEndpoint.poll_transmit (endpoint r) now_instant) as [en tr] eqn:Hp.
  assert (Hs : served r (r <| endpoint := en |>)).
  { apply (endpoint_served r 0 SessionT.zero now_instant EndpointT.CallPollTransmit).
    cbn [EndpointT.perform]. by rewrite Hp. }
  destruct tr as [tr|]; [|by intros [= <-]].
  intros Hb. apply bind_Some in Hb as (r1 & Hx & Hb). apply send_transmit_served in Hx as [Hx _].
  transitivity (r <| endpoint := en |>); [done|]. transitivity r1; [done|by apply IH].
Qed.

Lemma process_transport_event_served fuel r event r' :
  process_transport_event fuel r event = Some r' -> served r r'.
Proof.
  destruct event; cbn [process_transport_event].
  - intros [= <-]. apply emit_served.
  - intros [= <-]. case_bool_decide; [reflexivity|apply emit_served].
  - intros [= <-]. apply emit_served.
  - by intros [= <-].
  - intros Hs. by apply send_transmit_served in Hs as [Hs _].
Qed.

Section inputs.
Context (fuel : nat).

Lemma handle_command_served r command now_instant r' continues :
  handle_command fuel r command now_instant = Some (r', continues) -> served r r'.
Proof.
  destruct command as [request address name|request handle event|]; cbn [handle_command]; intros Hb;
    apply bind_Some in Hb as ([en ev] & Hc & Hb).
  1: apply (f_equal (fmap fst)) in Hc; cbn in Hc;
    apply (endpoint_served r fuel SessionT.zero now_instant (EndpointT.CallConnect request address name)) in Hc.
  2: apply (f_equal (fmap fst)) in Hc; cbn in Hc;
    apply (endpoint_served r fuel (now_context r now_instant) now_instant
             (EndpointT.CallEvent handle request event)) in Hc.
  3: apply (f_equal (fmap fst)) in Hc; cbn in Hc;
    apply (endpoint_served r fuel (now_context r now_instant) now_instant EndpointT.CallShutdown) in Hc.
  1,2: apply bind_Some in Hb as (r1 & Hx & [= <- <-]); transitivity (r <| endpoint := en |>);
    [done|by eapply process_transport_event_served].
  injection Hb as <- <-. transitivity (r <| endpoint := en |>); [done|apply emit_results_served].
Qed.

Lemma handle_datagram_served r d r' : handle_datagram fuel r d = Some r' -> served r r'.
Proof.
  intros Hb. apply bind_Some in Hb as ([en ev] & Hc & Hb).
  apply (f_equal (fmap fst)) in Hc. cbn in Hc.
  apply (endpoint_served r fuel (now_context r (Received.received_at d)) (Received.received_at d)
           (EndpointT.CallDatagram (Received.remote_address d) (Received.local_address d)
              (Received.data d))) in Hc.
  transitivity (r <| endpoint := en |>); [done|by eapply process_transport_event_served].
Qed.

Lemma handle_datagrams_served datagrams r r' :
  handle_datagrams fuel r datagrams = Some r' -> served r r'.
Proof.
  revert r. induction datagrams as [|d datagrams IH]; intros r; cbn [handle_datagrams]; [by intros [= <-]|].
  intros Hb. apply bind_Some in Hb as (r1 & Hx & Hb). transitivity r1; [by eapply handle_datagram_served|by apply IH].
Qed.

Lemma handle_timeout_served r now_instant r' :
  handle_timeout fuel r now_instant = Some r' -> served r r'.
Proof.
  intros Hb. apply bind_Some in Hb as ([en results] & Hc & [= <-]).
  apply (f_equal (fmap fst)) in Hc. cbn in Hc.
  apply (endpoint_served r fuel (now_context r now_instant) now_instant EndpointT.CallTimeout) in Hc.
  transitivity (r <| endpoint := en |>); [done|apply emit_results_served].
Qed.

Lemma select_turn_served r w now_instant r' continues :
  select_turn fuel r w now_instant = Some (r', continues) -> served r r'.
Proof.
  unfold select_turn. destruct (TransportEndpoint.poll_timeout (endpoint r)) as [en deadline] eqn:Hp.
  assert (Hs : served r (r <| endpoint := en |>)).
  { apply (endpoint_served r 0 SessionT.zero now_instant EndpointT.CallPollTimeout).
    cbn [EndpointT.perform]. by rewrite Hp. }
  intros Ht. transitivity (r <| endpoint := en |>); [done|]. revert Ht.
  destruct w as [[command|]|[first|] waiting|]; [|by intros [= <- _]| |by intros [= <- _]|].
  - apply handle_command_served.
  - intros Hb. apply bind_Some in Hb as (r1 & Hx & [= <- _]). by eapply handle_datagrams_served.
  - intros Hb. apply bind_Some in Hb as (r1 & Hx & [= <- _]). by eapply handle_timeout_served.
Qed.

End inputs.

(** A turn keeps the queue within its capacity and the endpoint reachable. *)
Lemma turn_kept fuel config r w now_instant flushed_at r' continues :
  len (event_tx r) <= RUNTIME_CHANNEL_CAPACITY -> EndpointT.reachable config (endpoint r) ->
  turn fuel r w now_instant flushed_at = Some (r', continues) ->
  len (event_tx r') <= RUNTIME_CHANNEL_CAPACITY /\ EndpointT.reachable config (endpoint r').
Proof.
  intros Hroom Hreach Ht. apply bind_Some in Ht as ([r1 go] & Hs & Ht).
  apply bind_Some in Ht as (r2 & Hf & [= <- <-]).
  assert (Hsv : served r r2)
    by (transitivity r1; [by eapply select_turn_served|by eapply flush_transmits_served]).
  destruct Hsv as [_ Hr _ Hen]. specialize (Hr Hroom). specialize (Hen config Hreach).
  unfold wake_if_emitted, notify_shutdown, call_waker.
  destruct go, (events_emitted r2); cbn; split; try done; unfold array_push; cbn.
  all: destruct (_ <? _) eqn:Ep; bool_to_prop; [|done].
  all: cbn [fst]; rewrite len_app; unfold len at 2; cbn [length]; lia.
Qed.

(** ** Theorems *)

(** C25: the user is woken exactly when there is something new.  A turn of the loop only
    adds to the queue of events, never beyond its capacity; it wakes the user once
    if it added any event and not at all otherwise; when the loop ends the user is
    told and woken last; and all it did to the endpoint are calls of the endpoint,
    so that the theorems about the endpoint hold while the reactor runs. *)
Theorem reactor_wakes_user fuel config r w now_instant flushed_at r' continues :
  events_emitted r = false -> len (event_tx r) <= RUNTIME_CHANNEL_CAPACITY ->
  EndpointT.reachable config (endpoint r) ->
  turn fuel r w now_instant flushed_at = Some (r', continues) ->
  len (event_tx r') <= RUNTIME_CHANNEL_CAPACITY /\ EndpointT.reachable config (endpoint r')
  /\ exists events, (continues = true -> event_tx r' = event_tx r ++ events
        /\ wakes r' = ((if bool_decide (events = []) then 0 else 1) + wakes r)%nat
        /\ events_emitted r' = false)
      /\ (continues = false ->
          event_tx r' = (array_push (event_tx r ++ events) RuntimeEvent.ReactorShutdown).1
          /\ wakes r' = (S (if bool_decide (events = []) then 0 else 1) + wakes r)%nat).
Proof.
  intros He Hroom Hreach Ht. apply bind_Some in Ht as ([r1 go] & Hs & Ht).
  apply bind_Some in Ht as (r2 & Hf & [= <- <-]). apply select_turn_served in Hs.
  apply flush_transmits_served in Hf.
  assert (Hsv : served r r2) by (transitivity r1; done).
  destruct Hsv as [(events & Hq & Hem) Hr Hw Hen]. specialize (Hr Hroom). specialize (Hen config Hreach).
  rewrite He in Hem. cbn in Hem. unfold wake_if_emitted, notify_shutdown, call_waker. rewrite Hem.
  assert (Hpush : len (array_push (event_tx r2) RuntimeEvent.ReactorShutdown).1 <= RUNTIME_CHANNEL_CAPACITY).
  { unfold array_push. destruct (_ <? _) eqn:Ep; bool_to_prop; [|done].
    cbn [fst]. rewrite len_app. unfold len at 2. cbn [length]. lia. }
  rewrite <- Hw. destruct events as [|ev evs]; cbn in Hem |- *; rewrite ?app_nil_r in Hq.
  - split_and!; [by destruct go..|]. exists []. rewrite app_nil_r, <- Hq. by split; intros ->.
  - split_and!; [by destruct go..|]. exists (ev :: evs). rewrite <- Hq. by split; intros ->.
Qed.

(** ** Sending *)

Lemma send_segments_all socket address segment_size fuel : forall data sent,
  0 < segment_size -> (length data <= fuel)%nat ->
  exists datagrams, send_segments fuel socket address segment_size data sent
      = Some (sent ++ ((fun chunk => (socket, address, chunk)) <$> datagrams))
    /\ concat datagrams = data
    /\ Forall (fun chunk => 0 < len chunk <= segment_size) datagrams.
Proof.
  induction fuel as [|fuel IH]; intros data sent Hseg Hlen;
    (destruct data as [|x data]; [exists []; cbn; by rewrite app_nil_r|]); [cbn in Hlen; lia|].
  cbn [send_segments]. set (n := Z.to_nat (Z.min segment_size (len (x :: data)))).
  assert (Hn : (0 < n)%nat /\ Z.of_nat n <= segment_size /\ (n <= length (x :: data))%nat)
    by (unfold n, len; cbn [length]; lia).
  destruct (IH (drop n (x :: data)) (sent ++ [(socket, address, take n (x :: data))])) as (ds & Hs & Hc & Hf);
    [done|rewrite length_drop; lia|].
  exists (take n (x :: data) :: ds). split_and!.
  - rewrite Hs, <- app_assoc. done.
  - change (concat (take n (x :: data) :: ds)) with (take n (x :: data) ++ concat ds). rewrite Hc.
    apply take_drop.
  - constructor; [|done]. unfold len. rewrite length_take. lia.
Qed.

(** A transmit leaves the host whole.  The bytes QUIC wrote are sent in order to its
    destination, from the socket of the address family if there is one, cut into
    datagrams that are not empty and no longer than the segment size. *)
Theorem reactor_sends_whole_transmit fuel r transmit socket :
  0 < default (QuicTransmit.size transmit) (QuicTransmit.segment_size transmit) ->
  QuicTransmit.size transmit <= len (TransportEndpoint.transmit_workspace (endpoint r)) ->
  target_socket r (QuicTransmit.destination transmit) = Some socket ->
  (Z.to_nat (QuicTransmit.size transmit) <= fuel)%nat ->
  exists datagrams,
    send_transmit fuel r transmit = Some (r <| sent := sent r
      ++ ((fun chunk => (socket, QuicTransmit.destination transmit, chunk)) <$> datagrams) |>)
    /\ concat datagrams = take (Z.to_nat (QuicTransmit.size transmit))
         (TransportEndpoint.transmit_workspace (endpoint r))
    /\ Forall (fun chunk => 0 < len chunk
         <= default (QuicTransmit.size transmit) (QuicTransmit.segment_size transmit)) datagrams.
Proof.
  intros Hseg Hsize Hsock Hfuel. unfold send_transmit. rewrite (proj2 (Z.leb_le _ _) Hsize), Hsock.
  destruct (send_segments_all socket (QuicTransmit.destination transmit) _ fuel
    (take (Z.to_nat (QuicTransmit.size transmit)) (TransportEndpoint.transmit_workspace (endpoint r)))
    (sent r) Hseg) as (datagrams & Hs & Hc & Hf); [rewrite length_take; lia|].
  exists datagrams. rewrite Hs. done.
Qed.

(** ** Commands *)

(** Every command to connect is answered.  While the queue has room, it adds exactly
    one event: that the command failed, or that the connection exists, and then the
    engine of that connection holds the request. *)
Theorem reactor_answers_connect fuel r request_id address name now_instant r' continues :
  len (event_tx r) < RUNTIME_CHANNEL_CAPACITY ->
  handle_command fuel r (RuntimeCommand.CreateConnection request_id address name) now_instant
    = Some (r', continues) ->
  continues = true /\ exists event, event_tx r' = event_tx r ++ [event]
    /\ match event with
       | RuntimeEvent.CommandFailed failed_id _ _ => failed_id = request_id
       | RuntimeEvent.ConnectionSpawned handle _ effects => effects = [] /\ exists c,
           TransportEndpoint.connections (endpoint r') !! handle = Some c
           /\ Connection.request_id (WebTransportEngine.connection (TransportConnection.engine c))
              = Some request_id
       | _ => False
       end.
Proof.
  intros Hroom Hb. apply bind_Some in Hb as ([en ev] & Hc & Hb).
  apply bind_Some in Hb as (r1 & Hx & [= <- <-]). split; [done|].
  assert (Hemit : forall event, emit (r <| endpoint := en |>) event
    = r <| endpoint := en |> <| event_tx := event_tx r ++ [event] |> <| events_emitted := true |>).
  { intros event. unfold emit, array_push. cbn. by rewrite (proj2 (Z.ltb_lt _ _) Hroom). }
  apply EndpointP.connect_event in Hc as [(code & reason & ->)|(handle & addr & -> & c & Hl & Hreq)].
  - injection Hx as <-. rewrite Hemit. cbn. by eexists.
  - injection Hx as <-. rewrite Hemit. cbn. eexists. split; [done|]. split; [done|]. by exists c.
Qed.

(** ** Replies without a connection *)

(** The call into QUIC for a datagram. *)
Definition answer (e : TransportEndpoint.t) (d : Received.t) :=
  quic_handle (TransportEndpoint.endpoint e) (Received.received_at d) (Received.remote_address d)
    (SocketAddr.ip <$> Received.local_address d) (Received.data d)
    (TransportEndpoint.transmit_workspace e).

(** One datagram of [size] bytes from the front of the workspace. *)
Definition whole (destination : SocketAddr.t) (size : Z) : QuicTransmit.t :=
  QuicTransmit.mk destination size None.

Lemma reply_sent fuel r d endpoint' workspace destination socket :
  answer (endpoint r) d
    = (endpoint', workspace, Some (QuicDatagramEvent.Response (whole destination (len workspace)))) ->
  workspace <> [] -> target_socket r destination = Some socket -> (0 < fuel)%nat ->
  handle_datagram fuel r d
  = Some (r <| endpoint := (endpoint r) <| TransportEndpoint.endpoint := endpoint' |>
                             <| TransportEndpoint.transmit_workspace := workspace |> |>
            <| sent := sent r ++ [(socket, destination, workspace)] |>).
Proof.
  intros Ha Hne Hs Hf. unfold handle_datagram, TransportEndpoint.handle_datagram.
  unfold answer in Ha. rewrite Ha. cbn. unfold send_transmit. cbn.
  rewrite Z.leb_refl. unfold target_socket in *. cbn in *. rewrite Hs.
  assert (Hlen : Z.to_nat (len workspace) = length workspace) by apply Nat2Z.id.
  rewrite Hlen, take_ge by done.
  destruct workspace as [|x workspace]; [done|]. destruct fuel as [|fuel]; [lia|].
  cbn [send_segments]. rewrite Z.min_id, Hlen, drop_ge, take_ge by done. by destruct fuel.
Qed.

(** C40: two replies in one batch run together.  The endpoint clears its workspace only
    when it polls for transmits; between the datagrams of a batch it hands QUIC the
    workspace as the last reply left it.  When QUIC answers two of them by appending
    to the workspace, the second reply is sent with the first in front of it. *)
Theorem reactor_replies_run_together fuel r d1 d2 endpoint1 endpoint2 reply1 reply2 address1 address2
    socket1 socket2 r' :
  reply1 <> [] -> (0 < fuel)%nat ->
  target_socket r address1 = Some socket1 -> target_socket r address2 = Some socket2 ->
  answer (endpoint r) d1
    = (endpoint1, reply1, Some (QuicDatagramEvent.Response (whole address1 (len reply1)))) ->
  answer ((endpoint r) <| TransportEndpoint.endpoint := endpoint1 |>
            <| TransportEndpoint.transmit_workspace := reply1 |>) d2
    = (endpoint2, reply1 ++ reply2,
       Some (QuicDatagramEvent.Response (whole address2 (len (reply1 ++ reply2))))) ->
  handle_datagrams fuel r [d1; d2] = Some r' ->
  sent r' = sent r ++ [(socket1, address1, reply1); (socket2, address2, reply1 ++ reply2)].
Proof.
  intros Hne Hf Hs1 Hs2 Ha1 Ha2. cbn [handle_datagrams].
  rewrite (reply_sent _ _ _ _ _ _ _ Ha1 Hne Hs1 Hf). cbn [mbind option_bind].
  rewrite (reply_sent _ _ _ endpoint2 (reply1 ++ reply2) address2 socket2); [|exact Ha2| |exact Hs2|done].
  - cbn. intros [= <-]. cbn. by rewrite <- app_assoc.
  - by destruct reply1.
Qed.

End ReactorT.

(** ** An example

    The client of the endpoint's example behind one socket. *)

Import Literal Pipe.

Definition example_reactor : Reactor.t :=
  Reactor.new EndpointT.example_new [] [BoundSocket.mk true 7] 0.

Definition example_connect : Reactor.wake_up :=
  Reactor.Command (Some (RuntimeCommand.CreateConnection 1 (SocketAddr.V4 1 443) (b: "localhost"))).

Lemma reactor_wakes_user_witness : exists r' continues,
  Reactor.turn 16 example_reactor example_connect 0 1 = Some (r', continues)
  /\ len (Reactor.event_tx r') <= RUNTIME_CHANNEL_CAPACITY.
Proof.
  destruct (succeeds_some (Reactor.turn 16 example_reactor example_connect 0 1))
    as [[r' continues] Ht]; [vm_compute; reflexivity|].
  exists r', continues. split; [exact Ht|].
  apply (reactor_wakes_user 16 EndpointT.example_config example_reactor example_connect 0 1 r' continues);
    [reflexivity|vm_compute; congruence| |exact Ht].
  by eapply (@EndpointT.reachable_client _ _ pipe_endpoint _ (1, []) ()).
Defined.

(** A transmit of five bytes in segments of two. *)
Definition example_workspace : Reactor.t :=
  example_reactor <| Reactor.endpoint := EndpointT.example_new
    <| TransportEndpoint.transmit_workspace := b: "12345678" |> |>.

Lemma reactor_sends_whole_transmit_witness : exists datagrams,
  concat datagrams = b: "12345" /\ Forall (fun chunk => 0 < len chunk <= 2) datagrams.
Proof.
  destruct (reactor_sends_whole_transmit 5 example_workspace
    (QuicTransmit.mk (SocketAddr.V4 1 443) 5 (Some 2)) 7) as (datagrams & _ & Hc & Hf);
    [cbn; lia|vm_compute; congruence|reflexivity|cbn; lia|].
  exists datagrams. split; [exact Hc|exact Hf].
Defined.

Lemma reactor_answers_connect_witness : exists r' continues,
  Reactor.handle_command 16 example_reactor
    (RuntimeCommand.CreateConnection 1 (SocketAddr.V4 1 443) (b: "localhost")) 0
    = Some (r', continues) /\ continues = true.
Proof.
  destruct (succeeds_some (Reactor.handle_command 16 example_reactor
    (RuntimeCommand.CreateConnection 1 (SocketAddr.V4 1 443) (b: "localhost")) 0))
    as [[r' continues] Hc]; [vm_compute; reflexivity|].
  exists r', continues. split; [exact Hc|].
  apply (reactor_answers_connect 16 example_reactor 1 (SocketAddr.V4 1 443) (b: "localhost") 0 r' continues);
    [vm_compute; reflexivity|exact Hc].
Defined.

(** Two datagrams for connections the endpoint does not know. *)
Definition example_stray (payload : bytes) : Received.t :=
  Received.mk (SocketAddr.V4 1 443) None ([x09; x00] ++ payload) 0.

Lemma reactor_replies_run_together_witness : exists r',
  Reactor.handle_datagrams 16 example_reactor [example_stray [xaa]; example_stray [xbb]] = Some r'
  /\ Reactor.sent r' = [(7, SocketAddr.V4 1 443, [x09; x00; xaa]);
                        (7, SocketAddr.V4 1 443, [x09; x00; xaa; x09; x00; xbb])].
Proof.
  destruct (succeeds_some (Reactor.handle_datagrams 16 example_reactor
    [example_stray [xaa]; example_stray [xbb]])) as [r' Hh]; [vm_compute; reflexivity|].
  exists r'. split; [exact Hh|].
  apply (reactor_replies_run_together 16 example_reactor (example_stray [xaa]) (example_stray [xbb])
    (1, []) (1, []) [x09; x00; xaa] [x09; x00; xbb] (SocketAddr.V4 1 443) (SocketAddr.V4 1 443) 7 7 r');
    [discriminate|lia|reflexivity..|exact Hh].
Defined.

End ReactorT.
