(* ===== verification/Pyo3.v ===== *)
(** * Python objects and PyO3

    The values that cross between the crate and the Python package, and the entry
    points of PyO3 the crate calls on them.  PyO3 is outside the repository: its
    conversions from Python are the fields of the class [PyO3], with what its
    documentation promises as laws.  [Builtin] is an instance, on the built-in types
    of Python only. *)

From S2P Require Import Prelude.
From S2P Require Import Types.

(** An exception: the name of its class, its message and, for the exceptions of the
    package, the [error_code] attribute. *)
Module PyException.
Record t : Set := mk {
  class : str;
  message : str;
  error_code : option ErrorCode;
}.
#[export] Instance PyException_eq_dec : EqDecision t.
Proof. solve_decision. Defined.
End PyException.
Export (hints) PyException.

(** [PyErr], the error of every call into Python. *)
Notation PyErr := PyException.t (only parsing).

Definition PyValueError (message : str) : PyErr :=
  PyException.mk (b: "ValueError") message None.
Definition PyRuntimeError (message : str) : PyErr :=
  PyException.mk (b: "RuntimeError") message None.

Module PyObject.
Inductive t : Type :=
| PyNone
| PyBool (value : bool)
| PyInt (value : Z)
| PyFloat (value : f64)
| PyStr (value : str)
| PyBytes (value : bytes)
| PyByteArray (value : bytes)
| PyMemoryView (value : bytes)
| PyTuple (items : list t)
| PyList (items : list t)
(** In the order of insertion. *)
| PyDict (items : list (t * t))
| PyException (exception : PyException.t).
End PyObject.
Export (hints) PyObject.
Import PyObject.

(** ** From Rust to Python

    The trait [IntoPyObject], for the types whose conversion cannot fail. *)

Class IntoPyObject (A : Type) := into_pyobject : A -> PyObject.t.

#[export] Instance into_int : IntoPyObject Z := PyInt.
#[export] Instance into_bool : IntoPyObject bool := PyBool.
#[export] Instance into_float : IntoPyObject f64 := PyFloat.
#[export] Instance into_option `{IntoPyObject A} : IntoPyObject (option A) :=
  fun o => match o with Some a => into_pyobject a | None => PyNone end.

(** A [String] is the same list of bytes as a [Vec<u8>], so it has no instance. *)
Definition into_str (s : str) : PyObject.t := PyStr s.
Definition into_option_str (o : option str) : PyObject.t :=
  match o with Some s => PyStr s | None => PyNone end.
Definition into_option_strs (o : option (list str)) : PyObject.t :=
  match o with Some l => PyList (PyStr <$> l) | None => PyNone end.

(** [PyDict::new] and its [set_item]s, on keys that are all different. *)
Definition py_dict (items : list (str * PyObject.t)) : PyObject.t :=
  PyDict ((fun '(key, value) => (PyStr key, value)) <$> items).

(** ** From Python to Rust *)

(** The ranges of the integer types. *)
Notation u8_range := (0, 255) (only parsing).
Notation u16_range := (0, 65535) (only parsing).
Notation u32_range := (0, 4294967295) (only parsing).
Notation u64_range := (0, 18446744073709551615) (only parsing).
Notation i32_range := (-2147483648, 2147483647) (only parsing).

(** Neither infinite nor NaN. *)
Definition is_finite (f : f64) : bool :=
  match f with S754_zero _ | S754_finite _ _ _ => true | _ => false end.

Definition fits (range : Z * Z) (z : Z) : bool := (range.1 <=? z) && (z <=? range.2).

Class PyO3 := {
  (** [extract] to an integer type, a [bool], an [f64] and a [String]. *)
  extract_int : Z * Z -> PyObject.t -> result Z PyErr;
  extract_bool : PyObject.t -> result bool PyErr;
  extract_f64 : PyObject.t -> result f64 PyErr;
  extract_string : PyObject.t -> result str PyErr;
  (** [extract] to [Option<T>] and [Vec<T>], from that to [T]. *)
  extract_option : forall {T : Type}, (PyObject.t -> result T PyErr) ->
    PyObject.t -> result (option T) PyErr;
  extract_vec : forall {T : Type}, (PyObject.t -> result T PyErr) ->
    PyObject.t -> result (list T) PyErr;
  (** [extract] to [PyBuffer<u8>], with its [to_vec]. *)
  extract_buffer : PyObject.t -> result bytes PyErr;
  (** [extract] to [Bound<PyTuple>], [Bound<PyList>], [Bound<PyDict>]; the items. *)
  extract_tuple : PyObject.t -> result (list PyObject.t) PyErr;
  extract_list : PyObject.t -> result (list PyObject.t) PyErr;
  extract_dict : PyObject.t -> result (list (PyObject.t * PyObject.t)) PyErr;
  (** The [IndexError] of [PyTuple::get_item] and the [Display] text of an error. *)
  index_error : PyErr;
  py_err_text : PyErr -> str;
}.

(** [extract] of every element, the first error wins. *)
Fixpoint extract_all {T} (extract : PyObject.t -> result T PyErr) (items : list PyObject.t)
    : result (list T) PyErr :=
  match items with
  | [] => Ok []
  | item :: rest =>
      let? t := extract item in
      let? ts := extract_all extract rest in
      Ok (t :: ts)
  end.

(** What the guide of PyO3 says of conversions: an integer is taken when it is in the
    range of the type and is an error otherwise, and of the objects here only integers
    and booleans are integers; a float takes an integer it can hold, rounded; [None] is [None] of an [Option] and
    anything else its contents; a [Vec] takes the elements of a list or tuple one by
    one; bytes-like objects give a buffer and strings do not; and a cast to a container
    class takes exactly the objects of that class. *)
Class PyO3Laws `{PyO3} := {
  extract_int_law range z :
    if fits range z then extract_int range (PyInt z) = Ok z
    else exists e, extract_int range (PyInt z) = Err e;
  extract_int_only range o z : extract_int range o = Ok z ->
    match o with PyInt w => w = z | PyBool value => Z.b2z value = z | _ => False end;
  extract_bool_law b : extract_bool (PyBool b) = Ok b;
  extract_f64_law f : extract_f64 (PyFloat f) = Ok f;
  extract_f64_int z : is_finite (f64_of_Z z) = true -> extract_f64 (PyInt z) = Ok (f64_of_Z z);
  extract_string_law s : extract_string (PyStr s) = Ok s;
  extract_option_none {T} (f : PyObject.t -> result T PyErr) : extract_option f PyNone = Ok None;
  extract_option_some {T} (f : PyObject.t -> result T PyErr) o : o <> PyNone ->
    extract_option f o = (let? t := f o in Ok (Some t));
  extract_vec_list {T} (f : PyObject.t -> result T PyErr) items :
    extract_vec f (PyList items) = extract_all f items;
  extract_vec_tuple {T} (f : PyObject.t -> result T PyErr) items :
    extract_vec f (PyTuple items) = extract_all f items;
  extract_buffer_bytes data : extract_buffer (PyBytes data) = Ok data;
  extract_buffer_bytearray data : extract_buffer (PyByteArray data) = Ok data;
  extract_buffer_memoryview data : extract_buffer (PyMemoryView data) = Ok data;
  extract_buffer_str s : exists e, extract_buffer (PyStr s) = Err e;
  extract_tuple_law items : extract_tuple (PyTuple items) = Ok items;
  extract_list_law items : extract_list (PyList items) = Ok items;
  extract_list_dict items : exists e, extract_list (PyDict items) = Err e;
  extract_dict_law items : extract_dict (PyDict items) = Ok items;
  extract_dict_list items : exists e, extract_dict (PyList items) = Err e;
}.

(** ** An instance *)

Module Builtin.

Definition type_error : PyErr := PyException.mk (b: "TypeError") (b: "type") None.
Definition overflow_error : PyErr := PyException.mk (b: "OverflowError") (b: "range") None.

#[export] Instance builtin : PyO3 := {|
  extract_int range o :=
    match o with
    | PyInt z => if fits range z then Ok z else Err overflow_error
    | PyBool b => Ok (Z.b2z b)
    | _ => Err type_error
    end;
  extract_bool o := match o with PyBool b => Ok b | _ => Err type_error end;
  extract_f64 o :=
    match o with
    | PyFloat f => Ok f
    | PyInt z => if is_finite (f64_of_Z z) then Ok (f64_of_Z z) else Err overflow_error
    | _ => Err type_error
    end;
  extract_string o := match o with PyStr s => Ok s | _ => Err type_error end;
  extract_option _ f o := match o with PyNone => Ok None | _ => let? t := f o in Ok (Some t) end;
  extract_vec _ f o :=
    match o with
    | PyList items | PyTuple items => extract_all f items
    | _ => Err type_error
    end;
  extract_buffer o :=
    match o with
    | PyBytes data | PyByteArray data | PyMemoryView data => Ok data
    | _ => Err type_error
    end;
  extract_tuple o := match o with PyTuple items => Ok items | _ => Err type_error end;
  extract_list o := match o with PyList items => Ok items | _ => Err type_error end;
  extract_dict o := match o with PyDict items => Ok items | _ => Err type_error end;
  index_error := PyException.mk (b: "IndexError") (b: "tuple index out of range") None;
  py_err_text e := PyException.class e ++ b: ": " ++ PyException.message e;
|}.

#[export] Instance builtin_laws : PyO3Laws.
Proof.
  split; try done; try (intros; by eexists).
  - intros range z. cbn. destruct (fits range z); [done|by eexists].
  - intros range [] z; cbn; try done; [by intros [= <-]|]. destruct (fits _ _); [by intros [= <-]|done].
  - intros z Hz. cbn. by rewrite Hz.
  - intros T f o Ho. by destruct o.
Qed.

End Builtin.
