(* ===== verification/FfiConversion.v ===== *)
(** * Conversion between Rust and Python

    [crates/src/ffi/types.rs], [ffi/error.rs], [ffi/abi.rs] and [ffi/conversion.rs]:
    the effects and runtime events of the crate as Python tuples of an opcode and a
    payload, and the events of the user read back from such tuples. *)

From S2P Require Import Prelude.
From S2P Require Import Types.
From S2P Require Import Events.
From S2P Require Import Qpack.
From S2P Require Import Quinn.
From S2P Require Import TransportMachine.
From S2P Require Import EndpointMachine.
From S2P Require Import ReactorMachine.
From S2P Require Import Pyo3.
Import PyObject.

(** ** States and event types ([types.rs]) *)

Definition connection_state_to_py (s : ConnectionState.t) : PyObject.t :=
  into_str match s with
  | ConnectionState.Closed => b: "closed"
  | ConnectionState.Closing => b: "closing"
  | ConnectionState.Connected => b: "connected"
  | ConnectionState.Connecting => b: "connecting"
  | ConnectionState.Idle => b: "idle"
  end.
#[export] Instance into_connection_state : IntoPyObject ConnectionState.t := connection_state_to_py.

Definition event_type_to_py (e : EventType.t) : PyObject.t :=
  into_str match e with
  | EventType.ConnectionClosed => b: "connection_closed"
  | EventType.ConnectionEstablished => b: "connection_established"
  | EventType.SessionClosed => b: "session_closed"
  | EventType.SessionDataBlocked => b: "session_data_blocked"
  | EventType.SessionDraining => b: "session_draining"
  | EventType.SessionMaxDataUpdated => b: "session_max_data_updated"
  | EventType.SessionMaxStreamsBidiUpdated => b: "session_max_streams_bidi_updated"
  | EventType.SessionMaxStreamsUniUpdated => b: "session_max_streams_uni_updated"
  | EventType.SessionPending => b: "session_pending"
  | EventType.SessionReady => b: "session_ready"
  | EventType.SessionRequestReceived => b: "session_request_received"
  | EventType.SessionStreamsBlocked => b: "session_streams_blocked"
  | EventType.StreamClosed => b: "stream_closed"
  | EventType.StreamOpened => b: "stream_opened"
  | EventType.StreamResetReceived => b: "stream_reset_received"
  | EventType.StreamStopSendingReceived => b: "stream_stop_sending_received"
  end.
#[export] Instance into_event_type : IntoPyObject EventType.t := event_type_to_py.

Definition session_state_to_py (s : SessionState.t) : PyObject.t :=
  into_str match s with
  | SessionState.Closed => b: "closed"
  | SessionState.Closing => b: "closing"
  | SessionState.Connected => b: "connected"
  | SessionState.Connecting => b: "connecting"
  | SessionState.Draining => b: "draining"
  end.
#[export] Instance into_session_state : IntoPyObject SessionState.t := session_state_to_py.

Definition stream_direction_to_py (d : StreamDirection.t) : PyObject.t :=
  into_str match d with
  | StreamDirection.Bidirectional => b: "bidirectional"
  | StreamDirection.ReceiveOnly => b: "receive_only"
  | StreamDirection.SendOnly => b: "send_only"
  end.
#[export] Instance into_stream_direction : IntoPyObject StreamDirection.t := stream_direction_to_py.

Definition stream_receive_state_to_py (s : StreamReceiveState.t) : PyObject.t :=
  into_str match s with
  | StreamReceiveState.DataRead => b: "data_read"
  | StreamReceiveState.DataReceived => b: "data_received"
  | StreamReceiveState.Receive => b: "receive"
  | StreamReceiveState.ResetRead => b: "reset_read"
  end.
#[export] Instance into_receive_state : IntoPyObject StreamReceiveState.t := stream_receive_state_to_py.

Definition stream_send_state_to_py (s : StreamSendState.t) : PyObject.t :=
  into_str match s with
  | StreamSendState.DataReceived => b: "data_received"
  | StreamSendState.DataSent => b: "data_sent"
  | StreamSendState.Ready => b: "ready"
  | StreamSendState.ResetSent => b: "reset_sent"
  end.
#[export] Instance into_send_state : IntoPyObject StreamSendState.t := stream_send_state_to_py.

(** ** Opcodes ([abi.rs]) *)

(** The constants by name; [abi] is the value of each. *)
Module Opcode.
Inductive t : Set :=
| COMMAND_FAILED
| CONNECTION_EFFECTS
| CONNECTION_SPAWNED
| REACTOR_SHUTDOWN
| EMIT_CONNECTION_EVENT
| EMIT_SESSION_EVENT
| EMIT_STREAM_EVENT
| NOTIFY_REQUEST_DONE
| NOTIFY_REQUEST_FAILED
| USER_ACCEPT_SESSION
| USER_CLOSE_CONNECTION
| USER_CLOSE_CONNECTION_GRACEFULLY
| USER_CLOSE_SESSION
| USER_CREATE_SESSION
| USER_CREATE_SESSION_OPTIMISTIC
| USER_CREATE_STREAM
| USER_DIAGNOSE_CONNECTION
| USER_DIAGNOSE_SESSION
| USER_DIAGNOSE_STREAM
| USER_EXPORT_KEYING_MATERIAL
| USER_READ_DATAGRAM
| USER_READ_STREAM
| USER_REJECT_SESSION
| USER_RESET_STREAM
| USER_SEND_DATAGRAM
| USER_STOP_SENDING
| USER_WRITE_STREAM.
End Opcode.
Import Opcode.

Definition abi (opcode : Opcode.t) : Z :=
  match opcode with
  | COMMAND_FAILED => 0x00
  | CONNECTION_EFFECTS => 0x01
  | CONNECTION_SPAWNED => 0x02
  | REACTOR_SHUTDOWN => 0x03
  | EMIT_CONNECTION_EVENT => 0x40
  | EMIT_SESSION_EVENT => 0x41
  | EMIT_STREAM_EVENT => 0x42
  | NOTIFY_REQUEST_DONE => 0x43
  | NOTIFY_REQUEST_FAILED => 0x44
  | USER_ACCEPT_SESSION => 0x80
  | USER_CLOSE_CONNECTION => 0x81
  | USER_CLOSE_CONNECTION_GRACEFULLY => 0x82
  | USER_CLOSE_SESSION => 0x83
  | USER_CREATE_SESSION => 0x84
  | USER_CREATE_SESSION_OPTIMISTIC => 0x85
  | USER_CREATE_STREAM => 0x86
  | USER_DIAGNOSE_CONNECTION => 0x87
  | USER_DIAGNOSE_SESSION => 0x88
  | USER_DIAGNOSE_STREAM => 0x89
  | USER_EXPORT_KEYING_MATERIAL => 0x8a
  | USER_READ_DATAGRAM => 0x8b
  | USER_READ_STREAM => 0x8c
  | USER_REJECT_SESSION => 0x8d
  | USER_RESET_STREAM => 0x8e
  | USER_SEND_DATAGRAM => 0x8f
  | USER_STOP_SENDING => 0x90
  | USER_WRITE_STREAM => 0x91
  end.

(** ** Exceptions ([error.rs]) *)

(** The classes of [pywebtransport.exceptions], from its [exceptions.py]: each has the
    code its instances get when none is given.  The extension module is part of the
    package, so the import and the lookup of a class succeed. *)
Definition default_error_code (class_name : str) : ErrorCode :=
  if bool_decide (class_name ∈ [b: "ClientError"; b: "ConfigurationError"]) then ERR_APP_INVALID_REQUEST
  else if bool_decide (class_name = b: "ProtocolError") then ERR_H3_GENERAL_PROTOCOL_ERROR
  else if bool_decide (class_name = b: "SessionError") then ERR_LIB_SESSION_STATE_ERROR
  else if bool_decide (class_name = b: "StreamError") then ERR_LIB_STREAM_STATE_ERROR
  else if bool_decide (class_name = b: "ServerError") then ERR_APP_SERVICE_UNAVAILABLE
  else if bool_decide (class_name = b: "TimeoutError") then ERR_APP_OPERATION_TIMEOUT
  else ERR_APP_GENERIC_ERROR.

Definition make_kwargs (error_code : option ErrorCode) : list (str * PyObject.t) :=
  match error_code with
  | Some error_code => [(b: "error_code", into_pyobject error_code)]
  | None => []
  end.

(** The call of the class: [error_code] is the only keyword the code passes. *)
Definition instantiate_py_exception (class_name reason : str) (kwargs : list (str * PyObject.t))
    : PyErr :=
  let given :=
    match kwargs with
    | (_, PyInt error_code) :: _ => error_code
    | _ => default_error_code class_name
    end in
  PyException.mk class_name reason (Some given).

Definition create_py_exception (source : ErrorSource.t) (error_code : option ErrorCode)
    (reason : str) : PyErr :=
  let class_name :=
    match source with
    | ErrorSource.Connection => b: "ConnectionError"
    | ErrorSource.Datagram => b: "DatagramError"
    | ErrorSource.Session => b: "SessionError"
    | ErrorSource.Stream => b: "StreamError"
    | ErrorSource.Unspecified => b: "WebTransportError"
    end in
  let kwargs := make_kwargs error_code in
  instantiate_py_exception class_name reason kwargs.

(** [From<WebTransportError> for PyErr]. *)
Definition py_err_from (error : WebTransportError.t) : PyErr :=
  let '(class_name, error_code, reason) :=
    match error with
    | WebTransportError.Configuration error_code reason =>
        (b: "ConfigurationError", error_code, reason)
    | WebTransportError.Protocol error_code reason => (b: "ProtocolError", error_code, reason)
    | WebTransportError.Stream _ error_code reason => (b: "StreamError", error_code, reason)
    | WebTransportError.Unknown error_code reason => (b: "WebTransportError", error_code, reason)
    end in
  instantiate_py_exception class_name reason (make_kwargs error_code).

(** ** To Python ([conversion.rs]) *)

(** The outer tuple every conversion returns. *)
Definition tagged (opcode : Opcode.t) (payload : list PyObject.t) : PyObject.t :=
  PyTuple [into_pyobject (abi opcode); PyTuple payload].

Definition headers_to_py (headers : Headers) : PyObject.t :=
  PyList ((fun '(key, value) => PyTuple [PyBytes key; PyBytes value]) <$> headers).

Definition connection_diagnostics_to_py (d : ConnectionDiagnostics.t) : PyObject.t :=
  py_dict [
    (b: "close_code", into_pyobject (ConnectionDiagnostics.close_code d));
    (b: "close_reason", into_option_str (ConnectionDiagnostics.close_reason d));
    (b: "closed_at", into_pyobject (ConnectionDiagnostics.closed_at d));
    (b: "connected_at", into_pyobject (ConnectionDiagnostics.connected_at d));
    (b: "connection_handle", into_pyobject (ConnectionDiagnostics.connection_handle d));
    (b: "handshake_completed", into_pyobject (ConnectionDiagnostics.handshake_completed d));
    (b: "is_client", into_pyobject (ConnectionDiagnostics.is_client d));
    (b: "local_goaway_sent", into_pyobject (ConnectionDiagnostics.local_goaway_sent d));
    (b: "peer_goaway_received", into_pyobject (ConnectionDiagnostics.peer_goaway_received d));
    (b: "peer_initial_max_data", into_pyobject (ConnectionDiagnostics.peer_initial_max_data d));
    (b: "peer_initial_max_streams_bidi",
      into_pyobject (ConnectionDiagnostics.peer_initial_max_streams_bidi d));
    (b: "peer_initial_max_streams_uni",
      into_pyobject (ConnectionDiagnostics.peer_initial_max_streams_uni d));
    (b: "peer_max_datagram_frame_size",
      into_pyobject (ConnectionDiagnostics.peer_max_datagram_frame_size d));
    (b: "peer_settings_received", into_pyobject (ConnectionDiagnostics.peer_settings_received d));
    (b: "state", into_pyobject (ConnectionDiagnostics.state d))].

Definition session_diagnostics_to_py (d : SessionDiagnostics.t) : PyObject.t :=
  py_dict [
    (b: "close_code", into_pyobject (SessionDiagnostics.close_code d));
    (b: "close_reason", into_option_str (SessionDiagnostics.close_reason d));
    (b: "closed_at", into_pyobject (SessionDiagnostics.closed_at d));
    (b: "created_at", into_pyobject (SessionDiagnostics.created_at d));
    (b: "data_consumed", into_pyobject (SessionDiagnostics.data_consumed d));
    (b: "data_received", into_pyobject (SessionDiagnostics.data_received d));
    (b: "data_sent", into_pyobject (SessionDiagnostics.data_sent d));
    (b: "flow_control_negotiated",
      into_pyobject (SessionDiagnostics.flow_control_negotiated d));
    (b: "headers", headers_to_py (SessionDiagnostics.headers d));
    (b: "is_client", into_pyobject (SessionDiagnostics.is_client d));
    (b: "local_max_data", into_pyobject (SessionDiagnostics.local_max_data d));
    (b: "local_max_streams_bidi", into_pyobject (SessionDiagnostics.local_max_streams_bidi d));
    (b: "local_max_streams_uni", into_pyobject (SessionDiagnostics.local_max_streams_uni d));
    (b: "local_streams_bidi_opened",
      into_pyobject (SessionDiagnostics.local_streams_bidi_opened d));
    (b: "local_streams_uni_opened",
      into_pyobject (SessionDiagnostics.local_streams_uni_opened d));
    (b: "path", into_str (SessionDiagnostics.path d));
    (b: "peer_max_data", into_pyobject (SessionDiagnostics.peer_max_data d));
    (b: "peer_max_streams_bidi", into_pyobject (SessionDiagnostics.peer_max_streams_bidi d));
    (b: "peer_max_streams_uni", into_pyobject (SessionDiagnostics.peer_max_streams_uni d));
    (b: "peer_streams_bidi_closed",
      into_pyobject (SessionDiagnostics.peer_streams_bidi_closed d));
    (b: "peer_streams_bidi_opened",
      into_pyobject (SessionDiagnostics.peer_streams_bidi_opened d));
    (b: "peer_streams_uni_closed",
      into_pyobject (SessionDiagnostics.peer_streams_uni_closed d));
    (b: "peer_streams_uni_opened",
      into_pyobject (SessionDiagnostics.peer_streams_uni_opened d));
    (b: "ready_at", into_pyobject (SessionDiagnostics.ready_at d));
    (b: "session_id", into_pyobject (SessionDiagnostics.session_id d));
    (b: "state", into_pyobject (SessionDiagnostics.state d));
    (b: "wt_available_protocols",
      into_option_strs (SessionDiagnostics.wt_available_protocols d));
    (b: "wt_protocol", into_option_str (SessionDiagnostics.wt_protocol d))].

Definition stream_diagnostics_to_py (d : StreamDiagnostics.t) : PyObject.t :=
  py_dict [
    (b: "created_at", into_pyobject (StreamDiagnostics.created_at d));
    (b: "direction", into_pyobject (StreamDiagnostics.direction d));
    (b: "is_peer_initiated", into_pyobject (StreamDiagnostics.is_peer_initiated d));
    (b: "receive_error_code", into_pyobject (StreamDiagnostics.receive_error_code d));
    (b: "receive_state", into_pyobject (StreamDiagnostics.receive_state d));
    (b: "send_error_code", into_pyobject (StreamDiagnostics.send_error_code d));
    (b: "send_state", into_pyobject (StreamDiagnostics.send_state d));
    (b: "session_id", into_pyobject (StreamDiagnostics.session_id d));
    (b: "stream_id", into_pyobject (StreamDiagnostics.stream_id d))].

(** The result of a request, as the user sees it. *)
Definition request_result_to_py (result : RequestResult.t) : PyObject.t :=
  match result with
  | RequestResult.ConnectionDiagnostics diagnostics => connection_diagnostics_to_py diagnostics
  | RequestResult.ConnectionHandle handle => into_pyobject handle
  | RequestResult.Datagram data
  | RequestResult.KeyingMaterial data
  | RequestResult.ReadData data => PyBytes data
  | RequestResult.None => PyNone
  | RequestResult.SessionDiagnostics diagnostics => session_diagnostics_to_py diagnostics
  | RequestResult.SessionId session_id => into_pyobject session_id
  | RequestResult.StreamId stream_id => into_pyobject stream_id
  | RequestResult.StreamDiagnostics diagnostics => stream_diagnostics_to_py diagnostics
  end.

(** [IntoPyObject for Effect]: only the effects meant for the user have a form. *)
Definition effect_into_py (effect : Effect.t) : result PyObject.t PyErr :=
  match effect with
  | Effect.EmitConnectionEvent connection_handle event_type error_code reason =>
      Ok (tagged EMIT_CONNECTION_EVENT
            [into_pyobject connection_handle; into_pyobject event_type; into_pyobject error_code;
             into_option_str reason])
  | Effect.EmitSessionEvent session_id event_type path headers wt_available_protocols wt_protocol
      data is_unidirectional max_data max_streams ready_at status_code error_code reason =>
      let headers := match headers with Some headers => headers_to_py headers | None => PyNone end in
      let data := match data with Some data => PyBytes data | None => PyNone end in
      Ok (tagged EMIT_SESSION_EVENT
            [into_pyobject session_id; into_pyobject event_type; into_option_str path; headers;
             into_option_strs wt_available_protocols; into_option_str wt_protocol; data;
             into_pyobject is_unidirectional; into_pyobject max_data; into_pyobject max_streams;
             into_pyobject ready_at; into_pyobject status_code; into_pyobject error_code;
             into_option_str reason])
  | Effect.EmitStreamEvent stream_id event_type session_id direction is_peer_initiated error_code =>
      Ok (tagged EMIT_STREAM_EVENT
            [into_pyobject stream_id; into_pyobject event_type; into_pyobject session_id;
             into_pyobject direction; into_pyobject is_peer_initiated; into_pyobject error_code])
  | Effect.NotifyRequestDone request_id result =>
      Ok (tagged NOTIFY_REQUEST_DONE [into_pyobject request_id; request_result_to_py result])
  | Effect.NotifyRequestFailed request_id source error_code reason =>
      let py_exception := create_py_exception source error_code reason in
      Ok (tagged NOTIFY_REQUEST_FAILED [into_pyobject request_id; PyException py_exception])
  | _ => Err (PyRuntimeError (b: "rt_event convert failed"))
  end.

(** [Vec<Effect>::into_pyobject]: the first effect without a form is the error. *)
Fixpoint effects_into_py (effects : list Effect.t) : result (list PyObject.t) PyErr :=
  match effects with
  | [] => Ok []
  | effect :: rest =>
      let? o := effect_into_py effect in
      let? os := effects_into_py rest in
      Ok (o :: os)
  end.

(** [IpAddr] as text, of the standard library. *)
Class IpText := {
  ip_to_string : IpAddr.t -> str;
  parse_ipv6 : str -> result Z str;
  parse_ip : str -> result IpAddr.t str;
}.

Definition port_of (address : SocketAddr.t) : Z :=
  match address with SocketAddr.V4 _ port | SocketAddr.V6 _ port _ _ => port end.

(** [IntoPyObject for RuntimeEvent]. *)
Definition runtime_event_into_py `{IpText} (event : RuntimeEvent.t) : result PyObject.t PyErr :=
  match event with
  | RuntimeEvent.CommandFailed request_id error_code reason =>
      let py_exception := create_py_exception ErrorSource.Connection error_code reason in
      Ok (tagged COMMAND_FAILED [into_pyobject request_id; PyException py_exception])
  | RuntimeEvent.ConnectionEffects handle effects =>
      let? effects := effects_into_py effects in
      Ok (tagged CONNECTION_EFFECTS [into_pyobject handle; PyList effects])
  | RuntimeEvent.ConnectionSpawned handle remote_address effects =>
      let remote_address :=
        PyTuple [into_str (ip_to_string (SocketAddr.ip remote_address));
                 into_pyobject (port_of remote_address)] in
      let? effects := effects_into_py effects in
      Ok (tagged CONNECTION_SPAWNED [into_pyobject handle; remote_address; PyList effects])
  | RuntimeEvent.ReactorShutdown => Ok (tagged REACTOR_SHUTDOWN [])
  end.

(** ** From Python ([conversion.rs]) *)

Section extract.
Context `{PyO3}.

Definition with_context (context : str) (e : PyErr) : PyErr :=
  PyValueError (context ++ py_err_text e).

(** [map_err] to a [ValueError] that quotes the error. *)
Definition map_err {T} (context : str) (r : result T PyErr) : result T PyErr :=
  match r with Ok t => Ok t | Err e => Err (with_context context e) end.

(** [PyTuple::get_item]. *)
Definition get_item (items : list PyObject.t) (index : nat) : result PyObject.t PyErr :=
  match items !! index with Some item => Ok item | None => Err index_error end.

(** A Python string is modelled by its UTF-8 bytes, so [to_str] does not fail. *)
Definition extract_bytes (object : PyObject.t) : result bytes PyErr :=
  match extract_buffer object with
  | Ok data => Ok data
  | Err _ =>
      match extract_string object with
      | Ok s => Ok s
      | Err _ => Err (PyValueError (b: "mem_buffer convert invalid"))
      end
  end.

Definition process_header_item (key value : PyObject.t) (headers : Headers)
    : result Headers PyErr :=
  let? key := extract_bytes key in
  let? value := extract_bytes value in
  let key := if existsb is_ascii_uppercase key then to_ascii_lowercase <$> key else key in
  Ok (headers ++ [(key, value)]).

Fixpoint headers_of_dict (items : list (PyObject.t * PyObject.t)) (headers : Headers)
    : result Headers PyErr :=
  match items with
  | [] => Ok headers
  | (key, value) :: rest =>
      let? headers := process_header_item key value headers in
      headers_of_dict rest headers
  end.

Fixpoint headers_of_list (items : list PyObject.t) (headers : Headers) : result Headers PyErr :=
  match items with
  | [] => Ok headers
  | item :: rest =>
      let? item := map_err (b: "h3_headers convert invalid err=") (extract_tuple item) in
      match item with
      | [key; value] =>
          let? headers := process_header_item key value headers in
          headers_of_list rest headers
      | _ =>
          Err (PyValueError (b: "h3_headers convert invalid actual="
                             ++ decimal_digits 20 (len item)))
      end
  end.

Definition extract_headers (object : PyObject.t) : result Headers PyErr :=
  match extract_dict object with
  | Ok items => headers_of_dict items []
  | Err _ =>
      match extract_list object with
      | Ok items => headers_of_list items []
      | Err _ => Err (PyValueError (b: "h3_headers convert invalid"))
      end
  end.

(** [payload.get_item(index)?.extract()?] at a type. *)
Definition field {T} (extract : PyObject.t -> result T PyErr) (payload : list PyObject.t)
    (index : nat) : result T PyErr :=
  let? item := get_item payload index in
  extract item.

Definition extract_u64 : PyObject.t -> result Z PyErr := extract_int u64_range.
Definition extract_option_string : PyObject.t -> result (option str) PyErr :=
  extract_option extract_string.
Definition extract_option_strings : PyObject.t -> result (option (list str)) PyErr :=
  extract_option (extract_vec extract_string).

Definition extract_bytes_at_index (payload : list PyObject.t) (index : nat) : result bytes PyErr :=
  let? value := get_item payload index in
  map_err (b: "rt_event convert invalid actual=" ++ decimal_digits 20 (Z.of_nat index)
           ++ b: " err=") (extract_bytes value).

(** The [match opcode] of [FromPyObject for ProtocolEvent]. *)
Definition extract_event (opcode : Z) (payload : list PyObject.t) : result ProtocolEvent.t PyErr :=
  if opcode =? abi USER_ACCEPT_SESSION then
    let? request_id := field extract_u64 payload 0 in
    let? session_id := field extract_u64 payload 1 in
    let? headers := field extract_headers payload 2 in
    let? wt_protocol := field extract_option_string payload 3 in
    Ok (ProtocolEvent.UserAcceptSession request_id session_id headers wt_protocol)
  else if opcode =? abi USER_CLOSE_CONNECTION then
    let? request_id := field extract_u64 payload 0 in
    let? error_code := field extract_u64 payload 1 in
    let? reason := field extract_option_string payload 2 in
    Ok (ProtocolEvent.UserCloseConnection request_id error_code reason)
  else if opcode =? abi USER_CLOSE_CONNECTION_GRACEFULLY then
    let? request_id := field extract_u64 payload 0 in
    Ok (ProtocolEvent.UserCloseConnectionGracefully request_id)
  else if opcode =? abi USER_CLOSE_SESSION then
    let? request_id := field extract_u64 payload 0 in
    let? session_id := field extract_u64 payload 1 in
    let? error_code := field extract_u64 payload 2 in
    let? reason := field extract_option_string payload 3 in
    Ok (ProtocolEvent.UserCloseSession request_id session_id error_code reason)
  else if opcode =? abi USER_CREATE_SESSION then
    let? request_id := field extract_u64 payload 0 in
    let? authority := field extract_string payload 1 in
    let? path := field extract_string payload 2 in
    let? headers := field extract_headers payload 3 in
    let? wt_available_protocols := field extract_option_strings payload 4 in
    Ok (ProtocolEvent.UserCreateSession request_id authority path headers wt_available_protocols)
  else if opcode =? abi USER_CREATE_SESSION_OPTIMISTIC then
    let? request_id := field extract_u64 payload 0 in
    let? authority := field extract_string payload 1 in
    let? path := field extract_string payload 2 in
    let? headers := field extract_headers payload 3 in
    let? wt_available_protocols := field extract_option_strings payload 4 in
    Ok (ProtocolEvent.UserCreateSessionOptimistic request_id authority path headers
          wt_available_protocols)
  else if opcode =? abi USER_CREATE_STREAM then
    let? request_id := field extract_u64 payload 0 in
    let? session_id := field extract_u64 payload 1 in
    let? is_unidirectional := field extract_bool payload 2 in
    Ok (ProtocolEvent.UserCreateStream request_id session_id is_unidirectional)
  else if opcode =? abi USER_DIAGNOSE_CONNECTION then
    let? request_id := field extract_u64 payload 0 in
    Ok (ProtocolEvent.UserDiagnoseConnection request_id)
  else if opcode =? abi USER_DIAGNOSE_SESSION then
    let? request_id := field extract_u64 payload 0 in
    let? session_id := field extract_u64 payload 1 in
    Ok (ProtocolEvent.UserDiagnoseSession request_id session_id)
  else if opcode =? abi USER_DIAGNOSE_STREAM then
    let? request_id := field extract_u64 payload 0 in
    let? stream_id := field extract_u64 payload 1 in
    Ok (ProtocolEvent.UserDiagnoseStream request_id stream_id)
  else if opcode =? abi USER_EXPORT_KEYING_MATERIAL then
    let? request_id := field extract_u64 payload 0 in
    let? session_id := field extract_u64 payload 1 in
    let? label := field extract_string payload 2 in
    let? context := extract_bytes_at_index payload 3 in
    let? length := field (extract_int u32_range) payload 4 in
    Ok (ProtocolEvent.UserExportKeyingMaterial request_id session_id label context length)
  else if opcode =? abi USER_READ_DATAGRAM then
    let? request_id := field extract_u64 payload 0 in
    let? session_id := field extract_u64 payload 1 in
    Ok (ProtocolEvent.UserReadDatagram request_id session_id)
  else if opcode =? abi USER_READ_STREAM then
    let? request_id := field extract_u64 payload 0 in
    let? stream_id := field extract_u64 payload 1 in
    let? max_size := field (extract_option extract_u64) payload 2 in
    Ok (ProtocolEvent.UserReadStream request_id stream_id (default U64_MAX max_size))
  else if opcode =? abi USER_REJECT_SESSION then
    let? request_id := field extract_u64 payload 0 in
    let? session_id := field extract_u64 payload 1 in
    let? headers := field extract_headers payload 2 in
    let? status_code := field (extract_int u16_range) payload 3 in
    Ok (ProtocolEvent.UserRejectSession request_id session_id headers status_code)
  else if opcode =? abi USER_RESET_STREAM then
    let? request_id := field extract_u64 payload 0 in
    let? stream_id := field extract_u64 payload 1 in
    let? error_code := field extract_u64 payload 2 in
    Ok (ProtocolEvent.UserResetStream request_id stream_id error_code)
  else if opcode =? abi USER_SEND_DATAGRAM then
    let? request_id := field extract_u64 payload 0 in
    let? session_id := field extract_u64 payload 1 in
    let? data := extract_bytes_at_index payload 2 in
    Ok (ProtocolEvent.UserSendDatagram request_id session_id data)
  else if opcode =? abi USER_STOP_SENDING then
    let? request_id := field extract_u64 payload 0 in
    let? stream_id := field extract_u64 payload 1 in
    let? error_code := field extract_u64 payload 2 in
    Ok (ProtocolEvent.UserStopSending request_id stream_id error_code)
  else if opcode =? abi USER_WRITE_STREAM then
    let? request_id := field extract_u64 payload 0 in
    let? stream_id := field extract_u64 payload 1 in
    let? data := extract_bytes_at_index payload 2 in
    let? end_stream := field extract_bool payload 3 in
    Ok (ProtocolEvent.UserWriteStream request_id stream_id data end_stream)
  else
    Err (PyValueError (b: "rt_event convert invalid actual=" ++ decimal_digits 20 opcode)).

(** [FromPyObject for ProtocolEvent]. *)
Definition protocol_event_from_py (obj : PyObject.t) : result ProtocolEvent.t PyErr :=
  let? event := map_err (b: "rt_event convert invalid err=") (extract_tuple obj) in
  let? opcode := field (extract_int u8_range) event 0 in
  let? payload := get_item event 1 in
  let? payload := map_err (b: "rt_event convert invalid err=") (extract_tuple payload) in
  extract_event opcode payload.

End extract.
