(* ===== verification/PyConversion.v ===== *)
(** * The Python side of the conversion

    [src/pywebtransport/_controller/events.py], [abi.py] and [conversion.py], the
    enumerations of [types.py] and the diagnostics dataclasses of [connection.py],
    [session.py] and [stream.py]: what the package sends to the crate and how it reads
    what it gets back. *)

From S2P Require Import Prelude.
From S2P Require Import Types.
From S2P Require Import Pyo3.
From S2P Require Import FfiConversion.
Import PyObject Opcode.

(** ** Types ([types.py]) *)

(** [str | bytes]. *)
Module PyText.
Inductive t : Set :=
| Str (value : str)
| Bytes (value : bytes).

Definition to_py (text : t) : PyObject.t :=
  match text with Str value => PyStr value | Bytes value => PyBytes value end.

(** The bytes it stands for. *)
Definition data (text : t) : bytes := match text with Str value | Bytes value => value end.
End PyText.

(** [Headers], a dictionary or a list of pairs. *)
Module PyHeaders.
Inductive t : Set :=
| Dict (items : list (PyText.t * PyText.t))
| Items (items : list (PyText.t * PyText.t)).

Definition items (headers : t) : list (PyText.t * PyText.t) :=
  match headers with Dict items | Items items => items end.

Definition to_py (headers : t) : PyObject.t :=
  match headers with
  | Dict items => PyDict ((fun '(k, v) => (PyText.to_py k, PyText.to_py v)) <$> items)
  | Items items => PyList ((fun '(k, v) => PyTuple [PyText.to_py k; PyText.to_py v]) <$> items)
  end.
End PyHeaders.

(** [Buffer]. *)
Module PyBuffer.
Inductive t : Set :=
| Bytes (value : bytes)
| ByteArray (value : bytes)
| MemoryView (value : bytes).

Definition to_py (buffer : t) : PyObject.t :=
  match buffer with
  | Bytes value => PyBytes value
  | ByteArray value => PyByteArray value
  | MemoryView value => PyMemoryView value
  end.

Definition data (buffer : t) : bytes :=
  match buffer with Bytes value | ByteArray value | MemoryView value => value end.
End PyBuffer.

(** The values of the [StrEnum]s. *)
Definition connection_state_value (s : ConnectionState.t) : str :=
  match s with
  | ConnectionState.Closed => b: "closed"
  | ConnectionState.Closing => b: "closing"
  | ConnectionState.Connected => b: "connected"
  | ConnectionState.Connecting => b: "connecting"
  | ConnectionState.Idle => b: "idle"
  end.

Definition event_type_value (e : EventType.t) : str :=
  match e with
  | EventType.ConnectionClosed => b: "connection_closed"
  | EventType.ConnectionEstablished => b: "connection_established"
  | EventType.SessionClosed => b: "session_closed"
  | EventType.SessionDataBlocked => b: "session_data_blocked"
  | EventType.SessionDraining => b: "session_draining"
  | EventType.SessionMaxDataUpdated => b: "session_max_data_updated"
  | EventType.SessionMaxStreamsBidiUpdated => b: "session_max_streams_bidi_updated"
  | EventType.SessionMaxStreamsUniUpdated => b: "session_max_streams_uni_updated"
  | EventType.SessionPending => b: "session_pending"
  | EventType.SessionReady => b: "session_ready"
  | EventType.SessionRequestReceived => b: "session_request_received"
  | EventType.SessionStreamsBlocked => b: "session_streams_blocked"
  | EventType.StreamClosed => b: "stream_closed"
  | EventType.StreamOpened => b: "stream_opened"
  | EventType.StreamResetReceived => b: "stream_reset_received"
  | EventType.StreamStopSendingReceived => b: "stream_stop_sending_received"
  end.

Definition session_state_value (s : SessionState.t) : str :=
  match s with
  | SessionState.Closed => b: "closed"
  | SessionState.Closing => b: "closing"
  | SessionState.Connected => b: "connected"
  | SessionState.Connecting => b: "connecting"
  | SessionState.Draining => b: "draining"
  end.

Definition stream_direction_value (d : StreamDirection.t) : str :=
  match d with
  | StreamDirection.Bidirectional => b: "bidirectional"
  | StreamDirection.ReceiveOnly => b: "receive_only"
  | StreamDirection.SendOnly => b: "send_only"
  end.

Definition stream_receive_state_value (s : StreamReceiveState.t) : str :=
  match s with
  | StreamReceiveState.DataRead => b: "data_read"
  | StreamReceiveState.DataReceived => b: "data_received"
  | StreamReceiveState.Receive => b: "receive"
  | StreamReceiveState.ResetRead => b: "reset_read"
  end.

Definition stream_send_state_value (s : StreamSendState.t) : str :=
  match s with
  | StreamSendState.DataReceived => b: "data_received"
  | StreamSendState.DataSent => b: "data_sent"
  | StreamSendState.Ready => b: "ready"
  | StreamSendState.ResetSent => b: "reset_sent"
  end.

(** ** Opcodes ([abi.py]) *)

Definition py_abi (opcode : Opcode.t) : Z :=
  match opcode with
  | COMMAND_FAILED => 0x00
  | CONNECTION_EFFECTS => 0x01
  | CONNECTION_SPAWNED => 0x02
  | REACTOR_SHUTDOWN => 0x03
  | EMIT_CONNECTION_EVENT => 0x40
  | EMIT_SESSION_EVENT => 0x41
  | EMIT_STREAM_EVENT => 0x42
  | NOTIFY_REQUEST_DONE => 0x43
  | NOTIFY_REQUEST_FAILED => 0x44
  | USER_ACCEPT_SESSION => 0x80
  | USER_CLOSE_CONNECTION => 0x81
  | USER_CLOSE_CONNECTION_GRACEFULLY => 0x82
  | USER_CLOSE_SESSION => 0x83
  | USER_CREATE_SESSION => 0x84
  | USER_CREATE_SESSION_OPTIMISTIC => 0x85
  | USER_CREATE_STREAM => 0x86
  | USER_DIAGNOSE_CONNECTION => 0x87
  | USER_DIAGNOSE_SESSION => 0x88
  | USER_DIAGNOSE_STREAM => 0x89
  | USER_EXPORT_KEYING_MATERIAL => 0x8a
  | USER_READ_DATAGRAM => 0x8b
  | USER_READ_STREAM => 0x8c
  | USER_REJECT_SESSION => 0x8d
  | USER_RESET_STREAM => 0x8e
  | USER_SEND_DATAGRAM => 0x8f
  | USER_STOP_SENDING => 0x90
  | USER_WRITE_STREAM => 0x91
  end.

(** ** Events ([events.py]) *)

(** The subclasses of [ProtocolEvent]; a Python [int] has no width. *)
Module UserEvent.
Inductive t : Set :=
| UserAcceptSession (request_id session_id : Z) (headers : PyHeaders.t)
    (wt_protocol : option str)
| UserCloseConnection (request_id error_code : Z) (reason : option str)
| UserCloseConnectionGracefully (request_id : Z)
| UserCloseSession (request_id session_id error_code : Z) (reason : option str)
| UserCreateSession (request_id : Z) (authority path : str) (headers : PyHeaders.t)
    (wt_available_protocols : option (list str))
| UserCreateSessionOptimistic (request_id : Z) (authority path : str) (headers : PyHeaders.t)
    (wt_available_protocols : option (list str))
| UserCreateStream (request_id session_id : Z) (is_unidirectional : bool)
| UserDiagnoseConnection (request_id : Z)
| UserDiagnoseSession (request_id session_id : Z)
| UserDiagnoseStream (request_id stream_id : Z)
| UserExportKeyingMaterial (request_id session_id : Z) (label : str) (context : PyBuffer.t)
    (length : Z)
| UserReadDatagram (request_id session_id : Z)
| UserReadStream (request_id stream_id : Z) (max_size : option Z)
| UserRejectSession (request_id session_id : Z) (headers : PyHeaders.t) (status_code : Z)
| UserResetStream (request_id stream_id error_code : Z)
| UserSendDatagram (request_id session_id : Z) (data : PyBuffer.t)
| UserStopSending (request_id stream_id error_code : Z)
| UserWriteStream (request_id stream_id : Z) (data : PyBuffer.t) (end_stream : bool).
End UserEvent.

(** The effects, whose fields are whatever objects the crate put there. *)
Module PyEffect.
Inductive t : Type :=
| EmitConnectionEvent (connection_handle event_type error_code reason : PyObject.t)
| EmitSessionEvent (session_id event_type path headers wt_available_protocols wt_protocol data
    is_unidirectional max_data max_streams ready_at status_code error_code reason : PyObject.t)
| EmitStreamEvent (stream_id event_type session_id direction is_peer_initiated
    error_code : PyObject.t)
| NotifyRequestDone (request_id result : PyObject.t)
| NotifyRequestFailed (request_id exception : PyObject.t).
End PyEffect.

Module PyRuntimeEvent.
Inductive t : Type :=
| CommandFailed (request_id exception : PyObject.t)
| ConnectionEffects (handle effects : PyObject.t)
| ConnectionSpawned (handle remote_address effects : PyObject.t)
| ReactorShutdown.
End PyRuntimeEvent.

(** ** Conversion ([conversion.py]) *)

Definition py_tuple (opcode : Opcode.t) (payload : list PyObject.t) : PyObject.t :=
  PyTuple [PyInt (py_abi opcode); PyTuple payload].

Definition convert_protocol_event (event : UserEvent.t) : PyObject.t :=
  match event with
  | UserEvent.UserAcceptSession request_id session_id headers wt_protocol =>
      py_tuple USER_ACCEPT_SESSION
        [PyInt request_id; PyInt session_id; PyHeaders.to_py headers; into_option_str wt_protocol]
  | UserEvent.UserCloseConnection request_id error_code reason =>
      py_tuple USER_CLOSE_CONNECTION
        [PyInt request_id; PyInt error_code; into_option_str reason]
  | UserEvent.UserCloseConnectionGracefully request_id =>
      py_tuple USER_CLOSE_CONNECTION_GRACEFULLY [PyInt request_id]
  | UserEvent.UserCloseSession request_id session_id error_code reason =>
      py_tuple USER_CLOSE_SESSION
        [PyInt request_id; PyInt session_id; PyInt error_code; into_option_str reason]
  | UserEvent.UserCreateSession request_id authority path headers wt_available_protocols =>
      py_tuple USER_CREATE_SESSION
        [PyInt request_id; PyStr authority; PyStr path; PyHeaders.to_py headers;
         into_option_strs wt_available_protocols]
  | UserEvent.UserCreateSessionOptimistic request_id authority path headers
      wt_available_protocols =>
      py_tuple USER_CREATE_SESSION_OPTIMISTIC
        [PyInt request_id; PyStr authority; PyStr path; PyHeaders.to_py headers;
         into_option_strs wt_available_protocols]
  | UserEvent.UserCreateStream request_id session_id is_unidirectional =>
      py_tuple USER_CREATE_STREAM
        [PyInt request_id; PyInt session_id; PyBool is_unidirectional]
  | UserEvent.UserDiagnoseConnection request_id =>
      py_tuple USER_DIAGNOSE_CONNECTION [PyInt request_id]
  | UserEvent.UserDiagnoseSession request_id session_id =>
      py_tuple USER_DIAGNOSE_SESSION [PyInt request_id; PyInt session_id]
  | UserEvent.UserDiagnoseStream request_id stream_id =>
      py_tuple USER_DIAGNOSE_STREAM [PyInt request_id; PyInt stream_id]
  | UserEvent.UserExportKeyingMaterial request_id session_id label context length =>
      py_tuple USER_EXPORT_KEYING_MATERIAL
        [PyInt request_id; PyInt session_id; PyStr label; PyBuffer.to_py context; PyInt length]
  | UserEvent.UserReadDatagram request_id session_id =>
      py_tuple USER_READ_DATAGRAM [PyInt request_id; PyInt session_id]
  | UserEvent.UserReadStream request_id stream_id max_size =>
      py_tuple USER_READ_STREAM [PyInt request_id; PyInt stream_id; into_pyobject max_size]
  | UserEvent.UserRejectSession request_id session_id headers status_code =>
      py_tuple USER_REJECT_SESSION
        [PyInt request_id; PyInt session_id; PyHeaders.to_py headers; PyInt status_code]
  | UserEvent.UserResetStream request_id stream_id error_code =>
      py_tuple USER_RESET_STREAM [PyInt request_id; PyInt stream_id; PyInt error_code]
  | UserEvent.UserSendDatagram request_id session_id data =>
      py_tuple USER_SEND_DATAGRAM [PyInt request_id; PyInt session_id; PyBuffer.to_py data]
  | UserEvent.UserStopSending request_id stream_id error_code =>
      py_tuple USER_STOP_SENDING [PyInt request_id; PyInt stream_id; PyInt error_code]
  | UserEvent.UserWriteStream request_id stream_id data end_stream =>
      py_tuple USER_WRITE_STREAM
        [PyInt request_id; PyInt stream_id; PyBuffer.to_py data; PyBool end_stream]
  end.

(** Unpacking [a, b, .. = object]: a tuple or list of exactly as many items. *)
Definition unpack (object : PyObject.t) : result (list PyObject.t) PyErr :=
  match object with
  | PyTuple items | PyList items => Ok items
  | _ => Err (PyException.mk (b: "TypeError") (b: "cannot unpack") None)
  end.

Definition unpack_error : PyErr := PyValueError (b: "wrong number of values to unpack").

(** [opcode == abi.X]. *)
Definition is_opcode (object : PyObject.t) (opcode : Opcode.t) : bool :=
  match object with PyInt z => z =? py_abi opcode | _ => false end.

Definition unknown_opcode : PyErr := PyValueError (b: "rt_event convert invalid actual=").

Definition convert_effect (effect_tuple : PyObject.t) : result PyEffect.t PyErr :=
  let? items := unpack effect_tuple in
  match items with
  | [opcode; payload] =>
      if is_opcode opcode EMIT_CONNECTION_EVENT then
        let? payload := unpack payload in
        match payload with
        | [connection_handle; event_type; error_code; reason] =>
            Ok (PyEffect.EmitConnectionEvent connection_handle event_type error_code reason)
        | _ => Err unpack_error
        end
      else if is_opcode opcode EMIT_SESSION_EVENT then
        let? payload := unpack payload in
        match payload with
        | [session_id; event_type; path; headers; wt_available_protocols; wt_protocol; data;
           is_unidirectional; max_data; max_streams; ready_at; status_code; error_code; reason] =>
            Ok (PyEffect.EmitSessionEvent session_id event_type path headers
                  wt_available_protocols wt_protocol data is_unidirectional max_data max_streams
                  ready_at status_code error_code reason)
        | _ => Err unpack_error
        end
      else if is_opcode opcode EMIT_STREAM_EVENT then
        let? payload := unpack payload in
        match payload with
        | [stream_id; event_type; session_id; direction; is_peer_initiated; error_code] =>
            Ok (PyEffect.EmitStreamEvent stream_id event_type session_id direction
                  is_peer_initiated error_code)
        | _ => Err unpack_error
        end
      else if is_opcode opcode NOTIFY_REQUEST_DONE then
        let? payload := unpack payload in
        match payload with
        | [request_id; result] => Ok (PyEffect.NotifyRequestDone request_id result)
        | _ => Err unpack_error
        end
      else if is_opcode opcode NOTIFY_REQUEST_FAILED then
        let? payload := unpack payload in
        match payload with
        | [request_id; exception] => Ok (PyEffect.NotifyRequestFailed request_id exception)
        | _ => Err unpack_error
        end
      else Err unknown_opcode
  | _ => Err unpack_error
  end.

Definition convert_runtime_event (event_tuple : PyObject.t) : result PyRuntimeEvent.t PyErr :=
  let? items := unpack event_tuple in
  match items with
  | [opcode; payload] =>
      if is_opcode opcode COMMAND_FAILED then
        let? payload := unpack payload in
        match payload with
        | [request_id; exception] => Ok (PyRuntimeEvent.CommandFailed request_id exception)
        | _ => Err unpack_error
        end
      else if is_opcode opcode CONNECTION_EFFECTS then
        let? payload := unpack payload in
        match payload with
        | [handle; effects] => Ok (PyRuntimeEvent.ConnectionEffects handle effects)
        | _ => Err unpack_error
        end
      else if is_opcode opcode CONNECTION_SPAWNED then
        let? payload := unpack payload in
        match payload with
        | [handle; remote_address; effects] =>
            Ok (PyRuntimeEvent.ConnectionSpawned handle remote_address effects)
        | _ => Err unpack_error
        end
      else if is_opcode opcode REACTOR_SHUTDOWN then Ok PyRuntimeEvent.ReactorShutdown
      else Err unknown_opcode
  | _ => Err unpack_error
  end.

(** ** Diagnostics *)

(** The fields of the dataclasses, which have no defaults. *)
Definition connection_diagnostics_fields : list str := [
  b: "close_code"; b: "close_reason"; b: "closed_at"; b: "connected_at"; b: "connection_handle";
  b: "handshake_completed"; b: "is_client"; b: "local_goaway_sent"; b: "peer_goaway_received";
  b: "peer_initial_max_data"; b: "peer_initial_max_streams_bidi";
  b: "peer_initial_max_streams_uni"; b: "peer_max_datagram_frame_size";
  b: "peer_settings_received"; b: "state"].

Definition session_diagnostics_fields : list str := [
  b: "close_code"; b: "close_reason"; b: "closed_at"; b: "created_at"; b: "data_consumed";
  b: "data_received"; b: "data_sent"; b: "flow_control_negotiated"; b: "headers";
  b: "is_client"; b: "local_max_data"; b: "local_max_streams_bidi"; b: "local_max_streams_uni";
  b: "local_streams_bidi_opened"; b: "local_streams_uni_opened"; b: "path"; b: "peer_max_data";
  b: "peer_max_streams_bidi"; b: "peer_max_streams_uni"; b: "peer_streams_bidi_closed";
  b: "peer_streams_bidi_opened"; b: "peer_streams_uni_closed"; b: "peer_streams_uni_opened";
  b: "ready_at"; b: "session_id"; b: "state"; b: "wt_available_protocols"; b: "wt_protocol"].

Definition stream_diagnostics_fields : list str := [
  b: "created_at"; b: "direction"; b: "is_peer_initiated"; b: "receive_error_code";
  b: "receive_state"; b: "send_error_code"; b: "send_state"; b: "session_id"; b: "stream_id"].

(** The keyword arguments of a call [f] given [**data], when the keys are strings. *)
Fixpoint keywords (items : list (PyObject.t * PyObject.t)) : option (list (str * PyObject.t)) :=
  match items with
  | [] => Some []
  | (PyStr key, value) :: rest => (fun l => (key, value) :: l) <$> keywords rest
  | _ => None
  end.

(** A dataclass called with [**data]: every field given once and no other name. *)
Definition construct (fields : list str) (data : PyObject.t)
    : result (list (str * PyObject.t)) PyErr :=
  let type_error := Err (PyException.mk (b: "TypeError") (b: "keyword arguments") None) in
  match data with
  | PyDict items =>
      match keywords items with
      | Some given =>
          if bool_decide (Forall (fun name => name ∈ fields) given.*1)
             && bool_decide (Forall (fun name => name ∈ given.*1) fields)
          then Ok given else type_error
      | None => type_error
      end
  | _ => type_error
  end.
