(* ===== verification/ConversionTheorems.v ===== *)
(** * The two sides of the conversion agree

    What Python sends is read by the crate as the event it stands for or refused, and
    what the crate sends is read by Python field by field; the tables of opcodes and
    names that both sides keep are the same. *)

From S2P Require Import Prelude.
From S2P Require Import Types.
From S2P Require Import Events.
From S2P Require Import Quinn.
From S2P Require Import ReactorMachine.
From S2P Require Import ReactorEvents.
From S2P Require Import Pyo3.
From S2P Require Import FfiConversion.
From S2P Require Import PyConversion.
Import PyObject Opcode.

Module FfiT.

(** ** From Python *)

(** The headers a value of Python stands for: names in lower case, in order. *)
Definition header_meant (item : PyText.t * PyText.t) : bytes * bytes :=
  (to_ascii_lowercase <$> PyText.data item.1, PyText.data item.2).

Definition headers_meant (headers : PyHeaders.t) : Headers :=
  header_meant <$> PyHeaders.items headers.

(** The event of the crate that an event of the package stands for. *)
Definition event_meant (event : UserEvent.t) : ProtocolEvent.t :=
  match event with
  | UserEvent.UserAcceptSession r s headers wt_protocol =>
      ProtocolEvent.UserAcceptSession r s (headers_meant headers) wt_protocol
  | UserEvent.UserCloseConnection r code reason => ProtocolEvent.UserCloseConnection r code reason
  | UserEvent.UserCloseConnectionGracefully r => ProtocolEvent.UserCloseConnectionGracefully r
  | UserEvent.UserCloseSession r s code reason => ProtocolEvent.UserCloseSession r s code reason
  | UserEvent.UserCreateSession r authority path headers protocols =>
      ProtocolEvent.UserCreateSession r authority path (headers_meant headers) protocols
  | UserEvent.UserCreateSessionOptimistic r authority path headers protocols =>
      ProtocolEvent.UserCreateSessionOptimistic r authority path (headers_meant headers) protocols
  | UserEvent.UserCreateStream r s uni => ProtocolEvent.UserCreateStream r s uni
  | UserEvent.UserDiagnoseConnection r => ProtocolEvent.UserDiagnoseConnection r
  | UserEvent.UserDiagnoseSession r s => ProtocolEvent.UserDiagnoseSession r s
  | UserEvent.UserDiagnoseStream r i => ProtocolEvent.UserDiagnoseStream r i
  | UserEvent.UserExportKeyingMaterial r s label context length =>
      ProtocolEvent.UserExportKeyingMaterial r s label (PyBuffer.data context) length
  | UserEvent.UserReadDatagram r s => ProtocolEvent.UserReadDatagram r s
  | UserEvent.UserReadStream r i max_size =>
      ProtocolEvent.UserReadStream r i (default U64_MAX max_size)
  | UserEvent.UserRejectSession r s headers status_code =>
      ProtocolEvent.UserRejectSession r s (headers_meant headers) status_code
  | UserEvent.UserResetStream r i code => ProtocolEvent.UserResetStream r i code
  | UserEvent.UserSendDatagram r s data => ProtocolEvent.UserSendDatagram r s (PyBuffer.data data)
  | UserEvent.UserStopSending r i code => ProtocolEvent.UserStopSending r i code
  | UserEvent.UserWriteStream r i data fin =>
      ProtocolEvent.UserWriteStream r i (PyBuffer.data data) fin
  end.

(** Whether every integer of an event fits its type in the crate. *)
Definition event_fits (event : UserEvent.t) : bool :=
  let u64 := fits u64_range in
  match event with
  | UserEvent.UserAcceptSession r s _ _ | UserEvent.UserCreateStream r s _
  | UserEvent.UserDiagnoseSession r s | UserEvent.UserDiagnoseStream r s
  | UserEvent.UserReadDatagram r s | UserEvent.UserSendDatagram r s _
  | UserEvent.UserWriteStream r s _ _ => u64 r && u64 s
  | UserEvent.UserCloseConnection r code _ => u64 r && u64 code
  | UserEvent.UserCloseConnectionGracefully r | UserEvent.UserCreateSession r _ _ _ _
  | UserEvent.UserCreateSessionOptimistic r _ _ _ _ | UserEvent.UserDiagnoseConnection r => u64 r
  | UserEvent.UserCloseSession r s code _ => u64 r && u64 s && u64 code
  | UserEvent.UserExportKeyingMaterial r s _ _ length => u64 r && u64 s && fits u32_range length
  | UserEvent.UserReadStream r i max_size => u64 r && u64 i && from_option u64 true max_size
  | UserEvent.UserRejectSession r s _ status_code => u64 r && u64 s && fits u16_range status_code
  | UserEvent.UserResetStream r i code | UserEvent.UserStopSending r i code =>
      u64 r && u64 i && u64 code
  end.

Section laws.
Context `{PyO3Laws}.

Lemma extract_bytes_text text : extract_bytes (PyText.to_py text) = Ok (PyText.data text).
Proof.
  unfold extract_bytes. destruct text as [s|data]; cbn.
  - destruct (extract_buffer_str s) as [e ->]. by rewrite extract_string_law.
  - by rewrite extract_buffer_bytes.
Qed.

Lemma extract_bytes_buffer buffer : extract_bytes (PyBuffer.to_py buffer) = Ok (PyBuffer.data buffer).
Proof.
  unfold extract_bytes. destruct buffer; cbn;
    by rewrite ?extract_buffer_bytes, ?extract_buffer_bytearray, ?extract_buffer_memoryview.
Qed.

Lemma lowercase_key key :
  (if existsb is_ascii_uppercase key then to_ascii_lowercase <$> key else key)
  = to_ascii_lowercase <$> key.
Proof.
  destruct (existsb _ key) eqn:E; [done|]. symmetry.
  induction key as [|b key IH]; [done|]. cbn in E. apply orb_false_elim in E as [Hb E].
  cbn. unfold to_ascii_lowercase at 1. rewrite Hb. f_equal. by apply IH.
Qed.

Lemma process_header_item_text k v headers :
  process_header_item (PyText.to_py k) (PyText.to_py v) headers
  = Ok (headers ++ [header_meant (k, v)]).
Proof.
  unfold process_header_item. rewrite !extract_bytes_text. cbn. by rewrite lowercase_key.
Qed.

Lemma headers_of_dict_text items headers :
  headers_of_dict ((fun '(k, v) => (PyText.to_py k, PyText.to_py v)) <$> items) headers
  = Ok (headers ++ (header_meant <$> items)).
Proof.
  revert headers. induction items as [|[k v] items IH]; intros headers; cbn.
  - by rewrite app_nil_r.
  - rewrite process_header_item_text, IH, <- app_assoc. done.
Qed.

Lemma headers_of_list_text items headers :
  headers_of_list ((fun '(k, v) => PyTuple [PyText.to_py k; PyText.to_py v]) <$> items) headers
  = Ok (headers ++ (header_meant <$> items)).
Proof.
  revert headers. induction items as [|[k v] items IH]; intros headers; cbn.
  - by rewrite app_nil_r.
  - rewrite extract_tuple_law. cbn. rewrite process_header_item_text, IH, <- app_assoc. done.
Qed.

Lemma extract_headers_py headers :
  extract_headers (PyHeaders.to_py headers) = Ok (headers_meant headers).
Proof.
  unfold extract_headers, headers_meant. destruct headers as [items|items]; cbn [PyHeaders.to_py].
  - rewrite extract_dict_law. apply headers_of_dict_text.
  - destruct (extract_dict_list ((fun '(k, v) => PyTuple [PyText.to_py k; PyText.to_py v]) <$> items))
      as [e ->].
    rewrite extract_list_law. apply headers_of_list_text.
Qed.

Lemma extract_option_string_py o : extract_option_string (into_option_str o) = Ok o.
Proof.
  unfold extract_option_string. destruct o as [s|]; cbn.
  - by rewrite extract_option_some, extract_string_law.
  - by rewrite extract_option_none.
Qed.

Lemma extract_all_strings l : extract_all extract_string (PyStr <$> l) = Ok l.
Proof. induction l as [|s l IH]; [done|]. cbn. by rewrite extract_string_law, IH. Qed.

Lemma extract_option_strings_py o : extract_option_strings (into_option_strs o) = Ok o.
Proof.
  unfold extract_option_strings. destruct o as [l|]; cbn.
  - by rewrite extract_option_some, extract_vec_list, extract_all_strings.
  - by rewrite extract_option_none.
Qed.

Lemma from_py_tuple opcode payload :
  protocol_event_from_py (py_tuple opcode payload) = extract_event (abi opcode) payload.
Proof.
  unfold protocol_event_from_py, py_tuple. rewrite extract_tuple_law. cbn.
  pose proof (extract_int_law u8_range (py_abi opcode)) as Hi.
  replace (fits u8_range (py_abi opcode)) with true in Hi by (by destruct opcode).
  rewrite Hi, extract_tuple_law. cbn. by destruct opcode.
Qed.

(** Every conversion of a field, with both outcomes for an integer. *)
Ltac extracts :=
  repeat first
    [ rewrite extract_headers_py | rewrite extract_option_string_py
    | rewrite extract_option_strings_py | rewrite extract_string_law
    | rewrite extract_bool_law | rewrite extract_bytes_buffer
    | match goal with
      | |- context [extract_int ?range (PyInt ?z)] =>
          let Hi := fresh in
          pose proof (extract_int_law range z) as Hi; destruct (fits range z);
          [rewrite Hi; clear Hi | destruct Hi as [? ->]]
      end
    | progress cbn [andb map_err] ].

(** C16: an event the package sends is the event the crate gets: fields in their place,
    header names in lower case, no limit for a read without one; and an event with an
    integer that does not fit its type in the crate is refused. *)
Theorem ffi_commands_roundtrip (event : UserEvent.t) :
  match protocol_event_from_py (convert_protocol_event event) with
  | Ok e => event_fits event = true /\ e = event_meant event
  | Err _ => event_fits event = false
  end.
Proof.
  destruct event; cbn [convert_protocol_event]; rewrite from_py_tuple;
    unfold extract_event, extract_bytes_at_index, field, extract_u64; cbn.
  13: destruct max_size; cbn; rewrite ?extract_option_none, ?extract_option_some by done;
      unfold into_pyobject, into_int.
  all: extracts; done.
Qed.

End laws.

(** ** To Python *)

(** The record Python is to get for an effect, its fields in the terms of the package:
    members of its enumerations and instances of its exceptions. *)
Definition effect_meant (effect : Effect.t) : option PyEffect.t :=
  match effect with
  | Effect.EmitConnectionEvent connection_handle event_type error_code reason =>
      Some (PyEffect.EmitConnectionEvent (PyInt connection_handle)
              (PyStr (event_type_value event_type)) (into_pyobject error_code)
              (into_option_str reason))
  | Effect.EmitSessionEvent session_id event_type path headers wt_available_protocols wt_protocol
      data is_unidirectional max_data max_streams ready_at status_code error_code reason =>
      Some (PyEffect.EmitSessionEvent (PyInt session_id) (PyStr (event_type_value event_type))
              (into_option_str path) (from_option headers_to_py PyNone headers)
              (into_option_strs wt_available_protocols) (into_option_str wt_protocol)
              (from_option PyBytes PyNone data) (into_pyobject is_unidirectional)
              (into_pyobject max_data) (into_pyobject max_streams) (into_pyobject ready_at)
              (into_pyobject status_code) (into_pyobject error_code) (into_option_str reason))
  | Effect.EmitStreamEvent stream_id event_type session_id direction is_peer_initiated error_code =>
      Some (PyEffect.EmitStreamEvent (PyInt stream_id) (PyStr (event_type_value event_type))
              (into_pyobject session_id)
              (from_option (fun d => PyStr (stream_direction_value d)) PyNone direction)
              (into_pyobject is_peer_initiated) (into_pyobject error_code))
  | Effect.NotifyRequestDone request_id result =>
      Some (PyEffect.NotifyRequestDone (PyInt request_id) (request_result_to_py result))
  | Effect.NotifyRequestFailed request_id source error_code reason =>
      Some (PyEffect.NotifyRequestFailed (PyInt request_id)
              (PyException (create_py_exception source error_code reason)))
  | _ => None
  end.

Lemma event_type_names e : into_pyobject e = PyStr (event_type_value e).
Proof. by destruct e. Qed.

Lemma stream_direction_names d : into_pyobject d = PyStr (stream_direction_value d).
Proof. by destruct d. Qed.

Lemma effect_roundtrip effect :
  match effect_into_py effect with
  | Ok o => exists m, effect_meant effect = Some m /\ convert_effect o = Ok m
  | Err _ => user_effect effect = false
  end.
Proof.
  destruct effect; cbn [effect_into_py]; try done; eexists; (split; [reflexivity|]).
  - unfold convert_effect. cbn. by rewrite <- event_type_names.
  - unfold convert_effect. cbn. rewrite <- event_type_names. by destruct headers, data.
  - unfold convert_effect. cbn. rewrite <- event_type_names. by destruct direction as [[]|].
  - done.
  - done.
Qed.

(** The objects of a list of effects, each read by Python as the effect it is. *)
Definition effects_read (effects : list Effect.t) (objects : list PyObject.t) : Prop :=
  Forall2 (fun effect o => exists m, effect_meant effect = Some m /\ convert_effect o = Ok m)
    effects objects.

Lemma effects_roundtrip effects : forallb user_effect effects = true ->
  exists objects, effects_into_py effects = Ok objects /\ effects_read effects objects.
Proof.
  induction effects as [|effect effects IH]; cbn; intros Hu; [by exists []; split; [|constructor]|].
  apply andb_prop in Hu as [Hu Hus]. destruct (IH Hus) as (objects & -> & Hr).
  pose proof (effect_roundtrip effect) as He. destruct (effect_into_py effect) as [o|e].
  - exists (o :: objects). split; [done|]. by constructor.
  - congruence.
Qed.

(** ** Runtime events *)

(** The event Python is to get, around the objects of its effects. *)
Definition runtime_event_meant `{IpText} (event : RuntimeEvent.t) (objects : list PyObject.t)
    : PyRuntimeEvent.t :=
  match event with
  | RuntimeEvent.CommandFailed request_id error_code reason =>
      PyRuntimeEvent.CommandFailed (PyInt request_id)
        (PyException (create_py_exception ErrorSource.Connection error_code reason))
  | RuntimeEvent.ConnectionEffects handle _ =>
      PyRuntimeEvent.ConnectionEffects (PyInt handle) (PyList objects)
  | RuntimeEvent.ConnectionSpawned handle remote_address _ =>
      PyRuntimeEvent.ConnectionSpawned (PyInt handle)
        (PyTuple [PyStr (ip_to_string (SocketAddr.ip remote_address));
                  PyInt (port_of remote_address)]) (PyList objects)
  | RuntimeEvent.ReactorShutdown => PyRuntimeEvent.ReactorShutdown
  end.

(** The object an event becomes, and what Python makes of it. *)
Definition delivered `{IpText} (event : RuntimeEvent.t) (o : PyObject.t) : Prop :=
  exists objects, runtime_event_into_py event = Ok o
    /\ convert_runtime_event o = Ok (runtime_event_meant event objects)
    /\ effects_read (event_effects event) objects.

Lemma runtime_event_roundtrip `{IpText} event :
  forallb user_effect (event_effects event) = true -> exists o, delivered event o.
Proof.
  intros (objects & Ho & Hr)%effects_roundtrip.
  destruct event; cbn in Ho |- *; eexists; exists objects; unfold runtime_event_into_py;
    rewrite ?Ho; split_and!; done.
Qed.

(** The names and numbers both sides keep are the same: the opcodes, which differ
    from each other, the members of the enumerations, and the fields of the diagnostics,
    which are all there and no others. *)
Theorem ffi_tables_agree :
  (forall opcode, py_abi opcode = abi opcode)
  /\ (forall o1 o2, abi o1 = abi o2 -> o1 = o2)
  /\ (forall s, into_pyobject s = PyStr (connection_state_value s))
  /\ (forall e, into_pyobject e = PyStr (event_type_value e))
  /\ (forall s, into_pyobject s = PyStr (session_state_value s))
  /\ (forall d, into_pyobject d = PyStr (stream_direction_value d))
  /\ (forall s, into_pyobject s = PyStr (stream_receive_state_value s))
  /\ (forall s, into_pyobject s = PyStr (stream_send_state_value s))
  /\ (forall d, exists attributes,
        construct connection_diagnostics_fields (connection_diagnostics_to_py d) = Ok attributes
        /\ attributes.*1 = connection_diagnostics_fields)
  /\ (forall d, exists attributes,
        construct session_diagnostics_fields (session_diagnostics_to_py d) = Ok attributes
        /\ attributes.*1 = session_diagnostics_fields)
  /\ (forall d, exists attributes,
        construct stream_diagnostics_fields (stream_diagnostics_to_py d) = Ok attributes
        /\ attributes.*1 = stream_diagnostics_fields).
Proof.
  split_and!; try (by intros []); try (by intros [] []); try (by intros d; eexists).
Qed.

(** ** An example *)

Import Builtin.

(** A stream is read without a limit. *)
Lemma ffi_commands_roundtrip_witness :
  match protocol_event_from_py (convert_protocol_event (UserEvent.UserReadStream 7 4 None)) with
  | Ok e => event_fits (UserEvent.UserReadStream 7 4 None) = true
      /\ e = ProtocolEvent.UserReadStream 7 4 U64_MAX
  | Err _ => event_fits (UserEvent.UserReadStream 7 4 None) = false
  end.
Proof. apply (ffi_commands_roundtrip (UserEvent.UserReadStream 7 4 None)). Defined.

End FfiT.
