(* ===== verification/FfiConstants.v ===== *)
(** * Constants seen from Python

    [crates/src/ffi/constants.rs]: the attributes the extension module gets, and the ones
    [src/pywebtransport/constants.py] reads from it when the package is imported. *)

From S2P Require Import Prelude.
From S2P Require Import Types.
From S2P Require Import Pyo3.

(** The [module.add]s of [register]: defaults, error codes and limits. *)
Definition registered_defaults : list (str * PyObject.t) := [
  (b: "DEFAULT_BIND_HOST", into_str DEFAULT_BIND_HOST);
  (b: "DEFAULT_BIND_PORT", into_pyobject (DEFAULT_BIND_PORT : Z));
  (b: "DEFAULT_CLOSE_TIMEOUT", into_pyobject (DEFAULT_CLOSE_TIMEOUT : f64));
  (b: "DEFAULT_CONGESTION_CONTROL_ALGORITHM", into_str DEFAULT_CONGESTION_CONTROL_ALGORITHM);
  (b: "DEFAULT_CONNECTION_ATTEMPT_DELAY", into_pyobject (DEFAULT_CONNECTION_ATTEMPT_DELAY : f64));
  (b: "DEFAULT_CONNECTION_RECEIVE_WINDOW", into_pyobject (DEFAULT_CONNECTION_RECEIVE_WINDOW : Z));
  (b: "DEFAULT_CONNECTION_SEND_WINDOW", into_pyobject (DEFAULT_CONNECTION_SEND_WINDOW : Z));
  (b: "DEFAULT_CONNECT_TIMEOUT", into_pyobject (DEFAULT_CONNECT_TIMEOUT : f64));
  (b: "DEFAULT_INITIAL_MAX_DATA", into_pyobject (DEFAULT_INITIAL_MAX_DATA : Z));
  (b: "DEFAULT_INITIAL_MAX_STREAMS_BIDI", into_pyobject (DEFAULT_INITIAL_MAX_STREAMS_BIDI : Z));
  (b: "DEFAULT_INITIAL_MAX_STREAMS_UNI", into_pyobject (DEFAULT_INITIAL_MAX_STREAMS_UNI : Z));
  (b: "DEFAULT_KEEP_ALIVE_INTERVAL", into_pyobject (DEFAULT_KEEP_ALIVE_INTERVAL : f64));
  (b: "DEFAULT_MAX_CAPSULE_SIZE", into_pyobject (DEFAULT_MAX_CAPSULE_SIZE : Z));
  (b: "DEFAULT_MAX_CONNECTIONS", into_pyobject (DEFAULT_MAX_CONNECTIONS : Z));
  (b: "DEFAULT_MAX_CONNECTION_PENDING_EVENTS", into_pyobject (DEFAULT_MAX_CONNECTION_PENDING_EVENTS : Z));
  (b: "DEFAULT_MAX_DATAGRAM_SIZE", into_pyobject (DEFAULT_MAX_DATAGRAM_SIZE : Z));
  (b: "DEFAULT_MAX_FIELD_SECTION_SIZE", into_pyobject (DEFAULT_MAX_FIELD_SECTION_SIZE : Z));
  (b: "DEFAULT_MAX_IDLE_TIMEOUT", into_pyobject (DEFAULT_MAX_IDLE_TIMEOUT : f64));
  (b: "DEFAULT_MAX_PENDING_CAPSULES", into_pyobject (DEFAULT_MAX_PENDING_CAPSULES : Z));
  (b: "DEFAULT_MAX_PENDING_DATAGRAMS", into_pyobject (DEFAULT_MAX_PENDING_DATAGRAMS : Z));
  (b: "DEFAULT_MAX_PENDING_STREAMS", into_pyobject (DEFAULT_MAX_PENDING_STREAMS : Z));
  (b: "DEFAULT_MAX_SESSIONS", into_pyobject (DEFAULT_MAX_SESSIONS : Z));
  (b: "DEFAULT_MAX_SESSION_PENDING_EVENTS", into_pyobject (DEFAULT_MAX_SESSION_PENDING_EVENTS : Z));
  (b: "DEFAULT_MAX_STREAMS_BIDI", into_pyobject (DEFAULT_MAX_STREAMS_BIDI : Z));
  (b: "DEFAULT_MAX_STREAMS_UNI", into_pyobject (DEFAULT_MAX_STREAMS_UNI : Z));
  (b: "DEFAULT_MAX_UDP_PAYLOAD_SIZE", into_pyobject (DEFAULT_MAX_UDP_PAYLOAD_SIZE : Z));
  (b: "DEFAULT_MAX_WRITE_BUFFER_SIZE", into_pyobject (DEFAULT_MAX_WRITE_BUFFER_SIZE : Z));
  (b: "DEFAULT_PENDING_EVENT_TTL", into_pyobject (DEFAULT_PENDING_EVENT_TTL : f64));
  (b: "DEFAULT_READ_TIMEOUT", into_pyobject (DEFAULT_READ_TIMEOUT : f64));
  (b: "DEFAULT_RESOURCE_CLEANUP_INTERVAL", into_pyobject (DEFAULT_RESOURCE_CLEANUP_INTERVAL : f64));
  (b: "DEFAULT_SESSION_RECEIVE_WINDOW", into_pyobject (DEFAULT_SESSION_RECEIVE_WINDOW : Z));
  (b: "DEFAULT_STREAM_CREATE_TIMEOUT", into_pyobject (DEFAULT_STREAM_CREATE_TIMEOUT : f64));
  (b: "DEFAULT_STREAM_RECEIVE_WINDOW", into_pyobject (DEFAULT_STREAM_RECEIVE_WINDOW : Z))].

Definition registered_errors : list (str * PyObject.t) := [
  (b: "ERR_APP_AUTHENTICATION_FAILED", into_pyobject (ERR_APP_AUTHENTICATION_FAILED : Z));
  (b: "ERR_APP_CANCELLED", into_pyobject (ERR_APP_CANCELLED : Z));
  (b: "ERR_APP_CONNECTION_TIMEOUT", into_pyobject (ERR_APP_CONNECTION_TIMEOUT : Z));
  (b: "ERR_APP_GENERIC_ERROR", into_pyobject (ERR_APP_GENERIC_ERROR : Z));
  (b: "ERR_APP_INVALID_REQUEST", into_pyobject (ERR_APP_INVALID_REQUEST : Z));
  (b: "ERR_APP_NO_ERROR", into_pyobject (ERR_APP_NO_ERROR : Z));
  (b: "ERR_APP_OPERATION_TIMEOUT", into_pyobject (ERR_APP_OPERATION_TIMEOUT : Z));
  (b: "ERR_APP_PERMISSION_DENIED", into_pyobject (ERR_APP_PERMISSION_DENIED : Z));
  (b: "ERR_APP_RESOURCE_EXHAUSTED", into_pyobject (ERR_APP_RESOURCE_EXHAUSTED : Z));
  (b: "ERR_APP_SERVICE_UNAVAILABLE", into_pyobject (ERR_APP_SERVICE_UNAVAILABLE : Z));
  (b: "ERR_H3_CLOSED_CRITICAL_STREAM", into_pyobject (ERR_H3_CLOSED_CRITICAL_STREAM : Z));
  (b: "ERR_H3_CONNECT_ERROR", into_pyobject (ERR_H3_CONNECT_ERROR : Z));
  (b: "ERR_H3_DATAGRAM_ERROR", into_pyobject (ERR_H3_DATAGRAM_ERROR : Z));
  (b: "ERR_H3_EXCESSIVE_LOAD", into_pyobject (ERR_H3_EXCESSIVE_LOAD : Z));
  (b: "ERR_H3_FRAME_ERROR", into_pyobject (ERR_H3_FRAME_ERROR : Z));
  (b: "ERR_H3_FRAME_UNEXPECTED", into_pyobject (ERR_H3_FRAME_UNEXPECTED : Z));
  (b: "ERR_H3_GENERAL_PROTOCOL_ERROR", into_pyobject (ERR_H3_GENERAL_PROTOCOL_ERROR : Z));
  (b: "ERR_H3_ID_ERROR", into_pyobject (ERR_H3_ID_ERROR : Z));
  (b: "ERR_H3_INTERNAL_ERROR", into_pyobject (ERR_H3_INTERNAL_ERROR : Z));
  (b: "ERR_H3_MESSAGE_ERROR", into_pyobject (ERR_H3_MESSAGE_ERROR : Z));
  (b: "ERR_H3_MISSING_SETTINGS", into_pyobject (ERR_H3_MISSING_SETTINGS : Z));
  (b: "ERR_H3_NO_ERROR", into_pyobject (ERR_H3_NO_ERROR : Z));
  (b: "ERR_H3_REQUEST_CANCELLED", into_pyobject (ERR_H3_REQUEST_CANCELLED : Z));
  (b: "ERR_H3_REQUEST_INCOMPLETE", into_pyobject (ERR_H3_REQUEST_INCOMPLETE : Z));
  (b: "ERR_H3_REQUEST_REJECTED", into_pyobject (ERR_H3_REQUEST_REJECTED : Z));
  (b: "ERR_H3_SETTINGS_ERROR", into_pyobject (ERR_H3_SETTINGS_ERROR : Z));
  (b: "ERR_H3_STREAM_CREATION_ERROR", into_pyobject (ERR_H3_STREAM_CREATION_ERROR : Z));
  (b: "ERR_H3_VERSION_FALLBACK", into_pyobject (ERR_H3_VERSION_FALLBACK : Z));
  (b: "ERR_LIB_CONNECTION_LIMIT_EXCEEDED", into_pyobject (ERR_LIB_CONNECTION_LIMIT_EXCEEDED : Z));
  (b: "ERR_LIB_CONNECTION_STATE_ERROR", into_pyobject (ERR_LIB_CONNECTION_STATE_ERROR : Z));
  (b: "ERR_LIB_INTERNAL_ERROR", into_pyobject (ERR_LIB_INTERNAL_ERROR : Z));
  (b: "ERR_LIB_SESSION_STATE_ERROR", into_pyobject (ERR_LIB_SESSION_STATE_ERROR : Z));
  (b: "ERR_LIB_STREAM_STATE_ERROR", into_pyobject (ERR_LIB_STREAM_STATE_ERROR : Z));
  (b: "ERR_QPACK_DECODER_STREAM_ERROR", into_pyobject (ERR_QPACK_DECODER_STREAM_ERROR : Z));
  (b: "ERR_QPACK_DECOMPRESSION_FAILED", into_pyobject (ERR_QPACK_DECOMPRESSION_FAILED : Z));
  (b: "ERR_QPACK_ENCODER_STREAM_ERROR", into_pyobject (ERR_QPACK_ENCODER_STREAM_ERROR : Z));
  (b: "ERR_QUIC_AEAD_LIMIT_REACHED", into_pyobject (ERR_QUIC_AEAD_LIMIT_REACHED : Z));
  (b: "ERR_QUIC_APPLICATION_ERROR", into_pyobject (ERR_QUIC_APPLICATION_ERROR : Z));
  (b: "ERR_QUIC_CONNECTION_ID_LIMIT_ERROR", into_pyobject (ERR_QUIC_CONNECTION_ID_LIMIT_ERROR : Z));
  (b: "ERR_QUIC_CONNECTION_REFUSED", into_pyobject (ERR_QUIC_CONNECTION_REFUSED : Z));
  (b: "ERR_QUIC_CRYPTO_BUFFER_EXCEEDED", into_pyobject (ERR_QUIC_CRYPTO_BUFFER_EXCEEDED : Z));
  (b: "ERR_QUIC_CRYPTO_ERROR_FIRST", into_pyobject (ERR_QUIC_CRYPTO_ERROR_FIRST : Z));
  (b: "ERR_QUIC_CRYPTO_ERROR_LAST", into_pyobject (ERR_QUIC_CRYPTO_ERROR_LAST : Z));
  (b: "ERR_QUIC_FINAL_SIZE_ERROR", into_pyobject (ERR_QUIC_FINAL_SIZE_ERROR : Z));
  (b: "ERR_QUIC_FLOW_CONTROL_ERROR", into_pyobject (ERR_QUIC_FLOW_CONTROL_ERROR : Z));
  (b: "ERR_QUIC_FRAME_ENCODING_ERROR", into_pyobject (ERR_QUIC_FRAME_ENCODING_ERROR : Z));
  (b: "ERR_QUIC_INTERNAL_ERROR", into_pyobject (ERR_QUIC_INTERNAL_ERROR : Z));
  (b: "ERR_QUIC_INVALID_TOKEN", into_pyobject (ERR_QUIC_INVALID_TOKEN : Z));
  (b: "ERR_QUIC_KEY_UPDATE_ERROR", into_pyobject (ERR_QUIC_KEY_UPDATE_ERROR : Z));
  (b: "ERR_QUIC_NO_ERROR", into_pyobject (ERR_QUIC_NO_ERROR : Z));
  (b: "ERR_QUIC_NO_VIABLE_PATH", into_pyobject (ERR_QUIC_NO_VIABLE_PATH : Z));
  (b: "ERR_QUIC_PROTOCOL_VIOLATION", into_pyobject (ERR_QUIC_PROTOCOL_VIOLATION : Z));
  (b: "ERR_QUIC_STREAM_LIMIT_ERROR", into_pyobject (ERR_QUIC_STREAM_LIMIT_ERROR : Z));
  (b: "ERR_QUIC_STREAM_STATE_ERROR", into_pyobject (ERR_QUIC_STREAM_STATE_ERROR : Z));
  (b: "ERR_QUIC_TRANSPORT_PARAMETER_ERROR", into_pyobject (ERR_QUIC_TRANSPORT_PARAMETER_ERROR : Z));
  (b: "ERR_WT_ALPN_ERROR", into_pyobject (ERR_WT_ALPN_ERROR : Z));
  (b: "ERR_WT_APPLICATION_ERROR_FIRST", into_pyobject (ERR_WT_APPLICATION_ERROR_FIRST : Z));
  (b: "ERR_WT_APPLICATION_ERROR_LAST", into_pyobject (ERR_WT_APPLICATION_ERROR_LAST : Z));
  (b: "ERR_WT_BUFFERED_STREAM_REJECTED", into_pyobject (ERR_WT_BUFFERED_STREAM_REJECTED : Z));
  (b: "ERR_WT_FLOW_CONTROL_ERROR", into_pyobject (ERR_WT_FLOW_CONTROL_ERROR : Z));
  (b: "ERR_WT_REQUIREMENTS_NOT_MET", into_pyobject (ERR_WT_REQUIREMENTS_NOT_MET : Z));
  (b: "ERR_WT_SESSION_GONE", into_pyobject (ERR_WT_SESSION_GONE : Z))].

Definition registered_limits : list (str * PyObject.t) := [
  (b: "H3_MIN_UNI_STREAM_COUNT", into_pyobject (H3_MIN_UNI_STREAM_COUNT : Z));
  (b: "QUIC_MIN_UDP_PAYLOAD_SIZE_LIMIT", into_pyobject (QUIC_MIN_UDP_PAYLOAD_SIZE_LIMIT : Z));
  (b: "QUIC_UDP_PAYLOAD_SIZE_LIMIT", into_pyobject (QUIC_UDP_PAYLOAD_SIZE_LIMIT : Z));
  (b: "QUIC_VARINT_LIMIT", into_pyobject (QUIC_VARINT_LIMIT : Z));
  (b: "WT_SESSION_CONNECT_STREAM_COUNT", into_pyobject (WT_SESSION_CONNECT_STREAM_COUNT : Z));
  (b: "WT_STREAMS_LIMIT", into_pyobject (WT_STREAMS_LIMIT : Z))].

Definition registered_constants : list (str * PyObject.t) :=
  registered_defaults ++ registered_errors ++ registered_limits.

(** The attributes [constants.py] names. *)
Definition python_constants : list str := [
  b: "DEFAULT_BIND_HOST"; b: "DEFAULT_BIND_PORT"; b: "DEFAULT_CLOSE_TIMEOUT";
  b: "DEFAULT_CONGESTION_CONTROL_ALGORITHM"; b: "DEFAULT_CONNECTION_ATTEMPT_DELAY";
  b: "DEFAULT_CONNECTION_RECEIVE_WINDOW"; b: "DEFAULT_CONNECTION_SEND_WINDOW";
  b: "DEFAULT_CONNECT_TIMEOUT"; b: "DEFAULT_INITIAL_MAX_DATA";
  b: "DEFAULT_INITIAL_MAX_STREAMS_BIDI"; b: "DEFAULT_INITIAL_MAX_STREAMS_UNI";
  b: "DEFAULT_KEEP_ALIVE_INTERVAL"; b: "DEFAULT_MAX_CAPSULE_SIZE"; b: "DEFAULT_MAX_CONNECTIONS";
  b: "DEFAULT_MAX_CONNECTION_PENDING_EVENTS"; b: "DEFAULT_MAX_DATAGRAM_SIZE";
  b: "DEFAULT_MAX_FIELD_SECTION_SIZE"; b: "DEFAULT_MAX_IDLE_TIMEOUT";
  b: "DEFAULT_MAX_PENDING_CAPSULES"; b: "DEFAULT_MAX_PENDING_DATAGRAMS";
  b: "DEFAULT_MAX_PENDING_STREAMS"; b: "DEFAULT_MAX_SESSIONS";
  b: "DEFAULT_MAX_SESSION_PENDING_EVENTS"; b: "DEFAULT_MAX_STREAMS_BIDI";
  b: "DEFAULT_MAX_STREAMS_UNI"; b: "DEFAULT_MAX_UDP_PAYLOAD_SIZE";
  b: "DEFAULT_MAX_WRITE_BUFFER_SIZE"; b: "DEFAULT_PENDING_EVENT_TTL"; b: "DEFAULT_READ_TIMEOUT";
  b: "DEFAULT_RESOURCE_CLEANUP_INTERVAL"; b: "DEFAULT_SESSION_RECEIVE_WINDOW";
  b: "DEFAULT_STREAM_CREATE_TIMEOUT"; b: "DEFAULT_STREAM_RECEIVE_WINDOW";
  b: "H3_MIN_UNI_STREAM_COUNT"; b: "QUIC_MIN_UDP_PAYLOAD_SIZE_LIMIT";
  b: "QUIC_UDP_PAYLOAD_SIZE_LIMIT"; b: "QUIC_VARINT_LIMIT"; b: "WT_SESSION_CONNECT_STREAM_COUNT";
  b: "WT_STREAMS_LIMIT"; b: "ERR_APP_AUTHENTICATION_FAILED"; b: "ERR_APP_CANCELLED";
  b: "ERR_APP_CONNECTION_TIMEOUT"; b: "ERR_APP_GENERIC_ERROR"; b: "ERR_APP_INVALID_REQUEST";
  b: "ERR_APP_NO_ERROR"; b: "ERR_APP_OPERATION_TIMEOUT"; b: "ERR_APP_PERMISSION_DENIED";
  b: "ERR_APP_RESOURCE_EXHAUSTED"; b: "ERR_APP_SERVICE_UNAVAILABLE";
  b: "ERR_H3_CLOSED_CRITICAL_STREAM"; b: "ERR_H3_CONNECT_ERROR"; b: "ERR_H3_DATAGRAM_ERROR";
  b: "ERR_H3_EXCESSIVE_LOAD"; b: "ERR_H3_FRAME_ERROR"; b: "ERR_H3_FRAME_UNEXPECTED";
  b: "ERR_H3_GENERAL_PROTOCOL_ERROR"; b: "ERR_H3_ID_ERROR"; b: "ERR_H3_INTERNAL_ERROR";
  b: "ERR_H3_MESSAGE_ERROR"; b: "ERR_H3_MISSING_SETTINGS"; b: "ERR_H3_NO_ERROR";
  b: "ERR_H3_REQUEST_CANCELLED"; b: "ERR_H3_REQUEST_INCOMPLETE"; b: "ERR_H3_REQUEST_REJECTED";
  b: "ERR_H3_SETTINGS_ERROR"; b: "ERR_H3_STREAM_CREATION_ERROR"; b: "ERR_H3_VERSION_FALLBACK";
  b: "ERR_LIB_CONNECTION_LIMIT_EXCEEDED"; b: "ERR_LIB_CONNECTION_STATE_ERROR";
  b: "ERR_LIB_INTERNAL_ERROR"; b: "ERR_LIB_SESSION_STATE_ERROR"; b: "ERR_LIB_STREAM_STATE_ERROR";
  b: "ERR_QPACK_DECODER_STREAM_ERROR"; b: "ERR_QPACK_DECOMPRESSION_FAILED";
  b: "ERR_QPACK_ENCODER_STREAM_ERROR"; b: "ERR_QUIC_AEAD_LIMIT_REACHED";
  b: "ERR_QUIC_APPLICATION_ERROR"; b: "ERR_QUIC_CONNECTION_ID_LIMIT_ERROR";
  b: "ERR_QUIC_CONNECTION_REFUSED"; b: "ERR_QUIC_CRYPTO_BUFFER_EXCEEDED";
  b: "ERR_QUIC_CRYPTO_ERROR_FIRST"; b: "ERR_QUIC_CRYPTO_ERROR_LAST";
  b: "ERR_QUIC_FINAL_SIZE_ERROR"; b: "ERR_QUIC_FLOW_CONTROL_ERROR";
  b: "ERR_QUIC_FRAME_ENCODING_ERROR"; b: "ERR_QUIC_INTERNAL_ERROR"; b: "ERR_QUIC_INVALID_TOKEN";
  b: "ERR_QUIC_KEY_UPDATE_ERROR"; b: "ERR_QUIC_NO_ERROR"; b: "ERR_QUIC_NO_VIABLE_PATH";
  b: "ERR_QUIC_PROTOCOL_VIOLATION"; b: "ERR_QUIC_STREAM_LIMIT_ERROR";
  b: "ERR_QUIC_STREAM_STATE_ERROR"; b: "ERR_QUIC_TRANSPORT_PARAMETER_ERROR";
  b: "ERR_WT_ALPN_ERROR"; b: "ERR_WT_APPLICATION_ERROR_FIRST"; b: "ERR_WT_APPLICATION_ERROR_LAST";
  b: "ERR_WT_BUFFERED_STREAM_REJECTED"; b: "ERR_WT_FLOW_CONTROL_ERROR";
  b: "ERR_WT_REQUIREMENTS_NOT_MET"; b: "ERR_WT_SESSION_GONE"].

(** The package can be imported: every constant it reads is there, each under one name,
    and all that are there are read. *)
Theorem constants_complete :
  registered_constants.*1 ≡ₚ python_constants /\ NoDup registered_constants.*1.
Proof.
  split; [|apply (bool_decide_unpack _); vm_compute; done].
  apply NoDup_Permutation; [apply (bool_decide_unpack _); vm_compute; done..|].
  intros name. split; intros Hn;
    [apply (Forall_forall (fun n => n ∈ python_constants) registered_constants.*1)
    |apply (Forall_forall (fun n => n ∈ registered_constants.*1) python_constants)]; try done;
    apply (bool_decide_unpack _); vm_compute; done.
Qed.
