(* ===== verification/PyConfig.v ===== *)
(** * Configuration objects of the package

    [src/pywebtransport/config.py]: the dataclasses [ClientConfig] and [ServerConfig]
    with their defaults and the validation that runs when one is created.  A
    configuration is the list of its attributes, whose values are whatever the user
    passed. *)

From S2P Require Import Prelude.
From S2P Require Import Types.
From S2P Require Import Pyo3.
Import PyObject.

Module PyConfig.

Notation t := (list (str * PyObject.t)) (only parsing).

(** An attribute; the dataclasses have slots, so there are no others. *)
Fixpoint getattr (config : t) (name : str) : result PyObject.t PyErr :=
  match config with
  | [] => Err (PyException.mk (b: "AttributeError") name None)
  | (key, value) :: rest => if bool_decide (key = name) then Ok value else getattr rest name
  end.

(** ** Tests on values *)

Definition is_bool (o : PyObject.t) : bool := match o with PyBool _ => true | _ => false end.
(** [isinstance(o, int)]: a [bool] is an [int]. *)
Definition is_int (o : PyObject.t) : bool :=
  match o with PyInt _ | PyBool _ => true | _ => false end.
Definition is_number (o : PyObject.t) : bool :=
  match o with PyInt _ | PyBool _ | PyFloat _ => true | _ => false end.
Definition is_str (o : PyObject.t) : bool := match o with PyStr _ => true | _ => false end.
Definition is_none (o : PyObject.t) : bool := match o with PyNone => true | _ => false end.

(** [not o] for a string or [None]. *)
Definition is_empty (o : PyObject.t) : bool :=
  match o with PyNone => true | PyStr s => bool_decide (s = []) | _ => false end.

(** The integer a number is compared as, where it is one. *)
Definition int_value (o : PyObject.t) : Z :=
  match o with PyInt z => z | PyBool value => Z.b2z value | _ => 0 end.

(** [o <= 0]; a NaN is not. *)
Definition at_most_zero (o : PyObject.t) : bool :=
  match o with PyFloat f => SFleb f (S754_zero false) | _ => int_value o <=? 0 end.

(** [o == z]. *)
Definition num_eq (o : PyObject.t) (z : Z) : bool :=
  match o with
  | PyFloat f => SFeqb f (f64_of_Z z)
  | PyInt _ | PyBool _ => int_value o =? z
  | _ => false
  end.

(** The conditions under which a field is refused. *)
Definition bad_positive_number (o : PyObject.t) : bool :=
  negb (is_number o) || is_bool o || at_most_zero o.
Definition bad_positive_int (o : PyObject.t) : bool :=
  negb (is_int o) || is_bool o || (int_value o <=? 0).
Definition bad_int_between (low high : Z) (o : PyObject.t) : bool :=
  negb (is_int o) || is_bool o || (int_value o <? low) || (high <? int_value o).
Definition bad_optional_number (o : PyObject.t) : bool :=
  negb (is_none o) && bad_positive_number o.
Definition bad_optional_str (o : PyObject.t) : bool := negb (is_none o) && negb (is_str o).
Definition bad_nonempty_str (o : PyObject.t) : bool := negb (is_str o) || is_empty o.

Definition CONGESTION_CONTROL_ALGORITHMS : list str := [b: "bbr"; b: "cubic"; b: "reno"].
Definition FIELD_SECTION_SIZE_LIMIT : Z := 16 * 1024 * 1024.
Definition CERT_NONE : Z := 0.
Definition CERT_OPTIONAL : Z := 1.
Definition CERT_REQUIRED : Z := 2.

Definition bad_congestion_control (o : PyObject.t) : bool :=
  match o with
  | PyStr s => negb (bool_decide (s ∈ CONGESTION_CONTROL_ALGORITHMS))
  | _ => true
  end.

Definition bad_verify_mode (o : PyObject.t) : bool :=
  negb (existsb (num_eq o) [CERT_NONE; CERT_OPTIONAL; CERT_REQUIRED]).

(** [z > o]: an exact comparison with a number, an error with anything else. *)
Definition int_exceeds (z : Z) (o : PyObject.t) : result bool PyErr :=
  match o with
  | PyInt w => Ok (w <? z)
  | PyBool value => Ok (Z.b2z value <? z)
  | PyFloat (S754_finite sign m e) =>
      let w := cond_Zopp sign (Zpos m) in
      Ok (if 0 <=? e then w * 2 ^ e <? z else w <? z * 2 ^ (- e))
  | PyFloat (S754_zero _) => Ok (0 <? z)
  | PyFloat (S754_infinity sign) => Ok sign
  | PyFloat S754_nan => Ok false
  | _ => Err (PyException.mk (b: "TypeError") (b: "not supported") None)
  end.

(** ** Validation *)

(** The [ConfigurationError] names the field and its value. *)
Inductive invalid : Type :=
| Invalid (config_key : str) (config_value : PyObject.t)
| Raised (e : PyErr).

Definition raises {T} (r : result T PyErr) : result T invalid :=
  match r with Ok t => Ok t | Err e => Err (Raised e) end.

(** The statement [if ..: raise ConfigurationError(..)] of a field. *)
Definition check (bad : PyObject.t -> bool) (key : str) (config : t) : result () invalid :=
  let? value := raises (getattr config key) in
  if bad value then Err (Invalid key value) else Ok ().

(** [max_datagram_size] is compared with [max_udp_payload_size] before that is known
    to be a number. *)
Definition check_datagram_size (config : t) : result () invalid :=
  let? value := raises (getattr config (b: "max_datagram_size")) in
  let bad := Err (Invalid (b: "max_datagram_size") value) in
  if bad_positive_int value then bad
  else
    let? limit := raises (getattr config (b: "max_udp_payload_size")) in
    let? exceeds := raises (int_exceeds (int_value value) limit) in
    if exceeds : bool then bad else Ok ().

Fixpoint run_checks (checks : list (t -> result () invalid)) (config : t) : result () invalid :=
  match checks with
  | [] => Ok ()
  | check :: rest => let? _ := check config in run_checks rest config
  end.

(** [_BaseConfig._validate]. *)
Definition base_checks : list (t -> result () invalid) := [
  check bad_positive_number (b: "close_timeout");
  check bad_congestion_control (b: "congestion_control_algorithm");
  check bad_positive_int (b: "connection_receive_window");
  check bad_positive_int (b: "connection_send_window");
  check (bad_int_between 0 QUIC_VARINT_LIMIT) (b: "initial_max_data");
  check (bad_int_between 0 WT_STREAMS_LIMIT) (b: "initial_max_streams_bidi");
  check (bad_int_between 0 WT_STREAMS_LIMIT) (b: "initial_max_streams_uni");
  check bad_optional_number (b: "keep_alive_interval");
  check bad_positive_int (b: "max_capsule_size");
  check bad_positive_int (b: "max_connection_pending_events");
  check bad_positive_int (b: "max_connections");
  check_datagram_size;
  check (bad_int_between 1 FIELD_SECTION_SIZE_LIMIT) (b: "max_field_section_size");
  check bad_positive_number (b: "max_idle_timeout");
  check bad_positive_int (b: "max_pending_capsules");
  check bad_positive_int (b: "max_pending_datagrams");
  check bad_positive_int (b: "max_pending_streams");
  check bad_positive_int (b: "max_session_pending_events");
  check bad_positive_int (b: "max_sessions");
  check (bad_int_between WT_SESSION_CONNECT_STREAM_COUNT WT_STREAMS_LIMIT) (b: "max_streams_bidi");
  check (bad_int_between H3_MIN_UNI_STREAM_COUNT WT_STREAMS_LIMIT) (b: "max_streams_uni");
  check (bad_int_between QUIC_MIN_UDP_PAYLOAD_SIZE_LIMIT QUIC_UDP_PAYLOAD_SIZE_LIMIT)
    (b: "max_udp_payload_size");
  check bad_positive_int (b: "max_write_buffer_size");
  check bad_positive_number (b: "pending_event_ttl");
  check bad_optional_number (b: "read_timeout");
  check bad_positive_number (b: "resource_cleanup_interval");
  check bad_positive_int (b: "session_receive_window");
  check bad_positive_number (b: "stream_create_timeout");
  check bad_positive_int (b: "stream_receive_window")].

(** The file of a certificate or a key, which the client takes both or neither of. *)
Definition check_paired (key other : str) (config : t) : result () invalid :=
  let? value := raises (getattr config key) in
  let? other := raises (getattr config other) in
  if (negb (is_none other) && is_none value) || bad_optional_str value
  then Err (Invalid key value) else Ok ().

Definition is_text (o : PyObject.t) : bool :=
  match o with PyStr _ | PyBytes _ => true | _ => false end.

Definition bad_headers (o : PyObject.t) : bool :=
  negb match o with
       | PyDict items => forallb (fun '(key, value) => is_text key && is_text value) items
       | PyList items =>
           forallb (fun item => match item with
             | PyTuple [key; value] => is_text key && is_text value
             | _ => false
             end) items
       | _ => false
       end.

Definition bad_protocols (o : PyObject.t) : bool :=
  match o with
  | PyNone => false
  | PyList items => negb (forallb is_str items)
  | _ => true
  end.

(** [ClientConfig._validate]. *)
Definition client_checks : list (t -> result () invalid) := base_checks ++ [
  check bad_optional_str (b: "ca_certs");
  check_paired (b: "certfile") (b: "keyfile");
  check bad_positive_number (b: "connect_timeout");
  check bad_positive_number (b: "connection_attempt_delay");
  check bad_headers (b: "headers");
  check_paired (b: "keyfile") (b: "certfile");
  check bad_optional_str (b: "user_agent");
  check bad_verify_mode (b: "verify_mode");
  check bad_protocols (b: "wt_available_protocols")].

(** Certificates of clients are verified against [ca_certs]. *)
Definition check_server_ca (config : t) : result () invalid :=
  let? value := raises (getattr config (b: "ca_certs")) in
  let? mode := raises (getattr config (b: "verify_mode")) in
  if bad_optional_str value
     || ((num_eq mode CERT_REQUIRED || num_eq mode CERT_OPTIONAL) && is_empty value)
  then Err (Invalid (b: "ca_certs") value) else Ok ().

(** [ServerConfig._validate]. *)
Definition server_checks : list (t -> result () invalid) := base_checks ++ [
  check bad_nonempty_str (b: "bind_host");
  check (bad_int_between 1 65535) (b: "bind_port");
  check_server_ca;
  check bad_nonempty_str (b: "certfile");
  check bad_nonempty_str (b: "keyfile");
  check bad_verify_mode (b: "verify_mode")].

Definition validate_client (config : t) : result () invalid := run_checks client_checks config.
Definition validate_server (config : t) : result () invalid := run_checks server_checks config.

(** ** Defaults *)

Definition base_defaults : t := [
  (b: "close_timeout", PyFloat DEFAULT_CLOSE_TIMEOUT);
  (b: "congestion_control_algorithm", PyStr DEFAULT_CONGESTION_CONTROL_ALGORITHM);
  (b: "connection_receive_window", PyInt DEFAULT_CONNECTION_RECEIVE_WINDOW);
  (b: "connection_send_window", PyInt DEFAULT_CONNECTION_SEND_WINDOW);
  (b: "initial_max_data", PyInt DEFAULT_INITIAL_MAX_DATA);
  (b: "initial_max_streams_bidi", PyInt DEFAULT_INITIAL_MAX_STREAMS_BIDI);
  (b: "initial_max_streams_uni", PyInt DEFAULT_INITIAL_MAX_STREAMS_UNI);
  (b: "keep_alive_interval", PyFloat DEFAULT_KEEP_ALIVE_INTERVAL);
  (b: "max_capsule_size", PyInt DEFAULT_MAX_CAPSULE_SIZE);
  (b: "max_connection_pending_events", PyInt DEFAULT_MAX_CONNECTION_PENDING_EVENTS);
  (b: "max_connections", PyInt DEFAULT_MAX_CONNECTIONS);
  (b: "max_datagram_size", PyInt DEFAULT_MAX_DATAGRAM_SIZE);
  (b: "max_field_section_size", PyInt DEFAULT_MAX_FIELD_SECTION_SIZE);
  (b: "max_idle_timeout", PyFloat DEFAULT_MAX_IDLE_TIMEOUT);
  (b: "max_pending_capsules", PyInt DEFAULT_MAX_PENDING_CAPSULES);
  (b: "max_pending_datagrams", PyInt DEFAULT_MAX_PENDING_DATAGRAMS);
  (b: "max_pending_streams", PyInt DEFAULT_MAX_PENDING_STREAMS);
  (b: "max_session_pending_events", PyInt DEFAULT_MAX_SESSION_PENDING_EVENTS);
  (b: "max_sessions", PyInt DEFAULT_MAX_SESSIONS);
  (b: "max_streams_bidi", PyInt DEFAULT_MAX_STREAMS_BIDI);
  (b: "max_streams_uni", PyInt DEFAULT_MAX_STREAMS_UNI);
  (b: "max_udp_payload_size", PyInt DEFAULT_MAX_UDP_PAYLOAD_SIZE);
  (b: "max_write_buffer_size", PyInt DEFAULT_MAX_WRITE_BUFFER_SIZE);
  (b: "pending_event_ttl", PyFloat DEFAULT_PENDING_EVENT_TTL);
  (b: "read_timeout", PyFloat DEFAULT_READ_TIMEOUT);
  (b: "resource_cleanup_interval", PyFloat DEFAULT_RESOURCE_CLEANUP_INTERVAL);
  (b: "session_receive_window", PyInt DEFAULT_SESSION_RECEIVE_WINDOW);
  (b: "stream_create_timeout", PyFloat DEFAULT_STREAM_CREATE_TIMEOUT);
  (b: "stream_receive_window", PyInt DEFAULT_STREAM_RECEIVE_WINDOW)].

Definition client_defaults : t := base_defaults ++ [
  (b: "ca_certs", PyNone);
  (b: "certfile", PyNone);
  (b: "connect_timeout", PyFloat DEFAULT_CONNECT_TIMEOUT);
  (b: "connection_attempt_delay", PyFloat DEFAULT_CONNECTION_ATTEMPT_DELAY);
  (b: "headers", PyDict []);
  (b: "keyfile", PyNone);
  (b: "user_agent", PyNone);
  (b: "verify_mode", PyInt CERT_REQUIRED);
  (b: "wt_available_protocols", PyNone)].

(** [certfile] and [keyfile] of a server have no default. *)
Definition server_defaults (certfile keyfile : str) : t := base_defaults ++ [
  (b: "bind_host", PyStr DEFAULT_BIND_HOST);
  (b: "bind_port", PyInt DEFAULT_BIND_PORT);
  (b: "ca_certs", PyNone);
  (b: "certfile", PyStr certfile);
  (b: "keyfile", PyStr keyfile);
  (b: "verify_mode", PyInt CERT_NONE)].

End PyConfig.
