(* ===== verification/FfiConfig.v ===== *)
(** * Configuration read by the crate

    [crates/src/ffi/config.rs]: the configuration records of the crate from the
    attributes of a Python object, and the client record of [common/config.rs]. *)

From S2P Require Import Prelude.
From S2P Require Import Types.
From S2P Require Import Quinn.
From S2P Require Import EndpointMachine.
From S2P Require Import Pyo3.
From S2P Require Import FfiConversion.
From S2P Require Import PyConfig.
Import PyObject.

Module RustClientConfig.
Record t : Set := mk {
  base : RustBaseConfig.t;
  ca_certs : option str;
  certfile : option str;
  keyfile : option str;
  verify_server_certificate : bool;
}.
End RustClientConfig.

(** ** Durations *)

(** The nearest integer to [n / d], the even one of two. *)
Definition round_half_even (n d : Z) : Z :=
  let q := n / d in
  let twice := 2 * (n mod d) in
  if (twice <? d) || ((twice =? d) && Z.even q) then q else q + 1.

(** [Duration::from_secs_f64], in nanoseconds; [None] is the panic on a number that
    is negative, not finite or not less than 2^64 seconds. *)
Definition duration_from_secs_f64 (secs : f64) : option Duration :=
  match secs with
  | S754_zero _ => Some 0
  | S754_finite false m e =>
      if 0 <=? e then
        (if Zpos m * 2 ^ e <? 2 ^ 64 then Some (Zpos m * 2 ^ e * 1000000000) else None)
      else
        (if Zpos m <? 2 ^ 64 * 2 ^ (- e)
         then Some (round_half_even (Zpos m * 1000000000) (2 ^ (- e))) else None)
  | _ => None
  end.

(** PyO3 turns a panic into an exception. *)
Definition panic_exception : PyErr := PyException.mk (b: "PanicException") [] None.

Section from_py.
Context `{PyO3}.

(** [config.getattr(name)?.extract()?] at a type. *)
Definition attribute {T} (extract : PyObject.t -> result T PyErr) (config : PyConfig.t)
    (name : str) : result T PyErr :=
  let? value := PyConfig.getattr config name in
  extract value.

Definition from_secs (secs : f64) : result Duration PyErr :=
  match duration_from_secs_f64 secs with Some d => Ok d | None => Err panic_exception end.

Definition from_optional_secs (secs : option f64) : result (option Duration) PyErr :=
  match secs with
  | Some secs => let? d := from_secs secs in Ok (Some d)
  | None => Ok None
  end.

(** [TryFrom for RustBaseConfig]. *)
Definition base_try_from (config : PyConfig.t) : result RustBaseConfig.t PyErr :=
  let u64 := attribute extract_u64 config in
  let f64 := attribute extract_f64 config in
  let? congestion_control_algorithm :=
    attribute extract_string config (b: "congestion_control_algorithm") in
  let? connection_receive_window := u64 (b: "connection_receive_window") in
  let? connection_send_window := u64 (b: "connection_send_window") in
  let? initial_max_data := u64 (b: "initial_max_data") in
  let? initial_max_streams_bidi := u64 (b: "initial_max_streams_bidi") in
  let? initial_max_streams_uni := u64 (b: "initial_max_streams_uni") in
  let? keep_alive_interval :=
    attribute (extract_option extract_f64) config (b: "keep_alive_interval") in
  let? max_capsule_size := u64 (b: "max_capsule_size") in
  let? max_connection_pending_events := u64 (b: "max_connection_pending_events") in
  let? max_connections := u64 (b: "max_connections") in
  let? max_datagram_size := u64 (b: "max_datagram_size") in
  let? max_field_section_size := u64 (b: "max_field_section_size") in
  let? max_idle_timeout := f64 (b: "max_idle_timeout") in
  let? max_pending_capsules := u64 (b: "max_pending_capsules") in
  let? max_pending_datagrams := u64 (b: "max_pending_datagrams") in
  let? max_pending_streams := u64 (b: "max_pending_streams") in
  let? max_session_pending_events := u64 (b: "max_session_pending_events") in
  let? max_sessions := u64 (b: "max_sessions") in
  let? max_streams_bidi := u64 (b: "max_streams_bidi") in
  let? max_streams_uni := u64 (b: "max_streams_uni") in
  let? max_udp_payload_size := u64 (b: "max_udp_payload_size") in
  let? max_write_buffer_size := u64 (b: "max_write_buffer_size") in
  let? pending_event_ttl := f64 (b: "pending_event_ttl") in
  let? resource_cleanup_interval := f64 (b: "resource_cleanup_interval") in
  let? session_receive_window := u64 (b: "session_receive_window") in
  let? stream_receive_window := u64 (b: "stream_receive_window") in
  let? keep_alive_interval := from_optional_secs keep_alive_interval in
  let? max_idle_timeout := from_secs max_idle_timeout in
  let? pending_event_ttl := from_secs pending_event_ttl in
  let? resource_cleanup_interval := from_secs resource_cleanup_interval in
  Ok {|
    RustBaseConfig.congestion_control_algorithm := congestion_control_algorithm;
    RustBaseConfig.connection_receive_window := connection_receive_window;
    RustBaseConfig.connection_send_window := connection_send_window;
    RustBaseConfig.initial_max_data := initial_max_data;
    RustBaseConfig.initial_max_streams_bidi := initial_max_streams_bidi;
    RustBaseConfig.initial_max_streams_uni := initial_max_streams_uni;
    RustBaseConfig.keep_alive_interval := keep_alive_interval;
    RustBaseConfig.max_capsule_size := max_capsule_size;
    RustBaseConfig.max_connection_pending_events := max_connection_pending_events;
    RustBaseConfig.max_connections := max_connections;
    RustBaseConfig.max_datagram_size := max_datagram_size;
    RustBaseConfig.max_field_section_size := max_field_section_size;
    RustBaseConfig.max_idle_timeout := max_idle_timeout;
    RustBaseConfig.max_pending_capsules := max_pending_capsules;
    RustBaseConfig.max_pending_datagrams := max_pending_datagrams;
    RustBaseConfig.max_pending_streams := max_pending_streams;
    RustBaseConfig.max_session_pending_events := max_session_pending_events;
    RustBaseConfig.max_sessions := max_sessions;
    RustBaseConfig.max_streams_bidi := max_streams_bidi;
    RustBaseConfig.max_streams_uni := max_streams_uni;
    RustBaseConfig.max_udp_payload_size := max_udp_payload_size;
    RustBaseConfig.max_write_buffer_size := max_write_buffer_size;
    RustBaseConfig.pending_event_ttl := pending_event_ttl;
    RustBaseConfig.resource_cleanup_interval := resource_cleanup_interval;
    RustBaseConfig.session_receive_window := session_receive_window;
    RustBaseConfig.stream_receive_window := stream_receive_window;
  |}.

(** [verify_mode] against the value that decides; [None] gives the default. *)
Definition verify_mode_is (test : Z -> bool) (when_none : bool) (config : PyConfig.t)
    : result bool PyErr :=
  let? verify_mode := PyConfig.getattr config (b: "verify_mode") in
  match verify_mode with
  | PyNone => Ok when_none
  | _ => let? verify_mode := extract_int i32_range verify_mode in Ok (test verify_mode)
  end.

Definition client_try_from (config : PyConfig.t) : result RustClientConfig.t PyErr :=
  let? base := base_try_from config in
  let? ca_certs := attribute extract_option_string config (b: "ca_certs") in
  let? certfile := attribute extract_option_string config (b: "certfile") in
  let? keyfile := attribute extract_option_string config (b: "keyfile") in
  let? verify_server_certificate := verify_mode_is (fun mode => negb (mode =? 0)) true config in
  Ok (RustClientConfig.mk base ca_certs certfile keyfile verify_server_certificate).

Definition server_try_from (config : PyConfig.t) : result RustServerConfig.t PyErr :=
  let? base := base_try_from config in
  let? bind_host := attribute extract_string config (b: "bind_host") in
  let? bind_port := attribute (extract_int u16_range) config (b: "bind_port") in
  let? ca_certs := attribute extract_option_string config (b: "ca_certs") in
  let? certfile := attribute extract_string config (b: "certfile") in
  let? keyfile := attribute extract_string config (b: "keyfile") in
  let? require_client_auth := verify_mode_is (fun mode => mode =? 2) false config in
  Ok (RustServerConfig.mk base bind_host bind_port ca_certs certfile keyfile require_client_auth).

End from_py.
