(* ===== verification/QuicConfig.v ===== *)
(** * QUIC and TLS configuration

    [crates/src/transport/config.rs], with the loading of certificates and the verifier
    that verifies nothing from [crates/src/tls/certificate.rs]: the configuration
    objects of quinn and rustls, as what the crate sets in them.  The checks of the two
    libraries and the files are the fields of the classes [QuinnConfig] and [Rustls]. *)

From S2P Require Import Prelude.
From S2P Require Import Types.
From S2P Require Import Quinn.
From S2P Require Import TransportMachine.
From S2P Require Import EndpointMachine.
From S2P Require Import FfiConfig.

(** ** Transport *)

Module QuicCongestion.
Inductive t : Set :=
| Bbr
| Cubic
| NewReno.
End QuicCongestion.

(** [TransportConfig]: the settings the crate makes, which are the ones below. *)
Module QuicTransportConfig.
Record t : Set := mk {
  congestion_controller_factory : QuicCongestion.t;
  datagram_receive_buffer_size : option Z;
  datagram_send_buffer_size : Z;
  keep_alive_interval : option Duration;
  max_concurrent_bidi_streams : Z;
  max_concurrent_uni_streams : Z;
  max_idle_timeout : option Z;
  receive_window : Z;
  send_window : Z;
  stream_receive_window : Z;
}.
End QuicTransportConfig.

Class QuinnConfig := {
  (** [IdleTimeout::try_from], in milliseconds. *)
  quic_idle_timeout : Duration -> result Z str;
  (** [EndpointConfig::max_udp_payload_size]. *)
  quic_max_udp_payload_size : Z -> result () str;
  (** The [Display] texts of the errors of [VarInt] and of integer conversions. *)
  varint_error_text : str;
  try_from_int_error_text : str;
}.

(** Documented: a timeout is a [VarInt] of milliseconds, and a UDP payload is at least
    1200 and at most 65527 bytes. *)
Class QuinnConfigLaws `{QuinnConfig} := {
  quic_idle_timeout_law d : 0 <= d ->
    if d / 1000000 <=? QUIC_VARINT_LIMIT then quic_idle_timeout d = Ok (d / 1000000)
    else exists e, quic_idle_timeout d = Err e;
  quic_max_udp_payload_size_law n :
    if (1200 <=? n) && (n <=? 65527) then quic_max_udp_payload_size n = Ok ()
    else exists e, quic_max_udp_payload_size n = Err e;
}.

Definition DATAGRAM_QUEUE_CAPACITY : Z := 64.

(** [map_err] to [WebTransportError::Configuration] with the text of the error. *)
Definition configuration {T} (r : result T str) : result T WebTransportError.t :=
  match r with Ok t => Ok t | Err e => Err (WebTransportError.Configuration None e) end.

Section transport.
Context `{QuinnConfig}.

(** [VarInt::try_from]. *)
Definition quic_varint (z : Z) : result Z str :=
  match TransportConnection.varint_try_from z with
  | Some z => Ok z
  | None => Err varint_error_text
  end.

Definition saturating_mul (x y : Z) : Z := Z.min (x * y) U64_MAX.

(** [usize::try_from(total_size)] never fails on the 64-bit targets. *)
Definition build_transport_config (base_config : RustBaseConfig.t)
    : result QuicTransportConfig.t WebTransportError.t :=
  let algorithm := RustBaseConfig.congestion_control_algorithm base_config in
  let? factory :=
    if bool_decide (algorithm = b: "bbr") then Ok QuicCongestion.Bbr
    else if bool_decide (algorithm = b: "cubic") then Ok QuicCongestion.Cubic
    else if bool_decide (algorithm = b: "reno") then Ok QuicCongestion.NewReno
    else Err (WebTransportError.Configuration None
                (b: "cfg_congestion_control_algorithm validate invalid")) in
  let max_datagram_size := RustBaseConfig.max_datagram_size base_config in
  let '(receive_buffer, send_buffer) :=
    if 0 <? max_datagram_size then
      let buffer_capacity := saturating_mul max_datagram_size DATAGRAM_QUEUE_CAPACITY in
      (Some buffer_capacity, buffer_capacity)
    else (None, 0) in
  let? max_streams_bidi :=
    configuration (quic_varint (RustBaseConfig.max_streams_bidi base_config)) in
  let? max_streams_uni :=
    configuration (quic_varint (RustBaseConfig.max_streams_uni base_config)) in
  let? max_idle_timeout :=
    configuration (quic_idle_timeout (RustBaseConfig.max_idle_timeout base_config)) in
  let? connection_receive_window :=
    configuration (quic_varint (RustBaseConfig.connection_receive_window base_config)) in
  let? stream_receive_window :=
    configuration (quic_varint (RustBaseConfig.stream_receive_window base_config)) in
  Ok {|
    QuicTransportConfig.congestion_controller_factory := factory;
    QuicTransportConfig.datagram_receive_buffer_size := receive_buffer;
    QuicTransportConfig.datagram_send_buffer_size := send_buffer;
    QuicTransportConfig.keep_alive_interval := RustBaseConfig.keep_alive_interval base_config;
    QuicTransportConfig.max_concurrent_bidi_streams := max_streams_bidi;
    QuicTransportConfig.max_concurrent_uni_streams := max_streams_uni;
    QuicTransportConfig.max_idle_timeout := Some max_idle_timeout;
    QuicTransportConfig.receive_window := connection_receive_window;
    QuicTransportConfig.send_window := RustBaseConfig.connection_send_window base_config;
    QuicTransportConfig.stream_receive_window := stream_receive_window;
  |}.

(** The payload size of an [EndpointConfig] that is otherwise the default. *)
Definition build_endpoint_config (config : RustBaseConfig.t) : result Z WebTransportError.t :=
  let? max_udp_payload_size :=
    match u16_try_from (RustBaseConfig.max_udp_payload_size config) with
    | Some n => Ok n
    | None => Err (WebTransportError.Configuration None try_from_int_error_text)
    end in
  let? _ := configuration (quic_max_udp_payload_size max_udp_payload_size) in
  Ok max_udp_payload_size.

End transport.

(** ** TLS *)

Class Rustls := {
  CertificateDer : Type;
  PrivateKeyDer : Type;
  RootCertStore : Type;
  (** [pem_file_iter] and [from_pem_file] on the files of the host. *)
  pem_file_iter : str -> result (list (result CertificateDer str)) str;
  private_key_from_pem_file : str -> result PrivateKeyDer str;
  root_store_empty : RootCertStore;
  root_store_add : RootCertStore -> CertificateDer -> result RootCertStore str;
  (** [extend(TLS_SERVER_ROOTS)]. *)
  root_store_extend_webpki : RootCertStore -> RootCertStore;
  load_native_certs : list CertificateDer;
  (** What the builders and conversions check. *)
  with_protocol_versions : result () str;
  with_client_auth_cert : list CertificateDer -> PrivateKeyDer -> result () str;
  with_single_cert : list CertificateDer -> PrivateKeyDer -> result () str;
  client_verifier_build : RootCertStore -> result () str;
  quic_client_crypto : result () str;
  quic_server_crypto : result () str;
}.

(** [NoCertificateVerification]: no certificate or signature is refused. *)
Module NoCertificateVerification.
Inductive SignatureScheme : Set :=
| ECDSA_NISTP256_SHA256
| ECDSA_NISTP384_SHA384
| ECDSA_NISTP521_SHA512
| ECDSA_SHA1_Legacy
| ED25519
| ED448
| RSA_PKCS1_SHA1
| RSA_PKCS1_SHA256
| RSA_PKCS1_SHA384
| RSA_PKCS1_SHA512
| RSA_PSS_SHA256
| RSA_PSS_SHA384
| RSA_PSS_SHA512.

Definition supported_verify_schemes : list SignatureScheme :=
  [ECDSA_NISTP256_SHA256; ECDSA_NISTP384_SHA384; ECDSA_NISTP521_SHA512; ECDSA_SHA1_Legacy;
   ED25519; ED448; RSA_PKCS1_SHA1; RSA_PKCS1_SHA256; RSA_PKCS1_SHA384; RSA_PKCS1_SHA512;
   RSA_PSS_SHA256; RSA_PSS_SHA384; RSA_PSS_SHA512].

Definition verify_server_cert (end_entity : bytes) (intermediates : list bytes)
    (server_name ocsp_response : bytes) (now : Z) : result () str := Ok ().
Definition verify_tls12_signature (message cert dss : bytes) : result () str := Ok ().
Definition verify_tls13_signature (message cert dss : bytes) : result () str := Ok ().
End NoCertificateVerification.

(** How a client verifies the server: by the roots, or not at all. *)
Module ServerVerifier.
Inductive t : Set :=
| WebPki
| NoCertificateVerification.
End ServerVerifier.

Module TlsClientConfig.
Record t `{Rustls} : Type := mk {
  roots : RootCertStore;
  client_auth : option (list CertificateDer * PrivateKeyDer);
  alpn_protocols : list bytes;
  verifier : ServerVerifier.t;
}.
End TlsClientConfig.

(** [client_roots] are those clients are verified against, if they are. *)
Module TlsServerConfig.
Record t `{Rustls} : Type := mk {
  client_roots : option RootCertStore;
  single_cert : list CertificateDer * PrivateKeyDer;
  alpn_protocols : list bytes;
}.
End TlsServerConfig.

Section tls.
Context `{QuinnConfig, Rustls}.

Fixpoint collect_certs (certs : list (result CertificateDer str))
    : result (list CertificateDer) str :=
  match certs with
  | [] => Ok []
  | cert :: rest =>
      let? cert := cert in
      let? rest := collect_certs rest in
      Ok (cert :: rest)
  end.

Definition load_certs (path : str) : result (list CertificateDer) str :=
  let? certs := pem_file_iter path in
  collect_certs certs.

Definition load_private_key (path : str) : result PrivateKeyDer str :=
  private_key_from_pem_file path.

(** The loop that adds every certificate or fails. *)
Fixpoint add_certs (store : RootCertStore) (certs : list CertificateDer)
    : result RootCertStore str :=
  match certs with
  | [] => Ok store
  | cert :: rest => let? store := root_store_add store cert in add_certs store rest
  end.

(** The loop that adds those it can. *)
Fixpoint add_valid_certs (store : RootCertStore) (certs : list CertificateDer) (valid_count : Z)
    : RootCertStore * Z :=
  match certs with
  | [] => (store, valid_count)
  | cert :: rest =>
      match root_store_add store cert with
      | Ok store => add_valid_certs store rest (valid_count + 1)
      | Err _ => add_valid_certs store rest valid_count
      end
  end.

Definition NATIVE_ROOT_CERTS : RootCertStore :=
  let '(store, valid_count) := add_valid_certs root_store_empty load_native_certs 0 in
  if valid_count =? 0 then root_store_extend_webpki store else store.

(** The store of the certificates in a file. *)
Definition roots_from_file (ca_path : str) : result RootCertStore WebTransportError.t :=
  let? certs := configuration (load_certs ca_path) in
  configuration (add_certs root_store_empty certs).

Definition build_client_config (config : RustClientConfig.t)
    : result (TlsClientConfig.t * QuicTransportConfig.t) WebTransportError.t :=
  let? root_store :=
    match RustClientConfig.ca_certs config with
    | Some ca_path => roots_from_file ca_path
    | None => Ok NATIVE_ROOT_CERTS
    end in
  let? _ := configuration with_protocol_versions in
  let? client_auth :=
    match RustClientConfig.certfile config, RustClientConfig.keyfile config with
    | Some cert_path, Some key_path =>
        let? certs := configuration (load_certs cert_path) in
        let? key := configuration (load_private_key key_path) in
        let? _ := configuration (with_client_auth_cert certs key) in
        Ok (Some (certs, key))
    | _, _ => Ok None
    end in
  let verifier :=
    if RustClientConfig.verify_server_certificate config then ServerVerifier.WebPki
    else ServerVerifier.NoCertificateVerification in
  let crypto := TlsClientConfig.mk _ root_store client_auth ALPN_PROTOCOLS verifier in
  let? _ := configuration quic_client_crypto in
  let? transport_config := build_transport_config (RustClientConfig.base config) in
  Ok (crypto, transport_config).

Definition build_server_config (config : RustServerConfig.t)
    : result (TlsServerConfig.t * QuicTransportConfig.t) WebTransportError.t :=
  let? certs := configuration (load_certs (RustServerConfig.certfile config)) in
  let? key := configuration (load_private_key (RustServerConfig.keyfile config)) in
  let? _ := configuration with_protocol_versions in
  let? client_roots :=
    if RustServerConfig.require_client_auth config then
      let? root_store :=
        match RustServerConfig.ca_certs config with
        | Some ca_path => roots_from_file ca_path
        | None => Ok root_store_empty
        end in
      let? _ := configuration (client_verifier_build root_store) in
      Ok (Some root_store)
    else Ok None in
  let? _ := configuration (with_single_cert certs key) in
  let crypto := TlsServerConfig.mk _ client_roots (certs, key) ALPN_PROTOCOLS in
  let? _ := configuration quic_server_crypto in
  let? transport_config := build_transport_config (RustServerConfig.base config) in
  Ok (crypto, transport_config).

End tls.

(** ** An instance

    A host whose files hold one certificate each, named like the file. *)

Module Sample.

#[export] Instance sample_quinn : QuinnConfig := {|
  quic_idle_timeout d :=
    if d / 1000000 <=? QUIC_VARINT_LIMIT then Ok (d / 1000000) else Err (b: "timeout");
  quic_max_udp_payload_size n :=
    if (1200 <=? n) && (n <=? 65527) then Ok () else Err (b: "payload");
  varint_error_text := b: "varint";
  try_from_int_error_text := b: "integer";
|}.

#[export] Instance sample_quinn_laws : QuinnConfigLaws.
Proof.
  split; cbn.
  - intros d _. destruct (_ <=? _); [done|by eexists].
  - intros n. destruct (_ && _); [done|by eexists].
Qed.

#[export] Instance sample_rustls : Rustls := {|
  CertificateDer := bytes;
  PrivateKeyDer := bytes;
  RootCertStore := list bytes;
  pem_file_iter path := Ok [Ok path];
  private_key_from_pem_file path := Ok path;
  root_store_empty := [];
  root_store_add store cert := Ok (store ++ [cert]);
  root_store_extend_webpki store := store ++ [b: "webpki"];
  load_native_certs := [b: "native"];
  with_protocol_versions := Ok ();
  with_client_auth_cert _ _ := Ok ();
  with_single_cert _ _ := Ok ();
  client_verifier_build _ := Ok ();
  quic_client_crypto := Ok ();
  quic_server_crypto := Ok ();
|}.

End Sample.
