(* ===== verification/FfiEndpoint.v ===== *)
(** * The endpoint Python holds

    [crates/src/ffi/endpoint.rs]: how an endpoint comes to be, from a configuration to
    the thread of the reactor, and the methods Python calls on it.  Sockets, names,
    threads and the tokio runtime are the class [Host]; [QuinnNew] are the constructors
    of quinn.  The two channels are shared with the reactor: [System] puts the two
    threads next to each other. *)

From S2P Require Import Prelude.
From S2P Require Import Types.
From S2P Require Import Events.
From S2P Require Import Qpack.
From S2P Require Import Quinn.
From S2P Require Import TransportMachine.
From S2P Require Import EndpointMachine.
From S2P Require Import ReactorMachine.
From S2P Require Import Pyo3.
From S2P Require Import FfiConversion.
From S2P Require Import PyConfig.
From S2P Require Import FfiConfig.
From S2P Require Import QuicConfig.
Import PyObject.

(** ** What the host and quinn provide *)

Class Host := {
  StdSocket : Type;
  (** [UdpSocket::bind], [set_nonblocking] and [local_addr]; the code looks only at
      the error of the second, which it hands on. *)
  udp_bind : SocketAddr.t -> option StdSocket;
  set_nonblocking : StdSocket -> result () PyErr;
  std_local_addr : StdSocket -> option SocketAddr.t;
  (** [to_socket_addrs] of a host and port. *)
  to_socket_addrs : str * Z -> result (list SocketAddr.t) str;
  (** Starting a thread, building the runtime in it, and giving it a socket. *)
  thread_spawn : result () str;
  runtime_build : result () str;
  tokio_from_std : StdSocket -> option Z;
  (** The [Display] text of an error of [try_send]: whether the channel is full. *)
  try_send_error_text : bool -> str;
}.

Class QuinnNew `{QuinnEndpoint, Rustls} := {
  quic_client_config : TlsClientConfig.t * QuicTransportConfig.t -> QuicClientConfig;
  quic_endpoint_new : Z -> option (TlsServerConfig.t * QuicTransportConfig.t) -> QuicEndpoint;
}.

(** [?] on an error of the crate in a method for Python. *)
Definition into_py_err {T} (r : result T WebTransportError.t) : result T PyErr :=
  match r with Ok t => Ok t | Err e => Err (py_err_from e) end.

Definition runtime_error {T} (context : str) (r : result T str) : result T PyErr :=
  match r with Ok t => Ok t | Err e => Err (PyRuntimeError (context ++ e)) end.

(** ** Sockets *)

Section sockets.
Context `{Host}.

(** A socket that cannot be bound is left out. *)
Definition bind_socket (address : SocketAddr.t) : result (option StdSocket) PyErr :=
  match udp_bind address with
  | Some socket => let? _ := set_nonblocking socket in Ok (Some socket)
  | None => Ok None
  end.

Definition no_socket : PyErr := PyRuntimeError (b: "sys_socket create failed").

(** [[::]:0], then [0.0.0.0:0]. *)
Definition client_sockets : result (list StdSocket) PyErr :=
  let? v6 := bind_socket (SocketAddr.V6 0 0 0 0) in
  let? v4 := bind_socket (SocketAddr.V4 0 0) in
  let sockets := option_list v6 ++ option_list v4 in
  if bool_decide (sockets = []) then Err no_socket else Ok sockets.

(** The loop over the addresses of the name: one socket of each family. *)
Fixpoint bind_addresses (addresses : list SocketAddr.t) (bound_v4 bound_v6 : bool)
    (sockets : list (SocketAddr.t * StdSocket)) : result (list (SocketAddr.t * StdSocket)) PyErr :=
  match addresses with
  | [] => Ok sockets
  | address :: rest =>
      let is_ipv4 := SocketAddr.is_ipv4 address in
      let is_ipv6 := negb is_ipv4 in
      if is_ipv4 && bound_v4 then bind_addresses rest bound_v4 bound_v6 sockets
      else if is_ipv6 && bound_v6 then bind_addresses rest bound_v4 bound_v6 sockets
      else
        let? socket := bind_socket address in
        match socket with
        | Some socket =>
            bind_addresses rest (bound_v4 || is_ipv4) (bound_v6 || is_ipv6)
              (sockets ++ [(address, socket)])
        | None => bind_addresses rest bound_v4 bound_v6 sockets
        end
  end.

Definition server_sockets (bind_address : str * Z) : result (list StdSocket) PyErr :=
  let? addresses := runtime_error (b: "hostname resolve failed err=") (to_socket_addrs bind_address) in
  let? sockets := bind_addresses addresses false false [] in
  if bool_decide (sockets.*2 = []) then Err no_socket else Ok sockets.*2.

(** What [Reactor::new] makes of a socket of tokio. *)
Definition bound_socket (socket : StdSocket) : option BoundSocket.t :=
  number ← tokio_from_std socket;
  Some (BoundSocket.mk (from_option SocketAddr.is_ipv4 false (std_local_addr socket)) number).

End sockets.

(** ** The endpoint *)

Module PyEndpoint.

(** The waiting commands and whether the reactor still receives them, the events, and
    whether the thread has not been joined. *)
Record t : Type := mk {
  command_tx : list RuntimeCommand.t;
  command_open : bool;
  event_rx : list RuntimeEvent.t;
  local_addresses : list SocketAddr.t;
  reactor_thread : bool;
}.

#[global] Instance eta_py_endpoint : Eta t := fun e =>
  mk (command_tx e) (command_open e) (event_rx e) (local_addresses e) (reactor_thread e).
#[global] Instance set_command_tx : Setter command_tx := ltac:(build_setter).
#[global] Instance set_command_open : Setter command_open := ltac:(build_setter).
#[global] Instance set_event_rx : Setter event_rx := ltac:(build_setter).
#[global] Instance set_reactor_thread : Setter reactor_thread := ltac:(build_setter).

Section construction.
Context `{LsQpack, QuinnNew, QuinnConfig, PyO3, Host}.

(** The endpoint of the transport and its sockets, by the role. *)
Definition transport (config : PyConfig.t) (is_client : bool)
    : result (TransportEndpoint.t * list StdSocket) PyErr :=
  if is_client then
    let? config := client_try_from config in
    let? client_config := into_py_err (build_client_config config) in
    let? endpoint_config := into_py_err (build_endpoint_config (RustClientConfig.base config)) in
    let quic_endpoint := quic_endpoint_new endpoint_config None in
    let? transport_endpoint :=
      into_py_err (TransportEndpoint.new_client quic_endpoint (RustClientConfig.base config)
                     (quic_client_config client_config)) in
    let? sockets := client_sockets in
    Ok (transport_endpoint, sockets)
  else
    let? config := server_try_from config in
    let bind_address := (RustServerConfig.bind_host config, RustServerConfig.bind_port config) in
    let? server_config := into_py_err (build_server_config config) in
    let? endpoint_config := into_py_err (build_endpoint_config (RustServerConfig.base config)) in
    let quic_endpoint := quic_endpoint_new endpoint_config (Some server_config) in
    let? transport_endpoint :=
      into_py_err (TransportEndpoint.new_server quic_endpoint (RustServerConfig.base config) config) in
    let? sockets := server_sockets bind_address in
    Ok (transport_endpoint, sockets).

(** What the thread reports before it runs the reactor, and that reactor. *)
Definition thread_start (endpoint : TransportEndpoint.t) (std_sockets : list StdSocket)
    (start : Instant) : result Reactor.t str :=
  match runtime_build with
  | Ok _ =>
      let tokio_sockets := omap bound_socket std_sockets in
      if bool_decide (tokio_sockets = []) then Err (b: "sys_socket convert failed")
      else Ok (Reactor.new endpoint [] tokio_sockets start)
  | Err e => Err (b: "rt create failed err=" ++ e)
  end.

(** The endpoint, next to the reactor its thread runs from then on.  The thread always
    reports, so receiving the report does not fail. *)
Definition new (config : PyConfig.t) (is_client : bool) (start : Instant)
    : result (t * Reactor.t) PyErr :=
  let? built := transport config is_client in
  let '(endpoint, std_sockets) := built in
  let local_addresses := omap std_local_addr std_sockets in
  let? _ := runtime_error (b: "sys_thread create failed err=") thread_spawn in
  let? reactor := runtime_error [] (thread_start endpoint std_sockets start) in
  Ok ({| command_tx := []; command_open := true; event_rx := [];
         local_addresses := local_addresses; reactor_thread := true |}, reactor).

End construction.

(** ** Methods *)

Section methods.
Context `{PyO3, Host, IpText}.

(** More than nine tenths of the event queue are in use. *)
Definition congested (e : t) : bool :=
  RUNTIME_CHANNEL_CAPACITY * 9 / 10 <? len (event_rx e).

Definition exceeded : PyErr := PyRuntimeError (b: "rt_channel validate exceeded").

(** [try_send]: refused when the channel is full or the reactor gone. *)
Definition try_send (e : t) (command : RuntimeCommand.t) : result t str :=
  if negb (command_open e) then Err (try_send_error_text false)
  else if RUNTIME_CHANNEL_CAPACITY <=? len (command_tx e) then Err (try_send_error_text true)
  else Ok (e <| command_tx := command_tx e ++ [command] |>).

(** [extract::<(String, u16, u32, u32)>] and [extract::<(String, u16)>]. *)
Definition extract_address_v6 (object : PyObject.t) : result (str * Z * Z * Z) PyErr :=
  let? items := extract_tuple object in
  match items with
  | [ip; port; flowinfo; scope_id] =>
      let? ip := extract_string ip in
      let? port := extract_int u16_range port in
      let? flowinfo := extract_int u32_range flowinfo in
      let? scope_id := extract_int u32_range scope_id in
      Ok (ip, port, flowinfo, scope_id)
  | _ => Err (PyValueError (b: "tuple length"))
  end.

Definition extract_address (object : PyObject.t) : result (str * Z) PyErr :=
  let? items := extract_tuple object in
  match items with
  | [ip; port] =>
      let? ip := extract_string ip in
      let? port := extract_int u16_range port in
      Ok (ip, port)
  | _ => Err (PyValueError (b: "tuple length"))
  end.

(** [SocketAddr::new]. *)
Definition socket_addr (ip : IpAddr.t) (port : Z) : SocketAddr.t :=
  match ip with IpAddr.V4 ip => SocketAddr.V4 ip port | IpAddr.V6 ip => SocketAddr.V6 ip port 0 0 end.

Definition extract_socket_address (object : PyObject.t) : result SocketAddr.t PyErr :=
  match extract_address_v6 object with
  | Ok (ip, port, flowinfo, scope_id) =>
      match parse_ipv6 ip with
      | Ok ip => Ok (SocketAddr.V6 ip port flowinfo scope_id)
      | Err e => Err (PyValueError (b: "ipv6_address convert failed err=" ++ e))
      end
  | Err _ =>
      match extract_address object with
      | Ok (ip, port) =>
          match parse_ip ip with
          | Ok ip => Ok (socket_addr ip port)
          | Err e => Err (PyValueError (b: "ip_address convert failed err=" ++ e))
          end
      | Err _ => Err (PyValueError (b: "socket_address validate invalid"))
      end
  end.

Definition connect (e : t) (request_id : RequestId) (remote_address : PyObject.t)
    (server_name : str) : result t PyErr :=
  if congested e then Err exceeded
  else
    let? remote_address := extract_socket_address remote_address in
    runtime_error (b: "rt_event send failed err=")
      (try_send e (RuntimeCommand.CreateConnection request_id remote_address server_name)).

Definition handle_protocol_event (e : t) (handle : QuicConnectionHandle) (request_id : RequestId)
    (event : PyObject.t) : result t PyErr :=
  if congested e then Err exceeded
  else
    let? event := protocol_event_from_py event in
    runtime_error (b: "rt_event send failed err=")
      (try_send e (RuntimeCommand.ProtocolEvent request_id handle event)).

Definition get_local_addresses (e : t) : list (str * Z) :=
  (fun address => (ip_to_string (SocketAddr.ip address), port_of address)) <$> local_addresses e.

(** The loop that pops events: an error leaves with what was popped so far lost. *)
Fixpoint poll_loop (queue : list RuntimeEvent.t) (runtime_events : list PyObject.t)
    : list RuntimeEvent.t * result (list PyObject.t) PyErr :=
  match queue with
  | [] => ([], Ok runtime_events)
  | event :: rest =>
      match runtime_event_into_py event with
      | Ok o => poll_loop rest (runtime_events ++ [o])
      | Err e => (rest, Err e)
      end
  end.

Definition poll_runtime_events (e : t) : t * result PyObject.t PyErr :=
  let '(queue, r) := poll_loop (event_rx e) [] in
  (e <| event_rx := queue |>, let? runtime_events := r in Ok (PyList runtime_events)).

(** The two parts of [close].  [blocking_send] waits while the channel is full, which is
    [None], and its error, that the reactor is gone, is ignored; [join] waits for the
    reactor to end, after which nothing receives commands. *)
Definition close_send (e : t) : option t :=
  if negb (command_open e) then Some e
  else if RUNTIME_CHANNEL_CAPACITY <=? len (command_tx e) then None
  else Some (e <| command_tx := command_tx e ++ [RuntimeCommand.ShutdownReactor] |>).

Definition close_join (e : t) : option t :=
  if negb (reactor_thread e) then Some e
  else if command_open e then None
  else Some (e <| reactor_thread := false |>).

End methods.
End PyEndpoint.

(** ** Two threads

    The reactor takes commands from the channel and queues events in the queue of the
    endpoint; when it ends it drops the receiver, with the commands that still wait. *)

Module System.
Section System.
Context `{LsQpack, QuinnEndpoint, PyO3, Host, IpText}.

Record t : Type := mk {
  endpoint : PyEndpoint.t;
  reactor : Reactor.t;
  (** The commands accepted from Python and taken by the reactor, and the events queued
      by the reactor and handed to Python, so far. *)
  accepted : list RuntimeCommand.t;
  handled : list RuntimeCommand.t;
  queued : list RuntimeEvent.t;
  polled : list PyObject.t;
}.

#[global] Instance eta_system : Eta t := fun s =>
  mk (endpoint s) (reactor s) (accepted s) (handled s) (queued s) (polled s).
#[global] Instance set_system_endpoint : Setter endpoint := ltac:(build_setter).
#[global] Instance set_system_reactor : Setter reactor := ltac:(build_setter).
#[global] Instance set_accepted : Setter accepted := ltac:(build_setter).
#[global] Instance set_handled : Setter handled := ltac:(build_setter).
#[global] Instance set_queued : Setter queued := ltac:(build_setter).
#[global] Instance set_polled : Setter polled := ltac:(build_setter).

(** A turn of the reactor on the queue it shares. *)
Definition turn (fuel : nat) (s : t) (w : Reactor.wake_up) (now_instant flushed_at : Instant)
    : option t :=
  let r := (reactor s) <| Reactor.event_tx := PyEndpoint.event_rx (endpoint s) |> in
  '(r, continues) ← Reactor.turn fuel r w now_instant flushed_at;
  let e := (endpoint s) <| PyEndpoint.event_rx := Reactor.event_tx r |> in
  Some (s <| reactor := r |>
          <| queued := queued s ++ drop (length (PyEndpoint.event_rx (endpoint s)))
                                     (Reactor.event_tx r) |>
          <| endpoint := if continues : bool then e
               else e <| PyEndpoint.command_open := false |> <| PyEndpoint.command_tx := [] |> |>).

(** The commands a call has put behind those that waited. *)
Definition call (s : t) (e : PyEndpoint.t) : t :=
  s <| endpoint := e |>
    <| accepted := accepted s ++ drop (length (PyEndpoint.command_tx (endpoint s)))
                                   (PyEndpoint.command_tx e) |>.

(** The command a turn takes from the channel. *)
Definition take_command (s : t) : option (RuntimeCommand.t * t) :=
  match PyEndpoint.command_tx (endpoint s) with
  | command :: rest => Some (command,
      s <| endpoint := (endpoint s) <| PyEndpoint.command_tx := rest |> |>
        <| handled := handled s ++ [command] |>)
  | [] => None
  end.

(** What can happen next: a call from Python returns, or a reactor that has not ended
    makes a turn.  A call that raises changes nothing, but for a poll. *)
Inductive step (s : t) : t -> Prop :=
| step_connect request_id remote_address server_name e :
    PyEndpoint.connect (endpoint s) request_id remote_address server_name = Ok e ->
    step s (call s e)
| step_event handle request_id event e :
    PyEndpoint.handle_protocol_event (endpoint s) handle request_id event = Ok e ->
    step s (call s e)
| step_poll e r :
    PyEndpoint.poll_runtime_events (endpoint s) = (e, r) ->
    step s ((call s e) <| polled := polled s
              ++ match r with Ok (PyList objects) => objects | _ => [] end |>)
| step_close_send e : PyEndpoint.close_send (endpoint s) = Some e -> step s (call s e)
| step_close_join e : PyEndpoint.close_join (endpoint s) = Some e -> step s (call s e)
| step_command fuel command s1 now_instant flushed_at s' :
    PyEndpoint.command_open (endpoint s) = true ->
    take_command s = Some (command, s1) ->
    turn fuel s1 (Reactor.Command (Some command)) now_instant flushed_at = Some s' ->
    step s s'
| step_datagrams fuel first waiting now_instant flushed_at s' :
    PyEndpoint.command_open (endpoint s) = true ->
    turn fuel s (Reactor.Datagrams (Some first) waiting) now_instant flushed_at = Some s' ->
    step s s'
| step_timeout fuel now_instant flushed_at s' :
    PyEndpoint.command_open (endpoint s) = true ->
    turn fuel s Reactor.Slept now_instant flushed_at = Some s' ->
    step s s'.

End System.

(** Systems that a configuration leads to. *)
Section reachable.
Context `{LsQpack, QuinnNew, QuinnConfig, PyO3, Host, IpText}.

Inductive reachable : t -> Prop :=
| reachable_new config is_client start e r :
    PyEndpoint.new config is_client start = Ok (e, r) ->
    reachable {| endpoint := e; reactor := r; accepted := []; handled := []; queued := [];
                 polled := [] |}
| reachable_step s s' : reachable s -> step s s' -> reachable s'.

End reachable.
End System.
