(* ===== verification/ConfigTheorems.v ===== *)
(** * Theorems about configuration

    What the package validates is what the crate, QUIC and the engine need, with the
    exceptions stated; and who verifies whose certificate. *)

From S2P Require Import Prelude.
From S2P Require Import Types.
From S2P Require Import ConnectionMachine.
From S2P Require Import ConnectionSteps.
From S2P Require Import EngineMachine.
From S2P Require Import Quinn.
From S2P Require Import TransportMachine.
From S2P Require Import EndpointMachine.
From S2P Require Import EndpointProps.
From S2P Require Import EndpointTheorems.
From S2P Require Import Pyo3.
From S2P Require Import FfiConversion.
From S2P Require Import PyConfig.
From S2P Require Import FfiConfig.
From S2P Require Import QuicConfig.
Import PyObject.

Module ConfigT.
Import PyConfig.

(** ** What validation establishes *)

Lemma run_checks_app c1 c2 config :
  run_checks (c1 ++ c2) config = Ok () <-> run_checks c1 config = Ok () /\ run_checks c2 config = Ok ().
Proof.
  induction c1 as [|check c1 IH]; cbn; [tauto|].
  destruct (check config) as [u|e]; [apply IH|]. split; [done|]. by intros [].
Qed.

Lemma run_checks_lookup checks config i check :
  run_checks checks config = Ok () -> checks !! i = Some check -> check config = Ok ().
Proof.
  revert i. induction checks as [|c checks IH]; intros i; [done|]. cbn [run_checks].
  destruct (c config) as [[]|e] eqn:Hc; [|done]. intros Hr. destruct i as [|i]; cbn.
  - by intros [= <-].
  - by apply IH.
Qed.

Lemma check_ok bad key config :
  check bad key config = Ok () -> exists v, getattr config key = Ok v /\ bad v = false.
Proof.
  unfold check. destruct (getattr config key) as [v|e]; cbn; [|done].
  destruct (bad v) eqn:Hb; [done|]. by exists v.
Qed.

Definition validated (config : PyConfig.t) : Prop := run_checks base_checks config = Ok ().

Lemma validated_client config : validate_client config = Ok () -> validated config.
Proof. intros Hv. by apply run_checks_app in Hv as [Hv _]. Qed.

Lemma validated_server config : validate_server config = Ok () -> validated config.
Proof. intros Hv. by apply run_checks_app in Hv as [Hv _]. Qed.

(** ** What validation leaves open *)

Definition at_most (config : PyConfig.t) (key : str) (limit : Z) : bool :=
  match getattr config key with Ok (PyInt z) => z <=? limit | _ => true end.

(** The integers the package does not bound above, with what the layers below take. *)
Definition open_integers : list (str * Z) := [
  (b: "connection_receive_window", QUIC_VARINT_LIMIT);
  (b: "connection_send_window", U64_MAX);
  (b: "max_capsule_size", U64_MAX);
  (b: "max_connection_pending_events", U64_MAX);
  (b: "max_connections", U64_MAX);
  (b: "max_pending_capsules", U64_MAX);
  (b: "max_pending_datagrams", U64_MAX);
  (b: "max_pending_streams", U64_MAX);
  (b: "max_session_pending_events", U64_MAX);
  (b: "max_sessions", U64_MAX);
  (b: "max_write_buffer_size", ISIZE_MAX);
  (b: "session_receive_window", U64_MAX);
  (b: "stream_receive_window", QUIC_VARINT_LIMIT)].

(** The double a number is read as, where there is one, and the duration it becomes. *)
Definition number_of (o : PyObject.t) : option f64 :=
  match o with
  | PyFloat f => Some f
  | PyInt z => if is_finite (f64_of_Z z) then Some (f64_of_Z z) else None
  | _ => None
  end.

Definition seconds (o : PyObject.t) : option Duration := number_of o ≫= duration_from_secs_f64.

Definition duration_within (config : PyConfig.t) (key : str) (limit : Duration) : bool :=
  match getattr config key with
  | Ok PyNone | Err _ => true
  | Ok o => match seconds o with Some d => d <=? limit | None => false end
  end.

(** The longest [Duration] and the longest idle timeout of QUIC. *)
Definition DURATION_MAX : Duration := 2 ^ 64 * 1000000000.
Definition IDLE_TIMEOUT_MAX : Duration := QUIC_VARINT_LIMIT * 1000000.

Definition open_durations : list (str * Duration) := [
  (b: "keep_alive_interval", DURATION_MAX);
  (b: "max_idle_timeout", IDLE_TIMEOUT_MAX);
  (b: "pending_event_ttl", DURATION_MAX);
  (b: "resource_cleanup_interval", DURATION_MAX)].

Definition readable (config : PyConfig.t) (key : str) : bool :=
  match getattr config key with Ok PyNone | Err _ => true | Ok o => succeeds (number_of o) end.

Definition integers_within (config : PyConfig.t) : bool :=
  forallb (fun '(key, limit) => at_most config key limit) open_integers.
Definition durations_readable (config : PyConfig.t) : bool :=
  forallb (readable config) open_durations.*1.

(** The configuration stays within them. *)
Definition within_limits (config : PyConfig.t) : bool :=
  integers_within config
  && forallb (fun '(key, limit) => duration_within config key limit) open_durations.

Lemma forallb_lookup {A} (p : A -> bool) l i x : forallb p l = true -> l !! i = Some x -> p x = true.
Proof.
  intros Hp Hx. apply forallb_forall with (x := x) in Hp; [done|]. apply list_elem_of_In.
  by eapply list_elem_of_lookup_2.
Qed.

Lemma integer_within config j key limit :
  integers_within config = true -> open_integers !! j = Some (key, limit) ->
  at_most config key limit = true.
Proof. intros Hi Hj. exact (forallb_lookup _ _ _ _ Hi Hj). Qed.

Lemma within_readable config : within_limits config = true -> durations_readable config = true.
Proof.
  intros [_ Hd]%andb_prop. unfold durations_readable. induction open_durations as [|[key limit] l IH]; [done|].
  cbn in Hd |- *. apply andb_prop in Hd as [Hd Hl]. rewrite (IH Hl), andb_true_r.
  revert Hd. unfold duration_within, readable. destruct (getattr config key) as [v|e]; [|done].
  unfold seconds. destruct (number_of v); [by destruct v|by destruct v].
Qed.

Lemma duration_within_limits config j key limit :
  within_limits config = true -> open_durations !! j = Some (key, limit) ->
  duration_within config key limit = true.
Proof. intros [_ Hi]%andb_prop Hj. exact (forallb_lookup _ _ _ _ Hi Hj). Qed.

Lemma round_half_even_nonneg n d : 0 <= n -> 0 < d -> 0 <= round_half_even n d.
Proof.
  intros Hn Hd. unfold round_half_even. pose proof (Z.div_pos n d Hn Hd).
  destruct (_ || _); lia.
Qed.

Lemma duration_nonneg f d : duration_from_secs_f64 f = Some d -> 0 <= d.
Proof.
  unfold duration_from_secs_f64. destruct f as [s| | |[] m e]; try done; [intros [= <-]; lia|].
  destruct (0 <=? e) eqn:He; (destruct (_ <? _); [|done]); intros [= <-]; bool_to_prop.
  - pose proof (Z.pow_nonneg 2 e). lia.
  - apply round_half_even_nonneg; [lia|]. apply Z.pow_pos_nonneg; lia.
Qed.

Section laws.
Context `{PyO3Laws}.

Lemma u64_attribute config key z :
  getattr config key = Ok (PyInt z) -> 0 <= z <= U64_MAX -> attribute extract_u64 config key = Ok z.
Proof.
  intros Hg Hz. unfold attribute, extract_u64. rewrite Hg.
  pose proof (extract_int_law u64_range z) as Hi.
  replace (fits u64_range z) with true in Hi; [done|]. symmetry. unfold fits, U64_MAX in *. cbn.
  apply andb_true_intro. split; apply Z.leb_le; lia.
Qed.

Lemma positive_field config i j key limit :
  validated config -> base_checks !! i = Some (check bad_positive_int key) ->
  integers_within config = true -> open_integers !! j = Some (key, limit) -> limit <= U64_MAX ->
  exists z, attribute extract_u64 config key = Ok z /\ 0 < z <= limit.
Proof.
  intros Hv Hi Hw Hj Hl. destruct (check_ok _ _ _ (run_checks_lookup _ _ _ _ Hv Hi)) as (v & Hg & Hb).
  pose proof (integer_within _ _ _ _ Hw Hj) as Ha. unfold at_most in Ha. rewrite Hg in Ha.
  destruct v; try done. unfold bad_positive_int in Hb. cbn in Hb. bool_to_prop.
  exists value. split; [apply u64_attribute; [done|lia]|lia].
Qed.

Lemma between_field config i key low high :
  validated config -> base_checks !! i = Some (check (bad_int_between low high) key) ->
  0 <= low -> high <= U64_MAX ->
  exists z, attribute extract_u64 config key = Ok z /\ low <= z <= high.
Proof.
  intros Hv Hi Hl Hh. destruct (check_ok _ _ _ (run_checks_lookup _ _ _ _ Hv Hi)) as (v & Hg & Hb).
  destruct v; try done. unfold bad_int_between in Hb. cbn in Hb. bool_to_prop.
  exists value. split; [apply u64_attribute; [done|lia]|lia].
Qed.

Lemma number_extracted v f : number_of v = Some f -> extract_f64 v = Ok f.
Proof.
  destruct v; cbn; try done.
  - destruct (is_finite _) eqn:Hf; [|done]. intros [= <-]. by apply extract_f64_int.
  - intros [= <-]. apply extract_f64_law.
Qed.

Lemma number_field config i j key :
  validated config -> base_checks !! i = Some (check bad_positive_number key) ->
  durations_readable config = true -> open_durations.*1 !! j = Some key ->
  exists v f, getattr config key = Ok v /\ number_of v = Some f
    /\ attribute extract_f64 config key = Ok f.
Proof.
  intros Hv Hi Hr Hj. destruct (check_ok _ _ _ (run_checks_lookup _ _ _ _ Hv Hi)) as (v & Hg & Hb).
  pose proof (forallb_lookup _ _ _ _ Hr Hj) as Hd. unfold readable in Hd. rewrite Hg in Hd.
  destruct (number_of v) as [f|] eqn:Hn; [|by destruct v]. exists v, f. split_and!; [done|done|].
  unfold attribute. rewrite Hg. by apply number_extracted.
Qed.

Lemma optional_number_field config i j key :
  validated config -> base_checks !! i = Some (check bad_optional_number key) ->
  durations_readable config = true -> open_durations.*1 !! j = Some key ->
  exists v o, getattr config key = Ok v /\ o = number_of v
    /\ attribute (extract_option extract_f64) config key = Ok o.
Proof.
  intros Hv Hi Hr Hj. destruct (check_ok _ _ _ (run_checks_lookup _ _ _ _ Hv Hi)) as (v & Hg & Hb).
  pose proof (forallb_lookup _ _ _ _ Hr Hj) as Hd. unfold readable in Hd. rewrite Hg in Hd.
  exists v, (number_of v). split_and!; [done|done|]. unfold attribute. rewrite Hg.
  destruct (number_of v) as [f|] eqn:Hn.
  - rewrite extract_option_some by (by intros ->). by rewrite (number_extracted _ _ Hn).
  - destruct v; try done. apply extract_option_none.
Qed.

(** A duration within its limit. *)
Lemma number_within config j key limit v f :
  within_limits config = true -> open_durations !! j = Some (key, limit) ->
  getattr config key = Ok v -> number_of v = Some f ->
  exists d, from_secs f = Ok d /\ 0 <= d <= limit.
Proof.
  intros Hw Hj Hg Hn. pose proof (duration_within_limits _ _ _ _ Hw Hj) as Hd.
  unfold duration_within, seconds in Hd. rewrite Hg, Hn in Hd. cbn in Hd. unfold from_secs.
  destruct (duration_from_secs_f64 f) as [d|] eqn:E; [|by destruct v].
  exists d. split; [done|]. split; [by eapply duration_nonneg|]. destruct v; try done; bool_to_prop; lia.
Qed.

Lemma datagram_field config payload :
  validated config -> attribute extract_u64 config (b: "max_udp_payload_size") = Ok payload ->
  payload <= U64_MAX ->
  exists z, attribute extract_u64 config (b: "max_datagram_size") = Ok z /\ 0 < z <= payload.
Proof.
  intros Hv Hp Hm. pose proof (run_checks_lookup _ _ 11 _ Hv eq_refl) as Hc.
  destruct (check_ok _ _ _ (run_checks_lookup _ _ 21 _ Hv eq_refl)) as (limit & Hl & Hb).
  unfold check_datagram_size in Hc.
  destruct (getattr config (b: "max_datagram_size")) as [v|e] eqn:Hg; cbn [raises] in Hc; [|done].
  destruct (bad_positive_int v) eqn:Hv0; [done|]. rewrite Hl in Hc. cbn [raises] in Hc.
  destruct v; try done. destruct limit; try done. unfold bad_positive_int in Hv0. cbn in Hv0, Hc.
  unfold attribute in Hp. rewrite Hl in Hp. apply extract_int_only in Hp as ->.
  destruct (payload <? value) eqn:Hlt; [done|]. bool_to_prop.
  exists value. split; [|lia]. apply u64_attribute; [done|lia].
Qed.

Lemma congestion_field config :
  validated config -> exists s, attribute extract_string config (b: "congestion_control_algorithm") = Ok s
    /\ s ∈ CONGESTION_CONTROL_ALGORITHMS.
Proof.
  intros Hv. destruct (check_ok _ _ _ (run_checks_lookup _ _ 1 _ Hv eq_refl)) as (v & Hg & Hb).
  destruct v; try done. cbn in Hb. bool_to_prop. exists value. unfold attribute. rewrite Hg.
  split; [apply extract_string_law|done].
Qed.

(** The configuration of the crate, with the ranges that matter below. *)
Record in_ranges (c : RustBaseConfig.t) : Prop := {
  range_congestion : RustBaseConfig.congestion_control_algorithm c ∈ CONGESTION_CONTROL_ALGORITHMS;
  range_receive_window : 0 < RustBaseConfig.connection_receive_window c <= QUIC_VARINT_LIMIT;
  range_stream_window : 0 < RustBaseConfig.stream_receive_window c <= QUIC_VARINT_LIMIT;
  range_bidi : 1 <= RustBaseConfig.max_streams_bidi c <= WT_STREAMS_LIMIT;
  range_uni : 3 <= RustBaseConfig.max_streams_uni c <= WT_STREAMS_LIMIT;
  range_payload : 1200 <= RustBaseConfig.max_udp_payload_size c <= 65527;
  range_datagram : 0 < RustBaseConfig.max_datagram_size c <= RustBaseConfig.max_udp_payload_size c;
  range_idle : 0 <= RustBaseConfig.max_idle_timeout c <= IDLE_TIMEOUT_MAX;
  range_durations : EndpointP.durations_ok c;
  range_parameters : ConnS.parameters_ok
    (EngineParameters.connection_parameters (TransportEndpoint.build_engine_parameters c));
}.

(** All but the durations is read; [build] is the record around them. *)
Lemma base_extracted config :
  validated config -> integers_within config = true -> durations_readable config = true ->
  exists vk vi vt vr fi ft fr build,
    getattr config (b: "keep_alive_interval") = Ok vk
    /\ (getattr config (b: "max_idle_timeout") = Ok vi /\ number_of vi = Some fi)
    /\ (getattr config (b: "pending_event_ttl") = Ok vt /\ number_of vt = Some ft)
    /\ (getattr config (b: "resource_cleanup_interval") = Ok vr /\ number_of vr = Some fr)
    /\ base_try_from config
       = (let? dk := from_optional_secs (number_of vk) in let? di := from_secs fi in
          let? dt := from_secs ft in let? dr := from_secs fr in Ok (build dk di dt dr))
    /\ forall dk di dt dr, 0 <= di <= IDLE_TIMEOUT_MAX -> 0 <= dt -> 0 <= dr ->
         in_ranges (build dk di dt dr).
Proof.
  intros Hv Hw Hr.
  destruct (congestion_field config Hv) as (cong & E1 & R1).
  destruct (positive_field config 2 0 _ _ Hv eq_refl Hw eq_refl) as (rw & E2 & R2); [done|].
  destruct (positive_field config 3 1 _ _ Hv eq_refl Hw eq_refl) as (sw & E3 & R3); [done|].
  destruct (between_field config 4 _ _ _ Hv eq_refl) as (imd & E4 & R4); [done|done|].
  destruct (between_field config 5 _ _ _ Hv eq_refl) as (imb & E5 & R5); [done|done|].
  destruct (between_field config 6 _ _ _ Hv eq_refl) as (imu & E6 & R6); [done|done|].
  destruct (optional_number_field config 7 0 _ Hv eq_refl Hr eq_refl) as (vk & ka & G7 & -> & E7).
  destruct (positive_field config 8 2 _ _ Hv eq_refl Hw eq_refl) as (mc & E8 & R8); [done|].
  destruct (positive_field config 9 3 _ _ Hv eq_refl Hw eq_refl) as (mce & E9 & R9); [done|].
  destruct (positive_field config 10 4 _ _ Hv eq_refl Hw eq_refl) as (mco & E10 & R10); [done|].
  destruct (between_field config 21 _ _ _ Hv eq_refl) as (mu & E21 & R21); [done|done|].
  destruct (datagram_field config mu Hv E21) as (md & E11 & R11);
    [unfold QUIC_UDP_PAYLOAD_SIZE_LIMIT, U64_MAX in *; lia|].
  destruct (between_field config 12 _ _ _ Hv eq_refl) as (mf & E12 & R12); [done|done|].
  destruct (number_field config 13 1 _ Hv eq_refl Hr eq_refl) as (vi & fi & G13 & N13 & E13).
  destruct (positive_field config 14 5 _ _ Hv eq_refl Hw eq_refl) as (pc & E14 & R14); [done|].
  destruct (positive_field config 15 6 _ _ Hv eq_refl Hw eq_refl) as (pd & E15 & R15); [done|].
  destruct (positive_field config 16 7 _ _ Hv eq_refl Hw eq_refl) as (ps & E16 & R16); [done|].
  destruct (positive_field config 17 8 _ _ Hv eq_refl Hw eq_refl) as (se & E17 & R17); [done|].
  destruct (positive_field config 18 9 _ _ Hv eq_refl Hw eq_refl) as (ms & E18 & R18); [done|].
  destruct (between_field config 19 _ _ _ Hv eq_refl) as (sb & E19 & R19); [done|done|].
  destruct (between_field config 20 _ _ _ Hv eq_refl) as (su & E20 & R20); [done|done|].
  destruct (positive_field config 22 10 _ _ Hv eq_refl Hw eq_refl) as (wb & E22 & R22); [done|].
  destruct (number_field config 23 2 _ Hv eq_refl Hr eq_refl) as (vt & ft & G23 & N23 & E23).
  destruct (number_field config 25 3 _ Hv eq_refl Hr eq_refl) as (vr & fr & G25 & N25 & E25).
  destruct (positive_field config 26 11 _ _ Hv eq_refl Hw eq_refl) as (srw & E26 & R26); [done|].
  destruct (positive_field config 28 12 _ _ Hv eq_refl Hw eq_refl) as (strw & E28 & R28); [done|].
  exists vk, vi, vt, vr, fi, ft, fr. eexists. split_and!; try done.
  - unfold base_try_from.
    rewrite E1, E2, E3, E4, E5, E6, E7, E8, E9, E10, E11, E12, E13, E14, E15, E16, E17, E18, E19, E20,
      E21, E22, E23, E25, E26, E28. reflexivity.
  - intros dk di dt dr Hdi Hdt Hdr. split; cbn; try done.
    split; cbn; unfold is_u64, U64_MAX, WT_STREAMS_LIMIT in *; lia.
Qed.

Lemma base_in_ranges config :
  validated config -> within_limits config = true ->
  exists c, base_try_from config = Ok c /\ in_ranges c.
Proof.
  intros Hv Hw. destruct (base_extracted config Hv) as
    (vk & vi & vt & vr & fi & ft & fr & build & Gk & [Gi Ni] & [Gt Nt] & [Gr Nr] & -> & Hin);
    [by apply andb_prop in Hw as [Hw _]|by apply within_readable|].
  destruct (number_within _ 1 _ _ _ _ Hw eq_refl Gi Ni) as (di & -> & Hi).
  destruct (number_within _ 2 _ _ _ _ Hw eq_refl Gt Nt) as (dt & -> & Ht).
  destruct (number_within _ 3 _ _ _ _ Hw eq_refl Gr Nr) as (dr & -> & Hr).
  destruct (number_of vk) as [fk|] eqn:Nk; cbn [from_optional_secs].
  - destruct (number_within _ 0 _ _ _ _ Hw eq_refl Gk Nk) as (dk & -> & Hk).
    eexists. split; [done|]. apply Hin; lia.
  - eexists. split; [done|]. apply Hin; lia.
Qed.

Lemma transport_built `{QuinnConfigLaws} c :
  in_ranges c -> exists tc, build_transport_config c = Ok tc
    /\ QuicTransportConfig.max_concurrent_bidi_streams tc = RustBaseConfig.max_streams_bidi c
    /\ QuicTransportConfig.max_concurrent_uni_streams tc = RustBaseConfig.max_streams_uni c
    /\ QuicTransportConfig.max_idle_timeout tc
       = Some (RustBaseConfig.max_idle_timeout c / 1000000)
    /\ QuicTransportConfig.datagram_send_buffer_size tc
       = RustBaseConfig.max_datagram_size c * DATAGRAM_QUEUE_CAPACITY.
Proof.
  intros [Hc Hrw Hsw Hb Hu Hp Hd Hi _ _]. unfold build_transport_config.
  set (algorithm := RustBaseConfig.congestion_control_algorithm c) in *.
  assert (Hf : exists factory, (if bool_decide (algorithm = b: "bbr") then Ok QuicCongestion.Bbr
    else if bool_decide (algorithm = b: "cubic") then Ok QuicCongestion.Cubic
    else if bool_decide (algorithm = b: "reno") then Ok QuicCongestion.NewReno
    else Err (WebTransportError.Configuration None
                (b: "cfg_congestion_control_algorithm validate invalid"))) = Ok factory).
  { clearbody algorithm. unfold CONGESTION_CONTROL_ALGORITHMS in Hc.
    repeat (apply elem_of_cons in Hc as [->|Hc]; [by eexists|]). by apply not_elem_of_nil in Hc. }
  destruct Hf as [factory ->]. unfold quic_varint, TransportConnection.varint_try_from.
  unfold WT_STREAMS_LIMIT in *. pose proof (quic_idle_timeout_law (RustBaseConfig.max_idle_timeout c)) as Ht.
  replace (RustBaseConfig.max_idle_timeout c / 1000000 <=? QUIC_VARINT_LIMIT) with true in Ht
    by (symmetry; apply Z.leb_le; unfold IDLE_TIMEOUT_MAX in Hi;
        apply Z.div_le_upper_bound; lia).
  rewrite Ht by lia.
  rewrite !(proj2 (Z.leb_le _ QUIC_VARINT_LIMIT)) by (unfold QUIC_VARINT_LIMIT in *; lia).
  rewrite (proj2 (Z.ltb_lt 0 _)) by lia. cbn. eexists. split; [done|]. cbn. split_and!; try done.
  unfold saturating_mul, DATAGRAM_QUEUE_CAPACITY, U64_MAX. lia.
Qed.

Lemma endpoint_built `{QuinnConfigLaws} c :
  in_ranges c -> build_endpoint_config c = Ok (RustBaseConfig.max_udp_payload_size c).
Proof.
  intros [_ _ _ _ _ Hp _ _ _ _]. unfold build_endpoint_config, u16_try_from.
  rewrite (proj2 (Z.leb_le _ 65535)) by lia.
  pose proof (quic_max_udp_payload_size_law (RustBaseConfig.max_udp_payload_size c)) as Hl.
  rewrite !(proj2 (Z.leb_le _ _)) in Hl by lia. cbn in Hl. by rewrite Hl.
Qed.


(** The package does not refuse a timeout of infinity or NaN, and the crate panics on
    it: whatever else a validated configuration says, one of the four durations that is
    not a [Duration] ends the construction of the endpoint with a panic. *)
Theorem config_timeout_panics config key f :
  validate_client config = Ok () -> integers_within config = true ->
  durations_readable config = true -> key ∈ open_durations.*1 ->
  getattr config key = Ok (PyFloat f) -> duration_from_secs_f64 f = None ->
  client_try_from config = Err panic_exception.
Proof.
  intros Hv Hi Hr Hk Hg Hd. destruct (base_extracted config (validated_client _ Hv) Hi Hr) as
    (vk & vi & vt & vr & fi & ft & fr & build & Gk & [Gi Ni] & [Gt Nt] & [Gr Nr] & Hb & _).
  unfold client_try_from. rewrite Hb. clear Hb.
  assert (Hp : forall f', duration_from_secs_f64 f' = None -> from_secs f' = Err panic_exception)
    by (intros f' Hf'; unfold from_secs; by rewrite Hf').
  assert (He : forall f', (exists d, from_secs f' = Ok d) \/ from_secs f' = Err panic_exception)
    by (intros f'; unfold from_secs; destruct (duration_from_secs_f64 f'); [left; by eexists|by right]).
  specialize (Hp f Hd).
  assert (Hko : (exists d, from_optional_secs (number_of vk) = Ok d)
    \/ from_optional_secs (number_of vk) = Err panic_exception).
  { destruct (number_of vk) as [fk|]; cbn; [|left; by eexists].
    destruct (He fk) as [[d ->]| ->]; [left; by eexists|by right]. }
  destruct Hko as [[dk Hko]|Hko]; rewrite Hko; [|done].
  destruct (He fi) as [[di Hfi]|Hfi]; rewrite Hfi; [|done].
  destruct (He ft) as [[dt Hft]|Hft]; rewrite Hft; [|done].
  destruct (He fr) as [[dr Hfr]|Hfr]; rewrite Hfr; [|done]. exfalso.
  cbn in Hk. repeat (apply elem_of_cons in Hk as [->|Hk]); [..|by apply not_elem_of_nil in Hk].
  - injection (eq_trans (eq_sym Hg) Gk) as <-. cbn in Hko. by rewrite Hp in Hko.
  - injection (eq_trans (eq_sym Hg) Gi) as <-. injection Ni as <-. congruence.
  - injection (eq_trans (eq_sym Hg) Gt) as <-. injection Nt as <-. congruence.
  - injection (eq_trans (eq_sym Hg) Gr) as <-. injection Nr as <-. congruence.
Qed.

(** ** Certificates *)

Section tls.
Context `{QuinnConfig, Rustls}.

(** The test of [verify_mode] is on its number. *)
Lemma verify_mode_tested test when_none config result :
  (exists mode, getattr config (b: "verify_mode") = Ok mode /\ bad_verify_mode mode = false) ->
  verify_mode_is test when_none config = Ok result ->
  exists mode, getattr config (b: "verify_mode") = Ok mode /\ is_int mode = true
    /\ result = test (int_value mode).
Proof.
  intros (mode & Hg & Hb). unfold verify_mode_is. rewrite Hg. intros Ht. exists mode. split; [done|].
  destruct (extract_int i32_range mode) as [z|e] eqn:He; [|by destruct mode].
  apply extract_int_only in He. destruct mode; try done; subst; by injection Ht as <-.
Qed.

Lemma optional_string_attribute config key o :
  attribute extract_option_string config key = Ok o ->
  (exists v, getattr config key = Ok v /\ bad_optional_str v = false) ->
  getattr config key = Ok (into_option_str o).
Proof.
  unfold attribute, extract_option_string. intros Ha (v & Hg & Hb). rewrite Hg in Ha |- *.
  destruct v; try done.
  - rewrite extract_option_none in Ha. by injection Ha as <-.
  - rewrite extract_option_some, extract_string_law in Ha by done. by injection Ha as <-.
Qed.

(** The parts of [client_try_from] and [build_client_config] that matter here. *)
Lemma client_built config c tls tc :
  client_try_from config = Ok c -> build_client_config c = Ok (tls, tc) ->
  attribute extract_option_string config (b: "ca_certs") = Ok (RustClientConfig.ca_certs c)
  /\ verify_mode_is (fun mode => negb (mode =? 0)) true config
     = Ok (RustClientConfig.verify_server_certificate c)
  /\ match RustClientConfig.ca_certs c with
     | Some path => roots_from_file path = Ok (TlsClientConfig.roots tls)
     | None => TlsClientConfig.roots tls = NATIVE_ROOT_CERTS
     end
  /\ TlsClientConfig.alpn_protocols tls = ALPN_PROTOCOLS
  /\ TlsClientConfig.verifier tls = if RustClientConfig.verify_server_certificate c
       then ServerVerifier.WebPki else ServerVerifier.NoCertificateVerification.
Proof.
  unfold client_try_from. destruct (base_try_from config); [|done].
  destruct (attribute _ _ (b: "ca_certs")) as [ca|]; [|done].
  destruct (attribute _ _ (b: "certfile")); [|done]. destruct (attribute _ _ (b: "keyfile")); [|done].
  destruct (verify_mode_is _ _ _) as [v|] eqn:Hv; [|done]. intros [= <-]. unfold build_client_config. cbn.
  destruct (match ca with Some _ => _ | None => _ end) as [store|] eqn:Hs; [|done].
  destruct (configuration with_protocol_versions); [|done].
  destruct (match t0 with Some _ => _ | None => _ end) as [auth|]; [|done].
  destruct (configuration quic_client_crypto); [|done].
  destruct (build_transport_config _); [|done]. intros [= <- <-]. cbn. split_and!; try done.
  destruct ca; [done|]. by injection Hs as <-.
Qed.


Lemma server_built config c tls tc :
  server_try_from config = Ok c -> build_server_config c = Ok (tls, tc) ->
  attribute extract_option_string config (b: "ca_certs") = Ok (RustServerConfig.ca_certs c)
  /\ verify_mode_is (fun mode => mode =? 2) false config
     = Ok (RustServerConfig.require_client_auth c)
  /\ TlsServerConfig.alpn_protocols tls = ALPN_PROTOCOLS
  /\ if RustServerConfig.require_client_auth c then
       exists roots, TlsServerConfig.client_roots tls = Some roots
         /\ match RustServerConfig.ca_certs c with
            | Some path => roots_from_file path = Ok roots
            | None => roots = root_store_empty
            end
     else TlsServerConfig.client_roots tls = None.
Proof.
  unfold server_try_from. destruct (base_try_from config); [|done].
  destruct (attribute _ _ (b: "bind_host")); [|done]. destruct (attribute _ _ (b: "bind_port")); [|done].
  destruct (attribute _ _ (b: "ca_certs")) as [ca|]; [|done].
  destruct (attribute _ _ (b: "certfile")); [|done]. destruct (attribute _ _ (b: "keyfile")); [|done].
  destruct (verify_mode_is _ _ _) as [v|] eqn:Hv; [|done]. intros [= <-]. unfold build_server_config. cbn.
  destruct (configuration (load_certs _)); [|done]. destruct (configuration (load_private_key _)); [|done].
  destruct (configuration with_protocol_versions); [|done]. intros Hb. split_and!; [done|done|..].
  all: destruct v; cbn in Hb |- *.
  all: try (destruct (match ca with Some _ => _ | None => _ end) as [store|] eqn:Hs; [|done];
    destruct (configuration (client_verifier_build store)); [|done]).
  all: destruct (configuration (with_single_cert _ _)); [|done];
    destruct (configuration quic_server_crypto); [|done];
    destruct (build_transport_config _); [|done]; injection Hb as <- <-; try done.
  exists store. split; [done|]. destruct ca; [done|]. by injection Hs as <-.
Qed.

(** A server verifies its clients against the file the user named exactly when it was
    told to require certificates.  [CERT_OPTIONAL], for which the package insists on that
    file too, verifies no client. *)
Theorem server_verifies_clients config c tls tc :
  validate_server config = Ok () -> server_try_from config = Ok c ->
  build_server_config c = Ok (tls, tc) ->
  exists mode, getattr config (b: "verify_mode") = Ok mode
    /\ (int_value mode = CERT_REQUIRED -> exists path roots,
         getattr config (b: "ca_certs") = Ok (PyStr path) /\ path <> []
         /\ roots_from_file path = Ok roots /\ TlsServerConfig.client_roots tls = Some roots)
    /\ (int_value mode = CERT_NONE \/ int_value mode = CERT_OPTIONAL ->
         TlsServerConfig.client_roots tls = None).
Proof.
  intros Hv Hc Hb. destruct (server_built _ _ _ _ Hc Hb) as (Ha & Hm & _ & Hr).
  pose proof (run_checks_lookup _ _ 31 _ Hv eq_refl) as Hca. cbn in Hca. unfold check_server_ca in Hca.
  apply verify_mode_tested in Hm as (mode & Hg & Hi & Ht);
    [|apply check_ok, (run_checks_lookup _ _ 34 _ Hv eq_refl)].
  destruct (getattr config (b: "ca_certs")) as [ca|] eqn:Hgc; [|done]. rewrite Hg in Hca. cbn in Hca.
  destruct (bad_optional_str ca || _) eqn:Hbad; [done|]. apply orb_false_elim in Hbad as [Hbs Hbm].
  apply optional_string_attribute in Ha; [|by exists ca]. rewrite Hgc in Ha. injection Ha as ->.
  exists mode. split; [done|]. rewrite Ht in Hr. unfold CERT_REQUIRED, CERT_NONE, CERT_OPTIONAL in *. split.
  - intros Hmode. rewrite Hmode in Hr. destruct Hr as (roots & Hroots & Hr).
    assert (Hn : num_eq mode 2 = true) by (destruct mode; try done; cbn in *; by rewrite Hmode).
    rewrite Hn in Hbm. cbn in Hbm. destruct (RustServerConfig.ca_certs c) as [path|]; [|done].
    exists path, roots. split_and!; try done. intros ->. done.
  - intros [Hmode|Hmode]; by rewrite Hmode in Hr.
Qed.

End tls.
End laws.

(** ** Examples *)

Import Builtin Sample.


(** A client that never gives up a connection, with the option given before the defaults. *)
Definition endless_client : PyConfig.t :=
  (b: "max_idle_timeout", PyFloat (S754_infinity false)) :: client_defaults.

Lemma config_timeout_panics_witness :
  validate_client endless_client = Ok () /\ client_try_from endless_client = Err panic_exception.
Proof.
  split; [vm_compute; reflexivity|].
  apply (config_timeout_panics endless_client (b: "max_idle_timeout") (S754_infinity false)).
  - vm_compute. reflexivity.
  - vm_compute. reflexivity.
  - vm_compute. reflexivity.
  - unfold open_durations. cbn [fmap list_fmap fst]. apply list_elem_of_further, list_elem_of_here.
  - vm_compute. reflexivity.
  - reflexivity.
Defined.

(** What [client_defaults] becomes. *)
Definition default_client : RustClientConfig.t :=
  match client_try_from client_defaults with
  | Ok c => c
  | Err _ => RustClientConfig.mk EndpointT.example_config None None None false
  end.

Definition default_tls : TlsClientConfig.t :=
  TlsClientConfig.mk _ [b: "native"] None [b: "h3"] ServerVerifier.WebPki.

Definition default_transport : QuicTransportConfig.t :=
  QuicTransportConfig.mk QuicCongestion.Cubic (Some 86400) 86400 (Some 30000000000) 100 100
    (Some 60000) 16777216 16777216 1048576.


(** A server that requires certificates of the authority in a file. *)
Definition strict_server : PyConfig.t :=
  (b: "verify_mode", PyInt CERT_REQUIRED) :: (b: "ca_certs", PyStr (b: "ca.pem"))
  :: server_defaults (b: "cert.pem") (b: "key.pem").

Definition strict_config : RustServerConfig.t :=
  match server_try_from strict_server with
  | Ok c => c
  | Err _ => RustServerConfig.mk EndpointT.example_config [] 0 None [] [] false
  end.

Definition strict_tls : TlsServerConfig.t :=
  TlsServerConfig.mk _ (Some [b: "ca.pem"]) ([b: "cert.pem"], b: "key.pem") [b: "h3"].

Lemma server_verifies_clients_witness :
  exists mode, getattr strict_server (b: "verify_mode") = Ok mode
    /\ (int_value mode = CERT_REQUIRED -> exists path roots,
         getattr strict_server (b: "ca_certs") = Ok (PyStr path) /\ path <> []
         /\ roots_from_file path = Ok roots /\ TlsServerConfig.client_roots strict_tls = Some roots)
    /\ (int_value mode = CERT_NONE \/ int_value mode = CERT_OPTIONAL ->
         TlsServerConfig.client_roots strict_tls = None).
Proof.
  apply (server_verifies_clients strict_server strict_config strict_tls default_transport);
    vm_compute; reflexivity.
Defined.

End ConfigT.
