(* ===== verification/FfiEndpointTheorems.v ===== *)
(** * Theorems about the endpoint Python holds

    From the configuration to the events: the sockets a server gets, what reaches the
    reactor and what reaches Python while both threads run. *)

From S2P Require Import Prelude.
From S2P Require Import Types.
From S2P Require Import Events.
From S2P Require Import Qpack.
From S2P Require Import QpackLiteral.
From S2P Require Import Quinn.
From S2P Require Import QuinnPipe.
From S2P Require Import TransportMachine.
From S2P Require Import EndpointMachine.
From S2P Require Import EndpointProps.
From S2P Require Import EndpointTheorems.
From S2P Require Import ReactorMachine.
From S2P Require Import ReactorEvents.
From S2P Require Import ReactorTheorems.
From S2P Require Import Pyo3.
From S2P Require Import FfiConversion.
From S2P Require Import PyConversion.
From S2P Require Import ConversionTheorems.
From S2P Require Import PyConfig.
From S2P Require Import FfiConfig.
From S2P Require Import QuicConfig.
From S2P Require Import ConfigTheorems.
From S2P Require Import FfiEndpoint.
Import PyObject.

Module FfiE.

(** ** Sockets *)

Section sockets.
Context `{Host}.

(** The address a server is to get a socket for, of a family: the first one that can be
    bound. *)
Definition serves (is_ipv4 : bool) (address : SocketAddr.t) : bool :=
  Bool.eqb (SocketAddr.is_ipv4 address) is_ipv4 && succeeds (udp_bind address).

Definition of_family (is_ipv4 : bool) (sockets : list (SocketAddr.t * StdSocket)) : list SocketAddr.t :=
  List.filter (fun address => Bool.eqb (SocketAddr.is_ipv4 address) is_ipv4) sockets.*1.

Lemma of_family_app is_ipv4 l1 l2 : of_family is_ipv4 (l1 ++ l2) = of_family is_ipv4 l1 ++ of_family is_ipv4 l2.
Proof. unfold of_family. by rewrite fmap_app, List.filter_app. Qed.

Lemma bind_addresses_families addresses : forall bound_v4 bound_v6 sockets result,
  bind_addresses addresses bound_v4 bound_v6 sockets = Ok result ->
  exists bound, result = sockets ++ bound
    /\ Forall (fun '(address, socket) => address ∈ addresses /\ udp_bind address = Some socket) bound
    /\ forall is_ipv4, of_family is_ipv4 bound
         = if if is_ipv4 then bound_v4 else bound_v6 then []
           else option_list (List.find (serves is_ipv4) addresses).
Proof.
  assert (Hcons : forall address addresses (bound : list (SocketAddr.t * StdSocket)),
    Forall (fun '(a, socket) => a ∈ addresses /\ udp_bind a = Some socket) bound ->
    Forall (fun '(a, socket) => a ∈ address :: addresses /\ udp_bind a = Some socket) bound).
  { intros address l bound Hb. eapply Forall_impl; [exact Hb|]. intros [a socket] [Ha Hs]. split; [by right|done]. }
  induction addresses as [|address addresses IH]; intros bound_v4 bound_v6 sockets result; cbn.
  { intros [= <-]. exists []. rewrite app_nil_r. split_and!; [done|done|]. intros []; by destruct bound_v4, bound_v6. }
  destruct (SocketAddr.is_ipv4 address && bound_v4) eqn:E4; [|destruct (negb _ && bound_v6) eqn:E6].
  1,2: intros (bound & -> & Hf & Hb)%IH; exists bound; split_and!; [done|by apply Hcons|];
    intros is_ipv4; rewrite Hb; unfold serves at 2;
    by destruct is_ipv4, (SocketAddr.is_ipv4 address), bound_v4, bound_v6.
  unfold bind_socket. destruct (udp_bind address) as [socket|] eqn:Hu.
  - destruct (set_nonblocking socket); [|done]. cbn. intros (bound & -> & Hf & Hb)%IH.
    exists ((address, socket) :: bound). split_and!; [by rewrite <- app_assoc| |].
    + constructor; [split; [by left|done]|by apply Hcons].
    + intros is_ipv4. change ((address, socket) :: bound) with ([(address, socket)] ++ bound).
      rewrite of_family_app, Hb. unfold of_family at 1, serves. cbn. rewrite Hu.
      by destruct is_ipv4, (SocketAddr.is_ipv4 address), bound_v4, bound_v6.
  - cbn. intros (bound & -> & Hf & Hb)%IH. exists bound. split_and!; [done|by apply Hcons|].
    intros is_ipv4. rewrite Hb. unfold serves at 2. rewrite Hu, andb_false_r. done.
Qed.

Lemma bind_addresses_total addresses : (forall socket, set_nonblocking socket = Ok ()) ->
  forall bound_v4 bound_v6 sockets, exists result,
    bind_addresses addresses bound_v4 bound_v6 sockets = Ok result.
Proof.
  intros Hn. induction addresses as [|address addresses IH]; intros bound_v4 bound_v6 sockets; cbn;
    [by eexists|].
  destruct (_ && bound_v4); [apply IH|]. destruct (_ && bound_v6); [apply IH|].
  unfold bind_socket. destruct (udp_bind address); [rewrite Hn|]; apply IH.
Qed.

(** A server listens on each address family its name resolves to, once: for each
    family it has the socket of the first address that can be bound, and none when there
    is no such address; it fails only when no address at all can be bound. *)
Theorem server_listens bind_address addresses :
  to_socket_addrs bind_address = Ok addresses ->
  (forall socket, set_nonblocking socket = Ok ()) ->
  match server_sockets bind_address with
  | Ok sockets => exists bound, sockets = bound.*2
      /\ Forall (fun '(address, socket) => udp_bind address = Some socket) bound
      /\ (forall is_ipv4, of_family is_ipv4 bound = option_list (List.find (serves is_ipv4) addresses))
  | Err _ => Forall (fun address => udp_bind address = None) addresses
  end.
Proof.
  intros Ha Hn. unfold server_sockets. rewrite Ha. cbn.
  destruct (bind_addresses_total addresses Hn false false []) as [bound Hb]. rewrite Hb.
  apply bind_addresses_families in Hb as (bound' & -> & Hf & Hfam). cbn.
  case_bool_decide as Hne.
  - apply fmap_nil_inv in Hne as ->. apply Forall_forall. intros address Hin.
    specialize (Hfam (SocketAddr.is_ipv4 address)). cbn in Hfam.
    destruct (List.find (serves (SocketAddr.is_ipv4 address)) addresses) as [a|] eqn:E;
      [by destruct (SocketAddr.is_ipv4 address)|].
    eapply List.find_none in E; [|by apply list_elem_of_In]. unfold serves in E.
    rewrite Bool.eqb_reflx in E. cbn in E. by destruct (udp_bind address).
  - exists bound'. split_and!; [done| |].
    + eapply Forall_impl; [exact Hf|]. by intros [a s] [].
    + intros is_ipv4. rewrite (Hfam is_ipv4). by destruct is_ipv4.
Qed.

End sockets.

(** ** Calls *)

Section calls.
Context `{PyO3, Host, IpText}.
Import PyEndpoint.

Lemma poll_loop_delivers queue : forall objects,
  Forall (fun event => user (event_effects event)) queue ->
  exists polled, poll_loop queue objects = ([], Ok (objects ++ polled))
    /\ Forall2 FfiT.delivered queue polled.
Proof.
  induction queue as [|event queue IH]; intros objects Hq; cbn.
  - exists []. by rewrite app_nil_r.
  - apply Forall_cons in Hq as [He Hq]. destruct (FfiT.runtime_event_roundtrip event He) as [o Ho].
    pose proof Ho as (os & Hi & _). rewrite Hi. destruct (IH (objects ++ [o]) Hq) as (polled & -> & Hf).
    exists (o :: polled). rewrite <- app_assoc. split; [done|by constructor].
Qed.

Lemma try_send_adds e command e' :
  try_send e command = Ok e' -> e' = e <| command_tx := command_tx e ++ [command] |>
    /\ command_open e = true /\ len (command_tx e) < RUNTIME_CHANNEL_CAPACITY.
Proof.
  unfold try_send. destruct (command_open e); cbn; [|done].
  destruct (_ <=? _) eqn:E; [done|]. intros [= <-]. bool_to_prop. done.
Qed.

(** What a call that returns does to the endpoint: it adds commands, while there is room. *)
Record added (e e' : t) (commands : list RuntimeCommand.t) : Prop := {
  added_commands : command_tx e' = command_tx e ++ commands;
  added_open : commands <> [] -> command_open e = true;
  added_room : len (command_tx e) <= RUNTIME_CHANNEL_CAPACITY ->
    len (command_tx e') <= RUNTIME_CHANNEL_CAPACITY;
  added_events : event_rx e' = event_rx e;
  added_still : command_open e' = command_open e;
}.

Lemma added_one e command : command_open e = true -> len (command_tx e) < RUNTIME_CHANNEL_CAPACITY ->
  added e (e <| command_tx := command_tx e ++ [command] |>) [command].
Proof.
  intros Ho Hr. split; try done. intros _. cbn. rewrite len_app. unfold len at 2. cbn [length]. lia.
Qed.

Lemma added_none e e' :
  command_tx e' = command_tx e -> event_rx e' = event_rx e -> command_open e' = command_open e ->
  added e e' [].
Proof. intros Hc He Ho. split; rewrite ?Hc; try done. by rewrite app_nil_r. Qed.

Lemma try_send_added context e command e' :
  runtime_error context (try_send e command) = Ok e' -> added e e' [command].
Proof.
  unfold runtime_error. destruct (try_send e command) as [e1|] eqn:E; [|done]. intros [= <-].
  apply try_send_adds in E as (-> & Ho & Hr). by apply added_one.
Qed.

Lemma connect_added e request_id remote_address server_name e' :
  connect e request_id remote_address server_name = Ok e' -> exists address,
    extract_socket_address remote_address = Ok address
    /\ added e e' [RuntimeCommand.CreateConnection request_id address server_name].
Proof.
  unfold connect. destruct (congested e); [done|].
  destruct (extract_socket_address remote_address) as [address|]; [|done]. intros Hs. exists address.
  split; [done|]. by eapply try_send_added.
Qed.

Lemma handle_protocol_event_added e handle request_id event e' :
  handle_protocol_event e handle request_id event = Ok e' -> exists meant,
    protocol_event_from_py event = Ok meant
    /\ added e e' [RuntimeCommand.ProtocolEvent request_id handle meant].
Proof.
  unfold handle_protocol_event. destruct (congested e); [done|].
  destruct (protocol_event_from_py event) as [meant|]; [|done]. intros Hs. exists meant.
  split; [done|]. by eapply try_send_added.
Qed.

Lemma close_send_added e e' : close_send e = Some e' -> exists commands, added e e' commands.
Proof.
  unfold close_send. destruct (command_open e) eqn:Ho; cbn.
  - destruct (_ <=? _) eqn:E; [done|]. intros [= <-]. bool_to_prop.
    exists [RuntimeCommand.ShutdownReactor]. by apply added_one.
  - intros [= <-]. exists []. by apply added_none.
Qed.

Lemma close_join_added e e' : close_join e = Some e' -> added e e' [].
Proof.
  unfold close_join. destruct (reactor_thread e); cbn; [|by intros [= <-]; apply added_none].
  destruct (command_open e); [done|]. intros [= <-]. by apply added_none.
Qed.

End calls.

(** ** The configuration *)

Lemma from_secs_nonneg f d : from_secs f = Ok d -> 0 <= d.
Proof.
  unfold from_secs. destruct (duration_from_secs_f64 f) eqn:E; [|done]. intros [= <-].
  by eapply ConfigT.duration_nonneg.
Qed.

(** Whatever the user asked for, a configuration the crate read has durations. *)
Lemma base_durations `{PyO3} config c : base_try_from config = Ok c -> EndpointP.durations_ok c.
Proof.
  unfold base_try_from.
  repeat match goal with
  | |- context [from_secs ?f] => let E := fresh "E" in
      destruct (from_secs f) eqn:E; [apply from_secs_nonneg in E|done]
  | |- context [match ?x with Ok _ => _ | Err _ => _ end] => destruct x; [|done]
  end.
  intros [= <-]. by split.
Qed.

Section start.
Context `{LsQpack, QuinnNew, QuinnConfig, PyO3, Host}.

Lemma client_base config c : client_try_from config = Ok c ->
  base_try_from config = Ok (RustClientConfig.base c).
Proof.
  unfold client_try_from. destruct (base_try_from config); [|done].
  repeat match goal with
  | |- context [match ?x with Ok _ => _ | Err _ => _ end] => destruct x; [|done]
  end. by intros [= <-].
Qed.

Lemma server_base config c : server_try_from config = Ok c ->
  base_try_from config = Ok (RustServerConfig.base c).
Proof.
  unfold server_try_from. destruct (base_try_from config); [|done].
  repeat match goal with
  | |- context [match ?x with Ok _ => _ | Err _ => _ end] => destruct x; [|done]
  end. by intros [= <-].
Qed.

Lemma transport_reachable config is_client en sockets :
  PyEndpoint.transport config is_client = Ok (en, sockets) ->
  exists base, base_try_from config = Ok base /\ EndpointT.reachable base en.
Proof.
  unfold PyEndpoint.transport. destruct is_client.
  - destruct (client_try_from config) as [c|] eqn:Hc; [|done]. apply client_base in Hc.
    destruct (into_py_err (build_client_config c)); [|done].
    destruct (into_py_err (build_endpoint_config _)); [|done]. cbn.
    destruct client_sockets; [|done]. intros [= <- <-]. eexists. split; [exact Hc|].
    by eapply EndpointT.reachable_client.
  - destruct (server_try_from config) as [c|] eqn:Hc; [|done]. apply server_base in Hc.
    destruct (into_py_err (build_server_config c)); [|done].
    destruct (into_py_err (build_endpoint_config _)); [|done]. cbn.
    destruct (server_sockets _); [|done]. intros [= <- <-]. eexists. split; [exact Hc|].
    by eapply EndpointT.reachable_server.
Qed.

(** A new endpoint is empty and open, and its reactor has an endpoint of the
    configuration and a socket. *)
Lemma new_starts config is_client start e r :
  PyEndpoint.new config is_client start = Ok (e, r) ->
  (exists base, base_try_from config = Ok base /\ EndpointT.reachable base (Reactor.endpoint r))
  /\ Reactor.sockets r <> []
  /\ PyEndpoint.command_tx e = [] /\ PyEndpoint.event_rx e = [] /\ PyEndpoint.command_open e = true.
Proof.
  unfold PyEndpoint.new. destruct (PyEndpoint.transport config is_client) as [[en sockets]|] eqn:Ht; [|done].
  apply transport_reachable in Ht. destruct (runtime_error _ thread_spawn); [|done].
  unfold PyEndpoint.thread_start. destruct runtime_build; [|done].
  case_bool_decide as Hs; [done|]. by intros [= <- <-].
Qed.

End start.

(** ** Both threads *)

Section system.
Context `{LsQpack, QuinnNew, QuinnConfig, PyO3, Host, IpText}.
Import System.

Record inv (s : t) : Prop := {
  inv_endpoint : exists base, EndpointP.durations_ok base
    /\ EndpointT.reachable base (Reactor.endpoint (reactor s));
  inv_user : Forall (fun event => user (event_effects event)) (PyEndpoint.event_rx (endpoint s));
  inv_event_room : len (PyEndpoint.event_rx (endpoint s)) <= RUNTIME_CHANNEL_CAPACITY;
  inv_command_room : len (PyEndpoint.command_tx (endpoint s)) <= RUNTIME_CHANNEL_CAPACITY;
  inv_commands : exists lost, accepted s = handled s ++ lost
    /\ (PyEndpoint.command_open (endpoint s) = true -> lost = PyEndpoint.command_tx (endpoint s));
  inv_events : exists taken, queued s = taken ++ PyEndpoint.event_rx (endpoint s)
    /\ Forall2 FfiT.delivered taken (polled s);
}.

Lemma call_inv s e commands :
  added (endpoint s) e commands -> inv s -> inv (call s e).
Proof.
  intros [Hc Ho Hr He Hs] [Hen Hu Her Hcr (lost & Ha & Hl) Hev].
  split; cbn; rewrite ?He; try done; [by apply Hr|].
  rewrite Hc, drop_app_length, Ha. exists (lost ++ commands). rewrite app_assoc. split; [done|].
  rewrite Hs. intros Hopen. by rewrite (Hl Hopen).
Qed.

Lemma system_turn_inv fuel s w now_instant flushed_at s' :
  turn fuel s w now_instant flushed_at = Some s' -> inv s -> inv s'.
Proof.
  intros Hb [(base & Hd & Hen) Hu Her Hcr (lost & Ha & Hl) (taken & Hq & Hf)].
  apply bind_Some in Hb as ([r go] & Ht & [= <-]).
  pose proof (fun Hr He => ReactorT.turn_kept _ base _ _ _ _ _ _ Hr He Ht) as Hk.
  destruct (Hk Her Hen) as [Hr' Hen']. clear Hk.
  destruct (ReactorE.turn_queues base Hd _ _ _ _ _ _ _ Ht) as (_ & events & Hev & Hue);
    [by apply EndpointT.reachable_wf|].
  cbn in Hev. split; cbn; [by exists base|..].
  - destruct go; cbn; rewrite Hev; by apply Forall_app.
  - by destruct go.
  - by destruct go.
  - exists lost. split; [done|]. by destruct go.
  - rewrite Hev, drop_app_length, Hq, <- app_assoc. exists taken. split; [|done]. by destruct go.
Qed.

Lemma system_poll_inv s e r :
  PyEndpoint.poll_runtime_events (endpoint s) = (e, r) -> inv s ->
  inv ((call s e) <| polled := polled s ++ match r with Ok (PyList objects) => objects | _ => [] end |>).
Proof.
  intros Hp [Hen Hu Her Hcr (lost & Ha & Hl) (taken & Hq & Hf)]. unfold PyEndpoint.poll_runtime_events in Hp.
  destruct (poll_loop_delivers _ [] Hu) as (objects & Ho & Hd). rewrite Ho in Hp. injection Hp as <- <-.
  split; cbn; try done.
  - rewrite drop_all, app_nil_r. by exists lost.
  - exists (taken ++ PyEndpoint.event_rx (endpoint s)). rewrite app_nil_r. split; [done|by apply Forall2_app].
Qed.

Lemma take_command_inv s command s1 :
  PyEndpoint.command_open (endpoint s) = true -> take_command s = Some (command, s1) -> inv s -> inv s1.
Proof.
  intros Ho Ht [Hen Hu Her Hcr (lost & Ha & Hl) Hev]. unfold take_command in Ht.
  destruct (PyEndpoint.command_tx (endpoint s)) as [|c rest] eqn:Hc; [done|]. injection Ht as <- <-.
  split; cbn; try done.
  - unfold len in *. cbn [length] in Hcr. lia.
  - exists rest. rewrite Ha, (Hl Ho), <- app_assoc. by split.
Qed.

Lemma system_step_inv s s' : step s s' -> inv s -> inv s'.
Proof.
  intros Hs. destruct Hs as [request address name e Hx|handle request event e Hx|e r Hx|e Hx|e Hx
    |fuel command s1 now flushed s' Ho Hc Ht|fuel first waiting now flushed s' Ho Ht|fuel now flushed s' Ho Ht].
  - apply connect_added in Hx as (meant & _ & Hadd). by eapply call_inv.
  - apply handle_protocol_event_added in Hx as (meant & _ & Hadd). by eapply call_inv.
  - by apply system_poll_inv.
  - apply close_send_added in Hx as [commands Hadd]. by eapply call_inv.
  - apply close_join_added in Hx. by eapply call_inv.
  - intros Hi. eapply system_turn_inv; [done|]. by eapply take_command_inv.
  - by eapply system_turn_inv.
  - by eapply system_turn_inv.
Qed.

Lemma system_inv s : reachable s -> inv s.
Proof.
  induction 1 as [config is_client start e r Hn|s s' _ IH Hs]; [|by eapply system_step_inv].
  apply new_starts in Hn as ((base & Hb & Hr) & _ & Hc & He & Ho). split; cbn; rewrite ?Hc, ?He; try done.
  - exists base. split; [by eapply base_durations|done].
  - by exists [].
  - by exists [].
Qed.

(** C5: no event is lost on the way to Python, and none is converted wrongly.  However the
    calls of Python and the turns of the reactor follow each other, a poll succeeds,
    empties the queue and returns every event in it, in order, in the form Python reads
    as the event it is; so what Python has polled and what is queued is all that the
    reactor ever queued. *)
Theorem system_events_reach_python s :
  reachable s ->
  (exists taken, queued s = taken ++ PyEndpoint.event_rx (endpoint s)
     /\ Forall2 FfiT.delivered taken (polled s))
  /\ len (PyEndpoint.event_rx (endpoint s)) <= RUNTIME_CHANNEL_CAPACITY
  /\ exists objects, PyEndpoint.poll_runtime_events (endpoint s)
       = ((endpoint s) <| PyEndpoint.event_rx := [] |>, Ok (PyList objects))
     /\ Forall2 FfiT.delivered (PyEndpoint.event_rx (endpoint s)) objects.
Proof.
  intros [_ Hu Her _ _ Hev]%system_inv. split_and!; [done|done|].
  destruct (poll_loop_delivers _ [] Hu) as (objects & Ho & Hd). exists objects.
  unfold PyEndpoint.poll_runtime_events. by rewrite Ho.
Qed.


End system.
(** ** An example

    A host on which only IPv4 can be bound; a client connects. *)

Import Literal Pipe Builtin Sample.

#[local] Instance sample_host : Host := {|
  StdSocket := SocketAddr.t;
  udp_bind address := if SocketAddr.is_ipv4 address then Some address else None;
  set_nonblocking _ := Ok ();
  std_local_addr := Some;
  to_socket_addrs _ := Ok [SocketAddr.V6 1 443 0 0; SocketAddr.V4 2 443; SocketAddr.V4 3 443];
  thread_spawn := Ok ();
  runtime_build := Ok ();
  tokio_from_std _ := Some 7;
  try_send_error_text full := if full then b: "full" else b: "closed";
|}.

#[local] Instance sample_text : IpText := {|
  ip_to_string _ := b: "localhost";
  parse_ipv6 _ := Ok 1;
  parse_ip _ := Ok (IpAddr.V4 1);
|}.

#[local] Instance sample_new : QuinnNew := {|
  quic_client_config _ := ();
  quic_endpoint_new _ _ := (1, []);
|}.

Lemma server_listens_witness : exists bound,
  server_sockets (b: "localhost", 443) = Ok bound.*2
  /\ (forall is_ipv4, of_family is_ipv4 bound = if is_ipv4 then [SocketAddr.V4 2 443] else []).
Proof.
  pose proof (server_listens (b: "localhost", 443) _ eq_refl (fun _ => eq_refl)) as (bound & Hs & _ & Hf).
  exists bound. split; [rewrite <- Hs; reflexivity|]. intros is_ipv4. rewrite Hf. by destruct is_ipv4.
Defined.

Definition example_start : option System.t :=
  match PyEndpoint.new PyConfig.client_defaults true 0 with
  | Ok (e, r) => Some {| System.endpoint := e; System.reactor := r; System.accepted := [];
                         System.handled := []; System.queued := []; System.polled := [] |}
  | Err _ => None
  end.

Definition example_called : option System.t :=
  s ← example_start;
  match PyEndpoint.connect (System.endpoint s) 1 (PyTuple [PyStr (b: "localhost"); PyInt 443])
          (b: "localhost") with
  | Ok e => Some (System.call s e)
  | Err _ => None
  end.

Definition example_turned : option System.t :=
  s ← example_called;
  '(command, s) ← System.take_command s;
  System.turn 16 s (Reactor.Command (Some command)) 0 1.

Lemma example_start_reachable s : example_start = Some s -> System.reachable s.
Proof.
  unfold example_start. destruct (PyEndpoint.new PyConfig.client_defaults true 0) as [[e r]|] eqn:Hn; [|done].
  intros [= <-]. by eapply System.reachable_new.
Qed.

Lemma example_called_reachable s : example_called = Some s -> System.reachable s.
Proof.
  intros Hb. apply bind_Some in Hb as (s0 & H0 & Hb).
  destruct (PyEndpoint.connect _ _ _ _) as [e|] eqn:Hc; [|done]. injection Hb as <-.
  eapply System.reachable_step; [by apply example_start_reachable|by eapply System.step_connect].
Qed.

Lemma example_turned_reachable s : example_turned = Some s -> System.reachable s.
Proof.
  intros Hb. apply bind_Some in Hb as (s0 & H0 & Hb). apply bind_Some in Hb as ([command s1] & Ht & Hb).
  assert (Ho : PyEndpoint.command_open (System.endpoint s0) = true).
  { assert (Hd : (fun s => PyEndpoint.command_open (System.endpoint s)) <$> example_called = Some true)
      by (vm_compute; reflexivity). rewrite H0 in Hd. by injection Hd. }
  eapply System.reachable_step; [by apply example_called_reachable|by eapply System.step_command].
Qed.

(** The event that the connection exists waits for Python. *)
Lemma system_events_reach_python_witness : exists s objects,
  example_turned = Some s /\ length objects = 1%nat
  /\ (PyEndpoint.poll_runtime_events (System.endpoint s)).2 = Ok (PyList objects).
Proof.
  destruct (succeeds_some example_turned) as [s Hs]; [vm_compute; reflexivity|].
  destruct (system_events_reach_python s (example_turned_reachable s Hs)) as (_ & _ & objects & Hp & Hf).
  exists s, objects. split; [exact Hs|]. split; [|rewrite Hp; reflexivity].
  apply Forall2_length in Hf. rewrite <- Hf.
  assert (Hd : (fun s => length (PyEndpoint.event_rx (System.endpoint s))) <$> example_turned = Some 1%nat)
    by (vm_compute; reflexivity).
  rewrite Hs in Hd. injection Hd as Hd. exact Hd.
Defined.


End FfiE.
