(* ===== verification/WakerMachine.v ===== *)
(** * Waking Python

    [crates/src/ffi/waker.rs], the end of a turn in [crates/src/runtime/reactor.rs] and
    [_run_waker_loop] of [pywebtransport/_controller/controller.py]: two threads, a queue
    of events, a flag and a socket pair.  An action is what one thread does in one
    atomic step, and any action whose thread is at it can be next; the flag and the queue
    are taken to be sequentially consistent. *)

From S2P Require Import Prelude.
From S2P Require Import Types.
From S2P Require Import ReactorMachine.

Module WakerState.
Record t : Set := mk {
  fd : Z;
  signaled : bool;
}.

Definition new (fd : Z) : t := {| fd := fd; signaled := false |}.

Definition clear (w : t) : t := {| fd := fd w; signaled := false |}.

(** The swap of [wake], and whether it goes on to write. *)
Definition wake (w : t) : t * bool :=
  ({| fd := fd w; signaled := true |}, negb (signaled w)).
End WakerState.

(** Where [_run_waker_loop] is. *)
Module Loop.
Inductive t : Set :=
| Receiving
| Draining
| Clearing
| Polling
| Processing.
End Loop.

Module Waker.

Record t : Type := mk {
  queue : list RuntimeEvent.t;
  waker : WakerState.t;
  (** Bytes in the socket pair. *)
  pipe : nat;
  (** The reactor: it owes a call of the waker, is in that call past the swap, has ended. *)
  wake_due : bool;
  writing : bool;
  ended : bool;
  (** The loop in Python, with what it polled and has not processed yet. *)
  loop : Loop.t;
  runtime_events : list RuntimeEvent.t;
  (** What was put into the queue, and what Python processed. *)
  pushed : list RuntimeEvent.t;
  processed : list RuntimeEvent.t;
}.

#[global] Instance eta_waker : Eta t := fun s =>
  mk (queue s) (waker s) (pipe s) (wake_due s) (writing s) (ended s) (loop s) (runtime_events s)
    (pushed s) (processed s).
#[global] Instance set_queue : Setter queue := ltac:(build_setter).
#[global] Instance set_waker : Setter waker := ltac:(build_setter).
#[global] Instance set_pipe : Setter pipe := ltac:(build_setter).
#[global] Instance set_wake_due : Setter wake_due := ltac:(build_setter).
#[global] Instance set_writing : Setter writing := ltac:(build_setter).
#[global] Instance set_ended : Setter ended := ltac:(build_setter).
#[global] Instance set_loop : Setter loop := ltac:(build_setter).
#[global] Instance set_runtime_events : Setter runtime_events := ltac:(build_setter).
#[global] Instance set_pushed : Setter pushed := ltac:(build_setter).
#[global] Instance set_processed : Setter processed := ltac:(build_setter).

Definition new (fd : Z) : t := {|
  queue := []; waker := WakerState.new fd; pipe := 0; wake_due := false; writing := false;
  ended := false; loop := Loop.Receiving; runtime_events := []; pushed := []; processed := [];
|}.

(** ** The reactor *)

(** An event is pushed during a turn; only one that fits is announced. *)
Definition push (s : t) (event : RuntimeEvent.t) : option t :=
  if ended s || writing s then None
  else match array_push (queue s) event with
       | (queue', true) => Some (s <| queue := queue' |> <| wake_due := true |>
                                   <| pushed := pushed s ++ [event] |>)
       | (_, false) => Some s
       end.

(** [notify_shutdown] wakes whether the event fits or not. *)
Definition shutdown (s : t) : option t :=
  if ended s || writing s || wake_due s then None
  else match array_push (queue s) RuntimeEvent.ReactorShutdown with
       | (queue', fits) =>
           Some (s <| queue := queue' |> <| wake_due := true |> <| ended := true |>
                   <| pushed := if fits : bool then pushed s ++ [RuntimeEvent.ReactorShutdown]
                                else pushed s |>)
       end.

Definition swap (s : t) : option t :=
  if wake_due s && negb (writing s) then
    let '(w, writes) := WakerState.wake (waker s) in
    Some (s <| waker := w |> <| wake_due := false |> <| writing := writes |>)
  else None.

(** [write_waker]: one byte, or the error that the socket would block, which is ignored. *)
Definition write (pipe_capacity : nat) (s : t) : option t :=
  if writing s then Some (s <| pipe := Nat.min pipe_capacity (S (pipe s)) |> <| writing := false |>)
  else None.

(** ** The loop in Python *)

Definition WAKER_DRAIN_BUFFER_SIZE : nat := 8192.
#[global] Arguments WAKER_DRAIN_BUFFER_SIZE : simpl never.

(** [sock_recv] and the [recv] that drains return what there is, at most the size of the
    buffer; the second raises [BlockingIOError] when there is nothing. *)
Definition receive (s : t) : option t :=
  match loop s, pipe s with
  | Loop.Receiving, S _ | Loop.Draining, S _ =>
      Some (s <| pipe := (pipe s - Nat.min (pipe s) WAKER_DRAIN_BUFFER_SIZE)%nat |>
              <| loop := Loop.Draining |>)
  | Loop.Draining, O => Some (s <| loop := Loop.Clearing |>)
  | _, _ => None
  end.

Definition clear (s : t) : option t :=
  match loop s with
  | Loop.Clearing => Some (s <| waker := WakerState.clear (waker s) |> <| loop := Loop.Polling |>)
  | _ => None
  end.

(** One turn of the loop of [poll_runtime_events]. *)
Definition poll (s : t) : option t :=
  match loop s, queue s with
  | Loop.Polling, event :: rest =>
      Some (s <| queue := rest |> <| runtime_events := runtime_events s ++ [event] |>)
  | Loop.Polling, [] => Some (s <| loop := Loop.Processing |>)
  | _, _ => None
  end.

Definition process (s : t) : option t :=
  match loop s, runtime_events s with
  | Loop.Processing, event :: rest =>
      Some (s <| runtime_events := rest |> <| processed := processed s ++ [event] |>)
  | Loop.Processing, [] => Some (s <| loop := Loop.Receiving |>)
  | _, _ => None
  end.

(** ** Interleavings *)

Inductive action : Type :=
| Push (event : RuntimeEvent.t)
| Shutdown
| Swap
| Write
| Receive
| Clear
| Poll
| Process.

Definition step (pipe_capacity : nat) (s : t) (a : action) : option t :=
  match a with
  | Push event => push s event
  | Shutdown => shutdown s
  | Swap => swap s
  | Write => write pipe_capacity s
  | Receive => receive s
  | Clear => clear s
  | Poll => poll s
  | Process => process s
  end.

Fixpoint run (pipe_capacity : nat) (s : t) (actions : list action) : option t :=
  match actions with
  | [] => Some s
  | a :: rest => s ← step pipe_capacity s a; run pipe_capacity s rest
  end.

End Waker.
