(* ===== verification/WakerTheorems.v ===== *)
(** * Python is woken for every event

    Whatever the two threads do in whatever order, no event waits in the queue with
    nobody on the way to fetch it. *)

From S2P Require Import Prelude.
From S2P Require Import Types.
From S2P Require Import ReactorMachine.
From S2P Require Import WakerMachine.

Module WakerT.
Import Waker.

(** A byte is there or about to be; the loop clears the flag, polls, processes before it
    receives again. *)
Definition notified (s : t) : bool := writing s || (0 <? pipe s)%nat.
Definition will_clear (s : t) : bool :=
  match loop s with Loop.Draining | Loop.Clearing => true | _ => false end.
Definition polling (s : t) : bool := match loop s with Loop.Polling => true | _ => false end.
Definition processing (s : t) : bool := match loop s with Loop.Processing => true | _ => false end.
Definition none {A} (l : list A) : bool := match l with [] => true | _ => false end.

Record inv (s : t) : Prop := {
  inv_order : pushed s = processed s ++ runtime_events s ++ queue s;
  inv_batch : none (runtime_events s) || polling s || processing s = true;
  (** A flag that is set has someone on the way to clear it. *)
  inv_signaled : implb (WakerState.signaled (waker s)) (notified s || will_clear s) = true;
  (** Events in the queue have someone on the way to fetch them. *)
  inv_queue : none (queue s) || wake_due s || notified s || will_clear s || polling s = true;
}.

Section machine.
Context (pipe_capacity : nat) (Hcap : (0 < pipe_capacity)%nat).

Lemma new_inv fd : inv (new fd).
Proof. done. Qed.

Lemma array_push_spec queue event queue' fits :
  array_push queue event = (queue', fits) -> queue' = queue ++ if fits : bool then [event] else [].
Proof. unfold array_push. destruct (_ <? _); intros [= <- <-]; [done|by rewrite app_nil_r]. Qed.

(** The parts of a state, for a proof by cases on the flags and the place of the loop. *)
Ltac parts s :=
  destruct s as [queue [fd signaled] pipe due writing ended loop events pushed processed];
  intros [Ho Hb Hs Hq]; cbn in Ho, Hb, Hs, Hq |- *.

Ltac flags :=
  split; unfold notified, will_clear, polling, processing in *; cbn in *; try assumption;
  match goal with
  | |- _ = true =>
      repeat match goal with Hx : _ = true |- _ => revert Hx end;
      repeat match goal with
      | place : Loop.t |- _ => destruct place
      | |- context [match ?n with O => _ | S _ => _ end] => destruct n
      | |- context [none ?l] => destruct (none l)
      | b : bool |- _ => destruct b
      end; intros; done
  | _ => idtac
  end.

Lemma push_inv s event s' : inv s -> push s event = Some s' -> inv s'.
Proof.
  parts s. unfold push. cbn. destruct (ended || writing); [done|].
  destruct (array_push queue event) as [queue' []] eqn:Hp; intros [= <-]; [|done].
  apply array_push_spec in Hp as ->. flags. by rewrite Ho, <- !app_assoc.
Qed.

Lemma shutdown_inv s s' : inv s -> shutdown s = Some s' -> inv s'.
Proof.
  parts s. unfold shutdown. cbn. destruct (ended || writing || due); [done|].
  destruct (array_push queue RuntimeEvent.ReactorShutdown) as [queue' fits] eqn:Hp.
  intros [= <-]. apply array_push_spec in Hp as ->. flags.
  rewrite Ho. destruct fits; [by rewrite <- !app_assoc|by rewrite app_nil_r].
Qed.

Lemma swap_inv s s' : inv s -> swap s = Some s' -> inv s'.
Proof. parts s. unfold swap. cbn. destruct due, writing; try done. cbn. intros [= <-]. flags. Qed.

Lemma write_inv s s' : inv s -> write pipe_capacity s = Some s' -> inv s'.
Proof using Hcap.
  parts s. unfold write. cbn [Waker.writing Waker.pipe]. destruct writing; [|done].
  destruct (Nat.min pipe_capacity (S pipe)) eqn:E; [lia|]. clear E. intros [= <-]. flags.
Qed.

Lemma receive_inv s s' : inv s -> receive s = Some s' -> inv s'.
Proof. parts s. unfold receive. cbn. destruct loop, pipe; try done; intros [= <-]; flags. Qed.

Lemma clear_inv s s' : inv s -> clear s = Some s' -> inv s'.
Proof. parts s. unfold clear. cbn. destruct loop; try done. intros [= <-]. flags. Qed.

Lemma waker_poll_inv s s' : inv s -> poll s = Some s' -> inv s'.
Proof.
  parts s. unfold poll. cbn. destruct loop; try done. destruct queue; intros [= <-]; flags.
  by rewrite Ho, <- !app_assoc.
Qed.

Lemma process_inv s s' : inv s -> process s = Some s' -> inv s'.
Proof.
  parts s. unfold process. cbn. destruct loop; try done. destruct events; intros [= <-]; flags.
  by rewrite Ho, <- app_assoc.
Qed.

Lemma action_inv s a s' : inv s -> step pipe_capacity s a = Some s' -> inv s'.
Proof using Hcap.
  destruct a; cbn [step].
  - apply push_inv.
  - apply shutdown_inv.
  - apply swap_inv.
  - apply write_inv.
  - apply receive_inv.
  - apply clear_inv.
  - apply waker_poll_inv.
  - apply process_inv.
Qed.

Lemma run_inv actions : forall s s', inv s -> run pipe_capacity s actions = Some s' -> inv s'.
Proof using Hcap.
  induction actions as [|a actions IH]; intros s s'; intros Hi; cbn; [by intros [= <-]|].
  intros Hb. apply bind_Some in Hb as (s1 & Hs & Hr). eapply IH; [|done]. by eapply action_inv.
Qed.

(** ** Progress *)

(** The reactor has something new to say. *)
Definition fresh (a : action) : bool := match a with Push _ | Shutdown => true | _ => false end.

(** How many more actions there can be before it has. *)
Definition effort (s : t) : nat :=
  (if wake_due s then 7 else 0) + (if writing s then 6 else 0) + 5 * pipe s
  + match loop s with
    | Loop.Receiving => 0 | Loop.Draining => 4 | Loop.Clearing => 3 | Loop.Polling => 2
    | Loop.Processing => 1
    end
  + 2 * length (queue s) + length (runtime_events s).

Lemma step_effort s a s' : fresh a = false -> step pipe_capacity s a = Some s' ->
  (effort s' < effort s)%nat /\ pushed s' = pushed s.
Proof.
  assert (Hbuf : (1 <= WAKER_DRAIN_BUFFER_SIZE)%nat) by (apply Nat.leb_le; reflexivity).
  destruct s as [queue [fd signaled] pipe due writing ended loop events pushed processed].
  intros Hf. destruct a; try done; cbn [step]; unfold effort; clear Hf.
  - unfold swap. cbn. destruct due, writing; try done. intros [= <-]. cbn. destruct signaled; cbn; split; try done; lia.
  - unfold write. cbn. destruct writing; try done. intros [= <-]. cbn. split; [lia|done].
  - unfold receive. cbn. destruct loop, pipe; try done; intros [= <-]; cbn; split; try done; lia.
  - unfold clear. cbn. destruct loop; try done. intros [= <-]. cbn. split; [lia|done].
  - unfold poll. cbn. destruct loop; try done. destruct queue; intros [= <-]; cbn; split; try done;
      rewrite ?length_app; cbn; lia.
  - unfold process. cbn. destruct loop; try done. destruct events; intros [= <-]; cbn; split; try done; lia.
Qed.

Lemma run_effort later : forall s s', Forall (fun a => fresh a = false) later ->
  run pipe_capacity s later = Some s' ->
  (length later + effort s' <= effort s)%nat /\ pushed s' = pushed s.
Proof.
  induction later as [|a later IH]; intros s s' Hf; cbn; [intros [= <-]; by split|].
  apply Forall_cons in Hf as [Ha Hf]. intros Hb. apply bind_Some in Hb as (s1 & Hs & Hr).
  apply step_effort in Hs as [He Hp]; [|done]. apply IH in Hr as [He' Hp']; [|done].
  split; [lia|congruence].
Qed.

Definition stuck (s : t) : Prop := forall a, fresh a = false -> step pipe_capacity s a = None.

Lemma progress s : stuck s \/ exists a s', fresh a = false /\ step pipe_capacity s a = Some s'.
Proof.
  destruct s as [queue [fd signaled] pipe due writing ended loop events pushed processed].
  destruct writing; [by right; exists Write; eexists|]. destruct due; [by right; exists Swap; eexists|].
  destruct loop.
  - destruct pipe; [|by right; exists Receive; eexists]. left. by intros [].
  - right. exists Receive. destruct pipe; by eexists.
  - by right; exists Clear; eexists.
  - right. exists Poll. destruct queue; by eexists.
  - right. exists Process. destruct events; by eexists.
Qed.

Lemma stuck_delivered s : inv s -> stuck s -> processed s = pushed s.
Proof.
  intros [Ho Hb _ Hq] Hs. pose proof (Hs Write eq_refl) as Hw. pose proof (Hs Swap eq_refl) as Hd.
  pose proof (Hs Receive eq_refl) as Hr. pose proof (Hs Clear eq_refl) as Hc.
  pose proof (Hs Poll eq_refl) as Hp. pose proof (Hs Process eq_refl) as Hx.
  destruct s as [queue [fd signaled] pipe due writing ended loop events pushed processed].
  destruct writing; [done|]. destruct due; [done|]. destruct loop; try done.
  - destruct pipe; [|done]. cbn in Hq, Hb, Ho |- *. destruct queue, events; try done.
    by rewrite Ho, !app_nil_r.
  - by destruct pipe.
  - by destruct queue.
  - by destruct events.
Qed.

Lemma reaches_delivery n : forall s, (effort s < n)%nat -> inv s ->
  exists later s', Forall (fun a => fresh a = false) later
    /\ run pipe_capacity s later = Some s' /\ processed s' = pushed s.
Proof using Hcap.
  induction n as [|n IH]; intros s Hn Hi; [lia|]. destruct (progress s) as [Hs|(a & s1 & Ha & Hs)].
  - exists [], s. split_and!; [done|done|by apply stuck_delivered].
  - destruct (step_effort _ _ _ Ha Hs) as [He Hp].
    destruct (IH s1) as (later & s' & Hf & Hr & Hd); [lia|by eapply action_inv|].
    exists (a :: later), s'. cbn. rewrite Hs. cbn. split_and!; [by constructor|done|congruence].
Qed.

End machine.

(** C3: Python gets every event, whatever the order in which the two threads run.  Events
    are processed in the order they were queued, none twice; and once the reactor has
    nothing new to say, the threads run for a bounded time, in every order, and stop
    nowhere but where every event has been processed: no wake-up is lost. *)
Theorem waker_delivers_all pipe_capacity fd actions s :
  (0 < pipe_capacity)%nat -> run pipe_capacity (new fd) actions = Some s ->
  pushed s = processed s ++ runtime_events s ++ queue s
  /\ (forall later s', Forall (fun a => fresh a = false) later ->
       run pipe_capacity s later = Some s' ->
       (length later <= effort s)%nat /\ (stuck pipe_capacity s' -> processed s' = pushed s))
  /\ exists later s', Forall (fun a => fresh a = false) later
       /\ run pipe_capacity s later = Some s' /\ processed s' = pushed s.
Proof.
  intros Hcap Hr. apply (run_inv pipe_capacity Hcap) in Hr; [|apply new_inv]. split_and!.
  - apply Hr.
  - intros later s' Hf Hl. destruct (run_effort pipe_capacity Hcap later s s' Hf Hl) as [He Hp]. split; [lia|].
    intros Hs. rewrite <- Hp. eapply stuck_delivered; [|done]. by eapply run_inv.
  - apply (reaches_delivery _ Hcap (S (effort s))); [lia|done].
Qed.

(** An event pushed while Python is between the drain and the clear: the flag is still
    set, so the reactor writes no byte, and the poll that follows gets the event. *)
Definition example_actions : list action :=
  [Push (RuntimeEvent.CommandFailed 1 None []); Swap; Write; Receive; Receive;
   Push (RuntimeEvent.CommandFailed 2 None []); Swap; Clear; Poll; Poll; Poll; Process; Process].

Lemma waker_delivers_all_witness : exists s, run 1 (new 3) example_actions = Some s
  /\ pushed s = processed s ++ runtime_events s ++ queue s.
Proof.
  destruct (succeeds_some (run 1 (new 3) example_actions)) as [s Hs]; [vm_compute; reflexivity|].
  exists s. split; [exact Hs|].
  destruct (waker_delivers_all 1 3 example_actions s) as [Ho _]; [lia|exact Hs|exact Ho].
Defined.

End WakerT.
