(* ===== verification/PyConnection.v ===== *)
(** * Connections, sessions and streams of the package

    [pywebtransport/connection.py], and of [session.py] and [stream.py] what it calls: the
    handles the user holds and how an event of the crate reaches them.  Code that changes
    an object and may raise is a function of the object to the object it leaves behind and
    its result, with the notation of the small monad below.  Dispatching an event to the
    user's handlers is scheduled, not run: [emitted] is what was scheduled, in order. *)

From S2P Require Import Prelude.
From S2P Require Import Types.
From S2P Require Import Pyo3.
From S2P Require Import FfiConversion.
From S2P Require Import PyConversion.
Import PyObject.

(** ** Python code with state and exceptions *)

Definition Py (S A : Type) : Type := S -> S * result A PyErr.

Definition py_return {S A} (a : A) : Py S A := fun s => (s, Ok a).
Definition py_raise {S A} (e : PyErr) : Py S A := fun s => (s, Err e).
Definition py_modify {S} (f : S -> S) : Py S () := fun s => (f s, Ok ()).
Definition py_read {S A} (f : S -> A) : Py S A := fun s => (s, Ok (f s)).
Definition py_bind {S A B} (m : Py S A) (k : A -> Py S B) : Py S B := fun s =>
  match m s with
  | (s, Ok a) => k a s
  | (s, Err e) => (s, Err e)
  end.
Definition py_when {S} (condition : bool) (m : Py S ()) : Py S () :=
  if condition then m else py_return ().

Notation "'let*' x ':=' m 'in' k" := (py_bind m (fun x => k))
  (at level 200, x name, m at level 200, k at level 200).

(** ** Values *)

(** [data.get(key)]. *)
Definition data_get (data : list (str * PyObject.t)) (key : str) : PyObject.t :=
  match List.find (fun entry => bool_decide (entry.1 = key)) data with
  | Some (_, value) => value
  | None => PyNone
  end.

Definition is_none (o : PyObject.t) : bool := match o with PyNone => true | _ => false end.

(** An object as the key of a dictionary whose keys are integers. *)
Definition int_key (o : PyObject.t) : option Z :=
  match o with PyInt z => Some z | PyBool value => Some (Z.b2z value) | _ => None end.

(** [==] of a member of an enumeration of strings. *)
Definition is_str (o : PyObject.t) (s : str) : bool :=
  match o with PyStr value => bool_decide (value = s) | _ => false end.
Definition is_event (event_type : PyObject.t) (e : EventType.t) : bool :=
  is_str event_type (event_type_value e).
Definition is_event_in (event_type : PyObject.t) (events : list EventType.t) : bool :=
  existsb (is_event event_type) events.

Definition py_error (class_name message : str) (id : Z) : PyErr :=
  instantiate_py_exception class_name (message ++ decimal_digits 20 id) [].

(** ** Streams ([stream.py]) *)

Module PyStream.
Record t : Type := mk {
  stream_id : Z;
  session_id : Z;
  direction : StreamDirection.t;
  is_peer_initiated : bool;
  is_closed : bool;
}.

Definition new (stream_id session_id : Z) (direction : StreamDirection.t)
    (is_peer_initiated : bool) : t :=
  {| stream_id := stream_id; session_id := session_id; direction := direction;
     is_peer_initiated := is_peer_initiated; is_closed := false |}.

#[global] Instance eta_py_stream : Eta t := fun s =>
  mk (stream_id s) (session_id s) (direction s) (is_peer_initiated s) (is_closed s).
#[global] Instance set_py_stream_is_closed : Setter is_closed := ltac:(build_setter).

Definition handle_closed (s : t) : t := s <| is_closed := true |>.
End PyStream.

(** ** Sessions ([session.py]) *)

Module PySession.
(** [ready] is the future behind [ensure_ready]: pending, or done without or with an
    error.  A queue holds streams, and [None] at the end. *)
Record t : Type := mk {
  session_id : Z;
  path : PyObject.t;
  headers : PyObject.t;
  wt_available_protocols : PyObject.t;
  wt_protocol : PyObject.t;
  incoming_streams_bidi : list (option Z);
  incoming_streams_uni : list (option Z);
  is_closed : bool;
  ready : option (option PyErr);
}.

Definition new (session_id : Z) (path headers wt_available_protocols wt_protocol : PyObject.t) : t :=
  {| session_id := session_id; path := path; headers := headers;
     wt_available_protocols := wt_available_protocols; wt_protocol := wt_protocol;
     incoming_streams_bidi := []; incoming_streams_uni := []; is_closed := false; ready := None |}.

#[global] Instance eta_py_session : Eta t := fun s =>
  mk (session_id s) (path s) (headers s) (wt_available_protocols s) (wt_protocol s)
    (incoming_streams_bidi s) (incoming_streams_uni s) (is_closed s) (ready s).
#[global] Instance set_py_wt_protocol : Setter wt_protocol := ltac:(build_setter).
#[global] Instance set_incoming_streams_bidi : Setter incoming_streams_bidi := ltac:(build_setter).
#[global] Instance set_incoming_streams_uni : Setter incoming_streams_uni := ltac:(build_setter).
#[global] Instance set_py_session_is_closed : Setter is_closed := ltac:(build_setter).
#[global] Instance set_ready : Setter ready := ltac:(build_setter).

(** [error_code] of the event, if there is one. *)
Definition handle_closed (error_code : PyObject.t) (s : t) : t :=
  let s := s <| is_closed := true |>
             <| incoming_streams_bidi := incoming_streams_bidi s ++ [None] |>
             <| incoming_streams_uni := incoming_streams_uni s ++ [None] |> in
  match ready s with
  | Some _ => s
  | None => s <| ready := Some (Some (instantiate_py_exception (b: "SessionError")
                (b: "wt_session open failed session_id=" ++ decimal_digits 20 (session_id s))
                (if is_none error_code then [] else [(b: "error_code", error_code)]))) |>
  end.

Definition invalid_state : PyErr := PyException.mk (b: "InvalidStateError") (b: "invalid state") None.

(** [set_result] raises on a future that is done. *)
Definition handle_ready (wt_protocol' : PyObject.t) : Py t () :=
  let* _ := py_modify (fun s => s <| wt_protocol := wt_protocol' |>) in
  let* r := py_read ready in
  match r with
  | None => py_modify (fun s => s <| ready := Some None |>)
  | Some _ => py_raise invalid_state
  end.

Definition handle_stream_opened (stream : PyStream.t) (s : t) : t :=
  if PyStream.is_peer_initiated stream then
    match PyStream.direction stream with
    | StreamDirection.Bidirectional =>
        s <| incoming_streams_bidi := incoming_streams_bidi s ++ [Some (PyStream.stream_id stream)] |>
    | StreamDirection.ReceiveOnly =>
        s <| incoming_streams_uni := incoming_streams_uni s ++ [Some (PyStream.stream_id stream)] |>
    | StreamDirection.SendOnly => s
    end
  else s.
End PySession.

(** ** Connections *)

Module PyConnection.

(** Whose handlers an event is for. *)
Inductive emitter : Set :=
| OnConnection
| OnSession (session_id : Z)
| OnStream (stream_id : Z).

(** [retired_*] are the handles that were dropped: the user may still hold them. *)
Record t : Type := mk {
  handle : Z;
  is_client : bool;
  is_closed : bool;
  incoming_sessions : list (option Z);
  session_handles : gmap Z PySession.t;
  stream_handles : gmap Z PyStream.t;
  retired_sessions : list PySession.t;
  retired_streams : list PyStream.t;
  emitted : list (emitter * PyObject.t);
}.

#[global] Instance eta_py_connection : Eta t := fun c =>
  mk (handle c) (is_client c) (is_closed c) (incoming_sessions c) (session_handles c)
    (stream_handles c) (retired_sessions c) (retired_streams c) (emitted c).
#[global] Instance set_py_connection_is_closed : Setter is_closed := ltac:(build_setter).
#[global] Instance set_incoming_sessions : Setter incoming_sessions := ltac:(build_setter).
#[global] Instance set_session_handles : Setter session_handles := ltac:(build_setter).
#[global] Instance set_stream_handles : Setter stream_handles := ltac:(build_setter).
#[global] Instance set_retired_sessions : Setter retired_sessions := ltac:(build_setter).
#[global] Instance set_retired_streams : Setter retired_streams := ltac:(build_setter).
#[global] Instance set_emitted : Setter emitted := ltac:(build_setter).

Definition new (is_client : bool) (handle : Z) : t := {|
  handle := handle; is_client := is_client; is_closed := false; incoming_sessions := [];
  session_handles := ∅; stream_handles := ∅; retired_sessions := []; retired_streams := [];
  emitted := [];
|}.

(** [emit_nowait], and the task around [_dispatch_final_event]. *)
Definition emit (target : emitter) (event_type : PyObject.t) : Py t () :=
  py_modify (fun c => c <| emitted := emitted c ++ [(target, event_type)] |>).

Definition handle_closed (c : t) : t :=
  let sessions := PySession.handle_closed PyNone <$> (map_to_list (session_handles c)).*2 in
  let streams := PyStream.handle_closed <$> (map_to_list (stream_handles c)).*2 in
  c <| is_closed := true |>
    <| retired_sessions := retired_sessions c ++ sessions |>
    <| retired_streams := retired_streams c ++ streams |>
    <| session_handles := ∅ |> <| stream_handles := ∅ |>
    <| incoming_sessions := incoming_sessions c ++ [None] |>.

Definition handle_session_event (event_type : PyObject.t) (data : list (str * PyObject.t)) : Py t () :=
  match int_key (data_get data (b: "session_id")) with
  | None => py_return ()
  | Some session_id =>
      let* c := py_read id in
      let create_handle :=
        (negb (is_client c) && is_event event_type EventType.SessionRequestReceived)
        || (is_client c && is_event_in event_type [EventType.SessionPending; EventType.SessionReady]) in
      if create_handle && bool_decide (session_handles c !! session_id = None) then
        let path := data_get data (b: "path") in
        let headers := data_get data (b: "headers") in
        py_when (negb (is_none path) && negb (is_none headers))
          (let* _ := py_modify (fun c => c <| session_handles := <[session_id :=
                 PySession.new session_id path headers (data_get data (b: "wt_available_protocols"))
                   (data_get data (b: "wt_protocol"))]> (session_handles c) |>) in
           py_when (is_event event_type EventType.SessionRequestReceived)
             (py_modify (fun c => c <| incoming_sessions := incoming_sessions c ++ [Some session_id] |>)))
      else py_return ()
  end.

(** The class of the handle, or none for a direction that is not one. *)
Definition direction_of (o : PyObject.t) : option StreamDirection.t :=
  if is_str o (stream_direction_value StreamDirection.Bidirectional)
  then Some StreamDirection.Bidirectional
  else if is_str o (stream_direction_value StreamDirection.SendOnly)
  then Some StreamDirection.SendOnly
  else if is_str o (stream_direction_value StreamDirection.ReceiveOnly)
  then Some StreamDirection.ReceiveOnly
  else None.

(** The value of a flag that may be missing. *)
Definition truthy (o : PyObject.t) : bool := match o with PyBool value => value | _ => false end.

Definition handle_stream_event (event_type : PyObject.t) (data : list (str * PyObject.t)) : Py t () :=
  match int_key (data_get data (b: "stream_id")), int_key (data_get data (b: "session_id")) with
  | Some stream_id, Some session_id =>
      let direction := data_get data (b: "direction") in
      let* c := py_read id in
      if negb (is_none direction) && bool_decide (stream_handles c !! stream_id = None) then
        match session_handles c !! session_id, direction_of direction with
        | Some session, Some direction =>
            let stream := PyStream.new stream_id session_id direction
                            (truthy (data_get data (b: "is_peer_initiated"))) in
            let* _ := py_modify (fun c =>
              c <| stream_handles := <[stream_id := stream]> (stream_handles c) |>
                <| session_handles := <[session_id := PySession.handle_stream_opened stream session]>
                                        (session_handles c) |>) in
            emit (OnSession session_id) event_type
        | _, _ => py_return ()
        end
      else py_return ()
  | _, _ => py_return ()
  end.

(** Run code of a session on the connection that has it. *)
Definition on_session (session_id : Z) (m : Py PySession.t ()) : Py t () := fun c =>
  match session_handles c !! session_id with
  | Some session =>
      let '(session, r) := m session in
      (c <| session_handles := <[session_id := session]> (session_handles c) |>, r)
  | None => (c, Ok ())
  end.

Definition route_session_event (event_type : PyObject.t) (data : list (str * PyObject.t)) : Py t () :=
  match int_key (data_get data (b: "session_id")) with
  | None => py_return ()
  | Some session_id =>
      let* c := py_read id in
      match session_handles c !! session_id with
      | None => py_return ()
      | Some _ =>
          let* _ := py_when (is_event event_type EventType.SessionReady)
            (on_session session_id (PySession.handle_ready (data_get data (b: "wt_protocol")))) in
          let* _ := py_when (is_event event_type EventType.SessionClosed)
            (py_modify (fun c =>
               match session_handles c !! session_id with
               | Some session =>
                   c <| session_handles := delete session_id (session_handles c) |>
                     <| retired_sessions := retired_sessions c
                          ++ [PySession.handle_closed (data_get data (b: "error_code")) session] |>
               | None => c
               end)) in
          emit (OnSession session_id) event_type
      end
  end.

Definition route_stream_event (event_type : PyObject.t) (data : list (str * PyObject.t)) : Py t () :=
  match int_key (data_get data (b: "stream_id")) with
  | None => py_return ()
  | Some stream_id =>
      let* c := py_read id in
      match stream_handles c !! stream_id with
      | None => py_return ()
      | Some stream =>
          let* _ := py_when (is_event event_type EventType.StreamClosed)
            (py_modify (fun c =>
               c <| stream_handles := delete stream_id (stream_handles c) |>
                 <| retired_streams := retired_streams c ++ [PyStream.handle_closed stream] |>)) in
          emit (OnStream stream_id) event_type
      end
  end.

Definition session_creations : list EventType.t :=
  [EventType.SessionPending; EventType.SessionReady; EventType.SessionRequestReceived].

Definition session_events : list EventType.t :=
  [EventType.SessionClosed; EventType.SessionDataBlocked; EventType.SessionDraining;
   EventType.SessionMaxDataUpdated; EventType.SessionMaxStreamsBidiUpdated;
   EventType.SessionMaxStreamsUniUpdated; EventType.SessionPending; EventType.SessionReady;
   EventType.SessionStreamsBlocked].

Definition stream_events : list EventType.t :=
  [EventType.StreamClosed; EventType.StreamResetReceived; EventType.StreamStopSendingReceived].

(** The body of [_handle_event]. *)
Definition dispatch (event_type : PyObject.t) (data : list (str * PyObject.t)) : Py t () :=
  let* _ := py_when (is_event event_type EventType.ConnectionClosed) (py_modify handle_closed) in
  let* _ := py_when (is_event_in event_type session_creations)
    (handle_session_event event_type data) in
  let* _ :=
    if is_event_in event_type session_events then route_session_event event_type data
    else if is_event event_type EventType.StreamOpened then handle_stream_event event_type data
    else if is_event_in event_type stream_events then route_stream_event event_type data
    else py_return () in
  emit OnConnection event_type.

(** [_handle_event]: an exception is wrapped, with its error code, and raised again. *)
Definition handle_event (event_type : PyObject.t) (data : list (str * PyObject.t)) : Py t () := fun c =>
  match dispatch event_type data c with
  | (c', Ok _) => (c', Ok ())
  | (c', Err e) =>
      (c', Err (instantiate_py_exception (b: "ConnectionError")
                  (b: "wt_connection receive failed connection_handle=" ++ decimal_digits 20 (handle c))
                  (make_kwargs (PyException.error_code e))))
  end.

(** The handle a result names. *)
Definition resolve_session_handle (c : t) (session_id : Z) : result PySession.t PyErr :=
  match session_handles c !! session_id with
  | Some session => Ok session
  | None => Err (py_error (b: "SessionError") (b: "wt_session resolve failed session_id=") session_id)
  end.

Definition resolve_stream_handle (c : t) (stream_id : Z) : result PyStream.t PyErr :=
  match stream_handles c !! stream_id with
  | Some stream => Ok stream
  | None => Err (py_error (b: "StreamError") (b: "wt_stream resolve failed stream_id=") stream_id)
  end.

End PyConnection.
