(* ===== verification/PyController.v ===== *)
(** * The controller of the package

    [pywebtransport/_controller/pending.py] and [controller.py]: the requests that wait
    for an answer, and what the events of the crate do to them and to the connections.
    The coroutines are cut at their [await]s: what is between two of them runs without
    interruption. *)

From S2P Require Import Prelude.
From S2P Require Import Types.
From S2P Require Import Pyo3.
From S2P Require Import FfiConversion.
From S2P Require Import PyConversion.
From S2P Require Import PyConnection.
Import PyObject.

(** ** Requests *)

(** What a request is answered with: an object of the crate, or the handle it names. *)
Module Value.
Inductive t : Type :=
| Object (o : PyObject.t)
| Connection (handle : Z)
| Session (session : PySession.t)
| Stream (stream : PyStream.t).
End Value.

Module Future.
Inductive t : Type :=
| Pending
| Result (value : Value.t)
| Exception (exception : PyErr)
| Cancelled.

Definition done (f : t) : bool := match f with Pending => false | _ => true end.
End Future.

(** What [resolver] is: a method of the controller, or of one of its connections. *)
Module Resolver.
Inductive t : Set :=
| ResolveConnection
| ResolveSession (handle : Z)
| ResolveStream (handle : Z).
End Resolver.

(** [futures] are all that were created, in order; the dictionary [requests] holds the
    number of the future, in the order of insertion. *)
Module PendingRequestManager.
Record t : Type := mk {
  counter : Z;
  requests : list (Z * (nat * option Resolver.t));
  futures : list Future.t;
}.

#[global] Instance eta_manager : Eta t := fun m => mk (counter m) (requests m) (futures m).
#[global] Instance set_counter : Setter counter := ltac:(build_setter).
#[global] Instance set_requests : Setter requests := ltac:(build_setter).
#[global] Instance set_futures : Setter futures := ltac:(build_setter).

Definition new : t := {| counter := 0; requests := []; futures := [] |}.

(** [dict.pop(key, None)]. *)
Definition pop (request_id : Z) (m : t) : option (nat * option Resolver.t) * t :=
  (snd <$> List.find (fun request => request.1 =? request_id) (requests m),
   m <| requests := List.filter (fun request => negb (request.1 =? request_id)) (requests m) |>).

(** [set_result] and [set_exception] behind [future.done()]. *)
Definition settle (future : nat) (outcome : Future.t) (m : t) : t :=
  match futures m !! future with
  | Some Future.Pending => m <| futures := <[future := outcome]> (futures m) |>
  | _ => m
  end.

Definition create_request (resolver : option Resolver.t) (m : t) : t * (Z * nat) :=
  let future := length (futures m) in
  let request_id := counter m in
  (m <| futures := futures m ++ [Future.Pending] |> <| counter := request_id + 1 |>
     <| requests := requests m ++ [(request_id, (future, resolver))] |>, (request_id, future)).

(** [resolve] is what calling the resolver gives. *)
Definition complete_request (resolve : Resolver.t -> PyObject.t -> result Value.t PyErr)
    (request_id : Z) (result : PyObject.t) (m : t) : t :=
  match pop request_id m with
  | (None, m) => m
  | (Some (future, None), m) => settle future (Future.Result (Value.Object result)) m
  | (Some (future, Some resolver), m) =>
      settle future (match resolve resolver result with
                     | Ok value => Future.Result value
                     | Err e => Future.Exception e
                     end) m
  end.

Definition fail_request (request_id : Z) (exception : PyErr) (m : t) : t :=
  match pop request_id m with
  | (None, m) => m
  | (Some (future, _), m) => settle future (Future.Exception exception) m
  end.

Definition evict_request (request_id : Z) (m : t) : t := (pop request_id m).2.

(** [popitem] takes the last request first. *)
Fixpoint fail_futures (exception : PyErr) (entries : list (Z * (nat * option Resolver.t))) (m : t) : t :=
  match entries with
  | [] => m
  | (_, (future, _)) :: rest =>
      fail_futures exception rest (settle future (Future.Exception exception) m)
  end.

Definition fail_all (exception : PyErr) (m : t) : t :=
  (fail_futures exception (reverse (requests m)) m) <| requests := [] |>.

(** Cancelling the task that awaits a future cancels the future. *)
Definition cancel (future : nat) (m : t) : t := settle future Future.Cancelled m.

End PendingRequestManager.

(** ** The controller *)

Module EndpointController.
Import PendingRequestManager.

Record t : Type := mk {
  is_client : bool;
  connections : gmap Z PyConnection.t;
  retired_connections : list PyConnection.t;
  remote_addresses : gmap Z PyObject.t;
  pending_manager : PendingRequestManager.t;
  runtime_shutdown_event : bool;
}.

#[global] Instance eta_controller : Eta t := fun c =>
  mk (is_client c) (connections c) (retired_connections c) (remote_addresses c) (pending_manager c)
    (runtime_shutdown_event c).
#[global] Instance set_py_connections : Setter connections := ltac:(build_setter).
#[global] Instance set_retired_connections : Setter retired_connections := ltac:(build_setter).
#[global] Instance set_remote_addresses : Setter remote_addresses := ltac:(build_setter).
#[global] Instance set_pending_manager : Setter pending_manager := ltac:(build_setter).
#[global] Instance set_runtime_shutdown_event : Setter runtime_shutdown_event := ltac:(build_setter).

Definition new (is_client : bool) : t := {|
  is_client := is_client; connections := ∅; retired_connections := []; remote_addresses := ∅;
  pending_manager := PendingRequestManager.new; runtime_shutdown_event := false;
|}.

(** [_resolve_connection], and the methods of a connection.  One that is no longer here
    has been closed, and has no handles. *)
Definition resolve (c : t) (resolver : Resolver.t) (result : PyObject.t) : Prelude.result Value.t PyErr :=
  let id := default (-1) (int_key result) in
  match resolver with
  | Resolver.ResolveConnection =>
      match connections c !! id with
      | Some _ => Ok (Value.Connection id)
      | None => Err (py_error (b: "ConnectionError")
                       (b: "wt_connection resolve failed connection_handle=") id)
      end
  | Resolver.ResolveSession handle =>
      let connection := default (PyConnection.new (is_client c) handle) (connections c !! handle) in
      let? session := PyConnection.resolve_session_handle connection id in Ok (Value.Session session)
  | Resolver.ResolveStream handle =>
      let connection := default (PyConnection.new (is_client c) handle) (connections c !! handle) in
      let? stream := PyConnection.resolve_stream_handle connection id in Ok (Value.Stream stream)
  end.

Definition on_manager (f : PendingRequestManager.t -> PendingRequestManager.t) (c : t) : t :=
  c <| pending_manager := f (pending_manager c) |>.

(** An entry of [event_data] for a field that is not [None]. *)
Definition entry (key : str) (value : PyObject.t) : list (str * PyObject.t) :=
  if is_none value then [] else [(key, value)].

(** [connection._handle_event] if there is the connection. *)
Definition deliver (handle : Z) (event_type : PyObject.t) (data : list (str * PyObject.t)) : Py t () := fun c =>
  match connections c !! handle with
  | Some connection =>
      let '(connection, r) := PyConnection.handle_event event_type data connection in
      (c <| connections := <[handle := connection]> (connections c) |>, r)
  | None => (c, Ok ())
  end.

(** The requests, by the exception object of the tuple. *)
Definition fail (request_id exception : PyObject.t) : Py t () :=
  match int_key request_id, exception with
  | Some request_id, PyException e => py_modify (on_manager (fail_request request_id e))
  | _, _ => py_return ()
  end.

Definition forget (handle : Z) (c : t) : t :=
  c <| retired_connections := retired_connections c ++ option_list (connections c !! handle) |>
    <| connections := delete handle (connections c) |>
    <| remote_addresses := delete handle (remote_addresses c) |>.

(** What is inside the [try] of the loop of [_process_effects]. *)
Definition apply_effect (handle : Z) (effect : PyEffect.t) : Py t () :=
  match effect with
  | PyEffect.EmitConnectionEvent connection_handle event_type error_code reason =>
      let* _ := deliver handle event_type
        ((b: "connection_handle", connection_handle)
           :: entry (b: "error_code") error_code ++ entry (b: "reason") reason) in
      py_when (is_event event_type EventType.ConnectionClosed) (py_modify (forget handle))
  | PyEffect.EmitSessionEvent session_id event_type path headers wt_available_protocols wt_protocol
      data is_unidirectional max_data max_streams ready_at status_code error_code reason =>
      deliver handle event_type
        ((b: "session_id", session_id)
           :: entry (b: "path") path ++ entry (b: "headers") headers
           ++ entry (b: "wt_available_protocols") wt_available_protocols
           ++ entry (b: "wt_protocol") wt_protocol ++ entry (b: "data") data
           ++ entry (b: "is_unidirectional") is_unidirectional ++ entry (b: "max_data") max_data
           ++ entry (b: "max_streams") max_streams ++ entry (b: "ready_at") ready_at
           ++ entry (b: "status_code") status_code ++ entry (b: "error_code") error_code
           ++ entry (b: "reason") reason)
  | PyEffect.EmitStreamEvent stream_id event_type session_id direction is_peer_initiated error_code =>
      deliver handle event_type
        ((b: "stream_id", stream_id)
           :: entry (b: "session_id") session_id ++ entry (b: "direction") direction
           ++ entry (b: "is_peer_initiated") is_peer_initiated
           ++ entry (b: "error_code") error_code)
  | PyEffect.NotifyRequestDone request_id result =>
      match int_key request_id with
      | Some request_id =>
          py_modify (fun c => on_manager (complete_request (resolve c) request_id result) c)
      | None => py_return ()
      end
  | PyEffect.NotifyRequestFailed request_id exception => fail request_id exception
  end.

(** An exception is logged, and the loop goes on. *)
Definition process_effect (handle : Z) (c : t) (effect_tuple : PyObject.t) : t :=
  match convert_effect effect_tuple with
  | Ok effect => (apply_effect handle effect c).1
  | Err _ => c
  end.

Definition process_effects (handle : Z) (effects : list PyObject.t) (c : t) : t :=
  fold_left (process_effect handle) effects c.

(** The items of a list that is to be iterated. *)
Definition items_of (o : PyObject.t) : list PyObject.t :=
  match o with PyList items | PyTuple items => items | _ => [] end.

Definition process_runtime_event (c : t) (event_tuple : PyObject.t) : t :=
  match convert_runtime_event event_tuple with
  | Err _ => c
  | Ok (PyRuntimeEvent.CommandFailed request_id exception) => (fail request_id exception c).1
  | Ok (PyRuntimeEvent.ConnectionEffects handle effects) =>
      match int_key handle with
      | Some handle => process_effects handle (items_of effects) c
      | None => c
      end
  | Ok (PyRuntimeEvent.ConnectionSpawned handle remote_address effects) =>
      match int_key handle with
      | Some handle =>
          let c := c <| remote_addresses := <[handle := remote_address]> (remote_addresses c) |>
                     <| connections := <[handle := PyConnection.new (is_client c) handle]>
                                         (connections c) |> in
          process_effects handle (items_of effects) c
      | None => c
      end
  | Ok PyRuntimeEvent.ReactorShutdown => c <| runtime_shutdown_event := true |>
  end.

(** The loop over what was polled. *)
Definition process_runtime_events (c : t) (events : list PyObject.t) : t :=
  fold_left process_runtime_event events c.

(** [_release_runtime] between its two [await]s: every connection is closed, every
    request fails. *)
Definition release (c : t) : t :=
  let closed := PyConnection.handle_closed <$> (map_to_list (connections c)).*2 in
  on_manager (fail_all (instantiate_py_exception (b: "ConnectionError") (b: "rt close") []))
    (c <| retired_connections := retired_connections c ++ closed |>
       <| connections := ∅ |> <| remote_addresses := ∅ |>).

(** [execute_request] up to its [await], with the outcome of the dispatcher: when it
    raises, [finally] evicts the request at once. *)
Definition execute_request (resolver : option Resolver.t) (dispatcher : Z -> Prelude.result () PyErr)
    (c : t) : t * Prelude.result (Z * nat) PyErr :=
  let '(m, (request_id, future)) := create_request resolver (pending_manager c) in
  match dispatcher request_id with
  | Ok _ => (c <| pending_manager := m |>, Ok (request_id, future))
  | Err e => (c <| pending_manager := evict_request request_id m |>, Err e)
  end.

(** The [finally] of a request that was awaited. *)
Definition finish_request (request_id : Z) (c : t) : t := on_manager (evict_request request_id) c.

End EndpointController.
