(* ===== verification/ControllerTheorems.v ===== *)
(** * Theorems about the controller of the package

    Every request of the user is answered once, by the first answer of the crate, and all
    of them when the endpoint is released; a request that creates something gets the
    handle of it. *)

From S2P Require Import Prelude.
From S2P Require Import Types.
From S2P Require Import Events.
From S2P Require Import SessionMachine.
From S2P Require Import SessionTheorems.
From S2P Require Import ConnectionMachine.
From S2P Require Import Quinn.
From S2P Require Import ReactorMachine.
From S2P Require Import ReactorEvents.
From S2P Require Import Pyo3.
From S2P Require Import FfiConversion.
From S2P Require Import PyConversion.
From S2P Require Import ConversionTheorems.
From S2P Require Import PyConnection.
From S2P Require Import PyController.
Import PyObject.

Module ControllerT.
Import PendingRequestManager EndpointController.

(** ** Requests *)

Definition future_of (request : Z * (nat * option Resolver.t)) : nat := request.2.1.

(** Identifiers are distinct and used up, and no two requests share a future. *)
Record wf (m : PendingRequestManager.t) : Prop := {
  wf_ids : NoDup (requests m).*1;
  wf_used : Forall (fun id => id < counter m) (requests m).*1;
  wf_futures : NoDup (future_of <$> requests m);
  wf_known : Forall (fun future => (future < length (futures m))%nat) (future_of <$> requests m);
}.

(** A request that waits, and one that is over. *)
Definition waits (m : PendingRequestManager.t) (id : Z) (future : nat) (resolver : option Resolver.t) : Prop :=
  (id, (future, resolver)) ∈ requests m /\ futures m !! future = Some Future.Pending.

Definition over (m : PendingRequestManager.t) (id : Z) (future : nat) (outcome : Future.t) : Prop :=
  id ∉ (requests m).*1 /\ futures m !! future = Some outcome /\ Future.done outcome = true.

Lemma find_request l id entry :
  NoDup l.*1 -> (id, entry) ∈ l ->
  List.find (fun request : Z * (nat * option Resolver.t) => request.1 =? id) l = Some (id, entry).
Proof.
  induction l as [|[i e] l IH]; intros Hn Hin; [by apply elem_of_nil in Hin|].
  apply NoDup_cons in Hn as [Hi Hn]. cbn. destruct (i =? id) eqn:E; bool_to_prop.
  - subst i. apply elem_of_cons in Hin as [Hin|Hin]; [by rewrite Hin|].
    exfalso. apply Hi. apply list_elem_of_fmap. by exists (id, entry).
  - apply elem_of_cons in Hin as [[= <- _]|Hin]; [done|]. by apply IH.
Qed.

Lemma find_other (l : list (Z * (nat * option Resolver.t))) id request :
  List.find (fun request => request.1 =? id) l = Some request -> request ∈ l /\ request.1 = id.
Proof.
  intros Hf. apply List.find_some in Hf as [Hin He]. cbn in He. bool_to_prop.
  split; [by apply list_elem_of_In|done].
Qed.

Lemma elem_of_without (l : list (Z * (nat * option Resolver.t))) id request :
  request ∈ List.filter (fun r => negb (r.1 =? id)) l <-> request ∈ l /\ request.1 <> id.
Proof.
  rewrite !list_elem_of_In, List.filter_In. split; intros [? Hi]; (split; [done|]).
  - by destruct (request.1 =? id) eqn:E; bool_to_prop.
  - by destruct (request.1 =? id) eqn:E; bool_to_prop.
Qed.

Lemma NoDup_without {A B} (f : A -> B) (p : A -> bool) (l : list A) :
  NoDup (f <$> l) -> NoDup (f <$> List.filter p l).
Proof.
  induction l as [|x l IH]; cbn; [done|]. intros [Hx Hn]%NoDup_cons. destruct (p x); cbn; [|by apply IH].
  apply NoDup_cons. split; [|by apply IH]. intros (y & He & Hy)%list_elem_of_fmap. apply Hx.
  apply list_elem_of_fmap. exists y. split; [done|]. apply list_elem_of_In in Hy.
  apply List.filter_In in Hy as [Hy _]. by apply list_elem_of_In.
Qed.

Lemma Forall_without {A B} (P : B -> Prop) (f : A -> B) (p : A -> bool) (l : list A) :
  Forall P (f <$> l) -> Forall P (f <$> List.filter p l).
Proof.
  induction l as [|x l IH]; cbn; [done|]. intros [Hx Hn]%Forall_cons. destruct (p x); cbn; [|by apply IH].
  constructor; [done|by apply IH].
Qed.

Lemma pop_wf id m : wf m -> wf (pop id m).2.
Proof.
  intros [Hi Hu Hf Hk]. split; cbn; [by apply NoDup_without|by apply Forall_without
    |by apply NoDup_without|by apply Forall_without].
Qed.

Lemma settle_wf future outcome m : wf m -> wf (settle future outcome m).
Proof.
  intros [Hi Hu Hf Hk]. unfold settle. destruct (futures m !! future) as [[]|]; try done.
  split; cbn; try done. by rewrite length_insert.
Qed.

Lemma settle_requests future outcome m : requests (settle future outcome m) = requests m.
Proof. unfold settle. by destruct (futures m !! future) as [[]|]. Qed.

(** A future that is done stays as it is. *)
Definition keeps (m m' : PendingRequestManager.t) : Prop :=
  forall future outcome, futures m !! future = Some outcome -> Future.done outcome = true ->
    futures m' !! future = Some outcome.

#[local] Instance keeps_pre : PreOrder keeps.
Proof. split; [by intros m future outcome|]. intros m1 m2 m3 H1 H2 future outcome Hf Hd. auto. Qed.

Lemma settle_keeps future outcome m : keeps m (settle future outcome m).
Proof.
  intros f o Hf Hd. unfold settle. destruct (futures m !! future) as [[]|] eqn:E; try done. cbn.
  rewrite list_lookup_insert_ne; [done|]. intros ->. rewrite E in Hf. injection Hf as <-. done.
Qed.

Lemma settle_pending future outcome m :
  futures m !! future = Some Future.Pending ->
  futures (settle future outcome m) !! future = Some outcome.
Proof.
  intros Hf. unfold settle. rewrite Hf. cbn. rewrite list_lookup_insert_eq; [done|].
  by eapply lookup_lt_Some.
Qed.

Lemma settle_other future outcome f m :
  f <> future -> futures (settle future outcome m) !! f = futures m !! f.
Proof.
  intros Hne. unfold settle. destruct (futures m !! future) as [[]|]; try done. cbn.
  by rewrite list_lookup_insert_ne.
Qed.

(** Answering one request: it is over, the others wait as before. *)
Definition answer_request (id : Z) (outcome : option Resolver.t -> Future.t) (m : PendingRequestManager.t)
    : PendingRequestManager.t :=
  match pop id m with
  | (None, m) => m
  | (Some (future, resolver), m) => settle future (outcome resolver) m
  end.

Lemma answer_wf id outcome m : wf m -> wf (answer_request id outcome m).
Proof.
  intros Hwf. unfold answer_request. pose proof (pop_wf id m Hwf) as Hp.
  destruct (pop id m) as [[[future resolver]|] m']; [by apply settle_wf|done].
Qed.

Lemma answer_keeps id outcome m : keeps m (answer_request id outcome m).
Proof.
  unfold answer_request, pop. destruct (snd <$> _) as [[future resolver]|]; [|by intros f o].
  set (m1 := m <| requests := _ |>). transitivity m1; [by intros f o|apply settle_keeps].
Qed.

Lemma answer_this id outcome m future resolver :
  wf m -> (forall r, Future.done (outcome r) = true) -> waits m id future resolver ->
  over (answer_request id outcome m) id future (outcome resolver).
Proof.
  intros Hwf Hd [Hin Hf]. unfold answer_request, pop.
  rewrite (find_request _ _ _ (wf_ids m Hwf) Hin). cbn. split_and!; [| |apply Hd].
  - rewrite settle_requests. cbn. intros ((i & e) & -> & Hx)%list_elem_of_fmap.
    by apply elem_of_without in Hx as [_ Hx].
  - by apply settle_pending.
Qed.

Lemma futures_distinct m id1 id2 f r1 r2 :
  wf m -> (id1, (f, r1)) ∈ requests m -> (id2, (f, r2)) ∈ requests m -> id1 = id2.
Proof.
  intros [_ _ Hn _] H1 H2. apply list_elem_of_lookup in H1 as [i1 H1]. apply list_elem_of_lookup in H2 as [i2 H2].
  assert (i1 = i2) as ->.
  { eapply (NoDup_lookup _ i1 i2 f); [exact Hn|..]; rewrite list_lookup_fmap, ?H1, ?H2; done. }
  congruence.
Qed.

Lemma answer_other id outcome m id' future resolver :
  wf m -> id' <> id -> waits m id' future resolver ->
  waits (answer_request id outcome m) id' future resolver.
Proof.
  intros Hwf Hne [Hin Hf]. unfold answer_request, pop.
  assert (Hrest : (id', (future, resolver)) ∈ List.filter (fun r => negb (r.1 =? id)) (requests m))
    by (by apply elem_of_without).
  destruct (List.find _ (requests m)) as [[i [f r]]|] eqn:E; cbn; [|by split].
  apply find_other in E as [Hi Hid]. cbn in Hid. subst i. split.
  - by rewrite settle_requests.
  - rewrite settle_other; [done|]. intros ->. apply Hne. by eapply futures_distinct.
Qed.

Lemma answer_over id outcome m id' future o :
  over m id' future o -> over (answer_request id outcome m) id' future o.
Proof.
  intros (Hin & Hf & Hd). split_and!; [|by apply answer_keeps|done].
  unfold answer_request, pop. destruct (snd <$> _) as [[f r]|]; rewrite ?settle_requests; cbn;
    intros (e & -> & He)%list_elem_of_fmap; apply elem_of_without in He as [He _]; apply Hin;
    apply list_elem_of_fmap; by exists e.
Qed.

(** ** Answers of the crate *)

(** What the crate has to say to a request. *)
Inductive answer : Type :=
| Done (result : PyObject.t)
| Failed (exception : PyErr).

Definition effect_answers (id : Z) (effect : Effect.t) : list answer :=
  match effect with
  | Effect.NotifyRequestDone request_id result =>
      if request_id =? id then [Done (request_result_to_py result)] else []
  | Effect.NotifyRequestFailed request_id source error_code reason =>
      if request_id =? id then [Failed (create_py_exception source error_code reason)] else []
  | _ => []
  end.

Definition event_answers (id : Z) (event : RuntimeEvent.t) : list answer :=
  match event with
  | RuntimeEvent.CommandFailed request_id error_code reason =>
      if request_id =? id
      then [Failed (create_py_exception ErrorSource.Connection error_code reason)] else []
  | _ => flat_map (effect_answers id) (event_effects event)
  end.

(** What the future gets. *)
Definition outcome (resolve : Resolver.t -> PyObject.t -> result Value.t PyErr) (a : answer)
    (resolver : option Resolver.t) : Future.t :=
  match a, resolver with
  | Failed e, _ => Future.Exception e
  | Done o, None => Future.Result (Value.Object o)
  | Done o, Some r => match resolve r o with Ok v => Future.Result v | Err e => Future.Exception e end
  end.

Lemma outcome_done resolve a resolver : Future.done (outcome resolve a resolver) = true.
Proof. destruct a, resolver; cbn; try done. by destruct (resolve _ _). Qed.

Lemma complete_request_answers resolve id o m :
  complete_request resolve id o m = answer_request id (outcome resolve (Done o)) m.
Proof. unfold complete_request, answer_request. by destruct (pop id m) as [[[f [r|]]|] m']. Qed.

Lemma fail_request_answers resolve id e m :
  fail_request id e m = answer_request id (outcome resolve (Failed e)) m.
Proof. unfold fail_request, answer_request. by destruct (pop id m) as [[[f r]|] m']. Qed.

(** The manager after an answer to [id'], if there is one. *)
Definition told (c : EndpointController.t) (answers : list (Z * answer)) (m : PendingRequestManager.t)
    : PendingRequestManager.t :=
  match answers with
  | [] => m
  | (id, a) :: _ => answer_request id (outcome (resolve c) a) m
  end.

(** The requests an effect is an answer to. *)
Definition addressed (effect : Effect.t) : list (Z * answer) :=
  match effect with
  | Effect.NotifyRequestDone id result => [(id, Done (request_result_to_py result))]
  | Effect.NotifyRequestFailed id source error_code reason =>
      [(id, Failed (create_py_exception source error_code reason))]
  | _ => []
  end.

Lemma addressed_answers id effect :
  effect_answers id effect = snd <$> List.filter (fun a => a.1 =? id) (addressed effect).
Proof. destruct effect; cbn; try done; by destruct (_ =? id). Qed.

Lemma deliver_manager handle event_type data c :
  pending_manager (deliver handle event_type data c).1 = pending_manager c.
Proof.
  unfold deliver. destruct (connections c !! handle) as [connection|]; [|done].
  by destruct (PyConnection.handle_event event_type data connection).
Qed.

(** Whatever the handlers of the connection do, an effect changes the requests by the
    answer it is, and nothing else. *)
Lemma process_effect_told handle c effect o meant :
  FfiT.effect_meant effect = Some meant -> convert_effect o = Ok meant ->
  pending_manager (process_effect handle c o) = told c (addressed effect) (pending_manager c).
Proof.
  intros Hm Ho. unfold process_effect. rewrite Ho. clear Ho.
  destruct effect; try done; injection Hm as <-; cbn [apply_effect addressed told].
  - unfold py_bind. pose proof (deliver_manager handle (PyStr (event_type_value event_type))
      ((b: "connection_handle", PyInt connection_handle)
         :: entry (b: "error_code") (into_pyobject error_code)
         ++ entry (b: "reason") (into_option_str reason)) c) as Hd.
    destruct (deliver _ _ _ c) as [c1 [u|e]]; [|done]. unfold py_when. by destruct (is_event _ _).
  - apply deliver_manager.
  - apply deliver_manager.
  - apply complete_request_answers.
  - apply (fail_request_answers (resolve c)).
Qed.

(** ** From the first answer on *)

(** The fate of a request, given the answers so far. *)
Definition fate (m : PendingRequestManager.t) (id : Z) (future : nat) (resolver : option Resolver.t)
    (answers : list answer) : Prop :=
  match answers with
  | [] => waits m id future resolver
  | a :: _ => exists c, over m id future (outcome (resolve c) a resolver)
  end.

Lemma told_wf c answers m : wf m -> wf (told c answers m).
Proof. destruct answers as [|[id a] rest]; cbn; [done|apply answer_wf]. Qed.

Lemma told_keeps c answers m : keeps m (told c answers m).
Proof. destruct answers as [|[id a] rest]; cbn; [by intros f o|apply answer_keeps]. Qed.

Lemma told_fate c m id future resolver before id' a :
  wf m -> fate m id future resolver before ->
  fate (told c [(id', a)] m) id future resolver (before ++ if id' =? id then [a] else []).
Proof.
  intros Hwf. destruct before as [|a0 before]; cbn.
  - intros Hw. destruct (id' =? id) eqn:E; bool_to_prop; cbn.
    + subst id'. exists c. apply answer_this; [done| |done]. intros r. apply outcome_done.
    + by apply answer_other.
  - intros [c0 Ho]. exists c0. by apply answer_over.
Qed.

Lemma fate_effect handle c effect o meant id future resolver before :
  FfiT.effect_meant effect = Some meant -> convert_effect o = Ok meant ->
  wf (pending_manager c) -> fate (pending_manager c) id future resolver before ->
  wf (pending_manager (process_effect handle c o))
  /\ fate (pending_manager (process_effect handle c o)) id future resolver
       (before ++ effect_answers id effect).
Proof.
  intros Hm Ho Hwf Hf. rewrite (process_effect_told _ _ _ _ _ Hm Ho). split; [by apply told_wf|].
  destruct effect; cbn; rewrite ?app_nil_r; try done; by apply (told_fate c).
Qed.

Lemma fate_effects handle id future resolver effects objects : FfiT.effects_read effects objects ->
  forall c before, wf (pending_manager c) -> fate (pending_manager c) id future resolver before ->
  wf (pending_manager (process_effects handle objects c))
  /\ fate (pending_manager (process_effects handle objects c)) id future resolver
       (before ++ flat_map (effect_answers id) effects).
Proof.
  induction 1 as [|effect o effects objects (meant & Hm & Ho) _ IH]; intros c before Hwf Hf; cbn.
  - by rewrite app_nil_r.
  - destruct (fate_effect handle c effect o meant id future resolver before Hm Ho Hwf Hf) as [Hwf' Hf'].
    destruct (IH _ _ Hwf' Hf') as [Hwf'' Hf'']. split; [done|]. by rewrite app_assoc.
Qed.

Section events.
Context `{IpText}.

Lemma fate_event event o c id future resolver before :
  FfiT.delivered event o ->
  wf (pending_manager c) -> fate (pending_manager c) id future resolver before ->
  wf (pending_manager (process_runtime_event c o))
  /\ fate (pending_manager (process_runtime_event c o)) id future resolver
       (before ++ event_answers id event).
Proof.
  intros (objects & _ & Hc & Hr) Hwf Hf. unfold process_runtime_event. rewrite Hc.
  destruct event as [request_id error_code reason|handle effects|handle address effects|];
    cbn [FfiT.runtime_event_meant fail int_key event_answers items_of] in *.
  - cbn [py_modify fst on_manager]. set (e := create_py_exception _ _ _).
    change (pending_manager (on_manager (fail_request request_id e) c))
      with (fail_request request_id e (pending_manager c)).
    rewrite (fail_request_answers (resolve c)). split; [by apply answer_wf|].
    by apply (told_fate c).
  - by apply fate_effects.
  - by apply fate_effects.
  - by rewrite app_nil_r.
Qed.

Lemma fate_events events objects : Forall2 FfiT.delivered events objects ->
  forall c id future resolver before,
  wf (pending_manager c) -> fate (pending_manager c) id future resolver before ->
  wf (pending_manager (process_runtime_events c objects))
  /\ fate (pending_manager (process_runtime_events c objects)) id future resolver
       (before ++ flat_map (event_answers id) events).
Proof.
  induction 1 as [|event o events objects Hd _ IH]; intros c id future resolver before Hwf Hf; cbn.
  - by rewrite app_nil_r.
  - destruct (fate_event event o c id future resolver before Hd Hwf Hf) as [Hwf' Hf'].
    destruct (IH _ _ _ _ _ Hwf' Hf') as [Hwf'' Hf'']. split; [done|]. by rewrite app_assoc.
Qed.

End events.

(** ** Runs *)

(** What the user and the crate can make the controller do; the objects may be any. *)
Inductive operation : Type :=
| Execute (resolver : option Resolver.t) (dispatcher : Z -> result () PyErr)
| Process (objects : list PyObject.t)
| Cancel (future : nat)
| Finish (request_id : Z)
| Release.

Definition perform (c : EndpointController.t) (op : operation) : EndpointController.t :=
  match op with
  | Execute resolver dispatcher => (execute_request resolver dispatcher c).1
  | Process objects => process_runtime_events c objects
  | Cancel future => on_manager (cancel future) c
  | Finish request_id => finish_request request_id c
  | Release => release c
  end.

Definition run (c : EndpointController.t) (operations : list operation) : EndpointController.t :=
  fold_left perform operations c.

(** The manager stays well formed and keeps what is done. *)
Definition sound (m m' : PendingRequestManager.t) : Prop := (wf m -> wf m') /\ keeps m m'.

#[local] Instance sound_pre : PreOrder sound.
Proof.
  split; [by split|]. intros m1 m2 m3 [Hw1 Hk1] [Hw2 Hk2]. split; [tauto|by transitivity m2].
Qed.

Lemma answer_sound id f m : sound m (answer_request id f m).
Proof. split; [apply answer_wf|apply answer_keeps]. Qed.

Lemma settle_future_sound future o m : sound m (settle future o m).
Proof. split; [apply settle_wf|apply settle_keeps]. Qed.

Lemma pop_sound id m : sound m (pop id m).2.
Proof. split; [apply pop_wf|by intros f o]. Qed.

Lemma fail_sound request_id exception c :
  sound (pending_manager c) (pending_manager (fail request_id exception c).1).
Proof.
  unfold fail. destruct (int_key request_id) as [id|]; [|reflexivity]. destruct exception; try reflexivity.
  cbn [py_modify fst on_manager]. set (e := exception).
  change (pending_manager (on_manager (fail_request id e) c)) with (fail_request id e (pending_manager c)).
  rewrite (fail_request_answers (resolve c)). apply answer_sound.
Qed.

Lemma apply_effect_sound handle effect c :
  sound (pending_manager c) (pending_manager (apply_effect handle effect c).1).
Proof.
  assert (Hd : forall event_type data, sound (pending_manager c)
    (pending_manager (deliver handle event_type data c).1)) by (intros; by rewrite deliver_manager).
  destruct effect; cbn [apply_effect]; try apply Hd; [| |apply fail_sound].
  - unfold py_bind. match goal with |- context [deliver ?h ?e ?d c] => specialize (Hd e d) end.
    destruct (deliver _ _ _ c) as [c1 [u|e]]; [|exact Hd]. unfold py_when. by destruct (is_event _ _).
  - destruct (int_key request_id) as [id|]; [|reflexivity].
    cbn [py_modify fst on_manager].
    change (sound (pending_manager c) (complete_request (resolve c) id result (pending_manager c))).
    rewrite complete_request_answers. apply answer_sound.
Qed.

Lemma process_effects_sound handle objects c :
  sound (pending_manager c) (pending_manager (process_effects handle objects c)).
Proof.
  revert c. induction objects as [|o objects IH]; intros c; cbn; [reflexivity|].
  transitivity (pending_manager (process_effect handle c o)); [|apply IH]. unfold process_effect.
  destruct (convert_effect o); [apply apply_effect_sound|reflexivity].
Qed.

Lemma process_runtime_event_sound o c :
  sound (pending_manager c) (pending_manager (process_runtime_event c o)).
Proof.
  unfold process_runtime_event. destruct (convert_runtime_event o) as [[]|]; try reflexivity.
  - apply fail_sound.
  - destruct (int_key handle); [apply process_effects_sound|reflexivity].
  - destruct (int_key handle); [|reflexivity].
    match goal with |- context [process_effects _ _ ?c'] => apply (process_effects_sound _ _ c') end.
Qed.

Lemma process_runtime_events_sound objects c :
  sound (pending_manager c) (pending_manager (process_runtime_events c objects)).
Proof.
  revert c. induction objects as [|o objects IH]; intros c; cbn; [reflexivity|].
  transitivity (pending_manager (process_runtime_event c o)); [apply process_runtime_event_sound|apply IH].
Qed.

Lemma create_sound resolver m : sound m (create_request resolver m).1.
Proof.
  split.
  - intros [Hi Hu Hf Hk]. split; cbn; rewrite fmap_app; cbn.
    + apply NoDup_app. split_and!; [done| |apply NoDup_singleton].
      intros id Hid ->%list_elem_of_singleton. rewrite Forall_forall in Hu. specialize (Hu _ Hid). lia.
    + apply Forall_app. split; [|apply Forall_singleton; lia].
      eapply Forall_impl; [exact Hu|]. cbn. intros id Hid. lia.
    + apply NoDup_app. split_and!; [done| |apply NoDup_singleton].
      intros f Hin ->%list_elem_of_singleton. rewrite Forall_forall in Hk. specialize (Hk _ Hin). cbn in Hk. lia.
    + rewrite length_app. cbn. apply Forall_app. split; [|apply Forall_singleton; cbn; lia].
      eapply Forall_impl; [exact Hk|]. cbn. intros f Hin. lia.
  - intros f o Hf Hd. cbn. by apply lookup_app_l_Some.
Qed.

Lemma fail_futures_sound e entries m : sound m (fail_futures e entries m).
Proof.
  revert m. induction entries as [|[id [f r]] entries IH]; intros m; cbn; [reflexivity|].
  transitivity (settle f (Future.Exception e) m); [apply settle_future_sound|apply IH].
Qed.

Lemma fail_all_sound e m : sound m (fail_all e m).
Proof.
  transitivity (fail_futures e (reverse (requests m)) m); [apply fail_futures_sound|].
  split; [|by intros f o]. intros _. split; cbn; constructor.
Qed.

Lemma perform_sound c op : sound (pending_manager c) (pending_manager (perform c op)).
Proof.
  destruct op as [resolver dispatcher|objects|future|id|]; cbn [perform].
  - unfold execute_request. pose proof (create_sound resolver (pending_manager c)) as Hc.
    destruct (create_request resolver (pending_manager c)) as [m [id f]].
    destruct (dispatcher id); [exact Hc|]. etransitivity; [exact Hc|]. apply (pop_sound id m).
  - apply process_runtime_events_sound.
  - apply settle_future_sound.
  - apply (pop_sound id (pending_manager c)).
  - apply fail_all_sound.
Qed.

Lemma run_sound operations c : sound (pending_manager c) (pending_manager (run c operations)).
Proof.
  revert c. induction operations as [|op operations IH]; intros c; cbn; [reflexivity|].
  transitivity (pending_manager (perform c op)); [apply perform_sound|apply IH].
Qed.

Lemma run_wf is_client operations : wf (pending_manager (run (EndpointController.new is_client) operations)).
Proof. apply run_sound. split; cbn; constructor. Qed.

(** ** Theorems *)

(** C4: a request is answered once, by the first answer of the crate.  Whatever the user
    and the crate did before, and whatever the handlers of the events do, a request that
    waits stays so until an event carries an answer to it; then its future gets what that
    answer says, the object or the handle it names or the exception, and keeps it through
    everything that comes later. *)
Theorem requests_answered_once `{IpText} is_client operations events objects id future resolver :
  waits (pending_manager (run (EndpointController.new is_client) operations)) id future resolver ->
  Forall2 FfiT.delivered events objects ->
  let c := process_runtime_events (run (EndpointController.new is_client) operations) objects in
  match flat_map (event_answers id) events with
  | [] => waits (pending_manager c) id future resolver
  | a :: _ => exists o, (exists c0, o = outcome (resolve c0) a resolver)
      /\ id ∉ (requests (pending_manager c)).*1
      /\ forall later, futures (pending_manager (run c later)) !! future = Some o
  end.
Proof.
  intros Hw Hd. destruct (fate_events events objects Hd _ id future resolver [] (run_wf is_client operations) Hw)
    as [_ Hf]. cbn zeta. set (c := process_runtime_events _ _) in *. cbn [app] in Hf.
  destruct (flat_map (event_answers id) events) as [|a answers]; [exact Hf|].
  destruct Hf as (c0 & Hin & Ho & Hdone). exists (outcome (resolve c0) a resolver). split_and!; [by exists c0|done|].
  intros later. by apply run_sound.
Qed.

Lemma fail_futures_done e entries m future :
  future ∈ future_of <$> entries -> (future < length (futures m))%nat ->
  exists o, futures (fail_futures e entries m) !! future = Some o /\ Future.done o = true.
Proof.
  revert m. induction entries as [|[id [f r]] entries IH]; intros m Hin Hlt; [by apply elem_of_nil in Hin|].
  cbn. set (m1 := settle f (Future.Exception e) m).
  assert (Hlen : length (futures m1) = length (futures m))
    by (unfold m1, settle; destruct (futures m !! f) as [[]|]; cbn; by rewrite ?length_insert).
  apply elem_of_cons in Hin as [->|Hin]; [|apply IH; [done|by rewrite Hlen]].
  cbn in Hlt. destruct (lookup_lt_is_Some_2 _ _ Hlt) as [o Ho]. cbn.
  assert (H1 : exists o', futures m1 !! f = Some o' /\ Future.done o' = true).
  { destruct o; [exists (Future.Exception e); split; [by apply settle_pending|done]|..].
    all: eexists; split; [by apply settle_keeps|done]. }
  destruct H1 as (o' & Ho' & Hd). exists o'. split; [|done]. by apply fail_futures_sound.
Qed.

Lemma closed_session error_code s :
  PySession.is_closed (PySession.handle_closed error_code s) = true
  /\ PySession.ready (PySession.handle_closed error_code s) <> None.
Proof.
  unfold PySession.handle_closed. cbn. destruct (PySession.ready s) eqn:E; cbn; [by rewrite E|done].
Qed.

(** Nobody waits after the endpoint was released.  No request is left, the future of
    every one that was is done, no connection is left, and every session handle the user
    got from an open connection is closed, with the future behind [ensure_ready] done. *)
Theorem release_answers_all is_client operations :
  let c := run (EndpointController.new is_client) operations in
  requests (pending_manager (release c)) = [] /\ connections (release c) = ∅
  /\ (forall id future resolver, (id, (future, resolver)) ∈ requests (pending_manager c) ->
       exists o, futures (pending_manager (release c)) !! future = Some o /\ Future.done o = true)
  /\ (forall handle connection session_id session, connections c !! handle = Some connection ->
       PyConnection.session_handles connection !! session_id = Some session ->
       exists connection' session', connection' ∈ retired_connections (release c)
         /\ session' ∈ PyConnection.retired_sessions connection'
         /\ PySession.session_id session' = PySession.session_id session
         /\ PySession.is_closed session' = true /\ PySession.ready session' <> None).
Proof.
  cbn zeta. pose proof (run_wf is_client operations) as Hwf. set (c := run _ operations) in *.
  split_and!; [done|done| |].
  - intros id future resolver Hin.
    assert (Hfut : future ∈ future_of <$> requests (pending_manager c))
      by (apply list_elem_of_fmap; by exists (id, (future, resolver))).
    pose proof (wf_known _ Hwf) as Hk. rewrite Forall_forall in Hk.
    apply (fail_futures_done _ (reverse (requests (pending_manager c)))); [|by apply Hk].
    by rewrite fmap_reverse, elem_of_reverse.
  - intros handle connection session_id session Hc Hs.
    exists (PyConnection.handle_closed connection), (PySession.handle_closed PyNone session).
    split_and!; try apply closed_session.
    + cbn. apply elem_of_app. right. apply list_elem_of_fmap. exists connection. split; [done|].
      apply list_elem_of_fmap. exists (handle, connection). split; [done|by apply elem_of_map_to_list].
    + cbn. apply elem_of_app. right. apply list_elem_of_fmap. exists session. split; [done|].
      apply list_elem_of_fmap. exists (session_id, session). split; [done|by apply elem_of_map_to_list].
    + unfold PySession.handle_closed. cbn. by destruct (PySession.ready session).
Qed.

(** ** Handles of what was created *)

Lemma is_event_value e1 e2 : is_event (PyStr (event_type_value e1)) e2 = bool_decide (e1 = e2).
Proof. destruct e1, e2; reflexivity. Qed.

(** An event for the user, then the answer: the resolver finds what the event left. *)
Lemma answer_after `{IpText} c handle connection effect id result future resolver o event_type data :
  wf (pending_manager c) -> waits (pending_manager c) id future (Some resolver) ->
  connections c !! handle = Some connection ->
  FfiT.delivered (RuntimeEvent.ConnectionEffects handle [effect; Effect.NotifyRequestDone id result]) o ->
  addressed effect = [] ->
  (exists meant, FfiT.effect_meant effect = Some meant
     /\ (apply_effect handle meant c).1 = (deliver handle event_type data c).1) ->
  exists c1, connections c1 !! handle = Some (PyConnection.handle_event event_type data connection).1
    /\ futures (pending_manager (process_runtime_event c o)) !! future
       = Some (outcome (resolve c1) (Done (request_result_to_py result)) (Some resolver)).
Proof.
  intros Hwf Hw Hc (objects & _ & Ho & Hr) Ha (meant & Hm & Hd).
  unfold process_runtime_event. rewrite Ho. cbn [FfiT.runtime_event_meant int_key items_of].
  inversion Hr as [|e1 o1 l1 os1 (m1 & Hm1 & Hc1) Hr1]; subst.
  inversion Hr1 as [|e2 o2 l2 os2 (m2 & Hm2 & Hc2) Hr2]; subst. inversion Hr2; subst. clear Hr Hr1 Hr2.
  exists (process_effect handle c o1). split.
  - unfold process_effect. rewrite Hc1. replace m1 with meant by congruence. rewrite Hd. unfold deliver.
    rewrite Hc. destruct (PyConnection.handle_event event_type data connection) as [connection' r]. cbn.
    apply lookup_insert_eq.
  - cbn [process_effects fold_left]. rewrite (process_effect_told handle _ _ _ _ Hm2 Hc2). cbn [addressed told].
    assert (Hpm : pending_manager (process_effect handle c o1) = pending_manager c)
      by (rewrite (process_effect_told handle _ _ _ _ Hm1 Hc1), Ha; done).
    rewrite Hpm. apply answer_this; [done|intros r; apply outcome_done|done].
Qed.

Lemma direction_of_value d : PyConnection.direction_of (PyStr (stream_direction_value d)) = Some d.
Proof. by destruct d. Qed.

Lemma handle_stream_event_new event_type data c stream_id session_id direction session :
  int_key (data_get data (b: "stream_id")) = Some stream_id ->
  int_key (data_get data (b: "session_id")) = Some session_id ->
  data_get data (b: "direction") = PyStr (stream_direction_value direction) ->
  data_get data (b: "is_peer_initiated") = PyBool false ->
  PyConnection.session_handles c !! session_id = Some session ->
  PyConnection.stream_handles c !! stream_id = None ->
  exists c', PyConnection.handle_stream_event event_type data c = (c', Ok ())
    /\ PyConnection.stream_handles c'
       = <[stream_id := PyStream.new stream_id session_id direction false]> (PyConnection.stream_handles c).
Proof.
  intros H1 H2 H3 H4 Hs Hn. unfold PyConnection.handle_stream_event. rewrite H1, H2, H3, H4.
  unfold py_bind, py_read, id. cbn [is_none negb andb]. rewrite bool_decide_eq_true_2 by exact Hn.
  rewrite Hs, direction_of_value. by eexists.
Qed.

Lemma stream_opened_registers data c stream_id session_id direction session :
  int_key (data_get data (b: "stream_id")) = Some stream_id ->
  int_key (data_get data (b: "session_id")) = Some session_id ->
  data_get data (b: "direction") = PyStr (stream_direction_value direction) ->
  data_get data (b: "is_peer_initiated") = PyBool false ->
  PyConnection.session_handles c !! session_id = Some session ->
  PyConnection.stream_handles c !! stream_id = None ->
  PyConnection.stream_handles
    (PyConnection.handle_event (PyStr (event_type_value EventType.StreamOpened)) data c).1 !! stream_id
  = Some (PyStream.new stream_id session_id direction false).
Proof.
  intros H1 H2 H3 H4 Hs Hn. set (event_type := PyStr _).
  destruct (handle_stream_event_new event_type data c _ _ _ _ H1 H2 H3 H4 Hs Hn) as (c' & He & Hc').
  assert (Hd : PyConnection.dispatch event_type data c
    = (let* _ := PyConnection.handle_stream_event event_type data in
       PyConnection.emit PyConnection.OnConnection event_type) c) by reflexivity.
  unfold PyConnection.handle_event. rewrite Hd. unfold py_bind. rewrite He. cbn. rewrite Hc'.
  apply lookup_insert_eq.
Qed.

Lemma session_event_registers event data c session_id path headers :
  event = EventType.SessionPending \/ event = EventType.SessionReady ->
  PyConnection.is_client c = true ->
  int_key (data_get data (b: "session_id")) = Some session_id ->
  data_get data (b: "path") = path -> is_none path = false ->
  data_get data (b: "headers") = headers -> is_none headers = false ->
  PyConnection.session_handles c !! session_id = None ->
  exists session, PyConnection.session_handles
    (PyConnection.handle_event (PyStr (event_type_value event)) data c).1 !! session_id = Some session
    /\ PySession.session_id session = session_id /\ PySession.path session = path
    /\ PySession.headers session = headers /\ PySession.is_closed session = false.
Proof.
  intros Hev Hcl H1 H2 Hp H3 Hh Hn.
  set (new := PySession.new session_id path headers (data_get data (b: "wt_available_protocols"))
                (data_get data (b: "wt_protocol"))).
  set (c1 := c <| PyConnection.session_handles := <[session_id := new]> (PyConnection.session_handles c) |>).
  assert (Hc1 : PyConnection.handle_session_event (PyStr (event_type_value event)) data c = (c1, Ok ())).
  { unfold PyConnection.handle_session_event. rewrite H1, H2, H3. unfold py_bind, py_read, id.
    rewrite Hcl, bool_decide_eq_true_2 by exact Hn. rewrite Hp, Hh. by destruct Hev as [-> | ->]. }
  assert (Hd : PyConnection.dispatch (PyStr (event_type_value event)) data c
    = (let* _ := PyConnection.handle_session_event (PyStr (event_type_value event)) data in
       let* _ := PyConnection.route_session_event (PyStr (event_type_value event)) data in
       PyConnection.emit PyConnection.OnConnection (PyStr (event_type_value event))) c)
    by (destruct Hev as [-> | ->]; reflexivity).
  unfold PyConnection.handle_event. rewrite Hd. unfold py_bind at 1. rewrite Hc1.
  unfold PyConnection.route_session_event. rewrite H1.
  assert (Hl : PyConnection.session_handles c1 !! session_id = Some new) by (cbn; apply lookup_insert_eq).
  clearbody c1. unfold py_bind, py_read, id. rewrite Hl.
  destruct Hev as [-> | ->]; rewrite !is_event_value; cbn.
  - exists new. by split.
  - unfold py_when. rewrite bool_decide_eq_true_2, bool_decide_eq_false_2 by done.
    unfold PyConnection.on_session. rewrite Hl. cbn. eexists. split; [apply lookup_insert_eq|]. done.
Qed.


(** ** Examples *)

#[local] Instance example_ip_text : IpText := {|
  ip_to_string _ := b: "localhost";
  parse_ipv6 _ := Ok 1;
  parse_ip _ := Ok (IpAddr.V4 1);
|}.

(** A client asks for a connection, and the crate has no server to connect to. *)
Definition example_operations : list operation :=
  [Execute (Some Resolver.ResolveConnection) (fun _ => Ok ())].
Definition example_events : list RuntimeEvent.t :=
  [RuntimeEvent.CommandFailed 7 None []; RuntimeEvent.CommandFailed 0 None (b: "refused")].

Lemma requests_answered_once_witness : exists objects,
  Forall2 FfiT.delivered example_events objects
  /\ exists o, forall later, futures (pending_manager (run (process_runtime_events
       (run (EndpointController.new true) example_operations) objects) later)) !! 0%nat = Some o.
Proof.
  destruct (FfiT.runtime_event_roundtrip (RuntimeEvent.CommandFailed 7 None []) eq_refl) as [o1 H1].
  destruct (FfiT.runtime_event_roundtrip (RuntimeEvent.CommandFailed 0 None (b: "refused")) eq_refl) as [o2 H2].
  assert (Hd : Forall2 FfiT.delivered example_events [o1; o2])
    by (constructor; [exact H1|constructor; [exact H2|constructor]]).
  exists [o1; o2]. split; [exact Hd|].
  destruct (requests_answered_once true example_operations example_events [o1; o2] 0 0
    (Some Resolver.ResolveConnection)) as (o & _ & _ & Ho);
    [split; [left|reflexivity]|exact Hd|]. exists o. exact Ho.
Defined.

(** A session creates a stream. *)
Definition example_bound : list Effect.t :=
  (Session.bind_stream SessionT.example_session 8 0 true SessionT.zero).2.

Definition example_connection : PyConnection.t :=
  (PyConnection.new true 5) <| PyConnection.session_handles :=
    {[Session.id SessionT.example_session
        := PySession.new (Session.id SessionT.example_session) (PyStr []) (PyList []) PyNone PyNone]} |>.

Definition example_controller : EndpointController.t :=
  (run (EndpointController.new true) [Execute (Some (Resolver.ResolveStream 5)) (fun _ => Ok ())])
    <| connections := {[5 := example_connection]} |>.


End ControllerT.
