(* ===== verification/Certificate.v ===== *)
(** * Certificates for tests and development

    [generate_self_signed_cert] of [crates/src/tls/certificate.rs] and
    [crates/src/ffi/certificate.rs], on Unix: a certificate authority, a certificate
    signed by it, and the three files.  The classes are what the code calls: [Rcgen], the
    crate that makes certificates, [Time], the arithmetic of points in time, which panics
    when the result is out of range, and [FileSystem]. *)

From S2P Require Import Prelude.
From S2P Require Import Types.
From S2P Require Import Quinn.
From S2P Require Import Pyo3.
From S2P Require Import FfiConversion.
From S2P Require Import FfiConfig.

(** ** What the code calls *)

Module SanType.
Inductive t : Set :=
| IpAddress (ip : IpAddr.t)
| DnsName (name : str).
End SanType.

Module KeyUsagePurpose.
Inductive t : Set :=
| CrlSign
| DigitalSignature
| KeyCertSign
| KeyEncipherment.
End KeyUsagePurpose.

Module DnType.
Inductive t : Set :=
| CommonName
| CountryName
| LocalityName
| OrganizationName
| StateOrProvinceName.
End DnType.

(** The fields of [CertificateParams] the code sets; [ca] is [IsCa::Ca] without a
    constraint on the path, [server_auth] the extended usage. *)
Module CertificateParams.
Record t : Set := mk {
  distinguished_name : list (DnType.t * str);
  ca : bool;
  subject_alt_names : list SanType.t;
  key_usages : list KeyUsagePurpose.t;
  server_auth : bool;
  not_before : Z;
  not_after : Z;
}.
End CertificateParams.

Class Rcgen := {
  KeyPair : Type;
  X509 : Type;
  (** The n-th key pair of the process. *)
  key_pair_generate : nat -> result KeyPair str;
  self_signed : CertificateParams.t -> KeyPair -> result X509 str;
  (** The certificate for a key, signed by the holder of the issuer's key. *)
  signed_by : CertificateParams.t -> KeyPair -> CertificateParams.t * KeyPair -> result X509 str;
  cert_pem : X509 -> str;
  key_pem : KeyPair -> str;
  ia5_string : str -> result str str;
}.

(** In seconds; [None] is a panic. *)
Class Time := {
  time_days : Z -> option Z;
  time_add : Z -> Z -> option Z;
  time_sub : Z -> Z -> option Z;
}.

(** An operation may fail, and leaves a file system behind in any case. *)
Class FileSystem := {
  FsState : Type;
  fs_exists : FsState -> str -> bool;
  fs_create_dir_all : FsState -> str -> FsState * result () str;
  fs_write : FsState -> str -> bytes -> FsState * result () str;
  fs_metadata_mode : FsState -> str -> result Z str;
  fs_set_mode : FsState -> str -> Z -> FsState * result () str;
  (** The contents and permissions of a file. *)
  fs_content : FsState -> str -> option bytes;
  fs_mode : FsState -> str -> option Z;
}.

(** ** Parameters *)

Section parameters.
Context `{Time, IpText, Rcgen}.

Definition name_of (common_name : str) : list (DnType.t * str) :=
  [(DnType.CountryName, b: "US"); (DnType.StateOrProvinceName, b: "CA");
   (DnType.LocalityName, b: "San Francisco"); (DnType.OrganizationName, b: "WTransport");
   (DnType.CommonName, common_name)].

(** From an hour ago, for [validity_days]. *)
Definition validity (now validity_days : Z) : option (Z * Z) :=
  not_before ← time_sub now 3600;
  days ← time_days validity_days;
  not_after ← time_add now days;
  Some (not_before, not_after).

Definition build_ca_parameters (now validity_days : Z) : option CertificateParams.t :=
  '(not_before, not_after) ← validity now validity_days;
  Some {| CertificateParams.distinguished_name := name_of (b: "WTransport Root CA");
          CertificateParams.ca := true;
          CertificateParams.subject_alt_names := [];
          CertificateParams.key_usages := [KeyUsagePurpose.KeyCertSign; KeyUsagePurpose.CrlSign];
          CertificateParams.server_auth := false;
          CertificateParams.not_before := not_before;
          CertificateParams.not_after := not_after |}.

Definition build_cert_parameters (hostname : str) (now validity_days : Z)
    : option (result CertificateParams.t str) :=
  match (match parse_ip hostname with
         | Ok ip => Ok (SanType.IpAddress ip)
         | Err _ => let? name := ia5_string hostname in Ok (SanType.DnsName name)
         end) with
  | Err e => Some (Err e)
  | Ok subject_alt_name =>
      '(not_before, not_after) ← validity now validity_days;
      Some (Ok {| CertificateParams.distinguished_name := name_of hostname;
                  CertificateParams.ca := false;
                  CertificateParams.subject_alt_names := [subject_alt_name];
                  CertificateParams.key_usages :=
                    [KeyUsagePurpose.DigitalSignature; KeyUsagePurpose.KeyEncipherment];
                  CertificateParams.server_auth := true;
                  CertificateParams.not_before := not_before;
                  CertificateParams.not_after := not_after |})
  end.

End parameters.

(** ** Paths *)

Definition SLASH : Byte.byte := x2f.
Definition BACKSLASH : Byte.byte := x5c.
Definition UNDERSCORE : Byte.byte := x5f.

Definition is_separator (byte : Byte.byte) : bool :=
  bool_decide (byte = SLASH) || bool_decide (byte = BACKSLASH).

(** [hostname.replace(['/', '\\'], "_")]. *)
Definition safe_hostname (hostname : str) : str :=
  (fun byte => if is_separator byte then UNDERSCORE else byte) <$> hostname.

(** [Path::join]. *)
Definition path_join (dir name : str) : str :=
  if bool_decide (head name = Some SLASH) then name
  else if bool_decide (dir = []) || bool_decide (last dir = Some SLASH) then dir ++ name
  else dir ++ [SLASH] ++ name.

(** ** The files *)

Section files.
Context `{Time, IpText, Rcgen, FileSystem}.

(** The three writes and the permissions of the key, each ending at its error. *)
Definition write_files (fs : FsState) (ca_path cert_path key_path : str) (ca cert key : bytes)
    : FsState * result () str :=
  match fs_write fs ca_path ca with
  | (fs, Err e) => (fs, Err e)
  | (fs, Ok _) =>
      match fs_write fs cert_path cert with
      | (fs, Err e) => (fs, Err e)
      | (fs, Ok _) =>
          match fs_write fs key_path key with
          | (fs, Err e) => (fs, Err e)
          | (fs, Ok _) =>
              match fs_metadata_mode fs key_path with
              | Err e => (fs, Err e)
              | Ok _ => fs_set_mode fs key_path 384
              end
          end
      end
  end.

(** The certificates, before any file is written; [None] is a panic. *)
Definition make_certificates (hostname : str) (now validity_days : Z)
    : option (result (X509 * X509 * KeyPair) str) :=
  ca_parameters ← build_ca_parameters now validity_days;
  match key_pair_generate 0 with
  | Err e => Some (Err e)
  | Ok ca_key_pair =>
      match self_signed ca_parameters ca_key_pair with
      | Err e => Some (Err e)
      | Ok ca_cert =>
          parameters ← build_cert_parameters hostname now validity_days;
          Some (let? parameters := parameters in
                let? key_pair := key_pair_generate 1 in
                let? cert := signed_by parameters key_pair (ca_parameters, ca_key_pair) in
                Ok (ca_cert, cert, key_pair))
      end
  end.

Definition generate_self_signed_cert (fs : FsState) (hostname output_dir : str)
    (now validity_days : Z) : FsState * option (result (str * str * str) str) :=
  match make_certificates hostname now validity_days with
  | None => (fs, None)
  | Some (Err e) => (fs, Some (Err e))
  | Some (Ok (ca_cert, cert, key_pair)) =>
      let '(fs, r) :=
        if fs_exists fs output_dir then (fs, Ok ()) else fs_create_dir_all fs output_dir in
      match r with
      | Err e => (fs, Some (Err e))
      | Ok _ =>
          let ca_path := path_join output_dir (safe_hostname hostname ++ b: "_ca.crt") in
          let cert_path := path_join output_dir (safe_hostname hostname ++ b: ".crt") in
          let key_path := path_join output_dir (safe_hostname hostname ++ b: ".key") in
          let '(fs, r) :=
            write_files fs ca_path cert_path key_path (cert_pem ca_cert) (cert_pem cert)
              (key_pem key_pair) in
          (fs, Some (let? _ := r in Ok (ca_path, cert_path, key_path)))
      end
  end.

(** The function Python calls. *)
Definition py_generate_self_signed_cert (fs : FsState) (hostname output_dir : str)
    (now validity_days : Z) : FsState * result (str * str * str) PyErr :=
  if bool_decide (hostname = []) then (fs, Err (PyValueError (b: "hostname validate failed")))
  else
    match generate_self_signed_cert fs hostname output_dir now validity_days with
    | (fs, None) => (fs, Err panic_exception)
    | (fs, Some (Err e)) => (fs, Err (PyRuntimeError e))
    | (fs, Some (Ok paths)) => (fs, Ok paths)
    end.

End files.

(** ** Theorems *)

(** What the documentation of [std::fs] says, on paths that are not links: an operation on
    a file changes no other one, a write that returns has written everything. *)
Class FileSystemLaws `{FileSystem} := {
  fs_create_dir_all_law fs dir fs' r : fs_create_dir_all fs dir = (fs', r) ->
    forall path, fs_content fs' path = fs_content fs path /\ fs_mode fs' path = fs_mode fs path;
  fs_write_law fs path data fs' r : fs_write fs path data = (fs', r) ->
    (forall other, other <> path ->
       fs_content fs' other = fs_content fs other /\ fs_mode fs' other = fs_mode fs other)
    /\ (r = Ok () -> fs_content fs' path = Some data);
  fs_set_mode_law fs path mode fs' r : fs_set_mode fs path mode = (fs', r) ->
    (forall other, fs_content fs' other = fs_content fs other)
    /\ (forall other, other <> path -> fs_mode fs' other = fs_mode fs other)
    /\ (r = Ok () -> fs_mode fs' path = Some mode);
}.

Module CertificateT.

(** A file directly in a directory. *)
Definition directly_in (dir path : str) : Prop :=
  exists name, (path = dir ++ name \/ path = dir ++ [SLASH] ++ name)
    /\ SLASH ∉ name /\ name <> b: "." /\ name <> b: "..".

Lemma safe_hostname_flat hostname : SLASH ∉ safe_hostname hostname.
Proof.
  unfold safe_hostname. intros (byte & Hs & _)%list_elem_of_fmap. unfold is_separator in Hs.
  case_bool_decide; [done|]. case_bool_decide; [done|]. cbn in Hs. congruence.
Qed.

Lemma path_join_direct dir name : SLASH ∉ name -> name <> b: "." -> name <> b: ".." ->
  directly_in dir (path_join dir name).
Proof.
  intros Hs H1 H2. exists name. split_and!; try done. unfold path_join.
  case_bool_decide as Hh; [exfalso; destruct name; [done|]; injection Hh as ->; apply Hs; by left|].
  destruct (_ || _); [by left|by right].
Qed.

Lemma suffixed_direct dir hostname suffix :
  SLASH ∉ suffix -> (2 < length suffix)%nat ->
  directly_in dir (path_join dir (safe_hostname hostname ++ suffix)).
Proof.
  intros Hs Hl. apply path_join_direct.
  - rewrite elem_of_app. intros [Hin|Hin]; [by eapply safe_hostname_flat|done].
  - intros Hn. apply (f_equal length) in Hn. rewrite length_app in Hn. cbn in Hn. lia.
  - intros Hn. apply (f_equal length) in Hn. rewrite length_app in Hn. cbn in Hn. lia.
Qed.

Lemma path_join_inj dir n1 n2 : SLASH ∉ n1 -> SLASH ∉ n2 ->
  path_join dir n1 = path_join dir n2 -> n1 = n2.
Proof.
  intros H1 H2. assert (Hh : forall n, SLASH ∉ n -> head n <> Some SLASH).
  { intros [|x n] Hn; [done|]. intros [= ->]. apply Hn. by left. }
  unfold path_join. rewrite (bool_decide_eq_false_2 (head n1 = _)) by (by apply Hh).
  rewrite (bool_decide_eq_false_2 (head n2 = _)) by (by apply Hh).
  destruct (_ || _); intros Hj; [by apply app_inv_head in Hj|].
  by apply app_inv_head, app_inv_head in Hj.
Qed.

Section files.
Context `{FileSystemLaws}.

(** Only the files [touched] differ. *)
Definition only (touched : list str) (fs fs' : FsState) : Prop :=
  forall path, path ∉ touched ->
    fs_content fs' path = fs_content fs path /\ fs_mode fs' path = fs_mode fs path.

Lemma only_refl touched fs : only touched fs fs.
Proof. by intros path _. Qed.

Lemma only_trans touched fs1 fs2 fs3 : only touched fs1 fs2 -> only touched fs2 fs3 -> only touched fs1 fs3.
Proof. intros H12 H23 path Hp. destruct (H12 path Hp), (H23 path Hp). split; congruence. Qed.

Lemma write_only touched fs path data fs' r :
  fs_write fs path data = (fs', r) -> path ∈ touched -> only touched fs fs'.
Proof. intros [Hw _]%fs_write_law Hin other Ho. apply Hw. by intros ->. Qed.

Lemma write_files_spec fs ca_path cert_path key_path ca cert key fs' r :
  ca_path <> cert_path -> ca_path <> key_path -> cert_path <> key_path ->
  write_files fs ca_path cert_path key_path ca cert key = (fs', r) ->
  only [ca_path; cert_path; key_path] fs fs'
  /\ (r = Ok () -> fs_content fs' ca_path = Some ca /\ fs_content fs' cert_path = Some cert
        /\ fs_content fs' key_path = Some key /\ fs_mode fs' key_path = Some 384).
Proof.
  intros N1 N2 N3. unfold write_files. set (touched := [ca_path; cert_path; key_path]).
  destruct (fs_write fs ca_path ca) as [fs1 [u1|e1]] eqn:E1.
  2: { intros [= <- <-]. split; [|done]. eapply write_only; [done|by left]. }
  assert (O1 : only touched fs fs1) by (eapply write_only; [done|by left]).
  destruct (fs_write fs1 cert_path cert) as [fs2 [u2|e2]] eqn:E2.
  2: { intros [= <- <-]. split; [|done]. eapply only_trans; [done|]. eapply write_only; [done|set_solver]. }
  assert (O2 : only touched fs1 fs2) by (eapply write_only; [done|set_solver]).
  destruct (fs_write fs2 key_path key) as [fs3 [u3|e3]] eqn:E3.
  2: { intros [= <- <-]. split; [|done]. do 2 (eapply only_trans; [done|]). eapply write_only; [done|set_solver]. }
  assert (O3 : only touched fs2 fs3) by (eapply write_only; [done|set_solver]).
  assert (O : only touched fs fs3) by (do 2 (eapply only_trans; [done|]); done).
  destruct (fs_metadata_mode fs3 key_path); [|by intros [= <- <-]].
  intros Hset. apply fs_set_mode_law in Hset as (Hc & Hm & Hk). split.
  - eapply only_trans; [exact O|]. intros path Hp. split; [apply Hc|apply Hm]. intros ->. apply Hp. set_solver.
  - intros ->. rewrite !Hc. destruct u1, u2, u3.
    destruct (fs_write_law _ _ _ _ _ E1) as [_ W1]. destruct (fs_write_law _ _ _ _ _ E2) as [D2 W2].
    destruct (fs_write_law _ _ _ _ _ E3) as [D3 W3].
    destruct (D3 ca_path N2) as [-> _]. destruct (D2 ca_path N1) as [-> _]. destruct (D3 cert_path N3) as [-> _].
    split_and!; auto.
Qed.

End files.

Section generation.
Context `{Time, IpText, Rcgen, FileSystemLaws}.

Definition file (hostname output_dir suffix : str) : str :=
  path_join output_dir (safe_hostname hostname ++ suffix).

Lemma suffix_flat suffix : SLASH ∉ suffix -> forall hostname, SLASH ∉ safe_hostname hostname ++ suffix.
Proof. intros Hs hostname. rewrite elem_of_app. intros [Hin|Hin]; [by eapply safe_hostname_flat|done]. Qed.

Lemma file_distinct hostname output_dir s1 s2 : SLASH ∉ s1 -> SLASH ∉ s2 -> s1 <> s2 ->
  file hostname output_dir s1 <> file hostname output_dir s2.
Proof.
  intros Hx Hy Hne Hf. apply Hne. apply path_join_inj in Hf; [|by apply suffix_flat..].
  by apply app_inv_head in Hf.
Qed.

(** The certificate names the host and is signed by the authority, which is one. *)
Definition certified (hostname : str) (ca_cert cert : X509) (key_pair : KeyPair) : Prop :=
  exists ca_parameters ca_key parameters,
    self_signed ca_parameters ca_key = Ok ca_cert /\ CertificateParams.ca ca_parameters = true
    /\ signed_by parameters key_pair (ca_parameters, ca_key) = Ok cert
    /\ CertificateParams.ca parameters = false /\ CertificateParams.server_auth parameters = true
    /\ CertificateParams.not_after parameters = CertificateParams.not_after ca_parameters
    /\ match parse_ip hostname with
       | Ok ip => CertificateParams.subject_alt_names parameters = [SanType.IpAddress ip]
       | Err _ => exists name, ia5_string hostname = Ok name
           /\ CertificateParams.subject_alt_names parameters = [SanType.DnsName name]
       end.

Lemma made_certified hostname now validity_days ca_cert cert key_pair :
  make_certificates hostname now validity_days = Some (Ok (ca_cert, cert, key_pair)) ->
  certified hostname ca_cert cert key_pair.
Proof.
  unfold make_certificates. intros Hb. apply bind_Some in Hb as (ca_parameters & Hca & Hb).
  destruct (key_pair_generate 0) as [ca_key|]; [|done].
  destruct (self_signed ca_parameters ca_key) as [ca|] eqn:Hs; [|done].
  apply bind_Some in Hb as (parameters & Hp & Hb). destruct parameters as [parameters|]; [|done].
  destruct (key_pair_generate 1) as [key|]; [|done].
  destruct (signed_by parameters key (ca_parameters, ca_key)) as [c|] eqn:Hsb; [|done].
  injection Hb as -> -> ->. exists ca_parameters, ca_key, parameters.
  unfold build_ca_parameters in Hca. apply bind_Some in Hca as ([nb na] & Hv & [= <-]).
  unfold build_cert_parameters in Hp. destruct (parse_ip hostname) as [ip|].
  - rewrite Hv in Hp. injection Hp as <-. by split_and!.
  - destruct (ia5_string hostname) as [name|]; [|done]. cbn in Hp. rewrite Hv in Hp. injection Hp as <-.
    split_and!; try done. by exists name.
Qed.

(** Generating a certificate touches three files directly in the directory it is told,
    whatever the name of the host, and whether it succeeds or not.  When it does, they hold
    an authority, a certificate for the host that the authority signed, and the key of the
    certificate, which only its owner may read. *)
Theorem generated_files fs hostname output_dir now validity_days fs' r :
  py_generate_self_signed_cert fs hostname output_dir now validity_days = (fs', r) ->
  let ca_path := file hostname output_dir (b: "_ca.crt") in
  let cert_path := file hostname output_dir (b: ".crt") in
  let key_path := file hostname output_dir (b: ".key") in
  Forall (directly_in output_dir) [ca_path; cert_path; key_path]
  /\ only [ca_path; cert_path; key_path] fs fs'
  /\ match r with
     | Ok paths => paths = (ca_path, cert_path, key_path)
         /\ exists ca_cert cert key_pair, certified hostname ca_cert cert key_pair
           /\ fs_content fs' ca_path = Some (cert_pem ca_cert)
           /\ fs_content fs' cert_path = Some (cert_pem cert)
           /\ fs_content fs' key_path = Some (key_pem key_pair)
           /\ fs_mode fs' key_path = Some 384
     | Err _ => True
     end.
Proof.
  intros Hg. cbn zeta.
  assert (F1 : SLASH ∉ b: "_ca.crt") by (intros Hin; apply list_elem_of_In in Hin; cbn in Hin; intuition discriminate).
  assert (F2 : SLASH ∉ b: ".crt") by (intros Hin; apply list_elem_of_In in Hin; cbn in Hin; intuition discriminate).
  assert (F3 : SLASH ∉ b: ".key") by (intros Hin; apply list_elem_of_In in Hin; cbn in Hin; intuition discriminate).
  split; [repeat constructor; apply suffixed_direct; try done; cbn; lia|].
  unfold py_generate_self_signed_cert in Hg. case_bool_decide; [injection Hg as <- <-; split; [apply only_refl|done]|].
  unfold generate_self_signed_cert in Hg.
  destruct (make_certificates hostname now validity_days) as [[[[ca_cert cert] key_pair]|e]|] eqn:Hm;
    [|injection Hg as <- <-; split; [apply only_refl|done]..].
  destruct (if fs_exists fs output_dir then _ else _) as [fs1 r1] eqn:Hd.
  set (touched := [_; _; _]).
  assert (O1 : only touched fs fs1).
  { destruct (fs_exists fs output_dir); [injection Hd as <- _; apply only_refl|].
    intros path _. by eapply fs_create_dir_all_law. }
  destruct r1 as [u|e]; [|by injection Hg as <- <-].
  destruct (write_files _ _ _ _ _ _ _) as [fs2 r2] eqn:Hw.
  apply write_files_spec in Hw as [O2 Hc]; [|by apply file_distinct..].
  destruct r2 as [[]|e]; injection Hg as <- <-; (split; [by eapply only_trans|]); [|done].
  split; [done|]. exists ca_cert, cert, key_pair. split; [by eapply made_certified|by apply Hc].
Qed.

End generation.
(** ** An example

    A file system on which everything works; a new file is readable for all. *)

#[local] Instance example_files : FileSystem := {|
  FsState := str -> option (bytes * Z);
  fs_exists _ _ := false;
  fs_create_dir_all fs _ := (fs, Ok ());
  fs_write fs path data :=
    (fun p => if bool_decide (p = path) then Some (data, default 420 (snd <$> fs path)) else fs p, Ok ());
  fs_metadata_mode fs path := match fs path with Some (_, mode) => Ok mode | None => Err (b: "none") end;
  fs_set_mode fs path mode :=
    (fun p => if bool_decide (p = path) then (fun '(data, _) => (data, mode)) <$> fs p else fs p,
     if bool_decide (fs path = None) then Err (b: "none") else Ok ());
  fs_content fs path := fst <$> fs path;
  fs_mode fs path := snd <$> fs path;
|}.

#[local] Instance example_files_laws : FileSystemLaws.
Proof.
  split; cbn.
  - by intros fs dir fs' r [= <- _].
  - intros fs path data fs' r [= <- _]. split; [|intros _; by rewrite bool_decide_eq_true_2].
    intros other Ho. by rewrite bool_decide_eq_false_2.
  - intros fs path mode fs' r [= <- <-]. split_and!.
    + intros other. case_bool_decide; [|done]. by destruct (fs other) as [[]|].
    + intros other Ho. by rewrite bool_decide_eq_false_2.
    + rewrite (bool_decide_eq_true_2 (path = path)) by done. case_bool_decide as Hn; [done|].
      by destruct (fs path) as [[]|].
Qed.

#[local] Instance example_time : Time := {|
  time_days n := Some (86400 * n);
  time_add t d := Some (t + d);
  time_sub t d := Some (t - d);
|}.

#[local] Instance example_text : IpText := {|
  ip_to_string _ := b: "localhost";
  parse_ipv6 _ := Ok 1;
  parse_ip _ := Err (b: "none");
|}.

#[local] Instance example_rcgen : Rcgen := {|
  KeyPair := nat;
  X509 := str;
  key_pair_generate := Ok;
  self_signed _ _ := Ok (b: "authority");
  signed_by _ _ _ := Ok (b: "certificate");
  cert_pem := fun cert => cert;
  key_pem _ := b: "key";
  ia5_string := Ok;
|}.

(** The name of the host does not lead out of the directory. *)
Lemma generated_files_witness : exists fs',
  py_generate_self_signed_cert (fun _ => None) (b: "../host") (b: "certs") 1000000 30
  = (fs', Ok (b: "certs/.._host_ca.crt", b: "certs/.._host.crt", b: "certs/.._host.key"))
  /\ only [b: "certs/.._host_ca.crt"; b: "certs/.._host.crt"; b: "certs/.._host.key"] (fun _ => None) fs'.
Proof.
  eexists. split; [reflexivity|].
  refine (proj1 (proj2 (generated_files (fun _ => None) (b: "../host") (b: "certs") 1000000 30 _
    (Ok (b: "certs/.._host_ca.crt", b: "certs/.._host.crt", b: "certs/.._host.key")) _))).
  reflexivity.
Defined.

End CertificateT.
