(* ===== verification/PyStreamIo.v ===== *)
(** * Reading streams from Python

    The receiving part of a stream, in [pywebtransport/stream.py].  A coroutine is cut at its [await]s: what
    is between two of them runs without interruption, as a function of the stream to the
    stream it leaves behind and to what happens next.  Requests to the crate go through
    tasks, [Task.t], which are answered at some later time.

    The argument [connection] is what [self.session.connection] gives: nothing, or the
    exception it raises when the session or the connection has been collected. *)

From S2P Require Import Prelude.
From S2P Require Import Types.
From S2P Require Import Pyo3.
From S2P Require Import FfiConversion.
From S2P Require Import PyConversion.
From S2P Require Import PyConnection.
Import PyObject.

(** ** Exceptions and integers *)

(** [isinstance(e, (...))], for classes without subclasses. *)
Definition is_a (classes : list str) (e : PyErr) : bool :=
  existsb (fun class => bool_decide (PyException.class e = class)) classes.

(** [from_cause]: the error code of the cause is inherited. *)
Definition from_cause (class_name message : str) (cause : PyErr) : PyErr :=
  instantiate_py_exception class_name message (make_kwargs (PyException.error_code cause)).

(** [except (...): raise], and [except Exception as e: raise ... from e]. *)
Definition reraise (passed : list str) (class_name message : str) (e : PyErr) : PyErr :=
  if is_a passed e then e else from_cause class_name message e.

Definition py_decimal (z : Z) : str :=
  if z <? 0 then b: "-" ++ decimal_digits 20 (- z) else decimal_digits 20 z.

Definition READ_CHUNK_SIZE : Z := 65536.
Definition WRITE_CHUNK_SIZE : Z := 65536.

(** [data.find(separator)], where [None] is -1. *)
Fixpoint find_bytes (separator data : bytes) : option nat :=
  if bool_decide (take (length separator) data = separator) then Some 0%nat
  else match data with
       | [] => None
       | _ :: rest => S <$> find_bytes separator rest
       end.

(** What a coroutine of this file ends with besides a result. *)
Module Failure.
Inductive t : Set :=
| Exception (e : PyErr)
| IncompleteReadError (partial : bytes) (expected : option Z).
End Failure.

(** A request to read, with the outcome the task of [receive] returns. *)
Module Task.
Record t : Type := mk {
  max_size : option Z;
  outcome : option (result bytes PyErr);
}.
End Task.

(** ** The receiving part *)

Module ReceiveStream.

(** [tasks] are all that were created, in order; [read_task] is the number of one. *)
Record t : Type := mk {
  base : PyStream.t;
  buffer : bytes;
  eof : bool;
  read_task : option nat;
  tasks : list Task.t;
}.

#[global] Instance eta_receive_stream : Eta t := fun s =>
  mk (base s) (buffer s) (eof s) (read_task s) (tasks s).
#[global] Instance set_base : Setter base := ltac:(build_setter).
#[global] Instance set_py_buffer : Setter buffer := ltac:(build_setter).
#[global] Instance set_eof : Setter eof := ltac:(build_setter).
#[global] Instance set_read_task : Setter read_task := ltac:(build_setter).
#[global] Instance set_tasks : Setter tasks := ltac:(build_setter).

Definition new (base : PyStream.t) : t :=
  {| base := base; buffer := []; eof := false; read_task := None; tasks := [] |}.

Definition stream_id (s : t) : Z := PyStream.stream_id (base s).
Definition is_closed (s : t) : bool := PyStream.is_closed (base s).

Definition outcome_of (s : t) (task : nat) : option (result bytes PyErr) :=
  tasks s !! task ≫= Task.outcome.

(** What [read] does next. *)
Inductive step : Type :=
| Return (data : bytes)
| Raise (e : PyErr)
| Await (task : nat).

Definition receive_error (s : t) (e : PyErr) : PyErr :=
  reraise [b: "ConnectionError"; b: "StreamError"] (b: "StreamError")
    (b: "wt_stream receive failed stream_id=" ++ decimal_digits 20 (stream_id s)) e.

(** [read] behind the [await] of the task that is still the one of the stream. *)
Definition claim (max_size : Z) (outcome : result bytes PyErr) (s : t) : t * step :=
  let s := s <| read_task := None |> in
  match outcome with
  | Err e => (s, Raise (receive_error s e))
  | Ok [] => (s <| eof := true |>, Return [])
  | Ok data =>
      if (0 <=? max_size) && (max_size <? len data) then
        (s <| buffer := buffer s ++ drop (Z.to_nat max_size) data |>,
         Return (take (Z.to_nat max_size) data))
      else (s, Return data)
  end.

(** A new request: the task of the stream, or for a read of nothing one of its own. *)
Definition request_read (connection : option PyErr) (max_size : Z) (s : t) : t * step :=
  if is_closed s then
    (s, Raise (py_error (b: "StreamError") (b: "wt_stream resolve failed stream_id=") (stream_id s)))
  else
    match connection with
    | Some e => (s, Raise e)
    | None =>
        let size := if 0 <=? max_size then Some max_size else None in
        let task := length (tasks s) in
        let s := s <| tasks := tasks s ++ [Task.mk size None] |> in
        if max_size =? 0 then (s, Await task)
        else (s <| read_task := Some task |>, Await task)
    end.

(** One iteration of the loop of [read], up to its [await].  Awaiting a task that is done
    does not suspend. *)
Definition attempt (connection : option PyErr) (max_size : Z) (s : t) : t * step :=
  match buffer s with
  | _ :: _ =>
      if max_size <? 0 then (s <| buffer := [] |>, Return (buffer s))
      else (s <| buffer := drop (Z.to_nat max_size) (buffer s) |>,
            Return (take (Z.to_nat max_size) (buffer s)))
  | [] =>
      if eof s then (s, Return [])
      else
        match read_task s with
        | Some task =>
            if max_size =? 0 then request_read connection max_size s
            else match outcome_of s task with
                 | Some outcome => claim max_size outcome s
                 | None => (s, Await task)
                 end
        | None => request_read connection max_size s
        end
  end.

(** [read] behind the [await]: of its own request for nothing, or of a task that another
    reader may have claimed meanwhile. *)
Definition resume (connection : option PyErr) (max_size : Z) (task : nat) (s : t) : t * step :=
  match outcome_of s task with
  | None => (s, Await task)
  | Some outcome =>
      if max_size =? 0 then
        (s, match outcome with Ok _ => Return [] | Err e => Raise (receive_error s e) end)
      else if bool_decide (read_task s = Some task) then claim max_size outcome s
      else attempt connection max_size s
  end.

(** ** Calls

    A call of the user that is inside [read], with its local variables. *)
Module Call.
Inductive t : Set :=
| Read (max_size : Z)
| ReadAll (chunks : list bytes)
| ReadExactly (size : Z) (chunks : list bytes) (bytes_read : Z)
| ReadUntil (separator : bytes) (max_size : Z) (data : bytes).
End Call.

Inductive turn : Type :=
| Finished (r : result bytes Failure.t)
| Waiting (call : Call.t) (task : nat).

(** The argument of [read]. *)
Definition next_size (call : Call.t) : Z :=
  match call with
  | Call.Read max_size => max_size
  | Call.ReadAll _ => -1
  | Call.ReadExactly size _ bytes_read => size - bytes_read
  | Call.ReadUntil _ _ _ => READ_CHUNK_SIZE
  end.

Definition exceeded (s : t) (actual limit : Z) : PyErr :=
  py_error (b: "StreamError")
    (b: "wt_stream receive exceeded actual=" ++ decimal_digits 20 actual
       ++ b: " limit=" ++ decimal_digits 20 limit ++ b: " stream_id=") (stream_id s).

(** The body of the loop of [readuntil] behind [read]. *)
Definition proceed_until (separator : bytes) (max_size : Z) (data chunk : bytes) (s : t)
    : t * (result bytes Failure.t + Call.t) :=
  match chunk with
  | [] => (s, inl (Err (Failure.IncompleteReadError data None)))
  | _ =>
      let data := data ++ chunk in
      match find_bytes separator data with
      | Some index =>
          let stop := (index + length separator)%nat in
          if (0 <=? max_size) && (max_size <? Z.of_nat stop) then
            (s, inl (Err (Failure.Exception (exceeded s (Z.of_nat stop) max_size))))
          else (s <| buffer := buffer s ++ drop stop data |>, inl (Ok (take stop data)))
      | None =>
          if (0 <=? max_size) && (max_size <? len data) then
            (s, inl (Err (Failure.Exception (exceeded s (len data) max_size))))
          else (s, inr (Call.ReadUntil separator max_size data))
      end
  end.

(** What a call does with the data [read] returned: it ends, or reads again. *)
Definition proceed (call : Call.t) (chunk : bytes) (s : t) : t * (result bytes Failure.t + Call.t) :=
  match call with
  | Call.Read _ => (s, inl (Ok chunk))
  | Call.ReadAll chunks =>
      match chunk with
      | [] => (s, inl (Ok (concat chunks)))
      | _ => (s, inr (Call.ReadAll (chunks ++ [chunk])))
      end
  | Call.ReadExactly size chunks bytes_read =>
      if size =? 0 then (s, inl (Ok []))
      else
        match chunk with
        | [] => (s, inl (Err (Failure.IncompleteReadError (concat chunks) (Some size))))
        | _ =>
            let chunks := chunks ++ [chunk] in
            let bytes_read := bytes_read + len chunk in
            if bytes_read <? size then (s, inr (Call.ReadExactly size chunks bytes_read))
            else (s, inl (Ok (concat chunks)))
        end
  | Call.ReadUntil separator max_size data => proceed_until separator max_size data chunk s
  end.

(** The loops of the calls, up to an [await] that suspends. *)
Fixpoint settle (fuel : nat) (connection : option PyErr) (call : Call.t) (r : t * step)
    : option (t * turn) :=
  match r with
  | (s, Return chunk) =>
      match proceed call chunk s with
      | (s, inl r) => Some (s, Finished r)
      | (s, inr call) =>
          match fuel with
          | O => None
          | S fuel => settle fuel connection call (attempt connection (next_size call) s)
          end
      end
  | (s, Raise e) => Some (s, Finished (Err (Failure.Exception e)))
  | (s, Await task) => Some (s, Waiting call task)
  end.

(** The data of the task of the stream that no reader has claimed yet. *)
Definition unclaimed (s : t) : bytes :=
  match read_task s ≫= outcome_of s with Some (Ok data) => data | _ => [] end.

(** Every iteration takes a byte that is here. *)
Definition run (connection : option PyErr) (call : Call.t) (r : t * step) : option (t * turn) :=
  settle (S (length (buffer r.1 ++ unclaimed r.1))) connection call r.

Definition enter (connection : option PyErr) (call : Call.t) (s : t) : option (t * turn) :=
  run connection call (attempt connection (next_size call) s).

Definition continue (connection : option PyErr) (call : Call.t) (task : nat) (s : t)
    : option (t * turn) :=
  run connection call (resume connection (next_size call) task s).

Definition invalid (actual : str) : turn :=
  Finished (Err (Failure.Exception (PyValueError (b: "wt_stream validate invalid actual=" ++ actual)))).

Definition read (connection : option PyErr) (max_size : Z) (s : t) : option (t * turn) :=
  if max_size <? -1 then Some (s, invalid (py_decimal max_size))
  else enter connection (Call.Read max_size) s.

Definition read_all (connection : option PyErr) (s : t) : option (t * turn) :=
  enter connection (Call.ReadAll []) s.

Definition readexactly (connection : option PyErr) (size : Z) (s : t) : option (t * turn) :=
  if size <? 0 then Some (s, invalid (py_decimal size))
  else if size =? 0 then enter connection (Call.ReadExactly 0 [] 0) s
  else match connection with
       | Some e => Some (s, Finished (Err (Failure.Exception e)))
       | None => enter connection (Call.ReadExactly size [] 0) s
       end.

Definition readuntil (connection : option PyErr) (separator : bytes) (max_size : Z) (s : t)
    : option (t * turn) :=
  if bool_decide (separator = []) then Some (s, invalid (b: "b''"))
  else if max_size <? -1 then Some (s, invalid (py_decimal max_size))
  else match connection with
       | Some e => Some (s, Finished (Err (Failure.Exception e)))
       | None => enter connection (Call.ReadUntil separator max_size []) s
       end.

Definition readline (connection : option PyErr) (max_size : Z) (s : t) : option (t * turn) :=
  readuntil connection [Byte.x0a] max_size s.

(** The task gets its outcome. *)
Definition answer (task : nat) (outcome : result bytes PyErr) (s : t) : t :=
  s <| tasks := alter (fun task => Task.mk (Task.max_size task) (Some outcome)) task (tasks s) |>.

Definition handle_closed (s : t) : t := s <| base := PyStream.handle_closed (base s) |>.

End ReceiveStream.

(** ** Any number of calls at once

    What the event loop and the user can do to a receiving part: start a call, let it go
    on when the task it awaits is done, cancel it or let its timeout expire; and what
    the crate can do: answer a request, with no more than was asked for, and close the
    stream.  The tasks of the user are numbered in the order they call. *)

Module Readers.
Import ReceiveStream.

Module Op.
Inductive t : Set :=
| Read (max_size : Z)
| ReadAll
| ReadExactly (size : Z)
| ReadUntil (separator : bytes) (max_size : Z)
| ReadLine (max_size : Z).
End Op.

Definition invoke (connection : option PyErr) (op : Op.t) (s : ReceiveStream.t)
    : option (ReceiveStream.t * turn) :=
  match op with
  | Op.Read max_size => read connection max_size s
  | Op.ReadAll => read_all connection s
  | Op.ReadExactly size => readexactly connection size s
  | Op.ReadUntil separator max_size => readuntil connection separator max_size s
  | Op.ReadLine max_size => readline connection max_size s
  end.

(** The calls so far, each with what it is doing. *)
Record t : Type := mk {
  stream : ReceiveStream.t;
  calls : list (Op.t * turn);
}.

Definition new (base : PyStream.t) : t := {| stream := ReceiveStream.new base; calls := [] |}.

Inductive action : Type :=
| Invoke (connection : option PyErr) (op : Op.t)
| Resume (connection : option PyErr) (caller : nat)
| Cancel (caller : nat)
| Expire (caller : nat)
| Answer (task : nat) (outcome : result bytes PyErr)
| Close.

Definition CancelledError : PyErr := PyException.mk (b: "CancelledError") [] None.

(** Only [readexactly] and [readuntil] run under a timeout. *)
Definition has_timeout (call : Call.t) : bool :=
  match call with
  | Call.Read _ | Call.ReadAll _ => false
  | Call.ReadExactly size _ _ => negb (size =? 0)
  | Call.ReadUntil _ _ _ => true
  end.

Definition timeout_error (s : ReceiveStream.t) : PyErr :=
  py_error (b: "TimeoutError") (b: "wt_stream receive failed stream_id=") (stream_id s).

(** What the crate promises of an answer. *)
Definition within (max_size : option Z) (outcome : result bytes PyErr) : bool :=
  match max_size, outcome with Some size, Ok data => len data <=? size | _, _ => true end.

Definition act (a : action) (r : t) : option t :=
  match a with
  | Invoke connection op =>
      '(s, turn) ← invoke connection op (stream r);
      Some {| stream := s; calls := calls r ++ [(op, turn)] |}
  | Resume connection caller =>
      match calls r !! caller with
      | Some (op, Waiting call task) =>
          '(s, turn) ← continue connection call task (stream r);
          Some {| stream := s; calls := <[caller := (op, turn)]> (calls r) |}
      | _ => None
      end
  | Cancel caller =>
      match calls r !! caller with
      | Some (op, Waiting _ _) =>
          Some {| stream := stream r;
                  calls := <[caller := (op, Finished (Err (Failure.Exception CancelledError)))]> (calls r) |}
      | _ => None
      end
  | Expire caller =>
      match calls r !! caller with
      | Some (op, Waiting call _) =>
          if has_timeout call then
            Some {| stream := stream r;
                    calls := <[caller := (op, Finished (Err (Failure.Exception
                                           (timeout_error (stream r)))))]> (calls r) |}
          else None
      | _ => None
      end
  | Answer task outcome =>
      match tasks (stream r) !! task with
      | Some (Task.mk max_size None) =>
          if within max_size outcome then
            Some {| stream := answer task outcome (stream r); calls := calls r |}
          else None
      | _ => None
      end
  | Close => Some {| stream := handle_closed (stream r); calls := calls r |}
  end.

(** The actions one after the other; [None] if one of them is not possible. *)
Fixpoint acts (actions : list action) (r : t) : option t :=
  match actions with
  | [] => Some r
  | a :: rest => r ← act a r; acts rest r
  end.

End Readers.
