(* ===== verification/PyStreamTheorems.v ===== *)
(** * Reading streams from Python: theorems

    Any number of coroutines may read from one stream, and each may be cancelled or time
    out at any [await].  The bytes of the stream are cut among them in order. *)

From S2P Require Import Prelude.
From S2P Require Import Types.
From S2P Require Import Pyo3.
From S2P Require Import FfiConversion.
From S2P Require Import PyConversion.
From S2P Require Import PyConnection.
From S2P Require Import PyStreamIo.
Import PyObject.

Module ReadersT.
Import ReceiveStream Readers.

(** ** Searching *)

Lemma find_bytes_some separator data i :
  find_bytes separator data = Some i -> take (length separator) (drop i data) = separator.
Proof.
  revert i. induction data as [|x data IH]; intros i; cbn; case_bool_decide; intros E; simplify_eq; try done.
  destruct (find_bytes separator data) as [j|]; simplify_eq/=. by apply IH.
Qed.

Lemma find_bytes_none separator data :
  find_bytes separator data = None -> forall i, take (length separator) (drop i data) <> separator.
Proof.
  induction data as [|x data IH]; cbn; case_bool_decide; intros E i; simplify_eq.
  - by rewrite drop_nil.
  - destruct i as [|i]; [done|]. cbn. apply IH. by destruct (find_bytes separator data).
Qed.

Lemma find_bytes_fits separator data i :
  find_bytes separator data = Some i -> (i + length separator <= length data)%nat \/ separator = [].
Proof.
  intros E%find_bytes_some. destruct separator as [|x separator]; [by right|left].
  apply (f_equal length) in E. rewrite length_take, length_drop in E.
  cbn [length] in *. lia.
Qed.

(** What is found in more data than before ends in the new data. *)
Lemma find_bytes_grown separator data chunk i :
  separator <> [] -> find_bytes separator data = None ->
  find_bytes separator (data ++ chunk) = Some i -> (length data < i + length separator)%nat.
Proof.
  intros Hs Hn E. destruct (find_bytes_fits _ _ _ E) as [Hf|]; [|done].
  apply find_bytes_some in E. destruct (decide (length data < i + length separator)%nat) as [|Hle]; [done|].
  destruct (find_bytes_none _ _ Hn i). rewrite drop_app_le in E by lia.
  rewrite take_app_le in E; [done|]. rewrite length_drop. lia.
Qed.

(** The first occurrence in a prefix that contains it. *)
Lemma find_bytes_take separator data i :
  find_bytes separator data = Some i -> find_bytes separator (take (i + length separator) data) = Some i.
Proof.
  revert i. induction data as [|x data IH]; intros i.
  - cbn. case_bool_decide as Hs; intros E; simplify_eq. rewrite take_nil. cbn. by rewrite bool_decide_eq_true_2.
  - cbn [find_bytes]. case_bool_decide as Hs; intros E.
    + simplify_eq. rewrite Nat.add_0_l, Hs. destruct separator as [|y separator]; [done|].
      cbn [find_bytes]. rewrite bool_decide_eq_true_2; [done|]. by rewrite firstn_all.
    + destruct (find_bytes separator data) as [j|] eqn:Ej; simplify_eq/=.
      destruct (decide (take (length separator) (x :: take (j + length separator) data) = separator)) as [Hp|Hp].
      * destruct Hs. destruct separator as [|y separator]; [done|]. cbn in *.
        rewrite take_take in Hp. rewrite Nat.min_l in Hp by lia. done.
      * rewrite bool_decide_eq_false_2 by done. by rewrite (IH j eq_refl).
Qed.

(** ** The bytes that are here *)

Definition answer_of (task : Task.t) : bytes :=
  match Task.outcome task with Some (Ok data) => data | _ => [] end.

(** Everything the crate has answered. *)
Definition answered (s : ReceiveStream.t) : bytes := concat (answer_of <$> tasks s).

(** Everything it has answered that no call has taken. *)
Definition content (s : ReceiveStream.t) : bytes := buffer s ++ unclaimed s.

Definition returned (r : ReceiveStream.t * step) : bytes :=
  match r.2 with Return data => data | _ => [] end.

Definition chunk_sized (chunked : bool) (size : Z) : Prop :=
  chunked = true -> 0 <= size <= READ_CHUNK_SIZE.

Definition for_nothing (task : Task.t) : Prop := Task.max_size task = Some 0.

(** A stream with at most one request for data outstanding, the last one; when [chunked],
    no request was for more than one chunk. *)
Record inv (chunked : bool) (s : ReceiveStream.t) : Prop := {
  inv_current : forall i, read_task s = Some i -> buffer s = [] /\
    exists task, tasks s !! i = Some task /\ ~ for_nothing task /\ Forall for_nothing (drop (S i) (tasks s));
  inv_pending : forall i task, tasks s !! i = Some task -> Task.outcome task = None ->
    read_task s = Some i \/ for_nothing task;
  inv_nothing : forall i task, tasks s !! i = Some task -> for_nothing task -> answer_of task = [];
  inv_content : chunked = true -> len (content s) <= READ_CHUNK_SIZE;
  inv_sizes : chunked = true ->
    Forall (fun task => exists n, Task.max_size task = Some n /\ n <= READ_CHUNK_SIZE) (tasks s);
}.

Lemma inv_new chunked base : inv chunked (ReceiveStream.new base).
Proof. by split. Qed.

(** A step that keeps the invariant and hands out the first of what is here. *)
Record hands_out (chunked : bool) (size : Z) (s : ReceiveStream.t) (r : ReceiveStream.t * step) : Prop := {
  hands_inv : inv chunked r.1;
  hands_content : content s = returned r ++ content r.1;
  hands_answered : answered r.1 = answered s;
  hands_eof : eof s = true -> eof r.1 = true;
  hands_bound : 0 <= size -> len (returned r) <= size;
  hands_end : size <> 0 -> r.2 = Return [] -> eof r.1 = true;
  hands_chunk : chunked = true -> size = READ_CHUNK_SIZE ->
    returned r <> [] -> content r.1 = [];
  hands_task : returned r <> [] -> read_task r.1 = None;
}.

Lemma unclaimed_none s : read_task s = None -> unclaimed s = [].
Proof. unfold unclaimed. by intros ->. Qed.

Lemma buffered_no_task chunked s : inv chunked s -> buffer s <> [] -> read_task s = None.
Proof. intros Hi Hb. destruct (read_task s) as [i|] eqn:E; [|done]. by destruct (inv_current _ _ Hi i E). Qed.

Lemma len_take_le {A} n (l : list A) : 0 <= n -> len (take (Z.to_nat n) l) <= n.
Proof. intros. unfold len. rewrite length_take. lia. Qed.

Lemma drop_all_len {A} n (l : list A) : len l <= n -> drop (Z.to_nat n) l = [].
Proof. intros. apply drop_ge. unfold len in *. lia. Qed.

(** ** Steps of a reader *)

(** The stream once a reader has claimed the task. *)
Lemma inv_claimed chunked s i outcome :
  inv chunked s -> read_task s = Some i -> outcome_of s i = Some outcome ->
  forall rest end', (chunked = true -> len rest <= READ_CHUNK_SIZE) ->
  inv chunked (s <| read_task := None |> <| buffer := rest |> <| eof := end' |>).
Proof.
  intros Hi Er Eo rest end' Hr. pose proof (inv_current _ _ Hi i Er) as [_ (task & Et & _)].
  split; cbn; try done; try apply Hi.
  - intros j task' Ej Hn. destruct (inv_pending _ _ Hi j task' Ej Hn) as [Hc|]; [|by right].
    unfold outcome_of in Eo. rewrite Er in Hc. simplify_eq. rewrite Et in Eo. simplify_eq/=.
  - intros Hc. unfold content, unclaimed. cbn. rewrite app_nil_r. by apply Hr.
Qed.

Lemma unclaimed_done s i outcome :
  read_task s = Some i -> outcome_of s i = Some outcome ->
  unclaimed s = match outcome with Ok data => data | Err _ => [] end.
Proof. unfold unclaimed. intros -> E. cbn. by rewrite E. Qed.

Lemma claim_hands_out chunked size i outcome s :
  inv chunked s -> size <> 0 -> read_task s = Some i -> outcome_of s i = Some outcome ->
  hands_out chunked size s (claim size outcome s).
Proof.
  intros Hi Hz Er Eo. pose proof (inv_current _ _ Hi i Er) as [Eb _].
  pose proof (unclaimed_done _ _ _ Er Eo) as Eu. pose proof (inv_claimed _ _ _ _ Hi Er Eo) as Hc.
  assert (content s = match outcome with Ok data => data | Err _ => [] end) as Ec
    by (unfold content; by rewrite Eb, Eu).
  pose proof (inv_content _ _ Hi) as Hl. rewrite Ec in Hl.
  pose proof (Hc [] (eof s) ltac:(done)) as Hc0. pose proof (Hc [] true ltac:(done)) as Hc1.
  destruct s as [base buf e task ts]. cbn in *. subst buf task.
  unfold claim. destruct outcome as [[|x data]|e']; [|destruct (_ && _) eqn:Es|].
  - by split.
  - apply andb_true_iff in Es as [Es1 Es2]. apply Z.leb_le in Es1. apply Z.ltb_lt in Es2.
    split; cbn -[take drop]; try done.
    + apply (Hc (drop (Z.to_nat size) (x :: data)) e). intros Ht. specialize (Hl Ht).
      unfold len in *. rewrite length_drop. lia.
    + etransitivity; [exact Ec|]. unfold content, unclaimed, returned. cbn -[take drop].
      by rewrite app_nil_r, take_drop.
    + intros _. by apply len_take_le.
    + intros _ E. destruct (Z.to_nat size) eqn:En; [lia|]. done.
    + intros Ht ->. specialize (Hl Ht). lia.
  - split; cbn; try done.
    + etransitivity; [exact Ec|]. unfold content, unclaimed, returned. cbn. by rewrite app_nil_r.
    + intros Hs. apply andb_false_iff in Es as [Es|Es]; [apply Z.leb_gt in Es|apply Z.ltb_ge in Es]; lia.
  - by split.
Qed.

Lemma request_answered s task :
  answered (s <| tasks := tasks s ++ [task] |>) = answered s ++ answer_of task.
Proof.
  change (concat (answer_of <$> tasks s ++ [task]) = answered s ++ answer_of task).
  rewrite fmap_app, concat_app. cbn. by rewrite app_nil_r.
Qed.

(** A step that changes nothing and returns nothing. *)
Lemma stays_hands_out chunked size s r :
  inv chunked s -> r.1 = s -> (forall data, r.2 <> Return data) -> hands_out chunked size s r.
Proof.
  intros Hi E Hn. destruct r as [s' step]. cbn in *. subst s'.
  assert (returned (s, step) = []) as Er by (destruct step; [by edestruct Hn|done|done]).
  split; rewrite ?Er; cbn; try done. by intros _ ?%Hn.
Qed.

Lemma unclaimed_app chunked s task :
  inv chunked s -> unclaimed (s <| tasks := tasks s ++ [task] |>) = unclaimed s.
Proof.
  intros Hi. unfold unclaimed, outcome_of. cbn.
  destruct (read_task s) as [i|] eqn:E; [|done]. destruct (inv_current _ _ Hi i E) as [_ (t & Et & _)].
  cbn. by rewrite (lookup_app_l_Some _ _ _ _ Et), Et.
Qed.

Lemma lookup_snoc {A} (l : list A) x i y :
  (l ++ [x]) !! i = Some y -> l !! i = Some y \/ i = length l /\ y = x.
Proof. rewrite lookup_app_Some, list_lookup_singleton_Some. intros [|[? [? ->]]]; [by left|right]. split; [lia|done]. Qed.

(** A request for nothing changes nothing. *)
Lemma inv_request_nothing chunked s :
  inv chunked s -> inv chunked (s <| tasks := tasks s ++ [Task.mk (Some 0) None] |>).
Proof.
  intros Hi. split; cbn.
  - intros i E. destruct (inv_current _ _ Hi i E) as [Eb (t & Et & Hn & Hf)]. split; [done|].
    exists t. split_and!; [by apply lookup_app_l_Some|done|].
    pose proof (lookup_lt_Some _ _ _ Et). rewrite drop_app_le by lia. apply Forall_app. by repeat constructor.
  - intros i t [Et|[-> ->]]%lookup_snoc Hp; [by apply (inv_pending _ _ Hi i)|by right].
  - intros i t [Et|[-> ->]]%lookup_snoc Hp; [by apply (inv_nothing _ _ Hi i)|done].
  - intros Hc. unfold content. rewrite (unclaimed_app _ _ _ Hi). by apply Hi.
  - intros Hc. apply Forall_app. split; [by apply Hi|]. repeat constructor. by exists 0.
Qed.

(** A request for data, when none is outstanding. *)
Lemma inv_request_data chunked size s :
  inv chunked s -> (chunked = true -> exists n, size = Some n /\ n <= READ_CHUNK_SIZE) -> size <> Some 0 ->
  buffer s = [] -> read_task s = None ->
  inv chunked (s <| tasks := tasks s ++ [Task.mk size None] |> <| read_task := Some (length (tasks s)) |>).
Proof.
  intros Hi Hs Hz Eb Er. split; cbn.
  - intros i [= <-]. split; [done|]. exists (Task.mk size None). rewrite list_lookup_middle by done.
    split_and!; [done|done|]. rewrite drop_ge; [done|]. rewrite length_app. cbn. lia.
  - intros i t [Et|[-> ->]]%lookup_snoc Hp; [|by left].
    destruct (inv_pending _ _ Hi i t Et Hp) as [|]; [congruence|by right].
  - intros i t [Et|[-> ->]]%lookup_snoc Hp; [by apply (inv_nothing _ _ Hi i)|done].
  - intros Hc. unfold content, unclaimed, outcome_of. cbn. by rewrite Eb, list_lookup_middle.
  - intros Hc. apply Forall_app. split; [by apply Hi|]. repeat constructor. by apply Hs.
Qed.

Lemma request_hands_out chunked connection size s :
  inv chunked s -> chunk_sized chunked size -> buffer s = [] -> size = 0 \/ read_task s = None ->
  hands_out chunked size s (request_read connection size s).
Proof.
  intros Hi Hs Eb Hr. unfold request_read.
  destruct (is_closed s); [by apply stays_hands_out|].
  destruct connection; [by apply stays_hands_out|].
  destruct (size =? 0) eqn:Ez; [apply Z.eqb_eq in Ez as ->|apply Z.eqb_neq in Ez].
  - split; cbn; try done; [by apply inv_request_nothing| |].
    + unfold content. by rewrite (unclaimed_app _ _ _ Hi).
    + etransitivity; [apply request_answered|apply app_nil_r].
  - destruct Hr as [|Er]; [done|]. split; cbn -[READ_CHUNK_SIZE]; try done.
    + apply inv_request_data; try done.
      * intros Hc. specialize (Hs Hc). exists size. destruct (Z.leb_spec 0 size); [split; [done|]|]; lia.
      * destruct (0 <=? size); congruence.
    + unfold content, unclaimed, outcome_of. cbn. by rewrite Eb, Er, list_lookup_middle.
    + etransitivity; [apply (request_answered s (Task.mk _ None))|apply app_nil_r].
Qed.

Lemma inv_buffer chunked s rest :
  inv chunked s -> buffer s <> [] -> (chunked = true -> len rest <= READ_CHUNK_SIZE) ->
  inv chunked (s <| buffer := rest |>).
Proof.
  intros Hi Hb Hl. pose proof (buffered_no_task _ _ Hi Hb) as Er. split; cbn; try apply Hi.
  - intros i E. congruence.
  - intros Hc. unfold content, unclaimed. cbn. rewrite Er, app_nil_r. by apply Hl.
Qed.

(** Taking from the buffer. *)
Lemma take_hands_out chunked size s n :
  inv chunked s -> buffer s <> [] -> (0 <= size -> n = Z.to_nat size) ->
  (size < 0 -> n = length (buffer s)) ->
  hands_out chunked size s (s <| buffer := drop n (buffer s) |>, Return (take n (buffer s))).
Proof.
  intros Hi Hb Hn Hm. pose proof (buffered_no_task _ _ Hi Hb) as Er.
  assert (content s = buffer s) as Ec by (unfold content; by rewrite unclaimed_none, app_nil_r).
  assert (content (s <| buffer := drop n (buffer s) |>) = drop n (buffer s)) as Ed
    by (unfold content; by rewrite unclaimed_none, app_nil_r).
  pose proof (inv_content _ _ Hi) as Hl. rewrite Ec in Hl.
  split; cbn [fst snd returned]; try done.
  - apply inv_buffer; [done|done|]. intros Hc. specialize (Hl Hc). unfold len in *. rewrite length_drop. lia.
  - rewrite Ec, Ed. unfold returned. cbn [snd]. by rewrite take_drop.
  - intros H0. rewrite (Hn H0). by apply len_take_le.
  - intros Hz [= E]. exfalso. destruct (buffer s) as [|x data]; [done|].
    destruct n; [|done]. cbn in Hm. lia.
  - intros Hc -> _. rewrite Ed, Hn by done. apply drop_all_len. by apply Hl.
Qed.

Lemma attempt_hands_out chunked connection size s :
  inv chunked s -> chunk_sized chunked size -> hands_out chunked size s (attempt connection size s).
Proof.
  intros Hi Hs. unfold attempt. destruct (buffer s) as [|x data] eqn:Eb.
  - destruct (eof s) eqn:Ee; [by split|].
    destruct (read_task s) as [i|] eqn:Er; [|by apply request_hands_out; [..|right]].
    destruct (Z.eqb_spec size 0) as [->|Hz]; [by apply request_hands_out; [..|left]|].
    destruct (outcome_of s i) eqn:Eo; [by eapply claim_hands_out|by apply stays_hands_out].
  - rewrite <- Eb. assert (buffer s <> []) by by rewrite Eb.
    destruct (Z.ltb_spec size 0) as [Hn|Hn]; [|by apply take_hands_out; [..|lia]].
    pose proof (take_hands_out chunked size s (length (buffer s))) as Ht.
    rewrite firstn_all, drop_all in Ht. apply Ht; [done|done|lia|done].
Qed.

Lemma resume_hands_out chunked connection size i s :
  inv chunked s -> chunk_sized chunked size -> hands_out chunked size s (resume connection size i s).
Proof.
  intros Hi Hs. unfold resume. destruct (outcome_of s i) as [outcome|] eqn:Eo; [|by apply stays_hands_out].
  destruct (Z.eqb_spec size 0) as [->|Hz].
  - destruct outcome; [by split|by apply stays_hands_out].
  - case_bool_decide; [by eapply claim_hands_out|by apply attempt_hands_out].
Qed.

(** ** Calls *)

(** [readline] is [readuntil]. *)
Definition plain (op : Op.t) : Op.t :=
  match op with Op.ReadLine max_size => Op.ReadUntil [Byte.x0a] max_size | op => op end.

(** What a call has taken and not returned yet. *)
Definition held (call : Call.t) : bytes :=
  match call with
  | Call.Read _ => []
  | Call.ReadAll chunks | Call.ReadExactly _ chunks _ => concat chunks
  | Call.ReadUntil _ _ data => data
  end.

(** A call that waits, and the operation it is a call of. *)
Definition frame (chunked : bool) (op : Op.t) (call : Call.t) : Prop :=
  match plain op, call with
  | Op.Read max_size, Call.Read max_size' => max_size' = max_size /\ chunk_sized chunked max_size
  | Op.ReadAll, Call.ReadAll _ => chunked = false
  | Op.ReadExactly size, Call.ReadExactly size' chunks bytes_read =>
      size' = size /\ bytes_read = len (concat chunks) /\ chunk_sized chunked size
      /\ (size = 0 /\ chunks = [] \/ bytes_read < size)
  | Op.ReadUntil separator max_size, Call.ReadUntil separator' max_size' data =>
      separator' = separator /\ max_size' = max_size /\ chunked = true /\ separator <> []
      /\ find_bytes separator data = None
  | _, _ => False
  end.

(** What an operation promises of its result; [ended] is whether the stream has ended. *)
Definition promise (ended : bool) (op : Op.t) (r : result bytes Failure.t) : Prop :=
  match plain op, r with
  | _, Err (Failure.Exception _) => True
  | Op.Read max_size, Ok data =>
      (0 <= max_size -> len data <= max_size) /\ (data = [] -> max_size <> 0 -> ended = true)
  | Op.ReadAll, Ok _ => ended = true
  | Op.ReadExactly size, Ok data => len data = size
  | Op.ReadExactly size, Err (Failure.IncompleteReadError partial expected) =>
      expected = Some size /\ len partial < size /\ ended = true
  | Op.ReadUntil separator max_size, Ok data =>
      (exists line, data = line ++ separator /\ find_bytes separator data = Some (length line))
      /\ (0 <= max_size -> len data <= max_size)
  | Op.ReadUntil separator max_size, Err (Failure.IncompleteReadError partial expected) =>
      expected = None /\ find_bytes separator partial = None /\ ended = true
  | _, _ => False
  end.

Lemma promise_exception ended op e : promise ended op (Err (Failure.Exception e)).
Proof. unfold promise. by destruct (plain op). Qed.

(** The bytes a call has taken from the stream. *)
Definition accounts (turn : turn) (taken : bytes) : Prop :=
  match turn with
  | Waiting call _ => held call = taken
  | Finished (Ok data) => data = taken
  | Finished (Err (Failure.IncompleteReadError partial _)) => partial = taken
  | Finished (Err (Failure.Exception _)) => True
  end.

Definition keeps (chunked ended : bool) (op : Op.t) (turn : turn) : Prop :=
  match turn with
  | Waiting call _ => frame chunked op call
  | Finished r => promise ended op r
  end.

Lemma next_size_ok chunked op call : frame chunked op call -> chunk_sized chunked (next_size call).
Proof.
  unfold frame, chunk_sized. destruct (plain op), call; cbn; try done; try naive_solver.
  - intros (-> & -> & Hs & Hk) Hc. specialize (Hs Hc). pose proof (len_nonneg (concat chunks)).
    destruct Hk as [[-> ->]|Hk]; [exact Hs|lia].
Qed.

(** A call that reads again has got something, and leaves the stream alone. *)
Lemma proceed_again call chunk s s' call' :
  proceed call chunk s = (s', inr call') -> s' = s /\ chunk <> [] /\ held call' = held call ++ chunk.
Proof.
  unfold proceed, proceed_until. destruct call; cbn; intros E.
  - done.
  - destruct chunk as [|x chunk]; simplify_eq/=. split_and!; [done|done|].
    rewrite concat_app. cbn. by rewrite app_nil_r.
  - destruct (size =? 0); [done|]. destruct chunk as [|x chunk]; [done|].
    destruct (_ <? _); simplify_eq. split_and!; [done|done|]. cbn. rewrite concat_app. cbn. by rewrite app_nil_r.
  - destruct chunk as [|x chunk]; [done|]. destruct (find_bytes _ _); destruct (_ && _); by simplify_eq.
Qed.

Lemma proceed_frame chunked op call chunk s s' call' :
  frame chunked op call -> proceed call chunk s = (s', inr call') -> frame chunked op call'.
Proof.
  unfold frame, proceed, proceed_until. intros Hf E.
  destruct (plain op), call; try done; cbn in Hf.
  - destruct chunk as [|x chunk]; by simplify_eq.
  - destruct Hf as (-> & -> & Hs & Hk). destruct (Z.eqb_spec size 0); [done|].
    destruct chunk as [|x chunk]; [done|]. destruct (Z.ltb_spec (len (concat chunks) + len (x :: chunk)) size); [|done].
    injection E as <- <-. split_and!; [done| |done|by right].
    rewrite concat_app, len_app. cbn [concat]. by rewrite app_nil_r.
  - destruct Hf as (-> & -> & Hc & Hn & Hd). destruct chunk as [|x chunk]; [done|].
    destruct (find_bytes _ (_ ++ _)) eqn:Ef; destruct (_ && _); simplify_eq. by split_and!.
Qed.

(** The end of a call: what it took is what it returns. *)
Definition ends_well (op : Op.t) (call : Call.t) (chunk : bytes) (s s' : ReceiveStream.t)
    (r : result bytes Failure.t) : Prop :=
  exists taken, chunk ++ content s = taken ++ content s' /\ accounts (Finished r) (held call ++ taken)
    /\ promise (eof s) op r.

Lemma read_ends_well chunked op max_size s0 s chunk :
  frame chunked op (Call.Read max_size) -> hands_out chunked max_size s0 (s, Return chunk) ->
  ends_well op (Call.Read max_size) chunk s s (Ok chunk).
Proof.
  intros Hf Ho. exists chunk. split_and!; [done|done|]. revert Hf. unfold frame, promise.
  destruct (plain op); try done. intros [-> _]. split; [apply Ho|].
  intros -> Hz. by apply (hands_end _ _ _ _ Ho).
Qed.

Lemma read_all_ends_well chunked op chunks s0 s :
  frame chunked op (Call.ReadAll chunks) -> hands_out chunked (-1) s0 (s, Return []) ->
  ends_well op (Call.ReadAll chunks) [] s s (Ok (concat chunks)).
Proof.
  intros Hf Ho. exists []. split_and!; [done|cbn; by rewrite app_nil_r|].
  revert Hf. unfold frame, promise. destruct (plain op); try done. intros _. by apply (hands_end _ _ _ _ Ho).
Qed.

Lemma readexactly_ends_well chunked op size chunks bytes_read s0 s chunk r :
  let call := Call.ReadExactly size chunks bytes_read in
  frame chunked op call -> hands_out chunked (next_size call) s0 (s, Return chunk) ->
  proceed call chunk s = (s, inl r) -> ends_well op call chunk s s r.
Proof.
  intros call Hf Ho E. revert Hf. unfold frame, ends_well, promise.
  destruct (plain op) as [| |size'| |] eqn:Eo; try done. cbn [call]. intros (<- & -> & Hs & Hk).
  pose proof (hands_bound _ _ _ _ Ho) as Hb. pose proof (hands_end _ _ _ _ Ho) as He. cbn -[len] in Hb, He, E.
  exists chunk. split; [done|]. cbn [held call]. destruct (Z.eqb_spec size 0) as [->|Hz]; cbn -[len] in E.
  - destruct Hk as [[_ ->]|Hk]; [|pose proof (len_nonneg (concat chunks)); lia].
    injection E as <-. rewrite (len_zero_nil chunk); [done|]. pose proof (len_nonneg chunk).
    change (len (concat (A:=byte) [])) with 0 in Hb. lia.
  - destruct Hk as [[]|Hk]; [done|]. destruct chunk as [|x chunk].
    + injection E as <-. cbn. rewrite app_nil_r. split_and!; [done|done|done|]. apply He; [lia|done].
    + destruct (Z.ltb_spec (len (concat chunks) + len (x :: chunk)) size); [done|].
      injection E as <-. rewrite concat_app, len_app. cbn [concat]. rewrite app_nil_r.
      split; [done|]. lia.
Qed.

Lemma content_pushed s data :
  content s = [] -> content (s <| buffer := buffer s ++ data |>) = data.
Proof.
  unfold content. intros [Hb Hu]%app_eq_nil. unfold unclaimed in *. cbn in *.
  rewrite Hb. unfold outcome_of in *. cbn in *. by rewrite Hu, app_nil_r.
Qed.

(** A prefix that ends with the first separator. *)
Lemma found_line separator data i :
  separator <> [] -> find_bytes separator data = Some i ->
  exists line, take (i + length separator) data = line ++ separator
    /\ find_bytes separator (take (i + length separator) data) = Some (length line).
Proof.
  intros Hn Ei. destruct (find_bytes_fits _ _ _ Ei) as [Hf|]; [|done]. exists (take i data).
  rewrite (find_bytes_take _ _ _ Ei), length_take, Nat.min_l by lia. split; [|done].
  rewrite <- take_take_drop. f_equal. by apply find_bytes_some.
Qed.

(** What [readuntil] puts back is the end of the last chunk. *)
Lemma readuntil_ends_well op separator max_size data s0 s s' chunk r :
  let call := Call.ReadUntil separator max_size data in
  frame true op call -> hands_out true READ_CHUNK_SIZE s0 (s, Return chunk) ->
  proceed call chunk s = (s', inl r) -> ends_well op call chunk s s' r.
Proof.
  intros call Hf Ho E. revert Hf. unfold frame, ends_well, promise.
  destruct (plain op) as [| | |separator' max_size'|] eqn:Eo; try done. cbn [call].
  intros (<- & <- & _ & Hn & Hd). cbn [proceed call] in E. unfold proceed_until in E. destruct chunk as [|x chunk].
  { injection E as <- <-. exists []. cbn. rewrite app_nil_r. split_and!; try done.
    by apply (hands_end _ _ _ _ Ho). }
  pose proof (hands_chunk _ _ _ _ Ho eq_refl eq_refl ltac:(done)) as Ec. cbn [fst] in Ec.
  set (chunk' := x :: chunk) in *. destruct (find_bytes separator (data ++ chunk')) as [i|] eqn:Ei.
  - pose proof (find_bytes_grown _ _ _ _ Hn Hd Ei) as Hg. set (stop := (i + length separator)%nat) in *.
    destruct (_ && _) eqn:El; injection E as <- <-; [by exists chunk'|].
    exists (take (stop - length data) chunk'). rewrite (content_pushed _ _ Ec), Ec, app_nil_r.
    rewrite drop_app_ge, take_drop by lia. split; [done|]. cbn [held call accounts].
    rewrite take_app_ge by lia. split; [done|].
    rewrite <- take_app_ge by lia. split; [by apply found_line|].
    intros Hm. apply andb_false_iff in El as [El%Z.leb_gt|El%Z.ltb_ge]; [lia|].
    unfold len. rewrite length_take. lia.
  - destruct (_ && _); [|done]. injection E as <- <-. by exists chunk'.
Qed.

(** A call that ends leaves the stream alone, or puts something back after a read that
    left no task. *)
Lemma proceed_end call chunk s s' r :
  proceed call chunk s = (s', inl r) ->
  s' = s \/ chunk <> [] /\ exists data, s' = s <| buffer := buffer s ++ data |>.
Proof.
  unfold proceed, proceed_until. destruct call; intros E.
  - left. by simplify_eq.
  - left. destruct chunk; by simplify_eq.
  - left. destruct (_ =? _), chunk; try destruct (_ <? _); by simplify_eq.
  - destruct chunk as [|x chunk]; [left; by simplify_eq|].
    destruct (find_bytes _ (_ ++ _)); destruct (_ && _); simplify_eq; [by left| |by left].
    right. split; [done|]. by eexists.
Qed.

Lemma proceed_inv chunked size call chunk s0 s s' r :
  hands_out chunked size s0 (s, Return chunk) -> proceed call chunk s = (s', inl r) ->
  (chunked = true -> len (content s') <= READ_CHUNK_SIZE) ->
  inv chunked s' /\ answered s' = answered s /\ eof s' = eof s.
Proof.
  intros Ho [->|[Hc [data ->]]]%proceed_end Hl; [split; [apply Ho|done]|]. split; [|done].
  pose proof (hands_inv _ _ _ _ Ho) as Hi. pose proof (hands_task _ _ _ _ Ho Hc) as Er. cbn in Hi, Er.
  split; cbn; try apply Hi; [|done]. intros i E. congruence.
Qed.

(** What a turn of a call leaves behind. *)
Record turned (chunked : bool) (op : Op.t) (before : bytes) (s0 s : ReceiveStream.t) (turn : turn)
    (taken : bytes) : Prop := {
  turned_inv : inv chunked s;
  turned_content : content s0 = taken ++ content s;
  turned_accounts : accounts turn (before ++ taken);
  turned_keeps : keeps chunked (eof s) op turn;
  turned_answered : answered s = answered s0;
  turned_eof : eof s0 = true -> eof s = true;
}.

Lemma proceed_ends_well chunked op call s0 s s' chunk r :
  frame chunked op call -> hands_out chunked (next_size call) s0 (s, Return chunk) ->
  proceed call chunk s = (s', inl r) -> ends_well op call chunk s s' r.
Proof.
  intros Hf Ho E. destruct call as [m|chunks|size chunks k|sep m data].
  - cbn in E. simplify_eq. by eapply read_ends_well.
  - cbn in E. destruct chunk; simplify_eq. by eapply read_all_ends_well.
  - assert (s' = s) as ->; [|by eapply readexactly_ends_well].
    cbn in E. destruct (_ =? _), chunk; try destruct (_ <? _); by simplify_eq.
  - assert (chunked = true) as -> by (revert Hf; unfold frame; by destruct (plain op); naive_solver).
    by eapply readuntil_ends_well.
Qed.

Lemma turned_end chunked op call s0 s chunk s' r :
  inv chunked s0 -> frame chunked op call -> hands_out chunked (next_size call) s0 (s, Return chunk) ->
  proceed call chunk s = (s', inl r) -> exists taken, turned chunked op (held call) s0 s' (Finished r) taken.
Proof.
  intros Hi Hf Ho E. destruct (proceed_ends_well _ _ _ _ _ _ _ _ Hf Ho E) as (taken & Et & Ha & Hp).
  pose proof (hands_content _ _ _ _ Ho) as Ec. cbn in Ec. rewrite Et in Ec.
  destruct (proceed_inv _ _ _ _ _ _ _ _ Ho E) as (Hi' & Ean & Ee).
  { intros Hc. pose proof (inv_content _ _ Hi Hc) as Hl. rewrite Ec, len_app in Hl.
    pose proof (len_nonneg taken). lia. }
  exists taken. split; [done|done|done|by rewrite Ee| |].
  - rewrite Ean. apply Ho.
  - rewrite Ee. apply Ho.
Qed.

(** A turn that ends without data: it raises or waits. *)
Lemma turned_stop chunked op call s0 s step turn :
  hands_out chunked (next_size call) s0 (s, step) -> (forall data, step <> Return data) ->
  accounts turn (held call) -> keeps chunked (eof s) op turn ->
  exists taken, turned chunked op (held call) s0 s turn taken.
Proof.
  intros Ho Hn Ha Hk. pose proof (hands_content _ _ _ _ Ho) as Ec. exists [].
  split; [apply Ho| |by rewrite app_nil_r|done|apply Ho|apply Ho].
  cbn in *. destruct step; [by edestruct Hn|done|done].
Qed.

Lemma turned_again chunked op call call' chunk s0 s s' turn taken :
  hands_out chunked (next_size call) s0 (s, Return chunk) -> held call' = held call ++ chunk ->
  turned chunked op (held call') s s' turn taken ->
  turned chunked op (held call) s0 s' turn (chunk ++ taken).
Proof.
  intros Ho Eh [Hi Ec Ha Hk Ea Ee]. pose proof (hands_content _ _ _ _ Ho) as Ec'. cbn in Ec'.
  split; [done| | |done| |].
  - by rewrite Ec', Ec, app_assoc.
  - by rewrite Eh, <- app_assoc in Ha.
  - rewrite Ea. apply Ho.
  - intros H0. apply Ee. by apply (hands_eof _ _ _ _ Ho).
Qed.

Lemma settle_turned fuel chunked op connection : forall call s0 r s turn,
  inv chunked s0 -> frame chunked op call -> hands_out chunked (next_size call) s0 r ->
  settle fuel connection call r = Some (s, turn) ->
  exists taken, turned chunked op (held call) s0 s turn taken.
Proof.
  induction fuel as [|fuel IH]; intros call s0 [s1 [chunk|e|task]] s turn Hi Hf Ho E; cbn in E;
    try (injection E as <- <-; eapply turned_stop; [done|done|done|by apply promise_exception || done]);
    destruct (proceed call chunk s1) as [s2 [r|call']] eqn:Ep; try done;
    try (injection E as <- <-; by eapply turned_end).
  destruct (proceed_again _ _ _ _ _ Ep) as (-> & Hc & Eh). pose proof (proceed_frame _ _ _ _ _ _ _ Hf Ep) as Hf'.
  pose proof (hands_inv _ _ _ _ Ho) as Hi1. cbn in Hi1.
  destruct (IH call' s1 _ s turn Hi1 Hf' (attempt_hands_out _ _ _ _ Hi1 (next_size_ok _ _ _ Hf')) E) as [taken Ht].
  exists (chunk ++ taken). by eapply turned_again.
Qed.

(** Every turn of a call ends. *)
Lemma settle_ends fuel connection : forall call s0 r,
  hands_out false (next_size call) s0 r ->
  returned r = [] \/ (length (content r.1) < fuel)%nat ->
  exists s turn, settle fuel connection call r = Some (s, turn) /\ inv false s.
Proof.
  induction fuel as [|fuel IH]; intros call s0 [s1 [chunk|e|task]] Ho Hr; cbn;
    try (eexists _, _; split; [done|apply Ho]);
    destruct (proceed call chunk s1) as [s2 [r|call']] eqn:Ep;
    try (eexists _, _; split; [done|]; by eapply (proceed_inv false)).
  - destruct (proceed_again _ _ _ _ _ Ep) as (_ & Hc & _). destruct Hr; [done|cbn in *; lia].
  - destruct (proceed_again _ _ _ _ _ Ep) as (-> & Hc & _). destruct Hr as [|Hr]; [done|].
    pose proof (attempt_hands_out false connection (next_size call') s1 (hands_inv _ _ _ _ Ho) ltac:(done)) as Ho'.
    apply (IH _ s1); [done|]. pose proof (hands_content _ _ _ _ Ho') as Ec. cbn [fst] in Hr.
    destruct (returned (attempt connection (next_size call') s1)) as [|x l]; [by left|right].
    rewrite Ec in Hr. rewrite length_app in Hr. cbn in Hr. lia.
Qed.

(** ** Turns *)

(** Calls that do not mix: requests of one chunk at most, or no [readuntil]. *)
Definition allowed (chunked : bool) (op : Op.t) : Prop :=
  match plain op with
  | Op.Read size | Op.ReadExactly size => chunk_sized chunked size
  | Op.ReadAll => chunked = false
  | _ => chunked = true
  end.

Lemma turned_refused chunked op before s e :
  inv chunked s -> turned chunked op before s s (Finished (Err (Failure.Exception e))) [].
Proof. intros Hi. split; try done. by apply promise_exception. Qed.

Lemma enter_turned chunked op connection call s s' turn :
  inv chunked s -> frame chunked op call -> enter connection call s = Some (s', turn) ->
  exists taken, turned chunked op (held call) s s' turn taken.
Proof.
  intros Hi Hf E. eapply settle_turned; [done|done| |exact E].
  apply attempt_hands_out; [done|]. by eapply next_size_ok.
Qed.

Lemma continue_turned chunked op connection call task s s' turn :
  inv chunked s -> frame chunked op call -> continue connection call task s = Some (s', turn) ->
  exists taken, turned chunked op (held call) s s' turn taken.
Proof.
  intros Hi Hf E. eapply settle_turned; [done|done| |exact E].
  apply resume_hands_out; [done|]. by eapply next_size_ok.
Qed.

Lemma readuntil_turned op connection separator max_size s s' turn :
  inv true s -> plain op = Op.ReadUntil separator max_size ->
  readuntil connection separator max_size s = Some (s', turn) ->
  exists taken, turned true op [] s s' turn taken.
Proof.
  intros Hi Eo. unfold readuntil. case_bool_decide as Hn; [intros [= <- <-]; eexists; by apply turned_refused|].
  destruct (_ <? _); [intros [= <- <-]; eexists; by apply turned_refused|].
  destruct connection; [intros [= <- <-]; eexists; by apply turned_refused|].
  apply (enter_turned _ op); [done|]. unfold frame. rewrite Eo. split_and!; try done.
  cbn. rewrite bool_decide_eq_false_2; [done|]. rewrite take_nil. naive_solver.
Qed.

Lemma readexactly_turned chunked connection size s s' turn :
  inv chunked s -> chunk_sized chunked size -> readexactly connection size s = Some (s', turn) ->
  exists taken, turned chunked (Op.ReadExactly size) [] s s' turn taken.
Proof.
  intros Hi Hs. unfold readexactly. destruct (Z.ltb_spec size 0); [intros [= <- <-]; eexists; by apply turned_refused|].
  destruct (Z.eqb_spec size 0) as [->|].
  - apply (enter_turned _ (Op.ReadExactly 0)); [done|]. split_and!; try done. by left.
  - destruct connection; [intros [= <- <-]; eexists; by apply turned_refused|].
    apply (enter_turned _ (Op.ReadExactly size)); [done|]. split_and!; try done. right. lia.
Qed.

Lemma invoke_turned chunked op connection s s' turn :
  inv chunked s -> allowed chunked op -> invoke connection op s = Some (s', turn) ->
  exists taken, turned chunked op [] s s' turn taken.
Proof.
  intros Hi Ha. destruct op as [m| |n|sep m|m]; cbn [invoke].
  - unfold read. destruct (_ <? _); [intros [= <- <-]; eexists; by apply turned_refused|].
    by apply (enter_turned _ (Op.Read m)).
  - by apply (enter_turned _ Op.ReadAll).
  - by apply readexactly_turned.
  - cbn in Ha. subst chunked. by apply readuntil_turned.
  - cbn in Ha. subst chunked. by apply readuntil_turned.
Qed.

(** Every turn ends. *)
Lemma enter_ends connection call s :
  inv false s -> exists s' turn, enter connection call s = Some (s', turn) /\ inv false s'.
Proof. intros Hi. eapply settle_ends; [by apply (attempt_hands_out false)|right; unfold content; lia]. Qed.

Lemma continue_ends connection call task s :
  inv false s -> exists s' turn, continue connection call task s = Some (s', turn) /\ inv false s'.
Proof. intros Hi. eapply settle_ends; [by apply (resume_hands_out false)|right; unfold content; lia]. Qed.

Lemma invoke_ends connection op s :
  inv false s -> exists s' turn, invoke connection op s = Some (s', turn) /\ inv false s'.
Proof.
  intros Hi. pose proof (fun call => enter_ends connection call s Hi) as He.
  destruct op; cbn [invoke]; unfold read, read_all, readexactly, readline, readuntil;
    repeat case_match; first [apply He|eexists _, _; by split].
Qed.

(** ** Answers *)

Definition data_of (outcome : result bytes PyErr) : bytes :=
  match outcome with Ok data => data | Err _ => [] end.

Lemma nothing_answers chunked s l :
  inv chunked s -> l ⊆ tasks s -> Forall for_nothing l -> concat (answer_of <$> l) = [].
Proof.
  intros Hi. induction l as [|task l IH]; intros Hsub Hf; [done|]. apply Forall_cons in Hf as [Ht Hf].
  cbn. rewrite IH; [|set_solver|done]. rewrite app_nil_r.
  destruct (proj1 (list_elem_of_lookup (tasks s) task)) as [i Ei]; [set_solver|]. by eapply inv_nothing.
Qed.

Section Answer.
Context (chunked : bool) (s : ReceiveStream.t) (i : nat) (size : option Z) (outcome : result bytes PyErr).
Hypothesis Hi : inv chunked s.
Hypothesis Ei : tasks s !! i = Some (Task.mk size None).
Hypothesis Hw : within size outcome = true.

Lemma answer_nothing : size = Some 0 -> data_of outcome = [].
Proof using Hw.
  clear Ei. intros E. rewrite E in Hw. destruct outcome as [data|]; [|done]. cbn in *.
  apply Z.leb_le in Hw. apply len_zero_nil. pose proof (len_nonneg data). lia.
Qed.

Lemma answer_tasks : tasks (answer i outcome s) = <[i := Task.mk size (Some outcome)]> (tasks s).
Proof using Ei. cbn. rewrite list_insert_alter. apply list_alter_ext; [|done]. intros x E. by simplify_eq. Qed.

Lemma answer_lookup j task :
  tasks (answer i outcome s) !! j = Some task ->
  j = i /\ task = Task.mk size (Some outcome) \/ j <> i /\ tasks s !! j = Some task.
Proof using Ei. rewrite answer_tasks, list_lookup_insert_Some. naive_solver. Qed.

Lemma answer_outcome k :
  outcome_of (answer i outcome s) k = if decide (i = k) then Some outcome else outcome_of s k.
Proof using Ei.
  unfold outcome_of. rewrite answer_tasks. destruct (decide (i = k)) as [->|Hne].
  - rewrite list_lookup_insert_eq; [done|]. by eapply lookup_lt_Some.
  - by rewrite list_lookup_insert_ne.
Qed.

(** The data goes behind everything that is here. *)
Lemma answer_content : content (answer i outcome s) = content s ++ data_of outcome.
Proof using All.
  unfold content, unclaimed. change (buffer (answer i outcome s)) with (buffer s).
  change (read_task (answer i outcome s)) with (read_task s).
  destruct (inv_pending _ _ Hi i _ Ei eq_refl) as [Er|Hz].
  - destruct (inv_current _ _ Hi i Er) as [-> _]. rewrite Er. cbn. rewrite answer_outcome, decide_True by done.
    unfold outcome_of. rewrite Ei. by destruct outcome.
  - rewrite answer_nothing, app_nil_r by done. f_equal. destruct (read_task s) as [k|] eqn:Er; [|done].
    cbn. rewrite answer_outcome, decide_False; [done|]. intros <-.
    destruct (inv_current _ _ Hi i Er) as [_ (t & Et & Hn & _)]. by simplify_eq.
Qed.

Lemma answer_answered : answered (answer i outcome s) = answered s ++ data_of outcome.
Proof using All.
  unfold answered. rewrite answer_tasks. pose proof (lookup_lt_Some _ _ _ Ei) as Hl.
  rewrite insert_take_drop by done. rewrite <- (take_drop_middle (tasks s) i _ Ei) at 3.
  rewrite !fmap_app, !fmap_cons, !concat_app. cbn [concat answer_of Task.outcome app].
  rewrite <- app_assoc. f_equal.
  destruct (inv_pending _ _ Hi i _ Ei eq_refl) as [Er|Hz].
  - destruct (inv_current _ _ Hi i Er) as [_ (t & Et & _ & Hf)].
    rewrite (nothing_answers chunked s (drop (S i) (tasks s)) Hi); [|by apply subseteq_drop|done].
    cbn. by rewrite app_nil_r.
  - pose proof (answer_nothing Hz) as En. rewrite En, app_nil_r. by destruct outcome; cbn in En; subst.
Qed.

Lemma answer_fits : chunked = true -> len (content s ++ data_of outcome) <= READ_CHUNK_SIZE.
Proof using All.
  intros Hc. destruct (inv_pending _ _ Hi i _ Ei eq_refl) as [Er|Hz].
  - assert (content s = []) as ->.
    { unfold content, unclaimed, outcome_of. destruct (inv_current _ _ Hi i Er) as [-> _]. rewrite Er. cbn. by rewrite Ei. }
    pose proof (inv_sizes _ _ Hi Hc) as Hs. destruct (proj1 (Forall_lookup _ _) Hs i _ Ei) as (n & En & Hn). cbn in En.
    clear Ei. destruct outcome as [data|]; [|done]. rewrite En in Hw. cbn in *. apply Z.leb_le in Hw. lia.
  - rewrite answer_nothing, app_nil_r by done. by apply Hi.
Qed.

Lemma read_answer_inv : inv chunked (answer i outcome s).
Proof using All.
  split.
  - intros k Er. change (read_task s = Some k) in Er. destruct (inv_current _ _ Hi k Er) as [Eb (t & Et & Hn & Hf)].
    split; [done|]. rewrite answer_tasks. destruct (inv_pending _ _ Hi i _ Ei eq_refl) as [Er'|Hz].
    + assert (i = k) as <- by congruence. exists (Task.mk size (Some outcome)).
      rewrite list_lookup_insert_eq by (by eapply lookup_lt_Some). rewrite drop_insert_lt by lia.
      by simplify_eq.
    + assert (i <> k) by (intros <-; by simplify_eq). exists t. rewrite list_lookup_insert_ne by done.
      split_and!; [done|done|]. destruct (decide (i < S k)%nat); [by rewrite drop_insert_lt by lia|].
      rewrite drop_insert_ge by lia. by apply Forall_insert.
  - intros j task [[-> ->]|[Hne Ej]]%answer_lookup Hp; [done|]. by apply (inv_pending _ _ Hi j).
  - intros j task [[-> ->]|[Hne Ej]]%answer_lookup Hp; [|by apply (inv_nothing _ _ Hi j)].
    pose proof (answer_nothing Hp) as En. by destruct outcome.
  - intros Hc. rewrite answer_content. by apply answer_fits.
  - intros Hc. rewrite answer_tasks. apply Forall_insert; [by apply Hi|].
    by apply (proj1 (Forall_lookup _ _) (inv_sizes _ _ Hi Hc) i (Task.mk size None)).
Qed.

End Answer.

(** ** Runs *)

Lemma promise_eof ended ended' op r :
  (ended = true -> ended' = true) -> promise ended op r -> promise ended' op r.
Proof. unfold promise. destruct (plain op), r as [|[]]; naive_solver. Qed.

Lemma keeps_eof chunked ended ended' op turn :
  (ended = true -> ended' = true) -> keeps chunked ended op turn -> keeps chunked ended' op turn.
Proof. destruct turn; [apply promise_eof|done]. Qed.

(** The pieces of the stream, in order, with the calls that took them. *)
Definition mine (c : nat) (pieces : list (nat * bytes)) : bytes :=
  concat (filter (fun piece => piece.1 = c) pieces).*2.

Lemma mine_snoc c pieces d data :
  mine c (pieces ++ [(d, data)]) = mine c pieces ++ (if decide (d = c) then data else []).
Proof.
  unfold mine. rewrite filter_app, fmap_app, concat_app. f_equal.
  rewrite filter_cons. cbn. case_decide; cbn; by rewrite ?app_nil_r.
Qed.

Lemma mine_fresh c pieces : Forall (fun piece => (piece.1 < c)%nat) pieces -> mine c pieces = [].
Proof.
  intros Hf. unfold mine. induction Hf as [|[d data] pieces Hd Hf IH]; [done|].
  rewrite filter_cons. cbn in *. case_decide; [lia|done].
Qed.

(** The stream is cut into pieces, each call has taken its own. *)
Record cut (chunked : bool) (r : Readers.t) (pieces : list (nat * bytes)) : Prop := {
  cut_inv : inv chunked (stream r);
  cut_whole : concat pieces.*2 ++ content (stream r) = answered (stream r);
  cut_callers : Forall (fun piece => (piece.1 < length (calls r))%nat) pieces;
  cut_calls : forall c op turn, calls r !! c = Some (op, turn) ->
    accounts turn (mine c pieces) /\ keeps chunked (eof (stream r)) op turn;
}.

(** A turn of the call [c] cuts off another piece. *)
Lemma cut_turn chunked r pieces c op before s turn taken calls' :
  cut chunked r pieces -> turned chunked op before (stream r) s turn taken -> before = mine c pieces ->
  (c < length calls')%nat -> (length (calls r) <= length calls')%nat ->
  (forall d op' turn', calls' !! d = Some (op', turn') ->
     d = c /\ op' = op /\ turn' = turn \/ d <> c /\ calls r !! d = Some (op', turn')) ->
  cut chunked {| stream := s; calls := calls' |} (pieces ++ [(c, taken)]).
Proof.
  intros [Hi Hw Hc Hk] [Hi' Ec Ha Hk' Ean Ee] -> Hlt Hle Hl. split; cbn [stream calls].
  - done.
  - rewrite fmap_app, concat_app, Ean, <- Hw, Ec. cbn. by rewrite app_nil_r, app_assoc.
  - apply Forall_app. split; [|by repeat constructor]. eapply Forall_impl; [exact Hc|]. cbn. lia.
  - intros d op' turn' [(-> & -> & ->)|[Hne Ed]]%Hl; rewrite mine_snoc.
    + by rewrite decide_True.
    + rewrite decide_False, app_nil_r by done. destruct (Hk d op' turn' Ed) as [Ha' Hk'']. split; [done|].
      by eapply keeps_eof.
Qed.

Definition invoked (a : action) : option Op.t :=
  match a with Invoke _ op => Some op | _ => None end.

Lemma lookup_insert_cases {A} (l : list A) c x d y :
  <[c := x]> l !! d = Some y -> d = c /\ y = x \/ d <> c /\ l !! d = Some y.
Proof. rewrite list_lookup_insert_Some. naive_solver. Qed.

(** A call that is abandoned keeps what it had taken. *)
Lemma cut_abandoned chunked r pieces c op e turn :
  cut chunked r pieces -> calls r !! c = Some (op, turn) ->
  cut chunked {| stream := stream r;
                 calls := <[c := (op, Finished (Err (Failure.Exception e)))]> (calls r) |} pieces.
Proof.
  intros [Hi Hw Hc Hk] Ec. split; cbn [stream calls]; [done|done|by rewrite length_insert|].
  intros d op' turn' [[-> E]|[Hne Ed]]%lookup_insert_cases; [|by apply Hk].
  simplify_eq. split; [done|apply promise_exception].
Qed.

Lemma cut_invoked chunked r pieces con op s turn :
  cut chunked r pieces -> allowed chunked op -> invoke con op (stream r) = Some (s, turn) ->
  exists pieces', cut chunked {| stream := s; calls := calls r ++ [(op, turn)] |} pieces'.
Proof.
  intros Hcut Ha E. pose proof Hcut as [Hi _ Hc _].
  destruct (invoke_turned _ _ _ _ _ _ Hi Ha E) as [taken Ht]. exists (pieces ++ [(length (calls r), taken)]).
  eapply cut_turn; [done|exact Ht|by rewrite mine_fresh|rewrite length_app; cbn; lia..|].
  intros d op' turn' [Ed|[-> Ed]]%lookup_snoc; [|left; by simplify_eq].
  right. split; [|done]. pose proof (lookup_lt_Some _ _ _ Ed). lia.
Qed.

Lemma cut_resumed chunked r pieces con c op call task s turn :
  cut chunked r pieces -> calls r !! c = Some (op, Waiting call task) ->
  continue con call task (stream r) = Some (s, turn) ->
  exists pieces', cut chunked {| stream := s; calls := <[c := (op, turn)]> (calls r) |} pieces'.
Proof.
  intros Hcut Ec E. pose proof Hcut as [Hi _ _ Hk]. destruct (Hk c op _ Ec) as [Ha Hf]. cbn in Ha, Hf.
  destruct (continue_turned _ _ _ _ _ _ _ _ Hi Hf E) as [taken Ht]. exists (pieces ++ [(c, taken)]).
  pose proof (lookup_lt_Some _ _ _ Ec).
  eapply cut_turn; [done|exact Ht|done|rewrite length_insert; lia..|].
  intros d op' turn' [[-> E']|[Hne Ed]]%lookup_insert_cases; [left; by simplify_eq|by right].
Qed.

Lemma cut_answered chunked r pieces task size outcome :
  cut chunked r pieces -> tasks (stream r) !! task = Some (Task.mk size None) -> within size outcome = true ->
  cut chunked {| stream := answer task outcome (stream r); calls := calls r |} pieces.
Proof.
  intros [Hi Hw Hc Hk] Et Hb. split; cbn [stream calls]; [by eapply read_answer_inv| |done|done].
  erewrite answer_content, answer_answered by done. by rewrite app_assoc, Hw.
Qed.

Lemma inv_closed chunked s : inv chunked s -> inv chunked (handle_closed s).
Proof. intros Hi. split; apply Hi. Qed.

Lemma act_cut chunked a r r' pieces :
  (forall op, invoked a = Some op -> allowed chunked op) ->
  cut chunked r pieces -> act a r = Some r' -> exists pieces', cut chunked r' pieces'.
Proof.
  intros Ha Hcut E. destruct a as [con op|con c|c|c|task outcome|]; cbn [act] in E.
  - destruct (invoke con op (stream r)) as [[s turn]|] eqn:Ei; cbn in E; simplify_eq. eapply cut_invoked; eauto.
  - destruct (calls r !! c) as [[op [|call task]]|] eqn:Ec; try done.
    destruct (continue con call task (stream r)) as [[s turn]|] eqn:Ei; cbn in E; simplify_eq.
    by eapply cut_resumed.
  - destruct (calls r !! c) as [[op [|call task]]|] eqn:Ec; simplify_eq/=. eexists. by eapply cut_abandoned.
  - destruct (calls r !! c) as [[op [|call task]]|] eqn:Ec; simplify_eq/=. destruct (has_timeout call); simplify_eq.
    eexists. by eapply cut_abandoned.
  - destruct (tasks (stream r) !! task) as [[size [|]]|] eqn:Et; simplify_eq/=.
    destruct (within size outcome) eqn:Ew; simplify_eq. exists pieces. by eapply cut_answered.
  - simplify_eq. exists pieces. destruct Hcut. split; [by apply inv_closed|done..].
Qed.

Lemma acts_cut chunked actions : forall r r' pieces,
  Forall (fun a => forall op, invoked a = Some op -> allowed chunked op) actions ->
  cut chunked r pieces -> acts actions r = Some r' -> exists pieces', cut chunked r' pieces'.
Proof.
  induction actions as [|a actions IH]; intros r r' pieces Ha Hcut E; cbn in E; [simplify_eq; by eexists|].
  apply Forall_cons in Ha as [Ha Ha']. destruct (act a r) as [r1|] eqn:Ea; simplify_eq/=.
  destruct (act_cut _ _ _ _ _ Ha Hcut Ea) as [pieces1 Hcut1]. by eapply IH.
Qed.

Lemma inv_unchunked chunked s : inv chunked s -> inv false s.
Proof. by intros []. Qed.

(** C8: the bytes of a stream are cut among the calls that read it, whatever the order in
    which calls start, are answered, go on, are cancelled or time out.  Everything the
    crate has answered is, in order, the pieces the calls took and what still waits in
    the stream.  The pieces of one call together are what it returned, or what it
    reported as incomplete; and a call returns what its name says: no more than asked
    for, exactly as much, or a line that ends with the first separator.  No call is
    answered with less unless the stream has ended, and no turn of a call runs forever.
    With [chunked] no call asks for more than [READ_CHUNK_SIZE] bytes at once; without,
    none is [readuntil] or [readline]. *)
Theorem reads_cut_stream chunked base actions r :
  Forall (fun a => forall op, invoked a = Some op -> allowed chunked op) actions ->
  acts actions (Readers.new base) = Some r ->
  (exists pieces,
    answered (stream r) = concat pieces.*2 ++ content (stream r)
    /\ forall c op turn, calls r !! c = Some (op, turn) ->
         accounts turn (mine c pieces)
         /\ match turn with Finished res => promise (eof (stream r)) op res | Waiting _ _ => True end)
  /\ (forall connection op, is_Some (act (Invoke connection op) r))
  /\ (forall connection c op call task, calls r !! c = Some (op, Waiting call task) ->
        is_Some (act (Resume connection c) r)).
Proof.
  intros Ha E. destruct (acts_cut chunked actions (Readers.new base) r []) as [pieces [Hi Hw Hc Hk]]; try done.
  split_and!.
  - exists pieces. split; [done|]. intros c op turn Ec. destruct (Hk c op turn Ec). split; [done|]. by destruct turn.
  - intros con op. cbn [act]. destruct (invoke_ends con op _ (inv_unchunked _ _ Hi)) as (s & turn & -> & _). by eexists.
  - intros con c op call task Ec. cbn [act]. rewrite Ec.
    destruct (continue_ends con call task _ (inv_unchunked _ _ Hi)) as (s & turn & -> & _). by eexists.
Qed.

(** Two calls, the second started while the first waits.  The first is cancelled, and the
    data it asked for goes to the second, which leaves the rest in the stream. *)
Definition example_stream : PyStream.t := PyStream.new 4 0 StreamDirection.ReceiveOnly true.

Definition example_actions : list action :=
  [Invoke None (Op.Read 10); Invoke None (Op.ReadLine (-1)); Cancel 0;
   Answer 0 (Ok (b: "one")); Resume None 1; Answer 1 (Ok [Byte.x0a; Byte.x41]); Resume None 1].

Lemma reads_cut_stream_witness :
  exists r, acts example_actions (Readers.new example_stream) = Some r
    /\ calls r !! 1%nat = Some (Op.ReadLine (-1), Finished (Ok (b: "one" ++ [Byte.x0a])))
    /\ content (stream r) = [Byte.x41]
    /\ exists pieces, answered (stream r) = concat pieces.*2 ++ [Byte.x41]
         /\ mine 1 pieces = b: "one" ++ [Byte.x0a].
Proof.
  eexists. split; [vm_compute; reflexivity|]. split; [reflexivity|]. split; [reflexivity|].
  edestruct (reads_cut_stream true example_stream example_actions) as [(pieces & Ea & Hk) _].
  - repeat constructor; intros op [= <-]; vm_compute; intuition congruence.
  - vm_compute. reflexivity.
  - exists pieces. split; [exact Ea|]. symmetry. exact (proj1 (Hk 1%nat _ _ eq_refl)).
Defined.

(** ** Lines out of order *)

(** A call that asks for much and is abandoned, whose answer comes later. *)
Definition abandoned (size : Z) (data : bytes) : list action :=
  [Invoke None (Op.ReadExactly size); Expire 0; Answer 0 (Ok data)].

Lemma abandoned_acts base data :
  PyStream.is_closed base = false -> 0 < len data ->
  exists turn, acts (abandoned (len data) data) (Readers.new base) = Some {|
    stream := {| base := base; buffer := []; eof := false; read_task := Some 0%nat;
                 tasks := [Task.mk (Some (len data)) (Some (Ok data))] |};
    calls := [(Op.ReadExactly (len data), turn)] |}.
Proof.
  intros Hc Hl. eexists. cbn -[len Z.leb]. unfold readexactly.
  destruct (Z.ltb_spec (len data) 0); [lia|]. destruct (Z.eqb_spec (len data) 0) as [|Hz]; [lia|].
  unfold enter, run, attempt, request_read, is_closed, next_size. cbn -[len Z.leb].
  rewrite Hc, Z.sub_0_r. apply Z.eqb_neq in Hz. rewrite Hz. destruct (Z.leb_spec 0 (len data)); [|lia].
  cbn -[len Z.leb]. rewrite Hz. cbn -[len Z.leb]. rewrite Z.leb_refl. cbn. reflexivity.
Qed.

Lemma chunk_positive : 0 < READ_CHUNK_SIZE.
Proof. done. Qed.

Lemma acts_more actions : forall more r,
  acts (actions ++ more) r = (r' ← acts actions r; acts more r').
Proof. induction actions as [|a actions IH]; intros more r; cbn; [done|]. by destruct (act a r); cbn. Qed.

(** The first chunk of a longer answer; the rest of it waits in the buffer. *)
Lemma attempt_claims size s i data :
  buffer s = [] -> eof s = false -> read_task s = Some i -> outcome_of s i = Some (Ok data) ->
  0 < size < len data ->
  attempt None size s
  = (s <| read_task := None |> <| buffer := drop (Z.to_nat size) data |>, Return (take (Z.to_nat size) data)).
Proof.
  intros Eb Ee Er Eo Hl. unfold attempt. rewrite Eb, Ee, Er, Eo.
  destruct (Z.eqb_spec size 0); [lia|]. unfold claim. destruct data as [|x data]; [exfalso; unfold len in Hl; cbn [length] in Hl; lia|].
  destruct (Z.leb_spec 0 size); [|lia]. destruct (Z.ltb_spec size (len (x :: data))); [|lia]. cbn [andb].
  change (buffer (s <| read_task := None |>)) with (buffer s). by rewrite Eb.
Qed.

Lemma readuntil_claims n s i data separator k :
  n = Z.to_nat READ_CHUNK_SIZE ->
  buffer s = [] -> eof s = false -> read_task s = Some i -> outcome_of s i = Some (Ok data) ->
  READ_CHUNK_SIZE < len data -> separator <> [] -> find_bytes separator (take n data) = Some k ->
  readuntil None separator (-1) s
  = Some (s <| read_task := None |> <| buffer := drop n data ++ drop (k + length separator) (take n data) |>,
          Finished (Ok (take (k + length separator) (take n data)))).
Proof.
  intros Hz Eb Ee Er Eo Hl Hn Ek. unfold readuntil. rewrite bool_decide_eq_false_2 by done.
  replace (-1 <? -1) with false by done. unfold enter. cbn [next_size].
  rewrite (attempt_claims READ_CHUNK_SIZE s i data Eb Ee Er Eo (conj chunk_positive Hl)).
  rewrite <- Hz. clear Hz. unfold run. cbn [settle proceed].
  unfold proceed_until. rewrite app_nil_l, Ek. destruct (take n data) as [|x chunk]; [|done].
  by destruct (find_bytes_fits _ _ _ Ek) as [Hf|]; [destruct separator; cbn in Hf; [|lia]|].
Qed.

(** A read without a limit takes the whole buffer. *)
Lemma read_drains s : buffer s <> [] ->
  read None (-1) s = Some (s <| buffer := [] |>, Finished (Ok (buffer s))).
Proof.
  intros Hb. unfold read. replace (-1 <? -1) with false by done. unfold enter, attempt. cbn [next_size].
  destruct (buffer s) as [|x data]; [done|]. by replace (-1 <? 0) with true by done.
Qed.

Lemma reordered n base data separator k :
  n = Z.to_nat READ_CHUNK_SIZE ->
  PyStream.is_closed base = false -> READ_CHUNK_SIZE < len data -> separator <> [] ->
  find_bytes separator (take n data) = Some k ->
  let stop := (k + length separator)%nat in
  exists r,
    acts (abandoned (len data) data ++ [Invoke None (Op.ReadUntil separator (-1)); Invoke None (Op.Read (-1))])
      (Readers.new base) = Some r
    /\ (snd <$> calls r !! 1%nat) = Some (Finished (Ok (take stop (take n data))))
    /\ (snd <$> calls r !! 2%nat) = Some (Finished (Ok (drop n data ++ drop stop (take n data)))).
Proof.
  intros Hz Hc Hl Hn Ek stop. pose proof chunk_positive as Hp.
  destruct (abandoned_acts base data Hc) as [turn E]; [lia|].
  assert (drop n data <> []) as Hr.
  { intros Hr%(f_equal length). rewrite length_drop, Hz in Hr. unfold len in Hl. cbn [length] in Hr. lia. }
  rewrite acts_more, E. cbn [mbind option_bind acts act invoke stream calls].
  erewrite (readuntil_claims n) by done. clear Hz. cbn [mbind option_bind stream calls app].
  rewrite read_drains; [|cbn; by destruct (drop n data)]. eexists. split; [reflexivity|]. by split.
Qed.

(** C37: [readuntil] reorders a stream.  A call asks for more than a chunk and is abandoned;
    its answer, of more than a chunk, stays for the next one, as it should.  When that is
    [readuntil], and the separator is in the first chunk, the line is returned and the rest
    of the chunk is put behind the rest of the answer, not in front of it: the bytes the
    next call gets are those of the stream in the wrong order. *)
Theorem readuntil_reorders base data separator k :
  PyStream.is_closed base = false -> READ_CHUNK_SIZE < len data -> separator <> [] ->
  find_bytes separator (take (Z.to_nat READ_CHUNK_SIZE) data) = Some k ->
  exists r line chunk rest,
    acts (abandoned (len data) data ++ [Invoke None (Op.ReadUntil separator (-1)); Invoke None (Op.Read (-1))])
      (Readers.new base) = Some r
    /\ data = (line ++ chunk) ++ rest /\ len (line ++ chunk) = READ_CHUNK_SIZE
    /\ length line = (k + length separator)%nat
    /\ (snd <$> calls r !! 1%nat) = Some (Finished (Ok line))
    /\ (snd <$> calls r !! 2%nat) = Some (Finished (Ok (rest ++ chunk))).
Proof.
  intros Hc Hl Hn Ek. pose proof chunk_positive as Hp.
  destruct (reordered _ base data separator k eq_refl Hc Hl Hn Ek) as (r & E & E1 & E2).
  destruct (find_bytes_fits _ _ _ Ek) as [Hf|]; [|done].
  eexists r, _, _, _. split; [exact E|]. rewrite !take_drop. split_and!; [done| | |exact E1|exact E2].
  - unfold len in *. rewrite length_take. lia.
  - rewrite length_take. lia.
Qed.

(** A chunk that begins with a line, and more after it. *)
Definition example_rest : bytes := replicate (Z.to_nat READ_CHUNK_SIZE - 5) Byte.x41.
Definition example_chunk : bytes := b: "line" ++ [Byte.x0a] ++ example_rest.

Lemma example_chunk_length : length example_chunk = Z.to_nat READ_CHUNK_SIZE.
Proof.
  assert (5 <= READ_CHUNK_SIZE) by done. unfold example_chunk, example_rest.
  rewrite !length_app, length_replicate. change (length (b: "line")) with 4%nat. cbn [length]. lia.
Qed.

Lemma readuntil_reorders_witness :
  exists r line chunk rest,
    acts (abandoned (len (example_chunk ++ b: "tail")) (example_chunk ++ b: "tail")
            ++ [Invoke None (Op.ReadUntil [Byte.x0a] (-1)); Invoke None (Op.Read (-1))])
      (Readers.new example_stream) = Some r
    /\ length line = 5%nat
    /\ (snd <$> calls r !! 1%nat) = Some (Finished (Ok line))
    /\ (snd <$> calls r !! 2%nat) = Some (Finished (Ok (rest ++ chunk))).
Proof.
  pose proof chunk_positive as Hp. pose proof example_chunk_length as El.
  destruct (readuntil_reorders example_stream (example_chunk ++ b: "tail") [Byte.x0a] 4)
    as (r & line & chunk & rest & E & _ & _ & H0 & E1 & E2).
  - reflexivity.
  - rewrite len_app. unfold len at 1. rewrite El, Z2Nat.id by lia. change (len (b: "tail")) with 4. lia.
  - done.
  - rewrite <- El, take_app_length. unfold example_chunk. generalize example_rest. reflexivity.
  - exists r, line, chunk, rest. split; [exact E|]. split; [exact H0|]. split; [exact E1|exact E2].
Defined.

End ReadersT.
