(* ===== verification/PyRequests.v ===== *)
(** * Requests of the handles

    The coroutines of [connection.py], [session.py] and [stream.py] that send one request
    to the crate and wait for its answer, and [write_all], which sends several.  Such a
    coroutine is what it does before the [await], and what it makes of the answer.

    The argument [connection] is the exception the properties [session] and [connection]
    raise when the object is gone, or none. *)

From S2P Require Import Prelude.
From S2P Require Import Types.
From S2P Require Import Pyo3.
From S2P Require Import FfiConversion.
From S2P Require Import PyConversion.
From S2P Require Import PyConnection.
From S2P Require Import PyStreamIo.
Import PyObject.

(** What an [await] comes to. *)
Module Outcome.
Inductive t (A : Type) : Type :=
| Value (a : A)
| Raises (e : PyErr)
| TimedOut
| Cancelled.
Arguments Value {A} a.
Arguments Raises {A} e.
Arguments TimedOut {A}.
Arguments Cancelled {A}.

Definition bind {A B} (o : t A) (k : A -> t B) : t B :=
  match o with
  | Value a => k a
  | Raises e => Raises e
  | TimedOut => TimedOut
  | Cancelled => Cancelled
  end.
End Outcome.

Module Request.

(** Before the [await]: it returns, raises, or sends the event made for its request. *)
Inductive start : Type :=
| Returns
| Raises (e : PyErr)
| Sends (event : Z -> UserEvent.t).

(** [on_error] is what the [except] clauses make of an exception, or nothing when they only
    log it; [on_timeout] what they make of [asyncio.TimeoutError]. *)
Record t : Type := mk {
  begin : start;
  on_error : PyErr -> option PyErr;
  on_timeout : option PyErr;
}.

(** Behind the [await], a request that was sent. *)
Definition finish {A} (request : t) (outcome : Outcome.t A) : result (option A) PyErr :=
  match outcome with
  | Outcome.Value a => Ok (Some a)
  | Outcome.Raises e => match on_error request e with Some e => Err e | None => Ok None end
  | Outcome.TimedOut => match on_timeout request with Some e => Err e | None => Ok None end
  | Outcome.Cancelled => Err (PyException.mk (b: "CancelledError") [] None)
  end.

Definition AsyncioTimeoutError : PyErr := PyException.mk (b: "TimeoutError") [] None.

(** The check for a closed handle, and the connection. *)
Definition guarded (closed : bool) (on_closed : start) (connection : option PyErr)
    (event : Z -> UserEvent.t) : start :=
  if closed then on_closed
  else match connection with Some e => Raises e | None => Sends event end.

End Request.

(** The error code a context manager closes with. *)
Definition exit_error_code (exc_value : option PyErr) : option ErrorCode :=
  match exc_value with
  | None => None
  | Some e =>
      Some (if is_a [b: "CancelledError"] e then ERR_APP_CANCELLED
            else default ERR_APP_GENERIC_ERROR (PyException.error_code e))
  end.

(** ** Streams *)

Module StreamRequests.
Import Request.

Definition resolve_failed (s : PyStream.t) : PyErr :=
  py_error (b: "StreamError") (b: "wt_stream resolve failed stream_id=") (PyStream.stream_id s).

(** [except (ConnectionError, StreamError, CancelledError): raise], and [from_cause]. *)
Definition stream_request (message : str) (s : PyStream.t) (begin : start) : t := {|
  begin := begin;
  on_error := fun e => Some (reraise [b: "ConnectionError"; b: "StreamError"] (b: "StreamError")
                               (message ++ decimal_digits 20 (PyStream.stream_id s)) e);
  on_timeout := Some (from_cause (b: "StreamError") (message ++ decimal_digits 20 (PyStream.stream_id s))
                        AsyncioTimeoutError);
|}.

Definition diagnose (connection : option PyErr) (s : PyStream.t) : t :=
  stream_request (b: "wt_stream resolve failed stream_id=") s
    (guarded (PyStream.is_closed s) (Raises (resolve_failed s)) connection
       (fun request_id => UserEvent.UserDiagnoseStream request_id (PyStream.stream_id s))).

Definition stop_receiving (connection : option PyErr) (error_code : Z) (s : PyStream.t) : t :=
  stream_request (b: "wt_stream abort failed stream_id=") s
    (guarded (PyStream.is_closed s) Returns connection
       (fun request_id => UserEvent.UserStopSending request_id (PyStream.stream_id s) error_code)).

Definition reset (connection : option PyErr) (error_code : Z) (s : PyStream.t) : t :=
  stream_request (b: "wt_stream abort failed stream_id=") s
    (guarded (PyStream.is_closed s) Returns connection
       (fun request_id => UserEvent.UserResetStream request_id (PyStream.stream_id s) error_code)).

(** [_ensure_buffer] *)
Definition ensure_buffer (data : PyObject.t) : option PyBuffer.t :=
  match data with
  | PyBytes value => Some (PyBuffer.Bytes value)
  | PyByteArray value => Some (PyBuffer.ByteArray value)
  | PyMemoryView value => Some (PyBuffer.MemoryView value)
  | _ => None
  end.

Definition invalid_data (s : PyStream.t) : PyErr :=
  py_error (b: "StreamError") (b: "wt_stream validate invalid stream_id=") (PyStream.stream_id s).

(** [write], on data that is a buffer and on any object. *)
Definition write_buffer (connection : option PyErr) (data : PyBuffer.t) (end_stream : bool)
    (s : PyStream.t) : t :=
  stream_request (b: "wt_stream send failed stream_id=") s
    (guarded (PyStream.is_closed s) (Raises (resolve_failed s)) connection
       (fun request_id => UserEvent.UserWriteStream request_id (PyStream.stream_id s) data end_stream)).

Definition write (connection : option PyErr) (data : PyObject.t) (end_stream : bool) (s : PyStream.t) : t :=
  match ensure_buffer data with
  | Some data => write_buffer connection data end_stream s
  | None => stream_request (b: "wt_stream send failed stream_id=") s (Raises (invalid_data s))
  end.

(** [close] of the sending part. *)
Definition close_sending (connection : option PyErr) (error_code : option Z) (s : PyStream.t) : t :=
  if PyStream.is_closed s then stream_request (b: "wt_stream send failed stream_id=") s Returns
  else match error_code with
       | Some error_code => reset connection error_code s
       | None => write_buffer connection (PyBuffer.Bytes []) true s
       end.

(** [close] of the receiving part. *)
Definition close_receiving (connection : option PyErr) (error_code : option Z) (s : PyStream.t) : t :=
  stop_receiving connection (default ERR_APP_NO_ERROR error_code) s.

(** ** Writing in chunks *)

(** A slice of a buffer is a buffer of the same type. *)
Definition with_data (buffer : PyBuffer.t) (data : bytes) : PyBuffer.t :=
  match buffer with
  | PyBuffer.Bytes _ => PyBuffer.Bytes data
  | PyBuffer.ByteArray _ => PyBuffer.ByteArray data
  | PyBuffer.MemoryView _ => PyBuffer.MemoryView data
  end.

(** Where [write_all] is: it has ended, or waits for the answer to this request with this
    much left to write.  The data does not change meanwhile. *)
Inductive turn : Type :=
| Finished (r : result () PyErr)
| Waiting (request : t) (event : Z -> UserEvent.t) (rest : option bytes).

(** [await self.write(...)], up to the [await] of the request. *)
Definition await_write (request : t) (rest : option bytes) : turn :=
  match begin request with
  | Returns => Finished (Ok ())
  | Raises e => Finished (Err e)
  | Sends event => Waiting request event rest
  end.

(** An iteration of the loop. *)
Definition write_chunk (connection : option PyErr) (buffer : PyBuffer.t) (rest : bytes)
    (end_stream : bool) (s : PyStream.t) : turn :=
  let chunk := take (Z.to_nat WRITE_CHUNK_SIZE) rest in
  match drop (Z.to_nat WRITE_CHUNK_SIZE) rest with
  | [] => await_write (write_buffer connection (with_data buffer chunk) end_stream s) None
  | rest => await_write (write_buffer connection (with_data buffer chunk) false s) (Some rest)
  end.

Definition write_all (connection : option PyErr) (data : PyObject.t) (end_stream : bool)
    (s : PyStream.t) : turn :=
  match ensure_buffer data with
  | None => Finished (Err (invalid_data s))
  | Some buffer =>
      match PyBuffer.data buffer with
      | [] => await_write (write_buffer connection (PyBuffer.Bytes []) end_stream s) None
      | data => write_chunk connection buffer data end_stream s
      end
  end.

(** Behind the [await]; the stream may have been closed meanwhile. *)
Definition answered (connection : option PyErr) (buffer : PyBuffer.t) (end_stream : bool)
    (s : PyStream.t) (outcome : Outcome.t ()) (t : turn) : turn :=
  match t with
  | Finished r => Finished r
  | Waiting request _ rest =>
      match finish request outcome with
      | Err e => Finished (Err e)
      | Ok _ =>
          match rest with
          | None => Finished (Ok ())
          | Some rest => write_chunk connection buffer rest end_stream s
          end
      end
  end.

End StreamRequests.

(** ** Sessions *)

Module SessionRequests.
Import Request.

Definition session_message (message : str) (s : PySession.t) : str :=
  message ++ decimal_digits 20 (PySession.session_id s).

Definition resolve_failed (s : PySession.t) : PyErr :=
  py_error (b: "SessionError") (b: "wt_session resolve failed session_id=") (PySession.session_id s).

Definition session_request (passed : list str) (message : str) (s : PySession.t) (begin : start) : t := {|
  begin := begin;
  on_error := fun e => Some (reraise passed (b: "SessionError") (session_message message s) e);
  on_timeout := Some (from_cause (b: "SessionError") (session_message message s) AsyncioTimeoutError);
|}.

(** A request on a session that must be open. *)
Definition open_request (passed : list str) (message : str) (connection : option PyErr) (s : PySession.t)
    (event : Z -> UserEvent.t) : t :=
  session_request passed message s
    (guarded (PySession.is_closed s) (Raises (resolve_failed s)) connection event).

Definition usual : list str := [b: "ConnectionError"; b: "SessionError"].

Definition or_dict (headers : option PyHeaders.t) : PyHeaders.t := default (PyHeaders.Dict []) headers.

Definition accept (connection : option PyErr) (headers : option PyHeaders.t) (wt_protocol : option str)
    (s : PySession.t) : t :=
  open_request usual (b: "wt_session open failed session_id=") connection s (fun request_id =>
    UserEvent.UserAcceptSession request_id (PySession.session_id s) (or_dict headers) wt_protocol).

Definition reject (connection : option PyErr) (headers : option PyHeaders.t) (status_code : Z)
    (s : PySession.t) : t :=
  open_request usual (b: "wt_session reject failed session_id=") connection s (fun request_id =>
    UserEvent.UserRejectSession request_id (PySession.session_id s) (or_dict headers) status_code).

(** An exception is logged, never raised. *)
Definition close (connection : option PyErr) (error_code : Z) (reason : option str) (s : PySession.t) : t := {|
  begin := guarded (PySession.is_closed s) Returns connection (fun request_id =>
    UserEvent.UserCloseSession request_id (PySession.session_id s) error_code reason);
  on_error := fun _ => None;
  on_timeout := None;
|}.

Definition diagnose (connection : option PyErr) (s : PySession.t) : t :=
  open_request usual (b: "wt_session resolve failed session_id=") connection s (fun request_id =>
    UserEvent.UserDiagnoseSession request_id (PySession.session_id s)).

Definition export_keying_material (connection : option PyErr) (label : str) (context : PyBuffer.t)
    (length : Z) (s : PySession.t) : t :=
  open_request usual (b: "wt_session resolve failed session_id=") connection s (fun request_id =>
    UserEvent.UserExportKeyingMaterial request_id (PySession.session_id s) label context length).

Definition send_datagram (connection : option PyErr) (data : PyBuffer.t) (s : PySession.t) : t :=
  open_request [b: "ConnectionError"; b: "DatagramError"; b: "SessionError"]
    (b: "wt_session send failed session_id=") connection s (fun request_id =>
    UserEvent.UserSendDatagram request_id (PySession.session_id s) data).

Definition create_stream (connection : option PyErr) (is_unidirectional : bool) (s : PySession.t) : t := {|
  begin := guarded (PySession.is_closed s) (Raises (resolve_failed s)) connection (fun request_id =>
    UserEvent.UserCreateStream request_id (PySession.session_id s) is_unidirectional);
  on_error := fun e => Some (reraise usual (b: "StreamError")
    (session_message (b: "wt_stream create failed session_id=") s) e);
  on_timeout := Some (instantiate_py_exception (b: "TimeoutError")
    (session_message (b: "wt_stream create failed session_id=") s) []);
|}.

Definition class_of (stream : PyStream.t) : str :=
  match PyStream.direction stream with
  | StreamDirection.Bidirectional => b: "WebTransportBidirectionalStream"
  | StreamDirection.ReceiveOnly => b: "WebTransportReceiveStream"
  | StreamDirection.SendOnly => b: "WebTransportSendStream"
  end.

(** The checks of [_create_stream] and of its two callers on the handle they got. *)
Definition created_stream (is_unidirectional : bool) (stream : PyStream.t) : result PyStream.t PyErr :=
  let invalid (expected : str) :=
    Err (py_error (b: "StreamError")
           (b: "wt_stream validate invalid actual=" ++ class_of stream ++ expected ++ b: " stream_id=")
           (PyStream.stream_id stream)) in
  match PyStream.direction stream, is_unidirectional with
  | StreamDirection.ReceiveOnly, _ => invalid []
  | StreamDirection.Bidirectional, false | StreamDirection.SendOnly, true => Ok stream
  | StreamDirection.SendOnly, false => invalid (b: " expected=bidirectional")
  | StreamDirection.Bidirectional, true => invalid (b: " expected=send_only")
  end.

End SessionRequests.

(** ** Connections *)

Module ConnectionRequests.
Import Request.

Definition connection_message (message : str) (c : PyConnection.t) : str :=
  message ++ decimal_digits 20 (PyConnection.handle c).

Definition resolve_failed (c : PyConnection.t) : PyErr :=
  py_error (b: "ConnectionError") (b: "wt_connection resolve failed connection_handle=")
    (PyConnection.handle c).

(** Exceptions and the timeout are logged, never raised. *)
Definition close (error_code : Z) (reason : option str) (c : PyConnection.t) : t := {|
  begin := guarded (PyConnection.is_closed c) Returns None (fun request_id =>
    UserEvent.UserCloseConnection request_id error_code reason);
  on_error := fun _ => None;
  on_timeout := None;
|}.

(** The first request of [close_gracefully]; [close] follows in any case. *)
Definition close_gracefully (c : PyConnection.t) : t := {|
  begin := guarded (PyConnection.is_closed c) Returns None (fun request_id =>
    UserEvent.UserCloseConnectionGracefully request_id);
  on_error := fun _ => None;
  on_timeout := None;
|}.

Definition diagnose (c : PyConnection.t) : t := {|
  begin := guarded (PyConnection.is_closed c) (Raises (resolve_failed c)) None (fun request_id =>
    UserEvent.UserDiagnoseConnection request_id);
  on_error := fun e => Some (reraise [b: "ConnectionError"] (b: "ConnectionError")
    (connection_message (b: "wt_connection resolve failed connection_handle=") c) e);
  on_timeout := Some (from_cause (b: "ConnectionError")
    (connection_message (b: "wt_connection resolve failed connection_handle=") c) AsyncioTimeoutError);
|}.

(** [create_session] and [create_session_optimistic]. *)
Definition create_session (optimistic : bool) (authority path : str) (headers : option PyHeaders.t)
    (wt_available_protocols : option (list str)) (c : PyConnection.t) : t := {|
  begin :=
    if PyConnection.is_client c then
      guarded (PyConnection.is_closed c) (Raises (resolve_failed c)) None (fun request_id =>
        (if optimistic then UserEvent.UserCreateSessionOptimistic else UserEvent.UserCreateSession)
          request_id authority path (SessionRequests.or_dict headers) wt_available_protocols)
    else Raises (instantiate_py_exception (b: "ConnectionError")
                   (b: "wt_connection validate failed actual=False expected=true") []);
  on_error := fun e => Some (reraise [b: "ConnectionError"] (b: "SessionError")
    (connection_message (b: "wt_session create failed connection_handle=") c) e);
  on_timeout := Some (instantiate_py_exception (b: "TimeoutError")
    (connection_message (b: "wt_session create failed connection_handle=") c) []);
|}.

End ConnectionRequests.
