(* ===== verification/PyRequestTheorems.v ===== *)
(** * Requests of the handles: theorems *)

From S2P Require Import Prelude.
From S2P Require Import Types.
From S2P Require Import Pyo3.
From S2P Require Import FfiConversion.
From S2P Require Import PyConversion.
From S2P Require Import PyConnection.
From S2P Require Import PyStreamIo.
From S2P Require Import PyRequests.
Import PyObject.

(** ** Writing in chunks *)

Module WriteT.
Import Request StreamRequests.

(** The data and the end flag of a write. *)
Definition written (event : Z -> UserEvent.t) : option (bytes * bool) :=
  match event 0 with
  | UserEvent.UserWriteStream _ _ data end_stream => Some (PyBuffer.data data, end_stream)
  | _ => None
  end.

(** A run of [write_all]: answers to its requests, each with the stream as it is by then.
    The writes are those that were sent. *)
Fixpoint write_run (connection : option PyErr) (buffer : PyBuffer.t) (end_stream : bool)
    (answers : list (PyStream.t * Outcome.t ())) (t : turn) : list (bytes * bool) * turn :=
  let sent := match t with Waiting _ event _ => option_list (written event) | Finished _ => [] end in
  match answers with
  | [] => (sent, t)
  | (s, outcome) :: rest =>
      let '(writes, t') := write_run connection buffer end_stream rest
                             (answered connection buffer end_stream s outcome t) in
      (match t with Finished _ => writes | Waiting _ _ _ => sent ++ writes end, t')
  end.

(** The writes a call has to send; [remaining] is what comes after them. *)
Definition writes_of (data : bytes) (end_stream : bool) (writes : list (bytes * bool))
    (remaining : option bytes) : Prop :=
  match remaining with
  | None => exists init last, writes = init ++ [(last, end_stream)]
      /\ concat init.*1 ++ last = data /\ Forall (fun w => w.2 = false /\ len w.1 = WRITE_CHUNK_SIZE) init
      /\ len last <= WRITE_CHUNK_SIZE
  | Some rest => concat writes.*1 ++ rest = data
      /\ Forall (fun w => w.2 = false /\ len w.1 = WRITE_CHUNK_SIZE) writes
  end.

Lemma writes_of_cons data end_stream chunk rest writes remaining :
  data = chunk ++ rest -> len chunk = WRITE_CHUNK_SIZE ->
  writes_of rest end_stream writes remaining -> writes_of data end_stream ((chunk, false) :: writes) remaining.
Proof.
  intros -> Hc. destruct remaining as [left|]; cbn.
  - intros (<- & Hf). split_and!; [by rewrite app_assoc|by constructor].
  - intros (init & last & -> & <- & Hf & Hl). exists ((chunk, false) :: init), last.
    split_and!; [done|by rewrite fmap_cons; cbn; rewrite <- app_assoc|by constructor|done].
Qed.

Lemma write_run_finished connection buffer end_stream answers r :
  write_run connection buffer end_stream answers (Finished r) = ([], Finished r).
Proof. induction answers as [|[s o] answers IH]; [done|]. cbn. by rewrite IH. Qed.

(** What a run has sent, and where it is. *)
Definition in_progress (data : bytes) (end_stream : bool) (r : list (bytes * bool) * turn) : Prop :=
  exists remaining, writes_of data end_stream r.1 remaining
    /\ (r.2 = Finished (Ok ()) -> remaining = None)
    /\ (forall request event rest, r.2 = Waiting request event rest -> rest = remaining).

(** A write that is refused at once, or that waits. *)
Lemma await_write_cases connection buffer end_stream s rest :
  (exists e, await_write (write_buffer connection buffer end_stream s) rest = Finished (Err e))
  \/ PyStream.is_closed s = false /\ connection = None
     /\ exists event, await_write (write_buffer connection buffer end_stream s) rest
          = Waiting (write_buffer connection buffer end_stream s) event rest
        /\ written event = Some (PyBuffer.data buffer, end_stream).
Proof.
  unfold await_write, write_buffer, stream_request, guarded. cbn.
  destruct (PyStream.is_closed s); [left; by eexists|].
  destruct connection as [e|]; [left; by eexists|]. right. split_and!; [done|done|]. by eexists.
Qed.

(** The answer to a write: it was good, or the call ends with an exception. *)
Lemma finish_write connection buffer end_stream s outcome :
  outcome = Outcome.Value ()
    /\ finish (write_buffer connection buffer end_stream s) outcome = Ok (Some ())
  \/ outcome <> Outcome.Value ()
    /\ exists e, finish (write_buffer connection buffer end_stream s) outcome = Err e.
Proof. destruct outcome as [[]|e| |]; [left; done|right; (split; [done|]); by eexists..]. Qed.

Lemma with_data_data buffer data : PyBuffer.data (with_data buffer data) = data.
Proof. by destruct buffer. Qed.

(** A run from the [await] of the last write. *)
Lemma run_last connection buffer end_stream answers buffer' s data :
  PyBuffer.data buffer' = data -> len data <= WRITE_CHUNK_SIZE ->
  in_progress data end_stream
    (write_run connection buffer end_stream answers (await_write (write_buffer connection buffer' end_stream s) None)).
Proof.
  intros Hd Hl.
  destruct (await_write_cases connection buffer' end_stream s None) as [[e ->]|(_ & _ & event & -> & Hw)].
  { rewrite write_run_finished. exists (Some data). cbn. split_and!; [done|done|done|done]. }
  assert (writes_of data end_stream [(data, end_stream)] None) as Hall by (exists [], data; by split_and!).
  rewrite Hd in Hw. destruct answers as [|[s' outcome] answers]; cbn; rewrite Hw; cbn.
  - exists None. split_and!; [done|done|]. intros ? ? ? [= _ _ <-]. done.
  - destruct (finish_write connection buffer' end_stream s outcome) as [[_ ->]|[_ [e ->]]];
      rewrite write_run_finished; exists None; by split_and!.
Qed.

(** An iteration writes the rest, or a chunk of it. *)
Lemma write_chunk_cases connection buffer (rest : bytes) end_stream s :
  len rest <= WRITE_CHUNK_SIZE
    /\ write_chunk connection buffer rest end_stream s
       = await_write (write_buffer connection (with_data buffer rest) end_stream s) None
  \/ exists chunk rest', rest = chunk ++ rest' /\ len chunk = WRITE_CHUNK_SIZE /\ rest' <> []
    /\ write_chunk connection buffer rest end_stream s
       = await_write (write_buffer connection (with_data buffer chunk) false s) (Some rest').
Proof.
  unfold write_chunk. assert (0 <= WRITE_CHUNK_SIZE) as Hp by done.
  assert (Z.of_nat (Z.to_nat WRITE_CHUNK_SIZE) = WRITE_CHUNK_SIZE) as Hn by by apply Z2Nat.id.
  revert Hn. generalize (Z.to_nat WRITE_CHUNK_SIZE) as n. intros n Hn. unfold len. rewrite <- Hn.
  pose proof (take_drop n rest) as Et. destruct (drop n rest) as [|x rest'] eqn:Ed.
  - left. assert (length rest <= n)%nat as Hl.
    { apply (f_equal length) in Ed. rewrite length_drop in Ed. cbn [length] in Ed. lia. }
    split; [lia|]. by rewrite take_ge.
  - right. exists (take n rest), (x :: rest'). split_and!; [done| |done|done].
    rewrite length_take_le; [done|]. apply (f_equal length) in Ed. rewrite length_drop in Ed. cbn [length] in Ed. lia.
Qed.

Lemma run_chunks connection buffer end_stream answers : forall rest s,
  in_progress rest end_stream
    (write_run connection buffer end_stream answers (write_chunk connection buffer rest end_stream s)).
Proof.
  induction answers as [|[s' outcome] answers IH]; intros rest s.
  all: destruct (write_chunk_cases connection buffer rest end_stream s)
    as [[Hl ->]|(chunk & rest' & -> & Hc & Hr & ->)]; [by apply run_last; [apply with_data_data|]|].
  all: destruct (await_write_cases connection (with_data buffer chunk) false s (Some rest'))
    as [[e ->]|(_ & _ & event & -> & Hw)];
    [rewrite write_run_finished; exists (Some (chunk ++ rest')); by split_and!|].
  all: rewrite with_data_data in Hw; cbn; rewrite Hw; cbn.
  - exists (Some rest'). split_and!; [|done|by intros ? ? ? [= _ _ <-]].
    split; [cbn; by rewrite app_nil_r|]. by repeat constructor.
  - destruct (finish_write connection (with_data buffer chunk) false s outcome) as [[_ ->]|[_ [e ->]]].
    + destruct (IH rest' s') as (remaining & Hw' & H2 & H3).
      destruct (write_run _ _ _ _ (write_chunk _ _ _ _ _)) as [writes t']. exists remaining.
      split_and!; [|done|done]. by eapply writes_of_cons.
    + rewrite write_run_finished. exists (Some rest'). split_and!; [|done|done].
      split; [cbn; by rewrite app_nil_r|]. by repeat constructor.
Qed.

(** Good answers on a stream that stays open. *)
Definition good (answers : list (PyStream.t * Outcome.t ())) : Prop :=
  Forall (fun a => PyStream.is_closed a.1 = false /\ a.2 = Outcome.Value ()) answers.

Lemma run_last_ends buffer end_stream answers buffer' s :
  PyStream.is_closed s = false -> good answers -> answers <> [] ->
  (write_run None buffer end_stream answers (await_write (write_buffer None buffer' end_stream s) None)).2
  = Finished (Ok ()).
Proof.
  intros Hs Hg Hne. destruct answers as [|[s' outcome] answers]; [done|]. apply Forall_cons in Hg as [[_ Ho] _]. cbn in Ho.
  destruct (await_write_cases None buffer' end_stream s None) as [[e E]|(_ & _ & event & -> & _)].
  { unfold await_write, write_buffer, stream_request, guarded in E. cbn in E. by rewrite Hs in E. }
  cbn. rewrite Ho. cbn. by rewrite write_run_finished.
Qed.

Lemma run_ends buffer end_stream answers : forall rest s,
  PyStream.is_closed s = false -> good answers -> answers <> [] -> len rest <= len answers * WRITE_CHUNK_SIZE ->
  (write_run None buffer end_stream answers (write_chunk None buffer rest end_stream s)).2 = Finished (Ok ()).
Proof.
  induction answers as [|[s' outcome] answers IH]; intros rest s Hs Hg Hne Hl; [done|].
  destruct (write_chunk_cases None buffer rest end_stream s) as [[_ ->]|(chunk & rest' & -> & Hc & Hr & ->)];
    [by apply run_last_ends|].
  pose proof Hg as [[Hs' Ho] Hg']%Forall_cons. cbn in Hs', Ho.
  destruct (await_write_cases None (with_data buffer chunk) false s (Some rest')) as [[e E]|(_ & _ & event & -> & _)].
  { unfold await_write, write_buffer, stream_request, guarded in E. cbn in E. by rewrite Hs in E. }
  rewrite len_app, len_cons, Hc in Hl. cbn [write_run answered]. rewrite Ho. cbn [finish].
  specialize (IH rest' s' Hs' Hg'). destruct (write_run _ _ _ answers _) as [writes t']. cbn in *. apply IH; [|lia].
  intros ->. pose proof (len_nonneg rest'). change (len []) with 0 in Hl. destruct rest'; [done|]. rewrite len_cons in Hl.
  pose proof (len_nonneg rest'). lia.
Qed.

(** C30: [write_all] writes everything, in order, once.  Whatever the answers to its writes,
    and whenever the stream is closed, the writes it has sent are full chunks of the data
    from the front, none of which ends the stream, and what is left follows; the last one
    carries the rest and ends the stream if it was told to.  It returns only when the last
    write was sent and answered, and it does return once every chunk got a good answer. *)
Theorem write_all_sends_all connection object buffer end_stream answers s :
  ensure_buffer object = Some buffer ->
  let data := PyBuffer.data buffer in
  let r := write_run connection buffer end_stream answers (write_all connection object end_stream s) in
  in_progress data end_stream r
  /\ (connection = None -> PyStream.is_closed s = false -> good answers -> answers <> [] ->
      len data <= len answers * WRITE_CHUNK_SIZE -> r.2 = Finished (Ok ())).
Proof.
  intros Eb data r. unfold r, write_all. rewrite Eb. fold data.
  destruct data as [|x data'].
  - split; [by apply run_last|]. intros -> Hs Hg Hne _. by apply run_last_ends.
  - split; [apply run_chunks|]. intros -> Hs Hg Hne Hl. by apply run_ends.
Qed.

Lemma write_all_sends_all_witness :
  let s := PyStream.new 4 0 StreamDirection.SendOnly false in
  let r := write_run None (PyBuffer.Bytes (b: "hello")) true [(s, Outcome.Value ())]
             (write_all None (PyBytes (b: "hello")) true s) in
  r.1 = [(b: "hello", true)] /\ r.2 = Finished (Ok ()).
Proof.
  intros s r. split; [reflexivity|].
  apply (write_all_sends_all None (PyBytes (b: "hello")) (PyBuffer.Bytes (b: "hello")) true
           [(s, Outcome.Value ())] s eq_refl); [done|done|by repeat constructor|done|vm_compute; congruence].
Defined.

End WriteT.

(** ** Errors *)

Module RequestT.
Import Request.

(** Every request of a handle, and whether the handle is closed. *)
Inductive handle_request : bool -> t -> Prop :=
| of_stream s r :
    (exists connection, r = StreamRequests.diagnose connection s)
    \/ (exists connection code, r = StreamRequests.stop_receiving connection code s)
    \/ (exists connection code, r = StreamRequests.reset connection code s)
    \/ (exists connection data end_stream, r = StreamRequests.write connection data end_stream s)
    \/ (exists connection code, r = StreamRequests.close_sending connection code s)
    \/ (exists connection code, r = StreamRequests.close_receiving connection code s) ->
    handle_request (PyStream.is_closed s) r
| of_session s r :
    (exists connection headers protocol, r = SessionRequests.accept connection headers protocol s)
    \/ (exists connection headers status, r = SessionRequests.reject connection headers status s)
    \/ (exists connection code reason, r = SessionRequests.close connection code reason s)
    \/ (exists connection, r = SessionRequests.diagnose connection s)
    \/ (exists connection label context length,
          r = SessionRequests.export_keying_material connection label context length s)
    \/ (exists connection data, r = SessionRequests.send_datagram connection data s)
    \/ (exists connection uni, r = SessionRequests.create_stream connection uni s) ->
    handle_request (PySession.is_closed s) r
| of_connection c r :
    (exists code reason, r = ConnectionRequests.close code reason c)
    \/ r = ConnectionRequests.close_gracefully c
    \/ r = ConnectionRequests.diagnose c
    \/ (exists optimistic authority path headers protocols,
          r = ConnectionRequests.create_session optimistic authority path headers protocols c) ->
    handle_request (PyConnection.is_closed c) r.

(** The error code is that of the cause, or the default of the class. *)
Definition keeps_code (e e' : PyErr) : Prop :=
  e' = e \/
  PyException.error_code e' = Some (default (default_error_code (PyException.class e')) (PyException.error_code e)).

Lemma reraise_keeps_code passed class_name message e : keeps_code e (reraise passed class_name message e).
Proof.
  unfold reraise, keeps_code. destruct (is_a passed e); [by left|right].
  unfold from_cause, instantiate_py_exception, make_kwargs. by destruct (PyException.error_code e).
Qed.

Ltac split_requests :=
  repeat match goal with
         | H : _ \/ _ |- _ => destruct H as [H|H]
         | H : exists _, _ |- _ => destruct H as [? H]
         end; subst.

Definition reports (closed : bool) (r : t) : Prop :=
  (closed = true -> forall event, begin r <> Sends event)
  /\ forall e e', on_error r e = Some e' -> keeps_code e e'.

Lemma stream_reports closed message s start :
  (closed = true -> forall event, start <> Sends event) ->
  reports closed (StreamRequests.stream_request message s start).
Proof.
  intros Hs. split; [exact Hs|]. intros e e'. unfold StreamRequests.stream_request. cbn [on_error].
  intros E%(inj Some). rewrite <- E. apply reraise_keeps_code.
Qed.

Lemma session_reports closed passed message s start :
  (closed = true -> forall event, start <> Sends event) ->
  reports closed (SessionRequests.session_request passed message s start).
Proof. intros Hs. split; [exact Hs|]. intros e e' [= <-]. apply reraise_keeps_code. Qed.

Lemma closed_sends_nothing closed start connection event :
  (forall event, start <> Sends event) ->
  closed = true -> forall event', guarded closed start connection event <> Sends event'.
Proof. intros Hn -> event'. apply Hn. Qed.

Lemma write_reports connection data end_stream s :
  reports (PyStream.is_closed s) (StreamRequests.write connection data end_stream s).
Proof.
  unfold StreamRequests.write. destruct (StreamRequests.ensure_buffer data);
    apply stream_reports; [by apply closed_sends_nothing|done].
Qed.

Lemma close_sending_reports connection code s :
  reports (PyStream.is_closed s) (StreamRequests.close_sending connection code s).
Proof.
  unfold StreamRequests.close_sending. destruct (PyStream.is_closed s) eqn:E; [by apply stream_reports|].
  destruct code; apply stream_reports; rewrite E; done.
Qed.

(** A closed handle sends nothing, and an answer that is an error keeps its error code on
    the way to the user: it is raised as it is, or as the cause of an exception with the
    same code. *)
Theorem requests_report_errors closed r : handle_request closed r -> reports closed r.
Proof.
  intros Hr. destruct Hr as [s r Hs|s r Hs|c r Hs]; split_requests.
  1-3,6: apply stream_reports; by apply closed_sends_nothing.
  1: apply write_reports.
  1: apply close_sending_reports.
  1,2,4-6: apply session_reports; by apply closed_sends_nothing.
  1-6: split; [|intros e e' [= <-]; apply reraise_keeps_code || done].
  all: cbn [begin]; try (by apply closed_sends_nothing).
  cbn. destruct (PyConnection.is_client c); [by apply closed_sends_nothing|done].
Qed.

End RequestT.
