(* ===== verification/PyClient.v ===== *)
(** * The client of the package

    [pywebtransport/client.py]: the headers and the target of a request, the addresses of a
    host, the race of connection attempts over them, and [_establish_connection], which
    puts them together.  The coroutine of the race is cut at its [await]s. *)

From S2P Require Import Prelude.
From S2P Require Import Types.
From S2P Require Import Pyo3.
From S2P Require Import FfiConversion.
From S2P Require Import PyConversion.
From S2P Require Import PyConnection.
From S2P Require Import PyStreamIo.
From S2P Require Import PyRequests.

(** [str.lower], and that it is what it should be on ASCII. *)
Class PyUnicode := { str_lower : str -> str }.

Definition is_ascii (s : str) : bool := forallb (fun byte => byte_val byte <? 128) s.

Class PyUnicodeLaws `{PyUnicode} := {
  str_lower_ascii : forall s, is_ascii s = true -> str_lower s = to_ascii_lowercase <$> s;
}.

(** ** Headers *)

#[export] Instance py_text_eq_dec : EqDecision PyText.t.
Proof. solve_decision. Defined.

Module ClientHeaders.
Section Unicode.
Context `{PyUnicode}.

(** [dict[key] = value]: a key that is there keeps its place. *)
Fixpoint dict_set (key value : PyText.t) (items : list (PyText.t * PyText.t))
    : list (PyText.t * PyText.t) :=
  match items with
  | [] => [(key, value)]
  | (k, v) :: rest => if bool_decide (k = key) then (k, value) :: rest else (k, v) :: dict_set key value rest
  end.

Definition dict_update (items update : list (PyText.t * PyText.t)) : list (PyText.t * PyText.t) :=
  fold_left (fun items '(key, value) => dict_set key value items) update items.

(** [_merge_headers] with an update; without one it copies. *)
Definition merge_headers (base update : PyHeaders.t) : PyHeaders.t :=
  match base, update with
  | PyHeaders.Dict base, PyHeaders.Dict update => PyHeaders.Dict (dict_update base update)
  | _, _ => PyHeaders.Items (PyHeaders.items base ++ PyHeaders.items update)
  end.

Definition lower (key : PyText.t) : PyText.t :=
  match key with
  | PyText.Str value => PyText.Str (str_lower value)
  | PyText.Bytes value => PyText.Bytes (to_ascii_lowercase <$> value)
  end.

Definition normalize_headers (headers : PyHeaders.t) : PyHeaders.t :=
  match headers with
  | PyHeaders.Dict items => PyHeaders.Dict (dict_update [] ((fun '(k, v) => (lower k, v)) <$> items))
  | PyHeaders.Items items => PyHeaders.Items ((fun '(k, v) => (lower k, v)) <$> items)
  end.

Definition user_agent_key : PyText.t := PyText.Str (b: "user-agent").

Definition has_user_agent (headers : PyHeaders.t) : bool :=
  existsb (fun item => bool_decide (item.1 = user_agent_key)) (PyHeaders.items headers).

(** [normalized_headers["user-agent"] = ...], or [append]. *)
Definition add_user_agent (user_agent : str) (headers : PyHeaders.t) : PyHeaders.t :=
  match headers with
  | PyHeaders.Dict items => PyHeaders.Dict (dict_set user_agent_key (PyText.Str user_agent) items)
  | PyHeaders.Items items => PyHeaders.Items (items ++ [(user_agent_key, PyText.Str user_agent)])
  end.

(** The headers of a request: those of the configuration, the defaults of the client and
    those of the call.  [headers or []] makes a list of an empty dictionary. *)
Definition or_list (headers : option PyHeaders.t) : PyHeaders.t :=
  match headers with
  | Some headers => if bool_decide (PyHeaders.items headers = []) then PyHeaders.Items [] else headers
  | None => PyHeaders.Items []
  end.

Definition request_headers (config : option PyHeaders.t) (defaults : PyHeaders.t)
    (headers : option PyHeaders.t) (user_agent : str) : PyHeaders.t :=
  let base_headers := merge_headers (or_list config) defaults in
  let final_headers := merge_headers base_headers (or_list headers) in
  let normalized_headers := normalize_headers final_headers in
  if has_user_agent normalized_headers then normalized_headers
  else add_user_agent user_agent normalized_headers.

End Unicode.
End ClientHeaders.

(** ** The target *)

(** What [urllib.parse.urlparse] makes of a URL; reading [port] can raise. *)
Module ParsedUrl.
Record t : Type := mk {
  scheme : str;
  netloc : str;
  path : str;
  params : str;
  query : str;
  hostname : option str;
  port : result (option Z) PyErr;
}.
End ParsedUrl.

Module ConnectionTarget.
Record t : Set := mk { authority : str; host : str; path : str; port : Z }.
End ConnectionTarget.

(** What is behind the last [@]: [netloc.split("@")[-1]]. *)
Fixpoint after_last_at (s : str) : str :=
  match s with
  | [] => []
  | byte :: rest =>
      if bool_decide (Byte.x40 ∈ rest) then after_last_at rest
      else if bool_decide (byte = Byte.x40) then rest else s
  end.

Definition parse_webtransport_url (url : str) (parsed : result ParsedUrl.t PyErr)
    : result ConnectionTarget.t PyErr :=
  match (let? parsed := parsed in let? port := ParsedUrl.port parsed in Ok (parsed, default 443 port)) with
  | Err e => Err (from_cause (b: "ClientError") (b: "wt_url validate invalid actual=" ++ url) e)
  | Ok (parsed, port) =>
      if negb (bool_decide (ParsedUrl.scheme parsed = b: "https")) then
        Err (instantiate_py_exception (b: "ClientError")
               (b: "wt_url validate invalid actual=" ++ ParsedUrl.scheme parsed ++ b: " expected=https") [])
      else
        match ParsedUrl.hostname parsed with
        | Some (byte :: host) =>
            let path := if bool_decide (ParsedUrl.path parsed = []) then b: "/" else ParsedUrl.path parsed in
            let path := if bool_decide (ParsedUrl.query parsed = []) then path
                        else path ++ b: "?" ++ ParsedUrl.query parsed in
            Ok (ConnectionTarget.mk (after_last_at (ParsedUrl.netloc parsed)) (byte :: host) path port)
        | _ => Err (instantiate_py_exception (b: "ClientError") (b: "wt_url validate invalid") [])
        end
  end.

(** [_resolve_host] behind [getaddrinfo]: every address once. *)
Definition unique_ips (ips : list str) : list str :=
  fold_left (fun resolved ip => if bool_decide (ip ∈ resolved) then resolved else resolved ++ [ip]) ips [].

Definition resolve_host (host : str) (is_ip_address : bool) (results : result (list str) PyErr)
    : result (list str) PyErr :=
  let failed := Err (instantiate_py_exception (b: "ConnectionError") (b: "sys resolve failed actual=" ++ host) []) in
  if is_ip_address then Ok [host]
  else match results with
       | Ok [] | Err _ => failed
       | Ok ips => Ok (unique_ips ips)
       end.

(** ** The race *)

(** A task that runs [attempt]. *)
Module Attempt.
Inductive t : Set :=
| Pending
| Connected (connection : Z)
| Failed (e : PyErr)
| Cancelled.

Definition done (a : t) : bool := match a with Pending => false | _ => true end.
End Attempt.

Module Race.

(** Where the coroutine waits: in the loop over the addresses, behind the attempt with
    this index, or in the loop after it; or what it ended with. *)
Inductive phase : Type :=
| Starting (index : nat)
| Draining
| Ended (r : result Z PyErr).

(** [attempts] are the tasks that were created; [tasks] are the numbers of those the
    coroutine still looks at, [watched] of those that got [on_attempt_done].  A connection
    in [discarded] is being closed. *)
Record t : Type := mk {
  addresses : list str;
  attempts : list Attempt.t;
  tasks : list nat;
  winner : option Z;
  last_error : option PyErr;
  discarded : list Z;
  watched : list nat;
  at_phase : phase;
}.

#[global] Instance eta_race : Eta t := fun r =>
  mk (addresses r) (attempts r) (tasks r) (winner r) (last_error r) (discarded r) (watched r) (at_phase r).
#[global] Instance set_attempts : Setter attempts := ltac:(build_setter).
#[global] Instance set_race_tasks : Setter tasks := ltac:(build_setter).
#[global] Instance set_winner : Setter winner := ltac:(build_setter).
#[global] Instance set_last_error : Setter last_error := ltac:(build_setter).
#[global] Instance set_discarded : Setter discarded := ltac:(build_setter).
#[global] Instance set_watched : Setter watched := ltac:(build_setter).
#[global] Instance set_at_phase : Setter at_phase := ltac:(build_setter).

Definition attempt_of (r : t) (task : nat) : Attempt.t := default Attempt.Pending (attempts r !! task).

Definition discard (connection : Z) (r : t) : t := r <| discarded := discarded r ++ [connection] |>.

(** The body of the loop of [collect]. *)
Definition collect_task (r : t) (task : nat) : t :=
  match attempt_of r task with
  | Attempt.Connected connection =>
      match winner r with
      | None => r <| winner := Some connection |>
      | Some _ => discard connection r
      end
  | Attempt.Failed e => match winner r with None => r <| last_error := Some e |> | Some _ => r end
  | Attempt.Pending | Attempt.Cancelled => r
  end.

(** The set [done] is iterated in any order. *)
Definition collect (done : list nat) (r : t) : t := fold_left collect_task done r.

(** What the coroutine ends with, and [finally]. *)
Definition finish (result : Prelude.result Z PyErr) (r : t) : t :=
  r <| watched := tasks r |> <| tasks := [] |> <| at_phase := Ended result |>.

Definition outcome (host : str) (r : t) : Prelude.result Z PyErr :=
  let message := b: "wt_connection open failed actual=" ++ host in
  match winner r, last_error r with
  | Some connection, _ => Ok connection
  | None, Some e => Err (from_cause (b: "ConnectionError") message e)
  | None, None => Err (instantiate_py_exception (b: "ConnectionError") message [])
  end.

(** The second loop, up to its [await]. *)
Definition drain (host : str) (r : t) : t :=
  match tasks r, winner r with
  | _ :: _, None => r <| at_phase := Draining |>
  | _, _ => finish (outcome host r) r
  end.

(** The first loop from an index on, up to its [await]. *)
Definition start_attempt (host : str) (index : nat) (r : t) : t :=
  if bool_decide (index < length (addresses r))%nat then
    r <| attempts := attempts r ++ [Attempt.Pending] |>
      <| tasks := tasks r ++ [length (attempts r)] |> <| at_phase := Starting index |>
  else drain host r.

Definition start (host : str) (addresses : list str) : t :=
  start_attempt host 0 {| addresses := addresses; attempts := []; tasks := []; winner := None;
    last_error := None; discarded := []; watched := []; at_phase := Draining |}.

(** [asyncio.wait] returned: [done] are the tasks that are done, in the order in which
    they are iterated. *)
Definition wake (host : str) (done : list nat) (r : t) : t :=
  let pending := List.filter (fun task => negb (Attempt.done (attempt_of r task))) (tasks r) in
  let r := collect done (r <| tasks := pending |>) in
  match at_phase r, winner r with
  | Starting index, None => start_attempt host (S index) r
  | _, _ => drain host r
  end.

(** [asyncio.wait] returns when a task is done, or when the delay is over: there is one
    unless this was the last address. *)
Definition can_wake (r : t) : bool :=
  match at_phase r with
  | Starting index =>
      existsb (fun task => Attempt.done (attempt_of r task)) (tasks r)
      || bool_decide (S index < length (addresses r))%nat
  | Draining => existsb (fun task => Attempt.done (attempt_of r task)) (tasks r)
  | Ended _ => false
  end.

Definition on_attempt_done (task : nat) (r : t) : t :=
  let r := r <| watched := List.filter (fun other => negb (other =? task)%nat) (watched r) |> in
  match attempt_of r task with
  | Attempt.Connected connection => discard connection r
  | _ => r
  end.

Definition CancelledError : PyErr := PyException.mk (b: "CancelledError") [] None.

(** What can happen: an attempt ends, the coroutine goes on or is cancelled, the callback
    of a task that is done runs, [_close] of the client cancels a task it still has.  The
    number is how often the coroutine went on. *)
Inductive step (host : str) : nat -> t -> t -> Prop :=
| step_end r task a :
    attempts r !! task = Some Attempt.Pending ->
    (exists connection, a = Attempt.Connected connection) \/ (exists e, a = Attempt.Failed e) ->
    step host 0 r (r <| attempts := <[task := a]> (attempts r) |>)
| step_wake r done :
    can_wake r = true ->
    Permutation done (List.filter (fun task => Attempt.done (attempt_of r task)) (tasks r)) ->
    step host 1 r (wake host done r)
| step_cancel r :
    (forall result, at_phase r <> Ended result) ->
    step host 0 r (finish (Err CancelledError) r)
| step_callback r task :
    task ∈ watched r -> Attempt.done (attempt_of r task) = true ->
    step host 0 r (on_attempt_done task r)
| step_close r task :
    task ∈ watched r -> attempts r !! task = Some Attempt.Pending ->
    step host 0 r (r <| attempts := <[task := Attempt.Cancelled]> (attempts r) |>).

Inductive run (host : str) (addresses : list str) : nat -> t -> Prop :=
| run_start : run host addresses 0 (start host addresses)
| run_step n k r r' : run host addresses n r -> step host k r r' -> run host addresses (n + k) r'.

End Race.

(** ** Establishing a session *)

Module Establish.
Import Outcome.

(** The [except] clauses; [connected] is whether there is a connection already. *)
Definition failure {A} (host : str) (connected : bool) (o : Outcome.t A) : result A PyErr :=
  let actual := b: " actual=" ++ host in
  match o with
  | Value a => Ok a
  | TimedOut =>
      Err (instantiate_py_exception (b: "TimeoutError")
             ((if connected then b: "wt_session open failed" else b: "wt_connection open failed") ++ actual) [])
  | Raises e =>
      if is_a [b: "ConnectionRefusedError"] e then
        Err (from_cause (b: "ConnectionError") (b: "wt_connection open failed" ++ actual) e)
      else if bool_decide (find_bytes (b: "certificate verify failed") (PyException.message e) <> None) then
        Err (from_cause (b: "ConnectionError") (b: "wt_connection validate failed" ++ actual) e)
      else Err (from_cause (b: "ClientError") (b: "wt_connection open failed" ++ actual) e)
  | Cancelled => Err Race.CancelledError
  end.

(** [_establish_connection], by what its [await]s come to: starting the controller if
    there is none yet, the addresses, the race, and the session on the connection that
    won.  Also the connection it closes before it ends, if it closes one. *)
Definition establish_connection (closed : bool) (target : result ConnectionTarget.t PyErr)
    (started : Outcome.t ()) (resolved : Outcome.t (list str)) (raced : list str -> Outcome.t Z)
    (created : Z -> Outcome.t Z) : result Z PyErr * option Z :=
  if closed then
    (Err (instantiate_py_exception (b: "ClientError") (b: "app_client validate failed") []), None)
  else
    match target with
    | Err e => (Err e, None)
    | Ok target =>
        let host := ConnectionTarget.host target in
        match bind started (fun _ => bind resolved raced) with
        | Value connection =>
            match created connection with
            | Value session => (Ok session, None)
            | o => (failure host true o, Some connection)
            end
        | o => (failure host false o, None)
        end
    end.

End Establish.
