(* ===== verification/PyClientTheorems.v ===== *)
(** * The client of the package: theorems *)

From S2P Require Import Prelude.
From S2P Require Import Types.
From S2P Require Import Pyo3.
From S2P Require Import FfiConversion.
From S2P Require Import PyConversion.
From S2P Require Import PyConnection.
From S2P Require Import PyStreamIo.
From S2P Require Import PyRequests.
From S2P Require Import PyClient.

Module RaceT.
Import Race.

(** ** The connections of tasks *)

Definition connection_of (a : Attempt.t) : option Z :=
  match a with Attempt.Connected connection => Some connection | _ => None end.

(** The connections a list of tasks came to. *)
Definition connections (r : t) (ids : list nat) : list Z :=
  omap (fun task => connection_of (attempt_of r task)) ids.

(** All that were established. *)
Definition established (r : t) : list Z := connections r (seq 0 (length (attempts r))).

Definition failed (r : t) (task : nat) : Prop := exists e, attempt_of r task = Attempt.Failed e.

Lemma connections_app r l k : connections r (l ++ k) = connections r l ++ connections r k.
Proof. apply omap_app. Qed.

(** Those that won or are being closed. *)
Definition collected (r : t) : list Z := option_list (winner r) ++ discarded r.

#[local] Instance connections_perm r : Proper (Permutation ==> Permutation) (connections r).
Proof. intros l k E. unfold connections. by rewrite E. Qed.

(** ** The invariant

    [settled] are the tasks that were looked at for the last time. *)

(** The coroutine waits. *)
Definition running (r : t) (settled : list nat) : Prop :=
  watched r = [] /\ winner r = None /\ Attempt.Cancelled ∉ attempts r
  /\ Forall (failed r) settled /\ tasks r <> [].

(** What it ended with. *)
Definition ended (r : t) (settled : list nat) (result : Prelude.result Z PyErr) : Prop :=
  tasks r = [] /\
  match result with
  | Ok connection => winner r = Some connection
  | Err e => winner r = None /\
      (e = CancelledError
       \/ length (attempts r) = length (addresses r) /\ watched r = [] /\ Forall (failed r) settled)
  end.

Definition phase_ok (r : t) (settled : list nat) : Prop :=
  match at_phase r with
  | Starting index =>
      length (attempts r) = S index /\ (index < length (addresses r))%nat /\ running r settled
  | Draining => length (attempts r) = length (addresses r) /\ running r settled
  | Ended result => ended r settled result
  end.

(** Every task is in one place, and no connection was lost. *)
Record parts (r : t) (settled : list nat) : Prop := {
  parts_tasks : Permutation (seq 0 (length (attempts r))) (settled ++ tasks r ++ watched r);
  parts_done : Forall (fun task => Attempt.done (attempt_of r task) = true) settled;
  parts_settled : Permutation (connections r settled) (collected r);
}.

Definition inv (r : t) (settled : list nat) : Prop := parts r settled /\ phase_ok r settled.

Lemma parts_nodup r settled : parts r settled -> NoDup (settled ++ tasks r ++ watched r).
Proof. intros Hp. rewrite <- (parts_tasks _ _ Hp). apply NoDup_seq. Qed.

(** ** Collecting *)

Lemma collect_kept done : forall r,
  attempts (collect done r) = attempts r /\ tasks (collect done r) = tasks r
  /\ watched (collect done r) = watched r /\ addresses (collect done r) = addresses r
  /\ at_phase (collect done r) = at_phase r.
Proof.
  induction done as [|task done IH]; intros r; [done|].
  change (collect (task :: done) r) with (collect done (collect_task r task)).
  destruct (IH (collect_task r task)) as (-> & -> & -> & -> & ->).
  unfold collect_task. by destruct (attempt_of r task), (winner r).
Qed.

Lemma attempt_of_kept r r' task : attempts r' = attempts r -> attempt_of r' task = attempt_of r task.
Proof. unfold attempt_of. by intros ->. Qed.

Lemma connections_kept r r' ids : attempts r' = attempts r -> connections r' ids = connections r ids.
Proof. intros E. unfold connections, attempt_of. by rewrite E. Qed.

Lemma collect_task_attempts r task : attempts (collect_task r task) = attempts r.
Proof. unfold collect_task. by destruct (attempt_of r task), (winner r). Qed.

Lemma collect_task_collected r task :
  Permutation (collected (collect_task r task)) (collected r ++ connections r [task]).
Proof.
  unfold collect_task, collected, connections. cbn.
  destruct (attempt_of r task); cbn; destruct (winner r) eqn:E; cbn; rewrite ?E, ?app_nil_r; cbn;
    try done. by rewrite Permutation_app_comm.
Qed.

Lemma collect_collected done : forall r,
  Permutation (collected (collect done r)) (collected r ++ connections r done).
Proof.
  induction done as [|task done IH]; intros r; [cbn; by rewrite app_nil_r|].
  change (collect (task :: done) r) with (collect done (collect_task r task)).
  rewrite IH, collect_task_collected, (connections_kept r (collect_task r task)) by apply collect_task_attempts.
  change (task :: done) with ([task] ++ done). by rewrite connections_app, app_assoc.
Qed.

(** No winner: every task failed, or was of no use. *)
Lemma collect_no_winner done r :
  winner (collect done r) = None -> winner r = None /\ connections r done = [].
Proof.
  revert r. induction done as [|task done IH]; intros r E; [done|].
  change (collect (task :: done) r) with (collect done (collect_task r task)) in E.
  apply IH in E as [E Ec]. rewrite (connections_kept r (collect_task r task)) in Ec by apply collect_task_attempts.
  unfold connections in *. cbn. revert E. unfold collect_task.
  destruct (attempt_of r task), (winner r) eqn:Ew; cbn; try done; by rewrite ?Ew.
Qed.

(** ** Steps *)

Lemma failed_kept r r' task : attempt_of r' task = attempt_of r task -> failed r task -> failed r' task.
Proof. unfold failed. by intros ->. Qed.

Lemma done_cases r task :
  Attempt.Cancelled ∉ attempts r -> Attempt.done (attempt_of r task) = true ->
  connection_of (attempt_of r task) = None -> failed r task.
Proof.
  unfold failed, attempt_of. intros Hc Hd Hn. destruct (attempts r !! task) as [a|] eqn:E; [|done].
  cbn in *. destruct a; try done; [by eexists|]. destruct Hc. by eapply list_elem_of_lookup_2.
Qed.

(** What ends is not what was settled. *)
Lemma end_kept r settled task a other :
  inv r settled -> attempts r !! task = Some Attempt.Pending -> other ∈ settled ->
  attempt_of (r <| attempts := <[task := a]> (attempts r) |>) other = attempt_of r other.
Proof.
  intros Hi Et Ho. unfold attempt_of. cbn. rewrite list_lookup_insert_ne; [done|]. intros ->.
  pose proof (proj1 (Forall_forall _ _) (parts_done _ _ (proj1 Hi)) _ Ho) as Hd. unfold attempt_of in Hd. by rewrite Et in Hd.
Qed.

Section End.
Context (r : t) (settled : list nat) (task : nat) (a : Attempt.t).
Hypothesis Hi : inv r settled.
Hypothesis Et : attempts r !! task = Some Attempt.Pending.
Hypothesis Ha : a = Attempt.Cancelled -> task ∈ watched r.
Let r' : t := r <| attempts := <[task := a]> (attempts r) |>.

Lemma end_failed : Forall (failed r) settled -> Forall (failed r') settled.
Proof using All.
  rewrite !Forall_forall. intros Hf other Ho. eapply failed_kept; [|by apply Hf]. by eapply end_kept.
Qed.

Lemma end_running : running r settled -> running r' settled.
Proof using All.
  intros (Hw & Hn & Hc & Hf & Ht). split_and!; [done|done| |by apply end_failed|done].
  intros [k [(_ & E & _)|(_ & E)]%list_lookup_insert_Some]%list_elem_of_lookup.
  - apply Ha in E as Hin. rewrite Hw in Hin. by apply not_elem_of_nil in Hin.
  - destruct Hc. by eapply list_elem_of_lookup_2.
Qed.

Lemma end_inv : inv r' settled.
Proof using All.
  pose proof end_failed as Hf. pose proof end_running as Hr.
  assert (length (attempts r') = length (attempts r)) as El by apply length_insert.
  pose proof Hi as [[H1 H2 H3] H4]. split; [split|].
  - by rewrite El.
  - rewrite Forall_forall in *. intros other Ho. unfold r'. rewrite (end_kept r settled) by done. by apply H2.
  - change (collected r') with (collected r). rewrite <- H3. unfold connections.
    replace (omap (fun task => connection_of (attempt_of r' task)) settled)
      with (omap (fun task => connection_of (attempt_of r task)) settled); [done|].
    apply list_omap_ext, Forall_Forall2_diag, Forall_forall. intros other Ho. unfold r'.
    by rewrite (end_kept r settled).
  - unfold phase_ok, ended in *. rewrite El. change (at_phase r') with (at_phase r).
    destruct (at_phase r) as [index| |[c|e]]; naive_solver.
Qed.

End End.

Lemma finish_inv r settled result :
  parts r settled -> watched r = [] ->
  match result with
  | Ok connection => winner r = Some connection
  | Err e => winner r = None /\
      (e = CancelledError
       \/ length (attempts r) = length (addresses r) /\ tasks r = [] /\ Forall (failed r) settled)
  end ->
  inv (finish result r) settled.
Proof.
  intros [H1 H2 H3] Hw Hr. split; [split|split]; try done. cbn. by rewrite Hw, app_nil_r in H1.
Qed.

Lemma perm_remove (x : nat) l :
  NoDup l -> x ∈ l -> Permutation l (x :: List.filter (fun y => negb (y =? x)%nat) l).
Proof.
  induction 1 as [|y l Hy Hl IH]; [by intros ?%not_elem_of_nil|]. intros [->|Hx]%elem_of_cons; cbn.
  - rewrite Nat.eqb_refl. cbn. f_equiv. clear IH. induction Hl as [|z l Hz Hl IH]; [done|]. cbn.
    destruct (Nat.eqb_spec z y) as [->|]; [set_solver|]. cbn. f_equiv. apply IH. set_solver.
  - destruct (Nat.eqb_spec y x) as [->|]; [done|]. cbn. rewrite (IH Hx) at 1. apply Permutation_swap.
Qed.

Lemma callback_kept task r :
  attempts (on_attempt_done task r) = attempts r /\ tasks (on_attempt_done task r) = tasks r
  /\ winner (on_attempt_done task r) = winner r /\ at_phase (on_attempt_done task r) = at_phase r
  /\ watched (on_attempt_done task r) = List.filter (fun other => negb (other =? task)%nat) (watched r)
  /\ collected (on_attempt_done task r) = collected r ++ connections r [task].
Proof.
  unfold on_attempt_done, collected, connections. cbn. unfold attempt_of. cbn.
  destruct (default Attempt.Pending (attempts r !! task)); cbn; by rewrite ?app_assoc, ?app_nil_r.
Qed.

Lemma callback_inv r settled task :
  inv r settled -> task ∈ watched r -> Attempt.done (attempt_of r task) = true ->
  inv (on_attempt_done task r) (settled ++ [task]).
Proof.
  intros [Hp Hph] Hin Hd. pose proof (parts_nodup _ _ Hp) as Hn. destruct Hp as [H1 H2 H3].
  destruct (callback_kept task r) as (Ea & Et & Ew & Ep & Ewa & Ec).
  apply NoDup_app in Hn as (_ & _ & Hn). apply NoDup_app in Hn as (_ & _ & Hn).
  split; [split|].
  - rewrite Ea, Et, Ewa, H1. rewrite (perm_remove task (watched r)) at 1 by done. solve_Permutation.
  - apply Forall_app. split; [|constructor; [|done]]; [|by rewrite (attempt_of_kept r (on_attempt_done task r))].
    eapply Forall_impl; [exact H2|]. intros other. cbn. by rewrite (attempt_of_kept r (on_attempt_done task r)).
  - by rewrite (connections_kept r (on_attempt_done task r)), connections_app, H3, Ec.
  - unfold phase_ok, running, ended in *. rewrite Ep.
    assert (watched r <> []) by (intros E; rewrite E in Hin; by apply not_elem_of_nil in Hin).
    destruct (at_phase r) as [index| |[c|e]]; rewrite ?Et, ?Ew; naive_solver.
Qed.

(** ** Going on *)

Lemma perm_split (f : nat -> bool) l :
  Permutation l (List.filter f l ++ List.filter (fun x => negb (f x)) l).
Proof.
  induction l as [|x l IH]; [done|]. cbn. destruct (f x); cbn; rewrite IH at 1; [done|]. apply Permutation_middle.
Qed.

Definition pending (r : t) : list nat :=
  List.filter (fun task => negb (Attempt.done (attempt_of r task))) (tasks r).

(** The state after [collect]. *)
Definition gathered (done : list nat) (r : t) : t := collect done (r <| tasks := pending r |>).

Lemma gathered_parts r settled done :
  parts r settled -> Permutation done (List.filter (fun task => Attempt.done (attempt_of r task)) (tasks r)) ->
  parts (gathered done r) (settled ++ done).
Proof.
  intros [H1 H2 H3] Hd. unfold gathered. set (r1 := r <| tasks := pending r |>).
  destruct (collect_kept done r1) as (Ea & Et & Ew & _ & _). split.
  - rewrite Ea, Et, Ew. unfold r1. cbn. rewrite H1, (perm_split (fun task => Attempt.done (attempt_of r task)) (tasks r)).
    rewrite <- Hd. unfold pending. by rewrite <- !app_assoc.
  - apply Forall_app. split.
    + eapply Forall_impl; [exact H2|]. intros task. cbn. by rewrite (attempt_of_kept r1 (collect done r1)).
    + rewrite Hd. apply Forall_forall. intros task Ht. rewrite (attempt_of_kept r1 (collect done r1)) by done.
      apply list_elem_of_In, filter_In in Ht as [_ Ht]. done.
  - rewrite (connections_kept r (collect done r1)), connections_app, H3 by done.
    rewrite collect_collected. by rewrite (connections_kept r r1).
Qed.

Lemma drain_inv host r settled :
  parts r settled -> watched r = [] -> Attempt.Cancelled ∉ attempts r ->
  (winner r = None -> length (attempts r) = length (addresses r) /\ Forall (failed r) settled) ->
  inv (drain host r) settled.
Proof.
  intros Hp Hw Hc Hn. unfold drain. destruct (winner r) as [c|] eqn:Ew.
  - assert (inv (finish (outcome host r) r) settled) by (apply finish_inv; [done|done|unfold outcome; by rewrite Ew]).
    by destruct (tasks r).
  - destruct (Hn eq_refl) as [Hl Hf]. destruct (tasks r) as [|task rest] eqn:Et.
    + apply finish_inv; [done|done|]. unfold outcome. rewrite Ew. destruct (last_error r); (split; [done|right]); done.
    + destruct Hp as [H1 H2 H3]. split; [by split|]. split; [done|]. split_and!; try done. cbn. by rewrite Et.
Qed.

Lemma attempt_of_app r task : (task < length (attempts r))%nat ->
  default Attempt.Pending ((attempts r ++ [Attempt.Pending]) !! task) = attempt_of r task.
Proof. intros. unfold attempt_of. by rewrite lookup_app_l. Qed.

Lemma parts_bound r settled task : parts r settled -> task ∈ settled -> (task < length (attempts r))%nat.
Proof.
  intros Hp Ht. assert (task ∈ seq 0 (length (attempts r))) as He; [|apply elem_of_seq in He; lia].
  rewrite (parts_tasks _ _ Hp). set_solver.
Qed.

Lemma start_attempt_inv host index r settled :
  parts r settled -> index = length (attempts r) -> (index <= length (addresses r))%nat -> watched r = [] ->
  winner r = None -> Attempt.Cancelled ∉ attempts r -> Forall (failed r) settled ->
  inv (start_attempt host index r) settled.
Proof.
  intros Hp -> Hl Hw Hn Hc Hf. pose proof (fun task => parts_bound r settled task Hp) as Hb. unfold start_attempt.
  case_bool_decide as Hlt; [|apply drain_inv; try done; intros _; split; [lia|done]].
  set (r' := _ <| at_phase := _ |>).
  assert (forall task, task ∈ settled -> attempt_of r' task = attempt_of r task) as Hk
    by (intros task Ht; by apply attempt_of_app, Hb).
  destruct Hp as [H1 H2 H3]. split; [split|].
  - change (Permutation (seq 0 (length (attempts r ++ [Attempt.Pending])))
              (settled ++ (tasks r ++ [length (attempts r)]) ++ watched r)).
    rewrite length_app, Nat.add_1_r, seq_S, H1, Hw, !app_nil_r. by rewrite app_assoc.
  - rewrite Forall_forall in *. intros task Ht. rewrite Hk by done. by apply H2.
  - change (collected r') with (collected r). rewrite <- H3. unfold connections.
    rewrite (list_omap_ext (fun task => connection_of (attempt_of r' task))
               (fun task => connection_of (attempt_of r task)) settled settled); [done|].
    apply Forall_Forall2_diag, Forall_forall. intros task Ht. by rewrite Hk.
  - split; [cbn; rewrite length_app; cbn; lia|]. split; [done|]. split_and!; try done.
    + cbn. rewrite elem_of_app. intros [|He]; [done|]. by apply list_elem_of_singleton in He.
    + rewrite Forall_forall in *. intros task Ht. eapply failed_kept; [by apply Hk|by apply Hf].
    + cbn. by destruct (tasks r).
Qed.

Lemma start_inv host addresses : inv (start host addresses) [].
Proof. apply start_attempt_inv; [by split|done|cbn; lia|done|done|by intros ?%not_elem_of_nil|done]. Qed.

Lemma gathered_failed r settled done :
  Attempt.Cancelled ∉ attempts r -> Forall (failed r) settled ->
  Permutation done (List.filter (fun task => Attempt.done (attempt_of r task)) (tasks r)) ->
  winner (gathered done r) = None -> Forall (failed (gathered done r)) (settled ++ done).
Proof.
  intros Hc Hf Hd [_ Hn]%collect_no_winner. unfold gathered. set (r1 := r <| tasks := pending r |>) in *.
  destruct (collect_kept done r1) as (Ea & _). apply Forall_forall. intros task Ht.
  apply (failed_kept r); [by rewrite (attempt_of_kept r1)|].
  apply elem_of_app in Ht as [Ht|Ht]; [rewrite Forall_forall in Hf; by apply Hf|].
  apply done_cases; [done| |].
  - rewrite Hd in Ht. by apply list_elem_of_In, filter_In in Ht as [_ Ht].
  - destruct (connection_of (attempt_of r task)) as [c|] eqn:E; [|done]. exfalso.
    assert (c ∈ connections r1 done) as Hin; [|rewrite Hn in Hin; by apply not_elem_of_nil in Hin].
    apply list_elem_of_omap. by exists task.
Qed.

Lemma gathered_kept done r :
  attempts (gathered done r) = attempts r /\ tasks (gathered done r) = pending r
  /\ watched (gathered done r) = watched r /\ addresses (gathered done r) = addresses r
  /\ at_phase (gathered done r) = at_phase r.
Proof. exact (collect_kept done (r <| tasks := pending r |>)). Qed.

(** [wake] is [collect] and the rest of the loop. *)
Lemma wake_gathered host done r :
  wake host done r =
  match at_phase r, winner (gathered done r) with
  | Starting index, None => start_attempt host (S index) (gathered done r)
  | _, _ => drain host (gathered done r)
  end.
Proof. unfold wake. fold (pending r). fold (gathered done r). by destruct (gathered_kept done r) as (_ & _ & _ & _ & ->). Qed.

Lemma can_wake_running r settled : phase_ok r settled -> can_wake r = true -> running r settled.
Proof. unfold phase_ok, can_wake. destruct (at_phase r); naive_solver. Qed.

Lemma wake_inv host r settled done :
  inv r settled -> can_wake r = true ->
  Permutation done (List.filter (fun task => Attempt.done (attempt_of r task)) (tasks r)) ->
  inv (wake host done r) (settled ++ done).
Proof.
  intros [Hp Hph] Hcan Hd. pose proof (gathered_parts _ _ _ Hp Hd) as Hg.
  destruct (can_wake_running _ _ Hph Hcan) as (Hw & Hn & Hc & Hf & Ht).
  destruct (gathered_kept done r) as (Ea & _ & Ew & Ead & Eph).
  pose proof (gathered_failed r settled done Hc Hf Hd) as Hgf. rewrite wake_gathered.
  unfold phase_ok, can_wake in *. rewrite <- Ea in Hc. rewrite <- Ew in Hw.
  destruct (at_phase r) as [index| |result]; [| |done].
  - destruct Hph as (Hl & Hi & _). destruct (winner (gathered done r)) as [c|] eqn:Ewin.
    + apply drain_inv; try done. by rewrite Ewin.
    + apply start_attempt_inv; try done; [by rewrite Ea|rewrite Ead; lia|by apply Hgf].
  - destruct Hph as (Hl & _). apply drain_inv; try done. intros E. split; [by rewrite Ea, Ead|by apply Hgf].
Qed.

Lemma race_step_inv host k r r' settled :
  inv r settled -> step host k r r' -> exists settled', inv r' settled'.
Proof.
  intros Hi Hs. destruct Hs as [r task a Et Ha|r done Hc Hd|r Hn|r task Hin Hd|r task Hin Et].
  - exists settled. apply end_inv; [done|done|]. intros ->. naive_solver.
  - eexists. by apply wake_inv.
  - destruct Hi as [Hp Hph]. exists settled.
    assert (running r settled) as (Hw & Hwin & _)
      by (unfold phase_ok in Hph; destruct (at_phase r) as [| |result]; [naive_solver..|by destruct (Hn result)]).
    apply finish_inv; [done|done|]. split; [done|by left].
  - eexists. by apply callback_inv.
  - exists settled. by apply end_inv.
Qed.

Lemma race_run_inv host addresses n r : run host addresses n r -> exists settled, inv r settled.
Proof.
  induction 1 as [|n k r r' _ [settled Hi] Hs]; [by exists []; apply start_inv|]. by eapply race_step_inv.
Qed.

(** ** How often the coroutine goes on *)

Definition budget (r : t) : nat :=
  match at_phase r with
  | Starting index =>
      (length (addresses r) - index + (length (tasks r) + (length (addresses r) - S index)))%nat
  | Draining => length (tasks r)
  | Ended _ => 0%nat
  end.

Lemma drain_budget host r : (budget (drain host r) <= length (tasks r))%nat.
Proof. unfold drain. destruct (tasks r) as [|task rest] eqn:E, (winner r); cbn; rewrite ?E; cbn; lia. Qed.

Lemma start_attempt_budget host index r : (index <= length (addresses r))%nat ->
  (budget (start_attempt host index r) <= 2 * (length (addresses r) - index) + length (tasks r))%nat.
Proof.
  intros Hl. unfold start_attempt. case_bool_decide; [|pose proof (drain_budget host r); lia].
  unfold budget. cbn. rewrite length_app. cbn. lia.
Qed.

Lemma pending_length r : (length (pending r) <= length (tasks r))%nat.
Proof. apply filter_length_le. Qed.

Lemma pending_shorter r :
  existsb (fun task => Attempt.done (attempt_of r task)) (tasks r) = true ->
  (length (pending r) < length (tasks r))%nat.
Proof.
  unfold pending. induction (tasks r) as [|task rest IH]; cbn; [done|].
  destruct (Attempt.done (attempt_of r task)); cbn; intros E.
  - pose proof (filter_length_le (fun task => negb (Attempt.done (attempt_of r task))) rest). lia.
  - apply IH in E. lia.
Qed.

Lemma wake_budget host r settled done :
  inv r settled -> can_wake r = true -> (budget (wake host done r) < budget r)%nat.
Proof.
  intros [_ Hph] Hc. rewrite wake_gathered. destruct (gathered_kept done r) as (_ & Et & _ & Ead & _).
  pose proof (pending_length r) as Hl. pose proof (drain_budget host (gathered done r)) as Hb. rewrite Et in Hb.
  pose proof (fun index => start_attempt_budget host index (gathered done r)) as Hs. rewrite Et, Ead in Hs.
  unfold phase_ok, can_wake in *. unfold budget at 2. destruct (at_phase r) as [index| |]; [| |done].
  - destruct Hph as (_ & Hi & _). specialize (Hs (S index) Hi). destruct (winner (gathered done r)); lia.
  - pose proof (pending_shorter r Hc). lia.
Qed.

Lemma step_budget host k r r' settled :
  inv r settled -> step host k r r' -> (k + budget r' <= budget r)%nat.
Proof.
  intros Hi Hs. destruct Hs as [r task a Et Ha|r seen Hc Hd|r Hn|r task Hin Hd|r task Hin Et]; [done| |cbn; lia| |done].
  - by pose proof (wake_budget host r settled seen Hi Hc).
  - destruct (callback_kept task r) as (_ & Et & _ & Ep & _). unfold budget. rewrite Ep, Et.
    replace (addresses (on_attempt_done task r)) with (addresses r); [done|].
    unfold on_attempt_done. cbn. by destruct (attempt_of _ _).
Qed.

Lemma run_budget host addresses n r : run host addresses n r -> (n + budget r <= 2 * length addresses)%nat.
Proof.
  induction 1 as [|n k r r' Hr IH Hs].
  - etransitivity; [apply start_attempt_budget; cbn; lia|]. cbn. lia.
  - destruct (race_run_inv _ _ _ _ Hr) as [settled Hi]. pose proof (step_budget _ _ _ _ _ Hi Hs). lia.
Qed.

(** ** The theorem *)

Lemma step_addresses host k r r' : step host k r r' -> addresses r' = addresses r.
Proof.
  intros Hs. destruct Hs as [| r seen | | r task |]; try done.
  - rewrite wake_gathered. destruct (gathered_kept seen r) as (_ & _ & _ & <- & _).
    unfold start_attempt, drain. by repeat case_match.
  - unfold on_attempt_done. cbn. by case_match.
Qed.

Lemma run_addresses host addrs n r : run host addrs n r -> addresses r = addrs.
Proof.
  induction 1 as [|n k r r' _ IH Hs]; [|by rewrite (step_addresses _ _ _ _ Hs)].
  unfold start, start_attempt, drain. by repeat case_match.
Qed.

Lemma running_wakes r settled :
  inv r settled -> running r settled -> (forall result, at_phase r <> Ended result) ->
  (forall task, (task < length (attempts r))%nat -> Attempt.done (attempt_of r task) = true) -> can_wake r = true.
Proof.
  intros [Hp _] (_ & _ & _ & _ & Ht) Hph Hd.
  assert (existsb (fun task => Attempt.done (attempt_of r task)) (tasks r) = true) as He.
  { destruct (tasks r) as [|task rest] eqn:E; [done|]. cbn. rewrite Hd; [done|].
    assert (task ∈ seq 0 (length (attempts r))) as Hs; [|apply elem_of_seq in Hs; lia].
    rewrite (parts_tasks _ _ Hp), E. set_solver. }
  unfold can_wake. rewrite He. destruct (at_phase r) as [| |result]; [done|done|by destruct (Hph result)].
Qed.

Lemma all_failed r settled :
  inv r settled -> tasks r = [] -> watched r = [] -> Forall (failed r) settled ->
  forall task, (task < length (attempts r))%nat -> failed r task.
Proof.
  intros [Hp _] Ht Hw Hf task Hl. rewrite Forall_forall in Hf. apply Hf.
  assert (task ∈ seq 0 (length (attempts r))) as Hs by (apply elem_of_seq; lia).
  rewrite (parts_tasks _ _ Hp), Ht, Hw in Hs. set_solver.
Qed.

(** C29: a client that races connection attempts loses none of the connections.  However the
    attempts end, and whenever the race is cancelled, each connection that was established
    is the one the race returns, is being closed, or belongs to an attempt that the race
    or a callback is still to look at.  The race returns the first it finds; it fails only
    when it was cancelled or the attempt for every address has failed; while it waits and
    all attempts have ended it can go on, and it goes on at most twice per address. *)
Theorem race_leaks_nothing host addrs n r :
  run host addrs n r ->
  Permutation (established r)
    (option_list (winner r) ++ discarded r ++ connections r (tasks r) ++ connections r (watched r))
  /\ match at_phase r with
     | Ended (Ok connection) => winner r = Some connection /\ tasks r = []
     | Ended (Err e) =>
         winner r = None /\ tasks r = []
         /\ (e = CancelledError \/ forall task, (task < length addrs)%nat -> failed r task)
     | _ =>
         winner r = None /\ watched r = []
         /\ ((forall task, (task < length (attempts r))%nat -> Attempt.done (attempt_of r task) = true) ->
             can_wake r = true)
     end
  /\ (n <= 2 * length addrs)%nat.
Proof.
  intros Hr. destruct (race_run_inv _ _ _ _ Hr) as [settled Hi]. pose proof (run_addresses _ _ _ _ Hr) as Ea.
  pose proof (run_budget _ _ _ _ Hr) as Hb. pose proof Hi as [Hp Hph]. split_and!; [| |lia].
  - unfold established. rewrite (parts_tasks _ _ Hp), !connections_app, (parts_settled _ _ Hp).
    unfold collected. by rewrite <- app_assoc.
  - pose proof (running_wakes _ _ Hi) as Hw. pose proof (all_failed _ _ Hi) as Hf. unfold phase_ok, ended in Hph.
    destruct (at_phase r) as [index| |[c|e]].
    + destruct Hph as (_ & _ & Hrun). pose proof Hrun as (? & ? & _). split_and!; try done. by apply Hw.
    + destruct Hph as (_ & Hrun). pose proof Hrun as (? & ? & _). split_and!; try done. by apply Hw.
    + naive_solver.
    + destruct Hph as (Ht & Hn & He). split_and!; [done|done|]. destruct He as [|(Hl & Hwa & Hfs)]; [by left|right].
      rewrite <- Ea, <- Hl. by apply Hf.
Qed.

(** Two attempts, the second started after the delay; both connect before the race looks. *)
Definition ends (task : nat) (a : Attempt.t) (r : t) : t := r <| attempts := <[task := a]> (attempts r) |>.

Definition example_race : t :=
  wake (b: "host") [1%nat; 0%nat]
    (ends 1 (Attempt.Connected 8) (ends 0 (Attempt.Connected 7)
       (wake (b: "host") [] (start (b: "host") [b: "::1"; b: "127.0.0.1"])))).

Lemma race_leaks_nothing_witness :
  run (b: "host") [b: "::1"; b: "127.0.0.1"] 2 example_race
  /\ at_phase example_race = Ended (Ok 8) /\ discarded example_race = [7]
  /\ Permutation (established example_race) [8; 7].
Proof.
  assert (run (b: "host") [b: "::1"; b: "127.0.0.1"] 2 example_race) as Hr.
  { eapply (run_step _ _ 1 1); [|apply step_wake; [reflexivity|vm_compute; apply perm_swap]].
    eapply (run_step _ _ 1 0); [|apply (step_end _ _ 1 (Attempt.Connected 8)); [reflexivity|left; by eexists]].
    eapply (run_step _ _ 1 0); [|apply (step_end _ _ 0 (Attempt.Connected 7)); [reflexivity|left; by eexists]].
    eapply (run_step _ _ 0 1); [apply run_start|apply (step_wake _ _ []); [reflexivity|reflexivity]]. }
  split; [exact Hr|]. split; [reflexivity|]. split; [reflexivity|].
  exact (proj1 (race_leaks_nothing _ _ _ _ Hr)).
Defined.

End RaceT.

(** ** Headers and sessions *)

Module ClientT.
Import ClientHeaders.
Section Unicode.
Context `{PyUnicode}.

Lemma dict_set_has key value items : existsb (fun item => bool_decide (item.1 = key)) (dict_set key value items) = true.
Proof.
  induction items as [|[k v] items IH]; cbn; [by rewrite bool_decide_eq_true_2|].
  case_bool_decide as E; cbn; [by rewrite bool_decide_eq_true_2|]. rewrite IH. apply orb_true_r.
Qed.

(** Every request of a client says what sent it: the headers of the user decide, or the
    client adds its own. *)
Theorem request_has_user_agent config defaults headers user_agent :
  has_user_agent (request_headers config defaults headers user_agent) = true.
Proof.
  unfold request_headers. destruct (has_user_agent (normalize_headers _)) eqn:E; [done|].
  unfold has_user_agent, add_user_agent. destruct (normalize_headers _); cbn; [apply dict_set_has|].
  rewrite existsb_app. cbn. by rewrite bool_decide_eq_true_2, orb_true_r.
Qed.

Definition user_agents (headers : PyHeaders.t) : list (PyText.t * PyText.t) :=
  filter (fun item => PyText.data item.1 = b: "user-agent") (PyHeaders.items headers).

(** A user agent whose name is given as bytes is not recognized: the request carries it
    and the one of the client. *)
Theorem bytes_user_agent_twice user_agent given :
  user_agents (request_headers None (PyHeaders.Items [])
    (Some (PyHeaders.Items [(PyText.Bytes (b: "User-Agent"), given)])) user_agent)
  = [(PyText.Bytes (b: "user-agent"), given); (PyText.Str (b: "user-agent"), PyText.Str user_agent)].
Proof. reflexivity. Qed.

End Unicode.

Lemma failure_fails {A} host connected (o : Outcome.t A) :
  (forall a, o <> Outcome.Value a) -> exists e, Establish.failure host connected o = Err e.
Proof. intros Hn. destruct o; cbn; [by destruct (Hn a)|repeat case_match; by eexists..]. Qed.

(** Establishing a session leaves no connection behind when it fails: what the race won is
    closed exactly when no session is returned. *)
Theorem establish_closes target started resolved raced created :
  match Establish.establish_connection false target started resolved raced created with
  | (Ok session, closed) => closed = None /\ exists connection, created connection = Outcome.Value session
  | (Err _, Some connection) => forall session, created connection <> Outcome.Value session
  | (Err _, None) =>
      forall t addresses connection, target = Ok t -> started = Outcome.Value () ->
        resolved = Outcome.Value addresses -> raced addresses <> Outcome.Value connection
  end.
Proof.
  unfold Establish.establish_connection. destruct target as [target|e]; [|by intros].
  destruct (Outcome.bind started _) as [c|e| |] eqn:Eb.
  - destruct (created c) as [session|e| |] eqn:Ec; [split; [done|by exists c]|..].
    all: edestruct (failure_fails (A:=Z) (ConnectionTarget.host target) true) as [e' ->]; [|congruence]; by intros a.
  - edestruct (failure_fails (A:=Z)) as [e' ->]; [by intros a|].
    intros t addresses connection _ -> -> Er. cbn in Eb. congruence.
  - edestruct (failure_fails (A:=Z)) as [e' ->]; [by intros a|].
    intros t addresses connection _ -> -> Er. cbn in Eb. congruence.
  - edestruct (failure_fails (A:=Z)) as [e' ->]; [by intros a|].
    intros t addresses connection _ -> -> Er. cbn in Eb. congruence.
Qed.

End ClientT.
