(* ===== verification/PyServer.v ===== *)
(** * The server of the package, and what is incoming

    [pywebtransport/server.py], and the queues behind [incoming_connections],
    [incoming_sessions], [incoming_bidirectional_streams] and
    [incoming_unidirectional_streams], which are the same code four times. *)

From S2P Require Import Prelude.
From S2P Require Import Types.
From S2P Require Import Pyo3.
From S2P Require Import FfiConversion.
From S2P Require Import PyConnection.
From S2P Require Import PyStreamIo.

(** ** Generators over a queue *)

Module Incoming.
Section Item.
Context {A : Type}.

(** [None] ends the generators.  A consumer has the items it was given and whether its
    loop has ended. *)
Record t : Type := mk {
  queue : list (option A);
  consumers : list (list A * bool);
}.

Definition new : t := {| queue := []; consumers := [] |}.

Inductive action : Type :=
| Put (item : A)
| Close
| Enter
| Get (consumer : nat).

(** One iteration of the loop of a generator: an empty queue, or a generator that has
    ended, lets nothing happen. *)
Definition get (consumer : nat) (q : t) : option t :=
  match consumers q !! consumer, queue q with
  | Some (items, false), Some item :: rest =>
      Some {| queue := rest; consumers := <[consumer := (items ++ [item], false)]> (consumers q) |}
  | Some (items, false), None :: rest =>
      Some {| queue := rest ++ [None]; consumers := <[consumer := (items, true)]> (consumers q) |}
  | _, _ => None
  end.

Definition act (a : action) (q : t) : option t :=
  match a with
  | Put item => Some {| queue := queue q ++ [Some item]; consumers := consumers q |}
  | Close => Some {| queue := queue q ++ [None]; consumers := consumers q |}
  | Enter => Some {| queue := queue q; consumers := consumers q ++ [([], false)] |}
  | Get consumer => get consumer q
  end.

Fixpoint acts (actions : list action) (q : t) : option t :=
  match actions with
  | [] => Some q
  | a :: rest => q ← act a q; acts rest q
  end.

End Item.
Arguments t : clear implicits.
Arguments action : clear implicits.
End Incoming.

(** ** The server *)

(** An [EndpointController] of the server: [start] is under way, it runs, or it has been
    closed or never came up. *)
Module Controller.
Inductive t : Set := Starting | Running | Closed.
End Controller.

Module PyServer.

(** [controllers] are all that were created; [controller] is the number of one, as are
    the elements of [listening], the calls of [listen] that wait for [start].
    [closing_controller] is what [_close] waits for. *)
Record t : Type := mk {
  bind : option str * option Z;
  closed : bool;
  closing : bool;
  serving : bool;
  incoming_connections : list (option Z);
  shutdown_event : bool;
  controller : option nat;
  closing_controller : option nat;
  listening : list nat;
  controllers : list Controller.t;
}.

#[global] Instance eta_py_server : Eta t := fun s =>
  mk (bind s) (closed s) (closing s) (serving s) (incoming_connections s) (shutdown_event s)
    (controller s) (closing_controller s) (listening s) (controllers s).
#[global] Instance set_bind : Setter bind := ltac:(build_setter).
#[global] Instance set_server_closed : Setter closed := ltac:(build_setter).
#[global] Instance set_closing : Setter closing := ltac:(build_setter).
#[global] Instance set_serving : Setter serving := ltac:(build_setter).
#[global] Instance set_incoming_connections : Setter incoming_connections := ltac:(build_setter).
#[global] Instance set_shutdown_event : Setter shutdown_event := ltac:(build_setter).
#[global] Instance set_controller : Setter controller := ltac:(build_setter).
#[global] Instance set_closing_controller : Setter closing_controller := ltac:(build_setter).
#[global] Instance set_listening : Setter listening := ltac:(build_setter).
#[global] Instance set_controllers : Setter controllers := ltac:(build_setter).

Definition new (bind : option str * option Z) : t := {|
  bind := bind; closed := false; closing := false; serving := false; incoming_connections := [];
  shutdown_event := false; controller := None; closing_controller := None; listening := [];
  controllers := [];
|}.

Definition invalid : PyErr :=
  instantiate_py_exception (b: "ServerError") (b: "app_server validate failed") [].

(** [listen] up to the [await] of [start]; [replaced] is what [dataclasses.replace] comes
    to, which checks the configuration again. *)
Definition listen (host : option str) (port : option Z) (replaced : result () PyErr) (s : t)
    : t * result () PyErr :=
  if closed s || closing s || serving s then (s, Err invalid)
  else
    let wait (s : t) : t * result () PyErr :=
      (s <| listening := listening s ++ [length (controllers s)] |>
         <| controllers := controllers s ++ [Controller.Starting] |>, Ok ()) in
    match host, port, replaced with
    | None, None, _ => wait s
    | _, _, Err e => (s, Err e)
    | _, _, Ok _ =>
        wait (s <| bind := (match host with Some _ => host | None => (bind s).1 end,
                            match port with Some _ => port | None => (bind s).2 end) |>)
    end.

(** [listen] behind it, for a [start] that came up or raised. *)
Definition started (number : nat) (outcome : result () PyErr) (s : t) : t * result () PyErr :=
  let s := s <| listening := List.filter (fun other => negb (other =? number)%nat) (listening s) |> in
  match outcome with
  | Ok _ =>
      (s <| controllers := <[number := Controller.Running]> (controllers s) |>
         <| controller := Some number |> <| serving := true |>, Ok ())
  | Err e =>
      (s <| controllers := <[number := Controller.Closed]> (controllers s) |>,
       Err (if is_a [b: "FileNotFoundError"] e
            then instantiate_py_exception (b: "ServerError") (b: "sys_file open failed") []
            else from_cause (b: "ServerError") (b: "app_server open failed") e))
  end.

(** The [finally] of [_close]. *)
Definition finish_close (s : t) : t :=
  s <| incoming_connections := incoming_connections s ++ [None] |> <| shutdown_event := true |>
    <| closing := false |> <| closed := true |>.

(** [close] and [_close], up to the [await] of the controller: with a [_close] under way
    it waits for that one, on a closed server it returns. *)
Definition close (s : t) : t :=
  if closing s || closed s then s
  else
    let s := s <| serving := false |> <| closing := true |> in
    match controller s with
    | Some number => s <| closing_controller := Some number |>
    | None => finish_close s
    end.

(** [_close] behind it. *)
Definition controller_closed (number : nat) (s : t) : t :=
  finish_close (s <| controllers := <[number := Controller.Closed]> (controllers s) |>
                  <| closing_controller := None |> <| controller := None |>).

(** [_create_connection] *)
Definition create_connection (handle : Z) (s : t) : t :=
  s <| incoming_connections := incoming_connections s ++ [Some handle] |>.

Definition serve_forever (s : t) : result bool PyErr :=
  if serving s then Ok (shutdown_event s) else Err invalid.

(** What can happen to a server, in any order. *)
Inductive action : Type :=
| Listen (host : option str) (port : option Z) (replaced : result () PyErr)
| Started (number : nat) (outcome : result () PyErr)
| Close
| ControllerClosed (number : nat)
| Connected (number : nat) (handle : Z).

Definition act (a : action) (s : t) : option t :=
  match a with
  | Listen host port replaced => Some (listen host port replaced s).1
  | Started number outcome =>
      if bool_decide (number ∈ listening s) then Some (started number outcome s).1 else None
  | Close => Some (close s)
  | ControllerClosed number =>
      if bool_decide (closing_controller s = Some number) then Some (controller_closed number s) else None
  | Connected number handle =>
      match controllers s !! number with
      | Some Controller.Running => Some (create_connection handle s)
      | _ => None
      end
  end.

Fixpoint acts (actions : list action) (s : t) : option t :=
  match actions with
  | [] => Some s
  | a :: rest => s ← act a s; acts rest s
  end.

End PyServer.

(** ** Theorems *)

(** ** The server *)

Module ServerT.
Import PyServer.

(** What [listen] does to the fields, when it goes on to wait and when not. *)
Lemma listen_cases host port replaced s :
  (listen host port replaced s).1 = s
  \/ closed s = false /\ closing s = false /\ serving s = false
     /\ exists b, (listen host port replaced s).1
          = s <| bind := b |> <| listening := listening s ++ [length (controllers s)] |>
              <| controllers := controllers s ++ [Controller.Starting] |>.
Proof.
  unfold listen. destruct (closed s), (closing s), (serving s); cbn; try by left.
  destruct host as [h|], port as [p|], replaced as [|e]; cbn; try (by left);
    right; split_and!; try done; try (eexists; reflexivity); exists (bind s); by destruct s.
Qed.

(** *** A server that is not closed while it starts *)

(** [listen] and [close] are called when no other [listen] waits. *)
Definition orderly (a : action) (s : t) : Prop :=
  match a with Listen _ _ _ | Close => listening s = [] | _ => True end.

Inductive orderly_run (b : option str * option Z) : t -> Prop :=
| orderly_start : orderly_run b (new b)
| orderly_act a s s' : orderly_run b s -> orderly a s -> act a s = Some s' -> orderly_run b s'.

Record inv (s : t) : Prop := {
  inv_running number : controllers s !! number = Some Controller.Running -> controller s = Some number;
  inv_starting number : controllers s !! number = Some Controller.Starting -> listening s = [number];
  inv_listening :
    listening s = [] \/ exists k, listening s = [k] /\ controllers s !! k = Some Controller.Starting;
  inv_controller : controller s <> None -> serving s || closing s = true /\ listening s = [];
  inv_closing : closing s = true -> closing_controller s = controller s /\ controller s <> None /\ serving s = false;
  inv_open : closing s = false -> closing_controller s = None;
  inv_closed : closed s = true -> controller s = None /\ listening s = [] /\ closing s = false /\ serving s = false;
  inv_serving : serving s = true -> controller s <> None;
}.

Lemma server_new_inv b : inv (new b).
Proof. split; try done. by left. Qed.

Lemma listen_inv host port replaced s : inv s -> listening s = [] -> inv (listen host port replaced s).1.
Proof.
  intros Hi Hl. destruct (listen_cases host port replaced s) as [->|(Hc & Hg & Hs & b & ->)]; [done|].
  destruct Hi as [H1 H2 _ H3 H4 H5 H6 H7].
  assert (controller s = None) as Hn.
  { destruct (controller s) as [k|]; [|done]. destruct H3 as [E _]; [done|]. by rewrite Hs, Hg in E. }
  split; cbn; rewrite ?Hl, ?Hn, ?Hs, ?Hg, ?Hc; try done.
  - intros number [[_ Hk]|[-> Hk]]%lookup_snoc_Some; [|done]. apply H1 in Hk. by rewrite Hn in Hk.
  - intros number [[_ Hk]|[-> Hk]]%lookup_snoc_Some; [|done]. apply H2 in Hk. by rewrite Hl in Hk.
  - right. eexists. split; [done|]. by rewrite list_lookup_middle.
  - by rewrite H5.
Qed.

(** While a [listen] waits nothing else goes on. *)
Lemma waiting_idle s number :
  inv s -> number ∈ listening s ->
  listening s = [number] /\ controllers s !! number = Some Controller.Starting /\ controller s = None
  /\ closing s = false /\ closed s = false /\ serving s = false /\ closing_controller s = None.
Proof.
  intros [H1 H2 Hl H4 H5 H6 H7 H8] Hin. destruct Hl as [E|(k & E & Ek)]; rewrite E in *.
  { by apply not_elem_of_nil in Hin. }
  apply list_elem_of_singleton in Hin as ->.
  assert (controller s = None) as Hn by (destruct (controller s); [by destruct H4|done]).
  destruct (closing s); [by destruct (H5 eq_refl) as (_ & ? & _)|].
  destruct (closed s); [by destruct (H7 eq_refl) as (_ & ? & _)|]. destruct (serving s); [by destruct H8|].
  split_and!; try done. by apply H6.
Qed.

Lemma lookup_other {A} (l : list A) k x number y :
  <[k := x]> l !! number = Some y -> y <> x -> number <> k /\ l !! number = Some y.
Proof. rewrite list_lookup_insert_Some. naive_solver. Qed.

Lemma started_inv number outcome s : inv s -> number ∈ listening s -> inv (started number outcome s).1.
Proof.
  intros Hi Hin. destruct (waiting_idle s number Hi Hin) as (El & Ek & Hn & Hg & Hc & Hs & Hcc).
  destruct Hi as [H1 H2 _ _ _ _ _ _].
  assert (forall k, controllers s !! k = Some Controller.Starting -> k = number) as Honly
    by (intros k Hk%H2; by rewrite El in Hk; simplify_eq).
  assert (forall k, controllers s !! k <> Some Controller.Running) as Hnone
    by (intros k Hk%H1; by rewrite Hn in Hk).
  unfold started. cbn -[controllers]. rewrite El. cbn. rewrite Nat.eqb_refl.
  destruct outcome as [|e]; split; cbn; rewrite ?Hn, ?Hg, ?Hc, ?Hs, ?Hcc; try done; try (by left).
  - intros k Hk. destruct (decide (k = number)) as [->|]; [done|].
    rewrite list_lookup_insert_ne in Hk by done. by apply Hnone in Hk.
  - intros k [Hne Hk]%lookup_other; [|done]. by apply Honly in Hk.
  - intros k [Hne Hk]%lookup_other; [|done]. by apply Hnone in Hk.
  - intros k [Hne Hk]%lookup_other; [|done]. by apply Honly in Hk.
Qed.

Lemma server_close_inv s : inv s -> listening s = [] -> inv (close s).
Proof.
  intros Hi Hl. unfold close. destruct (closing s) eqn:Hg; [done|]. destruct (closed s) eqn:Hc; [done|].
  destruct Hi as [H1 H2 H3 H4 H5 H6 H7 H8]. cbn. destruct (controller s) as [k|] eqn:Ek.
  - split; cbn; rewrite ?Ek; try done. by rewrite Hc.
  - split; cbn; rewrite ?Ek; try done. intros _. by apply H6.
Qed.

Lemma controller_closed_inv number s :
  inv s -> closing_controller s = Some number -> inv (controller_closed number s).
Proof.
  intros Hi E. destruct Hi as [H1 H2 H3 H4 H5 H6 H7 H8].
  destruct (closing s) eqn:Hg; [|by rewrite H6 in E]. destruct (H5 eq_refl) as (Ecc & _ & Hs).
  rewrite E in Ecc. rewrite <- Ecc in *. destruct (H4 ltac:(done)) as [_ Hl].
  split; cbn; rewrite ?Hs, ?Hl; try done; [| |by left].
  - intros k [Hne Hk]%lookup_other; [|done]. apply H1 in Hk. congruence.
  - intros k [Hne Hk]%lookup_other; [|done]. apply H2 in Hk. congruence.
Qed.

Lemma act_inv a s s' : inv s -> orderly a s -> act a s = Some s' -> inv s'.
Proof.
  intros Hi Ho E. destruct a as [host port replaced|number outcome| |number|number handle]; cbn in E, Ho.
  - injection E as <-. by apply listen_inv.
  - case_bool_decide; [|done]. injection E as <-. by apply started_inv.
  - injection E as <-. by apply server_close_inv.
  - case_bool_decide; [|done]. injection E as <-. by apply controller_closed_inv.
  - destruct (controllers s !! number) as [[]|]; try done. injection E as <-. destruct Hi. by split.
Qed.

Lemma orderly_inv b s : orderly_run b s -> inv s.
Proof. induction 1; [apply server_new_inv|by eapply act_inv]. Qed.

(** Closing a server closes what it started, as long as [listen] and [close] are called
    when no [listen] waits: once it is closed no controller runs or starts, and none will. *)
Theorem server_close_releases b s :
  orderly_run b s -> closed s = true ->
  forall number c, controllers s !! number = Some c -> c = Controller.Closed.
Proof.
  intros [H1 H2 _ _ _ _ H7 _]%orderly_inv Hc number c Hk. destruct (H7 Hc) as (Hn & Hl & _).
  destruct c; [apply H2 in Hk|apply H1 in Hk|done]; congruence.
Qed.

(** *** A server that is closed while it starts *)

Definition outlives (number : nat) (s : t) : Prop :=
  closed s = true /\ closing s = false /\ closing_controller s = None /\ serving s = true
  /\ number ∉ listening s /\ controllers s !! number = Some Controller.Running.

Lemma outlives_act number a s s' : outlives number s -> act a s = Some s' -> outlives number s'.
Proof.
  intros (Hc & Hg & Hcc & Hs & Hl & Hk) E. destruct a as [host port replaced|k outcome| |k|k handle]; cbn in E.
  - injection E as <-. unfold listen. by rewrite Hc.
  - case_bool_decide as Hin; [|done]. injection E as <-. assert (k <> number) by (by intros ->).
    assert (number ∉ List.filter (fun other => negb (other =? k)%nat) (listening s)) as Hl'.
    { intros He%list_elem_of_In. apply filter_In in He as [He _]. by apply Hl, list_elem_of_In. }
    destruct outcome; split_and!; try done; cbn; by rewrite list_lookup_insert_ne.
  - injection E as <-. unfold close. by rewrite Hc, Hg.
  - rewrite Hcc in E. by case_bool_decide.
  - destruct (controllers s !! k) as [[]|]; try done. by injection E as <-.
Qed.

Lemma outlives_acts number actions : forall s s',
  outlives number s -> acts actions s = Some s' -> outlives number s'.
Proof.
  induction actions as [|a actions IH]; intros s s' Ho E; cbn in E; [by simplify_eq|].
  destruct (act a s) as [s1|] eqn:Ea; [|done]. cbn in E. eapply IH; [|done]. by eapply outlives_act.
Qed.

(** C38: a server that is closed while [listen] waits for its controller outlives its end.
    [close] finds no controller, marks the server closed and returns; then [listen] goes
    on and installs the controller.  The server is closed and serving at once, the
    controller runs, and nothing that is done afterwards, closing it again included, ever
    closes that controller. *)
Theorem server_outlives_close number s :
  number ∈ listening s -> (number < length (controllers s))%nat ->
  controller s = None -> closing s = false -> closed s = false -> closing_controller s = None ->
  exists s1, acts [Close; Started number (Ok ())] s = Some s1
    /\ forall actions s2, acts actions s1 = Some s2 ->
         closed s2 = true /\ serving s2 = true /\ controllers s2 !! number = Some Controller.Running.
Proof.
  intros Hin Hlt Hn Hg Hc Hcc. cbn. unfold close. rewrite Hg, Hc. cbn. rewrite Hn. cbn.
  rewrite bool_decide_eq_true_2 by done. cbn. eexists. split; [reflexivity|].
  intros actions s2 E. apply (outlives_acts number) in E as (? & _ & _ & ? & _ & ?); [done|].
  split_and!; try done; cbn.
  - intros He%list_elem_of_In. apply filter_In in He as [_ He]. by rewrite Nat.eqb_refl in He.
  - by apply list_lookup_insert_eq.
Qed.

(** A server whose [listen] waits. *)
Definition example_server : t := (listen None None (Ok ()) (new (None, None))).1.

Lemma server_outlives_close_witness :
  exists s1, acts [Close; Started 0 (Ok ())] example_server = Some s1
    /\ forall s2, acts [Close; Close] s1 = Some s2 -> controllers s2 !! 0%nat = Some Controller.Running.
Proof.
  destruct (server_outlives_close 0 example_server) as (s1 & E & Hs);
    [vm_compute; left|vm_compute; lia|reflexivity|reflexivity|reflexivity|reflexivity|].
  exists s1. split; [exact E|]. intros s2 E2. by destruct (Hs _ s2 E2) as (_ & _ & Hk).
Defined.

End ServerT.

(** ** What is incoming *)

Module IncomingT.
Import Incoming.
Section Item.
Context {A : Type}.
Implicit Types (q : Incoming.t A) (actions : list (action A)).

Definition put_of (a : action A) : option A := match a with Put item => Some item | _ => None end.

Definition is_close (a : action A) : bool := match a with Close => true | _ => false end.

(** Nothing is put behind the end: whoever closes has taken down what puts. *)
Fixpoint closes_last (actions : list (action A)) : Prop :=
  match actions with
  | [] => True
  | Close :: rest => omap put_of rest = [] /\ closes_last rest
  | _ :: rest => closes_last rest
  end.

(** The items a consumer took, of all that were taken. *)
Definition taken (c : nat) (order : list (nat * A)) : list A := (filter (fun p => p.1 = c) order).*2.

Lemma taken_snoc c order d item :
  taken c (order ++ [(d, item)]) = taken c order ++ (if decide (d = c) then [item] else []).
Proof.
  unfold taken. rewrite filter_app, fmap_app. f_equal. rewrite filter_cons. cbn. by case_decide.
Qed.

(** The items behind what was taken, and how often the end was put. *)
Record cut (q : Incoming.t A) (put : list A) (closes : nat) (order : list (nat * A)) (pending : list A) : Prop := {
  cut_put : put = order.*2 ++ pending;
  cut_queue : queue q = (Some <$> pending) ++ replicate closes None;
  cut_taken c items ended : consumers q !! c = Some (items, ended) -> items = taken c order;
  cut_fresh : Forall (fun p => (p.1 < length (consumers q))%nat) order;
}.

Lemma taken_fresh c order : Forall (fun p => (p.1 < c)%nat) order -> taken c order = [].
Proof.
  intros Hf. unfold taken. induction Hf as [|[d item] order Hd Hf IH]; [done|].
  rewrite filter_cons. cbn in *. case_decide; [lia|done].
Qed.

Lemma omap_none n : omap id (replicate n (@None A)) = [].
Proof. by induction n. Qed.

Lemma replicate_rotate (n : nat) (x : option A) : replicate n x ++ [x] = x :: replicate n x.
Proof. induction n as [|n IH]; [done|]. cbn. by rewrite IH. Qed.

Lemma get_cut c q q' put closes order pending :
  cut q put closes order pending -> get c q = Some q' ->
  exists order' pending', cut q' put closes order' pending'.
Proof.
  intros [H1 H2 H3 H4] E. unfold get in E. rewrite H2 in E.
  destruct (consumers q !! c) as [[items []]|] eqn:Ec; [done| |done]. pose proof (lookup_lt_Some _ _ _ Ec) as Hlt.
  destruct pending as [|item pending]; cbn in E.
  - destruct closes as [|n]; [done|]. cbn in E. injection E as <-. exists order, []. split; cbn; [done| | |].
    + by rewrite replicate_rotate.
    + intros d items' ended [(-> & Hp & _)|[Hne Hd]]%list_lookup_insert_Some; [|by eapply H3].
      simplify_eq. by eapply H3.
    + by rewrite length_insert.
  - injection E as <-. exists (order ++ [(c, item)]), pending. split; cbn; [|done| |].
    + rewrite fmap_app, <- app_assoc. by rewrite H1.
    + intros d items' ended Hd. rewrite taken_snoc.
      apply list_lookup_insert_Some in Hd as [(-> & Hp & _)|[Hne Hd]].
      * simplify_eq. rewrite decide_True by done. by rewrite (H3 _ _ _ Ec).
      * rewrite decide_False, app_nil_r by done. by eapply H3.
    + rewrite length_insert. apply Forall_app. split; [done|]. by repeat constructor.
Qed.

Lemma incoming_act_cut a q q' put closes order pending :
  cut q put closes order pending -> act a q = Some q' -> (put_of a <> None -> closes = 0%nat) ->
  exists order' pending',
    cut q' (put ++ option_list (put_of a)) (closes + (if is_close a then 1 else 0)) order' pending'.
Proof.
  intros Hcut E Hp. destruct a as [item| | |c]; cbn in E |- *; rewrite ?app_nil_r, ?Nat.add_0_r; simplify_eq.
  - destruct Hcut as [H1 H2 H3 H4]. rewrite Hp in * by done. exists order, (pending ++ [item]).
    split; cbn; [by rewrite H1, app_assoc| |done|done].
    by rewrite H2, fmap_app, !app_nil_r.
  - destruct Hcut as [H1 H2 H3 H4]. exists order, pending. split; cbn; [done| |done|done].
    by rewrite H2, <- app_assoc, replicate_add.
  - destruct Hcut as [H1 H2 H3 H4]. exists order, pending. split; cbn; [done|done| |].
    + intros d items ended [[_ Hd]|[-> Hd]]%lookup_snoc_Some; [by eapply H3|]. simplify_eq. by rewrite taken_fresh.
    + rewrite length_app. eapply Forall_impl; [exact H4|]. cbn. lia.
  - by eapply get_cut.
Qed.

Lemma incoming_acts_cut actions : forall q q' put closes order pending,
  cut q put closes order pending -> acts actions q = Some q' ->
  closes_last actions -> (omap put_of actions <> [] -> closes = 0%nat) ->
  exists order' pending',
    cut q' (put ++ omap put_of actions) (closes + length (List.filter is_close actions)) order' pending'.
Proof.
  induction actions as [|a actions IH]; intros q q' put closes order pending Hcut E Hl Hp; cbn in E.
  { simplify_eq. exists order, pending. cbn. by rewrite app_nil_r, Nat.add_0_r. }
  destruct (act a q) as [q1|] eqn:Ea; [|done]. cbn in E.
  destruct (incoming_act_cut _ _ _ _ _ _ _ Hcut Ea) as (order1 & pending1 & Hcut1).
  { intros Hn. apply Hp. cbn. by destruct (put_of a). }
  destruct (IH _ _ _ _ _ _ Hcut1 E) as (order2 & pending2 & Hcut2).
  - by destruct a; cbn in Hl; [|destruct Hl|..].
  - intros Hn. destruct a; cbn in *; rewrite ?Nat.add_0_r; try (apply Hp; done). by destruct Hl.
  - exists order2, pending2. rewrite <- app_assoc in Hcut2. cbn.
    destruct a; cbn in *; rewrite ?Nat.add_0_r in Hcut2; try done.
    by replace (closes + S (length (List.filter is_close actions)))%nat
      with (closes + 1 + length (List.filter is_close actions))%nat by lia.
Qed.


End Item.

(** Two consumers, of three items the first gets two; then the end. *)
Definition example_incoming : list (action Z) :=
  [Enter; Enter; Put 1; Put 2; Put 3; Get 0; Get 1; Get 0; Close; Get 1].


End IncomingT.
