(* ===== verification/PyEmitter.v ===== *)
(** * The event emitter of the package

    [EventEmitter] of [pywebtransport/events.py]: handlers that are registered for an event,
    for good or for once, and the dispatching of events to them in tasks that wait for each
    handler.  Handlers are numbers: what matters of one is which it is. *)

From S2P Require Import Prelude.
From S2P Require Import Types.

Module EventEmitter.

(** A task that runs [_process_event]: not started, or with these handlers still to call,
    each with whether it was registered for once.  [background] tasks are those of
    [emit_nowait], which [close] cancels. *)
Inductive progress : Set :=
| Scheduled
| Calling (rest : list (nat * bool)).

Record task : Set := mk_task { event_type : EventType.t; background : bool; at_progress : progress }.

(** The two dictionaries as lists of their entries; [called] is what was called, in order. *)
Record t : Type := mk {
  handlers : list (EventType.t * nat);
  once_handlers : list (EventType.t * nat);
  tasks : list task;
  called : list (EventType.t * (nat * bool));
}.

#[global] Instance eta_emitter : Eta t := fun m => mk (handlers m) (once_handlers m) (tasks m) (called m).
#[global] Instance set_handlers : Setter handlers := ltac:(build_setter).
#[global] Instance set_once_handlers : Setter once_handlers := ltac:(build_setter).
#[global] Instance set_emitter_tasks : Setter tasks := ltac:(build_setter).
#[global] Instance set_called : Setter called := ltac:(build_setter).

Definition new : t := {| handlers := []; once_handlers := []; tasks := []; called := [] |}.

(** The handlers for an event, and the entries for the others. *)
Definition handlers_of (e : EventType.t) (entries : list (EventType.t * nat)) : list nat :=
  (filter (fun entry => entry.1 = e) entries).*2.
Definition without (e : EventType.t) (entries : list (EventType.t * nat)) : list (EventType.t * nat) :=
  filter (fun entry => entry.1 <> e) entries.

(** Register a handler that is not registered yet. *)
Definition register (e : EventType.t) (handler : nat) (entries : list (EventType.t * nat))
    : list (EventType.t * nat) :=
  if bool_decide ((e, handler) ∈ entries) then entries else entries ++ [(e, handler)].

Definition on (e : EventType.t) (handler : nat) (m : t) : t :=
  m <| handlers := register e handler (handlers m) |>.

Definition once (e : EventType.t) (handler : nat) (m : t) : t :=
  m <| once_handlers := register e handler (once_handlers m) |>.

Definition off (e : EventType.t) (handler : option nat) (m : t) : t :=
  let remove (entries : list (EventType.t * nat)) :=
    match handler with
    | None => without e entries
    | Some handler => filter (fun entry => entry <> (e, handler)) entries
    end in
  m <| handlers := remove (handlers m) |> <| once_handlers := remove (once_handlers m) |>.

(** [emit] and [emit_nowait]. *)
Definition emit (background : bool) (e : EventType.t) (m : t) : t :=
  m <| tasks := tasks m ++ [mk_task e background Scheduled] |>.

(** [_process_event] up to its first call: the handlers are copied, those for once are
    forgotten. *)
Definition begin (number : nat) (e : EventType.t) (bg : bool) (m : t) : t :=
  let handlers_to_call := (fun handler => (handler, false)) <$> handlers_of e (handlers m) in
  let once_handlers_to_call := (fun handler => (handler, true)) <$> handlers_of e (once_handlers m) in
  m <| once_handlers := without e (once_handlers m) |>
    <| tasks := <[number := mk_task e bg (Calling (handlers_to_call ++ once_handlers_to_call))]> (tasks m) |>.

(** The next call; an exception of the handler is logged. *)
Definition call (number : nat) (e : EventType.t) (bg : bool) (handler : nat * bool)
    (rest : list (nat * bool)) (m : t) : t :=
  m <| tasks := <[number := mk_task e bg (Calling rest)]> (tasks m) |>
    <| called := called m ++ [(e, handler)] |>.

(** [close]: the tasks are cancelled; when they have ended, the handlers are forgotten. *)
Definition cancel_tasks (m : t) : t :=
  m <| tasks := (fun k => if background k then mk_task (event_type k) true (Calling []) else k) <$> tasks m |>.

Definition clear_handlers (m : t) : t := m <| handlers := [] |> <| once_handlers := [] |>.

(** What can happen, in any order. *)
Inductive action : Set :=
| On (e : EventType.t) (handler : nat)
| Once (e : EventType.t) (handler : nat)
| Off (e : EventType.t) (handler : option nat)
| Emit (background : bool) (e : EventType.t)
| Proceed (number : nat)
| Cancel
| Clear.

Definition act (a : action) (m : t) : option t :=
  match a with
  | On e handler => Some (on e handler m)
  | Once e handler => Some (once e handler m)
  | Off e handler => Some (off e handler m)
  | Emit background e => Some (emit background e m)
  | Proceed number =>
      match tasks m !! number with
      | Some (mk_task e bg Scheduled) => Some (begin number e bg m)
      | Some (mk_task e bg (Calling (handler :: rest))) => Some (call number e bg handler rest m)
      | _ => None
      end
  | Cancel => Some (cancel_tasks m)
  | Clear => Some (clear_handlers m)
  end.

Fixpoint acts (actions : list action) (m : t) : option t :=
  match actions with
  | [] => Some m
  | a :: rest => m ← act a m; acts rest m
  end.

End EventEmitter.

(** ** Theorems *)

Module EmitterT.
Import EventEmitter.
Section Handler.
Context (e : EventType.t) (handler : nat).

Definition is_entry (entry : EventType.t * nat) : bool := bool_decide (entry = (e, handler)).
Definition is_due (due : nat * bool) : bool := bool_decide (due = (handler, true)).
Definition is_call (call : EventType.t * (nat * bool)) : bool := bool_decide (call = (e, (handler, true))).
Definition is_once (a : action) : bool := match a with Once e' h => bool_decide ((e', h) = (e, handler)) | _ => false end.

Definition count {A} (f : A -> bool) (l : list A) : nat := length (List.filter f l).

(** The calls a task is still to make. *)
Definition due_in (k : task) : nat :=
  match at_progress k with
  | Scheduled => 0
  | Calling rest => if bool_decide (event_type k = e) then count is_due rest else 0
  end.

Definition due (l : list task) : nat := foldr (fun k n => (due_in k + n)%nat) 0%nat l.

(** The calls that were made or may follow from what is registered. *)
Definition outstanding (m : t) : nat :=
  (count is_entry (once_handlers m) + due (tasks m) + count is_call (called m))%nat.

Lemma count_app {A} (f : A -> bool) l k : count f (l ++ k) = (count f l + count f k)%nat.
Proof. unfold count. by rewrite List.filter_app, length_app. Qed.

Lemma count_filter_le (P : EventType.t * nat -> Prop) `{forall x, Decision (P x)} l :
  (count is_entry (filter P l) <= count is_entry l)%nat.
Proof.
  induction l as [|x l IH]; [done|]. rewrite filter_cons. unfold count in *.
  case_decide; cbn [List.filter]; destruct (is_entry x); cbn [length]; lia.
Qed.

Lemma due_cons k l : due (k :: l) = (due_in k + due l)%nat.
Proof. done. Qed.

Lemma due_insert l number k k' :
  l !! number = Some k -> (due (<[number := k']> l) + due_in k = due l + due_in k')%nat.
Proof.
  revert number. induction l as [|x l IH]; intros [|number] E; [done|done| |].
  - injection E as ->. cbn. lia.
  - change (<[S number := k']> (x :: l)) with (x :: <[number := k']> l). rewrite !due_cons.
    specialize (IH number E). lia.
Qed.

Lemma due_app l k : due (l ++ k) = (due l + due k)%nat.
Proof. unfold due. induction l as [|x l IH]; cbn; [done|]. lia. Qed.

Lemma due_cancelled l :
  (due ((fun k => if background k then mk_task (event_type k) true (Calling []) else k) <$> l) <= due l)%nat.
Proof.
  induction l as [|k l IH]; [done|]. rewrite fmap_cons, !due_cons. destruct (background k); [|lia].
  assert (due_in (mk_task (event_type k) true (Calling [])) = 0%nat) as ->; [|lia].
  unfold due_in. cbn. by case_bool_decide.
Qed.

(** Copying the handlers moves them from the dictionary to the task. *)
Lemma begin_due e' bg m :
  (count is_entry (without e' (once_handlers m))
   + due_in (mk_task e' bg (Calling (((fun h => (h, false)) <$> handlers_of e' (handlers m))
                                     ++ ((fun h => (h, true)) <$> handlers_of e' (once_handlers m)))))
   = count is_entry (once_handlers m))%nat.
Proof.
  unfold due_in. cbn [at_progress event_type]. rewrite count_app.
  assert (count is_due ((fun h => (h, false)) <$> handlers_of e' (handlers m)) = 0%nat) as ->.
  { induction (handlers_of e' (handlers m)) as [|h l IH]; [done|]. unfold count, is_due in *. cbn.
    by rewrite bool_decide_eq_false_2. }
  unfold without, handlers_of. induction (once_handlers m) as [|[e1 h] l IH]; [cbn; by case_bool_decide|].
  rewrite !filter_cons. cbn [fst]. unfold count, is_entry, is_due in *.
  destruct (decide (e1 = e')) as [Heq|Hne]; repeat (case_decide; try done).
  all: cbn; repeat case_bool_decide; simplify_eq; cbn; lia.
Qed.

Lemma register_count e' h l :
  (count is_entry (register e' h l) <= count is_entry l + (if bool_decide ((e', h) = (e, handler)) then 1 else 0))%nat.
Proof.
  unfold register. case_bool_decide; [lia|]. rewrite count_app. unfold count at 2, is_entry. cbn.
  destruct (bool_decide ((e', h) = (e, handler))); cbn; lia.
Qed.

Lemma act_outstanding a m m' :
  act a m = Some m' -> (outstanding m' <= outstanding m + (if is_once a then 1 else 0))%nat.
Proof.
  intros E. destruct a as [e' h|e' h|e' h|bg e'|number| |]; cbn in E; simplify_eq; unfold outstanding; cbn -[count due].
  - lia.
  - pose proof (register_count e' h (once_handlers m)). lia.
  - destruct h as [h|].
    + pose proof (count_filter_le (fun entry => entry <> (e', h)) (once_handlers m)). lia.
    + pose proof (count_filter_le (fun entry => entry.1 <> e') (once_handlers m)). unfold without. lia.
  - rewrite due_app. cbn. lia.
  - destruct (tasks m !! number) as [[e' bg [|[|next rest]]]|] eqn:Ek; simplify_eq; cbn -[count due].
    + pose proof (begin_due e' bg m) as Hb. pose proof (due_insert _ _ _ (mk_task e' bg (Calling
        (((fun h => (h, false)) <$> handlers_of e' (handlers m))
         ++ ((fun h => (h, true)) <$> handlers_of e' (once_handlers m))))) Ek) as Hd.
      change (due_in (mk_task e' bg Scheduled)) with 0%nat in Hd. lia.
    + pose proof (due_insert _ _ _ (mk_task e' bg (Calling rest)) Ek) as Hd. rewrite count_app.
      assert (due_in (mk_task e' bg (Calling (next :: rest)))
        = due_in (mk_task e' bg (Calling rest)) + count is_call [(e', next)])%nat as Hn; [|lia].
      unfold due_in, count, is_due, is_call. cbn. repeat case_bool_decide; simplify_eq; cbn; lia.
  - pose proof (due_cancelled (tasks m)). lia.
  - unfold count at 1. cbn. lia.
Qed.

Lemma acts_outstanding actions : forall m m',
  acts actions m = Some m' -> (outstanding m' <= outstanding m + count is_once actions)%nat.
Proof.
  induction actions as [|a actions IH]; intros m m' E; cbn in E; [simplify_eq; cbn; lia|].
  destruct (act a m) as [m1|] eqn:Ea; [|done]. cbn in E. apply IH in E. apply act_outstanding in Ea.
  unfold count in *. cbn. destruct (is_once a); cbn; lia.
Qed.

(** A handler registered for once is called at most as often as it was registered, however
    many events are dispatched at the same time and whenever handlers wait. *)
Theorem once_handlers_called_once actions m :
  acts actions new = Some m -> (count is_call (called m) <= count is_once actions)%nat.
Proof. intros E. apply acts_outstanding in E. unfold outstanding in E. cbn in E. lia. Qed.

End Handler.
End EmitterT.
