(* ===== verification/PyDatagrams.v ===== *)
(** * Reading datagrams from Python

    [read_datagram] and [ensure_ready] of [pywebtransport/session.py].  Calls of
    [read_datagram] share one request: the task [_datagram_read_task], whose outcome the
    first call to wake up claims; the others start over.  The coroutine is cut at its
    [await] as in [PyStreamIo.v], and [connection] is what [self.connection] gives. *)

From S2P Require Import Prelude.
From S2P Require Import Types.
From S2P Require Import Pyo3.
From S2P Require Import FfiConversion.
From S2P Require Import PyConversion.
From S2P Require Import PyConnection.
From S2P Require Import PyStreamIo.
From S2P Require Import PyRequests.
Import PyObject.

(** [ensure_ready]: it waits, returns, or raises. *)
Definition ensure_ready (s : PySession.t) : option (result () PyErr) :=
  match PySession.ready s with
  | None => None
  | Some None => Some (Ok ())
  | Some (Some e) => Some (Err e)
  end.

Module DatagramReaders.

(** A call of [read_datagram]. *)
Inductive call : Set :=
| Waiting (task : nat)
| Finished (r : result bytes PyErr)
| Cancelled.

(** [tasks] are the outcomes of all tasks that were created, in order; [read_task] is the
    number of one. *)
Record t : Type := mk {
  session : PySession.t;
  read_task : option nat;
  tasks : list (option (result bytes PyErr));
  calls : list call;
}.

#[global] Instance eta_datagram_readers : Eta t := fun s => mk (session s) (read_task s) (tasks s) (calls s).
#[global] Instance set_datagram_session : Setter session := ltac:(build_setter).
#[global] Instance set_datagram_read_task : Setter read_task := ltac:(build_setter).
#[global] Instance set_datagram_tasks : Setter tasks := ltac:(build_setter).
#[global] Instance set_datagram_calls : Setter calls := ltac:(build_setter).

Definition new (session : PySession.t) : t :=
  {| session := session; read_task := None; tasks := []; calls := [] |}.

Definition outcome_of (s : t) (task : nat) : option (result bytes PyErr) := mjoin (tasks s !! task).

(** What a call makes of the outcome it claims. *)
Definition received (session : PySession.t) (outcome : result bytes PyErr) : result bytes PyErr :=
  match outcome with
  | Ok data => Ok data
  | Err e => Err (reraise SessionRequests.usual (b: "SessionError")
      (SessionRequests.session_message (b: "wt_session receive failed session_id=") session) e)
  end.

Definition claim (outcome : result bytes PyErr) (s : t) : t * call :=
  (s <| read_task := None |>, Finished (received (session s) outcome)).

(** One iteration of the loop, up to its [await]; awaiting a task that is done does not
    suspend. *)
Definition attempt (connection : option PyErr) (s : t) : t * call :=
  match read_task s with
  | Some task =>
      match outcome_of s task with
      | Some outcome => claim outcome s
      | None => (s, Waiting task)
      end
  | None =>
      if PySession.is_closed (session s) then (s, Finished (Err (SessionRequests.resolve_failed (session s))))
      else
        match connection with
        | Some e => (s, Finished (Err e))
        | None =>
            let task := length (tasks s) in
            (s <| tasks := tasks s ++ [None] |> <| read_task := Some task |>, Waiting task)
        end
  end.

(** Behind the [await]. *)
Definition resume (connection : option PyErr) (task : nat) (outcome : result bytes PyErr) (s : t) : t * call :=
  if bool_decide (read_task s = Some task) then claim outcome s else attempt connection s.

(** What can happen, in any order: a call starts, goes on when the task it awaits is done,
    or is cancelled; the crate answers a request; the session closes. *)
Inductive action : Type :=
| Start (connection : option PyErr)
| Answer (task : nat) (outcome : result bytes PyErr)
| Resume (connection : option PyErr) (number : nat)
| Cancel (number : nat)
| Close (error_code : PyObject.t).

Definition act (a : action) (s : t) : option t :=
  match a with
  | Start connection =>
      let '(s, c) := attempt connection s in Some (s <| calls := calls s ++ [c] |>)
  | Answer task outcome =>
      match tasks s !! task with
      | Some None => Some (s <| tasks := <[task := Some outcome]> (tasks s) |>)
      | _ => None
      end
  | Resume connection number =>
      match calls s !! number with
      | Some (Waiting task) =>
          outcome ← outcome_of s task;
          let '(s, c) := resume connection task outcome s in
          Some (s <| calls := <[number := c]> (calls s) |>)
      | _ => None
      end
  | Cancel number =>
      match calls s !! number with
      | Some (Waiting _) => Some (s <| calls := <[number := Cancelled]> (calls s) |>)
      | _ => None
      end
  | Close error_code => Some (s <| session := PySession.handle_closed error_code (session s) |>)
  end.

Fixpoint acts (actions : list action) (s : t) : option t :=
  match actions with
  | [] => Some s
  | a :: rest => s ← act a s; acts rest s
  end.

End DatagramReaders.

(** ** Theorems *)

Module DatagramT.
Import DatagramReaders.

(** [order] are the calls that claimed a task, in the order of the tasks: all tasks but the
    one that is shared now have been claimed, each by one call, which ended with its
    outcome, and no other call ended with a datagram. *)
Record claimed (order : list nat) (s : t) : Prop := {
  claimed_tasks : match read_task s with
                  | None => length (tasks s) = length order
                  | Some task => task = length order /\ length (tasks s) = S task
                  end;
  claimed_order : forall task number, order !! task = Some number ->
    exists outcome, tasks s !! task = Some (Some outcome) /\
      calls s !! number = Some (Finished (received (session s) outcome));
  claimed_once : NoDup order;
  claimed_only : forall number data, calls s !! number = Some (Finished (Ok data)) -> number ∈ order;
}.

(** Putting what a turn of the call came to in place of the call. *)
Definition replaces (number : nat) (c : call) (calls calls' : list call) : Prop :=
  calls' !! number = Some c /\
  (forall other, other <> number -> calls' !! other = calls !! other) /\
  forall r, calls !! number <> Some (Finished r).

Lemma replaces_kept (number other : nat) (c : call) (calls calls' : list call) (r : result bytes PyErr) :
  replaces number c calls calls' -> calls !! other = Some (Finished r) ->
  calls' !! other = Some (Finished r).
Proof. intros (_ & Hother & Hno) E. rewrite Hother; [done |]. intros ->. by apply Hno in E. Qed.

Lemma claim_claimed (order : list nat) (s : t) (task number : nat) (outcome : result bytes PyErr)
    (calls' : list call) :
  claimed order s -> read_task s = Some task -> outcome_of s task = Some outcome ->
  replaces number (claim outcome s).2 (calls s) calls' ->
  claimed (order ++ [number]) ((claim outcome s).1 <| calls := calls' |>).
Proof.
  intros [Ht Ho Hn Hok] Er Eo Hr. rewrite Er in Ht. destruct Ht as [-> Hlen].
  assert (tasks s !! length order = Some (Some outcome)) as Et.
  { unfold outcome_of in Eo. by destruct (tasks s !! length order) as [[]|]; simplify_eq/=. }
  split; cbn [claim fst read_task tasks calls session] in *.
  - cbn. rewrite length_app, Hlen. cbn. lia.
  - intros task n [E | [-> ->]]%lookup_snoc_Some.
    + destruct (Ho _ _ (proj2 E)) as (o & ? & ?). exists o. split; [done |]. by eapply replaces_kept.
    + exists outcome. split; [done |]. apply Hr.
  - apply NoDup_app. split_and!; [done | | apply NoDup_singleton].
    intros n (task & E)%list_elem_of_lookup ->%list_elem_of_singleton.
    destruct (Ho _ _ E) as (o & _ & Ec). by apply Hr in Ec.
  - intros n data E. destruct (decide (n = number)) as [-> | Hne]; [set_solver |].
    destruct Hr as (_ & Hother & _). cbn in E. rewrite Hother in E by done. apply Hok in E. set_solver.
Qed.

(** A turn of a call that claims nothing. *)
Lemma other_claimed (order : list nat) (s s' : t) (number : nat) (c : call) :
  claimed order s -> replaces number c (calls s) (calls s') ->
  (forall data, c <> Finished (Ok data)) -> session s' = session s ->
  (s' = s <| calls := calls s' |> \/
   read_task s = None /\ tasks s' = tasks s ++ [None] /\ read_task s' = Some (length (tasks s))) ->
  claimed order s'.
Proof.
  intros [Ht Ho Hn Hok] Hr Hc Es Hs. split; [| | done |].
  - destruct Hs as [-> | (Er & -> & ->)]; [done |]. rewrite Er in Ht. by rewrite length_app, Ht, Nat.add_1_r.
  - intros task n E. destruct (Ho _ _ E) as (o & Et & Ec). exists o. rewrite Es.
    split; [| by eapply replaces_kept].
    destruct Hs as [-> | (_ & -> & _)]; [done | by apply lookup_app_l_Some].
  - intros n data E. destruct (decide (n = number)) as [-> | Hne].
    + destruct Hr as (Ec & _). rewrite Ec in E. injection E as ->. by destruct (Hc data).
    + destruct Hr as (_ & Hother & _). rewrite Hother in E by done. by eapply Hok.
Qed.

Lemma attempt_claimed (order : list nat) (connection : option PyErr) (s : t) (number : nat) (calls' : list call) :
  claimed order s -> replaces number (attempt connection s).2 (calls s) calls' ->
  exists order', claimed order' ((attempt connection s).1 <| calls := calls' |>).
Proof.
  intros Hc. unfold attempt. destruct (read_task s) as [task |] eqn:Er.
  - destruct (outcome_of s task) as [outcome |] eqn:Eo; intros Hr.
    + exists (order ++ [number]). by eapply claim_claimed.
    + exists order. eapply (other_claimed order s _ number); eauto.
  - destruct (PySession.is_closed (session s)); [| destruct connection]; intros Hr; exists order;
      eapply (other_claimed order s _ number); eauto.
Qed.

Lemma received_closed (error_code : PyObject.t) (s : PySession.t) (outcome : result bytes PyErr) :
  received (PySession.handle_closed error_code s) outcome = received s outcome.
Proof. unfold PySession.handle_closed. by destruct (PySession.ready _). Qed.

Lemma replaces_snoc (c : call) (calls : list call) : replaces (length calls) c calls (calls ++ [c]).
Proof.
  split_and!.
  - by rewrite list_lookup_middle.
  - intros other Hne. destruct (decide (other < length calls)%nat); [by rewrite lookup_app_l |].
    rewrite !lookup_ge_None_2; rewrite ?length_app; cbn; (done || lia).
  - intros r. by rewrite lookup_ge_None_2.
Qed.

Lemma replaces_insert (number task : nat) (c : call) (calls : list call) :
  calls !! number = Some (Waiting task) -> replaces number c calls (<[number := c]> calls).
Proof.
  intros E. split_and!.
  - apply list_lookup_insert_eq. by eapply lookup_lt_Some.
  - intros other Hne. by rewrite list_lookup_insert_ne.
  - by rewrite E.
Qed.

Lemma act_claimed (order : list nat) (a : action) (s s' : t) :
  claimed order s -> act a s = Some s' -> exists order', claimed order' s'.
Proof.
  intros Hc. destruct a as [connection | task outcome | connection number | number | error_code]; cbn [act].
  - rewrite (surjective_pairing (attempt connection s)). intros E%(inj Some). rewrite <- E.
    assert (calls (attempt connection s).1 = calls s) as Ec.
    { unfold attempt. by repeat case_match. }
    eapply (attempt_claimed order connection s (length (calls s))); [done |]. rewrite Ec.
    apply replaces_snoc.
  - destruct (tasks s !! task) as [[] |] eqn:Et; [done | | done]. intros E%(inj Some). rewrite <- E.
    destruct Hc as [Ht Ho Hn Hok]. exists order. split; [| | done | done].
    + cbn. by rewrite length_insert.
    + intros n number En. destruct (Ho _ _ En) as (o & E1 & E2). exists o. split; [| done].
      cbn. rewrite list_lookup_insert_ne; [done |]. intros ->. by rewrite Et in E1.
  - destruct (calls s !! number) as [[task | |] |] eqn:Ec; [| done..].
    intros (outcome & Eo & E)%bind_Some. rewrite (surjective_pairing (resume _ _ _ _)) in E.
    apply (inj Some) in E. rewrite <- E.
    assert (calls (resume connection task outcome s).1 = calls s) as Es.
    { unfold resume, attempt. by repeat case_match. }
    rewrite Es. unfold resume. case_bool_decide as Er.
    + exists (order ++ [number]). eapply claim_claimed; [done.. | by eapply replaces_insert].
    + eapply (attempt_claimed order connection s number); [done | by eapply replaces_insert].
  - destruct (calls s !! number) as [[task | |] |] eqn:Ec; [| done..]. intros E%(inj Some). rewrite <- E.
    exists order. eapply (other_claimed order s _ number Cancelled); [done | | done..| by left].
    by eapply replaces_insert.
  - intros E%(inj Some). rewrite <- E. destruct Hc as [Ht Ho Hn Hok]. exists order. split; [done | | done | done].
    intros task number En. destruct (Ho _ _ En) as (o & E1 & E2). exists o. split; [done |].
    etransitivity; [exact E2 |]. do 2 f_equal. symmetry. apply received_closed.
Qed.

(** Datagrams are read once and none is lost.  However calls of [read_datagram] start, wake
    up and are cancelled, and whenever the answers come: the requests are numbered and all
    but the last one, which the calls share until it is claimed, have been claimed in
    order, each by a single call, which ends with the answer; a call that ends with a
    datagram claimed it. *)
Theorem datagrams_read_once (session : PySession.t) (actions : list action) (s : t) :
  acts actions (new session) = Some s -> exists order, claimed order s.
Proof.
  assert (forall order s0, claimed order s0 -> acts actions s0 = Some s -> exists order, claimed order s) as Hgen.
  { induction actions as [| a rest IH]; intros order s0 Hc E.
    - injection E as ->. by exists order.
    - cbn [acts] in E. apply bind_Some in E as (s1 & Ea & E).
      destruct (act_claimed _ _ _ _ Hc Ea) as (order' & ?). by eapply IH. }
  apply (Hgen []). split; cbn; [done | done | by apply NoDup_nil |]. intros number data. by rewrite lookup_nil.
Qed.

(** Whoever waits for a session to be ready is told when it closes. *)
Lemma ensure_ready_ends (error_code : PyObject.t) (s : PySession.t) :
  is_Some (ensure_ready (PySession.handle_closed error_code s)).
Proof.
  unfold ensure_ready, PySession.handle_closed. cbn.
  by destruct (PySession.ready s) as [[] |] eqn:E; cbn; rewrite ?E; eexists.
Qed.

End DatagramT.
