(* ===== verification/PyLifecycle.v ===== *)
(** * Starting and closing a controller

    [start], [close], [_acquire_runtime] and [_release_runtime] of
    [_controller/controller.py], between their awaits: the pair of sockets, the endpoint
    and the task of the waker that a controller gets and gives back, under the lock the two
    coroutines share.  [start] and [close] run them in tasks of their own, which a
    cancelled caller does not cancel. *)

From S2P Require Import Prelude.
From S2P Require Import Types.
From S2P Require Import Pyo3.
From S2P Require Import PyController.
From S2P Require Import PyStreamIo.

Module Runtime.

(** What a call of [_acquire_runtime] made: whether its sockets are open, its endpoint if
    there is one, with whether it was told to close, and its task. *)
Record resource : Set := mk_resource {
  sockets_open : bool;
  endpoint_open : option bool;
  waker_running : bool;
}.

(** The two coroutines: waiting for the lock, at the awaits behind it, and ended. *)
Inductive job : Type :=
| AcquireWaits
| Constructing (number : nat)
| AcquireDone (r : result () PyErr)
| ReleaseWaits
| ClosingEndpoint (number : nat)
| StoppingWaker (number : nat)
| ReleaseDone.

(** [resources] are all that were made, in order; [endpoint] is the one in [_endpoint],
    [_waker_task] and the two sockets. *)
Record t : Type := mk {
  is_closed : bool;
  endpoint : option nat;
  resources : list resource;
  jobs : list job;
  controller : EndpointController.t;
}.

#[global] Instance eta_runtime : Eta t := fun s => mk (is_closed s) (endpoint s) (resources s) (jobs s) (controller s).
#[global] Instance set_runtime_is_closed : Setter is_closed := ltac:(build_setter).
#[global] Instance set_runtime_endpoint : Setter endpoint := ltac:(build_setter).
#[global] Instance set_runtime_resources : Setter resources := ltac:(build_setter).
#[global] Instance set_runtime_jobs : Setter jobs := ltac:(build_setter).
#[global] Instance set_runtime_controller : Setter controller := ltac:(build_setter).

Definition new (is_client : bool) : t :=
  {| is_closed := false; endpoint := None; resources := []; jobs := []; controller := EndpointController.new is_client |}.

(** Whether a coroutine has the lock. *)
Definition holds (j : job) : bool :=
  match j with Constructing _ | ClosingEndpoint _ | StoppingWaker _ => true | _ => false end.

Definition lock_free (s : t) : bool := negb (existsb holds (jobs s)).

Definition become (number : nat) (j : job) (s : t) : t := s <| jobs := <[number := j]> (jobs s) |>.

Definition on_resource (number : nat) (f : resource -> resource) (s : t) : t :=
  s <| resources := alter f number (resources s) |>.

Definition RuntimeError : PyErr := PyException.mk (b: "RuntimeError") (b: "rt validate failed") None.

(** [_acquire_runtime] from the lock to the construction of the endpoint; [socketpair] is
    what making the sockets comes to. *)
Definition acquire (number : nat) (socketpair : result () PyErr) (s : t) : t :=
  if is_closed s then become number (AcquireDone (Err RuntimeError)) s
  else
    match endpoint s, socketpair with
    | Some _, _ => become number (AcquireDone (Ok ())) s
    | None, Err e => become number (AcquireDone (Err e)) s
    | None, Ok _ =>
        become number (Constructing (length (resources s)))
          (s <| resources := resources s ++ [mk_resource true None false] |>)
    end.

(** What the construction comes to: an endpoint with its task, an exception, or an
    endpoint whose task cannot be made. *)
Inductive constructed : Type :=
| Built
| EndpointFails (e : PyErr)
| TaskFails (e : PyErr).

Definition construct (number resource : nat) (outcome : constructed) (s : t) : t :=
  match outcome with
  | Built =>
      become number (AcquireDone (Ok ()))
        (on_resource resource (fun _ => mk_resource true (Some true) true) s) <| endpoint := Some resource |>
  | EndpointFails e =>
      become number (AcquireDone (Err e)) (on_resource resource (fun _ => mk_resource false None false) s)
  | TaskFails e =>
      become number (AcquireDone (Err e)) (on_resource resource (fun _ => mk_resource false (Some false) false) s)
  end.

Definition close_sockets (r : resource) : resource := mk_resource false (endpoint_open r) (waker_running r).
Definition stop_waker (r : resource) : resource := mk_resource (sockets_open r) (endpoint_open r) false.
Definition tell_to_close (r : resource) : resource :=
  mk_resource (sockets_open r) ((fun _ => false) <$> endpoint_open r) (waker_running r).

(** [_release_runtime] from the lock to its first [await], the thread that closes the
    endpoint; without an endpoint it has none. *)
Definition release (number : nat) (s : t) : t :=
  match endpoint s with
  | Some resource => become number (ClosingEndpoint resource) (on_resource resource tell_to_close s)
  | None => become number ReleaseDone (s <| controller := EndpointController.release (controller s) |>)
  end.

(** From there to the second: the endpoint has ended, or the timeout is over. *)
Definition endpoint_ended (number resource : nat) (s : t) : t :=
  let s := s <| controller := EndpointController.release (controller s) |> in
  match resources s !! resource with
  | Some (mk_resource _ _ true) => become number (StoppingWaker resource) s
  | _ => become number ReleaseDone (on_resource resource close_sockets s)
  end.

(** The rest: the task of the waker has ended. *)
Definition waker_stopped (number resource : nat) (s : t) : t :=
  become number ReleaseDone (on_resource resource (fun r => close_sockets (stop_waker r)) s).

(** What can happen, in any order: calls of [start] and [close]; a coroutine gets the lock
    or goes on behind an [await]; the task of the waker ends by itself; and whatever the
    controller does with events and requests. *)
Inductive action : Type :=
| Start
| Close
| Acquire (number : nat) (socketpair : result () PyErr)
| Construct (number : nat) (outcome : constructed)
| Release (number : nat)
| EndpointEnded (number : nat)
| WakerStopped (number : nat)
| WakerEnds (resource : nat)
| Works (c : EndpointController.t).

Definition act (a : action) (s : t) : option t :=
  match a with
  | Start => Some (s <| jobs := jobs s ++ [AcquireWaits] |>)
  | Close =>
      Some (if is_closed s then s else s <| is_closed := true |> <| jobs := jobs s ++ [ReleaseWaits] |>)
  | Acquire number socketpair =>
      match jobs s !! number with
      | Some AcquireWaits => if lock_free s then Some (acquire number socketpair s) else None
      | _ => None
      end
  | Construct number outcome =>
      match jobs s !! number with
      | Some (Constructing resource) => Some (construct number resource outcome s)
      | _ => None
      end
  | Release number =>
      match jobs s !! number with
      | Some ReleaseWaits => if lock_free s then Some (release number s) else None
      | _ => None
      end
  | EndpointEnded number =>
      match jobs s !! number with
      | Some (ClosingEndpoint resource) => Some (endpoint_ended number resource s)
      | _ => None
      end
  | WakerStopped number =>
      match jobs s !! number with
      | Some (StoppingWaker resource) => Some (waker_stopped number resource s)
      | _ => None
      end
  | WakerEnds resource => Some (on_resource resource stop_waker s)
  | Works c => Some (s <| controller := c |>)
  end.

Fixpoint acts (actions : list action) (s : t) : option t :=
  match actions with
  | [] => Some s
  | a :: rest => s ← act a s; acts rest s
  end.

(** ** Requests to the endpoint

    The dispatchers of requests, [sent] being what the method of the endpoint comes to. *)

Definition require_endpoint (s : t) : result nat PyErr :=
  match endpoint s with Some resource => Ok resource | None => Err RuntimeError end.

(** [dispatch_connect] *)
Definition dispatch_connect (sent : nat -> result () PyErr) (s : t) : result () PyErr :=
  match (let? resource := require_endpoint s in sent resource) with
  | Ok _ => Ok ()
  | Err e => Err (reraise [b: "ConnectionError"] (b: "ConnectionError") (b: "wt_connection open failed") e)
  end.

(** The name of the class of the event is [type_name]; [converted] is what
    [convert_protocol_event] comes to. *)
Definition send_protocol_event {A} (type_name : str) (handle : Z) (converted : result A PyErr)
    (sent : nat -> A -> result () PyErr) (s : t) : result () PyErr :=
  match (let? event_tuple := converted in let? resource := require_endpoint s in sent resource event_tuple) with
  | Ok _ => Ok ()
  | Err e =>
      Err (from_cause (b: "ConnectionError")
             (b: "rt_event send failed actual=" ++ type_name ++ b: " connection_handle="
                ++ decimal_digits 20 handle) e)
  end.

(** [connect] of the controller, up to its [await]. *)
Definition connect (sent : nat -> Z -> result () PyErr) (s : t) : t * result (Z * nat) PyErr :=
  let '(c, r) := EndpointController.execute_request (Some Resolver.ResolveConnection)
    (fun request_id => dispatch_connect (fun resource => sent resource request_id) s) (controller s) in
  (s <| controller := c |>, r).

End Runtime.

(** ** Theorems *)

Module LifecycleT.
Import Runtime.

Definition released (r : resource) : Prop :=
  sockets_open r = false /\ endpoint_open r <> Some true /\ waker_running r = false.

(** What the phase of a coroutine says about the controller. *)
Definition job_ok (s : t) (j : job) : Prop :=
  match j with
  | AcquireWaits | AcquireDone _ => True
  | Constructing n => endpoint s = None /\ resources s !! n = Some (mk_resource true None false)
  | ReleaseWaits => is_closed s = true
  | ClosingEndpoint n | StoppingWaker n =>
      is_closed s = true /\ endpoint s = Some n /\
      exists r, resources s !! n = Some r /\ endpoint_open r = Some false
  | ReleaseDone => is_closed s = true /\ forall n r, resources s !! n = Some r -> released r
  end.

Record sound (s : t) : Prop := {
  one_holder : forall i j x y, jobs s !! i = Some x -> jobs s !! j = Some y ->
    holds x = true -> holds y = true -> i = j;
  jobs_ok : forall i j, jobs s !! i = Some j -> job_ok s j;
  endpoint_built : forall n, endpoint s = Some n -> exists r, resources s !! n = Some r /\ endpoint_open r <> None;
  owned : forall n r, resources s !! n = Some r ->
    endpoint s = Some n \/ (exists i, jobs s !! i = Some (Constructing n)) \/ released r;
}.

Lemma lock_free_none (s : t) (i : nat) (j : job) :
  lock_free s = true -> jobs s !! i = Some j -> holds j = false.
Proof.
  unfold lock_free. intros H E. destruct (holds j) eqn:Ej; [| done].
  assert (existsb holds (jobs s) = true) as Hx; [| by rewrite Hx in H].
  apply existsb_exists. exists j. split; [| done]. apply list_elem_of_In. by eapply list_elem_of_lookup_2.
Qed.

(** A step of one coroutine, while no other has the lock. *)
Lemma sound_step (s s' : t) (i : nat) (x : job) :
  sound s -> jobs s' = <[i := x]> (jobs s) ->
  (forall k j, k <> i -> jobs s !! k = Some j -> holds j = false) ->
  job_ok s' x ->
  (forall j, holds j = false -> job_ok s j -> job_ok s' j) ->
  (forall n, endpoint s' = Some n -> exists r, resources s' !! n = Some r /\ endpoint_open r <> None) ->
  (forall n r, resources s' !! n = Some r ->
     endpoint s' = Some n \/ (exists k, jobs s' !! k = Some (Constructing n)) \/ released r) ->
  sound s'.
Proof.
  intros [H1 H2 _ _] Ej Hno Hx Hk He Ho. split; [| | done | done].
  - intros k1 k2 y1 y2. rewrite Ej.
    intros [(-> & <- & _) | [N1 E1]]%list_lookup_insert_Some [(-> & <- & _) | [N2 E2]]%list_lookup_insert_Some;
      [done | | | by eapply H1]; intros B1 B2.
    + by rewrite (Hno k2 y2) in B2.
    + by rewrite (Hno k1 y1) in B1.
  - intros k j. rewrite Ej. intros [(-> & <- & _) | [N E]]%list_lookup_insert_Some; [done |]. eauto.
Qed.

(** While the lock is free nothing is being constructed. *)
Lemma owned_free (s : t) (n : nat) (r : resource) :
  sound s -> lock_free s = true -> resources s !! n = Some r -> endpoint s = Some n \/ released r.
Proof.
  intros Hs Hl E. destruct (owned _ Hs _ _ E) as [? | [(i & Ei) | ?]]; [by left | | by right].
  by pose proof (lock_free_none _ _ _ Hl Ei).
Qed.

Lemma others_free (s : t) (i : nat) (x : job) :
  sound s -> jobs s !! i = Some x -> holds x = true ->
  forall k j, k <> i -> jobs s !! k = Some j -> holds j = false.
Proof.
  intros Hs Ei Hx k j Hk E. destruct (holds j) eqn:Ej; [| done].
  exfalso. apply Hk. by eapply (one_holder _ Hs k i j x).
Qed.

(** A resource is owned by the endpoint or by the coroutine that has the lock. *)
Lemma owned_held (s : t) (i n : nat) (x : job) (r : resource) :
  sound s -> jobs s !! i = Some x -> holds x = true -> resources s !! n = Some r ->
  endpoint s = Some n \/ x = Constructing n \/ released r.
Proof.
  intros Hs Ei Hx E. destruct (owned _ Hs _ _ E) as [? | [(k & Ek) | ?]]; [by left | | by right; right].
  destruct (decide (k = i)) as [-> | Hk].
  - right. left. rewrite Ei in Ek. by simplify_eq.
  - by pose proof (others_free s i x Hs Ei Hx _ _ Hk Ek).
Qed.

(** A coroutine that gets or has the lock, and changes nothing but its phase. *)
Lemma become_sound (s : t) (i : nat) (x y : job) :
  sound s -> jobs s !! i = Some x -> (forall n, x <> Constructing n) ->
  (forall k j, k <> i -> jobs s !! k = Some j -> holds j = false) ->
  job_ok s y -> sound (become i y s).
Proof.
  intros Hs Ei Hx Hno Hy. apply (sound_step s _ i y); [done.. | by destruct y | by intros [] | |].
  - apply (endpoint_built _ Hs).
  - intros n r E. destruct (owned _ Hs _ _ E) as [? | [(k & Ek) | ?]]; [by left | | by right; right].
    destruct (decide (k = i)) as [-> | Hk]; [rewrite Ei in Ek; simplify_eq; by destruct (Hx n) |].
    by pose proof (Hno _ _ Hk Ek).
Qed.

Lemma acquire_sound (s : t) (i : nat) (socketpair : result () PyErr) :
  sound s -> jobs s !! i = Some AcquireWaits -> lock_free s = true -> sound (acquire i socketpair s).
Proof.
  intros Hs Ei Hl. pose proof (lock_free_none s) as Hno.
  assert (forall r, sound (become i (AcquireDone r) s)) as Hdone
    by (intros r; eapply become_sound; eauto; done).
  unfold acquire. destruct (is_closed s) eqn:Ec; [apply Hdone |].
  destruct (endpoint s) eqn:Ee; [apply Hdone |]. destruct socketpair; [| apply Hdone].
  apply (sound_step s _ i (Constructing (length (resources s)))); [done.. | eauto | | | |].
  - split; [done |]. cbn. by rewrite list_lookup_middle.
  - intros [] Hh; try done; cbn; rewrite Ec; naive_solver.
  - cbn. by rewrite Ee.
  - intros n r [E | [-> E]]%lookup_snoc_Some.
    + destruct (owned_free s n r Hs Hl (proj2 E)) as [? | ?]; [by left | by right; right].
    + right. left. exists i. apply list_lookup_insert_eq. by eapply lookup_lt_Some.
Qed.

Lemma construct_sound (s : t) (i n : nat) (outcome : constructed) :
  sound s -> jobs s !! i = Some (Constructing n) -> sound (construct i n outcome s).
Proof.
  intros Hs Ei. pose proof (jobs_ok _ Hs _ _ Ei) as [Ee En].
  pose proof (others_free s i _ Hs Ei eq_refl) as Hno.
  assert (forall m r, m <> n -> resources s !! m = Some r -> released r) as Hrel.
  { intros m r Hm E. destruct (owned_held s i m _ r Hs Ei eq_refl E) as [? | [? | ?]]; [| | done]; congruence. }
  assert (forall s' j, is_closed s' = is_closed s -> holds j = false -> job_ok s j -> job_ok s' j) as Hother.
  { intros s' [] Ec Hh; try done; cbn; rewrite Ec; [done |].
    intros [_ Ha]. by destruct (Ha n _ En) as [? _]. }
  assert (forall f m r, alter f n (resources s) !! m = Some r ->
            m = n /\ r = f (mk_resource true None false) \/ m <> n /\ released r) as Halter.
  { intros f m r E. destruct (decide (m = n)) as [-> | Hm].
    - rewrite list_lookup_alter_eq, En in E. left. by injection E as <-.
    - rewrite list_lookup_alter_ne in E by done. right. eauto. }
  destruct outcome as [| e | e]; eapply (sound_step s _ i); try done; try (by intros; apply Hother).
  - intros m [= <-]. cbn. rewrite list_lookup_alter_eq, En. by eexists.
  - intros m r E. destruct (Halter (fun _ => mk_resource true (Some true) true) m r E) as [[-> _] | [_ ?]];
      [by left | by right; right].
  - cbn. by rewrite Ee.
  - intros m r E. right. right. by destruct (Halter (fun _ => mk_resource false None false) m r E) as [[_ ->] | [_ ?]].
  - cbn. by rewrite Ee.
  - intros m r E. right. right.
    by destruct (Halter (fun _ => mk_resource false (Some false) false) m r E) as [[_ ->] | [_ ?]].
Qed.

(** Giving up a part of a resource. *)
Definition gives_up (f : resource -> resource) : Prop :=
  (forall r, released r -> released (f r)) /\
  (forall r, endpoint_open r = Some false -> endpoint_open (f r) = Some false) /\
  (forall r, endpoint_open r <> None -> endpoint_open (f r) <> None).

Lemma stop_waker_gives_up : gives_up stop_waker.
Proof. split_and!; [intros r (? & ? & ?); by split_and! | done..]. Qed.

Lemma tell_to_close_gives_up : gives_up tell_to_close.
Proof.
  split_and!; intros [? [] ?]; cbn; try done.
  intros (? & ? & ?). by split_and!.
Qed.

Lemma close_sockets_gives_up : gives_up close_sockets.
Proof. split_and!; [intros r (? & ? & ?); by split_and! | done..]. Qed.

Lemma gives_up_compose (f g : resource -> resource) : gives_up f -> gives_up g -> gives_up (fun r => g (f r)).
Proof. intros (? & ? & ?) (? & ? & ?). split_and!; auto. Qed.

Lemma lookup_alter_inv (f : resource -> resource) (n m : nat) (rs : list resource) (r : resource) :
  alter f n rs !! m = Some r -> exists r', rs !! m = Some r' /\ (m = n /\ r = f r' \/ m <> n /\ r = r').
Proof.
  destruct (decide (m = n)) as [-> | Hm].
  - rewrite list_lookup_alter_eq. intros (r' & E & ->)%fmap_Some. eauto 6.
  - rewrite list_lookup_alter_ne by done. eauto 6.
Qed.

Lemma on_resource_sound (s : t) (n : nat) (f : resource -> resource) :
  sound s -> gives_up f ->
  (f (mk_resource true None false) = mk_resource true None false \/
   forall i, jobs s !! i <> Some (Constructing n)) ->
  sound (on_resource n f s).
Proof.
  intros [H1 H2 H3 H4] (Hrel & Hfalse & Hsome) Hf.
  assert (forall (P : resource -> Prop) m, (forall r, P r -> P (f r)) ->
            (exists r, resources s !! m = Some r /\ P r) -> exists r, alter f n (resources s) !! m = Some r /\ P r) as Hex.
  { intros P m Hp (r & E & Hr). destruct (decide (m = n)) as [-> | Hm].
    - exists (f r). rewrite list_lookup_alter_eq, E. eauto.
    - exists r. by rewrite list_lookup_alter_ne. }
  split; [done | | |].
  - intros i j Ei. pose proof (H2 i j Ei) as Hj. destruct j as [| m | | | m | m |]; try done; cbn in *.
    + split; [apply Hj |]. destruct (decide (m = n)) as [-> | Hm].
      * rewrite list_lookup_alter_eq, (proj2 Hj). destruct Hf as [Hf | Hf]; [| by destruct (Hf i)].
        cbn. by rewrite Hf.
      * rewrite list_lookup_alter_ne by done. apply Hj.
    + destruct Hj as (? & ? & ?). split_and!; [done.. |]. by apply (Hex (fun r => endpoint_open r = Some false)).
    + destruct Hj as (? & ? & ?). split_and!; [done.. |]. by apply (Hex (fun r => endpoint_open r = Some false)).
    + split; [apply Hj |]. intros m r (r' & E & [[_ ->] | [_ ->]])%lookup_alter_inv; [apply Hrel |]; by eapply Hj.
  - intros m Em. apply (Hex (fun r => endpoint_open r <> None)); [done |]. by apply H3.
  - intros m r (r' & E & Hr)%lookup_alter_inv. destruct (H4 m r' E) as [? | [? | ?]]; [by left | by right; left |].
    right. right. destruct Hr as [[_ ->] | [_ ->]]; auto.
Qed.

Lemma with_controller_sound (s : t) (c : EndpointController.t) : sound s -> sound (s <| controller := c |>).
Proof.
  intros [? H2 ? ?]. split; [done | | done | done]. intros k j Ek. by specialize (H2 k j Ek).
Qed.

Lemma release_sound (s : t) (i : nat) :
  sound s -> jobs s !! i = Some ReleaseWaits -> lock_free s = true -> sound (release i s).
Proof.
  intros Hs Ei Hl. pose proof (lock_free_none s) as Hno.
  pose proof (jobs_ok _ Hs _ _ Ei) as Hc. cbn in Hc. unfold release. destruct (endpoint s) as [n |] eqn:Ee.
  - destruct (endpoint_built _ Hs _ Ee) as (r & Er & Hr).
    apply (become_sound _ i ReleaseWaits); [| done.. | eauto |].
    + apply on_resource_sound; [done | apply tell_to_close_gives_up | by left].
    + split_and!; [done.. |]. exists (tell_to_close r). cbn [resources on_resource].
      split; [by cbn; rewrite list_lookup_alter_eq, Er |]. cbn. by destruct (endpoint_open r).
  - assert (forall m r, resources s !! m = Some r -> released r) as Hall.
    { intros m r E. destruct (owned_free s m r Hs Hl E) as [? | ?]; [congruence | done]. }
    apply (become_sound _ i ReleaseWaits); [by apply with_controller_sound | done.. | eauto | by split].
Qed.

(** The last part of [_release_runtime], once the waker has ended. *)
Lemma release_done_sound (s : t) (i n : nat) (x : job) (f : resource -> resource) :
  sound s -> jobs s !! i = Some x -> x = ClosingEndpoint n \/ x = StoppingWaker n -> gives_up f ->
  (forall r, resources s !! n = Some r -> endpoint_open r = Some false -> released (f r)) ->
  sound (become i ReleaseDone (on_resource n f s)).
Proof.
  intros Hs Ei Hx Hf Hrel.
  assert (holds x = true) as Hh by (by destruct Hx as [-> | ->]).
  assert (is_closed s = true /\ endpoint s = Some n /\
          exists r, resources s !! n = Some r /\ endpoint_open r = Some false) as (Hc & Ee & r & Er & Eo)
    by (pose proof (jobs_ok _ Hs _ _ Ei); by destruct Hx as [-> | ->]).
  pose proof (others_free s i x Hs Ei Hh) as Hno.
  assert (forall k, jobs s !! k <> Some (Constructing n)) as Hcon.
  { intros k Ek. destruct (decide (k = i)) as [-> | Hk]; [| by pose proof (Hno _ _ Hk Ek)].
    rewrite Ei in Ek. injection Ek as ->. by destruct Hx. }
  apply (become_sound _ i x); [by apply on_resource_sound; [| | right] | done | by destruct Hx as [-> | ->] | done |].
  split; [done |]. intros m r' (r0 & E & Hr)%lookup_alter_inv. destruct Hr as [[-> ->] | [Hm ->]].
  - rewrite Er in E. injection E as <-. by apply Hrel.
  - destruct (owned_held s i m x r0 Hs Ei Hh E) as [? | [-> | ?]]; [congruence | by destruct Hx | done].
Qed.

Lemma endpoint_ended_sound (s : t) (i n : nat) :
  sound s -> jobs s !! i = Some (ClosingEndpoint n) -> sound (endpoint_ended i n s).
Proof.
  intros Hs Ei. unfold endpoint_ended. pose proof (jobs_ok _ Hs _ _ Ei) as Hj.
  apply (with_controller_sound _ (EndpointController.release (controller s))) in Hs.
  set (s1 := s <| controller := _ |>) in *.
  destruct (resources s1 !! n) as [[a b []] |] eqn:Er.
  - apply (become_sound s1 i (ClosingEndpoint n)); [done | done | done | by eapply (others_free s1) | exact Hj].
  - eapply (release_done_sound s1); eauto using close_sockets_gives_up.
    intros r. rewrite Er. intros [= <-]. cbn. intros ->. done.
  - by destruct Hj as (_ & _ & r & E & _); cbn in Er; rewrite Er in E.
Qed.

Lemma waker_stopped_sound (s : t) (i n : nat) :
  sound s -> jobs s !! i = Some (StoppingWaker n) -> sound (waker_stopped i n s).
Proof.
  intros Hs Ei. eapply release_done_sound; eauto.
  - apply (gives_up_compose stop_waker close_sockets); [apply stop_waker_gives_up | apply close_sockets_gives_up].
  - intros r _ Eo. split_and!; cbn; [done | by rewrite Eo | done].
Qed.

(** A new coroutine waits for the lock. *)
Lemma spawn_sound (s : t) (x : job) :
  sound s -> holds x = false -> job_ok s x -> sound (s <| jobs := jobs s ++ [x] |>).
Proof.
  intros [H1 H2 H3 H4] Hh Hx. split; [| | done |].
  - intros i j y z [[_ E1] | [_ ->]]%lookup_snoc_Some [[_ E2] | [_ ->]]%lookup_snoc_Some; try congruence.
    by eapply H1.
  - intros i j [[_ E] | [_ ->]]%lookup_snoc_Some.
    + by specialize (H2 i j E).
    + done.
  - intros n r E. destruct (H4 n r E) as [? | [(i & Ei) | ?]]; [by left | | by right; right].
    right. left. exists i. by apply lookup_app_l_Some.
Qed.

Lemma close_sound (s : t) : sound s -> sound (s <| is_closed := true |>).
Proof.
  intros [H1 H2 H3 H4]. split; [done | | done | done].
  intros i j E. specialize (H2 i j E). destruct j; cbn in *; naive_solver.
Qed.

Lemma runtime_act_sound (a : action) (s s' : t) : sound s -> act a s = Some s' -> sound s'.
Proof.
  intros Hs. destruct a as [| | i pair | i outcome | i | i | i | n | c]; cbn [act].
  - intros E%(inj Some). rewrite <- E. by apply spawn_sound.
  - intros E%(inj Some). rewrite <- E. destruct (is_closed s); [done |].
    by apply (spawn_sound (s <| is_closed := true |>) ReleaseWaits (close_sound s Hs)).
  - destruct (jobs s !! i) as [[] |] eqn:Ei; try done. destruct (lock_free s) eqn:El; [| done].
    intros E%(inj Some). rewrite <- E. by apply acquire_sound.
  - destruct (jobs s !! i) as [[] |] eqn:Ei; try done.
    intros E%(inj Some). rewrite <- E. by apply construct_sound.
  - destruct (jobs s !! i) as [[] |] eqn:Ei; try done. destruct (lock_free s) eqn:El; [| done].
    intros E%(inj Some). rewrite <- E. by apply release_sound.
  - destruct (jobs s !! i) as [[] |] eqn:Ei; try done.
    intros E%(inj Some). rewrite <- E. by apply endpoint_ended_sound.
  - destruct (jobs s !! i) as [[] |] eqn:Ei; try done.
    intros E%(inj Some). rewrite <- E. by apply waker_stopped_sound.
  - intros E%(inj Some). rewrite <- E.
    apply on_resource_sound; [done | apply stop_waker_gives_up | by left].
  - intros E%(inj Some). rewrite <- E. by apply with_controller_sound.
Qed.

Lemma runtime_acts_sound (actions : list action) (s s' : t) : sound s -> acts actions s = Some s' -> sound s'.
Proof.
  revert s. induction actions as [| a rest IH]; intros s Hs E; [by injection E as <- |].
  cbn [acts] in E. apply bind_Some in E as (s1 & Ea & E). eapply IH; [| done]. by eapply runtime_act_sound.
Qed.

Lemma runtime_new_sound (is_client : bool) : sound (new is_client).
Proof. by split. Qed.


(** A request that could not be sent is refused and leaves nothing behind. *)
Lemma connect_refused (sent : nat -> Z -> result () PyErr) (s s' : t) (e : PyErr) :
  connect sent s = (s', Err e) ->
  (forall request, request ∈ PendingRequestManager.requests (EndpointController.pending_manager (controller s)) ->
     request.1 <> PendingRequestManager.counter (EndpointController.pending_manager (controller s))) ->
  PendingRequestManager.requests (EndpointController.pending_manager (controller s')) =
  PendingRequestManager.requests (EndpointController.pending_manager (controller s)).
Proof.
  unfold connect, EndpointController.execute_request. cbn. destruct (dispatch_connect _ s); [done |].
  intros E Hfresh. apply (f_equal fst) in E. cbn in E. rewrite <- E. cbn.
  rewrite List.filter_app. cbn. rewrite Z.eqb_refl. cbn. rewrite app_nil_r.
  revert Hfresh. generalize (PendingRequestManager.requests (EndpointController.pending_manager (controller s))) as l.
  induction l as [| request rest IH]; intros Hfresh; [done |]. cbn.
  rewrite (proj2 (Z.eqb_neq _ _) (Hfresh request (list_elem_of_here _ _))). cbn. rewrite IH; [done |].
  intros other Ho. apply Hfresh. by apply list_elem_of_further.
Qed.

(** Two starts and a close that overlap; the endpoint comes up, and is given back. *)
Definition example_lifecycle : list action :=
  [Start; Start; Acquire 1 (Ok ()); Close; Construct 1 Built; Acquire 0 (Ok ()); Release 2; EndpointEnded 2;
   Start; WakerStopped 2; Acquire 3 (Ok ())].


End LifecycleT.
