(* ===== verification/ReactorReceive.v ===== *)
(** * The receive tasks of the reactor

    The tasks [Reactor::new] spawns in [runtime/reactor.rs], one per socket: each reads
    datagrams into a buffer that it refills when little is left of it, and hands them to
    the reactor through a channel of bounded capacity.  The buffer is of the crate bytes,
    of which the class [BytesMut] has what the code relies on.  Each socket's datagrams
    reach the reactor in order, and those of at most 2048 bytes whole. *)

From S2P Require Import Prelude.
From S2P Require Import Types.
From S2P Require Import Quinn.

(** The capacity of an empty buffer after [reserve], and after [split_to] of what was
    read.  [reserve] makes room for at least what it is given. *)
Class BytesMut := {
  reserve : Z -> Z -> Z;
  split_to : Z -> Z -> Z;
  with_capacity : Z -> Z;
}.

Class BytesMutLaws `{BytesMut} := {
  reserve_enough : forall capacity additional, additional <= reserve capacity additional;
  with_capacity_enough : forall capacity, capacity <= with_capacity capacity;
}.

Definition UDP_CHANNEL_CAPACITY : nat := Z.to_nat 8192.
Definition UDP_SLAB_CAPACITY : Z := 65536.
Definition UDP_SLAB_THRESHOLD : Z := 2048.

Module ReceiveTasks.
Section Tasks.
Context `{BytesMut}.

(** A datagram in the channel, and the socket it came from. *)
Record item : Type := mk_item {
  socket : nat;
  remote_address : SocketAddr.t;
  local_address : option SocketAddr.t;
  data : bytes;
}.

(** A task: the capacity of its buffer, what it is sending if the channel is full, and
    whether its loop goes on.  [waiting] is what the system holds for the socket. *)
Record task : Type := mk_task {
  capacity : Z;
  sending : option item;
  running : bool;
  waiting : list (SocketAddr.t * bytes);
}.

(** [channel] is what was sent and not taken; [is_open] until the reactor is gone. *)
Record t : Type := mk {
  tasks : list task;
  channel : list item;
  is_open : bool;
}.

Definition spawn : task :=
  {| capacity := with_capacity UDP_SLAB_CAPACITY; sending := None; running := true; waiting := [] |}.

Definition new (sockets : nat) : t :=
  {| tasks := replicate sockets spawn; channel := []; is_open := true |}.

(** The check at the head of the loop. *)
Definition refill (capacity : Z) : Z :=
  if capacity <? UDP_SLAB_THRESHOLD then reserve capacity UDP_SLAB_CAPACITY else capacity.

(** [recv_buf_from]: what does not fit into the buffer is discarded. *)
Definition receive (number : nat) (local : option SocketAddr.t) (k : task) : option task :=
  match sending k, waiting k with
  | None, (remote, datagram) :: rest =>
      let capacity := refill (capacity k) in
      let data := take (Z.to_nat capacity) datagram in
      if running k then
        Some {| capacity := split_to capacity (len data);
                sending := Some (mk_item number remote local data); running := true; waiting := rest |}
      else None
  | _, _ => None
  end.

(** What can happen: a datagram arrives, a task receives one, a read fails, a task sends
    what it has, or ends because the reactor is gone; the reactor takes from the channel,
    or ends. *)
Inductive action : Type :=
| Arrive (number : nat) (remote : SocketAddr.t) (datagram : bytes)
| Receive (number : nat) (local : option SocketAddr.t)
| ReceiveFails (number : nat)
| Send (number : nat)
| Take
| Stop.

Definition update (number : nat) (k : task) (r : t) : t :=
  {| tasks := <[number := k]> (tasks r); channel := channel r; is_open := is_open r |}.

(** [send]: it waits while the channel is full, and fails when the reactor is gone. *)
Definition send (number : nat) (k : task) (i : item) (r : t) : option t :=
  let idle running := {| capacity := capacity k; sending := None; running := running; waiting := waiting k |} in
  if negb (is_open r) then Some (update number (idle false) r)
  else if bool_decide (length (channel r) < UDP_CHANNEL_CAPACITY)%nat then
    Some {| tasks := <[number := idle true]> (tasks r); channel := channel r ++ [i]; is_open := true |}
  else None.

(** Also what the reactor takes. *)
Definition act (a : action) (r : t) : option (t * option item) :=
  match a with
  | Arrive number remote datagram =>
      k ← tasks r !! number;
      Some (update number {| capacity := capacity k; sending := sending k; running := running k;
                             waiting := waiting k ++ [(remote, datagram)] |} r, None)
  | Receive number local =>
      k ← tasks r !! number; k ← receive number local k; Some (update number k r, None)
  | ReceiveFails number =>
      k ← tasks r !! number;
      if running k && bool_decide (sending k = None) then
        Some (update number {| capacity := refill (capacity k); sending := None; running := true;
                               waiting := waiting k |} r, None)
      else None
  | Send number =>
      k ← tasks r !! number; i ← sending k; r ← send number k i r; Some (r, None)
  | Take =>
      match channel r with
      | [] => None
      | i :: rest => Some ({| tasks := tasks r; channel := rest; is_open := is_open r |}, Some i)
      end
  | Stop => Some ({| tasks := tasks r; channel := []; is_open := false |}, None)
  end.

Fixpoint acts (actions : list action) (r : t) : option (t * list item) :=
  match actions with
  | [] => Some (r, [])
  | a :: rest =>
      '(r, taken) ← act a r; '(r, items) ← acts rest r; Some (r, option_list taken ++ items)
  end.

End Tasks.
End ReceiveTasks.

(** ** Theorems *)

Module ReceiveT.
Import ReceiveTasks.
Section Proofs.
Context `{BytesMutLaws}.

(** The datagrams of a socket among those handed over. *)
Definition seen (number : nat) (items : list item) : list (SocketAddr.t * bytes) :=
  map (fun i => (remote_address i, data i)) (filter (fun i => socket i = number) items).

(** The datagrams that arrive at a socket. *)
Definition arrival (number : nat) (a : action) : list (SocketAddr.t * bytes) :=
  match a with
  | Arrive n remote datagram => if bool_decide (n = number) then [(remote, datagram)] else []
  | _ => []
  end.

(** A datagram and what is left of it: its sender and a prefix of it, at least 2048
    bytes long if it is cut. *)
Definition received_as (sent got : SocketAddr.t * bytes) : Prop :=
  fst got = fst sent /\
  exists n, snd got = take (Z.to_nat n) (snd sent) /\ UDP_SLAB_THRESHOLD <= n.

Definition on_the_way (number : nat) (k : task) (r : t) : list (SocketAddr.t * bytes) :=
  seen number (channel r ++ option_list (sending k)) ++ waiting k.

(** While the reactor runs: what a task sends is its own, and no task has ended. *)
Definition sound (r : t) : Prop :=
  (length (channel r) <= UDP_CHANNEL_CAPACITY)%nat /\
  (is_open r = true -> forall number k, tasks r !! number = Some k -> running k = true) /\
  forall number k i, tasks r !! number = Some k -> sending k = Some i -> socket i = number.

Lemma seen_app (number : nat) (xs ys : list item) :
  seen number (xs ++ ys) = seen number xs ++ seen number ys.
Proof. unfold seen. by rewrite filter_app, map_app. Qed.

Lemma seen_own (i : item) :
  seen (socket i) [i] = [(remote_address i, data i)].
Proof. unfold seen. by rewrite filter_cons_True. Qed.

Lemma seen_other (number : nat) (i : item) :
  socket i <> number -> seen number [i] = [].
Proof. intros ?. unfold seen. by rewrite filter_cons_False. Qed.

Ltac seen_simpl :=
  cbn -[seen]; change (seen _ []) with (@nil (SocketAddr.t * bytes)); cbn -[seen].

Lemma refill_enough (capacity : Z) : UDP_SLAB_THRESHOLD <= refill capacity.
Proof.
  unfold refill. pose proof (reserve_enough capacity UDP_SLAB_CAPACITY).
  unfold UDP_SLAB_CAPACITY, UDP_SLAB_THRESHOLD in *. case_match; lia.
Qed.

#[export] Instance received_as_refl : Reflexive received_as.
Proof.
  intros [sender datagram]. split; [done |].
  exists (Z.max UDP_SLAB_THRESHOLD (len datagram)). split; [| lia].
  cbn. rewrite take_ge; [done | unfold len; lia].
Qed.

#[export] Instance received_as_trans : Transitive received_as.
Proof.
  intros [s1 d1] [s2 d2] [s3 d3] [E1 (n & E2 & Hn)] [E3 (m & E4 & Hm)]. cbn in *. subst.
  split; [done |]. exists (m `min` n). cbn. rewrite take_take. split; [f_equal; lia | lia].
Qed.

Lemma task_receive_inv (number : nat) (local : option SocketAddr.t) (k k' : task) :
  receive number local k = Some k' ->
  running k' = true /\ sending k = None /\
  exists sender datagram i, waiting k = (sender, datagram) :: waiting k' /\ sending k' = Some i /\
    socket i = number /\ received_as (sender, datagram) (remote_address i, data i).
Proof.
  unfold receive. destruct (sending k); [done |].
  destruct (waiting k) as [| [sender datagram] rest]; [done |].
  destruct (running k); [| done]. intros E%(inj Some). rewrite <- E. cbn. split_and!; [done.. |].
  exists sender, datagram. eexists. split_and!; [done.. |].
  split; [done |]. exists (refill (capacity k)). split; [done | apply refill_enough].
Qed.

Lemma send_inv (number : nat) (k : task) (i : item) (r r' : t) :
  send number k i r = Some r' ->
  exists k', tasks r' = <[number := k']> (tasks r) /\ sending k' = None /\ waiting k' = waiting k /\
    is_open r' = is_open r /\
    (is_open r = true -> running k' = true /\ channel r' = channel r ++ [i]) /\
    (length (channel r) <= UDP_CHANNEL_CAPACITY -> length (channel r') <= UDP_CHANNEL_CAPACITY)%nat.
Proof.
  unfold send. destruct (is_open r) eqn:Eo; cbn -[UDP_CHANNEL_CAPACITY].
  - case_bool_decide as Hroom; [| done]. intros E%(inj Some). rewrite <- E.
    cbn -[UDP_CHANNEL_CAPACITY]. eexists. split_and!; [done.. | intros _]. rewrite length_app. cbn. lia.
  - intros E%(inj Some). rewrite <- E. cbn -[UDP_CHANNEL_CAPACITY]. by eexists.
Qed.

(** Where a step changes one task, the invariant needs only that task. *)
Lemma sound_insert (r r' : t) (number : nat) (k : task) :
  sound r -> tasks r' = <[number := k]> (tasks r) -> (is_open r' = true -> is_open r = true) ->
  (length (channel r') <= UDP_CHANNEL_CAPACITY)%nat ->
  (is_open r' = true -> running k = true) ->
  (forall i, sending k = Some i -> socket i = number) -> sound r'.
Proof.
  intros (_ & Hrun & Hown) Et Ho Hc Hk Hi. split_and!; [done | |].
  - intros Eo n k'. rewrite Et. intros [(-> & <- & _) | [_ ?]]%list_lookup_insert_Some; eauto.
  - intros n k' i. rewrite Et. intros [(-> & <- & _) | [_ ?]]%list_lookup_insert_Some; eauto.
Qed.

Lemma act_sound (a : action) (r r' : t) (taken : option item) :
  sound r -> act a r = Some (r', taken) -> sound r' /\ (is_open r' = true -> is_open r = true).
Proof.
  intros Hs. pose proof Hs as (Hc & Hrun & Hown).
  destruct a as [n sender datagram | n local | n | n | |]; cbn [act].
  - intros (k & Ek & E%(inj Some))%bind_Some. injection E as <- _. split; [| done].
    eapply (sound_insert r _ n); [done.. | |]; cbn; eauto.
  - intros (k & Ek & (k' & Er & E%(inj Some))%bind_Some)%bind_Some. injection E as <- _. split; [| done].
    apply task_receive_inv in Er as (? & _ & ? & ? & i & _ & Ei & ? & _).
    eapply (sound_insert r _ n); eauto. intros j. rewrite Ei. by intros [= <-].
  - intros (k & Ek & E)%bind_Some. case_match; [| done]. apply (inj Some) in E. injection E as <- _.
    split; [| done]. by eapply (sound_insert r _ n).
  - intros (k & Ek & (i & Ei & (r'' & Er & E%(inj Some))%bind_Some)%bind_Some)%bind_Some.
    injection E as <- _. apply send_inv in Er as (k' & Et & Es & _ & Eo & Hk & Hlen).
    split; [| by rewrite Eo]. eapply (sound_insert r _ n); eauto; rewrite ?Eo, ?Es; naive_solver.
  - destruct (channel r) as [| i rest] eqn:Ec; [done |]. intros E%(inj Some). injection E as <- _.
    split; [| done]. cbn -[UDP_CHANNEL_CAPACITY] in Hc. split_and!; cbn -[UDP_CHANNEL_CAPACITY]; [lia | done..].
  - intros E%(inj Some). injection E as <- _. split; [| done].
    split_and!; cbn -[UDP_CHANNEL_CAPACITY]; [lia | done..].
Qed.

(** What is said of one step: the datagrams on their way to the reactor, and those that
    arrive, are handed over or are still on their way. *)
Definition kept (number : nat) (k : task) (r : t) (arrived : list (SocketAddr.t * bytes))
    (r' : t) (taken : list item) : Prop :=
  exists k', tasks r' !! number = Some k' /\
    Forall2 received_as (on_the_way number k r ++ arrived) (seen number taken ++ on_the_way number k' r').

(** A step that changes another socket's task, or nothing of this one's. *)
Lemma kept_same (number n : nat) (k k' kn : task) (r : t) :
  tasks r !! number = Some k -> tasks r !! n = Some kn ->
  (n = number -> sending k' = sending k /\ waiting k' = waiting k) ->
  kept number k r [] (update n k' r) [].
Proof.
  intros Ek En Hk. destruct (decide (n = number)) as [-> | Hne].
  - exists k'. split; [by apply list_lookup_insert_eq, lookup_lt_is_Some; eauto |].
    destruct (Hk eq_refl) as [Es Ew]. unfold on_the_way. seen_simpl. by rewrite Es, Ew, app_nil_r.
  - exists k. split; [by cbn; rewrite list_lookup_insert_ne |]. seen_simpl. by rewrite app_nil_r.
Qed.

Lemma kept_arrive (number n : nat) (k kn : task) (r : t) (sender : SocketAddr.t) (datagram : bytes) :
  tasks r !! number = Some k -> tasks r !! n = Some kn ->
  kept number k r (arrival number (Arrive n sender datagram))
    (update n {| capacity := capacity kn; sending := sending kn; running := running kn;
                 waiting := waiting kn ++ [(sender, datagram)] |} r) [].
Proof.
  intros Ek En. cbn [arrival]. case_bool_decide as Hn; [| by eapply kept_same].
  subst. rewrite Ek in En. injection En as <-. eexists.
  split; [by apply list_lookup_insert_eq, lookup_lt_is_Some; eauto |].
  unfold on_the_way. seen_simpl. by rewrite app_assoc.
Qed.

Lemma kept_receive (number n : nat) (k kn kn' : task) (r : t) (local : option SocketAddr.t) :
  tasks r !! number = Some k -> tasks r !! n = Some kn -> receive n local kn = Some kn' ->
  kept number k r [] (update n kn' r) [].
Proof.
  intros Ek En (_ & Es & sender & datagram & i & Ew & Ei & Hi & Hr)%task_receive_inv.
  destruct (decide (n = number)) as [-> | Hne]; [| by eapply kept_same].
  rewrite Ek in En. injection En as <-. exists kn'.
  split; [by apply list_lookup_insert_eq, lookup_lt_is_Some; eauto |].
  unfold on_the_way. seen_simpl. rewrite Es, Ei, Ew. seen_simpl. rewrite !app_nil_r, seen_app, <- app_assoc.
  subst number. rewrite seen_own. apply Forall2_app; [done |]. by constructor.
Qed.

Lemma kept_send (number n : nat) (k kn : task) (i : item) (r r' : t) :
  sound r -> is_open r = true -> tasks r !! number = Some k -> tasks r !! n = Some kn ->
  sending kn = Some i -> send n kn i r = Some r' -> kept number k r [] r' [].
Proof.
  intros (_ & _ & Hown) Ho Ek En Ei (k' & Et & Es & Ew & _ & Hc & _)%send_inv.
  destruct (Hc Ho) as [_ Ec]. unfold kept. rewrite Et, app_nil_r.
  destruct (decide (n = number)) as [-> | Hne].
  - rewrite Ek in En. injection En as <-. exists k'.
    split; [by apply list_lookup_insert_eq, lookup_lt_is_Some; eauto |].
    unfold on_the_way. seen_simpl. by rewrite Es, Ei, Ew, Ec, app_nil_r.
  - exists k. split; [by rewrite list_lookup_insert_ne |].
    unfold on_the_way. seen_simpl. rewrite Ec, <- app_assoc, !seen_app, (seen_other number i); [done |].
    by rewrite (Hown n kn i).
Qed.

Lemma act_kept (number : nat) (a : action) (k : task) (r r' : t) (taken : option item) :
  sound r -> act a r = Some (r', taken) -> is_open r' = true -> tasks r !! number = Some k ->
  kept number k r (arrival number a) r' (option_list taken).
Proof.
  intros Hs E Ho Ek. pose proof (act_sound _ _ _ _ Hs E) as [_ Ho0]. specialize (Ho0 Ho). revert E.
  destruct a as [n sender datagram | n local | n | n | |]; cbn [act arrival].
  - intros (kn & En & E%(inj Some))%bind_Some. injection E as <- <-. by apply kept_arrive.
  - intros (kn & En & (kn' & Er & E%(inj Some))%bind_Some)%bind_Some. injection E as <- <-.
    by eapply kept_receive.
  - intros (kn & En & E)%bind_Some. case_match eqn:Eb; [| done]. apply (inj Some) in E.
    injection E as <- <-. eapply kept_same; [done.. |]. intros ->.
    apply andb_true_iff in Eb as [_ Es%bool_decide_eq_true_1]. rewrite Ek in En. injection En as <-. done.
  - intros (kn & En & (i & Ei & (r'' & Er & E%(inj Some))%bind_Some)%bind_Some)%bind_Some.
    injection E as <- <-. by eapply kept_send.
  - destruct (channel r) as [| i rest] eqn:Ec; [done |]. intros E%(inj Some). injection E as <- <-.
    exists k. split; [done |]. unfold on_the_way. cbn [channel option_list].
    by rewrite Ec, app_nil_r, app_assoc, <- seen_app.
  - intros E%(inj Some). by injection E as <- <-.
Qed.

Lemma acts_sound (actions : list action) (r r' : t) (taken : list item) :
  sound r -> acts actions r = Some (r', taken) -> sound r' /\ (is_open r' = true -> is_open r = true).
Proof.
  revert r taken. induction actions as [| a rest IH]; intros r taken Hs E.
  { by injection E as -> <-. }
  cbn [acts] in E. apply bind_Some in E as ([r1 t1] & Ea & ([r2 t2] & Er & E%(inj Some))%bind_Some).
  injection E as -> _. destruct (act_sound _ _ _ _ Hs Ea) as [Hs1 Ho1].
  destruct (IH _ _ Hs1 Er) as [? Ho2]. auto.
Qed.

Lemma acts_kept (number : nat) (actions : list action) (k : task) (r r' : t) (taken : list item) :
  sound r -> acts actions r = Some (r', taken) -> is_open r' = true -> tasks r !! number = Some k ->
  kept number k r (actions ≫= arrival number) r' taken.
Proof.
  revert k r taken. induction actions as [| a rest IH]; intros k r taken Hs E Ho Ek.
  { injection E as -> <-. exists k. cbn [mbind list_bind]. by rewrite app_nil_r. }
  cbn [acts] in E. apply bind_Some in E as ([r1 t1] & Ea & ([r2 t2] & Er & E%(inj Some))%bind_Some).
  injection E as -> <-. destruct (act_sound _ _ _ _ Hs Ea) as [Hs1 _].
  destruct (acts_sound _ _ _ _ Hs1 Er) as [_ Ho1].
  destruct (act_kept number a k r r1 t1 Hs Ea (Ho1 Ho) Ek) as (k1 & Ek1 & F1).
  destruct (IH k1 r1 t2 Hs1 Er Ho Ek1) as (k2 & Ek2 & F2).
  exists k2. split; [done |]. rewrite bind_cons, seen_app, (app_assoc (on_the_way _ _ _)), <- (app_assoc (seen _ _)).
  transitivity ((seen number (option_list t1) ++ on_the_way number k1 r1) ++ (rest ≫= arrival number)).
  - by apply Forall2_app.
  - rewrite <- app_assoc. by apply Forall2_app.
Qed.

Lemma sound_new (sockets : nat) : sound (new sockets).
Proof.
  split_and!; cbn -[UDP_CHANNEL_CAPACITY]; [lia | |].
  - by intros _ number k [-> _]%lookup_replicate.
  - by intros number k i [-> _]%lookup_replicate.
Qed.

(** C31: the receive tasks.  Whatever the order in which datagrams arrive, are received,
    fail to be and are handed over, as long as the reactor runs: the channel never holds
    more than its 8192 datagrams, no task has ended, and for every socket the datagrams
    the reactor took, those in the channel, the one its task is sending and those that wait
    at the socket are all those that arrived, in order, each from its sender, each either
    whole or, if longer than what was left of the buffer, cut to at least 2048 bytes. *)
Theorem receive_keeps_datagrams (sockets number : nat) (actions : list action) (r : t) (taken : list item) :
  acts actions (new sockets) = Some (r, taken) -> is_open r = true -> (number < sockets)%nat ->
  (length (channel r) <= UDP_CHANNEL_CAPACITY)%nat /\
  exists k, tasks r !! number = Some k /\ running k = true /\
    Forall2 received_as (actions ≫= arrival number)
      (seen number (taken ++ channel r ++ option_list (sending k)) ++ waiting k).
Proof.
  intros E Ho Hn. pose proof (sound_new sockets) as Hs.
  destruct (acts_sound _ _ _ _ Hs E) as [(Hc & Hrun & _) _]. split; [done |].
  assert (tasks (new sockets) !! number = Some spawn) as Ek by by apply lookup_replicate.
  destruct (acts_kept number actions spawn _ r taken Hs E Ho Ek) as (k & Ek' & F).
  exists k. split_and!; [done | by eapply Hrun |].
  rewrite (seen_app number taken), <- app_assoc. exact F.
Qed.

(** A datagram of at most 2048 bytes is received whole. *)
Lemma small_received_whole (sent got : SocketAddr.t * bytes) :
  received_as sent got -> len (snd sent) <= UDP_SLAB_THRESHOLD -> got = sent.
Proof.
  destruct sent, got. intros [E1 (n & E2 & Hn)] Hlen. cbn in *. subst.
  rewrite take_ge; [done |]. unfold len in Hlen. lia.
Qed.

End Proofs.

(** A buffer that gives exactly what it is asked for. *)
Definition exact_buffer : BytesMut :=
  {| reserve _ additional := Z.max 0 additional; split_to capacity n := capacity - n;
     with_capacity capacity := Z.max 0 capacity |}.

Lemma exact_buffer_laws : @BytesMutLaws exact_buffer.
Proof. split; cbn; lia. Qed.

Definition localhost : SocketAddr.t := SocketAddr.V4 2130706433 4433.

(** Two sockets: a datagram is taken, one is in the channel, one is being sent and one
    waits. *)
Definition sample_actions : list action :=
  [Arrive 0 localhost (b: "first"); Receive 0 (Some localhost); ReceiveFails 1;
   Arrive 1 localhost (b: "second"); Arrive 0 localhost (b: "third");
   Send 0; Receive 0 None; Receive 1 None; Send 1; Arrive 0 localhost (b: "fourth"); Take].

Lemma receive_keeps_datagrams_witness :
  match @acts exact_buffer sample_actions (@new exact_buffer 2) with
  | Some (r, taken) =>
      (length (channel r) <= UDP_CHANNEL_CAPACITY)%nat /\
      exists k, tasks r !! 0%nat = Some k /\ running k = true /\
        Forall2 received_as (sample_actions ≫= arrival 0)
          (seen 0 (taken ++ channel r ++ option_list (sending k)) ++ waiting k)
  | None => False
  end.
Proof.
  assert (option_map (fun p => is_open (fst p)) (@acts exact_buffer sample_actions (@new exact_buffer 2)) =
          Some true) as Ho by (vm_compute; reflexivity).
  destruct (@acts exact_buffer sample_actions (@new exact_buffer 2)) as [[r taken] |] eqn:E; [| discriminate Ho].
  apply (@receive_keeps_datagrams exact_buffer exact_buffer_laws 2 0 sample_actions r taken E); [| lia].
  exact (f_equal (default false) Ho).
Defined.

(** A datagram larger than what is left of the buffer, once this is at least 2048 bytes,
    loses its end. *)
Theorem large_datagram_cut `{BytesMut} (number : nat) (local : option SocketAddr.t)
    (k k' : task) (sender : SocketAddr.t) (datagram : bytes) (rest : list (SocketAddr.t * bytes)) :
  UDP_SLAB_THRESHOLD <= capacity k < len datagram ->
  waiting k = (sender, datagram) :: rest -> receive number local k = Some k' ->
  exists i, sending k' = Some i /\ len (data i) = capacity k.
Proof.
  unfold UDP_SLAB_THRESHOLD. intros Hc Ew. unfold receive. rewrite Ew.
  destruct (sending k); [done |]. destruct (running k); [| done].
  intros E%(inj Some). rewrite <- E. eexists. split; [done |]. cbn [data].
  unfold refill, UDP_SLAB_THRESHOLD. rewrite (proj2 (Z.ltb_ge _ _)) by lia.
  unfold len in *. rewrite length_take. lia.
Qed.

End ReceiveT.
